(* ===== verification/_CoqProject ===== *)
-Q . S2P
Prelude.v
Externals.v
KnownCache.v
ExpHeap.v
NetUtil.v
DialScheduler.v
DialSafety.v
DialLoop.v
Protocols.v
PeerConn.v
P2PServer.v
P2PServerProps.v
Broadcast.v
EthPeer.v
Tracker.v
Dispatcher.v
ChainReader.v
EthServe.v
EnodeCache.v
NodeManager.v
ForkID.v
Handshake.v
EthHandle.v
PeerSet.v
EthConn.v
Bytes.v
Rlp.v
RlpProps.v
RlpBuffer.v
RlpStream.v
RlpTypes.v
RlpRoundtrip.v
RlpDecode.v
RlpExact.v
RlpTotal.v
NodeID.v
DiscTable.v
DiscTableProps.v
DiscClosest.v
DiscLookup.v
Enr.v
EnrProps.v
EnrNode.v
V4Wire.v
V4WireProps.v
NodeDB.v
NodeDBProps.v
V4Udp.v
V4UdpNodes.v
V4UdpProps.v
V4UdpTime.v
TrieKeys.v
Trie.v
TriePure.v
TrieUpd.v
TrieLoad.v
TrieOps.v
TrieHash.v
TrieMap.v
TrieDecode.v
TrieBind.v
TrieProps.v
TrieProof.v
TrieProofProps.v
TrieDB.v
TrieDBInv.v
TrieRaw.v
TrieDBOk.v
TrieDBGrow.v
TrieCommit.v
TrieFlush.v
TrieCap.v
TrieGC.v
TrieDBEx.v
TrieDBProps.v
StackTrie.v
StackTrieOk.v
StackTrieProps.v
