(* ===== verification/Prelude.v ===== *)
(** * TurboOctopus: a verification of the node's networking core and tries

    TurboOctopus is a go-ethereum/BSC node turned into a relay: it keeps many
    eth connections open, hands every transaction and block it hears of to its
    gRPC clients, once each, and submits the clients' transactions to chosen
    peers.  It does not execute blocks.  This library models the code that
    does this, shallowly: Go functions are Rocq functions over explicit state,
    goroutines are step relations, and the theorems are about these
    definitions.

    ** Conventions
    A call that can panic or block returns an [outcome] (below), stateful code
    is in the monad [GoM], and [runs I m Q] says that [m] completes from every
    state in [I], ends in [I] and returns a value in [Q].  Integers are [Z];
    where the width matters the wrap-around is written out ([u64], [i64]).
    Go maps are stdpp's [gmap], slices are lists.  The order in which a map is
    ranged over, the clock, random numbers, the network and the scheduler are
    inputs.  Third-party packages (golang-set, concurrent-map, the LRU cache)
    are the type classes [MapSet], [CMap] and [Lru] of Externals.v with their
    documented laws, and have an instance each.

    ** Parts and files
    - Node manager (src/node_manager): KnownCache.v (the bounded cache of known
      hashes), EnodeCache.v (pool and history of nodes to dial, crawl.go),
      NodeManager.v (relaying to clients, coinbase bookkeeping, transaction
      submission, the manager and crawl rounds, the client streams).
    - Dialing (src/p2p/dial.go, util.go, netutil/net.go): ExpHeap.v (the expiry
      heap), NetUtil.v (LAN lists, DistinctNetSet), DialScheduler.v (the
      scheduler's state and operations), DialSafety.v (its invariant),
      DialLoop.v (the loop and its theorems).
    - Server and peers (src/p2p/server.go, peer.go, protocol.go,
      peer_error.go): Protocols.v (negotiation and routing of messages),
      PeerConn.v (the goroutines of a connection and its end), P2PServer.v and
      P2PServerProps.v (admission, set-up, the main loop, limits).
    - eth protocol (src/eth/protocols/eth): Broadcast.v (transaction write
      loops), EthPeer.v (queues, known hashes, block assembly), Tracker.v
      (src/p2p/tracker), Dispatcher.v (requests and responses), ChainReader.v
      (src/core/headerchain.go and src/core/rawdb), EthServe.v (replies),
      ForkID.v (src/core/forkid), Handshake.v, EthHandle.v (incoming
      messages).
    - eth handler (src/eth): PeerSet.v (peerset.go), EthConn.v (runEthPeer of
      handler.go, with src/callback_manager).
    - RLP codec (src/rlp): Bytes.v (big-endian integers), Rlp.v (raw.go, the
      headers of encode.go and encbuffer.go), RlpStream.v (the Stream of
      decode.go), RlpTypes.v (the writers and decoders made by reflection, over
      a syntax [typ] of Go types).  RlpProps.v and RlpBuffer.v hold the lemmas
      on headers and on the buffer, RlpRoundtrip.v the specification
      [encodes] and the writers, RlpDecode.v, RlpExact.v and RlpTotal.v the
      decoders.

    - Node discovery (src/p2p/discover, src/p2p/enode): NodeID.v (the XOR metric
      of enode/node.go), DiscTable.v (the Kademlia table of table.go with its
      address limits and the revalidation), DiscLookup.v (the lookup of
      lookup.go as a step relation: the goroutines of the queries, the reply
      channel, the main loop).  DiscTableProps.v holds the invariants of the
      table, DiscClosest.v the search of the closest nodes.  Enr.v models node
      records (src/p2p/enr, enode/idscheme.go, urlv4.go) over the interface
      [Crypto], with EnrProps.v and EnrNode.v; V4Wire.v and V4WireProps.v the
      packets (discover/v4wire); NodeDB.v and NodeDBProps.v the node database
      (enode/nodedb.go) over the interface [KVStore]; V4Udp.v the endpoint
      (discover/v4_udp.go), which uses all of these, as a sequence of steps of its
      goroutines.  V4UdpNodes.v holds the lemmas on what is sent and received,
      V4UdpProps.v the invariant of the endpoint, V4UdpTime.v its timer.
    - Merkle Patricia tries (src/trie): TrieKeys.v (encoding.go), Trie.v (node.go,
      node_enc.go, hasher.go, trie.go, over what the database returns for a hash),
      TrieProof.v (Prove and VerifyProof of proof.go).  TriePure.v has the tree a
      trie stands for and its normal form, TrieUpd.v the updates of trees,
      TrieLoad.v the relation between loaded nodes and trees, TrieOps.v, TrieHash.v
      and TrieDecode.v the operations, the hasher and the decoder against it,
      TrieMap.v, TrieBind.v, TrieProps.v and TrieProofProps.v the theorems.
    - Trie database (src/trie/database.go, committer.go, Commit of trie.go):
      TrieDB.v has the nodes in memory with their reference counts and flush list,
      the clean cache, the disk (the interface [KVStore]) and all operations on
      them.  TrieDBInv.v describes the flush list, TrieRaw.v the collapsed nodes,
      TrieDBOk.v the invariant [db_ok].  TrieDBGrow.v (insertion, references),
      TrieCommit.v (committing a trie), TrieFlush.v (writing one to disk),
      TrieCap.v (the memory limit) and TrieGC.v (dereferencing) show what each
      operation does to it; TrieDBProps.v has the theorems, on a step relation of
      the operations, and TrieDBEx.v the tries their examples use.  Sharing between
      tries is by hash, so the theorems speak of the tries in use as a [Universe]:
      a set of nodes closed under children, on which the hash has no collision,
      with the references of leaves to other tries (accounts to storage tries).
      The clean cache is the interface [Cache], which may forget; the order in
      which maps are ranged over and the failures of writes are inputs.
    - Stack trie (src/trie/stacktrie.go) and DeriveSha (src/core/types/hashing.go),
      with which the eth handlers check announced blocks: StackTrie.v; StackTrieOk.v
      relates stack tries to trees, StackTrieProps.v has the theorems.  DeriveSha is
      over the interface [TrieHasher], which stack tries and tries implement.

    ** What the theorems show
    - The dial scheduler's pool is exact, its loop neither panics nor blocks
      (one deadlock apart, which is proved), dials stay within their limits.
    - The server's counts agree with its peers and with the scheduler's; the
      admission rules and limits hold; connections are set up or refused on
      every branch; messages reach the protocol they were sent for.
    - Transactions and blocks are relayed exactly once to every client; the
      other manager operations are specified; streams lose nothing.
    - Requests are answered at most once, tracked consistently; header and
      data queries return what the chain holds, within their limits; two nodes
      of the same network always complete the handshake.
    - The peer set holds exactly the registered connections in every
      interleaving.
    - The RLP encoder refines the specification of the encoding, whatever the
      type; decoding gives the value back; decoders of types without optional
      fields accept exactly the encodings of their values; decoding ends on
      every input.

    - Every operation keeps the discovery table well formed and within its
      address limits; findnodeByID gives the closest nodes; a lookup ends,
      asks no node twice and gives the closest of the nodes it has seen.
    - Node records are finite maps with exactly one accepted encoding; what is
      signed is accepted by every other node.  Packets are read as they were
      written.  The endpoint neither panics nor blocks, ends every request once,
      and sends large replies only to addresses that have answered a ping.
    - A trie is a finite map whatever part of it is loaded, its root hash is a
      function of the map and binds it up to collisions of the hash function,
      nodes survive their encoding, Merkle proofs are complete and sound.
    - A committed trie opens again from its root hash.  A flush that succeeds makes
      it durable, one that fails loses nothing; dereferencing and the memory limit
      never break a trie whose root is referenced or on disk, in any sequence of
      operations, failed writes and restarts.  Reference counts are 32 bits wide:
      the theorems assume that they have room.
    - The stack trie computes the root hash of the trie for keys in order and stores
      the whole trie; DeriveSha presents its keys in order, and its hash binds the
      list of transactions up to collisions of the hash function.

    ** Bounds and fuel
    Loops without a structural argument carry fuel computed from their input:
    the eviction loop of the cache its cardinality, heap operations the length
    of the heap, header walks the number of headers asked for (at most
    [maxHeadersServe], and twice that for header queries at a distance).
    Each has a lemma that the result does not depend on running out.
    The loops of the RLP decoders are bounded by the length of the input, that
    over the words of a big integer by its bit length; [decode_terminates]
    shows that no input reaches the bounds.

    The binary search of sort.Search is bounded by the length of the list.
    Walks down a trie get twice the length of the key and two more: a step consumes
    part of the key or loads a node; the theorems say that this is enough.
    Recursion over the references of the trie database gets the number of nodes in
    memory and one more: the rank of nodes bounds the depth of references by it.

    ** Not modelled
    Network and disk I/O, RLPx encryption, cryptography (parameters where it is
    used), logging and metrics; the parts of go-ethereum this node does not
    run (downloader, miner, light client, EVM, state processing, wallets,
    RPC); the gRPC and HTTP plumbing of the node manager.
    Of RLP: types with their own EncodeRLP or DecodeRLP, recursive types, the
    type cache, encReader, the iterators and rlpgen.
    Of discovery: the timers of the table loop, LocalNode, discv5 and DNS discovery.
    Of tries: range proofs, iterators, synchronisation, the gob form of
    stack tries and the wrapper that hashes keys; of the trie database the statistics, the rough sizes
    it reports and the journal of the clean cache. *)

From stdpp Require Import base list numbers strings option relations sorting.
From Stdlib Require Import ZArith Lia.

#[global] Open Scope Z_scope.

(** ** Outcomes of Go code

    [Done] is a normal return, [Panic] a Go run-time panic, and [Blocked] an
    operation that can never complete (a send on a channel nobody will drain,
    a second [Lock] of a mutex by its holder). *)
Inductive outcome (A : Type) : Type :=
  | Done (a : A)
  | Panic (msg : string)
  | Blocked (where_ : string).
Arguments Done {A} _.
Arguments Panic {A} _.
Arguments Blocked {A} _.

#[global] Instance outcome_ret : MRet outcome := fun A a => Done a.
#[global] Instance outcome_bind : MBind outcome := fun A B f o =>
  match o with
  | Done a => f a
  | Panic m => Panic m
  | Blocked w => Blocked w
  end.
#[global] Instance outcome_fmap : FMap outcome := fun A B f o =>
  match o with
  | Done a => Done (f a)
  | Panic m => Panic m
  | Blocked w => Blocked w
  end.

(** State-passing Go code over a state [S]. *)
Definition GoM (S A : Type) : Type := S -> outcome (A * S).
#[global] Instance GoM_ret {S} : MRet (GoM S) := fun A a s => Done (a, s).
#[global] Instance GoM_bind {S} : MBind (GoM S) := fun A B f m s =>
  match m s with
  | Done (a, s') => f a s'
  | Panic e => Panic e
  | Blocked w => Blocked w
  end.
Definition gget {S} : GoM S S := fun s => Done (s, s).
Definition gput {S} (s : S) : GoM S unit := fun _ => Done (tt, s).
Definition gmodify {S} (f : S -> S) : GoM S unit := fun s => Done (tt, f s).
Definition gpanic {S A} (m : string) : GoM S A := fun _ => Panic m.

Lemma GoM_bind_Done {S A B} (m : GoM S A) (f : A -> GoM S B) s r s' :
  (m ≫= f) s = Done (r, s') <->
  exists a s1, m s = Done (a, s1) /\ f a s1 = Done (r, s').
Proof.
  unfold mbind, GoM_bind. destruct (m s) as [[a s1]|e|w]; split.
  - eauto.
  - intros (a' & s1' & [= <- <-] & ?). done.
  - done.
  - by intros (? & ? & ? & _).
  - done.
  - by intros (? & ? & ? & _).
Qed.

(** Total correctness of stateful code under a state invariant: from a state
    that satisfies [I] it returns, keeps [I], and its result satisfies [Q]. *)
Definition runs {S A} (I : S -> Prop) (m : GoM S A) (Q : A -> Prop) : Prop :=
  forall s, I s -> exists a s', m s = Done (a, s') /\ I s' /\ Q a.

Lemma runs_ret {S A} (I : S -> Prop) (a : A) (Q : A -> Prop) : Q a -> runs I (mret a) Q.
Proof. intros Ha s Hs. by exists a, s. Qed.
Lemma runs_bind {S A B} (I : S -> Prop) (m : GoM S A) (f : A -> GoM S B) P Q :
  runs I m P -> (forall a, P a -> runs I (f a) Q) -> runs I (m ≫= f) Q.
Proof.
  intros Hm Hf s (a & s1 & Hrun & Hs1 & Ha)%Hm. destruct (Hf a Ha s1 Hs1) as (b & s2 & Hb & ? & ?).
  exists b, s2. split; [|done]. apply GoM_bind_Done. eauto.
Qed.
Lemma runs_weaken {S A} (I : S -> Prop) (m : GoM S A) (P Q : A -> Prop) :
  runs I m P -> (forall a, P a -> Q a) -> runs I m Q.
Proof. intros Hm HPQ s (a & s' & ? & ? & ?)%Hm. exists a, s'. auto. Qed.

(** Total correctness with a precondition, and a postcondition on the result and
    the state. *)
Definition hoare {S A} (P : S -> Prop) (m : GoM S A) (Q : A -> S -> Prop) : Prop :=
  forall s, P s -> exists a s', m s = Done (a, s') /\ Q a s'.
Lemma hoare_ret {S A} (P : S -> Prop) (a : A) (Q : A -> S -> Prop) : (forall s, P s -> Q a s) -> hoare P (mret a) Q.
Proof. intros H s Hs. exists a, s. auto. Qed.
Lemma hoare_bind {S A B} P (m : GoM S A) R (f : A -> GoM S B) Q :
  hoare P m R -> (forall a, hoare (R a) (f a) Q) -> hoare P (m ≫= f) Q.
Proof.
  intros Hm Hf s Hs. destruct (Hm s Hs) as (a & s1 & E & Ha). destruct (Hf a s1 Ha) as (b & s2 & E2 & Hb).
  exists b, s2. split; [|done]. apply GoM_bind_Done. eauto.
Qed.
Lemma hoare_get {S A} (P : S -> Prop) (f : S -> GoM S A) Q : (forall s0, P s0 -> hoare (fun s => s = s0) (f s0) Q) -> hoare P (gget ≫= f) Q.
Proof. intros H s Hs. destruct (H s Hs s eq_refl) as (a & s' & E & Ha). exists a, s'. split; [exact E|exact Ha]. Qed.
Lemma hoare_modify {S} (P : S -> Prop) (f : S -> S) Q : (forall s, P s -> Q tt (f s)) -> hoare P (gmodify f) Q.
Proof. intros H s Hs. exists tt, (f s). auto. Qed.
Lemma hoare_pre {S A} (P P' : S -> Prop) (m : GoM S A) Q : (forall s, P s -> P' s) -> hoare P' m Q -> hoare P m Q.
Proof. intros H Hm s Hs. apply Hm. auto. Qed.
Lemma hoare_post {S A} (P : S -> Prop) (m : GoM S A) Q Q' : hoare P m Q -> (forall a s, Q a s -> Q' a s) -> hoare P m Q'.
Proof. intros Hm H s Hs. destruct (Hm s Hs) as (a & s' & E & Ha). exists a, s'. auto. Qed.

(** ** Machine integers *)
Definition u64 (z : Z) : Z := z mod 2 ^ 64.
Definition i64 (z : Z) : Z := (z + 2 ^ 63) mod 2 ^ 64 - 2 ^ 63.
Definition is_u64 (z : Z) : Prop := 0 <= z < 2 ^ 64.
Definition is_i64 (z : Z) : Prop := - 2 ^ 63 <= z < 2 ^ 63.

Lemma u64_range z : is_u64 (u64 z).
Proof. unfold is_u64, u64. apply Z.mod_pos_bound. lia. Qed.
Lemma u64_small z : is_u64 z -> u64 z = z.
Proof. unfold is_u64, u64. intros. apply Z.mod_small. lia. Qed.
Lemma i64_range z : is_i64 (i64 z).
Proof.
  unfold is_i64, i64. pose proof (Z.mod_pos_bound (z + 2 ^ 63) (2 ^ 64)). lia.
Qed.
Lemma i64_small z : is_i64 z -> i64 z = z.
Proof. unfold is_i64, i64. intros. rewrite Z.mod_small; lia. Qed.

(** Go's [math/rand.Intn]: the value drawn is a function of the generator's
    next word [src]; it panics when [n <= 0]. *)
Definition Intn (src n : Z) : outcome Z :=
  if n <=? 0 then Panic "invalid argument to Intn" else Done (src mod n).

Lemma Intn_range src n r : Intn src n = Done r -> 0 <= r < n.
Proof.
  unfold Intn. destruct (Z.leb_spec n 0); intros; simplify_eq.
  apply Z.mod_pos_bound. lia.
Qed.

(** ** Lists *)
Definition len {A} (l : list A) : Z := Z.of_nat (length l).

Lemma len_nonneg {A} (l : list A) : 0 <= len l.
Proof. unfold len. lia. Qed.
Lemma len_nil {A} : len (@nil A) = 0.
Proof. reflexivity. Qed.
Lemma len_cons {A} (x : A) l : len (x :: l) = 1 + len l.
Proof. unfold len. simpl. lia. Qed.
Lemma len_app {A} (l k : list A) : len (l ++ k) = len l + len k.
Proof. unfold len. rewrite length_app. lia. Qed.

(** Number of elements satisfying a boolean test. *)
Fixpoint count_if {A} (p : A -> bool) (l : list A) : Z :=
  match l with
  | [] => 0
  | x :: r => (if p x then 1 else 0) + count_if p r
  end.

Lemma count_if_nonneg {A} (p : A -> bool) l : 0 <= count_if p l.
Proof. induction l as [|x l IH]; simpl; [|destruct (p x)]; lia. Qed.
Lemma count_if_le_len {A} (p : A -> bool) l : count_if p l <= len l.
Proof.
  induction l as [|x l IH]; simpl; [done|].
  rewrite len_cons. destruct (p x); lia.
Qed.
Lemma count_if_app {A} (p : A -> bool) l k :
  count_if p (l ++ k) = count_if p l + count_if p k.
Proof. induction l as [|x l IH]; simpl; [done|]. destruct (p x); lia. Qed.
Lemma count_if_perm {A} (p : A -> bool) l k :
  l ≡ₚ k -> count_if p l = count_if p k.
Proof. induction 1; simpl; lia. Qed.
Lemma count_if_pos {A} (p : A -> bool) l :
  0 < count_if p l <-> exists x, x ∈ l /\ p x = true.
Proof.
  induction l as [|x l IH]; simpl.
  - split; [lia|]. intros (x & Hx & _). by apply not_elem_of_nil in Hx.
  - pose proof (count_if_nonneg p l). setoid_rewrite elem_of_cons.
    destruct (p x) eqn:E; [split; [by eauto|lia]|]. rewrite Z.add_0_l, IH. split.
    + intros (y & ? & ?). eauto.
    + intros (y & [->|Hy] & ?); [congruence|eauto].
Qed.
Lemma insert_perm {A} (l : list A) i x y :
  l !! i = Some x -> y :: l ≡ₚ x :: <[i:=y]> l.
Proof.
  revert i. induction l as [|z l IH]; intros [|i] Hi; simplify_eq/=.
  - apply Permutation_swap.
  - rewrite Permutation_swap, (IH i Hi). apply Permutation_swap.
Qed.

Lemma foldl_count {A} (p : A -> bool) l n :
  foldl (fun n x => if p x then n + 1 else n) n l = n + count_if p l.
Proof.
  revert n. induction l as [|x l IH]; intros n; simpl; [lia|].
  rewrite IH. destruct (p x); lia.
Qed.

(** ** Binary search *)
(** sort.Search: the loop runs [n] times at most. *)
Fixpoint Search_loop (fuel : nat) (f : Z -> bool) (i j : Z) : Z :=
  match fuel with
  | O => i
  | S fuel =>
      if i <? j then
        let h := (i + j) / 2 in
        if negb (f h) then Search_loop fuel f (h + 1) j else Search_loop fuel f i h
      else i
  end.
Definition Search (n : Z) (f : Z -> bool) : Z := Search_loop (Z.to_nat n) f 0 n.
Lemma Search_loop_spec n f fuel i j :
  0 <= i <= j -> j <= n -> j - i <= Z.of_nat fuel ->
  (forall h h', 0 <= h <= h' -> h' < n -> f h = true -> f h' = true) ->
  (forall h, 0 <= h < i -> f h = false) -> (forall h, j <= h < n -> f h = true) ->
  let r := Search_loop fuel f i j in
  i <= r <= j /\ (forall h, 0 <= h < r -> f h = false) /\ (forall h, r <= h < n -> f h = true).
Proof.
  revert i j. induction fuel as [|fuel IH]; intros i j Hij Hjn Hf Hm Hlo Hhi; cbn [Search_loop].
  { assert (i = j) as -> by lia. split_and!; auto; lia. }
  destruct (Z.ltb_spec i j); [|assert (i = j) as -> by lia; split_and!; auto; lia].
  assert (Hh : i <= (i + j) / 2 < j) by (split; [apply Z.div_le_lower_bound; lia|apply Z.div_lt_upper_bound; lia]).
  cbv zeta. set (h := (i + j) / 2) in *. destruct (f h) eqn:Efh; simpl.
  - destruct (IH i h) as (H1 & H2 & H3); [lia|lia|lia|done|done| |].
    + intros h' Hh'. apply (Hm h h'); [lia|lia|done].
    + split_and!; [lia|lia|done|done].
  - destruct (IH (h + 1) j) as (H1 & H2 & H3); [lia|lia|lia|done| |done|].
    + intros h' Hh'. destruct (f h') eqn:E; [|done]. assert (f h = true) by (apply (Hm h' h); [lia|lia|done]). congruence.
    + split_and!; [lia|lia|done|done].
Qed.
(** [Search] finds the first index where a monotone predicate holds. *)
Lemma Search_spec n f :
  0 <= n -> (forall h h', 0 <= h <= h' -> h' < n -> f h = true -> f h' = true) ->
  0 <= Search n f <= n /\ (forall h, 0 <= h < Search n f -> f h = false) /\ (forall h, Search n f <= h < n -> f h = true).
Proof. intros Hn Hm. apply (Search_loop_spec n f (Z.to_nat n) 0 n); [lia|lia|lia|done|intros; lia|intros; lia]. Qed.

(** ** Sorted lists *)
Lemma sorted_lookup {A} (R : relation A) l i j x y :
  StronglySorted R l -> (i < j)%nat -> l !! i = Some x -> l !! j = Some y -> R x y.
Proof.
  intros Hs Hij Hx Hy. rewrite <- (take_drop j l) in Hs. eapply StronglySorted_app_1_elem_of; [exact Hs|..].
  - apply (list_elem_of_lookup_2 _ i). by rewrite lookup_take_lt.
  - apply (list_elem_of_lookup_2 _ 0). by rewrite lookup_drop, Nat.add_0_r.
Qed.

(** ** Invariants of step relations *)
Lemma invariant_reach {A} (R : A -> A -> Prop) (P : A -> Prop) x y :
  P x -> (forall a b, R a b -> P a -> P b) -> rtc R x y -> P y.
Proof. intros Hx HR Hr. revert Hx. induction Hr; eauto. Qed.

(** ** Automation *)
Create HintDb octopus.
#[export] Hint Resolve len_nonneg u64_range i64_range : octopus.
#[export] Hint Resolve count_if_nonneg count_if_le_len : octopus.
Create Rewrite HintDb octopus_len.
#[export] Hint Rewrite @len_nil @len_cons @len_app : octopus_len.

(** Case analysis on the head [match] or [if] of a hypothesis. *)
Ltac case_hyp H :=
  match type of H with
  | context [match ?x with _ => _ end] => destruct x eqn:?; simplify_eq/=
  end.

(** Turns boolean comparisons in the context into propositions. *)
Ltac bools :=
  repeat match goal with
  | H : (_ && _)%bool = true |- _ => apply andb_true_iff in H; destruct H
  | H : (_ || _)%bool = false |- _ => apply orb_false_iff in H; destruct H
  | H : negb _ = true |- _ => apply negb_true_iff in H
  | H : negb _ = false |- _ => apply negb_false_iff in H
  | H : (_ <? _) = true |- _ => apply Z.ltb_lt in H
  | H : (_ <? _) = false |- _ => apply Z.ltb_ge in H
  | H : (_ <=? _) = true |- _ => apply Z.leb_le in H
  | H : (_ <=? _) = false |- _ => apply Z.leb_gt in H
  | H : (_ =? _) = true |- _ => apply Z.eqb_eq in H
  | H : (_ =? _) = false |- _ => apply Z.eqb_neq in H
  | H : bool_decide _ = true |- _ => apply bool_decide_eq_true in H
  | H : bool_decide _ = false |- _ => apply bool_decide_eq_false in H
  end.
