(* ===== verification/Externals.v ===== *)
(** * Interfaces of the third-party containers

    The node keeps its shared state in two containers that are not part of the
    repository: [github.com/deckarep/golang-set] (imported as [mapset]) and
    [github.com/orcaman/concurrent-map] (imported as [cMap]/[cmap]).  Each is a
    class of operations with a class of laws, the documented behaviour the
    node's code relies on.  The components are written against the classes; the
    instances at the end show that the laws are satisfiable and let concrete
    inputs be evaluated. *)

From stdpp Require Import base gmap sets list strings.
From Stdlib Require Import ZArith Lia.
From S2P Require Import Prelude.

(** ** mapset.Set

    [ms_pop] removes one element of its own choice (Go map order); the callers
    ignore the element returned. *)
Class MapSet (E S : Type) : Type := {
  ms_new : S;
  ms_add : E -> S -> S;
  ms_contains : E -> S -> bool;
  ms_card : S -> Z;
  ms_pop : S -> S;
}.

Class MapSetLaws (E S : Type) `{EqDecision E} `{MapSet E S} : Prop := {
  ms_contains_new (x : E) : ms_contains x ms_new = false;
  ms_card_new : ms_card ms_new = 0;
  ms_card_nonneg (s : S) : 0 <= ms_card s;
  ms_contains_add (x y : E) (s : S) :
    ms_contains x (ms_add y s) = (bool_decide (x = y) || ms_contains x s)%bool;
  ms_card_add (y : E) (s : S) :
    ms_card (ms_add y s) = if ms_contains y s then ms_card s else ms_card s + 1;
  ms_card_pop (s : S) : 0 < ms_card s -> ms_card (ms_pop s) = ms_card s - 1;
  ms_contains_pop (s : S) : 0 < ms_card s ->
    exists e, ms_contains e s = true /\
      forall x, ms_contains x (ms_pop s)
                = (ms_contains x s && negb (bool_decide (x = e)))%bool;
}.

(** ** cmap.ConcurrentMap

    [cm_iter] is the snapshot [IterBuffered] sends on its channel, in an order
    the container chooses. *)
Class CMap (M : Type -> Type) : Type := {
  cm_new {V} : M V;
  cm_set {V} : string -> V -> M V -> M V;
  cm_get {V} : string -> M V -> option V;
  cm_has {V} : string -> M V -> bool;
  cm_remove {V} : string -> M V -> M V;
  cm_count {V} : M V -> Z;
  cm_iter {V} : M V -> list (string * V);
}.

Class CMapLaws (M : Type -> Type) `{CMap M} : Prop := {
  cm_get_new {V} k : cm_get k (cm_new : M V) = None;
  cm_get_set {V} k k' v (m : M V) :
    cm_get k' (cm_set k v m) = if decide (k = k') then Some v else cm_get k' m;
  cm_get_remove {V} k k' (m : M V) :
    cm_get k' (cm_remove k m) = if decide (k = k') then None else cm_get k' m;
  cm_has_get {V} k (m : M V) : cm_has k m = bool_decide (is_Some (cm_get k m));
  cm_iter_nodup {V} (m : M V) : NoDup (cm_iter m).*1;
  cm_iter_get {V} k v (m : M V) : (k, v) ∈ cm_iter m <-> cm_get k m = Some v;
  cm_count_iter {V} (m : M V) : cm_count m = len (cm_iter m);
}.

(** ** lru.Cache (github.com/hashicorp/golang-lru)

    [lru_get] also marks the entry as recently used, which changes what later
    additions evict but not what is cached; [lru_add] may evict anything. *)
Class Lru (K V L : Type) : Type := {
  lru_get : K -> L -> option V * L;
  lru_add : K -> V -> L -> L;
}.

Class LruLaws (K V L : Type) `{Lru K V L} : Prop := {
  lru_get_get k k' (l : L) : (lru_get k' (lru_get k l).2).1 = (lru_get k' l).1;
  lru_get_add k v k' w (l : L) :
    (lru_get k' (lru_add k v l)).1 = Some w ->
    (k' = k /\ w = v) \/ (lru_get k' l).1 = Some w;
}.

(** ** Lemmas on the interfaces *)
Section MapSetFacts.
Context {E S : Type} `{EqDecision E} `{MapSet E S} `{!MapSetLaws E S}.

Lemma ms_contains_pop_sub (s : S) x :
  0 < ms_card s -> ms_contains x (ms_pop s) = true -> ms_contains x s = true.
Proof.
  intros Hc Hx. destruct (ms_contains_pop s Hc) as (e & _ & He).
  rewrite He in Hx. bools. done.
Qed.

Lemma ms_contains_adds (x : E) l (s : S) :
  ms_contains x (foldl (fun acc h => ms_add h acc) s l)
  = (bool_decide (x ∈ l) || ms_contains x s)%bool.
Proof.
  revert s. induction l as [|y l IH]; intros s.
  - rewrite bool_decide_eq_false_2 by apply not_elem_of_nil. done.
  - cbn [foldl]. rewrite IH, ms_contains_add. apply Bool.eq_iff_eq_true.
    rewrite !orb_true_iff, !bool_decide_eq_true, elem_of_cons. tauto.
Qed.

Lemma ms_card_adds l (s : S) :
  ms_card s <= ms_card (foldl (fun acc h => ms_add h acc) s l)
  /\ ms_card (foldl (fun acc h => ms_add h acc) s l) <= ms_card s + len l.
Proof.
  revert s. induction l as [|y l IH]; intros s; simpl.
  - unfold len. simpl. lia.
  - destruct (IH (ms_add y s)). rewrite ms_card_add in *.
    autorewrite with octopus_len. destruct (ms_contains y s); lia.
Qed.
End MapSetFacts.

Section CMapFacts.
Context {M : Type -> Type} `{CMap M} `{!CMapLaws M}.

Lemma cm_has_true {V} k (m : M V) :
  cm_has k m = true <-> is_Some (cm_get k m).
Proof. rewrite cm_has_get. apply bool_decide_eq_true. Qed.
Lemma cm_has_false {V} k (m : M V) :
  cm_has k m = false <-> cm_get k m = None.
Proof. rewrite cm_has_get, bool_decide_eq_false, eq_None_not_Some. done. Qed.
Lemma cm_get_set_eq {V} k v (m : M V) : cm_get k (cm_set k v m) = Some v.
Proof. rewrite cm_get_set. by case_decide. Qed.
Lemma cm_get_set_ne {V} k k' v (m : M V) :
  k <> k' -> cm_get k' (cm_set k v m) = cm_get k' m.
Proof. intros. rewrite cm_get_set. by case_decide. Qed.
Lemma cm_get_remove_eq {V} k (m : M V) : cm_get k (cm_remove k m) = None.
Proof. rewrite cm_get_remove. by case_decide. Qed.
Lemma cm_get_remove_ne {V} k k' (m : M V) :
  k <> k' -> cm_get k' (cm_remove k m) = cm_get k' m.
Proof. intros. rewrite cm_get_remove. by case_decide. Qed.
End CMapFacts.

#[export] Hint Resolve cm_get_set_eq cm_get_remove_eq : octopus.

(** ** Instances: finite sets and maps of stdpp *)
#[export] Instance gset_MapSet {E} `{Countable E} : MapSet E (gset E) := {|
  ms_new := ∅;
  ms_add x s := {[x]} ∪ s;
  ms_contains x s := bool_decide (x ∈ s);
  ms_card s := Z.of_nat (size s);
  ms_pop s := match elements s with [] => s | x :: _ => s ∖ {[x]} end;
|}.

#[export] Instance gset_MapSetLaws {E} `{Countable E} : MapSetLaws E (gset E).
Proof.
  split; simpl.
  - intros x. by apply bool_decide_eq_false_2, not_elem_of_empty.
  - done.
  - intros s. lia.
  - intros x y s. apply Bool.eq_iff_eq_true.
    rewrite orb_true_iff, !bool_decide_eq_true. set_solver.
  - intros y s. case_bool_decide as Hy.
    + by replace ({[y]} ∪ s) with s by set_solver.
    + rewrite size_union, size_singleton by set_solver. lia.
  - intros s Hs. destruct (elements s) as [|x l] eqn:El.
    + apply elements_empty_inv, leibniz_equiv in El. subst. rewrite size_empty in *. lia.
    + assert (x ∈ s) by (apply elem_of_elements; rewrite El; set_solver).
      rewrite size_difference, size_singleton by set_solver.
      assert (size s <> 0%nat) by lia. lia.
  - intros s Hs. destruct (elements s) as [|e l] eqn:El.
    + apply elements_empty_inv, leibniz_equiv in El. subst. rewrite size_empty in *. lia.
    + exists e. split.
      * apply bool_decide_eq_true_2, elem_of_elements. rewrite El. set_solver.
      * intros x. apply Bool.eq_iff_eq_true.
        rewrite andb_true_iff, negb_true_iff, bool_decide_eq_false, !bool_decide_eq_true.
        set_solver.
Qed.

#[export] Instance gmap_CMap : CMap (gmap string) := {|
  cm_new V := ∅;
  cm_set V k v m := <[k:=v]> m;
  cm_get V k m := m !! k;
  cm_has V k m := bool_decide (is_Some (m !! k));
  cm_remove V k m := delete k m;
  cm_count V m := len (map_to_list m);
  cm_iter V m := map_to_list m;
|}.

#[export] Instance gmap_CMapLaws : CMapLaws (gmap string).
Proof.
  split; simpl; intros.
  - apply lookup_empty.
  - apply lookup_insert.
  - apply lookup_delete.
  - done.
  - apply NoDup_fst_map_to_list.
  - apply elem_of_map_to_list.
  - done.
Qed.

(** A cache of two entries, most recent first. *)
Abbreviation lru2 K V := (list (K * V)) (only parsing).
#[export] Instance lru2_Lru {K V} `{EqDecision K} : Lru K V (lru2 K V) := {|
  lru_get k l :=
    match list_find (fun e => e.1 = k) l with
    | Some (i, e) => (Some e.2, e :: filter (fun e => e.1 <> k) l)
    | None => (None, l)
    end;
  lru_add k v l := take 2 ((k, v) :: filter (fun e => e.1 <> k) l);
|}.

Lemma list_find_assoc {K V} `{EqDecision K} (k : K) (l : list (K * V)) :
  snd <$> list_find (fun e => e.1 = k) l = head (filter (fun e => e.1 = k) l).
Proof.
  induction l as [|[k' v] l IH]; [done|]. cbn [list_find]. rewrite filter_cons. simpl.
  case_decide; [done|]. rewrite <- IH. by destruct (list_find _ l) as [[??]|].
Qed.

Lemma lru2_get_fst {K V} `{EqDecision K} (k : K) (l : lru2 K V) :
  (lru_get k l).1 = snd <$> head (filter (fun e => e.1 = k) l).
Proof.
  rewrite <- list_find_assoc. simpl. by destruct (list_find _ l) as [[??]|].
Qed.

Lemma filter_other {K V} `{EqDecision K} (k k' : K) (l : list (K * V)) :
  k <> k' -> filter (fun e => e.1 = k) (filter (fun e => e.1 <> k') l) = filter (fun e => e.1 = k) l.
Proof.
  intros Hk. rewrite list_filter_filter. apply list_filter_iff. intros [??]; simpl.
  split; [tauto|]. intros ->. tauto.
Qed.

#[export] Instance lru2_LruLaws {K V} `{EqDecision K} : LruLaws K V (lru2 K V).
Proof.
  split.
  - intros k k' l. rewrite !lru2_get_fst. simpl.
    destruct (list_find _ l) as [[i [k0 v]]|] eqn:E; [|done]. simpl.
    pose proof (list_find_assoc k l) as Ha. rewrite E in Ha. simpl in Ha.
    apply list_find_Some in E as (_ & Hk & _). simpl in Hk. subst k0.
    rewrite filter_cons. cbn [fst].
    destruct (decide (k = k')) as [->|Hk]; [by rewrite <- Ha|]. by rewrite filter_other.
  - intros k v k' w l. rewrite !lru2_get_fst. unfold lru_add, lru2_Lru.
    cbn [take]. rewrite filter_cons. cbn [fst]. case_decide as Hk; [by intros [= <-]; left|].
    right. rewrite <- (filter_other k' k l) by done.
    destruct (filter (fun e => e.1 <> k) l) as [|e r]; [done|]. cbn [take] in *.
    revert H. rewrite !filter_cons. by destruct (decide (e.1 = k')).
Qed.
