(* ===== verification/KnownCache.v ===== *)
(** * The bounded cache of known hashes (node_manager/common.go)

    [knownCache] remembers the hashes of the blocks and transactions already
    seen.  It wraps a [mapset.Set] and evicts arbitrary elements when full.
    The package eth/protocols/eth carries a copy of the same code; both use
    this model. *)

From stdpp Require Import base gmap sets list.
From Stdlib Require Import ZArith Lia.
From S2P Require Import Prelude Externals.

(** common.Hash is a 32-byte array; it is kept as its big-endian value, the
    zero hash being [0]. *)
Abbreviation Hash := Z.

Section KnownCache.
Context {S : Type} `{MapSet Hash S}.

Definition max (a b : Z) : Z := if b <? a then a else b.

Record knownCache : Type := mk_knownCache { hashes : S; kmax : Z }.

Definition newKnownCache (max : Z) : knownCache :=
  {| kmax := max; hashes := ms_new |}.

(** The eviction loop; one iteration per element popped. *)
Fixpoint evict (fuel : nat) (limit : Z) (s : S) : S :=
  match fuel with
  | O => s
  | Datatypes.S f =>
      if limit <? ms_card s then evict f limit (ms_pop s) else s
  end.

Definition Add (k : knownCache) (hs : list Hash) : knownCache :=
  let s1 := evict (Z.to_nat (ms_card (hashes k))) (max 0 (kmax k - len hs)) (hashes k) in
  {| hashes := foldl (fun acc h => ms_add h acc) s1 hs; kmax := kmax k |}.

Definition Contains (k : knownCache) (hash : Hash) : bool :=
  ms_contains hash (hashes k).

Definition Cardinality (k : knownCache) : Z := ms_card (hashes k).

Context `{!MapSetLaws Hash S}.

(** The loop ends because its condition fails, not because fuel runs out. *)
Lemma evict_card fuel limit s :
  0 <= limit -> ms_card s <= Z.of_nat fuel ->
  ms_card (evict fuel limit s) = Z.min limit (ms_card s).
Proof.
  intros Hl. revert s. induction fuel as [|f IH]; intros s Hf; simpl.
  - pose proof (ms_card_nonneg s). lia.
  - destruct (Z.ltb_spec limit (ms_card s)); [|lia].
    assert (ms_card (ms_pop s) = ms_card s - 1) by (apply ms_card_pop; lia).
    rewrite IH; lia.
Qed.

Lemma evict_sub fuel limit s x :
  0 <= limit ->
  ms_contains x (evict fuel limit s) = true -> ms_contains x s = true.
Proof.
  intros Hl. revert s. induction fuel as [|f IH]; intros s; simpl; [done|].
  destruct (Z.ltb_spec limit (ms_card s)); [|done].
  intros Hx%IH. apply ms_contains_pop_sub in Hx; [done|lia].
Qed.

Lemma max_0_nonneg x : 0 <= max 0 x.
Proof. unfold max. destruct (Z.ltb_spec x 0); lia. Qed.
Hint Resolve max_0_nonneg : core.

Lemma Add_card k hs :
  Cardinality (Add k hs) <= Z.max (kmax k) (len hs).
Proof.
  unfold Cardinality, Add. simpl.
  match goal with |- ms_card (foldl _ ?s _) <= _ => set (s1 := s) end.
  destruct (ms_card_adds hs s1) as [_ Hle].
  assert (ms_card s1 <= max 0 (kmax k - len hs)).
  { unfold s1. rewrite evict_card; [lia|auto|].
    pose proof (ms_card_nonneg (hashes k)). lia. }
  unfold max in *. pose proof (len_nonneg hs).
  destruct (Z.ltb_spec (kmax k - len hs) 0); lia.
Qed.

Lemma Add_card_grow k hs : Cardinality (Add k hs) <= Cardinality k + len hs.
Proof.
  unfold Cardinality, Add. simpl.
  match goal with |- ms_card (foldl _ ?s _) <= _ => destruct (ms_card_adds hs s) as [_ Hle] end.
  rewrite evict_card in Hle; [lia|auto|]. pose proof (ms_card_nonneg (hashes k)). lia.
Qed.

Lemma Add_Contains_new k hs h : h ∈ hs -> Contains (Add k hs) h = true.
Proof.
  intros Hh. unfold Contains, Add. simpl. rewrite ms_contains_adds.
  by rewrite bool_decide_eq_true_2.
Qed.

Lemma Add_Contains_old k hs h :
  Contains (Add k hs) h = true -> h ∈ hs \/ Contains k h = true.
Proof.
  unfold Contains, Add. simpl. rewrite ms_contains_adds.
  intros [Hd|Hd]%orb_true_iff; [left; by apply bool_decide_eq_true in Hd|].
  right. by apply evict_sub in Hd.
Qed.

(** Below the capacity nothing is evicted. *)
Lemma Add_room k hs h :
  Cardinality k + len hs <= kmax k ->
  Contains k h = true -> Contains (Add k hs) h = true.
Proof.
  unfold Cardinality, Contains, Add. simpl. intros Hroom Hh.
  rewrite ms_contains_adds. apply orb_true_iff. right.
  destruct (Z.to_nat (ms_card (hashes k))) as [|f]; simpl; [done|].
  pose proof (ms_card_nonneg (hashes k)). unfold max.
  destruct (Z.ltb_spec (kmax k - len hs) 0); [lia|].
  by destruct (Z.ltb_spec (kmax k - len hs) (ms_card (hashes k))); [lia|].
Qed.

(** [knownCache.Add] marks every hash it is given as known, forgets
    hashes only when the capacity is reached, never makes up a hash, and
    keeps the cardinality within the capacity whenever the batch itself fits
    (in general within the larger of capacity and batch length). *)
Theorem knownCache_Add_spec k hs :
  (forall h, h ∈ hs -> Contains (Add k hs) h = true)
  /\ (forall h, Contains (Add k hs) h = true -> h ∈ hs \/ Contains k h = true)
  /\ (Cardinality k + len hs <= kmax k ->
      forall h, Contains k h = true -> Contains (Add k hs) h = true)
  /\ Cardinality (Add k hs) <= Z.max (kmax k) (len hs)
  /\ kmax (Add k hs) = kmax k.
Proof.
  eauto 10 using Add_Contains_new, Add_Contains_old, Add_room, Add_card.
Qed.
End KnownCache.
Arguments knownCache : clear implicits.

#[export] Hint Resolve Add_Contains_new Add_card : octopus.

Lemma knownCache_Add_spec_witness :
  Cardinality (Add (Add (newKnownCache (S := gset Hash) 2) [7; 8]) [9]) <= 2.
Proof.
  destruct (knownCache_Add_spec (Add (newKnownCache (S := gset Hash) 2) [7; 8]) [9])
    as (_ & _ & _ & Hc & _).
  exact Hc.
Defined.
