(* ===== verification/ExpHeap.v ===== *)
(** * Expiry heap (p2p/util.go)

    [expHeap] keeps strings with an expiry time in a binary heap; the dial
    scheduler uses it for its dial history and the server for its inbound
    connection throttle.  The first section models the operations of Go's
    standard package container/heap that the code calls, on a slice kept as a
    list and ordered by an integer key; the second section models util.go. *)

From stdpp Require Import base list strings.
From Stdlib Require Import ZArith Lia ZifyNat.
From S2P Require Import Prelude.

(** ** container/heap on a slice *)

(** [(j - 1) / 2]; Go's division truncates, so the parent of [0] is [0]. *)
Definition parent (j : nat) : nat := ((j - 1) / 2)%nat.
#[global] Arguments parent : simpl never.

Section Heap.
Context {A : Type} (key : A -> Z).

(** [h.Less(i, j)] of a slice; both indices are in range in every call. *)
Definition less (l : list A) (i j : nat) : bool :=
  match l !! i, l !! j with
  | Some x, Some y => key x <? key y
  | _, _ => false
  end.

Definition swap (l : list A) (i j : nat) : list A :=
  match l !! i, l !! j with
  | Some x, Some y => <[i:=y]> (<[j:=x]> l)
  | _, _ => l
  end.

Fixpoint up (fuel : nat) (l : list A) (j : nat) : list A :=
  match fuel with
  | O => l
  | S f =>
      let i := parent j in
      if (bool_decide (i = j) || negb (less l j i))%bool then l
      else up f (swap l i j) i
  end.

Fixpoint down (fuel : nat) (l : list A) (i n : nat) : list A :=
  match fuel with
  | O => l
  | S f =>
      let j1 := (2 * i + 1)%nat in
      if bool_decide (n <= j1)%nat then l
      else
        let j2 := (j1 + 1)%nat in
        let j := if (bool_decide (j2 < n)%nat && less l j2 j1)%bool then j2 else j1 in
        if negb (less l j i) then l else down f (swap l i j) j n
  end.

Definition heap_push (l : list A) (x : A) : list A :=
  let l' := l ++ [x] in up (length l') l' (length l' - 1).

(** Removes and returns the root; [None] stands for Go's index panic on an
    empty heap. *)
Definition heap_pop (l : list A) : option (A * list A) :=
  match length l with
  | O => None
  | S n =>
      let l' := down (S n) (swap l 0 n) 0 n in
      x ← last l'; Some (x, take n l')
  end.

(** *** The heap order *)
Definition K (l : list A) (i : nat) : Z :=
  match l !! i with Some x => key x | None => 0 end.

Definition heap_ordered_upto (n : nat) (l : list A) : Prop :=
  forall j, (0 < j < n)%nat -> K l (parent j) <= K l j.
Definition heap_ordered (l : list A) : Prop := heap_ordered_upto (length l) l.

Lemma length_swap l i j : length (swap l i j) = length l.
Proof.
  unfold swap. destruct (l !! i), (l !! j); rewrite ?length_insert; done.
Qed.

Lemma K_swap l i j k :
  (i < length l)%nat -> (j < length l)%nat ->
  K (swap l i j) k =
    if decide (k = i) then K l j else if decide (k = j) then K l i else K l k.
Proof.
  intros [x Hx]%lookup_lt_is_Some_2 [y Hy]%lookup_lt_is_Some_2.
  unfold swap, K. rewrite Hx, Hy.
  destruct (decide (k = i)) as [->|Hki].
  - rewrite list_lookup_insert_eq; [done|].
    rewrite length_insert. by eapply lookup_lt_Some.
  - rewrite list_lookup_insert_ne by done.
    destruct (decide (k = j)) as [->|Hkj].
    + rewrite list_lookup_insert_eq; [done|]. by eapply lookup_lt_Some.
    + by rewrite list_lookup_insert_ne.
Qed.

Lemma less_K l i j :
  (i < length l)%nat -> (j < length l)%nat -> less l i j = (K l i <? K l j).
Proof.
  intros [x Hx]%lookup_lt_is_Some_2 [y Hy]%lookup_lt_is_Some_2.
  unfold less, K. by rewrite Hx, Hy.
Qed.

Lemma swap_perm l i j : swap l i j ≡ₚ l.
Proof.
  unfold swap. destruct (l !! i) as [x|] eqn:Hi, (l !! j) as [y|] eqn:Hj; try done.
  apply (Permutation_cons_inv (a := x)).
  rewrite (insert_perm l j y x Hj).
  symmetry. apply insert_perm.
  destruct (decide (i = j)) as [->|Hne].
  - simplify_eq. apply list_lookup_insert_eq. by eapply lookup_lt_Some.
  - by rewrite list_lookup_insert_ne.
Qed.

Lemma up_perm fuel l j : up fuel l j ≡ₚ l.
Proof.
  revert l j. induction fuel as [|f IH]; intros l j; simpl; [done|].
  destruct (_ || _)%bool; [done|]. by rewrite IH, swap_perm.
Qed.

Lemma down_perm fuel l i n : down fuel l i n ≡ₚ l.
Proof.
  revert l i. induction fuel as [|f IH]; intros l i; simpl; [done|].
  case_bool_decide; [done|]. destruct (negb _); [done|]. by rewrite IH, swap_perm.
Qed.

(** [up] repairs a heap whose only possible violation is at [j]. *)
Lemma up_ordered fuel l j :
  (j < length l)%nat -> (j < fuel)%nat ->
  (forall k, (0 < k < length l)%nat -> k <> j -> K l (parent k) <= K l k) ->
  (forall k, (0 < k < length l)%nat -> parent k = j -> (0 < j)%nat ->
     K l (parent j) <= K l k) ->
  heap_ordered (up fuel l j).
Proof.
  revert l j. induction fuel as [|f IH]; intros l j Hj Hf Hord Hgp; [lia|].
  simpl.
  assert (Hp : (parent j <= j)%nat) by (unfold parent; lia).
  destruct (decide (parent j = j)) as [Heq|Hne].
  { rewrite bool_decide_eq_true_2 by done. simpl.
    intros k Hk. apply Hord; [done|]. unfold parent in Heq. lia. }
  rewrite bool_decide_eq_false_2 by done. simpl.
  rewrite less_K by lia.
  destruct (Z.ltb_spec (K l j) (K l (parent j))) as [Hlt|Hge]; simpl; cycle 1.
  { intros k Hk. destruct (decide (k = j)) as [->|]; [lia|auto]. }
  assert (Hjpos : (0 < j)%nat) by (unfold parent in *; lia).
  assert (HK := K_swap l (parent j) j).
  apply IH; rewrite ?length_swap; try lia.
  - intros k Hk Hki. rewrite !HK by lia.
    destruct (decide (k = j)) as [->|Hkj].
    { repeat case_decide; lia || congruence. }
    specialize (Hord k ltac:(lia) Hkj). specialize (Hgp k ltac:(lia)).
    repeat case_decide; simplify_eq; try congruence; try lia.
    all: repeat match goal with
      | H : parent ?k = _, H' : context [parent ?k] |- _ => rewrite H in H'
      end; lia.
  - intros k Hk Hpk Hi.
    assert (parent (parent j) < parent j)%nat by (unfold parent in *; lia).
    assert (parent k < k)%nat by (unfold parent in *; lia).
    pose proof (Hord (parent j) ltac:(lia) Hne) as Hpp.
    rewrite !HK by lia.
    destruct (decide (k = j)) as [->|Hkj].
    { repeat case_decide; lia || congruence. }
    specialize (Hord k ltac:(lia) Hkj). rewrite Hpk in Hord.
    repeat case_decide; lia || congruence.
Qed.

Lemma K_app_l l k i : (i < length l)%nat -> K (l ++ k) i = K l i.
Proof. intros. unfold K. by rewrite lookup_app_l. Qed.

Lemma heap_push_ordered l x : heap_ordered l -> heap_ordered (heap_push l x).
Proof.
  intros Hl. unfold heap_push. rewrite length_app. simpl.
  apply up_ordered; rewrite ?length_app; simpl; try lia.
  - intros k Hk Hkn. rewrite !K_app_l by (unfold parent; lia). apply Hl. lia.
  - unfold parent. lia.
Qed.

Lemma heap_push_perm l x : heap_push l x ≡ₚ x :: l.
Proof. unfold heap_push. rewrite up_perm, Permutation_app_comm. done. Qed.

(** [down] repairs the first [n] entries when the only violations are between
    [i] and its children. *)
Lemma down_ordered fuel l i n :
  (n <= length l)%nat -> (n <= fuel + i)%nat ->
  (forall k, (0 < k < n)%nat -> parent k <> i -> K l (parent k) <= K l k) ->
  (forall k, (0 < k < n)%nat -> parent k = i -> (0 < i)%nat ->
     K l (parent i) <= K l k) ->
  heap_ordered_upto n (down fuel l i n).
Proof.
  revert l i. induction fuel as [|f IH]; intros l i Hn Hf Hord Hgp.
  { intros k Hk. apply Hord; [done|]. unfold parent. lia. }
  cbn [down]. set (j1 := (2 * i + 1)%nat). set (j2 := (j1 + 1)%nat).
  assert (Hpar : forall k, (0 < k)%nat -> parent k = i <-> k = j1 \/ k = j2)
    by (intros; unfold parent, j1, j2; lia).
  case_bool_decide as Hj1.
  { intros k Hk. apply Hord; [done|]. intros [->| ->]%Hpar; unfold j2 in *; lia. }
  match goal with |- context [less l ?x i] => set (j := x) end.
  assert (Hj : (j < n)%nat /\ (j = j1 \/ j = j2) /\
               forall k, (0 < k < n)%nat -> parent k = i -> K l j <= K l k).
  { unfold j. case_bool_decide as Hj2; simpl.
    - rewrite less_K by lia. destruct (Z.ltb_spec (K l j2) (K l j1)).
      + split_and!; [lia|by right|]. intros k Hk [->| ->]%Hpar; lia.
      + split_and!; [lia|by left|]. intros k Hk [->| ->]%Hpar; lia.
    - split_and!; [lia|by left|]. intros k Hk [->| ->]%Hpar; lia. }
  destruct Hj as (Hjn & Hj12 & Hmin).
  assert (Hji : (i < j)%nat) by (unfold j1, j2 in *; lia).
  assert (Hpj : parent j = i) by (apply Hpar; [lia|done]).
  rewrite less_K by lia.
  destruct (Z.ltb_spec (K l j) (K l i)) as [Hlt|Hge]; simpl; cycle 1.
  { intros k Hk. destruct (decide (parent k = i)) as [Hpk|]; [|auto].
    rewrite Hpk. specialize (Hmin k Hk Hpk). lia. }
  assert (HK := K_swap l i j).
  apply IH; rewrite ?length_swap; try lia.
  - intros k Hk Hpk. rewrite !HK by lia.
    destruct (decide (k = i)) as [->|Hki].
    + assert (parent i < i)%nat by (unfold parent; lia).
      pose proof (Hgp j ltac:(lia) Hpj ltac:(lia)).
      repeat case_decide; lia || congruence.
    + destruct (decide (parent k = i)) as [Hpki|Hpki].
      * specialize (Hmin k Hk Hpki). repeat case_decide; lia || congruence.
      * specialize (Hord k Hk Hpki). repeat case_decide; lia || congruence.
  - intros k Hk Hpk Hj0.
    assert (k <> i /\ k <> j) by (unfold parent in *; lia).
    specialize (Hord k Hk ltac:(lia)). rewrite Hpk in Hord.
    rewrite !HK, Hpj by lia. repeat case_decide; lia || congruence.
Qed.

Lemma heap_root_min l i :
  heap_ordered l -> (i < length l)%nat -> K l 0 <= K l i.
Proof.
  intros Hl. induction i as [i IH] using lt_wf_ind. intros Hi.
  destruct (decide (i = 0%nat)) as [->|Hne]; [lia|].
  assert (parent i < i)%nat by (unfold parent; lia).
  specialize (IH (parent i)). specialize (Hl i). lia.
Qed.

Lemma swap_lookup_ne l i j k : k <> i -> k <> j -> swap l i j !! k = l !! k.
Proof.
  intros. unfold swap. destruct (l !! i), (l !! j); try done.
  by rewrite !list_lookup_insert_ne.
Qed.

(** [down] leaves the entries from [n] on alone. *)
Lemma down_lookup_ge fuel l i n k :
  (n <= k)%nat -> down fuel l i n !! k = l !! k.
Proof.
  intros Hk. revert l i. induction fuel as [|f IH]; intros l i; simpl; [done|].
  case_bool_decide; [done|]. destruct (negb _); [done|]. rewrite IH.
  apply swap_lookup_ne; [lia|].
  case_bool_decide; simpl; [destruct (less _ _ _)|]; lia.
Qed.

Lemma heap_ordered_take n l :
  heap_ordered_upto n l -> (n <= length l)%nat -> heap_ordered (take n l).
Proof.
  intros Ho Hn j Hj. rewrite length_take_le in Hj by lia.
  unfold K. rewrite !lookup_take_lt by (unfold parent; lia). by apply Ho.
Qed.

Lemma heap_pop_spec l :
  heap_ordered l -> l <> [] ->
  exists x l', heap_pop l = Some (x, l') /\ heap_ordered l' /\ l ≡ₚ x :: l'
    /\ l !! 0%nat = Some x /\ forall y, y ∈ l -> key x <= key y.
Proof.
  intros Hl Hne. unfold heap_pop.
  destruct (length l) as [|n] eqn:Hlen; [by apply nil_length_inv in Hlen|].
  destruct (lookup_lt_is_Some_2 l 0) as [x Hx]; [lia|].
  destruct (lookup_lt_is_Some_2 l n) as [z Hz]; [lia|].
  set (l' := down (S n) (swap l 0 n) 0 n).
  assert (Hlen' : length l' = S n).
  { unfold l'. rewrite (Permutation_length (down_perm _ _ _ _)), length_swap. done. }
  assert (Hlast : l' !! n = Some x).
  { unfold l'. rewrite down_lookup_ge by lia. unfold swap. rewrite Hx, Hz.
    destruct (decide (n = 0%nat)) as [->|].
    - simplify_eq. rewrite list_lookup_insert_eq; [done|]. rewrite length_insert. lia.
    - rewrite list_lookup_insert_ne, list_lookup_insert_eq by lia. done. }
  exists x, (take n l').
  assert (Hperm : l ≡ₚ x :: take n l').
  { rewrite <- (swap_perm l 0 n), <- (down_perm (S n) _ 0 n). fold l'.
    rewrite <- (take_drop n l') at 1. rewrite (drop_S _ _ _ Hlast), drop_ge by lia.
    by rewrite Permutation_app_comm. }
  split_and!; [| |done|done|].
  - rewrite last_lookup, Hlen'. simpl. by rewrite Hlast.
  - apply heap_ordered_take; [|lia]. apply down_ordered; rewrite ?length_swap; try lia.
    intros k Hk Hpk. rewrite !K_swap by lia.
    specialize (Hl k ltac:(lia)). repeat case_decide; unfold parent in *; lia.
  - intros y (i & Hi)%list_elem_of_lookup.
    pose proof (heap_root_min l i Hl (lookup_lt_Some _ _ _ Hi)) as Hmin.
    unfold K in Hmin. by rewrite Hx, Hi in Hmin.
Qed.
End Heap.

(** ** expHeap (util.go) *)
Module ExpHeap.

Record expItem : Type := mk_expItem { item : string; exp : Z }.
Abbreviation expHeap := (list expItem).

(** The root's [exp]; [None] is Go's index panic on an empty heap. *)
Definition nextExpiry (h : expHeap) : option Z := exp <$> (h !! 0%nat).

Definition add (h : expHeap) (it : string) (e : Z) : expHeap :=
  heap_push exp h {| item := it; exp := e |}.

Definition contains (h : expHeap) (it : string) : bool :=
  existsb (fun v => bool_decide (item v = it)) h.

(** [expire] without a callback.  The items are returned in the order in which
    they are removed, which is the order the callback sees them; each round
    removes one item, so the length of the heap is enough fuel. *)
Fixpoint expire_loop (fuel : nat) (now : Z) (h : expHeap) : list expItem * expHeap :=
  match fuel with
  | O => ([], h)
  | S f =>
      match nextExpiry h with
      | Some e =>
          if e <? now then
            match heap_pop exp h with
            | Some (x, h') =>
                let '(out, h'') := expire_loop f now h' in (x :: out, h'')
            | None => ([], h)
            end
          else ([], h)
      | None => ([], h)
      end
  end.
Definition expire (now : Z) (h : expHeap) : list expItem * expHeap :=
  expire_loop (length h) now h.

Definition wf (h : expHeap) : Prop := heap_ordered exp h.

Lemma add_wf h it e : wf h -> wf (add h it e).
Proof. apply heap_push_ordered. Qed.

Lemma contains_elem h it : contains h it = true <-> exists e, mk_expItem it e ∈ h.
Proof.
  unfold contains. rewrite existsb_exists. split.
  - intros ([i e] & Hin & Hi). apply bool_decide_eq_true in Hi. simpl in Hi. subst.
    exists e. by apply list_elem_of_In.
  - intros [e Hin]. exists (mk_expItem it e).
    split; [by apply list_elem_of_In|]. by apply bool_decide_eq_true.
Qed.

Lemma add_contains h it e it' :
  contains (add h it e) it' = true <-> it' = it \/ contains h it' = true.
Proof.
  rewrite !contains_elem. unfold add. setoid_rewrite heap_push_perm.
  setoid_rewrite elem_of_cons. naive_solver.
Qed.

Lemma expire_loop_spec fuel now h out h' :
  wf h -> (length h <= fuel)%nat -> expire_loop fuel now h = (out, h') ->
  wf h' /\ h ≡ₚ out ++ h' /\ Forall (fun x => exp x < now) out
  /\ Forall (fun x => now <= exp x) h'.
Proof.
  revert h out h'. induction fuel as [|f IH]; intros h out h' Hwf Hlen; cbn [expire_loop].
  { intros [= <- <-]. destruct h; [|simpl in Hlen; lia].
    split_and!; try constructor. apply Hwf. }
  destruct (decide (h = [])) as [->|Hne].
  { simpl. intros [= <- <-]. split_and!; try constructor. apply Hwf. }
  destruct (heap_pop_spec exp h Hwf Hne) as (x & h1 & Hpop & Hwf1 & Hperm & Hhd & Hmin).
  unfold nextExpiry. rewrite Hhd, Hpop. cbn [fmap option_fmap option_map].
  destruct (Z.ltb_spec (exp x) now) as [Hlt|Hge].
  - destruct (expire_loop f now h1) as [out1 h2] eqn:E. intros [= <- <-].
    destruct (IH h1 out1 h2 Hwf1) as (? & Hp & ? & ?);
      [by apply Permutation_length in Hperm; simpl in *; lia|done|].
    split_and!; [done| |by constructor|done]. by rewrite Hperm, Hp.
  - intros [= <- <-]. split_and!; [done|done|constructor|].
    apply Forall_forall. intros y Hy. specialize (Hmin y Hy). lia.
Qed.

(** [expHeap.expire] on a heap built by [add] removes exactly the items
    whose expiry time is before [now]: what it removes and what it leaves are
    together the old heap, everything removed is expired, nothing left is, and
    the heap order survives. *)
Theorem expire_spec now h :
  wf h ->
  let '(out, h') := expire now h in
  wf h' /\ h ≡ₚ out ++ h' /\ Forall (fun x => exp x < now) out
  /\ Forall (fun x => now <= exp x) h'.
Proof.
  intros Hwf. destruct (expire now h) as [out h'] eqn:E.
  by eapply expire_loop_spec in E.
Qed.

(** Every heap reachable by [add] and [expire] from the empty one is well
    formed. *)
Inductive reach : expHeap -> Prop :=
  | reach_nil : reach []
  | reach_add h it e : reach h -> reach (add h it e)
  | reach_expire h now : reach h -> reach (expire now h).2.

Lemma reach_wf h : reach h -> wf h.
Proof.
  induction 1.
  - intros j Hj. simpl in Hj. lia.
  - by apply add_wf.
  - destruct (expire now h) as [out h'] eqn:E.
    by apply expire_loop_spec in E as (? & _).
Qed.

Lemma expire_spec_witness :
  Forall (fun x => 5 <= exp x)
    (expire 5 (add (add (add [] "a" 7) "b" 3) "c" 5)).2.
Proof.
  pose proof (expire_spec 5 (add (add (add [] "a" 7) "b" 3) "c" 5)) as H.
  destruct (expire 5 _) as [out h']. apply H.
  apply reach_wf. repeat constructor.
Defined.
End ExpHeap.
