(* ===== verification/NetUtil.v ===== *)
(** * IP networks (p2p/netutil/net.go)

    [Netlist] restricts the addresses the node talks to, [IsLAN] exempts local
    hosts from the inbound throttle, and [DistinctNetSet] bounds the number of
    addresses per subnet.  A [net.IP] is a byte slice, possibly nil: nil is
    kept as the empty list, which no function below tells from it. *)

From stdpp Require Import base gmap list numbers.
From Stdlib Require Import ZArith Lia.
From S2P Require Import Prelude.

Module NetUtil.

(** ** The parts of Go's package net the code uses *)
Abbreviation IP := (list Z).

Definition To4 (ip : IP) : option IP :=
  if bool_decide (length ip = 4%nat) then Some ip
  else if (bool_decide (length ip = 16%nat)
           && bool_decide (take 10 ip = replicate 10 0)
           && bool_decide (take 2 (drop 10 ip) = [255; 255]))%bool
  then Some (drop 12 ip)
  else None.

Record IPNet : Type := mk_IPNet { net_IP : IP; net_Mask : list Z }.

Definition networkNumberAndMask (n : IPNet) : option (IP * list Z) :=
  ip ← match To4 (net_IP n) with
       | Some ip => Some ip
       | None => if bool_decide (length (net_IP n) = 16%nat) then Some (net_IP n) else None
       end;
  if bool_decide (length (net_Mask n) = 4%nat) then
    if bool_decide (length ip = 4%nat) then Some (ip, net_Mask n) else None
  else if bool_decide (length (net_Mask n) = 16%nat) then
    Some (ip, if bool_decide (length ip = 4%nat) then drop 12 (net_Mask n) else net_Mask n)
  else None.

Fixpoint masked_eq (nn m ip : list Z) : bool :=
  match nn, m, ip with
  | a :: nn', b :: m', c :: ip' =>
      ((Z.land a b =? Z.land c b) && masked_eq nn' m' ip')%bool
  | _, _, _ => true
  end.

Definition IPNet_Contains (n : IPNet) (ip : IP) : bool :=
  let '(nn, m) := default ([], []) (networkNumberAndMask n) in
  let ip := default ip (To4 ip) in
  (bool_decide (length ip = length nn) && masked_eq nn m ip)%bool.

(** [net.CIDRMask], the mask [net.ParseCIDR] gives a network: one byte per
    eight bits, with [ones] leading one bits. *)
Definition CIDRMask (ones bits : Z) : list Z :=
  (fun i => let n := Z.max 0 (Z.min 8 (ones - 8 * Z.of_nat i)) in 256 - 2 ^ (8 - n))
    <$> seq 0 (Z.to_nat (bits / 8)).

Definition IsLoopback (ip : IP) : bool :=
  match To4 ip with
  | Some (b :: _) => b =? 127
  | Some [] => false
  | None => bool_decide (ip = replicate 15 0 ++ [1])
  end.

(** net.IP.Equal *)
Definition v4InV6Prefix : list Z := replicate 10 0 ++ [255; 255].
Definition IP_Equal (ip x : IP) : bool :=
  if decide (length ip = length x) then bool_decide (ip = x)
  else if decide (length ip = 4%nat /\ length x = 16%nat)
  then (bool_decide (take 12 x = v4InV6Prefix) && bool_decide (ip = drop 12 x))%bool
  else if decide (length ip = 16%nat /\ length x = 4%nat)
  then (bool_decide (take 12 ip = v4InV6Prefix) && bool_decide (drop 12 ip = x))%bool
  else false.
Definition To16 (ip : IP) : option IP :=
  if bool_decide (length ip = 4%nat) then Some (v4InV6Prefix ++ ip)
  else if bool_decide (length ip = 16%nat) then Some ip
  else None.
Definition IsMulticast (ip : IP) : bool :=
  match To4 ip with
  | Some (b :: _) => Z.land b 0xf0 =? 0xe0
  | Some [] => false
  | None => (bool_decide (length ip = 16%nat) && bool_decide (head ip = Some 0xff))%bool
  end.
Definition IsUnspecified (ip : IP) : bool :=
  (IP_Equal ip (v4InV6Prefix ++ [0; 0; 0; 0]) || IP_Equal ip (replicate 16 0))%bool.

(** ** Netlist *)

(** A nil list contains nothing. *)
Definition Netlist_Contains (l : option (list IPNet)) (ip : IP) : bool :=
  match l with
  | None => false
  | Some nets => existsb (fun n => IPNet_Contains n ip) nets
  end.

(** The tables [init] fills. *)
Definition lan4 : list IPNet :=
  [ mk_IPNet [0; 0; 0; 0] (CIDRMask 8 32);
    mk_IPNet [10; 0; 0; 0] (CIDRMask 8 32);
    mk_IPNet [172; 16; 0; 0] (CIDRMask 12 32);
    mk_IPNet [192; 168; 0; 0] (CIDRMask 16 32) ].
Definition lan6 : list IPNet :=
  [ mk_IPNet (254 :: 128 :: replicate 14 0) (CIDRMask 10 128);
    mk_IPNet (252 :: replicate 15 0) (CIDRMask 7 128) ].

Definition special4 : list IPNet :=
  [ mk_IPNet [192; 0; 0; 0] (CIDRMask 29 32);
    mk_IPNet [192; 0; 0; 9] (CIDRMask 32 32);
    mk_IPNet [192; 0; 0; 170] (CIDRMask 32 32);
    mk_IPNet [192; 0; 0; 171] (CIDRMask 32 32);
    mk_IPNet [192; 0; 2; 0] (CIDRMask 24 32);
    mk_IPNet [192; 31; 196; 0] (CIDRMask 24 32);
    mk_IPNet [192; 52; 193; 0] (CIDRMask 24 32);
    mk_IPNet [192; 88; 99; 0] (CIDRMask 24 32);
    mk_IPNet [192; 175; 48; 0] (CIDRMask 24 32);
    mk_IPNet [198; 18; 0; 0] (CIDRMask 15 32);
    mk_IPNet [198; 51; 100; 0] (CIDRMask 24 32);
    mk_IPNet [203; 0; 113; 0] (CIDRMask 24 32);
    mk_IPNet [255; 255; 255; 255] (CIDRMask 32 32) ].
Definition special6 : list IPNet :=
  let net p ones := mk_IPNet (p ++ replicate (16 - length p) 0) (CIDRMask ones 128) in
  [ net [0x01; 0x00] 64;
    net [0x20; 0x01] 32;
    mk_IPNet ([0x20; 0x01; 0x00; 0x01] ++ replicate 11 0 ++ [0x01]) (CIDRMask 128 128);
    net [0x20; 0x01; 0x00; 0x02] 48;
    net [0x20; 0x01; 0x00; 0x03] 32;
    net [0x20; 0x01; 0x00; 0x04; 0x01; 0x12] 48;
    net [0x20; 0x01; 0x00; 0x05] 32;
    net [0x20; 0x01; 0x00; 0x10] 28;
    net [0x20; 0x01; 0x00; 0x20] 28;
    net [0x20; 0x01; 0x0d; 0xb8] 32;
    net [0x20; 0x02] 16 ].

Definition IsLAN (ip : IP) : bool :=
  if IsLoopback ip then true
  else match To4 ip with
       | Some v4 => Netlist_Contains (Some lan4) v4
       | None => Netlist_Contains (Some lan6) ip
       end.

Definition IsSpecialNetwork (ip : IP) : bool :=
  if IsMulticast ip then true
  else match To4 ip with
       | Some v4 => Netlist_Contains (Some special4) v4
       | None => Netlist_Contains (Some special6) ip
       end.

Inductive relayErr : Type := errInvalid | errUnspecified | errSpecial | errLoopback | errLAN.
(** [None]: the address may be relayed. *)
Definition CheckRelayIP (sender addr : IP) : option relayErr :=
  if (negb (bool_decide (length addr = 4%nat)) && negb (bool_decide (length addr = 16%nat)))%bool then Some errInvalid
  else if IsUnspecified addr then Some errUnspecified
  else if IsSpecialNetwork addr then Some errSpecial
  else if (IsLoopback addr && negb (IsLoopback sender))%bool then Some errLoopback
  else if (IsLAN addr && negb (IsLAN sender))%bool then Some errLAN
  else None.

Example IsLAN_192_168 : IsLAN [192; 168; 1; 7] = true.
Proof. reflexivity. Qed.
Example IsLAN_172_32 : IsLAN [172; 32; 0; 1] = false.
Proof. reflexivity. Qed.
Example IsLAN_v6_local : IsLAN (253 :: replicate 15 0) = true.
Proof. reflexivity. Qed.

(** ** DistinctNetSet

    The map of counters is keyed by the encoded prefix; the scratch buffer
    [buf] of the code only avoids allocation. *)
Record DistinctNetSet : Type := mk_DistinctNetSet {
  Subnet : Z;
  Limit : Z;
  members : gmap (list Z) Z;
}.

Definition prefix_mask (bits : Z) : Z := 255 - Z.shiftr 255 (bits mod 8).

Definition key (s : DistinctNetSet) (ip : IP) : list Z :=
  let '(typ, ip) := match To4 ip with Some ip4 => (52, ip4) | None => (54, ip) end in
  let bits := if len ip * 8 <? Subnet s then len ip * 8 else Subnet s in
  let nb := Z.to_nat (bits / 8) in
  let mask := prefix_mask bits in
  let buf := typ :: take nb ip in
  match ip !! nb with
  | Some b => if negb (mask =? 0) then buf ++ [Z.land b mask] else buf
  | None => buf
  end.

Definition Add (s : DistinctNetSet) (ip : IP) : bool * DistinctNetSet :=
  let k := key s ip in
  let n := default 0 (members s !! k) in
  if n <? Limit s
  then (true, mk_DistinctNetSet (Subnet s) (Limit s) (<[k := n + 1]> (members s)))
  else (false, s).

Definition Remove (s : DistinctNetSet) (ip : IP) : DistinctNetSet :=
  let k := key s ip in
  match members s !! k with
  | Some n =>
      mk_DistinctNetSet (Subnet s) (Limit s)
        (if n =? 1 then delete k (members s) else <[k := n - 1]> (members s))
  | None => s
  end.

Definition Contains (s : DistinctNetSet) (ip : IP) : bool :=
  bool_decide (is_Some (members s !! key s ip)).

Definition Len (s : DistinctNetSet) : Z :=
  map_fold (fun _ i n => n + i) 0 (members s).

(** Every counter is positive and at most [Limit]. *)
Definition wf (s : DistinctNetSet) : Prop :=
  map_Forall (fun _ n => 1 <= n <= Limit s) (members s).

Lemma Add_wf s ip : wf s -> wf (Add s ip).2.
Proof.
  intros Hs. unfold Add. destruct (Z.ltb_spec (default 0 (members s !! key s ip)) (Limit s));
    simpl; [|done].
  apply map_Forall_insert_2; [|done].
  destruct (members s !! key s ip) as [n|] eqn:E; simpl in *; [|lia].
  specialize (Hs _ _ E). simpl in Hs. lia.
Qed.

Lemma Remove_wf s ip : wf s -> wf (Remove s ip).
Proof.
  intros Hs. unfold Remove. destruct (members s !! key s ip) as [n|] eqn:E; [|done].
  specialize (Hs _ _ E) as Hn. unfold wf. simpl in *.
  destruct (Z.eqb_spec n 1); [by apply map_Forall_delete|].
  apply map_Forall_insert_2; [lia|done].
Qed.

Inductive reach (subnet limit : Z) : DistinctNetSet -> Prop :=
  | reach_new : reach subnet limit (mk_DistinctNetSet subnet limit ∅)
  | reach_Add s ip : reach subnet limit s -> reach subnet limit (Add s ip).2
  | reach_Remove s ip : reach subnet limit s -> reach subnet limit (Remove s ip).

Lemma netset_reach_wf subnet limit s : reach subnet limit s -> wf s.
Proof.
  induction 1; auto using Add_wf, Remove_wf. apply map_Forall_empty.
Qed.

Lemma key_Add s ip ip' : key (Add s ip).2 ip' = key s ip'.
Proof. unfold Add. by destruct (_ <? _). Qed.

(** [DistinctNetSet]: in every state reachable by [Add] and [Remove] no
    subnet counts more than [Limit] addresses; [Add] reports [true] exactly
    when the subnet still has room, and removing an address just added restores
    the set. *)
Theorem DistinctNetSet_spec subnet limit s ip :
  reach subnet limit s ->
  (forall k n, members s !! k = Some n -> 1 <= n <= Limit s)
  /\ (Add s ip).1 = (default 0 (members s !! key s ip) <? Limit s)
  /\ ((Add s ip).1 = true -> Remove (Add s ip).2 ip = s).
Proof.
  intros Hr%netset_reach_wf. split_and!.
  - intros k n Hk. apply (Hr _ _ Hk).
  - unfold Add. by destruct (_ <? _).
  - unfold Remove. rewrite key_Add. unfold Add.
    destruct (_ <? _); simpl; [intros _|done].
    rewrite lookup_insert_eq. destruct (members s !! key s ip) as [n|] eqn:E; simpl.
    + specialize (Hr _ _ E). simpl in Hr.
      destruct (Z.eqb_spec (n + 1) 1); [lia|].
      rewrite insert_insert_eq, Z.add_simpl_r, insert_id by done. by destruct s.
    + rewrite delete_insert_id by done. by destruct s.
Qed.

Lemma DistinctNetSet_spec_witness :
  let s := (Add (mk_DistinctNetSet 24 2 ∅) [10; 0; 1; 5]).2 in
  (Add s [10; 0; 1; 9]).1 = true /\ Remove (Add s [10; 0; 1; 9]).2 [10; 0; 1; 9] = s.
Proof.
  intros s. assert (Hs : reach 24 2 s) by (repeat constructor).
  destruct (DistinctNetSet_spec 24 2 s [10; 0; 1; 9] Hs) as (_ & _ & Hrt).
  split; [vm_compute; reflexivity|]. apply Hrt. vm_compute. reflexivity.
Defined.
End NetUtil.
