(* ===== verification/DialScheduler.v ===== *)
(** * The dial scheduler (p2p/dial.go)

    [dialScheduler] decides which nodes are dialed.  Its loop goroutine owns
    the state below; the node manager additionally starts dials through
    [Server.StartDialEnode].  Tasks are heap objects shared by the [static]
    map, the [staticPool] slice and the [dialing] map, so the model keeps them
    in a store addressed by references, and the three package-level mutexes are
    kept as the set of locks the running goroutine holds: locking a mutex that
    is already held blocks for ever, since Go mutexes are not reentrant. *)

From stdpp Require Import base gmap sets list strings numbers.
From Stdlib Require Import ZArith Lia.
From S2P Require Import Prelude ExpHeap NetUtil.

Module DialScheduler.
Import ExpHeap.

(** ** Data *)

(** enode.ID is a 32-byte array, kept as the string of its bytes (the key the
    history uses).  [IP] is [[]] when the record has no address. *)
Abbreviation ID := string.
Record Node : Type := mk_Node { node_ID : ID; node_IP : list Z; node_TCP : Z }.

Definition dynDialedConn : Z := 1.
Definition staticDialedConn : Z := 2.
Definition inboundConn : Z := 4.
Definition trustedConn : Z := 8.
Definition verifyConn : Z := 16.

Inductive dialErr : Type :=
  | errSelf | errAlreadyDialing | errAlreadyConnected
  | errRecentlyDialed | errNetRestrict | errNoPort.

Record dialTask : Type := mk_dialTask {
  staticPoolIndex : Z;
  flags : Z;
  dest : Node;
  lastResolved : Z;
  resolveDelay : Z;
  dataId : Z;
}.

Definition newDialTask (dest : Node) (flags dataId : Z) : dialTask :=
  {| dest := dest; flags := flags; staticPoolIndex := -1; dataId := dataId;
     lastResolved := 0; resolveDelay := 0 |}.

Inductive mutex : Type := peersRDLock | dialingRDLock | historyRDLock.
#[export] Instance mutex_eq_dec : EqDecision mutex.
Proof. solve_decision. Defined.

(** Durations in nanoseconds. *)
Definition Second : Z := 1000000000.
Definition inboundThrottleTime : Z := 30 * Second.
Definition dialHistoryExpiration : Z := inboundThrottleTime + 5 * Second.
Definition dialStatsLogInterval : Z := 10 * Second.
Definition initialResolveDelay : Z := 60 * Second.
Definition maxResolveDelay : Z := 3600 * Second.
Definition defaultMaxPendingPeers : Z := 200.

Record dialConfig : Type := mk_dialConfig {
  self : ID;
  maxDialPeers : Z;
  maxActiveDials : Z;
  netRestrict : option (list NetUtil.IPNet);
}.

Definition withDefaults (cfg : dialConfig) : dialConfig :=
  if maxActiveDials cfg =? 0
  then mk_dialConfig (self cfg) (maxDialPeers cfg) defaultMaxPendingPeers (netRestrict cfg)
  else cfg.

(** References to tasks. *)
Abbreviation taskRef := nat.

Record sched : Type := mk_sched {
  tasks : gmap taskRef dialTask;       (* the store *)
  nextTask : taskRef;                  (* next free reference *)
  dialing : gmap ID taskRef;
  peers : gset ID;
  dialPeers : Z;
  static : gmap ID taskRef;
  staticPool : list taskRef;
  history : expHeap;
  historyTimer : option Z;             (* the armed timer's deadline *)
  historyTimerTime : Z;
  doneSinceLastLog : Z;
  lastStatsLog : Z;
  started : list taskRef;              (* goroutines launched, latest first *)
  held : list mutex;                   (* locks of the running goroutine *)
}.

Definition set_tasks f s := mk_sched (f (tasks s)) (nextTask s) (dialing s) (peers s)
  (dialPeers s) (static s) (staticPool s) (history s) (historyTimer s) (historyTimerTime s)
  (doneSinceLastLog s) (lastStatsLog s) (started s) (held s).
Definition set_nextTask v s := mk_sched (tasks s) v (dialing s) (peers s)
  (dialPeers s) (static s) (staticPool s) (history s) (historyTimer s) (historyTimerTime s)
  (doneSinceLastLog s) (lastStatsLog s) (started s) (held s).
Definition set_dialing v s := mk_sched (tasks s) (nextTask s) v (peers s)
  (dialPeers s) (static s) (staticPool s) (history s) (historyTimer s) (historyTimerTime s)
  (doneSinceLastLog s) (lastStatsLog s) (started s) (held s).
Definition set_peers v n s := mk_sched (tasks s) (nextTask s) (dialing s) v
  n (static s) (staticPool s) (history s) (historyTimer s) (historyTimerTime s)
  (doneSinceLastLog s) (lastStatsLog s) (started s) (held s).
Definition set_static v s := mk_sched (tasks s) (nextTask s) (dialing s) (peers s)
  (dialPeers s) v (staticPool s) (history s) (historyTimer s) (historyTimerTime s)
  (doneSinceLastLog s) (lastStatsLog s) (started s) (held s).
Definition set_staticPool v s := mk_sched (tasks s) (nextTask s) (dialing s) (peers s)
  (dialPeers s) (static s) v (history s) (historyTimer s) (historyTimerTime s)
  (doneSinceLastLog s) (lastStatsLog s) (started s) (held s).
Definition set_history v s := mk_sched (tasks s) (nextTask s) (dialing s) (peers s)
  (dialPeers s) (static s) (staticPool s) v (historyTimer s) (historyTimerTime s)
  (doneSinceLastLog s) (lastStatsLog s) (started s) (held s).
Definition set_historyTimer t v s := mk_sched (tasks s) (nextTask s) (dialing s) (peers s)
  (dialPeers s) (static s) (staticPool s) (history s) t v
  (doneSinceLastLog s) (lastStatsLog s) (started s) (held s).
Definition set_stats n t s := mk_sched (tasks s) (nextTask s) (dialing s) (peers s)
  (dialPeers s) (static s) (staticPool s) (history s) (historyTimer s) (historyTimerTime s)
  n t (started s) (held s).
Definition set_started v s := mk_sched (tasks s) (nextTask s) (dialing s) (peers s)
  (dialPeers s) (static s) (staticPool s) (history s) (historyTimer s) (historyTimerTime s)
  (doneSinceLastLog s) (lastStatsLog s) v (held s).
Definition set_held v s := mk_sched (tasks s) (nextTask s) (dialing s) (peers s)
  (dialPeers s) (static s) (staticPool s) (history s) (historyTimer s) (historyTimerTime s)
  (doneSinceLastLog s) (lastStatsLog s) (started s) v.

Definition newDialScheduler (now : Z) : sched :=
  {| tasks := ∅; nextTask := 0%nat; dialing := ∅; peers := ∅; dialPeers := 0;
     static := ∅; staticPool := []; history := []; historyTimer := None;
     historyTimerTime := 0; doneSinceLastLog := 0; lastStatsLog := now;
     started := []; held := [] |}.

(** ** Mutexes and the task store *)
Definition Lock (m : mutex) : GoM sched unit := fun s =>
  if bool_decide (m ∈ held s) then Blocked "sync.Mutex.Lock"
  else Done (tt, set_held (m :: held s) s).
Definition Unlock (m : mutex) : GoM sched unit := fun s =>
  if bool_decide (m ∈ held s)
  then Done (tt, set_held (filter (fun x => x <> m) (held s)) s)
  else Panic "sync: unlock of unlocked mutex".

Definition load (r : taskRef) : GoM sched dialTask := fun s =>
  match tasks s !! r with
  | Some t => Done (t, s)
  | None => Panic "nil pointer dereference"
  end.
Definition set_index (i : Z) (t : dialTask) : dialTask :=
  mk_dialTask i (flags t) (dest t) (lastResolved t) (resolveDelay t) (dataId t).
Definition store_index (r : taskRef) (i : Z) : GoM sched unit :=
  gmodify (set_tasks (alter (set_index i) r)).
Definition alloc (t : dialTask) : GoM sched taskRef := fun s =>
  let r := nextTask s in
  Done (r, set_nextTask (S r) (set_tasks (insert r t) s)).

Definition locked {A} (m : mutex) (c : GoM sched A) : GoM sched A :=
  Lock m ;; a ← c; Unlock m ;; mret a.

(** Runs monadic code down to its effects on the state. *)
Ltac run_locks :=
  repeat (unfold mbind, GoM_bind, Lock, Unlock, gget, gmodify, gpanic, mret, GoM_ret,
            locked, set_held; simpl).

(** ** Operations *)
Section Ops.
Context (cfg : dialConfig).

Definition freeDialSlots : GoM sched Z :=
  Lock dialingRDLock ;;
  s ← gget;
  let slots := (maxDialPeers cfg - dialPeers s) * 2 in
  let slots := if maxActiveDials cfg <? slots then maxActiveDials cfg else slots in
  let free := slots - Z.of_nat (size (dialing s)) in
  Unlock dialingRDLock ;;
  mret free.

(** The checks of [checkDial], without its locking. *)
Definition checkDial_body (n : Node) (s : sched) : option dialErr :=
  if bool_decide (node_ID n = self cfg) then Some errSelf
  else if (negb (bool_decide (node_IP n = [])) && (node_TCP n =? 0))%bool then Some errNoPort
  else if bool_decide (is_Some (dialing s !! node_ID n)) then Some errAlreadyDialing
  else if bool_decide (node_ID n ∈ peers s) then Some errAlreadyConnected
  else if match netRestrict cfg with
          | Some l => negb (NetUtil.Netlist_Contains (Some l) (node_IP n))
          | None => false
          end then Some errNetRestrict
  else if contains (history s) (node_ID n) then Some errRecentlyDialed
  else None.

Definition checkDial (n : Node) : GoM sched (option dialErr) :=
  Lock peersRDLock ;;
  Lock dialingRDLock ;;
  Lock historyRDLock ;;
  s ← gget;
  let r := checkDial_body n s in
  Unlock historyRDLock ;;
  Unlock dialingRDLock ;;
  Unlock peersRDLock ;;
  mret r.

Definition addToStaticPool (r : taskRef) : GoM sched unit :=
  t ← load r;
  if 0 <=? staticPoolIndex t then gpanic "attempt to add task to staticPool twice"
  else
    gmodify (fun s => set_staticPool (staticPool s ++ [r]) s) ;;
    s ← gget;
    store_index r (len (staticPool s) - 1).

(** A negative or too large index is a Go run-time panic. *)
Definition removeFromStaticPool (idx : Z) : GoM sched unit :=
  s ← gget;
  let e := (length (staticPool s) - 1)%nat in
  match (if idx <? 0 then None else staticPool s !! Z.to_nat idx), staticPool s !! e with
  | Some task, Some moved =>
      gmodify (set_staticPool (<[Z.to_nat idx := moved]> (staticPool s))) ;;
      store_index moved idx ;;
      gmodify (fun s => set_staticPool (take e (staticPool s)) s) ;;
      store_index task (-1)
  | _, _ => gpanic "index out of range"
  end.

Definition updateStaticPool (id : ID) : GoM sched unit :=
  s ← gget;
  match static s !! id with
  | Some r =>
      t ← load r;
      if staticPoolIndex t <? 0 then
        e ← checkDial (dest t);
        match e with
        | None => addToStaticPool r
        | Some _ => mret tt
        end
      else mret tt
  | None => mret tt
  end.

(** [now] is the clock; the goroutine started for the task is recorded. *)
Definition startDial (now : Z) (r : taskRef) : GoM sched unit :=
  Lock dialingRDLock ;;
  Lock historyRDLock ;;
  t ← load r;
  let hkey := node_ID (dest t) in
  gmodify (fun s => set_history (add (history s) hkey (i64 (now + dialHistoryExpiration))) s) ;;
  gmodify (fun s => set_dialing (<[node_ID (dest t) := r]> (dialing s)) s) ;;
  gmodify (fun s => set_started (r :: started s) s) ;;
  Unlock historyRDLock ;;
  Unlock dialingRDLock.

(** Starts up to [n] tasks of the pool, chosen by the words of the random
    source [rnd]; [rnd k] is the word of the [k]-th draw, and the pool shrinks
    by one per round. *)
Fixpoint startStaticDials_loop (fuel : nat) (now : Z) (rnd : nat -> Z) (n started_ : Z)
    : GoM sched Z :=
  s ← gget;
  match fuel with
  | O => mret started_
  | S f =>
      if ((started_ <? n) && (0 <? len (staticPool s)))%bool then
        idx ← (fun s => match Intn (rnd f) (len (staticPool s)) with
                        | Done i => Done (i, s)
                        | Panic m => Panic m
                        | Blocked w => Blocked w
                        end);
        match staticPool s !! Z.to_nat idx with
        | Some task =>
            startDial now task ;;
            removeFromStaticPool idx ;;
            startStaticDials_loop f now rnd n (started_ + 1)
        | None => gpanic "index out of range"
        end
      else mret started_
  end.
Definition startStaticDials (now : Z) (rnd : nat -> Z) (n : Z) : GoM sched Z :=
  s ← gget;
  startStaticDials_loop (length (staticPool s)) now rnd n 0.

(** [clock.AfterFunc] arms the timer; stopping a timer that has fired drains
    its token from the channel, so only the deadline matters. *)
Definition stopHistoryTimer : GoM sched unit :=
  gmodify (fun s => set_historyTimer None (historyTimerTime s) s).
Definition rearmHistoryTimer : GoM sched unit :=
  Lock historyRDLock ;;
  s ← gget;
  match nextExpiry (history s) with
  | None => Unlock historyRDLock
  | Some e =>
      if historyTimerTime s =? e then Unlock historyRDLock
      else
        stopHistoryTimer ;;
        gmodify (set_historyTimer (Some e) e) ;;
        Unlock historyRDLock
  end.

(** [expHeap.expire] with a callback, interleaved with the heap it walks. *)
Fixpoint history_expire (fuel : nat) (now : Z) (onExp : string -> GoM sched unit)
    : GoM sched unit :=
  s ← gget;
  match fuel with
  | O => mret tt
  | S f =>
      match nextExpiry (history s) with
      | Some e =>
          if e <? now then
            match heap_pop exp (history s) with
            | Some (x, h') =>
                gmodify (set_history h') ;;
                onExp (item x) ;;
                history_expire f now onExp
            | None => mret tt
            end
          else mret tt
      | None => mret tt
      end
  end.

Definition expireHistory (now : Z) : GoM sched unit :=
  Lock historyRDLock ;;
  s ← gget;
  match historyTimer s with
  | None => gpanic "nil pointer dereference"
  | Some _ =>
      gmodify (set_historyTimer None 0) ;;
      history_expire (length (history s)) now updateStaticPool ;;
      Unlock historyRDLock
  end.

Definition logStats (now : Z) : GoM sched unit :=
  Lock peersRDLock ;;
  s ← gget;
  (if now <? i64 (lastStatsLog s + dialStatsLogInterval) then mret tt
   else gmodify (set_stats 0 now)) ;;
  Unlock peersRDLock.

(** ** The loop *)

(** A connection as the loop sees it: its flags and its node. *)
Record conn : Type := mk_conn { conn_flags : Z; conn_node : Node }.
Definition conn_is (c : conn) (f : Z) : bool := negb (Z.land (conn_flags c) f =? 0).

Inductive event : Type :=
  | evNode (n : Node)               (* <-nodesCh *)
  | evDone (r : taskRef)            (* <-d.doneCh *)
  | evAddPeer (c : conn)            (* <-d.addPeerCh *)
  | evRemPeer (c : conn)            (* <-d.remPeerCh *)
  | evAddStatic (n : Node)          (* <-d.addStaticCh *)
  | evRemStatic (n : Node)          (* <-d.remStaticCh *)
  | evHistoryExp.                   (* <-historyExp *)

(** The part of an iteration before the select; returns the slots left. *)
Definition loop_head (now : Z) (rnd : nat -> Z) : GoM sched Z :=
  slots ← freeDialSlots;
  n ← startStaticDials now rnd slots;
  rearmHistoryTimer ;;
  logStats now ;;
  mret (slots - n).

(** The select's cases. *)
Definition handle (now : Z) (ev : event) : GoM sched unit :=
  match ev with
  | evNode n =>
      e ← checkDial n;
      match e with
      | Some _ => mret tt
      | None => r ← alloc (newDialTask n dynDialedConn 0); startDial now r
      end
  | evDone r =>
      t ← load r;
      let id := node_ID (dest t) in
      locked dialingRDLock (gmodify (fun s => set_dialing (delete id (dialing s)) s)) ;;
      updateStaticPool id ;;
      gmodify (fun s => set_stats (doneSinceLastLog s + 1) (lastStatsLog s) s)
  | evAddPeer c =>
      let d := if (conn_is c dynDialedConn || conn_is c staticDialedConn)%bool then 1 else 0 in
      let id := node_ID (conn_node c) in
      locked peersRDLock
        (gmodify (fun s => set_peers ({[id]} ∪ peers s) (dialPeers s + d) s)) ;;
      s ← gget;
      match static s !! id with
      | Some r =>
          t ← load r;
          if 0 <=? staticPoolIndex t then removeFromStaticPool (staticPoolIndex t)
          else mret tt
      | None => mret tt
      end
  | evRemPeer c =>
      let d := if (conn_is c dynDialedConn || conn_is c staticDialedConn)%bool then 1 else 0 in
      let id := node_ID (conn_node c) in
      locked peersRDLock
        (gmodify (fun s => set_peers (peers s ∖ {[id]}) (dialPeers s - d) s)) ;;
      updateStaticPool id
  | evAddStatic n =>
      let id := node_ID n in
      s ← gget;
      match static s !! id with
      | Some _ => mret tt
      | None =>
          r ← alloc (newDialTask n staticDialedConn 0);
          gmodify (fun s => set_static (<[id := r]> (static s)) s) ;;
          e ← checkDial n;
          match e with
          | None => addToStaticPool r
          | Some _ => mret tt
          end
      end
  | evRemStatic n =>
      let id := node_ID n in
      s ← gget;
      match static s !! id with
      | Some r =>
          gmodify (fun s => set_static (delete id (static s)) s) ;;
          t ← load r;
          if 0 <=? staticPoolIndex t then removeFromStaticPool (staticPoolIndex t)
          else mret tt
      | None => mret tt
      end
  | evHistoryExp => expireHistory now
  end.

(** One iteration.  The nodes channel is only selected while slots are left. *)
Definition iterate (now : Z) (rnd : nat -> Z) (ev : event) : GoM sched unit :=
  slots ← loop_head now rnd;
  match ev with
  | evNode _ => if 0 <? slots then handle now ev else mret tt
  | _ => handle now ev
  end.

(** Server.StartDialEnode (p2p/server.go), called by the node manager. *)
Definition StartDialEnode (now : Z) (dest : Node) (dataId : Z) : GoM sched (option dialErr) :=
  checkErr ← checkDial dest;
  match checkErr with
  | None =>
      r ← alloc (newDialTask dest staticDialedConn dataId);
      startDial now r ;;
      mret None
  | Some e => mret (Some e)
  end.

(** Server.DialingCount (p2p/server.go). *)
Definition DialingCount : GoM sched Z :=
  locked dialingRDLock (s ← gget; mret (Z.of_nat (size (dialing s)))).

(** ** Tasks *)
Definition needResolve (t : dialTask) : bool :=
  (negb (Z.land (flags t) staticDialedConn =? 0) && bool_decide (node_IP (dest t) = []))%bool.

(** [resolver] is [None] when discovery is off; [now1] and [now2] are the two
    clock readings. *)
Definition resolve (resolver : option (Node -> option Node)) (now1 now2 : Z) (t : dialTask)
    : bool * dialTask :=
  match resolver with
  | None => (false, t)
  | Some Resolve =>
      let delay := if resolveDelay t =? 0 then initialResolveDelay else resolveDelay t in
      let t := mk_dialTask (staticPoolIndex t) (flags t) (dest t) (lastResolved t) delay (dataId t) in
      if ((0 <? lastResolved t) && (now1 - lastResolved t <? delay))%bool then (false, t)
      else
        match Resolve (dest t) with
        | None =>
            let d2 := i64 (delay * 2) in
            let d2 := if maxResolveDelay <? d2 then maxResolveDelay else d2 in
            (false, mk_dialTask (staticPoolIndex t) (flags t) (dest t) now2 d2 (dataId t))
        | Some n =>
            (true, mk_dialTask (staticPoolIndex t) (flags t) n now2 initialResolveDelay (dataId t))
        end
  end.

(** [run]: the node dialed, if any, and the task afterwards. *)
Definition run (resolver : option (Node -> option Node)) (now1 now2 : Z) (t : dialTask)
    : option Node * dialTask :=
  if needResolve t then
    let '(ok, t') := resolve resolver now1 now2 t in
    (if ok then Some (dest t') else None, t')
  else (Some (dest t), t).

(** ** What the operations do when no lock is held *)

Lemma set_held_id s : set_held (held s) s = s.
Proof. by destruct s. Qed.

Lemma checkDial_run n s :
  held s = [] -> checkDial n s = Done (checkDial_body n s, s).
Proof. destruct s; simpl; intros ->. reflexivity. Qed.

Definition free_slots (s : sched) : Z :=
  Z.min ((maxDialPeers cfg - dialPeers s) * 2) (maxActiveDials cfg)
  - Z.of_nat (size (dialing s)).

Lemma freeDialSlots_run s :
  held s = [] -> freeDialSlots s = Done (free_slots s, s).
Proof.
  destruct s; simpl; intros ->. unfold freeDialSlots, free_slots. run_locks.
  destruct (Z.ltb_spec (maxActiveDials cfg) ((maxDialPeers cfg - dialPeers0) * 2)).
  - by rewrite Z.min_r by lia.
  - by rewrite Z.min_l by lia.
Qed.

Definition after_startDial (now : Z) (r : taskRef) (t : dialTask) (s : sched) : sched :=
  set_started (r :: started s)
    (set_dialing (<[node_ID (dest t) := r]> (dialing s))
      (set_history (add (history s) (node_ID (dest t)) (i64 (now + dialHistoryExpiration))) s)).

Lemma startDial_run now r t s :
  held s = [] -> tasks s !! r = Some t ->
  startDial now r s = Done (tt, after_startDial now r t s).
Proof.
  destruct s; simpl; intros -> Ht. unfold startDial, after_startDial, load.
  run_locks. rewrite Ht. reflexivity.
Qed.

Definition after_add (r : taskRef) (s : sched) : sched :=
  set_tasks (alter (set_index (len (staticPool s))) r)
    (set_staticPool (staticPool s ++ [r]) s).

Lemma addToStaticPool_run r t s :
  tasks s !! r = Some t -> staticPoolIndex t < 0 ->
  addToStaticPool r s = Done (tt, after_add r s).
Proof.
  intros Ht Hi. unfold addToStaticPool, load, after_add, store_index. run_locks.
  rewrite Ht. destruct (Z.leb_spec 0 (staticPoolIndex t)); [lia|].
  simpl. rewrite len_app, len_cons, len_nil.
  by replace (len (staticPool s) + (1 + 0) - 1) with (len (staticPool s)) by lia.
Qed.

Definition after_remove (i : nat) (r moved : taskRef) (s : sched) : sched :=
  let e := (length (staticPool s) - 1)%nat in
  set_tasks (fun m => alter (set_index (-1)) r (alter (set_index (Z.of_nat i)) moved m))
    (set_staticPool (take e (<[i := moved]> (staticPool s))) s).

Lemma removeFromStaticPool_run i r s :
  staticPool s !! i = Some r ->
  exists moved, staticPool s !! (length (staticPool s) - 1)%nat = Some moved /\
    removeFromStaticPool (Z.of_nat i) s = Done (tt, after_remove i r moved s).
Proof.
  intros Hr. pose proof (lookup_lt_Some _ _ _ Hr) as Hlt.
  destruct (lookup_lt_is_Some_2 (staticPool s) (length (staticPool s) - 1)) as [m Hm]; [lia|].
  exists m. split; [done|]. unfold removeFromStaticPool, store_index, after_remove. run_locks.
  destruct (Z.ltb_spec (Z.of_nat i) 0); [lia|].
  rewrite Nat2Z.id, Hr, Hm. reflexivity.
Qed.
End Ops.
End DialScheduler.
