(* ===== verification/DialSafety.v ===== *)
(** * Safety of the dial scheduler

    The invariant of the scheduler's shared tasks, its preservation by the
    operations on the static pool, and the relation between the pool and
    [checkDial]: the pool holds exactly the static tasks that may be dialed.
    DialLoop.v lifts both to the scheduler's loop. *)

From stdpp Require Import base gmap sets list strings numbers.
From Stdlib Require Import ZArith Lia.
From S2P Require Import Prelude ExpHeap NetUtil DialScheduler.

Module DialSafety.
Import ExpHeap DialScheduler.

(** ** The invariant *)
Record wf (s : sched) : Prop := {
  wf_held : held s = [];
  wf_static id r : static s !! id = Some r ->
    exists t, tasks s !! r = Some t /\ node_ID (dest t) = id;
  wf_pool i r : staticPool s !! i = Some r ->
    exists t, tasks s !! r = Some t /\ staticPoolIndex t = Z.of_nat i
              /\ static s !! node_ID (dest t) = Some r;
  wf_index r t : tasks s !! r = Some t -> 0 <= staticPoolIndex t ->
    staticPool s !! Z.to_nat (staticPoolIndex t) = Some r;
  wf_dialing id r : dialing s !! id = Some r ->
    exists t, tasks s !! r = Some t /\ node_ID (dest t) = id;
  wf_fresh r : (nextTask s <= r)%nat -> tasks s !! r = None;
  wf_started r : r ∈ started s -> is_Some (tasks s !! r);
  wf_history : ExpHeap.wf (history s);
}.

Lemma wf_init now : wf (newDialScheduler now).
Proof. split; try done. intros r Hr. by apply not_elem_of_nil in Hr. Qed.

(** Changing an index leaves the rest of every task alone. *)
Lemma alter_index_lookup (m : gmap taskRef dialTask) i r r' t' :
  alter (set_index i) r m !! r' = Some t' ->
  exists t, m !! r' = Some t /\ dest t' = dest t /\
    staticPoolIndex t' = if decide (r' = r) then i else staticPoolIndex t.
Proof.
  destruct (decide (r' = r)) as [->|Hne].
  - rewrite lookup_alter_eq. destruct (m !! r) as [t|]; simpl; [|done].
    intros [= <-]. by exists t.
  - rewrite lookup_alter_ne by done. eauto.
Qed.

Lemma alter_index_Some (m : gmap taskRef dialTask) i r r' t :
  m !! r' = Some t ->
  exists t', alter (set_index i) r m !! r' = Some t' /\ dest t' = dest t /\
    staticPoolIndex t' = if decide (r' = r) then i else staticPoolIndex t.
Proof.
  intros Ht. destruct (decide (r' = r)) as [->|Hne].
  - rewrite lookup_alter_eq, Ht. simpl. by eexists.
  - rewrite lookup_alter_ne by done. eauto.
Qed.

Lemma alter_index_None (m : gmap taskRef dialTask) i r r' :
  m !! r' = None -> alter (set_index i) r m !! r' = None.
Proof.
  intros Hm. destruct (decide (r' = r)) as [->|Hne].
  - by rewrite lookup_alter_eq, Hm.
  - by rewrite lookup_alter_ne.
Qed.

Lemma pool_index_unique s i j r :
  wf s -> staticPool s !! i = Some r -> staticPool s !! j = Some r -> i = j.
Proof.
  intros Hs Hi Hj. destruct (wf_pool s Hs i r Hi) as (t & Ht & Hti & _).
  destruct (wf_pool s Hs j r Hj) as (t' & Ht' & Htj & _). simplify_eq. lia.
Qed.

Lemma wf_after_add s id r t :
  wf s -> static s !! id = Some r -> tasks s !! r = Some t -> staticPoolIndex t < 0 ->
  wf (after_add r s).
Proof.
  intros Hs Hid Ht Hneg. destruct (wf_static s Hs id r Hid) as (t0 & Ht0 & Hid0). simplify_eq.
  assert (Hnotin : forall i, staticPool s !! i <> Some r).
  { intros i Hi. destruct (wf_pool s Hs i r Hi) as (? & ? & ? & _). simplify_eq. lia. }
  split; simpl.
  - apply Hs.
  - intros id r' Hr'. destruct (wf_static s Hs id r' Hr') as (t' & Ht' & Hd).
    destruct (alter_index_Some _ (len (staticPool s)) r _ _ Ht') as (t2 & ? & Hd2 & _).
    exists t2. by rewrite Hd2.
  - intros i r' Hr'. apply lookup_app_Some in Hr' as [Hr'|[Hge Hr']].
    + destruct (wf_pool s Hs i r' Hr') as (t' & Ht' & Hi & Hst).
      destruct (alter_index_Some _ (len (staticPool s)) r _ _ Ht') as (t2 & ? & Hd2 & Hi2).
      exists t2. rewrite Hd2, Hi2. case_decide; [by subst; edestruct Hnotin|done].
    + apply list_lookup_singleton_Some in Hr' as [Hz <-].
      destruct (alter_index_Some _ (len (staticPool s)) r _ _ Ht) as (t2 & ? & Hd2 & Hi2).
      exists t2. rewrite Hd2, Hi2, decide_True by done. unfold len. split_and!; [done|lia|done].
  - intros r' t' Ht' Hpos.
    destruct (alter_index_lookup _ _ _ _ _ Ht') as (t2 & Ht2 & Hd2 & Hi2).
    rewrite Hi2 in *. case_decide as Heq.
    + subst. unfold len. rewrite Nat2Z.id. by rewrite lookup_app_r, Nat.sub_diag by lia.
    + apply lookup_app_l_Some. by apply (wf_index s Hs).
  - intros id r' Hr'. destruct (wf_dialing s Hs id r' Hr') as (t' & Ht' & Hd).
    destruct (alter_index_Some _ (len (staticPool s)) r _ _ Ht') as (t2 & ? & Hd2 & _).
    exists t2. by rewrite Hd2.
  - intros r' Hr'. by apply alter_index_None, (wf_fresh s Hs).
  - intros r' Hr'. destruct (wf_started s Hs r' Hr') as [t' Ht'].
    destruct (alter_index_Some _ (len (staticPool s)) r _ _ Ht') as (t2 & ? & _). eauto.
  - apply Hs.
Qed.

(** The slice after the swap-with-last removal. *)
Lemma pool_remove_lookup (l : list taskRef) i m k :
  (i < length l)%nat -> l !! (length l - 1)%nat = Some m ->
  take (length l - 1) (<[i := m]> l) !! k =
    if decide (k < length l - 1)%nat then (if decide (k = i) then Some m else l !! k)
    else None.
Proof.
  intros Hi Hm. case_decide as Hk.
  - rewrite lookup_take_lt by done. case_decide as Hki.
    + subst. by apply list_lookup_insert_eq.
    + by apply list_lookup_insert_ne.
  - by rewrite lookup_take_ge by lia.
Qed.

(** The indices after the removal of [r] at [i]. *)
Lemma remove_tasks_lookup s i r m r' t' :
  wf s -> staticPool s !! i = Some r ->
  staticPool s !! (length (staticPool s) - 1)%nat = Some m ->
  tasks (after_remove i r m s) !! r' = Some t' ->
  exists t, tasks s !! r' = Some t /\ dest t' = dest t /\
    staticPoolIndex t' = if decide (r' = r) then -1
                         else if decide (r' = m) then Z.of_nat i else staticPoolIndex t.
Proof.
  intros Hs Hr Hm Ht'. simpl in Ht'.
  destruct (alter_index_lookup _ _ _ _ _ Ht') as (t1 & Ht1 & Hd1 & Hi1).
  destruct (alter_index_lookup _ _ _ _ _ Ht1) as (t & Ht & Hd & Hi).
  exists t. rewrite Hd1, Hi1, Hi. done.
Qed.

Lemma remove_tasks_Some s i r m r' t :
  tasks s !! r' = Some t ->
  exists t', tasks (after_remove i r m s) !! r' = Some t' /\ dest t' = dest t /\
    staticPoolIndex t' = if decide (r' = r) then -1
                         else if decide (r' = m) then Z.of_nat i else staticPoolIndex t.
Proof.
  intros Ht. simpl.
  destruct (alter_index_Some _ (Z.of_nat i) m _ _ Ht) as (t1 & Ht1 & Hd1 & Hi1).
  destruct (alter_index_Some _ (-1) r _ _ Ht1) as (t2 & Ht2 & Hd2 & Hi2).
  exists t2. rewrite Hd2, Hi2, Hd1, Hi1. done.
Qed.

Lemma wf_after_remove s i r m :
  wf s -> staticPool s !! i = Some r ->
  staticPool s !! (length (staticPool s) - 1)%nat = Some m ->
  wf (after_remove i r m s).
Proof.
  intros Hs Hr Hm. pose proof (lookup_lt_Some _ _ _ Hr) as Hlt.
  assert (Hlk := pool_remove_lookup (staticPool s) i m).
  split.
  - apply Hs.
  - intros id r' Hr'. destruct (wf_static s Hs id r' Hr') as (t' & Ht' & Hd).
    destruct (remove_tasks_Some s i r m _ _ Ht') as (t2 & ? & Hd2 & _).
    exists t2. by rewrite Hd2.
  - intros k r' Hk. simpl in Hk. rewrite Hlk in Hk by done.
    case_decide as Hke; [|done].
    assert (Hrr : r' <> r /\ exists k0, staticPool s !! k0 = Some r'
              /\ (if decide (r' = m) then k = i else k0 = k)).
    { case_decide as Hki; simplify_eq.
      - split; [|exists (length (staticPool s) - 1)%nat; by rewrite decide_True].
        intros ->. pose proof (pool_index_unique s _ _ _ Hs Hr Hm). lia.
      - split; [intros ->; by apply Hki, (pool_index_unique s _ _ r)|].
        exists k. split; [done|]. case_decide; [|done]. subst.
        pose proof (pool_index_unique s _ _ _ Hs Hk Hm). lia. }
    destruct Hrr as (Hne & k0 & Hk0 & Hcase).
    destruct (wf_pool s Hs k0 r' Hk0) as (t & Ht & Hti & Hst).
    destruct (remove_tasks_Some s i r m _ _ Ht) as (t2 & ? & Hd2 & Hi2).
    exists t2. rewrite Hd2. split_and!; [done| |done].
    rewrite Hi2, decide_False by done.
    destruct (decide (r' = m)); rewrite Hcase in *; congruence.
  - intros r' t' Ht' Hpos.
    destruct (remove_tasks_lookup s i r m _ _ Hs Hr Hm Ht') as (t & Ht & Hd & Hi).
    rewrite Hi in *. simpl. rewrite Hlk by done.
    destruct (decide (r' = r)) as [|Hne]; [lia|].
    destruct (decide (r' = m)) as [->|Hnem].
    + rewrite Nat2Z.id, (decide_True (P := i = i)) by done.
      rewrite decide_True; [done|]. destruct (decide (i = length (staticPool s) - 1)%nat) as [->|];
        [congruence|lia].
    + pose proof (wf_index s Hs r' t Ht Hpos) as Hx.
      pose proof (lookup_lt_Some _ _ _ Hx).
      rewrite decide_True, decide_False; [done| |]; [congruence|].
      destruct (decide (Z.to_nat (staticPoolIndex t) = length (staticPool s) - 1)%nat) as [E|];
        [rewrite E in Hx; congruence|lia].
  - intros id r' Hr'. destruct (wf_dialing s Hs id r' Hr') as (t' & Ht' & Hd).
    destruct (remove_tasks_Some s i r m _ _ Ht') as (t2 & ? & Hd2 & _).
    exists t2. by rewrite Hd2.
  - intros r' Hr'. simpl. by apply alter_index_None, alter_index_None, (wf_fresh s Hs).
  - intros r' Hr'. destruct (wf_started s Hs r' Hr') as [t' Ht'].
    destruct (remove_tasks_Some s i r m _ _ Ht') as (t2 & ? & _). eauto.
  - apply Hs.
Qed.

Lemma wf_after_startDial s now r t :
  wf s -> tasks s !! r = Some t -> wf (after_startDial now r t s).
Proof.
  intros Hs Ht. split; simpl; try apply Hs.
  - intros id r' Hr'. destruct (decide (node_ID (dest t) = id)) as [<-|Hne].
    + rewrite lookup_insert_eq in Hr'. naive_solver.
    + rewrite lookup_insert_ne in Hr' by done. by apply (wf_dialing s Hs).
  - intros r' [->|Hr']%elem_of_cons; [by eauto|by apply (wf_started s Hs)].
  - apply add_wf, Hs.
Qed.

Lemma wf_set_dialing_delete s id :
  wf s -> wf (set_dialing (delete id (dialing s)) s).
Proof.
  intros Hs. split; simpl; try apply Hs.
  intros id' r [_ Hr]%lookup_delete_Some. by apply (wf_dialing s Hs).
Qed.

Lemma wf_set_peers s v n : wf s -> wf (set_peers v n s).
Proof. intros Hs. split; simpl; apply Hs. Qed.
Lemma wf_set_stats s n t : wf s -> wf (set_stats n t s).
Proof. intros Hs. split; simpl; apply Hs. Qed.
Lemma wf_set_timer s n t : wf s -> wf (set_historyTimer n t s).
Proof. intros Hs. split; simpl; apply Hs. Qed.
Hint Resolve wf_set_peers wf_set_stats wf_set_timer wf_set_dialing_delete : octopus.

(** [alloc] of a task that is not in the pool. *)
Definition after_alloc (t : dialTask) (s : sched) : sched :=
  set_nextTask (S (nextTask s)) (set_tasks (insert (nextTask s) t) s).

Lemma wf_after_alloc s t : wf s -> staticPoolIndex t = -1 -> wf (after_alloc t s).
Proof.
  intros Hs Hi. pose proof (wf_fresh s Hs (nextTask s) (le_n _)) as Hf.
  assert (Hk : forall r t', tasks s !! r = Some t' -> <[nextTask s := t]> (tasks s) !! r = Some t').
  { intros r t' Hr. rewrite lookup_insert_ne; [done|]. congruence. }
  split; simpl; try apply Hs.
  - intros id r Hr. destruct (wf_static s Hs id r Hr) as (t' & ? & ?). eauto.
  - intros k r Hr. destruct (wf_pool s Hs k r Hr) as (t' & ? & ?). eauto.
  - intros r t' [[<- <-]|[_ Ht']]%lookup_insert_Some Hpos; [lia|by apply (wf_index s Hs)].
  - intros id r Hr. destruct (wf_dialing s Hs id r Hr) as (t' & ? & ?). eauto.
  - intros r Hr. rewrite lookup_insert_ne by lia. apply (wf_fresh s Hs). lia.
  - intros r Hr. destruct (wf_started s Hs r Hr) as [t' ?]. eauto.
Qed.

Lemma wf_set_static_insert s id r t :
  wf s -> static s !! id = None -> tasks s !! r = Some t -> node_ID (dest t) = id ->
  wf (set_static (<[id := r]> (static s)) s).
Proof.
  intros Hs Hn Ht Hid. split; simpl; try apply Hs.
  - intros id' r' [[<- <-]|[_ Hr]]%lookup_insert_Some; [by eauto|by apply (wf_static s Hs)].
  - intros k r' Hk. destruct (wf_pool s Hs k r' Hk) as (t' & ? & ? & Hst).
    exists t'. split_and!; [done|done|]. rewrite lookup_insert_ne; [done|]. congruence.
Qed.

(** ** The static pool is exactly the usable part of the static set *)
Section Exact.
Context (cfg : dialConfig).

Definition pool_exact (s : sched) : Prop :=
  forall id r t, static s !! id = Some r -> tasks s !! r = Some t ->
    (0 <= staticPoolIndex t) <-> (checkDial_body cfg (dest t) s = None).

Lemma checkDial_body_None n s :
  (checkDial_body cfg n s = None) <->
  node_ID n <> self cfg /\ ~ (node_IP n <> [] /\ node_TCP n = 0)
  /\ dialing s !! node_ID n = None /\ ~ (node_ID n ∈ peers s)
  /\ match netRestrict cfg with
     | Some l => NetUtil.Netlist_Contains (Some l) (node_IP n) = true
     | None => True
     end
  /\ contains (history s) (node_ID n) = false.
Proof.
  unfold checkDial_body. case_bool_decide; [naive_solver|].
  destruct (negb (bool_decide (node_IP n = [])) && (node_TCP n =? 0))%bool eqn:Hp; bools.
  { split; [done|]. naive_solver. }
  assert (~ (node_IP n <> [] /\ node_TCP n = 0)) .
  { intros [Hi Ht]. by rewrite Ht, bool_decide_eq_false_2 in Hp by done. }
  clear Hp.
  case_bool_decide as Hd; [destruct Hd as [r Hr]; rewrite Hr; naive_solver|].
  apply eq_None_not_Some in Hd. case_bool_decide; [naive_solver|].
  destruct (netRestrict cfg) as [l|];
    [destruct (NetUtil.Netlist_Contains (Some l) (node_IP n)); simpl|]; try naive_solver.
  all: destruct (contains (history s) (node_ID n)); naive_solver.
Qed.

(** The check of a node only looks at the entries of its own ID. *)
Lemma checkDial_body_ext n s s' :
  dialing s' !! node_ID n = dialing s !! node_ID n ->
  (node_ID n ∈ peers s' <-> node_ID n ∈ peers s) ->
  contains (history s') (node_ID n) = contains (history s) (node_ID n) ->
  (checkDial_body cfg n s' = None) <-> (checkDial_body cfg n s = None).
Proof. intros Hd Hp Hh. rewrite !checkDial_body_None, Hd, Hp, Hh. done. Qed.

Lemma static_inj s id1 id2 r :
  wf s -> static s !! id1 = Some r -> static s !! id2 = Some r -> id1 = id2.
Proof.
  intros Hs H1 H2. destruct (wf_static s Hs _ _ H1) as (? & ? & ?).
  destruct (wf_static s Hs _ _ H2) as (? & ? & ?). naive_solver.
Qed.

(** Exact up to one ID, whose task may have become usable. *)
Definition exact_but (id : ID) (s : sched) : Prop :=
  forall id' r t, static s !! id' = Some r -> tasks s !! r = Some t ->
    (0 <= staticPoolIndex t -> checkDial_body cfg (dest t) s = None)
    /\ (id' <> id -> checkDial_body cfg (dest t) s = None -> 0 <= staticPoolIndex t).

Lemma exact_exact_but id s : pool_exact s -> exact_but id s.
Proof. intros He id' r t H1 H2. pose proof (He _ _ _ H1 H2). naive_solver. Qed.

Lemma exact_after_add s id r t :
  wf s -> exact_but id s -> static s !! id = Some r -> tasks s !! r = Some t ->
  checkDial_body cfg (dest t) s = None -> pool_exact (after_add r s).
Proof.
  intros Hs He Hid Ht Hc id' r' t' Hid' Ht'. simpl in *.
  destruct (alter_index_lookup _ _ _ _ _ Ht') as (t0 & Ht0 & Hd & Hi).
  rewrite Hi, Hd. change (checkDial_body cfg (dest t0) (after_add r s))
    with (checkDial_body cfg (dest t0) s).
  destruct (He _ _ _ Hid' Ht0) as [He1 He2].
  case_decide; subst; simplify_eq.
  - pose proof (len_nonneg (staticPool s)). naive_solver.
  - split; [done|]. apply He2. intros ->. congruence.
Qed.

Lemma exact_no_add s id :
  exact_but id s ->
  (forall r t, static s !! id = Some r -> tasks s !! r = Some t ->
     checkDial_body cfg (dest t) s = None -> 0 <= staticPoolIndex t) ->
  pool_exact s.
Proof.
  intros He Hid id' r t H1 H2. destruct (He _ _ _ H1 H2) as [He1 He2].
  split; [done|]. destruct (decide (id' = id)) as [->|]; eauto.
Qed.

Definition same_dials (s s' : sched) : Prop :=
  dialing s' = dialing s /\ started s' = started s /\ dialPeers s' = dialPeers s.

Lemma updateStaticPool_ok id s :
  wf s -> exists s', updateStaticPool cfg id s = Done (tt, s') /\ wf s'
    /\ same_dials s s' /\ (exact_but id s -> pool_exact s').
Proof.
  intros Hs. unfold updateStaticPool. run_locks.
  destruct (static s !! id) as [r|] eqn:Hr; simpl.
  2: { exists s. split_and!; [done..|]. intros He. apply (exact_no_add s id He).
       intros; congruence. }
  destruct (wf_static s Hs id r Hr) as (t & Ht & Hid). unfold load. rewrite Ht. simpl.
  destruct (Z.ltb_spec (staticPoolIndex t) 0) as [Hneg|Hpos].
  2: { exists s. split_and!; [done..|]. intros He. apply (exact_no_add s id He).
       intros; simplify_eq; lia. }
  rewrite checkDial_run by apply Hs. destruct (checkDial_body cfg (dest t) s) eqn:Hc.
  - exists s. split_and!; [done..|]. intros He. apply (exact_no_add s id He).
    intros; simplify_eq; congruence.
  - rewrite (addToStaticPool_run r t) by done. exists (after_add r s).
    split_and!; [done|by eapply wf_after_add|done|].
    intros He. by eapply exact_after_add.
Qed.

(** Taking a task out of the pool leaves the others exact. *)
Lemma exact_after_remove_others s0 s i r m t :
  wf s -> staticPool s !! i = Some r ->
  staticPool s !! (length (staticPool s) - 1)%nat = Some m ->
  tasks s !! r = Some t ->
  pool_exact s0 -> static s0 = static s -> tasks s0 = tasks s ->
  (forall n, node_ID n <> node_ID (dest t) ->
     (checkDial_body cfg n s = None) <-> (checkDial_body cfg n s0 = None)) ->
  forall id' r' t', static s !! id' = Some r' ->
    tasks (after_remove i r m s) !! r' = Some t' -> r' <> r ->
    (0 <= staticPoolIndex t') <-> (checkDial_body cfg (dest t') s = None).
Proof.
  intros Hs Hr Hm Ht He Hst Htk Hext id' r' t' Hid' Ht' Hne.
  destruct (remove_tasks_lookup s i r m _ _ Hs Hr Hm Ht') as (t0 & Ht0 & Hd & Hi).
  rewrite Hi, Hd, decide_False by done.
  destruct (wf_pool s Hs i r Hr) as (tr & Htr & Hir & Hsr). simplify_eq.
  destruct (wf_static s Hs id' r' Hid') as (t1 & Ht1 & Hid1). simplify_eq.
  assert (Hidne : node_ID (dest t0) <> node_ID (dest t)) by congruence.
  rewrite (Hext _ Hidne), <- Hst in *. rewrite <- Htk in Ht0.
  destruct (decide (r' = m)) as [->|]; [|exact (He _ _ _ Hid' Ht0)].
  destruct (wf_pool s Hs _ _ Hm) as (tm & Htm & Him & _).
  pose proof (He _ _ _ Hid' Ht0) as He'. rewrite Htk in Ht0. simplify_eq.
  split; [intros _|lia]. apply He'. lia.
Qed.

(** Making the check of a node fail while taking its task out of the pool. *)
Lemma exact_after_remove s0 s i r m t :
  wf s -> staticPool s !! i = Some r ->
  staticPool s !! (length (staticPool s) - 1)%nat = Some m ->
  tasks s !! r = Some t ->
  pool_exact s0 -> static s0 = static s -> tasks s0 = tasks s ->
  checkDial_body cfg (dest t) s <> None ->
  (forall n, node_ID n <> node_ID (dest t) ->
     (checkDial_body cfg n s = None) <-> (checkDial_body cfg n s0 = None)) ->
  pool_exact (after_remove i r m s).
Proof.
  intros Hs Hr Hm Ht He Hst Htk Hc Hext id' r' t' Hid' Ht'.
  destruct (decide (r' = r)) as [->|Hne].
  - destruct (remove_tasks_lookup s i r m _ _ Hs Hr Hm Ht') as (t0 & Ht0 & Hd & Hi).
    rewrite Hi, Hd, decide_True by done. simplify_eq. split; [lia|done].
  - exact (exact_after_remove_others s0 s i r m t Hs Hr Hm Ht He Hst Htk Hext
             id' r' t' Hid' Ht' Hne).
Qed.

Lemma add_contains_ne h it e it' :
  it' <> it -> contains (add h it e) it' = contains h it'.
Proof.
  intros Hne. apply Bool.eq_iff_eq_true. rewrite add_contains. naive_solver.
Qed.

(** Starting a dial only matters to the checks of the node dialed. *)
Lemma check_after_startDial now r t s n :
  node_ID n <> node_ID (dest t) ->
  (checkDial_body cfg n (after_startDial now r t s) = None)
  <-> (checkDial_body cfg n s = None).
Proof.
  intros Hne. apply checkDial_body_ext; simpl.
  - by rewrite lookup_insert_ne.
  - done.
  - by rewrite add_contains_ne.
Qed.

Lemma check_startDial_fails now r t s n :
  node_ID n = node_ID (dest t) ->
  checkDial_body cfg n (after_startDial now r t s) <> None.
Proof.
  intros Heq Hc. apply checkDial_body_None in Hc as (_ & _ & Hd & _). simpl in Hd.
  by rewrite Heq, lookup_insert_eq in Hd.
Qed.

(** One round of [startStaticDials]. *)
Lemma pool_start_step now i r s :
  wf s -> staticPool s !! i = Some r ->
  exists s1 s2, startDial now r s = Done (tt, s1)
    /\ removeFromStaticPool (Z.of_nat i) s1 = Done (tt, s2) /\ wf s2
    /\ (pool_exact s -> pool_exact s2)
    /\ length (staticPool s2) = (length (staticPool s) - 1)%nat
    /\ (size (dialing s2) <= S (size (dialing s)))%nat /\ dialPeers s2 = dialPeers s.
Proof.
  intros Hs Hr. destruct (wf_pool s Hs i r Hr) as (t & Ht & Hi & Hst).
  exists (after_startDial now r t s).
  assert (Hs1 : wf (after_startDial now r t s)) by by apply wf_after_startDial.
  destruct (removeFromStaticPool_run i r (after_startDial now r t s)) as (m & Hm & Hrun); [done|].
  exists (after_remove i r m (after_startDial now r t s)).
  split_and!; [apply startDial_run; [apply Hs|done]|done|by apply wf_after_remove| | | |done].
  - intros He. eapply (exact_after_remove s); eauto.
    + by apply check_startDial_fails.
    + intros n Hn. by apply check_after_startDial.
  - simpl. rewrite length_take, length_insert. lia.
  - simpl. rewrite map_size_insert. destruct (dialing s !! _); simpl; lia.
Qed.

Lemma startStaticDials_loop_ok now rnd n fuel s st :
  wf s -> (length (staticPool s) <= fuel)%nat ->
  exists k s', startStaticDials_loop fuel now rnd n st s = Done (st + k, s')
    /\ wf s' /\ (pool_exact s -> pool_exact s')
    /\ (0 <= k) /\ (k = 0 \/ st + k <= n) /\ (st + k < n -> staticPool s' = [])
    /\ Z.of_nat (size (dialing s')) <= Z.of_nat (size (dialing s)) + k
    /\ dialPeers s' = dialPeers s.
Proof.
  revert s st. induction fuel as [|f IH]; intros s st Hs Hf; cbn [startStaticDials_loop]; run_locks.
  - exists 0, s. rewrite Z.add_0_r. split_and!; auto; try lia.
    intros _. apply length_zero_iff_nil. lia.
  - destruct (Z.ltb_spec st n); destruct (Z.ltb_spec 0 (len (staticPool s))); simpl;
      try by (exists 0, s; rewrite Z.add_0_r; split_and!; auto; try lia;
              intros _; apply length_zero_iff_nil; unfold len in *; lia).
    unfold Intn. destruct (Z.leb_spec (len (staticPool s)) 0); [lia|].
    assert (Hidx : 0 <= rnd f `mod` len (staticPool s) < len (staticPool s))
      by (apply Z.mod_pos_bound; lia).
    set (idx := rnd f `mod` len (staticPool s)) in *.
    destruct (lookup_lt_is_Some_2 (staticPool s) (Z.to_nat idx)) as [r Hr];
      [unfold len in *; lia|].
    rewrite Hr. destruct (pool_start_step now _ r s Hs Hr) 
      as (s1 & s2 & E1 & E2 & Hs2 & He & Hl & Hd & Hdp).
    rewrite Z2Nat.id in E2 by lia. rewrite E1, E2.
    destruct (IH s2 (st + 1) Hs2) as (k & s' & E & Hs' & He' & Hk0 & Hk & Hp & Hd' & Hdp'); [lia|].
    exists (1 + k), s'. rewrite E.
    replace (st + 1 + k) with (st + (1 + k)) in * by lia.
    split_and!; auto; lia.
Qed.
End Exact.
End DialSafety.
