(* ===== verification/DialLoop.v ===== *)
(** * The loop of the dial scheduler

    Every event the loop can receive, and [StartDialEnode], preserves the
    invariant of DialSafety.v without a panic; the loop keeps the static pool
    equal to the set of dialable static tasks and the number of active dials
    bounded.  The expiry of the dial history is the one event that can block:
    the condition is characterised exactly. *)

From stdpp Require Import base gmap sets list strings numbers.
From Stdlib Require Import ZArith Lia.
From S2P Require Import Prelude ExpHeap NetUtil DialScheduler DialSafety.

Module DialLoop.
Import ExpHeap DialScheduler DialSafety.

Section Loop.
Context (cfg : dialConfig).

(** ** The head of an iteration *)
Lemma rearmHistoryTimer_run s :
  held s = [] -> exists t v, rearmHistoryTimer s = Done (tt, set_historyTimer t v s).
Proof.
  destruct s; simpl; intros ->. unfold rearmHistoryTimer, stopHistoryTimer. run_locks.
  destruct (nextExpiry history0) as [e|]; simpl; [destruct (historyTimerTime0 =? e); simpl|];
    by eexists _, _.
Qed.

Lemma logStats_run now s :
  held s = [] -> exists n t, logStats now s = Done (tt, set_stats n t s).
Proof.
  destruct s; simpl; intros ->. unfold logStats. run_locks.
  destruct (_ <? _); simpl; by eexists _, _.
Qed.

Lemma loop_head_ok now rnd s :
  wf s -> exists slots s1, loop_head cfg now rnd s = Done (slots, s1) /\ wf s1
    /\ (pool_exact cfg s -> pool_exact cfg s1)
    /\ (0 < slots -> staticPool s1 = []
        /\ Z.of_nat (size (dialing s1)) < maxActiveDials cfg)
    /\ Z.of_nat (size (dialing s1))
       <= Z.max (Z.of_nat (size (dialing s))) (maxActiveDials cfg)
    /\ dialPeers s1 = dialPeers s.
Proof.
  intros Hs. unfold loop_head, startStaticDials. unfold mbind, GoM_bind.
  rewrite freeDialSlots_run by apply Hs. unfold gget.
  destruct (startStaticDials_loop_ok cfg now rnd (free_slots cfg s) _ s 0 Hs (le_n _))
    as (k & s1 & E & Hs1 & He & Hk0 & Hk & Hp & Hd & Hdp).
  rewrite E. clear E. destruct (rearmHistoryTimer_run s1) as (t & v & E); [apply Hs1|].
  rewrite E. clear E.
  destruct (logStats_run now (set_historyTimer t v s1)) as (n & l & E); [apply Hs1|].
  rewrite E. clear E. unfold mret, GoM_ret.
  eexists _, _. split; [done|]. unfold free_slots in *. simpl.
  split_and!; [by auto with octopus|exact He|intros Hpos; split; [apply Hp|]|..]; lia.
Qed.

(** ** The events *)
Definition enabled (now : Z) (slots : Z) (ev : event) (s : sched) : Prop :=
  match ev with
  | evNode _ => 0 < slots
  | evDone r => r ∈ started s
  | evHistoryExp =>
      is_Some (historyTimer s)
      /\ (forall x, x ∈ history s -> exp x < now -> static s !! item x = None)
  | _ => True
  end.

Lemma locked_run {A} m (f : sched -> sched) (k : GoM sched A) s :
  held s = [] -> held (f s) = [] ->
  (forall h, f (set_held h s) = set_held h (f s)) ->
  (locked m (gmodify f) ;; k) s = k (f s).
Proof.
  intros Hh Hf Hc. unfold locked. run_locks. rewrite Hh.
  rewrite bool_decide_eq_false_2 by apply not_elem_of_nil. simpl.
  unfold set_held in *. rewrite Hc. simpl.
  rewrite bool_decide_eq_true_2 by set_solver.
  rewrite filter_cons_False by naive_solver. rewrite filter_nil.
  destruct (f s); simpl in *. by subst.
Qed.

Lemma exact_delete_dialing s id :
  wf s -> pool_exact cfg s -> exact_but cfg id (set_dialing (delete id (dialing s)) s).
Proof.
  intros Hs He id' r t Hid Ht. simpl in *. destruct (He _ _ _ Hid Ht) as [H1 H2].
  destruct (wf_static s Hs _ _ Hid) as (? & ? & Hn). simplify_eq. split.
  - intros (?&?&?&?&?&?)%H1%checkDial_body_None.
    apply checkDial_body_None. simpl. split_and!; try done.
    rewrite lookup_delete_None. auto.
  - intros Hne Hc. apply H2. revert Hc. apply checkDial_body_ext; simpl; try done.
    by rewrite lookup_delete_ne.
Qed.

Lemma exact_remove_peer s id n :
  wf s -> pool_exact cfg s -> exact_but cfg id (set_peers (peers s ∖ {[id]}) n s).
Proof.
  intros Hs He id' r t Hid Ht. simpl in *. destruct (He _ _ _ Hid Ht) as [H1 H2].
  destruct (wf_static s Hs _ _ Hid) as (? & ? & Hn). simplify_eq. split.
  - intros (?&?&?&?&?&?)%H1%checkDial_body_None.
    apply checkDial_body_None. simpl. split_and!; try done. set_solver.
  - intros Hne Hc. apply H2. revert Hc. apply checkDial_body_ext; simpl; try done.
    set_solver.
Qed.

(** The change of [dialPeers]. *)
Definition dial_delta (ev : event) : Z :=
  match ev with
  | evAddPeer c => if (conn_is c dynDialedConn || conn_is c staticDialedConn)%bool then 1 else 0
  | evRemPeer c => if (conn_is c dynDialedConn || conn_is c staticDialedConn)%bool then -1 else 0
  | _ => 0
  end.

Definition handled (slots : Z) (ev : event) (s s' : sched) : Prop :=
  wf s' /\ ((0 < slots -> staticPool s = []) -> pool_exact cfg s -> pool_exact cfg s')
  /\ (size (dialing s') <= size (dialing s)
        + match ev with evNode _ => 1 | _ => 0 end)%nat
  /\ dialPeers s' = dialPeers s + dial_delta ev.

Lemma handle_done now slots r s :
  wf s -> enabled now slots (evDone r) s ->
  exists s', handle cfg now (evDone r) s = Done (tt, s') /\ handled slots (evDone r) s s'.
Proof.
  intros Hs [t Ht]%(wf_started s Hs). unfold handle, load. unfold mbind at 1, GoM_bind at 1.
  rewrite Ht. rewrite locked_run by (try apply Hs; done).
  destruct (updateStaticPool_ok cfg (node_ID (dest t))
              (set_dialing (delete (node_ID (dest t)) (dialing s)) s))
    as (s' & E & Hs' & (Hd & _ & Hdp) & He); [by auto with octopus|].
  unfold mbind, GoM_bind. rewrite E. unfold gmodify. eexists. split; [done|].
  split_and!; [by auto with octopus| | |simpl in *; lia].
  - intros _ Hx. exact (He (exact_delete_dialing s _ Hs Hx)).
  - simpl. rewrite Hd. simpl. rewrite map_size_delete.
    destruct (dialing s !! node_ID (dest t)); simpl; lia.
Qed.

Lemma handle_remPeer now slots c s :
  wf s -> exists s', handle cfg now (evRemPeer c) s = Done (tt, s')
    /\ handled slots (evRemPeer c) s s'.
Proof.
  intros Hs. unfold handle. rewrite locked_run by (try apply Hs; done).
  match goal with |- context [updateStaticPool cfg ?i ?x] =>
    destruct (updateStaticPool_ok cfg i x) as (s' & E & Hs' & (Hd & _ & Hdp) & He);
      [by auto with octopus|] end.
  exists s'. split; [done|]. split_and!; [done| | |].
  - intros _ Hx. exact (He (exact_remove_peer s _ _ Hs Hx)).
  - rewrite Hd. simpl. lia.
  - rewrite Hdp. simpl. destruct (_ || _)%bool; lia.
Qed.

(** Starting a fresh task for a node that passed the check. *)
Definition after_fresh_dial (now : Z) (t : dialTask) (s : sched) : sched :=
  after_startDial now (nextTask s) t (after_alloc t s).

Lemma fresh_dial_run now t s :
  held s = [] ->
  (r ← alloc t; startDial now r) s = Done (tt, after_fresh_dial now t s).
Proof.
  intros Hh. unfold mbind, GoM_bind, alloc. cbv zeta.
  rewrite (startDial_run now _ t); [done|done|]. simpl. apply lookup_insert_eq.
Qed.

Lemma wf_after_fresh_dial now t s :
  wf s -> staticPoolIndex t = -1 -> wf (after_fresh_dial now t s).
Proof.
  intros Hs Ht. apply wf_after_startDial; [by apply wf_after_alloc|].
  simpl. apply lookup_insert_eq.
Qed.

Lemma exact_after_fresh_dial now t s :
  wf s -> staticPool s = [] -> pool_exact cfg s -> pool_exact cfg (after_fresh_dial now t s).
Proof.
  intros Hs Hp He id r t' Hid Ht'. simpl in Hid, Ht'.
  destruct (wf_static s Hs _ _ Hid) as (t1 & Ht1 & Hn).
  rewrite lookup_insert_ne in Ht' by (intros <-; rewrite (wf_fresh s Hs) in Ht1; [done|lia]).
  assert (t1 = t') as -> by congruence. destruct (He _ _ _ Hid Ht') as [H1 H2].
  assert (Hneg : ~ 0 <= staticPoolIndex t').
  { intros Hpos. pose proof (wf_index s Hs _ _ Ht' Hpos) as Hl. by rewrite Hp in Hl. }
  split; [done|]. intros Hc. apply H2.
  destruct (decide (node_ID (dest t') = node_ID (dest t))) as [Heq|Hne].
  - by apply check_startDial_fails in Hc.
  - by apply check_after_startDial in Hc.
Qed.

Lemma handle_node now slots n s :
  wf s -> enabled now slots (evNode n) s ->
  exists s', handle cfg now (evNode n) s = Done (tt, s') /\ handled slots (evNode n) s s'.
Proof.
  intros Hs Hen. unfold handle. unfold mbind at 1, GoM_bind at 1.
  rewrite checkDial_run by apply Hs.
  destruct (checkDial_body cfg n s) eqn:Hc.
  - exists s. split; [done|]. split_and!; auto; simpl; lia.
  - rewrite fresh_dial_run by apply Hs. eexists. split; [done|]. split_and!.
    + by apply wf_after_fresh_dial.
    + intros Hp He. apply exact_after_fresh_dial; auto.
    + simpl. rewrite map_size_insert. destruct (dialing s !! _); simpl; lia.
    + simpl. lia.
Qed.

Lemma check_add_peer s id n m :
  node_ID m <> id ->
  (checkDial_body cfg m (set_peers ({[id]} ∪ peers s) n s) = None)
  <-> (checkDial_body cfg m s = None).
Proof. intros. apply checkDial_body_ext; simpl; try done. set_solver. Qed.

Lemma check_add_peer_fails s id n m :
  node_ID m = id -> checkDial_body cfg m (set_peers ({[id]} ∪ peers s) n s) <> None.
Proof. intros <- (_&_&_&Hp&_)%checkDial_body_None. apply Hp. simpl. set_solver. Qed.

Lemma exact_add_peer s id n :
  wf s -> pool_exact cfg s ->
  (forall r t, static s !! id = Some r -> tasks s !! r = Some t -> staticPoolIndex t < 0) ->
  pool_exact cfg (set_peers ({[id]} ∪ peers s) n s).
Proof.
  intros Hs He Hid id' r t Hid' Ht. simpl in Hid', Ht.
  destruct (wf_static s Hs _ _ Hid') as (t1 & Ht1 & Hn). simplify_eq.
  destruct (decide (node_ID (dest t) = id)) as [<-|Hne].
  - pose proof (Hid _ _ Hid' Ht). split; [lia|]. intros Hc.
    by apply check_add_peer_fails in Hc.
  - rewrite check_add_peer by done. exact (He _ _ _ Hid' Ht).
Qed.

Lemma remove_run s r t :
  wf s -> tasks s !! r = Some t -> 0 <= staticPoolIndex t ->
  exists i m, staticPool s !! i = Some r
    /\ staticPool s !! (length (staticPool s) - 1)%nat = Some m
    /\ removeFromStaticPool (staticPoolIndex t) s = Done (tt, after_remove i r m s).
Proof.
  intros Hs Ht Hpos. pose proof (wf_index s Hs _ _ Ht Hpos) as Hi.
  destruct (removeFromStaticPool_run _ _ _ Hi) as (m & Hm & E).
  rewrite Z2Nat.id in E by lia. eauto 10.
Qed.

Lemma handle_addPeer now slots c s :
  wf s -> exists s', handle cfg now (evAddPeer c) s = Done (tt, s')
    /\ handled slots (evAddPeer c) s s'.
Proof.
  intros Hs. unfold handle. rewrite locked_run by (try apply Hs; done).
  set (n := dialPeers s + _). set (id := node_ID (conn_node c)).
  set (s1 := set_peers ({[id]} ∪ peers s) n s).
  assert (Hs1 : wf s1) by (unfold s1; auto with octopus).
  unfold mbind, GoM_bind, gget. change (static s1) with (static s).
  destruct (static s !! id) as [r|] eqn:Hr; simpl.
  2: { exists s1. split; [done|]. split_and!; [done| |simpl; lia|done]. intros _ He.
       apply exact_add_peer; [done..|]. intros; congruence. }
  destruct (wf_static s Hs id r Hr) as (t & Ht & Hid). unfold load.
  change (tasks s1) with (tasks s). rewrite Ht. simpl.
  destruct (Z.leb_spec 0 (staticPoolIndex t)).
  - destruct (remove_run s1 r t Hs1 Ht) as (i & m & Hi & Hm & E); [done|].
    eexists. split; [exact E|]. split_and!; [by apply wf_after_remove| |simpl; lia|done].
    intros _ He. apply (exact_after_remove cfg s s1 i r m t); auto.
    + by apply check_add_peer_fails.
    + intros x Hx. apply check_add_peer. congruence.
  - exists s1. split; [done|]. split_and!; [done| |simpl; lia|done]. intros _ He.
    apply exact_add_peer; [done..|]. intros; simplify_eq; lia.
Qed.

(** The state after the new static task is recorded. *)
Definition after_new_static (n : Node) (s : sched) : sched :=
  let s1 := after_alloc (newDialTask n staticDialedConn 0) s in
  set_static (<[node_ID n := nextTask s]> (static s1)) s1.

Lemma wf_after_new_static n s :
  wf s -> static s !! node_ID n = None -> wf (after_new_static n s).
Proof.
  intros Hs Hn. apply (wf_set_static_insert _ _ _ (newDialTask n staticDialedConn 0));
    [by apply wf_after_alloc|exact Hn|apply lookup_insert_eq|done].
Qed.

Lemma exact_after_new_static n s :
  wf s -> pool_exact cfg s -> exact_but cfg (node_ID n) (after_new_static n s).
Proof.
  intros Hs He id r t Hid Ht. simpl in Hid, Ht.
  apply lookup_insert_Some in Hid as [[<- <-]|[Hne Hid]].
  - rewrite lookup_insert_eq in Ht. simplify_eq/=. split; [lia|done].
  - destruct (wf_static s Hs _ _ Hid) as (t1 & Ht1 & _).
    rewrite lookup_insert_ne in Ht by (intros <-; rewrite (wf_fresh s Hs) in Ht1; [done|lia]).
    pose proof (He _ _ _ Hid Ht). naive_solver.
Qed.

Lemma handle_addStatic now slots n s :
  wf s -> exists s', handle cfg now (evAddStatic n) s = Done (tt, s')
    /\ handled slots (evAddStatic n) s s'.
Proof.
  intros Hs. unfold handle. unfold mbind, GoM_bind, gget.
  destruct (static s !! node_ID n) as [r|] eqn:Hr.
  { exists s. split; [done|]. split_and!; auto; simpl; lia. }
  unfold alloc, gmodify. cbv zeta.
  change (set_static _ _) with (after_new_static n s).
  pose proof (wf_after_new_static n s Hs Hr) as Hs1.
  assert (Ht : tasks (after_new_static n s) !! nextTask s
               = Some (newDialTask n staticDialedConn 0)) by apply lookup_insert_eq.
  assert (Hst : static (after_new_static n s) !! node_ID n = Some (nextTask s))
    by apply lookup_insert_eq.
  rewrite checkDial_run by apply Hs1.
  destruct (checkDial_body cfg n (after_new_static n s)) as [e|] eqn:Hc.
  - eexists. split; [done|]. split_and!; [done| |simpl; lia|simpl; lia]. intros _ He.
    apply (exact_no_add cfg _ (node_ID n)); [by apply exact_after_new_static|].
    intros r t H1 H2. rewrite Hst in H1. simplify_eq/=. congruence.
  - rewrite (addToStaticPool_run _ _ _ Ht) by done. eexists. split; [done|].
    split_and!; [by eapply wf_after_add| |simpl; lia|simpl; lia]. intros _ He.
    eapply exact_after_add; [done|by apply exact_after_new_static|done..].
Qed.

Lemma wf_delete_static s id r t :
  wf s -> static s !! id = Some r -> tasks s !! r = Some t -> staticPoolIndex t < 0 ->
  wf (set_static (delete id (static s)) s).
Proof.
  intros Hs Hr Ht Hneg. split; simpl; try apply Hs.
  - intros id' r' [_ Hr']%lookup_delete_Some. by apply (wf_static s Hs).
  - intros k r' Hk. destruct (wf_pool s Hs k r' Hk) as (t' & Ht' & Hi & Hst).
    exists t'. split_and!; [done..|]. rewrite lookup_delete_ne; [done|].
    intros ->. simplify_eq. lia.
Qed.

Lemma handle_remStatic now slots n s :
  wf s -> exists s', handle cfg now (evRemStatic n) s = Done (tt, s')
    /\ handled slots (evRemStatic n) s s'.
Proof.
  intros Hs. unfold handle. unfold mbind, GoM_bind, gget.
  destruct (static s !! node_ID n) as [r|] eqn:Hr.
  2: { exists s. split; [done|]. split_and!; auto; simpl; lia. }
  destruct (wf_static s Hs _ r Hr) as (t & Ht & Hid). unfold gmodify, load.
  change (tasks (set_static (delete (node_ID n) (static s)) s)) with (tasks s). rewrite Ht.
  destruct (Z.leb_spec 0 (staticPoolIndex t)) as [Hpos|Hneg].
  - destruct (remove_run s r t Hs Ht Hpos) as (i & m & Hi & Hm & E).
    pose proof (wf_index s Hs _ _ Ht Hpos) as Hx.
    destruct (removeFromStaticPool_run _ _ (set_static (delete (node_ID n) (static s)) s) Hx)
      as (m' & Hm' & E').
    rewrite Z2Nat.id in E' by lia. rewrite E'. simpl in Hm'. simplify_eq.
    set (k := Z.to_nat (staticPoolIndex t)) in *.
    change (after_remove k r m (set_static (delete (node_ID n) (static s)) s))
      with (set_static (delete (node_ID n) (static (after_remove k r m s))) (after_remove k r m s)).
    destruct (remove_tasks_Some s k r m r t Ht) as (t2 & Ht2 & _ & Hi2).
    rewrite decide_True in Hi2 by done.
    eexists. split; [done|]. split_and!; [|intros _ He|simpl; lia|simpl; lia].
    + eapply wf_delete_static; [by apply wf_after_remove|exact Hr|exact Ht2|lia].
    + intros id' r' t' Hid' Ht'. simpl in Hid'. apply lookup_delete_Some in Hid' as [Hne Hid'].
      apply (exact_after_remove_others cfg s s k r m t Hs Hx Hm Ht He eq_refl eq_refl
               (fun _ _ => iff_refl _) id' r' t' Hid' Ht').
      intros ->. by apply Hne, (static_inj s _ _ r Hs).
  - eexists. split; [done|]. split_and!; [by eapply wf_delete_static| |simpl; lia|simpl; lia].
    intros _ He id' r' t' Hid' Ht'. simpl in Hid'. apply lookup_delete_Some in Hid' as [_ Hid']. exact (He _ _ _ Hid' Ht').
Qed.

(** ** The expiry of the history *)
Lemma updateStaticPool_not_static id s :
  static s !! id = None -> updateStaticPool cfg id s = Done (tt, s).
Proof. intros Hn. unfold updateStaticPool. run_locks. by rewrite Hn. Qed.

Lemma updateStaticPool_blocked id r t s :
  held s = [historyRDLock] -> static s !! id = Some r -> tasks s !! r = Some t ->
  staticPoolIndex t < 0 -> updateStaticPool cfg id s = Blocked "sync.Mutex.Lock".
Proof.
  intros Hh Hr Ht Hneg. unfold updateStaticPool, checkDial, load. run_locks.
  rewrite Hr. simpl. rewrite Ht. destruct (Z.ltb_spec (staticPoolIndex t) 0); [|lia].
  by rewrite Hh.
Qed.

(** The root of a heap with an expired item is expired, and popping keeps the
    other expired items. *)
Lemma expired_root now (h : expHeap) :
  ExpHeap.wf h -> (exists x, x ∈ h /\ exp x < now) ->
  exists y h', nextExpiry h = Some (exp y) /\ exp y < now
    /\ heap_pop exp h = Some (y, h') /\ ExpHeap.wf h' /\ h ≡ₚ y :: h'.
Proof.
  intros Hw (x & Hx & Hlt).
  destruct (heap_pop_spec exp h Hw) as (y & h' & E & Hw' & Hp & H0 & Hmin).
  { intros ->. by apply not_elem_of_nil in Hx. }
  exists y, h'. unfold nextExpiry. rewrite H0. pose proof (Hmin x Hx).
  split_and!; [done|lia|done..].
Qed.

Lemma history_expire_free fuel now s :
  ExpHeap.wf (history s) ->
  (forall x, x ∈ history s -> exp x < now -> static s !! item x = None) ->
  history_expire fuel now (updateStaticPool cfg) s
  = Done (tt, set_history (expire_loop fuel now (history s)).2 s).
Proof.
  revert s. induction fuel as [|f IH]; intros s Hw Hf; cbn [history_expire expire_loop].
  { unfold mbind, GoM_bind, gget. by destruct s. }
  unfold mbind, GoM_bind, gget.
  destruct (nextExpiry (history s)) as [e|] eqn:Hn; [|by destruct s].
  destruct (Z.ltb_spec e now) as [Hlt|Hge]; [|by destruct s].
  unfold nextExpiry in Hn. apply fmap_Some in Hn as (x0 & Hx0 & ->).
  apply list_elem_of_lookup_2 in Hx0.
  destruct (expired_root now (history s) Hw) as (y & h' & _ & Hy & -> & Hw' & Hp); [by eauto|].
  unfold gmodify. rewrite updateStaticPool_not_static.
  2: { simpl. apply Hf; [rewrite Hp; set_solver|done]. }
  rewrite IH; simpl; [by destruct (expire_loop f now h')|done|].
  intros x Hx. apply Hf. rewrite Hp. set_solver.
Qed.

Lemma history_expire_blocked fuel now s :
  held s = [historyRDLock] -> ExpHeap.wf (history s) -> (length (history s) <= fuel)%nat ->
  (forall x, x ∈ history s -> exp x < now ->
     static s !! item x = None \/
     exists r t, static s !! item x = Some r /\ tasks s !! r = Some t /\ staticPoolIndex t < 0) ->
  (exists x, x ∈ history s /\ exp x < now /\ is_Some (static s !! item x)) ->
  history_expire fuel now (updateStaticPool cfg) s = Blocked "sync.Mutex.Lock".
Proof.
  revert s. induction fuel as [|f IH]; intros s Hh Hw Hf Hall (x & Hx & Hlt & Hst).
  { destruct (history s); [by apply not_elem_of_nil in Hx|simpl in Hf; lia]. }
  cbn [history_expire]. unfold mbind, GoM_bind, gget.
  destruct (expired_root now (history s) Hw) as (y & h' & -> & Hy & -> & Hw' & Hp); [by eauto|].
  destruct (Z.ltb_spec (exp y) now); [|lia]. unfold gmodify.
  destruct (Hall y) as [Hn|(r & t & Hr & Ht & Hneg)]; [rewrite Hp; set_solver|done| |].
  - rewrite updateStaticPool_not_static by done. apply IH; [done|done| | |].
    + simpl. apply Permutation_length in Hp. simpl in Hp. lia.
    + intros z Hz. apply Hall. rewrite Hp. set_solver.
    + exists x. split_and!; [|done|done]. simpl. rewrite Hp in Hx.
      apply elem_of_cons in Hx as [->|]; [|done]. rewrite Hn in Hst. by destruct Hst.
  - by rewrite (updateStaticPool_blocked _ r t).
Qed.

Lemma expire_contains now h h' out it :
  h ≡ₚ out ++ h' -> Forall (fun x => exp x < now) out ->
  (forall x, x ∈ h -> exp x < now -> item x <> it) ->
  contains h' it = contains h it.
Proof.
  intros Hp Ho Hit. apply Bool.eq_iff_eq_true. rewrite !contains_elem.
  rewrite Forall_forall in Ho. split; intros [e He]; exists e.
  - rewrite Hp. set_solver.
  - rewrite Hp in He. apply elem_of_app in He as [He|]; [|done].
    exfalso. apply (Hit (mk_expItem it e)); [rewrite Hp; set_solver|by apply (Ho (mk_expItem it e)), list_elem_of_In|done].
Qed.

Lemma handle_historyExp now slots s :
  wf s -> enabled now slots evHistoryExp s ->
  exists s', handle cfg now evHistoryExp s = Done (tt, s') /\ handled slots evHistoryExp s s'.
Proof.
  intros Hs [[tm Htm] Hf]. pose proof (wf_held s Hs) as Hh. pose proof (wf_history s Hs) as Hw.
  unfold handle, expireHistory, Lock, Unlock, mbind, GoM_bind, gget, gmodify.
  rewrite Hh. simpl. rewrite Htm. simpl. rewrite history_expire_free by done. simpl.
  destruct (expire_loop _ now (history s)) as [out h'] eqn:E.
  destruct (expire_loop_spec _ _ _ _ _ Hw (le_n _) E) as (Hw' & Hp & Ho & _).
  eexists. split; [done|]. split_and!; [|intros _ He|simpl; lia|simpl; lia].
  - split; simpl; try apply Hs; done.
  - intros id r t Hid Ht. simpl in Hid, Ht. rewrite (He _ _ _ Hid Ht).
    symmetry. apply checkDial_body_ext; [done|done|]. simpl.
    apply (expire_contains now _ _ out); [done|done|]. intros x Hx Hlt Heq.
    destruct (wf_static s Hs _ _ Hid) as (t1 & ? & Hn). simplify_eq.
    specialize (Hf x Hx Hlt). congruence.
Qed.

Lemma handle_ok now slots ev s :
  wf s -> enabled now slots ev s ->
  exists s', handle cfg now ev s = Done (tt, s') /\ handled slots ev s s'.
Proof.
  intros Hs He. destruct ev.
  - by apply handle_node.
  - by eapply handle_done.
  - by apply handle_addPeer.
  - by apply handle_remPeer.
  - by apply handle_addStatic.
  - by apply handle_remStatic.
  - by apply handle_historyExp.
Qed.

(** ** Runs of the scheduler

    An iteration receives an event that is enabled after its head; the node
    manager's [StartDialEnode] runs between iterations. *)
Inductive loop_step (s s' : sched) : Prop :=
  | loop_step_intro now rnd ev slots s1 :
      loop_head cfg now rnd s = Done (slots, s1) -> enabled now slots ev s1 ->
      iterate cfg now rnd ev s = Done (tt, s') -> loop_step s s'.

Inductive any_step (s s' : sched) : Prop :=
  | any_loop : loop_step s s' -> any_step s s'
  | any_start now n d e : StartDialEnode cfg now n d s = Done (e, s') -> any_step s s'.

Definition loop_reach (s : sched) : Prop := exists now, rtc loop_step (newDialScheduler now) s.
Definition any_reach (s : sched) : Prop := exists now, rtc any_step (newDialScheduler now) s.

(** An enabled iteration completes, keeps [wf], keeps the pool exact and keeps
    the active dials bounded. *)
Lemma iterate_ok now rnd ev slots s s1 :
  wf s -> loop_head cfg now rnd s = Done (slots, s1) -> enabled now slots ev s1 ->
  exists s', iterate cfg now rnd ev s = Done (tt, s') /\ wf s'
    /\ (pool_exact cfg s -> pool_exact cfg s')
    /\ Z.of_nat (size (dialing s'))
       <= Z.max (Z.of_nat (size (dialing s))) (maxActiveDials cfg)
    /\ dialPeers s' = dialPeers s + dial_delta ev.
Proof.
  intros Hs Eh Hen.
  destruct (loop_head_ok now rnd s Hs) as (slots' & s1' & Eh' & Hs1 & He & Hpos & Hd & Hdp).
  rewrite Eh in Eh'. simplify_eq.
  destruct (handle_ok now _ ev _ Hs1 Hen) as (s' & E & Hs' & He' & Hd' & Hdp').
  exists s'. unfold iterate. unfold mbind, GoM_bind. rewrite Eh.
  split_and!; [|done| | |lia].
  - destruct ev; try done. simpl in Hen. destruct (Z.ltb_spec 0 slots'); [done|lia].
  - intros Hx. apply He'; [|auto]. intros Hsl. by apply Hpos.
  - destruct ev; simpl in Hen; lia.
Qed.

Lemma StartDialEnode_ok now n d s :
  wf s ->
  (exists e, checkDial_body cfg n s = Some e /\ StartDialEnode cfg now n d s = Done (Some e, s))
  \/ (checkDial_body cfg n s = None /\
      let s' := after_fresh_dial now (newDialTask n staticDialedConn d) s in
      StartDialEnode cfg now n d s = Done (None, s') /\ wf s').
Proof.
  intros Hs. pose proof (checkDial_run cfg n s (wf_held s Hs)) as Hc.
  unfold StartDialEnode, mbind, GoM_bind. rewrite Hc.
  destruct (checkDial_body cfg n s) as [e|]; [by eauto|].
  right. split; [done|]. split; [|by apply wf_after_fresh_dial]. unfold alloc. cbv zeta.
  rewrite (startDial_run now _ (newDialTask n staticDialedConn d)); [done|apply Hs|].
  apply lookup_insert_eq.
Qed.

Lemma any_reach_wf s : any_reach s -> wf s.
Proof.
  intros [now Hr]. assert (Hi := wf_init now). revert Hi.
  induction Hr as [|a b c Hab _ IH]; [done|]. intros Ha. apply IH.
  destruct Hab as [[t rnd ev slots s1 E1 Hen E2]|t n d e E].
  - destruct (iterate_ok _ _ _ _ _ _ Ha E1 Hen) as (s' & E & Hs' & _).
    rewrite E in E2. by simplify_eq.
  - destruct (StartDialEnode_ok t n d a Ha) as [(? & _ & E')|(_ & E' & Hw)];
      rewrite E in E'; by simplify_eq.
Qed.

Lemma loop_reach_exact s : loop_reach s -> wf s /\ pool_exact cfg s.
Proof.
  intros [now Hr]. assert (Hi := wf_init now).
  assert (He : pool_exact cfg (newDialScheduler now)) by done.
  revert Hi He. induction Hr as [|a b c Hab _ IH]; [done|]. intros Ha Hx.
  destruct Hab as [t rnd ev slots s1 E1 Hen E2].
  destruct (iterate_ok _ _ _ _ _ _ Ha E1 Hen) as (s' & E & Hs' & He & _).
  rewrite E in E2. simplify_eq. auto.
Qed.


(** C1.  While only the loop runs, the static pool is exactly the usable part
    of the static set: a static task is in the pool iff [checkDial] accepts
    its node.  Since static dials are only drawn from the pool, no static node
    is dialed that is connected, being dialed, recently dialed, restricted or
    the node itself, and every usable one is a candidate. *)
Theorem static_pool_exact s :
  loop_reach s ->
  forall id r, static s !! id = Some r ->
    exists t, tasks s !! r = Some t /\ node_ID (dest t) = id
      /\ (r ∈ staticPool s <-> (checkDial_body cfg (dest t) s = None)).
Proof.
  intros [Hs He]%loop_reach_exact id r Hr.
  destruct (wf_static s Hs id r Hr) as (t & Ht & Hid). exists t. split_and!; [done..|].
  rewrite <- (He _ _ _ Hr Ht). split.
  - intros [i Hi]%list_elem_of_lookup. destruct (wf_pool s Hs i r Hi) as (? & ? & ? & _).
    simplify_eq. lia.
  - intros Hpos. eapply list_elem_of_lookup_2. by apply (wf_index s Hs).
Qed.

(** The loop never raises the number of active dials above
    [maxActiveDials]; above it (the node manager's own dials are not
    counted against the limit) it starts nothing. *)
Theorem active_dials_bounded now rnd ev slots s s1 s' :
  any_reach s -> loop_head cfg now rnd s = Done (slots, s1) -> enabled now slots ev s1 ->
  iterate cfg now rnd ev s = Done (tt, s') ->
  Z.of_nat (size (dialing s')) <= Z.max (Z.of_nat (size (dialing s))) (maxActiveDials cfg).
Proof.
  intros Hr%any_reach_wf Eh Hen E.
  destruct (iterate_ok _ _ _ _ _ _ Hr Eh Hen) as (s2 & E2 & _ & _ & Hd & _).
  rewrite E in E2. by simplify_eq.
Qed.

(** The expiry of the dial history deadlocks exactly when an expired entry
    belongs to a static node: [expireHistory] calls [updateStaticPool] under
    [historyRDLock], and [checkDial] locks that mutex again.  Otherwise the
    handler returns. *)
Theorem expireHistory_deadlock now s tm :
  loop_reach s -> historyTimer s = Some tm ->
  if decide (Exists (fun x => exp x < now /\ is_Some (static s !! item x)) (history s))
  then expireHistory cfg now s = Blocked "sync.Mutex.Lock"
  else exists s', expireHistory cfg now s = Done (tt, s').
Proof.
  intros [Hs He]%loop_reach_exact Htm. case_decide as Hex.
  - apply Exists_exists in Hex as (x & Hx%list_elem_of_In & Hlt & Hst).
    unfold expireHistory, Lock, Unlock, mbind, GoM_bind, gget, gmodify.
    rewrite (wf_held s Hs). simpl. rewrite Htm. rewrite history_expire_blocked; try done.
    + apply Hs.
    + intros y Hy _. simpl in *. destruct (static s !! item y) as [r|] eqn:Hr; [right|by left].
      destruct (wf_static s Hs _ _ Hr) as (t & Ht & Hid). exists r, t. split_and!; [done..|].
      destruct (decide (0 <= staticPoolIndex t)) as [Hpos|]; [|lia].
      apply (He _ _ _ Hr Ht), checkDial_body_None in Hpos as (_&_&_&_&_&Hc).
      rewrite Hid in Hc. assert (contains (history s) (item y) = true); [|congruence].
      apply contains_elem. exists (exp y). by destruct y.
    + eauto.
  - destruct (handle_historyExp now 0 s Hs) as (s' & E & _); [|by eauto].
    split; [by eauto|]. intros x Hx Hlt. apply eq_None_not_Some. intros Hst.
    apply Hex, Exists_exists. exists x. by rewrite <- list_elem_of_In.
Qed.
End Loop.

(** ** A concrete run

    One static node: it is added, dialed at once, and the dial ends. *)
Definition ex_cfg : dialConfig := mk_dialConfig "self" 10 5 None.
Definition ex_node : Node := mk_Node "a" [10; 0; 0; 1] 30303.
Definition state_of {A} (o : outcome (A * sched)) : sched :=
  match o with Done (_, s) => s | _ => newDialScheduler 0 end.
Definition ex_rnd : nat -> Z := fun _ => 0.
Definition ex1 : sched :=
  state_of (iterate ex_cfg 1 ex_rnd (evAddStatic ex_node) (newDialScheduler 0)).
Definition ex2 : sched := state_of (iterate ex_cfg 2 ex_rnd (evDone 0%nat) ex1).

(** The node manager dials the static node before the loop does. *)
Definition ex2' : sched := state_of (StartDialEnode ex_cfg 2 ex_node 7 ex1).

Lemma ex1_step : loop_step ex_cfg (newDialScheduler 0) ex1.
Proof.
  eapply (loop_step_intro _ _ _ 1 ex_rnd (evAddStatic ex_node));
    [vm_compute; reflexivity|exact I|vm_compute; reflexivity].
Qed.
Lemma ex2_step : loop_step ex_cfg ex1 ex2.
Proof.
  eapply (loop_step_intro _ _ _ 2 ex_rnd (evDone 0%nat));
    [vm_compute; reflexivity|vm_compute; left|vm_compute; reflexivity].
Qed.
Lemma ex2_reach : loop_reach ex_cfg ex2.
Proof. exists 0. eapply rtc_l; [apply ex1_step|]. apply rtc_once, ex2_step. Qed.
Lemma ex1_any_reach : any_reach ex_cfg ex1.
Proof. exists 0. apply rtc_once, any_loop, ex1_step. Qed.
Lemma ex2'_any_reach : any_reach ex_cfg ex2'.
Proof.
  exists 0. eapply rtc_l; [apply any_loop, ex1_step|].
  eapply rtc_once, (any_start _ _ _ 2 ex_node 7). vm_compute. reflexivity.
Qed.


Lemma static_pool_exact_witness :
  exists t, tasks ex2 !! 0%nat = Some t /\ node_ID (dest t) = "a"
    /\ (0%nat ∈ staticPool ex2 <-> (checkDial_body ex_cfg (dest t) ex2 = None)).
Proof.
  apply (static_pool_exact ex_cfg ex2 ex2_reach). vm_compute. reflexivity.
Defined.

Lemma active_dials_bounded_witness :
  Z.of_nat (size (dialing ex2)) <= Z.max (Z.of_nat (size (dialing ex1))) 5.
Proof.
  eapply (active_dials_bounded ex_cfg 2 ex_rnd (evDone 0%nat)); [apply ex1_any_reach| | |];
    [vm_compute; reflexivity|vm_compute; left|vm_compute; reflexivity].
Defined.

(** 40 seconds later the entry has expired. *)
Lemma expireHistory_deadlock_witness :
  expireHistory ex_cfg (40 * Second) ex2 = Blocked "sync.Mutex.Lock".
Proof.
  pose proof (expireHistory_deadlock ex_cfg (40 * Second) ex2 (35 * Second + 2) ex2_reach
                ltac:(vm_compute; reflexivity)) as H.
  rewrite decide_True in H; [exact H|].
  replace (history ex2) with [mk_expItem "a" (35 * Second + 2)] by (vm_compute; reflexivity).
  left. split; [reflexivity|]. exists 0%nat. vm_compute. reflexivity.
Defined.

(** [StartDialEnode] does not keep the documented property of the pool: it
    can dial a static node whose task stays in the pool, although the node no
    longer passes [checkDial]; the next iteration of the loop dials the node a
    second time while the first dial is in progress. *)
Theorem StartDialEnode_double_dial :
  exists cfg s r t now rnd slots s1, any_reach cfg s
    /\ r ∈ staticPool s /\ tasks s !! r = Some t
    /\ checkDial_body cfg (dest t) s = Some errAlreadyDialing
    /\ loop_head cfg now rnd s = Done (slots, s1) /\ started s1 = r :: started s.
Proof.
  exists ex_cfg, ex2', 0%nat. eexists _, 3, ex_rnd, _, _. split_and!.
  - apply ex2'_any_reach.
  - vm_compute. left.
  - vm_compute. reflexivity.
  - vm_compute. reflexivity.
  - vm_compute. reflexivity.
  - vm_compute. reflexivity.
Qed.
End DialLoop.
