(* ===== verification/Protocols.v ===== *)
(** * Sub-protocol multiplexing of a peer connection (p2p/peer.go, p2p/protocol.go)

    [matchProtocols] assigns a range of message codes to every protocol that
    both sides support; [getProto], [protoRW.WriteMsg] and [protoRW.ReadMsg]
    translate between the protocol's own codes and those on the wire.  The
    main result is that the ranges never overlap, so that routing does not
    depend on the order in which Go iterates over the map of protocols. *)

From stdpp Require Import base gmap sets list strings sorting.
From Stdlib Require Import ZArith Lia.
From S2P Require Import Prelude.

Module Protocols.

(** ** Data *)
Record Cap : Type := mk_Cap { cap_Name : string; cap_Version : Z }.

(** The callbacks of a [Protocol] play no part in the multiplexing. *)
Record Protocol : Type := mk_Protocol { Name : string; Version : Z; Length : Z }.

Record protoRW : Type := mk_protoRW { proto : Protocol; offset : Z }.

#[export] Instance Protocol_eq_dec : EqDecision Protocol.
Proof. solve_decision. Defined.
#[export] Instance protoRW_eq_dec : EqDecision protoRW.
Proof. solve_decision. Defined.

Definition baseProtocolLength : Z := 16.

(** Protocol.cap *)
Definition cap (p : Protocol) : Cap := mk_Cap (Name p) (Version p).

(** capsByNameAndVersion.Less; Go compares strings bytewise. *)
Definition Less (a b : Cap) : bool :=
  (String.ltb (cap_Name a) (cap_Name b)
   || (String.eqb (cap_Name a) (cap_Name b) && (cap_Version a <? cap_Version b)))%bool.

(** The order [sort.Sort] establishes: no later element is less than an
    earlier one.  Elements that are not less than each other are equal, so the
    sorted slice does not depend on the sorting algorithm. *)
Definition cap_le (a b : Cap) : Prop :=
  String.le (cap_Name a) (cap_Name b)
  /\ (cap_Name a = cap_Name b -> cap_Version a <= cap_Version b).
#[export] Instance cap_le_dec : RelDecision cap_le.
Proof. intros a b. unfold cap_le. apply _. Defined.

Definition sort_caps (caps : list Cap) : list Cap := merge_sort cap_le caps.

(** ** Matching *)
Definition matches (c : Cap) (p : Protocol) : bool :=
  (String.eqb (Name p) (cap_Name c) && (Version p =? cap_Version c))%bool.

Definition countMatchingProtocols (protocols : list Protocol) (caps : list Cap) : Z :=
  foldl (fun n c => foldl (fun n p => if matches c p then n + 1 else n) n protocols) 0 caps.

Definition match_step (protocols : list Protocol) (st : gmap string protoRW * Z) (c : Cap)
    : gmap string protoRW * Z :=
  let '(result, off) := st in
  match List.find (matches c) protocols with
  | Some p =>
      let off := match result !! cap_Name c with
                 | Some old => u64 (off - Length (proto old))
                 | None => off
                 end in
      (<[cap_Name c := mk_protoRW p off]> result, u64 (off + Length p))
  | None => st
  end.

Definition matchProtocols (protocols : list Protocol) (caps : list Cap)
    : gmap string protoRW :=
  (foldl (match_step protocols) (∅, baseProtocolLength) (sort_caps caps)).1.

(** [order] is the order in which [range] visits the map. *)
Definition in_range (code : Z) (rw : protoRW) : bool :=
  ((offset rw <=? code) && (code <? u64 (offset rw + Length (proto rw))))%bool.
Definition getProto (order : list protoRW) (code : Z) : option protoRW :=
  List.find (in_range code) order.

(** [None] is the error of a code outside the protocol. *)
Definition WriteMsg_code (rw : protoRW) (code : Z) : option Z :=
  if Length (proto rw) <=? code then None else Some (u64 (code + offset rw)).
Definition ReadMsg_code (rw : protoRW) (code : Z) : Z := u64 (code - offset rw).

(** ** The order on capabilities *)
#[export] Instance cap_le_trans : Transitive cap_le.
Proof.
  intros a b c [H1 H2] [H3 H4]. split; [by etrans|]. intros Heq.
  assert (cap_Name a = cap_Name b) as E by (apply (anti_symm String.le); [done|by rewrite Heq]).
  etrans; [by apply H2|]. apply H4. congruence.
Qed.
#[export] Instance cap_le_total : Total cap_le.
Proof.
  intros a b. unfold cap_le.
  destruct (decide (cap_Name a = cap_Name b)) as [E|E].
  - rewrite E. destruct (Z.le_ge_cases (cap_Version a) (cap_Version b)); [left|right]; naive_solver lia.
  - destruct (total String.le (cap_Name a) (cap_Name b)); [left|right]; naive_solver.
Qed.

Lemma string_compare_refl (a : string) : String.compare a a = Eq.
Proof.
  pose proof (String.compare_antisym a a). by destruct (String.compare a a).
Qed.

(** [cap_le] is the order [Less] induces. *)
Lemma Less_cap_le a b : Less b a = false <-> cap_le a b.
Proof.
  unfold Less, cap_le, String.le, String.ltb, String.leb.
  rewrite (String.compare_antisym (cap_Name b) (cap_Name a)).
  destruct (String.compare (cap_Name a) (cap_Name b)) eqn:E; simpl.
  - apply String.compare_eq_iff in E. rewrite E, String.eqb_refl. simpl.
    rewrite Z.ltb_ge. naive_solver.
  - assert (cap_Name a <> cap_Name b) as Hne.
    { intros Heq. rewrite Heq in E. rewrite string_compare_refl in E. done. }
    destruct (String.eqb_spec (cap_Name b) (cap_Name a)); naive_solver.
  - naive_solver.
Qed.

Lemma sort_caps_sorted caps : StronglySorted cap_le (sort_caps caps).
Proof. apply (StronglySorted_merge_sort cap_le). Qed.

Lemma find_matches_Some c protocols p :
  List.find (matches c) protocols = Some p ->
  p ∈ protocols /\ Name p = cap_Name c /\ Version p = cap_Version c.
Proof.
  intros [Hin Hm]%List.find_some. unfold matches in Hm. bools.
  apply String.eqb_eq in H. split_and!; [by apply list_elem_of_In|done|done].
Qed.

(** ** The reference layout

    [chosen] keeps, latest first, one protocol per name: a match with the name
    of the previous one replaces it. *)
Definition push (acc : list Protocol) (p : Protocol) : list Protocol :=
  match acc with
  | q :: acc' => if String.eqb (Name q) (Name p) then p :: acc' else p :: acc
  | [] => [p]
  end.
Definition matched (protocols : list Protocol) (caps : list Cap) : list Protocol :=
  omap (fun c => List.find (matches c) protocols) caps.
Definition chosen (protocols : list Protocol) (caps : list Cap) : list Protocol :=
  foldl push [] (matched protocols (sort_caps caps)).

Definition total (l : list Protocol) : Z := foldr (fun p a => Length p + a) 0 l.

(** The protocols of [acc], each starting where the ones before it end. *)
Fixpoint layout (acc : list Protocol) : gmap string protoRW :=
  match acc with
  | [] => ∅
  | p :: acc' => <[Name p := mk_protoRW p (baseProtocolLength + total acc')]> (layout acc')
  end.

Definition name_gt (p q : Protocol) : Prop :=
  String.le (Name q) (Name p) /\ Name q <> Name p.

Lemma layout_None acc n : Forall (fun q => Name q <> n) acc -> layout acc !! n = None.
Proof.
  induction 1 as [|q acc Hq _ IH]; simpl; [by rewrite lookup_empty|].
  by rewrite lookup_insert_ne.
Qed.

(** A name that is not below the latest one is the latest one or new. *)
Lemma layout_lookup_push acc p :
  StronglySorted name_gt acc ->
  (forall q, List.hd_error acc = Some q -> String.le (Name q) (Name p)) ->
  layout acc !! Name p =
    match acc with
    | q :: acc' => if String.eqb (Name q) (Name p)
                   then Some (mk_protoRW q (baseProtocolLength + total acc')) else None
    | [] => None
    end.
Proof.
  intros Hs Hle. destruct acc as [|q acc']; simpl; [by rewrite lookup_empty|].
  apply StronglySorted_inv in Hs as [_ Hall]. specialize (Hle q eq_refl).
  destruct (String.eqb_spec (Name q) (Name p)) as [E|E].
  - rewrite E. apply lookup_insert_eq.
  - rewrite lookup_insert_ne by done. apply layout_None.
    eapply Forall_impl; [exact Hall|]. intros r [Hr Hne] Heq. apply E.
    apply (anti_symm String.le); [done|]. by rewrite <- Heq.
Qed.

Section Layout.
Context (protocols : list Protocol).
Hypothesis lengths_nonneg : Forall (fun p => 0 <= Length p) protocols.
Hypothesis lengths_bound : baseProtocolLength + total protocols < 2 ^ 64.

Lemma total_app l k : total (l ++ k) = total l + total k.
Proof. induction l as [|p l IH]; simpl; lia. Qed.
Lemma total_perm l k : l ≡ₚ k -> total l = total k.
Proof. induction 1; simpl; lia. Qed.
Lemma length_elem p : p ∈ protocols -> 0 <= Length p.
Proof. revert p. by apply Forall_forall. Qed.
Lemma total_nonneg l : (forall p, p ∈ l -> p ∈ protocols) -> 0 <= total l.
Proof.
  intros Hl. induction l as [|p l IH]; simpl; [lia|].
  assert (0 <= Length p) by (apply length_elem, Hl; set_solver).
  assert (0 <= total l) by (apply IH; set_solver). lia.
Qed.

(** Distinct protocols of the list fit below the bound. *)
Lemma total_sub acc :
  NoDup acc -> (forall p, p ∈ acc -> p ∈ protocols) -> total acc <= total protocols.
Proof.
  intros Hn Hsub. destruct (submseteq_Permutation _ _ (NoDup_submseteq _ _ Hn Hsub)) as [k Hk].
  rewrite (total_perm _ _ Hk), total_app.
  assert (0 <= total k); [|lia]. apply total_nonneg. intros p Hp. rewrite Hk. set_solver.
Qed.

Lemma sorted_NoDup acc : StronglySorted name_gt acc -> NoDup acc.
Proof.
  induction 1 as [|p acc _ IH Hall]; constructor; [|done].
  intros Hin. rewrite Forall_forall in Hall.
  by destruct (Hall p Hin).
Qed.

Definition good (acc : list Protocol) : Prop :=
  StronglySorted name_gt acc /\ (forall p, p ∈ acc -> p ∈ protocols).

Lemma good_range acc : good acc -> 0 <= baseProtocolLength + total acc < 2 ^ 64.
Proof.
  intros [Hs Hsub]. pose proof (total_nonneg acc Hsub).
  pose proof (total_sub acc (sorted_NoDup acc Hs) Hsub). unfold baseProtocolLength in *. lia.
Qed.

Lemma good_tail q acc : good (q :: acc) -> good acc.
Proof. intros [[Hs _]%StronglySorted_inv Hsub]. split; [done|]. set_solver. Qed.

Lemma good_push acc p :
  good acc -> p ∈ protocols ->
  (forall q, List.hd_error acc = Some q -> String.le (Name q) (Name p)) ->
  good (push acc p).
Proof.
  intros [Hs Hsub] Hp Hle. destruct acc as [|q acc]; simpl.
  { split; [repeat constructor|set_solver]. }
  specialize (Hle q eq_refl). apply StronglySorted_inv in Hs as [Hs Hall].
  assert (Hgt : Forall (name_gt p) acc).
  { eapply Forall_impl; [exact Hall|]. intros r [Hr Hne]. split; [by etrans|].
    intros Heq. apply Hne, (anti_symm String.le); [done|]. by rewrite Heq. }
  destruct (String.eqb_spec (Name q) (Name p)).
  - split; [by constructor|set_solver].
  - split; [|set_solver]. repeat constructor; done.
Qed.

Lemma push_hd acc p : List.hd_error (push acc p) = Some p.
Proof. destruct acc as [|q acc]; simpl; [done|]. by destruct (String.eqb _ _). Qed.

(** One round of [matchProtocols] on the reference layout. *)
Lemma match_step_push acc c :
  good acc ->
  (forall q, List.hd_error acc = Some q -> String.le (Name q) (cap_Name c)) ->
  match_step protocols (layout acc, baseProtocolLength + total acc) c =
    match List.find (matches c) protocols with
    | Some p => (layout (push acc p), baseProtocolLength + total (push acc p))
    | None => (layout acc, baseProtocolLength + total acc)
    end.
Proof.
  intros Hg Hle. unfold match_step. destruct (List.find (matches c) protocols) as [p|] eqn:Hf; [|done].
  apply find_matches_Some in Hf as (Hp & Hn & _). rewrite <- Hn in *.
  pose proof (good_range _ (good_push acc p Hg Hp Hle)) as Hr.
  rewrite (layout_lookup_push acc p) by (try done; apply Hg).
  destruct acc as [|q acc]; simpl in *.
  - rewrite u64_small by (unfold is_u64; lia). f_equal. lia.
  - pose proof (good_range acc (good_tail _ _ Hg)).
    destruct (String.eqb_spec (Name q) (Name p)) as [E|E]; simpl in *.
    + replace (baseProtocolLength + (Length q + total acc) - Length q)
        with (baseProtocolLength + total acc) by lia.
      rewrite E, insert_insert_eq, !u64_small by (unfold is_u64; lia). f_equal. lia.
    + rewrite u64_small by (unfold is_u64; lia). f_equal. lia.
Qed.

Lemma match_fold cs acc :
  StronglySorted cap_le cs -> good acc ->
  (forall q c, List.hd_error acc = Some q -> c ∈ cs -> String.le (Name q) (cap_Name c)) ->
  let acc' := foldl push acc (matched protocols cs) in
  foldl (match_step protocols) (layout acc, baseProtocolLength + total acc) cs
    = (layout acc', baseProtocolLength + total acc') /\ good acc'.
Proof.
  revert acc. induction cs as [|c cs IH]; intros acc Hs Hg Hle; [done|].
  apply StronglySorted_inv in Hs as [Hs Hall]. rewrite Forall_forall in Hall.
  unfold matched. cbn [foldl omap list_omap].
  rewrite match_step_push; [|done|intros q Hq; apply (Hle q); [done|set_solver]].
  destruct (List.find (matches c) protocols) as [p|] eqn:Hf.
  - pose proof (find_matches_Some _ _ _ Hf) as (Hp & Hn & _). cbn [foldl]. apply IH; [done| |].
    + apply good_push; [done|done|]. intros q Hq. rewrite Hn. apply (Hle q); [done|set_solver].
    + intros q c'. rewrite push_hd. intros [= <-] Hc'. rewrite Hn. by apply Hall.
  - apply IH; [done|done|]. intros q c' Hq Hc'. apply Hle; [done|set_solver].
Qed.

Lemma matchProtocols_layout caps :
  matchProtocols protocols caps = layout (chosen protocols caps) /\ good (chosen protocols caps).
Proof.
  destruct (match_fold (sort_caps caps) [] (sort_caps_sorted caps)) as [E Hg].
  - split; [constructor|set_solver].
  - done.
  - split; [|done]. unfold matchProtocols. cbn [layout total foldr] in E.
    rewrite Z.add_0_r in E. by rewrite E.
Qed.

(** ** Properties of the reference layout *)
Lemma layout_bound acc n rw :
  good acc -> layout acc !! n = Some rw ->
  proto rw ∈ acc /\ Name (proto rw) = n /\ 0 <= Length (proto rw)
  /\ baseProtocolLength <= offset rw
  /\ offset rw + Length (proto rw) <= baseProtocolLength + total acc.
Proof.
  induction acc as [|p acc IH]; simpl; intros Hg Hl; [by rewrite lookup_empty in Hl|].
  assert (0 <= Length p) by (apply length_elem, Hg; set_solver).
  pose proof (total_nonneg acc (proj2 (good_tail _ _ Hg))).
  apply lookup_insert_Some in Hl as [[<- <-]|[_ Hl]]; simpl.
  - split_and!; [set_solver|done|lia..].
  - destruct (IH (good_tail _ _ Hg) Hl) as (? & ? & ? & ? & ?).
    split_and!; [set_solver|done|lia..].
Qed.

Lemma layout_disjoint acc n1 n2 rw1 rw2 :
  good acc -> layout acc !! n1 = Some rw1 -> layout acc !! n2 = Some rw2 -> n1 <> n2 ->
  offset rw1 + Length (proto rw1) <= offset rw2
  \/ offset rw2 + Length (proto rw2) <= offset rw1.
Proof.
  induction acc as [|p acc IH]; simpl; intros Hg H1 H2 Hne; [by rewrite lookup_empty in H1|].
  pose proof (good_tail _ _ Hg) as Hg'.
  apply lookup_insert_Some in H1 as [[<- <-]|[_ H1]];
    apply lookup_insert_Some in H2 as [[<- <-]|[_ H2]]; simpl; [done| | |by apply IH].
  - destruct (layout_bound _ _ _ Hg' H2) as (_ & _ & _ & _ & ?). by right.
  - destruct (layout_bound _ _ _ Hg' H1) as (_ & _ & _ & _ & ?). by left.
Qed.

Lemma layout_covers acc code :
  good acc -> baseProtocolLength <= code < baseProtocolLength + total acc ->
  exists n rw, layout acc !! n = Some rw /\ offset rw <= code < offset rw + Length (proto rw).
Proof.
  induction acc as [|p acc IH]; simpl; intros Hg Hc; [lia|].
  destruct (decide (code < baseProtocolLength + total acc)) as [Hlt|Hge].
  - destruct IH as (n & rw & Hl & Hr); [by eapply good_tail|lia|].
    exists n, rw. split; [|done]. rewrite lookup_insert_ne; [done|]. intros <-.
    destruct Hg as [[_ Hall]%StronglySorted_inv _].
    rewrite layout_None in Hl; [done|].
    eapply Forall_impl; [exact Hall|]. by intros q [_ ?].
  - exists (Name p), (mk_protoRW p (baseProtocolLength + total acc)).
    rewrite lookup_insert_eq. simpl. split; [done|lia].
Qed.

Lemma in_range_spec acc n rw code :
  good acc -> layout acc !! n = Some rw ->
  in_range code rw = true <-> offset rw <= code < offset rw + Length (proto rw).
Proof.
  intros Hg Hl. destruct (layout_bound _ _ _ Hg Hl) as (_ & _ & ? & ? & ?).
  pose proof (good_range acc Hg). unfold in_range, baseProtocolLength in *.
  rewrite u64_small by (unfold is_u64; lia).
  rewrite andb_true_iff, Z.leb_le, Z.ltb_lt. lia.
Qed.

Lemma getProto_layout acc order code rw :
  good acc -> order ≡ₚ (map_to_list (layout acc)).*2 ->
  getProto order code = Some rw
  <-> (exists n, layout acc !! n = Some rw)
      /\ offset rw <= code < offset rw + Length (proto rw).
Proof.
  intros Hg Ho.
  assert (Hin : forall x, x ∈ order <-> exists n, layout acc !! n = Some x).
  { intros x. rewrite Ho, list_elem_of_fmap. split.
    - intros ([n y] & -> & Hy%elem_of_map_to_list). eauto.
    - intros [n Hn]. exists (n, x). split; [done|]. by apply elem_of_map_to_list. }
  unfold getProto. split.
  - intros [Hx%list_elem_of_In Hr]%List.find_some.
    apply Hin in Hx as [n Hn]. split; [by eauto|]. by apply (in_range_spec acc n).
  - intros [[n Hn] Hr]. destruct (List.find (in_range code) order) as [y|] eqn:E.
    + apply List.find_some in E as [Hy%list_elem_of_In Hyr].
      apply Hin in Hy as [m Hm]. apply (in_range_spec acc m) in Hyr; [|done..].
      destruct (decide (n = m)) as [->|Hne]; [congruence|].
      destruct (layout_disjoint _ _ _ _ _ Hg Hn Hm Hne); lia.
    + assert (In rw order) as Hrw by (apply list_elem_of_In, Hin; eauto).
      pose proof (List.find_none _ _ E rw Hrw) as Hf.
      apply (in_range_spec acc n) in Hr; [congruence|done..].
Qed.
End Layout.

(** ** The versions chosen *)
Definition proto_le (p q : Protocol) : Prop := cap_le (cap p) (cap q).

Lemma matched_elem protocols cs p :
  p ∈ matched protocols cs <-> exists c, c ∈ cs /\ List.find (matches c) protocols = Some p.
Proof. unfold matched. rewrite list_elem_of_omap. done. Qed.

Lemma matched_sorted protocols cs :
  StronglySorted cap_le cs -> StronglySorted proto_le (matched protocols cs).
Proof.
  induction 1 as [|c cs Hs IH Hall]; simpl; [constructor|].
  rewrite Forall_forall in Hall.
  destruct (List.find (matches c) protocols) as [p|] eqn:Hf; [|done].
  constructor; [done|]. apply Forall_forall. intros q Hq.
  apply matched_elem in Hq as (c' & Hc' & Hf').
  apply find_matches_Some in Hf as (_ & Hn & Hv).
  apply find_matches_Some in Hf' as (_ & Hn' & Hv').
  specialize (Hall c' Hc'). unfold proto_le, cap, cap_le in *. simpl.
  by rewrite Hn, Hv, Hn', Hv'.
Qed.

Lemma push_sub acc p a : a ∈ push acc p -> a ∈ acc \/ a = p.
Proof.
  destruct acc as [|q acc]; simpl; [set_solver|]. destruct (String.eqb _ _); set_solver.
Qed.

Lemma fold_push_sub ms acc a : a ∈ foldl push acc ms -> a ∈ acc \/ a ∈ ms.
Proof.
  revert acc. induction ms as [|p ms IH]; intros acc; simpl; [set_solver|].
  intros [Ha|Ha]%IH; [apply push_sub in Ha|]; set_solver.
Qed.

(** Nothing matched is lost, except to a higher version of the same name. *)
Definition kept (acc : list Protocol) (q : Protocol) : Prop :=
  exists a, a ∈ acc /\ Name a = Name q /\ Version q <= Version a.

Lemma push_kept acc p q :
  (forall h, List.hd_error acc = Some h -> proto_le h p) ->
  kept acc q \/ q = p -> kept (push acc p) q.
Proof.
  intros Hh [(a & Ha & Hn & Hv)| ->].
  - destruct acc as [|h acc]; simpl; [by apply not_elem_of_nil in Ha|].
    destruct (Hh h eq_refl) as [_ Hle]. simpl in Hle.
    destruct (String.eqb_spec (Name h) (Name p)) as [E|E]; [|exists a; set_solver].
    apply elem_of_cons in Ha as [->|Ha]; [|exists a; set_solver].
    exists p. split_and!; [set_solver|congruence|]. specialize (Hle E). lia.
  - exists p. split_and!; [|done|lia].
    destruct acc as [|h acc]; simpl; [set_solver|]. destruct (String.eqb _ _); set_solver.
Qed.

Lemma fold_push_kept ms acc q :
  StronglySorted proto_le ms ->
  (forall h p, List.hd_error acc = Some h -> p ∈ ms -> proto_le h p) ->
  kept acc q \/ q ∈ ms -> kept (foldl push acc ms) q.
Proof.
  intros Hs. revert acc. induction Hs as [|p ms Hs IH Hall]; intros acc Hh Hq; simpl.
  { destruct Hq as [|Hq]; [done|by apply not_elem_of_nil in Hq]. }
  rewrite Forall_forall in Hall. apply IH.
  - intros h p'. rewrite push_hd. intros [= <-] Hp'. by apply Hall.
  - destruct Hq as [Hq|[-> | Hq]%elem_of_cons]; [left|left|by right];
      (apply push_kept; [|by auto]; intros h Hhd; apply Hh; [done|set_solver]).
Qed.

Lemma count_pos_from protocols cs n :
  0 <= n ->
  0 < foldl (fun n c => foldl (fun n p => if matches c p then n + 1 else n) n protocols) n cs
  <-> 0 < n \/ exists c p, c ∈ cs /\ p ∈ protocols /\ matches c p = true.
Proof.
  revert n. induction cs as [|c cs IH]; intros n Hn; simpl.
  - split; [by left|]. intros [|(c & p & Hc & _)]; [done|by apply not_elem_of_nil in Hc].
  - pose proof (count_if_nonneg (matches c) protocols).
    rewrite foldl_count, IH by lia. setoid_rewrite elem_of_cons. split.
    + intros [Hlt|]; [|naive_solver]. destruct (decide (0 < n)); [by left|].
      assert (0 < count_if (matches c) protocols) as (p & ? & ?)%count_if_pos by lia. eauto 10.
    + intros [|(c' & p & [-> | Hc'] & Hp & Hm)]; [left; lia| |by eauto 10].
      left. assert (0 < count_if (matches c) protocols) by (apply count_if_pos; eauto). lia.
Qed.

Lemma count_pos protocols caps :
  0 < countMatchingProtocols protocols caps
  <-> exists c p, c ∈ caps /\ p ∈ protocols /\ matches c p = true.
Proof.
  unfold countMatchingProtocols. rewrite count_pos_from by lia. naive_solver lia.
Qed.

Lemma find_matches_exists c p protocols :
  p ∈ protocols -> matches c p = true -> exists q, List.find (matches c) protocols = Some q.
Proof.
  intros Hp Hm. destruct (List.find (matches c) protocols) as [q|] eqn:E; [by eauto|].
  apply list_elem_of_In in Hp. pose proof (List.find_none _ _ E p Hp). congruence.
Qed.

Lemma layout_elem acc p :
  StronglySorted name_gt acc -> p ∈ acc ->
  exists rw, layout acc !! Name p = Some rw /\ proto rw = p.
Proof.
  induction 1 as [|q acc Hs IH Hall]; simpl; intros Hp; [by apply not_elem_of_nil in Hp|].
  rewrite Forall_forall in Hall. apply elem_of_cons in Hp as [->|Hp].
  - rewrite lookup_insert_eq. eauto.
  - destruct (Hall p Hp) as [_ Hne]. rewrite lookup_insert_ne by done. auto.
Qed.

(** C5.  Message routing: for every negotiated protocol and every order in
    which the map of protocols is iterated, a code on the wire is routed to
    the unique protocol whose range contains it; what [WriteMsg] sends for a
    valid code of a protocol is routed back to that protocol, which reads the
    original code; and the ranges leave no gap after the base protocol. *)
Theorem protocol_routing protocols caps order :
  Forall (fun p => 0 <= Length p) protocols ->
  baseProtocolLength + total protocols < 2 ^ 64 ->
  order ≡ₚ (map_to_list (matchProtocols protocols caps)).*2 ->
  (forall code rw, getProto order code = Some rw <->
     (exists n, matchProtocols protocols caps !! n = Some rw)
     /\ offset rw <= code < offset rw + Length (proto rw))
  /\ (forall n rw code, matchProtocols protocols caps !! n = Some rw ->
        0 <= code < Length (proto rw) ->
        exists w, WriteMsg_code rw code = Some w /\ baseProtocolLength <= w
          /\ getProto order w = Some rw /\ ReadMsg_code rw w = code)
  /\ (forall code, baseProtocolLength <= code
          < baseProtocolLength + total (chosen protocols caps) ->
        is_Some (getProto order code)).
Proof.
  intros Hn Hb Ho. destruct (matchProtocols_layout protocols Hn Hb caps) as [E Hg].
  rewrite E in *. pose proof (fun code rw => getProto_layout protocols Hn Hb _ order code rw Hg Ho) as Hget.
  split_and!.
  - exact Hget.
  - intros n rw code Hl Hc. destruct (layout_bound protocols Hn Hb _ _ _ Hg Hl) as (_&_&?&?&?).
    pose proof (good_range protocols Hn Hb _ Hg). unfold baseProtocolLength in *.
    exists (code + offset rw). unfold WriteMsg_code, ReadMsg_code.
    destruct (Z.leb_spec (Length (proto rw)) code); [lia|].
    rewrite u64_small by (unfold is_u64; lia). split_and!; [done|lia| |].
    + apply Hget. split; [by eauto|lia].
    + rewrite u64_small by (unfold is_u64; lia). lia.
  - intros code Hc. destruct (layout_covers protocols Hn Hb _ _ Hg Hc) as (n & rw & Hl & Hr).
    exists rw. apply Hget; eauto.
Qed.

(** Negotiation: a name runs exactly when some advertised capability
    matches a local protocol of that name, and the version that runs is the
    highest one both sides have; a connection accepted by the
    [countMatchingProtocols] check has at least one running protocol. *)
Theorem protocol_negotiation protocols caps :
  Forall (fun p => 0 <= Length p) protocols ->
  baseProtocolLength + total protocols < 2 ^ 64 ->
  (forall c p, c ∈ caps -> p ∈ protocols -> matches c p = true ->
     exists rw, matchProtocols protocols caps !! cap_Name c = Some rw
       /\ cap_Version c <= Version (proto rw))
  /\ (forall n rw, matchProtocols protocols caps !! n = Some rw ->
        Name (proto rw) = n /\ proto rw ∈ protocols /\ cap (proto rw) ∈ caps)
  /\ (0 < countMatchingProtocols protocols caps
      <-> matchProtocols protocols caps <> ∅).
Proof.
  intros Hn Hb. destruct (matchProtocols_layout protocols Hn Hb caps) as [E Hg]. rewrite E.
  assert (Hperm : sort_caps caps ≡ₚ caps) by apply merge_sort_Permutation.
  assert (H1 : forall c p, c ∈ caps -> p ∈ protocols -> matches c p = true ->
     exists rw, layout (chosen protocols caps) !! cap_Name c = Some rw
       /\ cap_Version c <= Version (proto rw)).
  { intros c p Hc Hp Hm. destruct (find_matches_exists c p protocols Hp Hm) as [q Hq].
    destruct (fold_push_kept (matched protocols (sort_caps caps)) [] q) as (a & Ha & Han & Hav).
    - apply matched_sorted, sort_caps_sorted.
    - done.
    - right. apply matched_elem. exists c. split; [by rewrite Hperm|done].
    - apply find_matches_Some in Hq as (_ & Hqn & Hqv).
      destruct (layout_elem _ a (proj1 Hg) Ha) as (rw & Hl & Hrw).
      exists rw. rewrite Hrw. split; [congruence|lia]. }
  assert (H2 : forall n rw, layout (chosen protocols caps) !! n = Some rw ->
        Name (proto rw) = n /\ proto rw ∈ protocols /\ cap (proto rw) ∈ caps).
  { intros n rw Hl. destruct (layout_bound protocols Hn Hb _ _ _ Hg Hl) as (Hin & Hnm & _).
    split; [done|]. apply fold_push_sub in Hin as [Hin|Hin]; [by apply not_elem_of_nil in Hin|].
    apply matched_elem in Hin as (c & Hc & Hf). rewrite Hperm in Hc.
    apply find_matches_Some in Hf as (? & Hcn & Hcv). split; [done|].
    unfold cap. rewrite Hcn, Hcv. by destruct c. }
  split_and!; [done..|]. rewrite count_pos. split.
  - intros (c & p & Hc & Hp & Hm). destruct (H1 c p Hc Hp Hm) as (rw & Hl & _).
    intros He. by rewrite He, lookup_empty in Hl.
  - intros (n & rw & Hl)%map_choose. destruct (H2 n rw Hl) as (_ & Hp & Hc).
    exists (cap (proto rw)), (proto rw). split_and!; [done..|].
    unfold matches, cap. simpl. by rewrite String.eqb_refl, Z.eqb_refl.
Qed.

(** Two versions of eth and one of snap; the remote has all three and another. *)
Definition ex_protocols : list Protocol :=
  [mk_Protocol "eth" 67 17; mk_Protocol "eth" 66 17; mk_Protocol "snap" 1 8].
Definition ex_caps : list Cap :=
  [mk_Cap "snap" 1; mk_Cap "eth" 66; mk_Cap "les" 4; mk_Cap "eth" 67].

Lemma protocol_routing_witness :
  getProto [mk_protoRW (mk_Protocol "snap" 1 8) 33; mk_protoRW (mk_Protocol "eth" 67 17) 16] 34
  = Some (mk_protoRW (mk_Protocol "snap" 1 8) 33).
Proof.
  destruct (protocol_routing ex_protocols ex_caps
    [mk_protoRW (mk_Protocol "snap" 1 8) 33; mk_protoRW (mk_Protocol "eth" 67 17) 16])
    as [H _].
  - repeat constructor; simpl; lia.
  - vm_compute. reflexivity.
  - vm_compute. repeat constructor.
  - apply H. split; [|simpl; lia]. exists "snap". vm_compute. reflexivity.
Defined.

Lemma protocol_negotiation_witness :
  0 < countMatchingProtocols ex_protocols ex_caps
  <-> matchProtocols ex_protocols ex_caps <> ∅.
Proof.
  apply (protocol_negotiation ex_protocols ex_caps).
  - repeat constructor; simpl; lia.
  - vm_compute. reflexivity.
Defined.
End Protocols.
