(* ===== verification/PeerConn.v ===== *)
(** * A running peer connection (p2p/peer.go, p2p/peer_error.go)

    [Peer.run] supervises the goroutines of one connection: the read loop, the
    ping loop and one goroutine per negotiated protocol.  The write token that
    circulates through [writeStart], the writers and [writeErr] serialises the
    writes of the protocols.  The goroutines are a step relation on the
    contents of the channels; the exit path and the message dispatch are
    functions. *)

From stdpp Require Import base gmap list strings pretty.
From Stdlib Require Import ZArith Lia.
From S2P Require Import Prelude Protocols.

Module PeerConn.
Import Protocols.

(** ** Errors *)
Definition DiscRequested : Z := 0.
Definition DiscNetworkError : Z := 1.
Definition DiscProtocolError : Z := 2.
Definition DiscUselessPeer : Z := 3.
Definition DiscTooManyPeers : Z := 4.
Definition DiscAlreadyConnected : Z := 5.
Definition DiscIncompatibleVersion : Z := 6.
Definition DiscInvalidIdentity : Z := 7.
Definition DiscQuitting : Z := 8.
Definition DiscUnexpectedIdentity : Z := 9.
Definition DiscSelf : Z := 10.
Definition DiscReadTimeout : Z := 11.
Definition DiscByManagerPeer : Z := 12.
Definition DiscSubprotocolError : Z := 16.

(** The Go array literal leaves the indices 13 to 15 empty. *)
Definition discReasonToString : list string :=
  ["disconnect requested"; "network error"; "breach of protocol"; "useless peer";
   "too many peers"; "already connected"; "incompatible p2p protocol version";
   "invalid node identity"; "client quitting"; "unexpected identity";
   "connected to self"; "read timeout"; "close by manager"; ""; ""; "";
   "subprotocol error"].

Definition DiscReason_String (d : Z) : outcome string :=
  if len discReasonToString <=? d
  then Done (String.append "unknown disconnect reason " (pretty d))
  else match discReasonToString !! Z.to_nat d with
       | Some s => Done s
       | None => Panic "index out of range"
       end.

Definition errInvalidMsgCode : Z := 0.
Definition errInvalidMsg : Z := 1.

(** The error values the connection code distinguishes. *)
Inductive goErr : Type :=
  | eDisc (d : Z)                       (* a DiscReason *)
  | eProtocolReturned
  | ePeer (code : Z) (message : string) (* *peerError *)
  | eShuttingDown
  | eEOF
  | eOther (message : string).

Definition discReasonForError (err : goErr) : Z :=
  match err with
  | eDisc reason => reason
  | eProtocolReturned => DiscQuitting
  | ePeer code _ =>
      if ((code =? errInvalidMsgCode) || (code =? errInvalidMsg))%bool
      then DiscProtocolError else DiscSubprotocolError
  | _ => DiscSubprotocolError
  end.

Definition errorToString (code : Z) : option string :=
  if code =? errInvalidMsgCode then Some "invalid message code"
  else if code =? errInvalidMsg then Some "invalid message"
  else None.

(** [detail] is the formatted suffix, [""] for an empty format. *)
Definition newPeerError (code : Z) (detail : string) : outcome goErr :=
  match errorToString code with
  | None => Panic "invalid error code"
  | Some desc =>
      Done (ePeer code (if String.eqb detail "" then desc
                        else String.append desc (String.append ": " detail)))
  end.

(** ** Dispatch of incoming messages *)
Definition handshakeMsg : Z := 0.
Definition discMsg : Z := 1.
Definition pingMsg : Z := 2.
Definition pongMsg : Z := 3.

(** A message with what its payload decodes to as a disconnect reason ([0] when
    it does not decode: the error is ignored) and the error of discarding it. *)
Record Msg : Type := mk_Msg {
  Code : Z;
  disc_payload : Z;
  discard_err : option goErr;
}.

(** What [handle] does besides returning: answer a ping, or hand the message
    to a protocol. *)
Inductive effect : Type := noEffect | sendPong | deliver (rw : protoRW) (code : Z).

(** [order] is the iteration order of the protocol map; [closed] says whether
    the select takes the [p.closed] case. *)
Definition handle (order : list protoRW) (closed : bool) (msg : Msg)
    : option goErr * effect :=
  if Code msg =? pingMsg then (None, sendPong)
  else if Code msg =? discMsg then (Some (eDisc (disc_payload msg)), noEffect)
  else if Code msg <? baseProtocolLength then (discard_err msg, noEffect)
  else match getProto order (Code msg) with
       | None => (Some (eOther (String.append "msg code out of range: " (pretty (Code msg)))), noEffect)
       | Some rw => if closed then (Some eEOF, noEffect) else (None, deliver rw (Code msg))
       end.

(** ** The exit of run *)
Inductive exitEvent : Type :=
  | exWrite (e : goErr) | exRead (e : goErr) | exProto (e : goErr) | exDisc (d : Z).

(** [remoteRequested], the error returned and the reason sent to the peer. *)
Definition run_exit (ev : exitEvent) : bool * goErr * Z :=
  match ev with
  | exWrite e => (false, e, DiscNetworkError)
  | exRead (eDisc r) => (true, eDisc r, r)
  | exRead e => (false, e, DiscNetworkError)
  | exProto e => (false, e, discReasonForError e)
  | exDisc d => (false, eDisc d, discReasonForError (eDisc d))
  end.

(** ** The goroutines

    [wstart], [werr], [readErr] and [protoErr] are the contents of the
    channels; [writing] are the protocols between taking the token and
    reporting the result of their write; [alive] are the protocol goroutines
    that have not returned. *)
Record state : Type := mk_state {
  wstart : list unit;
  writing : list string;
  werr : list (option goErr);
  readErr : list goErr;
  protoErr : list goErr;
  alive : list string;
  reader : bool;
  pinger : bool;
  result : option (bool * goErr * Z);    (* set when closed is closed *)
}.

(** The state after [startProtocols]: one token in [writeStart]. *)
Definition start (running : list string) : state :=
  mk_state [tt] [] [] [] [] running true true None.

Definition cap_protoErr (running : list string) : nat := S (length running).

Inductive step (running : list string) : state -> state -> Prop :=
  (** WriteMsg takes the token. *)
  | s_wstart p w ws we re pe al rd pi res :
      p ∈ al -> p ∉ ws ->
      step running (mk_state (tt :: w) ws we re pe al rd pi res)
                   (mk_state w (p :: ws) we re pe al rd pi res)
  (** WriteMsg reports its result; the channel holds one. *)
  | s_wdone p e w ws1 ws2 we re pe al rd pi res :
      (length we < 1)%nat ->
      step running (mk_state w (ws1 ++ p :: ws2) we re pe al rd pi res)
                   (mk_state w (ws1 ++ ws2) (we ++ [e]) re pe al rd pi res)
  (** run receives a successful write and passes the token on. *)
  | s_run_write_ok w ws we re pe al rd pi :
      (length w < 1)%nat ->
      step running (mk_state w ws (None :: we) re pe al rd pi None)
                   (mk_state (w ++ [tt]) ws we re pe al rd pi None)
  | s_run_write_err e w ws we re pe al rd pi :
      step running (mk_state w ws (Some e :: we) re pe al rd pi None)
                   (mk_state w ws we re pe al rd pi (Some (run_exit (exWrite e))))
  | s_run_read e w ws we re pe al rd pi :
      step running (mk_state w ws we (e :: re) pe al rd pi None)
                   (mk_state w ws we re pe al rd pi (Some (run_exit (exRead e))))
  | s_run_proto e w ws we re pe al rd pi :
      step running (mk_state w ws we re (e :: pe) al rd pi None)
                   (mk_state w ws we re pe al rd pi (Some (run_exit (exProto e))))
  (** Disconnect hands a reason to run. *)
  | s_run_disc d w ws we re pe al rd pi :
      step running (mk_state w ws we re pe al rd pi None)
                   (mk_state w ws we re pe al rd pi (Some (run_exit (exDisc d))))
  (** readLoop ends with an error. *)
  | s_read_err e w ws we re pe al pi res :
      (length re < 1)%nat ->
      step running (mk_state w ws we re pe al true pi res)
                   (mk_state w ws we (re ++ [e]) pe al false pi res)
  (** A protocol returns; a nil error becomes errProtocolReturned. *)
  | s_proto_return p e w ws we re pe al1 al2 rd pi res :
      p ∉ ws -> (length pe < cap_protoErr running)%nat ->
      step running (mk_state w ws we re pe (al1 ++ p :: al2) rd pi res)
                   (mk_state w ws we re (pe ++ [default eProtocolReturned e]) (al1 ++ al2) rd pi res)
  (** pingLoop fails to send, or sees the closed channel. *)
  | s_ping_err e w ws we re pe al rd res :
      (length pe < cap_protoErr running)%nat ->
      step running (mk_state w ws we re pe al rd true res)
                   (mk_state w ws we re (pe ++ [e]) al rd false res)
  | s_ping_closed w ws we re pe al rd r :
      step running (mk_state w ws we re pe al rd true (Some r))
                   (mk_state w ws we re pe al rd false (Some r)).

Definition inv (running : list string) (s : state) : Prop :=
  (length (wstart s) + length (writing s) + length (werr s) <= 1)%nat
  /\ (length (readErr s) + (if reader s then 1 else 0) <= 1)%nat
  /\ (length (protoErr s) + length (alive s) + (if pinger s then 1 else 0)
      <= cap_protoErr running)%nat.

Lemma conn_inv_step running s s' : step running s s' -> inv running s -> inv running s'.
Proof.
  destruct 1; unfold inv; simpl; rewrite ?length_app; simpl;
    repeat match goal with |- context [if ?b then _ else _] => destruct b end; lia.
Qed.

Lemma conn_inv_reach running s : rtc (step running) (start running) s -> inv running s.
Proof.
  intros Hr. assert (Hi : inv running (start running)).
  { unfold inv, cap_protoErr. simpl. lia. }
  revert Hi. induction Hr as [|a b c Hab _ IH]; [done|]. intros Ha. eauto using conn_inv_step.
Qed.

(** Supervision of a connection: at most one protocol writes at a time,
    and no goroutine ever blocks on reporting: a writer that finished, the
    read loop, the ping loop, a protocol that returned and the main loop that
    passes the write token on all find room in their channel. *)
Theorem peer_channels running s :
  rtc (step running) (start running) s ->
  (length (writing s) <= 1)%nat
  /\ (forall p, p ∈ writing s -> werr s = [] /\ wstart s = [])
  /\ (werr s <> [] -> wstart s = [])
  /\ (reader s = true -> readErr s = [])
  /\ (alive s <> [] \/ pinger s = true ->
      (length (protoErr s) < cap_protoErr running)%nat).
Proof.
  intros (H1 & H2 & H3)%conn_inv_reach.
  destruct s as [w ws we re pe al rd pi res]; simpl in *. split_and!.
  - lia.
  - intros p Hp. destruct ws as [|q ws]; [by apply not_elem_of_nil in Hp|].
    simpl in H1. split; apply nil_length_inv; lia.
  - intros Hne. destruct we as [|x we]; [done|]. simpl in H1. apply nil_length_inv. lia.
  - intros ->. apply nil_length_inv. lia.
  - intros [Hne| ->]; [|lia]. destruct al; [done|simpl in H3; lia].
Qed.

Lemma peer_channels_witness :
  (length (writing (mk_state [] ["eth"] [] [] [] ["eth"; "snap"] true true None)) <= 1)%nat.
Proof.
  apply (peer_channels ["eth"; "snap"]). apply rtc_once.
  apply (s_wstart _ "eth"); [apply list_elem_of_In; by left|apply not_elem_of_nil].
Defined.

(** A message is handed to a protocol only while the connection is open
    and if the protocol was negotiated and its range contains the code, so that
    the code the protocol reads is one of its own. *)
Theorem handle_dispatch protocols caps order closed msg rw code :
  Forall (fun p => 0 <= Length p) protocols ->
  baseProtocolLength + total protocols < 2 ^ 64 ->
  order ≡ₚ (map_to_list (matchProtocols protocols caps)).*2 ->
  handle order closed msg = (None, deliver rw code) ->
  closed = false /\ code = Code msg
  /\ matchProtocols protocols caps !! Name (proto rw) = Some rw
  /\ 0 <= ReadMsg_code rw code < Length (proto rw).
Proof.
  intros Hn Hb Ho. unfold handle.
  destruct (Z.eqb_spec (Code msg) pingMsg); [done|].
  destruct (Z.eqb_spec (Code msg) discMsg); [done|].
  destruct (Z.ltb_spec (Code msg) baseProtocolLength); [done|].
  destruct (getProto order (Code msg)) as [rw'|] eqn:E; [|done].
  destruct closed; [done|]. intros [= -> <-].
  destruct (matchProtocols_layout protocols Hn Hb caps) as [El Hg]. rewrite El in *.
  apply (getProto_layout protocols Hn Hb _ order _ _ Hg Ho) in E as [[nm Hl] Hr].
  destruct (layout_bound protocols Hn Hb _ _ _ Hg Hl) as (_ & -> & ? & ? & ?).
  pose proof (good_range protocols Hn Hb _ Hg). unfold ReadMsg_code, baseProtocolLength in *.
  rewrite u64_small by (unfold is_u64; lia). split_and!; try done; lia.
Qed.

Lemma handle_dispatch_witness :
  0 <= ReadMsg_code (mk_protoRW (mk_Protocol "snap" 1 8) 33) 34 < 8.
Proof.
  apply (handle_dispatch ex_protocols ex_caps
    [mk_protoRW (mk_Protocol "snap" 1 8) 33; mk_protoRW (mk_Protocol "eth" 67 17) 16]
    false (mk_Msg 34 0 None)).
  - repeat constructor; simpl; lia.
  - vm_compute. reflexivity.
  - vm_compute. repeat constructor.
  - vm_compute. reflexivity.
Defined.
End PeerConn.
