(* ===== verification/P2PServer.v ===== *)
(** * The p2p server (p2p/server.go)

    [Server.run] owns the set of peers and decides which connections become
    peers; [SetupConn] runs the two handshakes and passes the two checkpoints
    of the main loop; [listenLoop] accepts inbound connections, throttled per
    address.  Connections are shared objects (the trusted flag of a running
    peer is changed through its [conn]), so they live in a store. *)

From stdpp Require Import base gmap sets list strings pretty numbers sorting.
From Stdlib Require Import ZArith Lia.
From S2P Require Import Prelude ExpHeap NetUtil DialScheduler Protocols PeerConn.

Module P2PServer.
Import ExpHeap DialScheduler.

(** ** Configuration *)
Record Config : Type := mk_Config {
  MaxPeers : Z;
  MaxPendingPeers : Z;
  DialRatio : Z;
  NoDial : bool;
  localID : ID;
  srv_Protocols : list Protocols.Protocol;
  VerifyNodes : list ID;
  TrustedNodes : list ID;
  NetRestrict : option (list NetUtil.IPNet);
}.

Definition defaultDialRatio : Z := 3.

(** Go's division truncates. *)
Definition maxDialedConns (srv : Config) : Z :=
  if (NoDial srv || (MaxPeers srv =? 0))%bool then 0
  else
    let limit := if DialRatio srv =? 0 then Z.quot (MaxPeers srv) defaultDialRatio
                 else Z.quot (MaxPeers srv) (DialRatio srv) in
    if limit =? 0 then 1 else limit.

Definition maxInboundConns (srv : Config) : Z := MaxPeers srv - maxDialedConns srv.

(** ** State *)
Record peerConn : Type := mk_peerConn { pc_conn : conn; pc_caps : list Protocols.Cap }.
Abbreviation connRef := nat.

Record state : Type := mk_state {
  conns : gmap connRef peerConn;      (* all connections, by reference *)
  nextConn : connRef;
  peers : gmap ID connRef;            (* the peer of an ID, by its connection *)
  live : gset connRef;                (* launched peers that have not been dropped *)
  inboundCount : Z;
  trusted : gset ID;
  toDialer : list event;              (* sent to the dial scheduler, latest first *)
}.

Definition set_conns v s := mk_state v (nextConn s) (peers s) (live s)
  (inboundCount s) (trusted s) (toDialer s).
Definition set_nextConn v s := mk_state (conns s) v (peers s) (live s)
  (inboundCount s) (trusted s) (toDialer s).
Definition set_trusted v s := mk_state (conns s) (nextConn s) (peers s) (live s)
  (inboundCount s) v (toDialer s).

Definition init (srv : Config) : state :=
  mk_state ∅ 0%nat ∅ ∅ 0 (list_to_set (TrustedNodes srv)) [].

Definition pc_id (c : peerConn) : ID := node_ID (conn_node (pc_conn c)).
Definition pc_is (c : peerConn) (f : Z) : bool := conn_is (pc_conn c) f.

(** conn.set; the compare-and-swap loop ends with exactly this update. *)
Definition pc_set (f : Z) (val : bool) (c : peerConn) : peerConn :=
  let fl := conn_flags (pc_conn c) in
  mk_peerConn (mk_conn (if val then Z.lor fl f else Z.land fl (Z.lnot f)) (conn_node (pc_conn c)))
    (pc_caps c).

(** ** The checks *)
Section Server.
Context (srv : Config).

Definition postHandshakeChecks (ps : gmap ID connRef) (inbound : Z) (c : peerConn) : option Z :=
  if (negb (pc_is c trustedConn) && (MaxPeers srv <=? Z.of_nat (size ps)))%bool
  then Some PeerConn.DiscTooManyPeers
  else if (negb (pc_is c trustedConn) && pc_is c inboundConn
           && (maxInboundConns srv <=? inbound))%bool
  then Some PeerConn.DiscTooManyPeers
  else if bool_decide (is_Some (ps !! pc_id c)) then Some PeerConn.DiscAlreadyConnected
  else if bool_decide (pc_id c = localID srv) then Some PeerConn.DiscSelf
  else None.

Definition addPeerChecks (ps : gmap ID connRef) (inbound : Z) (c : peerConn) : option Z :=
  if ((0 <? len (srv_Protocols srv))
      && (Protocols.countMatchingProtocols (srv_Protocols srv) (pc_caps c) =? 0))%bool
  then Some PeerConn.DiscUselessPeer
  else postHandshakeChecks ps inbound c.

(** ** The main loop *)
Definition getConn (r : connRef) : GoM state peerConn := fun s =>
  match conns s !! r with
  | Some c => Done (c, s)
  | None => Panic "nil pointer dereference"
  end.

(** <-srv.addtrusted *)
Definition run_addtrusted (id : ID) : GoM state unit :=
  gmodify (fun s => set_trusted ({[id]} ∪ trusted s) s) ;;
  s ← gget;
  match peers s !! id with
  | Some r => gmodify (set_conns (alter (pc_set trustedConn true) r (conns s)))
  | None => mret tt
  end.

(** <-srv.removetrusted *)
Definition run_removetrusted (id : ID) : GoM state unit :=
  gmodify (fun s => set_trusted (trusted s ∖ {[id]}) s) ;;
  s ← gget;
  match peers s !! id with
  | Some r => gmodify (set_conns (alter (pc_set trustedConn false) r (conns s)))
  | None => mret tt
  end.

(** <-srv.checkpointPostHandshake; the reply goes to [c.cont]. *)
Definition run_postHandshake (r : connRef) : GoM state (option Z) :=
  c ← getConn r;
  s ← gget;
  (if bool_decide (pc_id c ∈ trusted s)
   then gmodify (fun s => set_conns (alter (pc_set trustedConn true) r (conns s)) s)
   else mret tt) ;;
  c ← getConn r;
  s ← gget;
  mret (postHandshakeChecks (peers s) (inboundCount s) c).

(** <-srv.checkpointAddPeer *)
Definition run_addPeer (r : connRef) : GoM state (option Z) :=
  c ← getConn r;
  s ← gget;
  let err := addPeerChecks (peers s) (inboundCount s) c in
  match err with
  | None =>
      gmodify (fun s =>
        mk_state (conns s) (nextConn s) (<[pc_id c := r]> (peers s)) ({[r]} ∪ live s)
          (if pc_is c inboundConn then inboundCount s + 1 else inboundCount s)
          (trusted s) (evAddPeer (pc_conn c) :: toDialer s)) ;;
      mret None
  | Some e => mret (Some e)
  end.

(** <-srv.delpeer *)
Definition run_delpeer (r : connRef) : GoM state unit :=
  c ← getConn r;
  gmodify (fun s =>
    mk_state (conns s) (nextConn s) (delete (pc_id c) (peers s)) (live s ∖ {[r]})
      (if pc_is c inboundConn then inboundCount s - 1 else inboundCount s)
      (trusted s) (evRemPeer (pc_conn c) :: toDialer s)).

(** ** Setting up a connection *)
Definition newConn (flags : Z) (n : Node) : GoM state connRef := fun s =>
  let r := nextConn s in
  Done (r, set_nextConn (S r)
             (set_conns (<[r := mk_peerConn (mk_conn flags n) []]> (conns s)) s)).

(** Everything [setupConn] learns from outside: whether the server runs, the
    dial destination's key, the result of the RLPx handshake (an error, or the
    node of the remote key as [nodeFromConn] builds it), of the protocol
    handshake (an error, or the remote's ID hash and capabilities), and whether
    the server stops at one of the checkpoints. *)
Record handshakes : Type := mk_handshakes {
  running : bool;
  dest_key : bool;
  enc : PeerConn.goErr + Node;
  phs : PeerConn.goErr + (ID * list Protocols.Cap);
  quit1 : bool;
  quit2 : bool;
}.

Definition errServerStopped : PeerConn.goErr := PeerConn.eOther "server stopped".

Definition checkpoint (quit : bool) (stage : GoM state (option Z)) : GoM state (option PeerConn.goErr) :=
  if quit then mret (Some errServerStopped)
  else e ← stage; mret (PeerConn.eDisc <$> e).

Definition set_node (n : Node) (c : peerConn) : peerConn :=
  mk_peerConn (mk_conn (conn_flags (pc_conn c)) n) (pc_caps c).
Definition set_caps (caps : list Protocols.Cap) (c : peerConn) : peerConn :=
  mk_peerConn (pc_conn c) caps.

Definition setupConn (r : connRef) (dialDest : option Node) (h : handshakes)
    : GoM state (option PeerConn.goErr) :=
  if negb (running h) then mret (Some errServerStopped)
  else if (bool_decide (is_Some dialDest) && negb (dest_key h))%bool
  then mret (Some (PeerConn.eOther "dial destination doesn't have a secp256k1 public key"))
  else match enc h with
  | inl e => mret (Some e)
  | inr remote =>
      let n := default remote dialDest in
      gmodify (fun s => set_conns (alter (set_node n) r (conns s)) s) ;;
      e ← checkpoint (quit1 h) (run_postHandshake r);
      match e with
      | Some e => mret (Some e)
      | None =>
          match phs h with
          | inl e => mret (Some e)
          | inr (idhash, caps) =>
              if negb (bool_decide (idhash = node_ID n))
              then mret (Some (PeerConn.eDisc PeerConn.DiscUnexpectedIdentity))
              else
                gmodify (fun s => set_conns (alter (set_caps caps) r (conns s)) s) ;;
                checkpoint (quit2 h) (run_addPeer r)
          end
      end
  end.

(** The flag loop reads [dialDest.ID()] for every verify node, also when
    [dialDest] is nil. *)
Definition verify_flags (dialDest : option Node) (flags : Z) : outcome Z :=
  match VerifyNodes srv, dialDest with
  | [], _ => Done flags
  | _, None => Panic "nil pointer dereference"
  | l, Some d => Done (foldl (fun f n => if bool_decide (node_ID d = n)
                                         then Z.lor f verifyConn else f) flags l)
  end.

Definition SetupConn (flags : Z) (dialDest : option Node) (h : handshakes)
    : GoM state (option PeerConn.goErr) := fun s =>
  match verify_flags dialDest flags with
  | Done flags =>
      (r ← newConn flags (mk_Node "" [] 0); setupConn r dialDest h) s
  | Panic m => Panic m
  | Blocked w => Blocked w
  end.

(** ** Inbound throttling *)
Definition hexdigit (d : Z) : string :=
  match d with
  | 0 => "0" | 1 => "1" | 2 => "2" | 3 => "3" | 4 => "4" | 5 => "5" | 6 => "6" | 7 => "7"
  | 8 => "8" | 9 => "9" | 10 => "a" | 11 => "b" | 12 => "c" | 13 => "d" | 14 => "e" | _ => "f"
  end.

(** Go's net.IP.String: dotted decimal for IPv4, otherwise groups of
    hexadecimal digits with the longest run of zero groups compressed. *)
Definition hex16 (w : Z) : string :=
  let ds := [w / 4096; (w / 256) mod 16; (w / 16) mod 16; w mod 16] in
  let ds := match ds with
            | 0 :: 0 :: 0 :: d => d
            | 0 :: 0 :: d => d
            | 0 :: d => d
            | d => d
            end in
  String.concat "" (hexdigit <$> ds).
Fixpoint zero_run (ws : list Z) : nat :=
  match ws with 0 :: r => S (zero_run r) | _ => O end.
Fixpoint longest_run (fuel i : nat) (ws : list Z) (best : nat * nat) : nat * nat :=
  match fuel with
  | O => best
  | S f =>
      if (8 <=? i)%nat then best
      else
        let n := zero_run (drop i ws) in
        if (snd best <? n)%nat then longest_run f (i + n + 1) ws (i, n)
        else longest_run f (i + 1) ws best
  end.
Definition IP_String (ip : NetUtil.IP) : string :=
  match ip with
  | [] => "<nil>"
  | _ =>
    match NetUtil.To4 ip with
    | Some p4 => String.concat "." (pretty <$> p4)
    | None =>
        if bool_decide (length ip = 16%nat) then
          let ws := (fun i => 256 * nth (2 * i) ip 0 + nth (2 * i + 1) ip 0) <$> seq 0 8 in
          let '(e0, n) := longest_run 8 0 ws (0%nat, 0%nat) in
          if (n <=? 1)%nat then String.concat ":" (hex16 <$> ws)
          else String.append (String.concat ":" (hex16 <$> take e0 ws))
                 (String.append "::" (String.concat ":" (hex16 <$> drop (e0 + n) ws)))
        else String.append "?" (String.concat "" ((fun b => String.append (hexdigit (b / 16)) (hexdigit (b mod 16))) <$> ip))
    end
  end.

Inductive inboundErr : Type := errNotInNetrestrict | errTooManyAttempts.

(** [remoteIP] is [[]] when the address has no IP. *)
Definition checkInboundConn (now : Z) (remoteIP : NetUtil.IP) (inboundHistory : expHeap)
    : option inboundErr * expHeap :=
  if bool_decide (remoteIP = []) then (None, inboundHistory)
  else if match NetRestrict srv with
          | Some l => negb (NetUtil.Netlist_Contains (Some l) remoteIP)
          | None => false
          end then (Some errNotInNetrestrict, inboundHistory)
  else
    let h := (expire now inboundHistory).2 in
    if (negb (NetUtil.IsLAN remoteIP) && contains h (IP_String remoteIP))%bool
    then (Some errTooManyAttempts, h)
    else (None, add h (IP_String remoteIP) (i64 (now + inboundThrottleTime))).
End Server.

(** ** PeersInfo

    The exchange sort by ID; [infos] are the IDs of the gathered records. *)
Fixpoint sort_inner (fuel i j : nat) (l : list string) : list string :=
  match fuel with
  | O => l
  | S f =>
      match l !! i, l !! j with
      | Some a, Some b =>
          sort_inner f i (S j) (if String.ltb b a then swap l i j else l)
      | _, _ => l
      end
  end.
Fixpoint sort_outer (fuel i : nat) (l : list string) : list string :=
  match fuel with
  | O => l
  | S f => sort_outer f (S i) (sort_inner (length l - S i) i (S i) l)
  end.
Definition sort_infos (infos : list string) : list string :=
  sort_outer (length infos) 0 infos.
End P2PServer.
