(* ===== verification/P2PServerProps.v ===== *)
(** * Properties of the p2p server

    The bookkeeping of the main loop (peers, inbound count, and what the dial
    scheduler is told), the admission limits, the handshake pipeline, the
    inbound throttle and the sorting of [PeersInfo]. *)

From stdpp Require Import base gmap sets list strings numbers sorting.
From Stdlib Require Import ZArith Lia.
From S2P Require Import Prelude ExpHeap NetUtil DialScheduler DialSafety DialLoop.
From S2P Require Import Protocols PeerConn P2PServer.

Module P2PServerProps.
Import ExpHeap DialScheduler P2PServer.

(** ** Counting peers *)
Definition cnt (f : peerConn -> bool) (cs : gmap connRef peerConn) (ps : gmap ID connRef) : Z :=
  count_if (fun p => match cs !! p.2 with Some c => f c | None => false end) (map_to_list ps).

Lemma cnt_insert f cs ps id r c :
  ps !! id = None -> cs !! r = Some c ->
  cnt f cs (<[id := r]> ps) = (if f c then 1 else 0) + cnt f cs ps.
Proof.
  intros Hn Hc. unfold cnt. rewrite (count_if_perm _ _ _ (map_to_list_insert ps id r Hn)).
  simpl. by rewrite Hc.
Qed.

Lemma cnt_delete f cs ps id r c :
  ps !! id = Some r -> cs !! r = Some c ->
  cnt f cs (delete id ps) = cnt f cs ps - (if f c then 1 else 0).
Proof.
  intros Hn Hc. unfold cnt. rewrite <- (count_if_perm _ _ _ (map_to_list_delete ps id r Hn)).
  simpl. rewrite Hc. lia.
Qed.

Lemma count_if_ext {A} (p q : A -> bool) l :
  (forall x, x ∈ l -> p x = q x) -> count_if p l = count_if q l.
Proof.
  induction l as [|x l IH]; intros Hx; simpl; [done|].
  rewrite (Hx x), IH; set_solver.
Qed.

Lemma cnt_ext f cs cs' ps :
  (forall id r, ps !! id = Some r -> f <$> (cs' !! r) = f <$> (cs !! r)) ->
  cnt f cs' ps = cnt f cs ps.
Proof.
  intros Hx. unfold cnt. apply count_if_ext. intros [id r] Hin%elem_of_map_to_list. simpl.
  specialize (Hx id r Hin). destruct (cs' !! r), (cs !! r); simpl in *; congruence.
Qed.

Lemma cnt_nonneg f cs ps : 0 <= cnt f cs ps.
Proof. apply count_if_nonneg. Qed.

(** ** Flags *)
Lemma pc_is_set_trusted f val c :
  Z.land trustedConn f = 0 -> Z.land (Z.lnot trustedConn) f = f ->
  pc_is (pc_set trustedConn val c) f = pc_is c f.
Proof.
  intros H1 H2. unfold pc_is, conn_is, pc_set. simpl. do 2 f_equal. destruct val.
  - by rewrite Z.land_lor_distr_l, H1, Z.lor_0_r.
  - by rewrite <- Z.land_assoc, H2.
Qed.

Definition inbound (c : peerConn) : bool := pc_is c inboundConn.
Definition dialed (c : peerConn) : bool := (pc_is c dynDialedConn || pc_is c staticDialedConn)%bool.

Lemma inbound_set_trusted val c : inbound (pc_set trustedConn val c) = inbound c.
Proof. by apply pc_is_set_trusted. Qed.
Lemma dialed_set_trusted val c : dialed (pc_set trustedConn val c) = dialed c.
Proof. unfold dialed. by rewrite !pc_is_set_trusted. Qed.

(** What the dial scheduler's [dialPeers] becomes after the events. *)
Definition dial_balance (evs : list event) : Z := foldr (fun ev a => DialLoop.dial_delta ev + a) 0 evs.

(** ** Steps of the server

    Connections are prepared by [setupConn] before they are launched. *)
Section Server.
Context (srv : Config).

Inductive srv_step (s s' : state) : Prop :=
  | st_new flags n r : Z.land flags trustedConn = 0 -> newConn flags n s = Done (r, s') -> srv_step s s'
  | st_node r n : r ∉ live s -> s' = set_conns (alter (set_node n) r (conns s)) s -> srv_step s s'
  | st_caps r l : r ∉ live s -> s' = set_conns (alter (set_caps l) r (conns s)) s -> srv_step s s'
  | st_addtrusted id : run_addtrusted id s = Done (tt, s') -> srv_step s s'
  | st_removetrusted id : run_removetrusted id s = Done (tt, s') -> srv_step s s'
  | st_post r e : r ∉ live s -> run_postHandshake srv r s = Done (e, s') -> srv_step s s'
  | st_add r e : r ∉ live s -> run_addPeer srv r s = Done (e, s') -> srv_step s s'
  | st_del r : r ∈ live s -> run_delpeer r s = Done (tt, s') -> srv_step s s'.

Definition reach (s : state) : Prop := rtc srv_step (init srv) s.

Record inv (s : state) : Prop := {
  inv_live r : r ∈ live s -> exists c, conns s !! r = Some c /\ peers s !! pc_id c = Some r;
  inv_peers id r : peers s !! id = Some r ->
    r ∈ live s /\ exists c, conns s !! r = Some c /\ pc_id c = id;
  inv_fresh r : (nextConn s <= r)%nat -> conns s !! r = None;
  inv_inbound : inboundCount s = cnt inbound (conns s) (peers s);
  inv_dialed : dial_balance (toDialer s) = cnt dialed (conns s) (peers s);
}.

Lemma inv_init : inv (init srv).
Proof. split; simpl; try done; intros r Hr; set_solver. Qed.

(** Updating a connection keeps the invariant if it is not a peer's, or if the
    update keeps the identity and the direction of the connection. *)
Lemma inv_alter (f : peerConn -> peerConn) r s :
  inv s ->
  (r ∈ live s -> forall c, pc_id (f c) = pc_id c /\ inbound (f c) = inbound c /\ dialed (f c) = dialed c) ->
  inv (set_conns (alter f r (conns s)) s).
Proof.
  intros Hs Hf.
  assert (Hlk : forall r', r' ∈ live s -> forall c, conns s !! r' = Some c ->
    exists c', alter f r (conns s) !! r' = Some c' /\ pc_id c' = pc_id c
      /\ inbound c' = inbound c /\ dialed c' = dialed c).
  { intros r' Hr' c Hc. destruct (decide (r' = r)) as [->|Hne].
    - rewrite lookup_alter_eq, Hc. simpl. eexists. split; [done|]. by apply Hf.
    - rewrite lookup_alter_ne by done. eauto. }
  assert (Hcnt : forall g : peerConn -> bool,
    (r ∈ live s -> forall c, g (f c) = g c) ->
    cnt g (alter f r (conns s)) (peers s) = cnt g (conns s) (peers s)).
  { intros g Hg. apply cnt_ext. intros id r' Hid.
    destruct (inv_peers s Hs id r' Hid) as (Hr' & c & Hc & _).
    destruct (decide (r' = r)) as [->|Hne].
    - rewrite lookup_alter_eq, Hc. simpl. f_equal. by apply Hg.
    - by rewrite lookup_alter_ne by done. }
  split; simpl.
  - intros r' Hr'. destruct (inv_live s Hs r' Hr') as (c & Hc & Hp).
    destruct (Hlk r' Hr' c Hc) as (c' & ? & Hid & _). exists c'. by rewrite Hid.
  - intros id r' Hid. destruct (inv_peers s Hs id r' Hid) as (Hr' & c & Hc & Hcid).
    split; [done|]. destruct (Hlk r' Hr' c Hc) as (c' & ? & Hid' & _). exists c'. by rewrite Hid'.
  - intros r' Hr'. pose proof (inv_fresh s Hs r' Hr') as Hn.
    destruct (decide (r' = r)) as [->|]; [by rewrite lookup_alter_eq, Hn|by rewrite lookup_alter_ne].
  - rewrite Hcnt; [apply Hs|]. intros Hr c. by apply Hf.
  - rewrite Hcnt; [apply Hs|]. intros Hr c. by apply Hf.
Qed.

Lemma inv_alter_trusted val r s :
  inv s -> inv (set_conns (alter (pc_set trustedConn val) r (conns s)) s).
Proof.
  intros Hs. apply inv_alter; [done|]. intros _ c.
  split_and!; [done|apply inbound_set_trusted|apply dialed_set_trusted].
Qed.

Lemma inv_set_trusted v s : inv s -> inv (set_trusted v s).
Proof. intros Hs. split; simpl; apply Hs. Qed.

Lemma inv_new flags n s :
  inv s -> inv (set_nextConn (S (nextConn s))
                 (set_conns (<[nextConn s := mk_peerConn (mk_conn flags n) []]> (conns s)) s)).
Proof.
  intros Hs. pose proof (inv_fresh s Hs _ (le_n _)) as Hn.
  assert (Hlk : forall r c, conns s !! r = Some c ->
    <[nextConn s := mk_peerConn (mk_conn flags n) []]> (conns s) !! r = Some c).
  { intros r c Hc. rewrite lookup_insert_ne; [done|]. congruence. }
  assert (Hcnt : forall g, cnt g (<[nextConn s := mk_peerConn (mk_conn flags n) []]> (conns s)) (peers s)
    = cnt g (conns s) (peers s)).
  { intros g. apply cnt_ext. intros id r Hid.
    destruct (inv_peers s Hs id r Hid) as (_ & c & Hc & _). by rewrite (Hlk r c Hc), Hc. }
  split; simpl.
  - intros r Hr. destruct (inv_live s Hs r Hr) as (c & Hc & ?). eauto.
  - intros id r Hid. destruct (inv_peers s Hs id r Hid) as (? & c & Hc & ?). eauto.
  - intros r Hr. rewrite lookup_insert_ne by lia. apply (inv_fresh s Hs). lia.
  - rewrite Hcnt. apply Hs.
  - rewrite Hcnt. apply Hs.
Qed.

Lemma postHandshakeChecks_None ps n c :
  postHandshakeChecks srv ps n c = None <->
  (pc_is c trustedConn = true \/
     Z.of_nat (size ps) < MaxPeers srv /\ (inbound c = true -> n < maxInboundConns srv))
  /\ ps !! pc_id c = None /\ pc_id c <> localID srv.
Proof.
  unfold postHandshakeChecks, inbound.
  destruct (pc_is c trustedConn); simpl.
  - case_bool_decide as H1; [|case_bool_decide as H2].
    + split; [done|]. intros (_ & Hn & _). rewrite Hn in H1. by destruct H1.
    + naive_solver.
    + apply eq_None_not_Some in H1. naive_solver.
  - destruct (Z.leb_spec (MaxPeers srv) (Z.of_nat (size ps))); [naive_solver lia|].
    destruct (pc_is c inboundConn); simpl;
      [destruct (Z.leb_spec (maxInboundConns srv) n); [naive_solver lia|]|];
      (case_bool_decide as H1; [|case_bool_decide as H2];
       [split; [done|]; intros (_ & Hn & _); rewrite Hn in H1; by destruct H1
       |naive_solver|apply eq_None_not_Some in H1; naive_solver]).
Qed.

Definition after_addPeer (r : connRef) (c : peerConn) (s : state) : state :=
  mk_state (conns s) (nextConn s) (<[pc_id c := r]> (peers s)) ({[r]} ∪ live s)
    (if pc_is c inboundConn then inboundCount s + 1 else inboundCount s)
    (trusted s) (evAddPeer (pc_conn c) :: toDialer s).

Lemma run_addPeer_cases r s e s' :
  run_addPeer srv r s = Done (e, s') ->
  exists c, conns s !! r = Some c
    /\ ((addPeerChecks srv (peers s) (inboundCount s) c = None /\ e = None /\ s' = after_addPeer r c s)
        \/ (addPeerChecks srv (peers s) (inboundCount s) c = e /\ e <> None /\ s' = s)).
Proof.
  unfold run_addPeer, getConn, gget, gmodify, mbind, GoM_bind, mret, GoM_ret.
  destruct (conns s !! r) as [c|] eqn:Hc; [|done].
  destruct (addPeerChecks srv (peers s) (inboundCount s) c) as [x|] eqn:Hx;
    intros [= <- <-]; exists c; naive_solver.
Qed.

Lemma addPeerChecks_None ps n c :
  addPeerChecks srv ps n c = None -> postHandshakeChecks srv ps n c = None.
Proof. unfold addPeerChecks. by destruct (_ && _)%bool. Qed.

Lemma inv_add r c s :
  inv s -> r ∉ live s -> conns s !! r = Some c ->
  addPeerChecks srv (peers s) (inboundCount s) c = None -> inv (after_addPeer r c s).
Proof.
  intros Hs Hr Hc (_ & Hn & _)%addPeerChecks_None%postHandshakeChecks_None.
  split; simpl.
  - intros r' [->%elem_of_singleton|Hr']%elem_of_union.
    + exists c. split; [done|]. apply lookup_insert_eq.
    + destruct (inv_live s Hs r' Hr') as (c' & Hc' & Hp). exists c'. split; [done|].
      rewrite lookup_insert_ne; [done|]. congruence.
  - intros id r' [[<- <-]|[_ Hid]]%lookup_insert_Some; [by set_solver|].
    destruct (inv_peers s Hs id r' Hid) as (? & ?). set_solver.
  - apply Hs.
  - rewrite (cnt_insert _ _ _ _ _ c) by done. rewrite (inv_inbound s Hs).
    change (pc_is c inboundConn) with (inbound c). destruct (inbound c); lia.
  - rewrite (cnt_insert _ _ _ _ _ c) by done. rewrite (inv_dialed s Hs). done.
Qed.

Lemma inv_del r s s' :
  inv s -> r ∈ live s -> run_delpeer r s = Done (tt, s') -> inv s'.
Proof.
  intros Hs Hr. destruct (inv_live s Hs r Hr) as (c & Hc & Hp).
  unfold run_delpeer, getConn, gmodify, mbind, GoM_bind. rewrite Hc. intros [= <-].
  split; simpl.
  - intros r' [Hr' Hne]%elem_of_difference. destruct (inv_live s Hs r' Hr') as (c' & Hc' & Hp').
    exists c'. split; [done|]. rewrite lookup_delete_ne; [done|]. intros Heq.
    rewrite Heq in Hp. set_solver.
  - intros id r' [Hne Hid]%lookup_delete_Some.
    destruct (inv_peers s Hs id r' Hid) as (Hr' & c' & Hc' & Hid').
    split; [|by eauto]. apply elem_of_difference. split; [done|].
    intros ->%elem_of_singleton. congruence.
  - apply Hs.
  - rewrite (cnt_delete _ _ _ _ r c) by done. rewrite (inv_inbound s Hs).
    change (pc_is c inboundConn) with (inbound c). destruct (inbound c); lia.
  - rewrite (cnt_delete _ _ _ _ r c) by done. rewrite (inv_dialed s Hs).
    change (conn_is (pc_conn c) dynDialedConn || conn_is (pc_conn c) staticDialedConn)%bool
      with (dialed c). destruct (dialed c); lia.
Qed.

Lemma inv_step s s' : srv_step s s' -> inv s -> inv s'.
Proof.
  intros [flags n r _ E|r n Hr ->|r l Hr ->|id E|id E|r e Hr E|r e Hr E|r Hr E] Hs.
  - unfold newConn in E. injection E as <- <-. by apply inv_new.
  - by apply inv_alter.
  - by apply inv_alter.
  - unfold run_addtrusted, gmodify, gget, mbind, GoM_bind, mret, GoM_ret in E. simpl in E.
    pose proof (inv_set_trusted ({[id]} ∪ trusted s) s Hs) as Ht.
    destruct (peers s !! id) as [r|]; injection E as <-; [|done].
    exact (inv_alter_trusted true r _ Ht).
  - unfold run_removetrusted, gmodify, gget, mbind, GoM_bind, mret, GoM_ret in E. simpl in E.
    pose proof (inv_set_trusted (trusted s ∖ {[id]}) s Hs) as Ht.
    destruct (peers s !! id) as [r|]; injection E as <-; [|done].
    exact (inv_alter_trusted false r _ Ht).
  - unfold run_postHandshake, getConn, gmodify, gget, mbind, GoM_bind, mret, GoM_ret in E.
    destruct (conns s !! r) as [c|] eqn:Hc; [|done].
    case_bool_decide; simpl in E.
    + rewrite lookup_alter_eq, Hc in E. injection E as _ <-. by apply inv_alter_trusted.
    + rewrite Hc in E. by injection E as _ <-.
  - apply run_addPeer_cases in E as (c & Hc & [(Hx & -> & ->)|(_ & _ & ->)]); [|done].
    by apply inv_add.
  - by eapply inv_del.
Qed.

Lemma inv_reach s : reach s -> inv s.
Proof. apply invariant_reach; [apply inv_init|]. eauto using inv_step. Qed.

(** The dial scheduler after the events [evs], latest first; the server's
    events are interleaved with all the others. *)
Inductive served (cfg : dialConfig) : list event -> sched -> Prop :=
  | served_init now : served cfg [] (newDialScheduler now)
  | served_step evs d now rnd ev slots d1 d' :
      served cfg evs d -> loop_head cfg now rnd d = Done (slots, d1) ->
      DialLoop.enabled now slots ev d1 -> iterate cfg now rnd ev d = Done (tt, d') ->
      served cfg (ev :: evs) d'.

Lemma served_balance cfg evs d :
  served cfg evs d -> DialSafety.wf d /\ dialPeers d = dial_balance evs.
Proof.
  induction 1 as [now|evs d now rnd ev slots d1 d' _ [Hw Hd] Eh Hen E].
  - split; [apply DialSafety.wf_init|done].
  - destruct (DialLoop.iterate_ok _ _ _ _ _ _ _ Hw Eh Hen) as (d2 & E2 & Hw' & _ & _ & Hdp).
    rewrite E in E2. simplify_eq. split; [done|]. simpl. lia.
Qed.

Definition from_server (ev : event) : bool :=
  match ev with evAddPeer _ | evRemPeer _ => true | _ => false end.

Lemma balance_from_server evs :
  dial_balance evs = dial_balance (List.filter from_server evs).
Proof. induction evs as [|[] evs IH]; simpl; lia. Qed.

(** C2.  Bookkeeping of the main loop: the peer map and the launched peers
    correspond one to one, [inboundCount] is the number of inbound peers (so
    never negative), and a dial scheduler that has processed what the server
    sent it counts exactly the dialed peers in [dialPeers]. *)
Theorem server_bookkeeping s :
  reach s ->
  (forall r, r ∈ live s <-> exists c, conns s !! r = Some c /\ peers s !! pc_id c = Some r)
  /\ inboundCount s = cnt inbound (conns s) (peers s)
  /\ 0 <= inboundCount s
  /\ (forall cfg evs d, served cfg evs d -> List.filter from_server evs = toDialer s ->
        dialPeers d = cnt dialed (conns s) (peers s)).
Proof.
  intros Hs%inv_reach. split_and!.
  - intros r. split; [apply (inv_live s Hs)|]. intros (c & _ & Hp).
    exact (proj1 (inv_peers s Hs _ _ Hp)).
  - apply Hs.
  - rewrite (inv_inbound s Hs). apply cnt_nonneg.
  - intros cfg evs d [_ ->]%served_balance Hf.
    rewrite balance_from_server, Hf. apply Hs.
Qed.

(** ** Admission *)
Lemma maxDialedConns_bounds :
  0 < MaxPeers srv -> 0 <= DialRatio srv -> 0 <= maxDialedConns srv <= MaxPeers srv.
Proof.
  intros Hm Hr. unfold maxDialedConns.
  destruct (NoDial srv); simpl; [lia|]. destruct (Z.eqb_spec (MaxPeers srv) 0); [lia|].
  assert (forall d, 0 < d -> 0 <= Z.quot (MaxPeers srv) d <= MaxPeers srv) as Hq.
  { intros d Hd. rewrite Z.quot_div_nonneg by lia. split; [apply Z.div_pos; lia|].
    apply Z.div_le_upper_bound; nia. }
  destruct (Z.eqb_spec (DialRatio srv) 0) as [_|Hne].
  - specialize (Hq defaultDialRatio ltac:(done)). destruct (_ =? 0) eqn:E; bools; lia.
  - specialize (Hq (DialRatio srv) ltac:(lia)). destruct (_ =? 0) eqn:E; bools; lia.
Qed.

(** Runs in which no node is ever trusted. *)
Definition quiet_step (s s' : state) : Prop := srv_step s s' /\ trusted s' = ∅.

Record limits (s : state) : Prop := {
  lim_trusted : trusted s = ∅;
  lim_flags r c : conns s !! r = Some c -> pc_is c trustedConn = false;
  lim_peers : Z.of_nat (size (peers s)) <= MaxPeers srv;
  lim_inbound : inboundCount s <= maxInboundConns srv;
}.

Lemma lim_alter (f : peerConn -> peerConn) r s :
  limits s -> (forall c, pc_is c trustedConn = false -> pc_is (f c) trustedConn = false) ->
  limits (set_conns (alter f r (conns s)) s).
Proof.
  intros Hs Hf. split; simpl; try apply Hs. intros r' c.
  destruct (decide (r' = r)) as [->|Hne].
  - rewrite lookup_alter_eq. destruct (conns s !! r) as [c0|] eqn:Hc; simpl; [|done].
    intros [= <-]. apply Hf, (lim_flags s Hs _ _ Hc).
  - rewrite lookup_alter_ne by done. apply (lim_flags s Hs).
Qed.

Lemma pc_set_trusted_false c :
  pc_is (pc_set trustedConn false c) trustedConn = false.
Proof.
  unfold pc_is, conn_is, pc_set. simpl.
  by rewrite <- Z.land_assoc, (Z.land_comm (Z.lnot _)), Z.land_lnot_diag, Z.land_0_r.
Qed.

Lemma lim_add r c s :
  limits s -> conns s !! r = Some c ->
  addPeerChecks srv (peers s) (inboundCount s) c = None -> limits (after_addPeer r c s).
Proof.
  intros Hs Hc (Hlim & Hn & _)%addPeerChecks_None%postHandshakeChecks_None.
  rewrite (lim_flags s Hs _ _ Hc) in Hlim. destruct Hlim as [|[Hp Hi]]; [done|].
  split; simpl; try apply Hs.
  - rewrite map_size_insert_None by done. lia.
  - unfold inbound in Hi. destruct (pc_is c inboundConn); [specialize (Hi eq_refl); lia|apply Hs].
Qed.

Lemma lim_step s s' : quiet_step s s' -> limits s -> limits s'.
Proof.
  intros [Hst Ht] Hs.
  destruct Hst as [flags n r Hfl E|r n Hr ->|r l Hr ->|id E|id E|r e Hr E|r e Hr E|r Hr E].
  - unfold newConn in E. injection E as <- <-. split; simpl; try apply Hs.
    intros r c [[<- <-]|[_ Hc]]%lookup_insert_Some; [|by apply (lim_flags s Hs _ _ Hc)].
    unfold pc_is, conn_is. simpl. by rewrite Hfl.
  - by apply lim_alter.
  - by apply lim_alter.
  - unfold run_addtrusted, gmodify, gget, mbind, GoM_bind, mret, GoM_ret in E. simpl in E.
    destruct (peers s !! id); injection E as <-; simpl in Ht; set_solver.
  - unfold run_removetrusted, gmodify, gget, mbind, GoM_bind, mret, GoM_ret in E. simpl in E.
    assert (limits (set_trusted (trusted s ∖ {[id]}) s)) as Hs1.
    { split; simpl; try apply Hs. rewrite (lim_trusted s Hs). set_solver. }
    destruct (peers s !! id) as [r|]; injection E as <-; [|done].
    apply (lim_alter _ r _ Hs1). intros c _. apply pc_set_trusted_false.
  - unfold run_postHandshake, getConn, gmodify, gget, mbind, GoM_bind, mret, GoM_ret in E.
    destruct (conns s !! r) as [c|] eqn:Hc; [|done].
    rewrite (lim_trusted s Hs), bool_decide_eq_false_2 in E by set_solver.
    rewrite Hc in E. by injection E as _ <-.
  - apply run_addPeer_cases in E as (c & Hc & [(Hx & -> & ->)|(_ & _ & ->)]); [|done].
    by apply lim_add.
  - unfold run_delpeer, getConn, gmodify, mbind, GoM_bind in E.
    destruct (conns s !! r) as [c|]; [|done]. injection E as <-. split; simpl; try apply Hs.
    + pose proof (lim_peers s Hs). rewrite map_size_delete.
      destruct (peers s !! pc_id c); simpl; lia.
    + pose proof (lim_inbound s Hs). destruct (pc_is c inboundConn); lia.
Qed.

(** Admission limits: when no node is trusted, the server never has more
    than [MaxPeers] peers, never more inbound peers than [maxInboundConns],
    and the two limits leave room for at least one dialed peer if dialing is
    enabled. *)
Theorem peer_limits s :
  TrustedNodes srv = [] -> 0 < MaxPeers srv -> 0 <= DialRatio srv ->
  rtc quiet_step (init srv) s ->
  Z.of_nat (size (peers s)) <= MaxPeers srv
  /\ cnt inbound (conns s) (peers s) <= maxInboundConns srv
  /\ 0 <= maxInboundConns srv <= MaxPeers srv
  /\ (NoDial srv = false -> maxInboundConns srv < MaxPeers srv).
Proof.
  intros Htn Hm Hd Hr. pose proof (maxDialedConns_bounds Hm Hd) as Hb.
  assert (limits (init srv)) as Hi.
  { unfold init. rewrite Htn. split; simpl; [done|done|rewrite map_size_empty|unfold maxInboundConns]; lia. }
  assert (limits s /\ inv s) as [Hl Hv].
  { pose proof inv_init as Hv. revert Hi Hv. clear -Hr.
    induction Hr as [|a b c Hab _ IH]; [done|]. intros Ha Hv.
    apply IH; [by eapply lim_step|destruct Hab; by eapply inv_step]. }
  unfold maxInboundConns in *. split_and!.
  - apply Hl.
  - rewrite <- (inv_inbound s Hv). apply Hl.
  - lia.
  - lia.
  - intros Hnd. unfold maxDialedConns in *. rewrite Hnd in *. simpl in *.
    destruct (Z.eqb_spec (MaxPeers srv) 0); [lia|].
    destruct ((if DialRatio srv =? 0 then _ else _) =? 0) eqn:E; bools; lia.
Qed.

(** ** Setting up a connection *)
Definition same_peers (s s' : state) : Prop :=
  peers s' = peers s /\ live s' = live s /\ inboundCount s' = inboundCount s
  /\ toDialer s' = toDialer s.

Lemma run_postHandshake_ok r c s :
  conns s !! r = Some c ->
  exists e s' c', run_postHandshake srv r s = Done (e, s') /\ same_peers s s'
    /\ conns s' !! r = Some c' /\ conn_node (pc_conn c') = conn_node (pc_conn c).
Proof.
  intros Hc. unfold run_postHandshake, getConn, gmodify, gget, mbind, GoM_bind, mret, GoM_ret.
  rewrite Hc. case_bool_decide; simpl.
  - rewrite lookup_alter_eq, Hc. simpl. eexists _, _, _. split; [done|]. split; [done|].
    simpl. rewrite lookup_alter_eq, Hc. done.
  - rewrite Hc. by eexists _, s, c.
Qed.

Lemma run_addPeer_ok r c s :
  conns s !! r = Some c ->
  (run_addPeer srv r s = Done (None, after_addPeer r c s)
     /\ peers s !! pc_id c = None /\ pc_id c <> localID srv)
  \/ (exists e, run_addPeer srv r s = Done (Some e, s)).
Proof.
  intros Hc. unfold run_addPeer, getConn, gget, gmodify, mbind, GoM_bind, mret, GoM_ret.
  rewrite Hc. destruct (addPeerChecks srv (peers s) (inboundCount s) c) as [e|] eqn:E; [by eauto|].
  left. apply addPeerChecks_None, postHandshakeChecks_None in E as (_ & ? & ?). done.
Qed.

(** [setupConn] always returns.  Without an error, the server was running,
    both handshakes succeeded, the identity announced in the protocol
    handshake is that of the connection's node (for a dialed connection, the
    node that was dialed), the node was not connected and is not this node,
    and now its peer is this connection; with an error the set of peers is
    unchanged. *)
Theorem setupConn_spec r c0 dialDest h s :
  conns s !! r = Some c0 ->
  exists e s', setupConn srv r dialDest h s = Done (e, s') /\
    match e with
    | None => running h = true /\ exists remote caps,
        enc h = inr remote /\ let n := default remote dialDest in
        phs h = inr (node_ID n, caps) /\ peers s !! node_ID n = None
        /\ node_ID n <> localID srv /\ peers s' = <[node_ID n := r]> (peers s)
        /\ live s' = {[r]} ∪ live s
    | Some _ => same_peers s s'
    end.
Proof.
  intros Hc. unfold setupConn.
  destruct (running h); [|by eexists _, s]. simpl.
  destruct (bool_decide _ && negb _)%bool; [by eexists _, s|].
  destruct (enc h) as [e|remote]; [by eexists _, s|].
  set (n := default remote dialDest). set (s1 := set_conns (alter (set_node n) r (conns s)) s).
  assert (Hc1 : conns s1 !! r = Some (set_node n c0)).
  { unfold s1. simpl. by rewrite lookup_alter_eq, Hc. }
  unfold mbind, GoM_bind, gmodify. fold s1. unfold checkpoint.
  destruct (quit1 h); [by eexists _, s1|].
  destruct (run_postHandshake_ok r _ s1 Hc1) as (e & s2 & c2 & E & Hsame & Hc2 & Hn2).
  unfold mbind, GoM_bind, mret, GoM_ret. rewrite E.
  destruct e as [e|]; [by eexists _, s2|]. simpl.
  destruct (phs h) as [e|[idhash caps]] eqn:Ep; [by eexists _, s2|].
  case_bool_decide as Hid; simpl; [|by eexists _, s2]. subst idhash.
  set (s3 := set_conns (alter (set_caps caps) r (conns s2)) s2).
  assert (Hc3 : conns s3 !! r = Some (set_caps caps c2)).
  { unfold s3. simpl. by rewrite lookup_alter_eq, Hc2. }
  destruct (quit2 h); [by eexists _, s3|].
  assert (Hpid : pc_id (set_caps caps c2) = node_ID n) by (unfold pc_id; simpl; by rewrite Hn2).
  destruct Hsame as (Hp & Hl & Hi & Ht).
  destruct (run_addPeer_ok r _ s3 Hc3) as [(E3 & Hnone & Hself)|[e3 E3]]; rewrite E3; simpl.
  - eexists _, _. split; [done|]. split; [done|]. exists remote, caps. fold n.
    rewrite Hpid in *.
    change (peers s3) with (peers s2) in Hnone. rewrite Hp in Hnone.
    split_and!; [done..|exact Hnone|done| |]; simpl.
    + unfold after_addPeer. cbn [peers]. rewrite Hpid. simpl. by rewrite Hp.
    + by rewrite Hl.
  - by eexists _, s3.
Qed.

(** With verify nodes configured, every inbound connection makes
    [SetupConn] dereference the nil [dialDest]: the goroutine panics before
    the handshake. *)
Theorem SetupConn_inbound_panic flags h s :
  VerifyNodes srv <> [] -> SetupConn srv flags None h s = Panic "nil pointer dereference".
Proof. intros Hv. unfold SetupConn, verify_flags. by destruct (VerifyNodes srv). Qed.

(** ** The inbound throttle *)
Lemma expire_keeps now h x :
  ExpHeap.wf h -> x ∈ h -> now <= exp x -> x ∈ (expire now h).2 /\ ExpHeap.wf (expire now h).2.
Proof.
  intros Hw Hx Hle. destruct (expire now h) as [out h'] eqn:E.
  destruct (expire_loop_spec _ _ _ _ _ Hw (le_n _) E) as (Hw' & Hp & Ho & _). simpl.
  split; [|done]. rewrite Hp in Hx. apply elem_of_app in Hx as [Hx|]; [|done].
  apply list_elem_of_In in Hx. rewrite List.Forall_forall in Ho. specialize (Ho x Hx). lia.
Qed.

Lemma expire_wf now h : ExpHeap.wf h -> ExpHeap.wf (expire now h).2.
Proof.
  intros Hw. destruct (expire now h) as [out h'] eqn:E.
  by destruct (expire_loop_spec _ _ _ _ _ Hw (le_n _) E) as (Hw' & _).
Qed.

(** Entries stay until their time. *)
Lemma checkInboundConn_keeps now ip h x :
  ExpHeap.wf h -> x ∈ h -> now <= exp x ->
  x ∈ (checkInboundConn srv now ip h).2 /\ ExpHeap.wf (checkInboundConn srv now ip h).2.
Proof.
  intros Hw Hx Hle. unfold checkInboundConn. case_bool_decide; [done|].
  destruct (match NetRestrict srv with Some l => _ | None => _ end); [done|].
  destruct (expire_keeps now h x Hw Hx Hle) as [Hx' Hw'].
  destruct (_ && _)%bool; [done|]. simpl. split; [|by apply add_wf].
  unfold add. rewrite heap_push_perm. set_solver.
Qed.

Definition attempts (l : list (Z * NetUtil.IP)) (h : expHeap) : expHeap :=
  foldl (fun h a => (checkInboundConn srv a.1 a.2 h).2) h l.

Lemma attempts_keep l h x :
  ExpHeap.wf h -> x ∈ h -> Forall (fun a => a.1 <= exp x) l ->
  x ∈ attempts l h /\ ExpHeap.wf (attempts l h).
Proof.
  intros Hw Hx Hl. revert h Hw Hx. induction Hl as [|a l Ha _ IH]; intros h Hw Hx; [done|].
  destruct (checkInboundConn_keeps a.1 a.2 h x Hw Hx Ha). by apply IH.
Qed.

(** Inbound throttling: after a connection from an Internet address is
    accepted, every further one from that address is rejected for
    [inboundThrottleTime], whatever other attempts happen in between; an
    address without a pending entry is accepted. *)
Theorem inbound_throttle now ip h :
  ExpHeap.wf h -> ip <> [] -> NetUtil.IsLAN ip = false -> is_i64 (now + inboundThrottleTime) ->
  match NetRestrict srv with
  | Some l => NetUtil.Netlist_Contains (Some l) ip = true | None => True end ->
  (forall h1 l now', checkInboundConn srv now ip h = (None, h1) ->
     Forall (fun a => a.1 <= now + inboundThrottleTime) l ->
     now' <= now + inboundThrottleTime ->
     (checkInboundConn srv now' ip (attempts l h1)).1 = Some errTooManyAttempts)
  /\ ((forall x, x ∈ h -> item x = IP_String ip -> exp x < now) ->
      (checkInboundConn srv now ip h).1 = None).
Proof.
  intros Hw Hip Hlan Hi Hnr.
  assert (Hrun : forall t g, checkInboundConn srv t ip g =
    let h := (expire t g).2 in
    if contains h (IP_String ip) then (Some errTooManyAttempts, h)
    else (None, add h (IP_String ip) (i64 (t + inboundThrottleTime)))).
  { intros t g. unfold checkInboundConn. rewrite bool_decide_eq_false_2 by done.
    rewrite Hlan. destruct (NetRestrict srv); [by rewrite Hnr|done]. }
  split.
  - intros h1 l now' Hacc Hl Hle. rewrite Hrun in Hacc. simpl in Hacc.
    destruct (contains (expire now h).2 (IP_String ip)); [done|]. injection Hacc as <-.
    rewrite (i64_small _ Hi) in *. set (x := mk_expItem (IP_String ip) (now + inboundThrottleTime)).
    destruct (attempts_keep l (add (expire now h).2 (IP_String ip) (now + inboundThrottleTime)) x)
      as [Hx Hw']; [by apply add_wf, expire_wf| |done|].
    { unfold add. rewrite heap_push_perm. set_solver. }
    rewrite Hrun. simpl.
    destruct (expire_keeps now' _ x Hw' Hx) as [Hx' _]; [done|].
    assert (contains (expire now' (attempts l (add (expire now h).2 (IP_String ip)
              (now + inboundThrottleTime)))).2 (IP_String ip) = true) as ->; [|done].
    apply contains_elem. by exists (now + inboundThrottleTime).
  - intros Hold. rewrite Hrun. simpl.
    destruct (contains (expire now h).2 (IP_String ip)) eqn:E; [|done].
    apply contains_elem in E as [e He]. destruct (expire now h) as [out h'] eqn:Ex.
    destruct (expire_loop_spec _ _ _ _ _ Hw (le_n _) Ex) as (_ & Hp & _ & Hk).
    simpl in He. rewrite List.Forall_forall in Hk. apply list_elem_of_In in He as Hin.
    specialize (Hk _ Hin). simpl in Hk.
    assert (mk_expItem (IP_String ip) e ∈ h) as Hx by (rewrite Hp; set_solver).
    specialize (Hold _ Hx eq_refl). simpl in Hold. lia.
Qed.
End Server.

(** ** Sorting the peer infos *)
Lemma ltb_le a b : String.ltb b a = false -> String.le a b.
Proof.
  unfold String.ltb, String.le, String.leb. rewrite (String.compare_antisym b a).
  by destruct (String.compare a b).
Qed.
Lemma ltb_true_le a b : String.ltb b a = true -> String.le b a.
Proof. unfold String.ltb, String.le, String.leb. by destruct (String.compare b a). Qed.

(** After the inner loop, position [i] holds the least of the rest. *)
Definition least_at (i j : nat) (l : list string) : Prop :=
  forall k x y, (i < k < j)%nat -> l !! i = Some x -> l !! k = Some y -> String.le x y.

Lemma sort_inner_spec fuel i j l :
  (i < j)%nat -> (j + fuel)%nat = length l -> least_at i j l ->
  let l' := sort_inner fuel i j l in
  l' ≡ₚ l /\ (forall k, (k < i)%nat -> l' !! k = l !! k) /\ least_at i (length l) l'.
Proof.
  revert j l. induction fuel as [|f IH]; intros j l Hij Hlen Hleast; simpl.
  { split_and!; [done..|]. by replace (length l) with j by lia. }
  destruct (lookup_lt_is_Some_2 l i) as [a Ha]; [lia|].
  destruct (lookup_lt_is_Some_2 l j) as [b Hb]; [lia|]. rewrite Ha, Hb.
  set (l1 := if String.ltb b a then swap l i j else l).
  assert (Hp : l1 ≡ₚ l) by (unfold l1; destruct (String.ltb b a); [apply swap_perm|done]).
  pose proof (Permutation_length Hp) as Hl1.
  assert (Hlt : forall k, (k < i)%nat -> l1 !! k = l !! k).
  { intros k Hk. unfold l1. destruct (String.ltb b a); [|done]. apply swap_lookup_ne; lia. }
  assert (Hleast1 : least_at i (S j) l1).
  { intros k x y Hk Hx Hy. unfold l1 in *. destruct (String.ltb b a) eqn:E.
    - unfold swap in Hx, Hy. rewrite Ha, Hb in Hx, Hy.
      rewrite list_lookup_insert_eq in Hx by (rewrite length_insert; lia).
      rewrite list_lookup_insert_ne in Hy by lia. simplify_eq.
      destruct (decide (k = j)) as [->|].
      + rewrite list_lookup_insert_eq in Hy by lia. simplify_eq. by apply ltb_true_le.
      + rewrite list_lookup_insert_ne in Hy by lia.
        transitivity a; [by apply ltb_true_le|]. apply (Hleast k); [lia|done..].
    - simplify_eq. destruct (decide (k = j)) as [->|]; [|apply (Hleast k); [lia|done..]].
      simplify_eq. by apply ltb_le. }
  destruct (IH (S j) l1) as (Hp' & Hk' & Hl'); [lia|lia|done|].
  rewrite <- Hl1. split_and!; [by rewrite Hp'| |done].
  intros k Hk. by rewrite Hk', Hlt.
Qed.

(** With the first [i] entries in place, the others are permuted. *)
Lemma tail_lookup (l l' : list string) i k' y :
  l' ≡ₚ l -> (forall k, (k < i)%nat -> l' !! k = l !! k) -> l' !! k' = Some y ->
  (i <= length l)%nat ->
  exists m, l !! m = Some y /\ if decide (k' < i)%nat then m = k' else (i <= m)%nat.
Proof.
  intros Hp Hk Hy Hi. case_decide as Hlt; [exists k'; by rewrite <- Hk|].
  assert (Ht : take i l' = take i l).
  { apply list_eq. intros k. destruct (decide (k < i)%nat).
    - rewrite !lookup_take_lt by done. auto.
    - by rewrite !lookup_take_ge by lia. }
  assert (Hd : drop i l' ≡ₚ drop i l).
  { apply (Permutation_app_inv_l (take i l)). rewrite <- Ht at 1. by rewrite !take_drop. }
  assert (y ∈ drop i l) as [m Hm]%list_elem_of_lookup.
  { rewrite <- Hd. apply (list_elem_of_lookup_2 _ (k' - i)). rewrite lookup_drop.
    by replace (i + (k' - i))%nat with k' by lia. }
  rewrite lookup_drop in Hm. exists (i + m)%nat. split; [done|lia].
Qed.

Lemma sort_outer_spec fuel i l :
  (i + fuel)%nat = length l -> (forall k, (k < i)%nat -> least_at k (length l) l) ->
  let l' := sort_outer fuel i l in
  l' ≡ₚ l /\ forall k, least_at k (length l) l'.
Proof.
  revert i l. induction fuel as [|f IH]; intros i l Hlen Hdone; simpl.
  { split; [done|]. intros k. destruct (decide (k < i)%nat); [auto|].
    intros k' x y Hk Hx Hy. apply lookup_lt_Some in Hy. lia. }
  destruct (sort_inner_spec (length l - S i) i (S i) l) as (Hp & Hk & Hl); [lia|lia| |].
  { intros k x y Hk. lia. }
  pose proof (Permutation_length Hp) as Hpl.
  destruct (IH (S i) (sort_inner (length l - S i) i (S i) l)) as [Hp' Hl']; [lia| |].
  - intros k Hki. rewrite Hpl. destruct (decide (k = i)) as [->|]; [done|].
    intros k' x y Hk' Hx Hy. rewrite Hk in Hx by lia.
    destruct (tail_lookup _ _ i k' y Hp Hk Hy) as (m & Hy' & Hm); [lia|].
    apply (Hdone k) with m; [lia| |done|done].
    pose proof (lookup_lt_Some _ _ _ Hy'). destruct (decide (k' < i)%nat); lia.
  - rewrite Hpl in Hl'. split; [by rewrite Hp'|done].
Qed.

(** [PeersInfo] lists the gathered records in the order of their IDs: the
    exchange sort returns a sorted permutation. *)
Theorem sort_infos_sorted infos :
  sort_infos infos ≡ₚ infos /\ StronglySorted String.le (sort_infos infos).
Proof.
  destruct (sort_outer_spec (length infos) 0 infos) as [Hp Hl]; [lia|lia|].
  fold (sort_infos infos) in *. split; [done|].
  assert (Hi : forall k x y k', (k < k')%nat -> sort_infos infos !! k = Some x ->
    sort_infos infos !! k' = Some y -> String.le x y).
  { intros k x y k' Hk Hx Hy. apply (Hl k k'); [|done..].
    apply lookup_lt_Some in Hy. rewrite (Permutation_length Hp) in Hy. lia. }
  clear -Hi. induction (sort_infos infos) as [|x l IH]; constructor.
  - apply IH. intros k a b k' Hk Ha Hb. by apply (Hi (S k) a b (S k')); [lia|..].
  - apply Forall_lookup. intros k y Hy. by apply (Hi 0%nat x y (S k)); [lia|..].
Qed.

(** ** A concrete run: one inbound connection becomes a peer *)
Definition ex_srv : Config := mk_Config 2 0 0 false "self" [] [] [] None.
Definition ex_remote : Node := mk_Node "b" [8; 8; 8; 8] 30303.
Definition ex_hs : handshakes := mk_handshakes true true (inr ex_remote) (inr ("b", [])) false false.
Definition final {A} (o : outcome (A * state)) : state :=
  match o with Done (_, s) => s | _ => init ex_srv end.
Definition ex_s1 : state := final (newConn inboundConn (mk_Node "" [] 0) (init ex_srv)).
Definition ex_s2 : state := set_conns (alter (set_node ex_remote) 0%nat (conns ex_s1)) ex_s1.
Definition ex_s3 : state := final (run_addPeer ex_srv 0%nat ex_s2).

Lemma ex_quiet : rtc (quiet_step ex_srv) (init ex_srv) ex_s3.
Proof.
  apply (rtc_l _ _ ex_s1).
  { split; [|reflexivity].
    eapply (st_new _ _ _ inboundConn (mk_Node "" [] 0) 0%nat); reflexivity. }
  apply (rtc_l _ _ ex_s2).
  { split; [|reflexivity]. eapply (st_node _ _ _ 0%nat ex_remote); [|reflexivity].
    apply not_elem_of_empty. }
  apply rtc_once. split; [|reflexivity].
  eapply (st_add _ _ _ 0%nat None); [apply not_elem_of_empty|]. vm_compute. reflexivity.
Qed.
Lemma ex_reach : reach ex_srv ex_s3.
Proof. eapply rtc_subrel; [|apply ex_quiet]. by intros ? ? [? _]. Qed.

Lemma server_bookkeeping_witness : inboundCount ex_s3 = 1 /\ 0 <= inboundCount ex_s3.
Proof. split; [reflexivity|]. apply (server_bookkeeping ex_srv ex_s3 ex_reach). Defined.

Lemma peer_limits_witness :
  Z.of_nat (size (peers ex_s3)) <= 2 /\ cnt inbound (conns ex_s3) (peers ex_s3) = 1.
Proof.
  split; [|vm_compute; reflexivity].
  apply (peer_limits ex_srv ex_s3); [reflexivity|simpl; lia|simpl; lia|apply ex_quiet].
Defined.

Lemma setupConn_spec_witness :
  exists e s', setupConn ex_srv 0%nat None ex_hs ex_s1 = Done (e, s').
Proof.
  destruct (setupConn_spec ex_srv 0%nat (mk_peerConn (mk_conn inboundConn (mk_Node "" [] 0)) [])
              None ex_hs ex_s1 ltac:(vm_compute; reflexivity)) as (e & s' & E & _).
  exists e, s'. exact E.
Defined.

Lemma SetupConn_inbound_panic_witness :
  SetupConn (mk_Config 2 0 0 false "self" [] ["v"] [] None) inboundConn None ex_hs (init ex_srv)
  = Panic "nil pointer dereference".
Proof. apply SetupConn_inbound_panic. discriminate. Defined.

Lemma inbound_throttle_witness :
  (checkInboundConn ex_srv (20 * Second) [8; 8; 8; 8]
     (attempts ex_srv [(5 * Second, [9; 9; 9; 9])]
       (checkInboundConn ex_srv 0 [8; 8; 8; 8] []).2)).1 = Some errTooManyAttempts.
Proof.
  destruct (inbound_throttle ex_srv 0 [8; 8; 8; 8] []) as [H _].
  - intros j Hj. simpl in Hj. lia.
  - discriminate.
  - vm_compute. reflexivity.
  - unfold is_i64. vm_compute. split; congruence.
  - exact I.
  - apply H; [vm_compute; reflexivity|repeat constructor; vm_compute; congruence|vm_compute; congruence].
Defined.
End P2PServerProps.
