(* ===== verification/Broadcast.v ===== *)
(** * Transaction broadcasting to an eth peer (eth/protocols/eth/broadcast.go)

    [broadcastTransactions] and [announceTransactions] are the same write loop
    with different packets: a queue of hashes, at most one packet in flight,
    and a size limit per packet.  The loop is modelled once, over the weight a
    queued hash has in a packet. *)

From stdpp Require Import base gmap list numbers.
From Stdlib Require Import ZArith Lia.
From S2P Require Import Prelude KnownCache.

Module Broadcast.

Definition maxTxPacketSize : Z := 100 * 1024.
Definition maxQueuedTxs : Z := 4096.
Definition maxQueuedTxAnns : Z := 4096.
Definition HashLength : Z := 32.

(** The goroutine that sends a packet closes [done] after a success; after an
    error it reports to [fail] and leaves [done] open for ever. *)
Inductive sender : Type := Running | Dead.

Record loopState : Type := mk_loopState {
  queue : list Hash;
  inflight : option sender;          (* done <> nil *)
  fail : list unit;                  (* the fail channel, capacity 1 *)
  failed : bool;
}.

Definition loop_init : loopState := mk_loopState [] None [] false.

Section Loop.
(** [weight h] is [None] when the pool no longer has the transaction. *)
Context (weight : Hash -> option Z).

(** The packing loop: the hashes packed and the number consumed. *)
Fixpoint pile (q : list Hash) (size : Z) : list Hash * nat :=
  match q with
  | [] => ([], 0%nat)
  | h :: q' =>
      if size <? maxTxPacketSize then
        match weight h with
        | Some w => let '(txs, n) := pile q' (size + w) in (h :: txs, S n)
        | None => let '(txs, n) := pile q' size in (txs, S n)
        end
      else ([], 0%nat)
  end.

(** The head of an iteration: the new state and the packet sent, if any. *)
Definition schedule (s : loopState) : loopState * option (list Hash) :=
  match inflight s, queue s with
  | None, _ :: _ =>
      let '(txs, n) := pile (queue s) 0 in
      let q := drop n (queue s) in
      match txs with
      | [] => (mk_loopState q None (fail s) (failed s), None)
      | _ => (mk_loopState q (Some Running) (fail s) (failed s), Some txs)
      end
  | _, _ => (s, None)
  end.
End Loop.

(** The cases of the select.  A new batch: the queue keeps its newest
    [maxQueued] hashes. *)
Definition receive (maxQueued : Z) (hashes : list Hash) (s : loopState) : loopState :=
  if failed s then s
  else
    let q := queue s ++ hashes in
    let q := if maxQueued <? len q then drop (Z.to_nat (len q - maxQueued)) q else q in
    mk_loopState q (inflight s) (fail s) (failed s).
Definition on_done (s : loopState) : loopState :=
  mk_loopState (queue s) None (fail s) (failed s).
Definition on_fail (s : loopState) : loopState :=
  mk_loopState (queue s) (inflight s) (tail (fail s)) true.

(** The sending goroutine fails. *)
Definition send_error (s : loopState) : loopState :=
  mk_loopState (queue s) (Some Dead) (fail s ++ [tt]) (failed s).

(** ** Runs

    A run keeps the packets sent, oldest first, and all the hashes received
    while the connection was good.  Each iteration handles one case of the
    select and then schedules; the pool changes freely in between. *)
Record run : Type := mk_run { st : loopState; sent : list (list Hash); seen : list Hash }.

Definition then_schedule (w : Hash -> option Z) (s : loopState) (r : run) (hs : list Hash) : run :=
  let '(s', p) := schedule w s in
  mk_run s' (sent r ++ match p with Some p => [p] | None => [] end) (seen r ++ hs).

Inductive step (maxQueued : Z) (r : run) : run -> Prop :=
  | st_receive w hs :
      step maxQueued r (then_schedule w (receive maxQueued hs (st r)) r
                          (if failed (st r) then [] else hs))
  | st_done w :
      inflight (st r) = Some Running -> step maxQueued r (then_schedule w (on_done (st r)) r [])
  | st_fail w :
      fail (st r) <> [] -> step maxQueued r (then_schedule w (on_fail (st r)) r [])
  | st_error :
      inflight (st r) = Some Running -> (length (fail (st r)) < 1)%nat ->
      step maxQueued r (mk_run (send_error (st r)) (sent r) (seen r)).

Definition run_init : run := mk_run loop_init [] [].

(** The two loops, over the pool's [Get] (the size of a pooled transaction). *)
Definition broadcast_weight (pool : Hash -> option Z) (h : Hash) : option Z := pool h.
Definition announce_weight (pool : Hash -> option Z) (h : Hash) : option Z :=
  match pool h with Some _ => Some HashLength | None => None end.

(** A batch received by each loop, and the packet it sends if any. *)
Definition broadcastTransactions (pool : Hash -> option Z) (hashes : list Hash) (s : loopState)
    : loopState * option (list Hash) :=
  schedule (broadcast_weight pool) (receive maxQueuedTxs hashes s).
Definition announceTransactions (pool : Hash -> option Z) (hashes : list Hash) (s : loopState)
    : loopState * option (list Hash) :=
  schedule (announce_weight pool) (receive maxQueuedTxAnns hashes s).

(** ** Packing *)

(** All but the last transaction of a packet fit below the target size. *)
Definition weight_sum (w : Hash -> option Z) (l : list Hash) : Z :=
  foldr (fun h a => default 0 (w h) + a) 0 l.
Definition packet_ok (w : Hash -> option Z) (p : list Hash) : Prop :=
  Forall (fun h => is_Some (w h)) p /\ weight_sum w (removelast p) < maxTxPacketSize.

Lemma pile_spec w q size txs n :
  pile w q size = (txs, n) ->
  txs = List.filter (fun h => bool_decide (is_Some (w h))) (take n q) /\ (n <= length q)%nat
  /\ (txs <> [] -> size + weight_sum w (removelast txs) < maxTxPacketSize)
  /\ (size < maxTxPacketSize -> q <> [] -> (0 < n)%nat).
Proof.
  revert size txs n. induction q as [|h q IH]; intros size txs n; simpl.
  { intros [= <- <-]. simpl. split_and!; done. }
  destruct (Z.ltb_spec size maxTxPacketSize) as [Hlt|Hge].
  2: { intros [= <- <-]. split_and!; [done|lia|done|lia]. }
  destruct (w h) as [x|] eqn:Hw.
  - destruct (pile w q (size + x)) as [txs' n'] eqn:E. intros [= <- <-].
    destruct (IH _ _ _ E) as (Ht & Hn & Hs & _). simpl.
    rewrite bool_decide_eq_true_2 by eauto. split_and!; [by rewrite <- Ht|lia| |lia].
    intros _. destruct txs' as [|h' txs'']; [simpl; lia|].
    specialize (Hs ltac:(done)). cbn [removelast weight_sum foldr] in *. 
    change (removelast (h :: h' :: txs'')) with (h :: removelast (h' :: txs'')).
    cbn [weight_sum foldr]. rewrite Hw. simpl. unfold weight_sum in Hs. lia.
  - destruct (pile w q size) as [txs' n'] eqn:E. intros [= <- <-].
    destruct (IH _ _ _ E) as (Ht & Hn & Hs & _). simpl.
    rewrite bool_decide_eq_false_2 by (rewrite Hw; apply is_Some_None). split_and!; [done|lia|done|lia].
Qed.

Lemma list_filter_sublist {A} (f : A -> bool) l : List.filter f l `sublist_of` l.
Proof.
  induction l as [|x l IH]; simpl; [constructor|]. destruct (f x); by constructor.
Qed.

(** ** The invariant of the loops *)
Section Invariant.
Context (maxQueued : Z) (maxQueued_nonneg : 0 <= maxQueued).

Record inv (r : run) : Prop := {
  inv_queue : len (queue (st r)) <= maxQueued;
  inv_sent : Forall (fun p => p <> [] /\ exists w, packet_ok w p) (sent r);
  inv_order : concat (sent r) ++ queue (st r) `sublist_of` seen r;
  inv_running : inflight (st r) = Some Running -> fail (st r) = [] /\ failed (st r) = false;
  inv_dead : fail (st r) <> [] \/ failed (st r) = true -> inflight (st r) = Some Dead;
}.

Lemma bc_inv_init : inv run_init.
Proof. split; simpl; try done. by intros [|]. Qed.

(** Scheduling keeps the invariant of what is queued, sent and seen. *)
Lemma inv_then_schedule w s r hs :
  len (queue s) <= maxQueued ->
  Forall (fun p => p <> [] /\ exists w, packet_ok w p) (sent r) ->
  concat (sent r) ++ queue s `sublist_of` seen r ++ hs ->
  (inflight s = Some Running -> fail s = [] /\ failed s = false) ->
  (fail s <> [] \/ failed s = true -> inflight s = Some Dead) ->
  inv (then_schedule w s r hs).
Proof.
  intros Hq Hs Ho Hr Hd. unfold then_schedule, schedule.
  destruct (inflight s) as [x|] eqn:Hi.
  { split; simpl; rewrite ?app_nil_r, ?Hi; auto. }
  destruct (queue s) as [|h q0] eqn:Eq.
  { split; simpl; rewrite ?app_nil_r, ?Eq, ?Hi; auto. }
  rewrite <- Eq in *. clear Eq h q0.
  destruct (pile w (queue s) 0) as [txs n] eqn:E.
  destruct (pile_spec _ _ _ _ _ E) as (Ht & Hn & Hsz & _).
  assert (Hdn : len (drop n (queue s)) <= maxQueued).
  { unfold len in *. rewrite length_drop. lia. }
  assert (Hnf : fail s = [] /\ failed s = false).
  { destruct (fail s); [|by discriminate Hd; left].
    destruct (failed s); [by discriminate Hd; right|done]. }
  destruct txs as [|h txs]; split; simpl; auto.
  - by rewrite app_nil_r.
  - rewrite app_nil_r. etrans; [|exact Ho]. apply sublist_app; [done|apply sublist_drop].
  - apply Forall_app. split; [done|]. constructor; [|constructor]. split; [done|]. exists w.
    split; [|specialize (Hsz ltac:(done)); lia].
    rewrite Ht. apply List.Forall_forall. intros y Hy%List.filter_In.
    destruct Hy as [_ Hy]. by apply bool_decide_eq_true in Hy.
  - rewrite concat_app. cbn [concat]. rewrite app_nil_r, <- app_assoc.
    etrans; [|exact Ho]. apply sublist_app; [done|].
    rewrite <- (take_drop n (queue s)) at 2. apply sublist_app; [|done].
    rewrite Ht. apply list_filter_sublist.
  - destruct Hnf as [-> ->]. naive_solver.
Qed.

Lemma bc_inv_step r r' : inv r -> step maxQueued r r' -> inv r'.
Proof.
  intros Hr Hst. destruct Hst as [w hs|w Hi|w Hf|Hi Hl].
  - destruct Hr as [Hq Hs Ho Hrun Hd].
    unfold receive. destruct (failed (st r)) eqn:Ef.
    + apply inv_then_schedule; rewrite ?app_nil_r, ?Ef; auto.
    + apply inv_then_schedule; simpl; auto.
      * destruct (Z.ltb_spec maxQueued (len (queue (st r) ++ hs))) as [Hlt|]; [|lia].
        unfold len in *. rewrite length_drop. lia.
      * etrans; [|apply sublist_app; [exact Ho|reflexivity]].
        rewrite <- app_assoc. apply sublist_app; [done|].
        destruct (_ <? _); [apply sublist_drop|done].
  - destruct (inv_running r Hr Hi) as [Hf Hfd].
    apply inv_then_schedule; simpl; rewrite ?app_nil_r; try apply Hr; [done|].
    rewrite Hf, Hfd. by intros [|].
  - pose proof (inv_dead r Hr (or_introl Hf)) as Hd.
    apply inv_then_schedule; simpl; rewrite ?app_nil_r; try apply Hr; [by rewrite Hd|by rewrite Hd].
  - split; simpl; try apply Hr; done.
Qed.

Lemma bc_inv_runs r : rtc (step maxQueued) run_init r -> inv r.
Proof. apply invariant_reach; [apply bc_inv_init|]. eauto using bc_inv_step. Qed.
End Invariant.

(** The transaction write loops: the queue never exceeds its cap; every
    packet is not empty, holds only transactions the pool still had and stays
    below the target size except for its last transaction; the packets and
    then the queue are, in order, a subsequence of the hashes received; and
    the sending goroutine always finds room to report an error. *)
Theorem broadcast_loop maxQueued r :
  0 <= maxQueued -> rtc (step maxQueued) run_init r ->
  len (queue (st r)) <= maxQueued
  /\ Forall (fun p => p <> [] /\ exists w, packet_ok w p) (sent r)
  /\ concat (sent r) ++ queue (st r) `sublist_of` seen r
  /\ (inflight (st r) = Some Running -> (length (fail (st r)) < 1)%nat).
Proof.
  intros Hm Hr%bc_inv_runs; [|done]. destruct Hr as [Hq Hs Ho Hrun _].
  split_and!; [done..|]. intros Hx. destruct (Hrun Hx) as [-> _]. simpl. lia.
Qed.

Lemma dead_step maxQueued r r' :
  inflight (st r) = Some Dead -> step maxQueued r r' ->
  inflight (st r') = Some Dead /\ sent r' = sent r.
Proof.
  intros Hd Hst. destruct Hst as [w hs|w Hi|w Hf|Hi _]; [|congruence| |congruence].
  - unfold then_schedule, schedule, receive.
    destruct (failed (st r)); simpl; rewrite Hd; simpl; by rewrite app_nil_r.
  - unfold then_schedule, schedule, on_fail. simpl. rewrite Hd. simpl. by rewrite app_nil_r.
Qed.

(** After a failed send nothing is sent any more. *)
Theorem broadcast_after_failure maxQueued r r2 :
  rtc (step maxQueued) (mk_run (send_error (st r)) (sent r) (seen r)) r2 -> sent r2 = sent r.
Proof.
  intros Hr.
  assert (Hd : inflight (st (mk_run (send_error (st r)) (sent r) (seen r))) = Some Dead) by done.
  change (sent r) with (sent (mk_run (send_error (st r)) (sent r) (seen r))).
  revert Hd Hr. generalize (mk_run (send_error (st r)) (sent r) (seen r)). intros r1 Hd Hr.
  induction Hr as [|a b c Hab _ IH]; [done|].
  destruct (dead_step _ _ _ Hd Hab) as [Hd' <-]. auto.
Qed.

Definition ex_pool (h : Hash) : option Z := if h =? 2 then None else Some 60000.
Definition ex_r1 : run :=
  then_schedule ex_pool (receive 4 [1; 2; 3; 4] loop_init) run_init [1; 2; 3; 4].

Lemma ex_r1_step : step 4 run_init ex_r1.
Proof. apply (st_receive 4 run_init ex_pool [1; 2; 3; 4]). Qed.

Lemma broadcast_loop_witness :
  sent ex_r1 = [[1; 3]] /\ queue (st ex_r1) = [4] /\ len (queue (st ex_r1)) <= 4.
Proof.
  split; [reflexivity|]. split; [reflexivity|].
  apply (broadcast_loop 4 ex_r1); [lia|]. apply rtc_once, ex_r1_step.
Defined.

Definition ex_r2 : run := mk_run (send_error (st ex_r1)) (sent ex_r1) (seen ex_r1).
Definition ex_r3 : run := then_schedule ex_pool (receive 4 [5] (st ex_r2)) ex_r2 [5].

Lemma broadcast_after_failure_witness : sent ex_r3 = [[1; 3]].
Proof.
  apply (broadcast_after_failure 4 ex_r1 ex_r3), rtc_once.
  apply (st_receive 4 ex_r2 ex_pool [5]).
Defined.
End Broadcast.
