(* ===== verification/EthPeer.v ===== *)
(** * The eth peer (eth/protocols/eth/peer.go, broadcast.go)

    What the node remembers about a remote peer: the hashes it is known to
    have, the bounded queues of blocks to send, and the blocks requested by
    hash whose header and body arrive in separate messages.  Containers are
    those of Externals.v; callbacks into the node manager are logged. *)

From stdpp Require Import base gmap list strings pretty numbers.
From Stdlib Require Import ZArith Lia.
From S2P Require Import Prelude Externals KnownCache.

Module EthPeer.

(** ** Chain data

    A header carries the value its [Hash] method returns; a transaction its
    hash and its size. *)
Record Header : Type := mk_Header {
  hdr_Hash : Hash;
  hdr_ParentHash : Hash;
  hdr_Number : Z;
}.
Record Transaction : Type := mk_Transaction { tx_Hash : Hash; tx_Size : Z }.
Record BlockBody : Type := mk_BlockBody { Transactions : list Transaction; Uncles : list Header }.
Record Block : Type := mk_Block { blk_Header : Header; blk_Body : BlockBody }.

#[export] Instance Header_eq_dec : EqDecision Header.
Proof. solve_decision. Defined.
#[export] Instance Transaction_eq_dec : EqDecision Transaction.
Proof. solve_decision. Defined.
#[export] Instance BlockBody_eq_dec : EqDecision BlockBody.
Proof. solve_decision. Defined.
#[export] Instance Block_eq_dec : EqDecision Block.
Proof. solve_decision. Defined.

Definition blk_Hash (b : Block) : Hash := hdr_Hash (blk_Header b).
(** [big.Int.Uint64] keeps the low 64 bits. *)
Definition NumberU64 (b : Block) : Z := u64 (hdr_Number (blk_Header b)).

Definition maxKnownTxs : Z := 32768.
Definition maxKnownBlocks : Z := 1024.
Definition maxQueuedBlocks : Z := 4.
Definition maxQueuedBlockAnns : Z := 4.

Record recvBlockInfo : Type := mk_recvBlockInfo {
  blockHeader : list Header;
  blockBody : list BlockBody;
  startTime : Z;
}.

Section Peer.
Context {S : Type} `{MapSet Hash S} {M : Type -> Type} `{CMap M}.

Record Peer : Type := mk_Peer {
  head : Hash;
  td : Z;
  knownBlocks : knownCache S;
  queuedBlocks : list (Block * Z);
  queuedBlockAnns : list Block;
  knownTxs : knownCache S;
  term : bool;                                (* closed channels *)
  txTerm : bool;
  LastBlockNumber : Z;
  TotalRecvBlock : Z;
  TotalRecvTx : Z;
  receiveBlocks : M recvBlockInfo;
  fnBlock : bool;                             (* FnTraderBlockProcess <> nil *)
  fnTx : bool;                                (* FnTraderTransactionProcess <> nil *)
  gotBlocks : list (Block * Z);               (* calls of FnTraderBlockProcess *)
  gotTxs : list (Transaction * Z);            (* calls of FnTraderTransactionProcess *)
}.

Definition NewPeer : Peer :=
  mk_Peer 0 0 (newKnownCache maxKnownBlocks) [] [] (newKnownCache maxKnownTxs) false false
    0 0 0 cm_new false false [] [].

Definition set_knownBlocks v p := mk_Peer (head p) (td p) v (queuedBlocks p) (queuedBlockAnns p)
  (knownTxs p) (term p) (txTerm p) (LastBlockNumber p) (TotalRecvBlock p) (TotalRecvTx p)
  (receiveBlocks p) (fnBlock p) (fnTx p) (gotBlocks p) (gotTxs p).
Definition set_knownTxs v p := mk_Peer (head p) (td p) (knownBlocks p) (queuedBlocks p)
  (queuedBlockAnns p) v (term p) (txTerm p) (LastBlockNumber p) (TotalRecvBlock p) (TotalRecvTx p)
  (receiveBlocks p) (fnBlock p) (fnTx p) (gotBlocks p) (gotTxs p).
Definition set_queues q a p := mk_Peer (head p) (td p) (knownBlocks p) q a
  (knownTxs p) (term p) (txTerm p) (LastBlockNumber p) (TotalRecvBlock p) (TotalRecvTx p)
  (receiveBlocks p) (fnBlock p) (fnTx p) (gotBlocks p) (gotTxs p).
Definition set_terms t x p := mk_Peer (head p) (td p) (knownBlocks p) (queuedBlocks p)
  (queuedBlockAnns p) (knownTxs p) t x (LastBlockNumber p) (TotalRecvBlock p) (TotalRecvTx p)
  (receiveBlocks p) (fnBlock p) (fnTx p) (gotBlocks p) (gotTxs p).
Definition set_counters l b p := mk_Peer (head p) (td p) (knownBlocks p) (queuedBlocks p)
  (queuedBlockAnns p) (knownTxs p) (term p) (txTerm p) l b (TotalRecvTx p)
  (receiveBlocks p) (fnBlock p) (fnTx p) (gotBlocks p) (gotTxs p).
Definition set_receiveBlocks v p := mk_Peer (head p) (td p) (knownBlocks p) (queuedBlocks p)
  (queuedBlockAnns p) (knownTxs p) (term p) (txTerm p) (LastBlockNumber p) (TotalRecvBlock p)
  (TotalRecvTx p) v (fnBlock p) (fnTx p) (gotBlocks p) (gotTxs p).
Definition set_gotBlocks v p := mk_Peer (head p) (td p) (knownBlocks p) (queuedBlocks p)
  (queuedBlockAnns p) (knownTxs p) (term p) (txTerm p) (LastBlockNumber p) (TotalRecvBlock p)
  (TotalRecvTx p) (receiveBlocks p) (fnBlock p) (fnTx p) v (gotTxs p).
Definition set_gotTxs n v p := mk_Peer (head p) (td p) (knownBlocks p) (queuedBlocks p)
  (queuedBlockAnns p) (knownTxs p) (term p) (txTerm p) (LastBlockNumber p) (TotalRecvBlock p)
  n (receiveBlocks p) (fnBlock p) (fnTx p) (gotBlocks p) v.
Definition SetHead (hash : Hash) (t : Z) (p : Peer) := mk_Peer hash t (knownBlocks p)
  (queuedBlocks p) (queuedBlockAnns p) (knownTxs p) (term p) (txTerm p) (LastBlockNumber p)
  (TotalRecvBlock p) (TotalRecvTx p) (receiveBlocks p) (fnBlock p) (fnTx p) (gotBlocks p) (gotTxs p).
Definition Head (p : Peer) : Hash * Z := (head p, td p).

(** ** Shutting down *)
Definition CloseTxBroadcast (p : Peer) : Peer :=
  if txTerm p then p else set_terms (term p) true p.
(** Closing a closed channel panics. *)
Definition Close (p : Peer) : outcome Peer :=
  if term p then Panic "close of closed channel"
  else Done (CloseTxBroadcast (set_terms true (txTerm p) p)).

(** ** Known hashes *)
Definition KnownBlock (p : Peer) (hash : Hash) : bool := Contains (knownBlocks p) hash.
Definition KnownTransaction (p : Peer) (hash : Hash) : bool := Contains (knownTxs p) hash.
Definition markBlock (hash : Hash) (p : Peer) : Peer :=
  set_knownBlocks (Add (knownBlocks p) [hash]) p.
Definition markTransaction (hash : Hash) (p : Peer) : Peer :=
  set_knownTxs (Add (knownTxs p) [hash]) p.

(** ** Sending; what is sent is the message and the error is the transport's *)
Inductive packet : Type :=
  | TransactionsPacket (txs : list Transaction)
  | NewPooledTransactionHashesPacket (hashes : list Hash)
  | PooledTransactionsPacket (id : Z) (hashes : list Hash)
  | NewBlockHashesPacket (anns : list (Hash * Z))
  | NewBlockPacket (block : Block) (t : Z).

Definition SendTransactions (txs : list Transaction) (p : Peer) : packet * Peer :=
  (TransactionsPacket txs,
   foldl (fun p tx => set_knownTxs (Add (knownTxs p) [tx_Hash tx]) p) p txs).
Definition sendPooledTransactionHashes (hashes : list Hash) (p : Peer) : packet * Peer :=
  (NewPooledTransactionHashesPacket hashes, set_knownTxs (Add (knownTxs p) hashes) p).
Definition ReplyPooledTransactionsRLP (id : Z) (hashes : list Hash) (p : Peer) : packet * Peer :=
  (PooledTransactionsPacket id hashes, set_knownTxs (Add (knownTxs p) hashes) p).
(** [numbers] is indexed by the positions of [hashes]. *)
Definition SendNewBlockHashes (hashes : list Hash) (numbers : list Z) (p : Peer)
    : outcome (packet * Peer) :=
  if (length numbers <? length hashes)%nat then Panic "index out of range"
  else Done (NewBlockHashesPacket (zip hashes numbers),
             set_knownBlocks (Add (knownBlocks p) hashes) p).
Definition SendNewBlock (block : Block) (t : Z) (p : Peer) : packet * Peer :=
  (NewBlockPacket block t, set_knownBlocks (Add (knownBlocks p) [blk_Hash block]) p).

(** ** Queueing *)

(** [accepted] says which case the select takes: the loop received the batch. *)
Definition AsyncSendTransactions (hashes : list Hash) (accepted : bool) (p : Peer) : Peer :=
  if accepted then set_knownTxs (Add (knownTxs p) hashes) p else p.
Definition AsyncSendPooledTransactionHashes (hashes : list Hash) (accepted : bool) (p : Peer) : Peer :=
  if accepted then set_knownTxs (Add (knownTxs p) hashes) p else p.

Definition AsyncSendNewBlockHash (block : Block) (p : Peer) : Peer :=
  if len (queuedBlockAnns p) <? maxQueuedBlockAnns
  then set_knownBlocks (Add (knownBlocks p) [blk_Hash block])
         (set_queues (queuedBlocks p) (queuedBlockAnns p ++ [block]) p)
  else p.
Definition AsyncSendNewBlock (block : Block) (t : Z) (p : Peer) : Peer :=
  if len (queuedBlocks p) <? maxQueuedBlocks
  then set_knownBlocks (Add (knownBlocks p) [blk_Hash block])
         (set_queues (queuedBlocks p ++ [(block, t)]) (queuedBlockAnns p) p)
  else p.

(** One iteration of [broadcastBlocks] on a queue that is not empty. *)
Definition broadcastBlocks (from_blocks : bool) (p : Peer) : outcome (option packet * Peer) :=
  if from_blocks then
    match queuedBlocks p with
    | (block, t) :: q =>
        let '(m, p) := SendNewBlock block t (set_queues q (queuedBlockAnns p) p) in Done (Some m, p)
    | [] => Done (None, p)
    end
  else
    match queuedBlockAnns p with
    | block :: q =>
        match SendNewBlockHashes [blk_Hash block] [NumberU64 block] (set_queues (queuedBlocks p) q p) with
        | Done (m, p) => Done (Some m, p)
        | Panic e => Panic e
        | Blocked w => Blocked w
        end
    | [] => Done (None, p)
    end.

(** ** Blocks requested by hash

    [strconv.FormatUint(id, 10)]. *)
Definition idString (id : Z) : string := pretty id.

(** [id] is the random request id, [err1] and [err2] the errors of the two
    sends. *)
Definition RequestBlocks (id : Z) (err1 err2 : option string) (now : Z) (p : Peer)
    : option string * Peer :=
  match err1, err2 with
  | Some e, _ => (Some e, p)
  | None, Some e => (Some e, p)
  | None, None =>
      (None, set_receiveBlocks (cm_set (idString id) (mk_recvBlockInfo [] [] now) (receiveBlocks p)) p)
  end.

(** One assembled block; [hasBlock] is the chain's [HasBlock]. *)
Definition complete_one (hasBlock : Hash -> Z -> bool) (id : Z) (p : Peer) (hb : Header * BlockBody)
    : Peer :=
  let '(header, body) := hb in
  let recvBlock := mk_Block header body in
  let p := set_receiveBlocks (cm_remove (idString id) (receiveBlocks p)) p in
  let p := set_counters (u64 (hdr_Number header)) (u64 (TotalRecvBlock p + 1)) p in
  if (negb (hasBlock (blk_Hash recvBlock) (NumberU64 recvBlock)) && fnBlock p)%bool
  then set_gotBlocks (gotBlocks p ++ [(recvBlock, 0)]) p
  else p.

Definition CheckBlockComplete (hasBlock : Hash -> Z -> bool) (id : Z) (p : Peer) : Peer :=
  if cm_has (idString id) (receiveBlocks p) then
    match cm_get (idString id) (receiveBlocks p) with
    | Some i =>
        if len (blockBody i) =? len (blockHeader i)
        then foldl (complete_one hasBlock id) p (zip (blockHeader i) (blockBody i))
        else p
    | None => p
    end
  else p.

(** The record is shared with the map, so the update is seen there. *)
Definition ProcessBlockHeader (hasBlock : Hash -> Z -> bool) (id : Z) (headers : list Header) (p : Peer)
    : Peer :=
  if cm_has (idString id) (receiveBlocks p) then
    match cm_get (idString id) (receiveBlocks p) with
    | Some i =>
        CheckBlockComplete hasBlock id
          (set_receiveBlocks (cm_set (idString id)
             (mk_recvBlockInfo headers (blockBody i) (startTime i)) (receiveBlocks p)) p)
    | None => p
    end
  else p.
Definition ProcessBlockBody (hasBlock : Hash -> Z -> bool) (id : Z) (bodies : list BlockBody) (p : Peer)
    : Peer :=
  if cm_has (idString id) (receiveBlocks p) then
    match cm_get (idString id) (receiveBlocks p) with
    | Some i =>
        CheckBlockComplete hasBlock id
          (set_receiveBlocks (cm_set (idString id)
             (mk_recvBlockInfo (blockHeader i) bodies (startTime i)) (receiveBlocks p)) p)
    | None => p
    end
  else p.

(** ** Properties *)
Context `{!CMapLaws M}.

Lemma complete_one_eq hasBlock id (p : Peer) h b :
  complete_one hasBlock id p (h, b) =
  set_gotBlocks (gotBlocks p ++
      (if (negb (hasBlock (hdr_Hash h) (u64 (hdr_Number h))) && fnBlock p)%bool
       then [(mk_Block h b, 0)] else []))
    (set_counters (u64 (hdr_Number h)) (u64 (TotalRecvBlock p + 1))
      (set_receiveBlocks (cm_remove (idString id) (receiveBlocks p)) p)).
Proof.
  unfold complete_one, NumberU64, blk_Hash. simpl.
  destruct (_ && _)%bool; [done|]. by rewrite app_nil_r.
Qed.

(** The blocks of a reply that the callback gets. *)
Definition fresh_blocks (hasBlock : Hash -> Z -> bool) (l : list (Header * BlockBody))
    : list (Block * Z) :=
  omap (fun hb => if hasBlock (hdr_Hash hb.1) (u64 (hdr_Number hb.1)) then None
                  else Some (mk_Block hb.1 hb.2, 0)) l.

Lemma complete_fold hasBlock id l (p : Peer) :
  let q := foldl (complete_one hasBlock id) p l in
  gotBlocks q = gotBlocks p ++ (if fnBlock p then fresh_blocks hasBlock l else [])
  /\ fnBlock q = fnBlock p
  /\ (forall k, cm_get k (receiveBlocks q)
        = if decide (l <> [] /\ k = idString id) then None else cm_get k (receiveBlocks p))
  /\ (is_u64 (TotalRecvBlock p) -> TotalRecvBlock q = u64 (TotalRecvBlock p + len l)).
Proof.
  revert p. induction l as [|[h b] l IH]; intros p; cbn [foldl].
  { split_and!; [by destruct (fnBlock p); rewrite app_nil_r|done| |].
    - intros k. rewrite decide_False; [done|]. naive_solver.
    - intros Hr. unfold len. simpl. rewrite Z.add_0_r, u64_small; done. }
  rewrite complete_one_eq.
  cbv zeta. match goal with |- context [foldl _ ?x l] => destruct (IH x) as (Hg & Hf & Hk & Ht) end.
  simpl in *. split_and!.
  - rewrite Hg. unfold fresh_blocks. simpl. rewrite <- app_assoc. f_equal.
    destruct (fnBlock p), (hasBlock (hdr_Hash h) (u64 (hdr_Number h))); simpl; by rewrite ?app_nil_r.
  - done.
  - intros k. rewrite Hk, cm_get_remove. repeat case_decide; naive_solver.
  - intros Hr. rewrite Ht by apply u64_range. unfold len, u64. simpl.
    rewrite Zplus_mod_idemp_l. f_equal. lia.
Qed.

(** The second of the two replies completes the request. *)
Lemma check_completes hasBlock id hs bs t (p : Peer) :
  cm_get (idString id) (receiveBlocks p) = Some (mk_recvBlockInfo hs bs t) ->
  length hs = length bs ->
  CheckBlockComplete hasBlock id p = foldl (complete_one hasBlock id) p (zip hs bs).
Proof.
  intros Hg Hl. unfold CheckBlockComplete. rewrite Hg.
  rewrite (proj2 (cm_has_true _ _)) by eauto. simpl. unfold len. rewrite Hl.
  by rewrite Z.eqb_refl.
Qed.

Lemma check_waits hasBlock id i (p : Peer) :
  cm_get (idString id) (receiveBlocks p) = Some i ->
  length (blockHeader i) <> length (blockBody i) -> CheckBlockComplete hasBlock id p = p.
Proof.
  intros Hg Hl. unfold CheckBlockComplete. rewrite Hg.
  destruct (cm_has _ _); [|done]. unfold len.
  destruct (Z.eqb_spec (Z.of_nat (length (blockBody i))) (Z.of_nat (length (blockHeader i)))); [lia|done].
Qed.

Lemma header_then_body hasBlock id hs bs t (p : Peer) :
  cm_get (idString id) (receiveBlocks p) = Some (mk_recvBlockInfo [] [] t) ->
  hs <> [] -> length hs = length bs ->
  exists p', ProcessBlockBody hasBlock id bs (ProcessBlockHeader hasBlock id hs p)
    = foldl (complete_one hasBlock id) p' (zip hs bs)
    /\ gotBlocks p' = gotBlocks p /\ fnBlock p' = fnBlock p /\ TotalRecvBlock p' = TotalRecvBlock p
    /\ (forall k, k <> idString id -> cm_get k (receiveBlocks p') = cm_get k (receiveBlocks p)).
Proof.
  intros Hg Hne Hl. unfold ProcessBlockHeader, ProcessBlockBody.
  rewrite (proj2 (cm_has_true (idString id) (receiveBlocks p))), Hg by (rewrite Hg; eauto).
  simpl. rewrite (check_waits _ _ (mk_recvBlockInfo hs [] t));
    [|simpl; apply cm_get_set_eq|simpl; by destruct hs].
  simpl. rewrite (proj2 (cm_has_true (idString id) _)) by (rewrite cm_get_set_eq; eauto).
  rewrite cm_get_set_eq. simpl.
  erewrite check_completes; [|simpl; apply cm_get_set_eq|done].
  eexists. split_and!; [done..|]. intros k Hk. simpl. by rewrite !cm_get_set_ne.
Qed.

Lemma body_then_header hasBlock id hs bs t (p : Peer) :
  cm_get (idString id) (receiveBlocks p) = Some (mk_recvBlockInfo [] [] t) ->
  hs <> [] -> length hs = length bs ->
  exists p', ProcessBlockHeader hasBlock id hs (ProcessBlockBody hasBlock id bs p)
    = foldl (complete_one hasBlock id) p' (zip hs bs)
    /\ gotBlocks p' = gotBlocks p /\ fnBlock p' = fnBlock p /\ TotalRecvBlock p' = TotalRecvBlock p
    /\ (forall k, k <> idString id -> cm_get k (receiveBlocks p') = cm_get k (receiveBlocks p)).
Proof.
  intros Hg Hne Hl. unfold ProcessBlockHeader, ProcessBlockBody.
  rewrite (proj2 (cm_has_true (idString id) (receiveBlocks p))), Hg by (rewrite Hg; eauto).
  simpl. rewrite (check_waits _ _ (mk_recvBlockInfo [] bs t));
    [|simpl; apply cm_get_set_eq|simpl; by destruct hs, bs].
  simpl. rewrite (proj2 (cm_has_true (idString id) _)) by (rewrite cm_get_set_eq; eauto).
  rewrite cm_get_set_eq. simpl.
  erewrite check_completes; [|simpl; apply cm_get_set_eq|done].
  eexists. split_and!; [done..|]. intros k Hk. simpl. by rewrite !cm_get_set_ne.
Qed.


(** A remote that answers a block request with an empty header list and an
    empty body list leaves the request pending for ever: the entry is not
    removed, nothing is delivered. *)
Theorem block_request_leak hasBlock id t (p : Peer) :
  cm_get (idString id) (receiveBlocks p) = Some (mk_recvBlockInfo [] [] t) ->
  let q := ProcessBlockBody hasBlock id [] (ProcessBlockHeader hasBlock id [] p) in
  cm_get (idString id) (receiveBlocks q) = Some (mk_recvBlockInfo [] [] t)
  /\ gotBlocks q = gotBlocks p.
Proof.
  intros Hg. unfold ProcessBlockHeader. rewrite Hg.
  rewrite (proj2 (cm_has_true (idString id) (receiveBlocks p))) by (rewrite Hg; eauto).
  erewrite check_completes; [|simpl; apply cm_get_set_eq|done]. simpl.
  unfold ProcessBlockBody. simpl.
  rewrite (proj2 (cm_has_true (idString id) _)) by (rewrite cm_get_set_eq; eauto).
  rewrite cm_get_set_eq. erewrite check_completes; [|simpl; apply cm_get_set_eq|done].
  simpl. by rewrite cm_get_set_eq.
Qed.

(** ** The block queues *)
Inductive peer_op : Type :=
  | opBlock (b : Block) (t : Z) | opAnn (b : Block) | opBroadcast (from_blocks : bool).
Definition apply_op (p : Peer) (o : peer_op) : Peer :=
  match o with
  | opBlock b t => AsyncSendNewBlock b t p
  | opAnn b => AsyncSendNewBlockHash b p
  | opBroadcast f => match broadcastBlocks f p with Done (_, p) => p | _ => p end
  end.

Context `{!MapSetLaws Hash S}.

(** The block queues of a peer never hold more than [maxQueuedBlocks] and
    [maxQueuedBlockAnns] entries, the write loop never panics, and a block is
    known to the peer right after it was queued: a second call for the same
    block can see that it was already queued. *)
Theorem block_queues ops (p : Peer) :
  len (queuedBlocks p) <= maxQueuedBlocks -> len (queuedBlockAnns p) <= maxQueuedBlockAnns ->
  let q := foldl apply_op p ops in
  len (queuedBlocks q) <= maxQueuedBlocks /\ len (queuedBlockAnns q) <= maxQueuedBlockAnns
  /\ (forall f, exists m q', broadcastBlocks f q = Done (m, q'))
  /\ (forall b t, len (queuedBlocks q) < maxQueuedBlocks ->
        KnownBlock (AsyncSendNewBlock b t q) (blk_Hash b) = true
        /\ queuedBlocks (AsyncSendNewBlock b t q) = queuedBlocks q ++ [(b, t)]).
Proof.
  intros H1 H2. assert (Hinv : forall p, len (queuedBlocks p) <= maxQueuedBlocks /\
      len (queuedBlockAnns p) <= maxQueuedBlockAnns -> forall o,
      len (queuedBlocks (apply_op p o)) <= maxQueuedBlocks
      /\ len (queuedBlockAnns (apply_op p o)) <= maxQueuedBlockAnns).
  { clear. intros p [H1 H2] [b t|b|f]; simpl.
    - unfold AsyncSendNewBlock. destruct (Z.ltb_spec (len (queuedBlocks p)) maxQueuedBlocks); simpl;
        rewrite ?len_app, ?len_cons, ?len_nil; lia.
    - unfold AsyncSendNewBlockHash.
      destruct (Z.ltb_spec (len (queuedBlockAnns p)) maxQueuedBlockAnns); simpl;
        rewrite ?len_app, ?len_cons, ?len_nil; lia.
    - unfold broadcastBlocks. destruct f.
      + destruct (queuedBlocks p) as [|[b t] l] eqn:E; simpl; rewrite ?E, ?len_cons in *; lia.
      + destruct (queuedBlockAnns p) as [|b l] eqn:E; simpl; rewrite ?E, ?len_cons in *; lia. }
  assert (Hq : len (queuedBlocks (foldl apply_op p ops)) <= maxQueuedBlocks
    /\ len (queuedBlockAnns (foldl apply_op p ops)) <= maxQueuedBlockAnns).
  { revert p H1 H2. induction ops as [|o ops IH]; intros p H1 H2; [done|].
    simpl. apply IH; by apply Hinv. }
  destruct Hq as [Hq1 Hq2]. split_and!; [done..| |].
  - generalize (foldl apply_op p ops). intros q [|]; unfold broadcastBlocks.
    + destruct (queuedBlocks q) as [|[b t] l]; by eexists _, _.
    + destruct (queuedBlockAnns q) as [|b l]; by eexists _, _.
  - intros b t Hlt. unfold AsyncSendNewBlock, KnownBlock.
    destruct (Z.ltb_spec (len (queuedBlocks (foldl apply_op p ops))) maxQueuedBlocks); [|lia].
    simpl. split; [|done]. apply Add_Contains_new. set_solver.
Qed.
End Peer.
Arguments Peer : clear implicits.

Definition ex_peer : Peer (gset Hash) (gmap string) := NewPeer.
Definition ex_header : Header := mk_Header 11 10 7.
Definition ex_body : BlockBody := mk_BlockBody [mk_Transaction 5 100] [].
Definition ex_pending : Peer (gset Hash) (gmap string) := (RequestBlocks 42 None None 1000 ex_peer).2.


Lemma block_request_leak_witness :
  cm_get (idString 42)
    (receiveBlocks (ProcessBlockBody (fun _ _ => false) 42 []
       (ProcessBlockHeader (fun _ _ => false) 42 [] ex_pending)))
  = Some (mk_recvBlockInfo [] [] 1000).
Proof.
  apply (block_request_leak (fun _ _ => false) 42 1000 ex_pending). vm_compute. reflexivity.
Defined.

Lemma block_queues_witness :
  len (queuedBlocks (foldl apply_op ex_peer
    (replicate 7 (opBlock (mk_Block ex_header ex_body) 9)))) <= maxQueuedBlocks.
Proof.
  apply (block_queues (replicate 7 (opBlock (mk_Block ex_header ex_body) 9)) ex_peer);
    vm_compute; discriminate.
Defined.
End EthPeer.
