(* ===== verification/Tracker.v ===== *)
(** * The request tracker (p2p/tracker/tracker.go)

    [Tracker] times outstanding requests.  The [pending] map and the [expire]
    list hold the same ids, the list in the order of their start times; a
    timer expires the ones at the front.  [container/list] is a list of ids;
    the timer is [Armed] until it fires and [Fired] until its [clean] call has
    the lock.  Metrics are not part of the state. *)

From stdpp Require Import base gmap sets list strings numbers sorting.
From Stdlib Require Import ZArith Lia.
From S2P Require Import Prelude.

Module Tracker.

Definition maxTrackedPackets : Z := 100000.
Definition Millisecond : Z := 1000000.

Record request : Type := mk_request {
  peer : string;
  version : Z;
  reqCode : Z;
  resCode : Z;
  time : Z;
}.

Inductive timer : Type := Armed | Fired.

Record tracker : Type := mk_tracker {
  timeout : Z;
  pending : gmap Z request;
  expire : list Z;
  wake : option timer;
}.

Definition New (timeout : Z) : tracker := mk_tracker timeout ∅ [] None.

(** [now] is [time.Now()]; [enabled] is [metrics.Enabled]. *)
Definition Track (enabled : bool) (now : Z) (p : string) (ver req res id : Z) (t : tracker) : tracker :=
  if negb enabled then t
  else if bool_decide (is_Some (pending t !! id)) then t
  else if maxTrackedPackets <=? Z.of_nat (size (pending t)) then t
  else mk_tracker (timeout t) (<[id := mk_request p ver req res now]> (pending t))
         (expire t ++ [id])
         (match wake t with None => Some Armed | w => w end).

Definition schedule (t : tracker) : outcome tracker :=
  match expire t with
  | [] => Done (mk_tracker (timeout t) (pending t) (expire t) None)
  | id :: _ =>
      match pending t !! id with
      | Some _ => Done (mk_tracker (timeout t) (pending t) (expire t) (Some Armed))
      | None => Panic "nil pointer dereference"
      end
  end.

(** The loop of [clean]; one round per id of the list. *)
Fixpoint clean_loop (l : list Z) (now : Z) (t : tracker) : outcome tracker :=
  match l with
  | [] => Done t
  | id :: rest =>
      match pending t !! id with
      | None => Panic "nil pointer dereference"
      | Some req =>
          if now - time req <? timeout t + 5 * Millisecond then Done t
          else clean_loop rest now
                 (mk_tracker (timeout t) (delete id (pending t)) rest (wake t))
      end
  end.
Definition clean (now : Z) (t : tracker) : outcome tracker :=
  t ← clean_loop (expire t) now t; schedule t.

(** The timer's own step. *)
Definition fire (t : tracker) : tracker :=
  mk_tracker (timeout t) (pending t) (expire t) (Some Fired).

(** [req.expire.Prev()] is nil for an element that was just removed, so the
    timer is always rescheduled when it can be stopped. *)
Definition Fulfil (enabled : bool) (p : string) (ver code id : Z) (t : tracker) : outcome tracker :=
  if negb enabled then Done t
  else match pending t !! id with
  | None => Done t
  | Some req =>
      if (negb (bool_decide (peer req = p)) || negb (version req =? ver) || negb (resCode req =? code))%bool
      then Done t
      else
        let t := mk_tracker (timeout t) (delete id (pending t))
                   (filter (fun x => x <> id) (expire t)) (wake t) in
        match wake t with
        | None => Panic "nil pointer dereference"
        | Some Armed => schedule t
        | Some Fired => Done t
        end
  end.

(** ** The invariant; [now] bounds the start times *)
Definition earlier (m : gmap Z request) (i j : Z) : Prop :=
  forall a b, m !! i = Some a -> m !! j = Some b -> time a <= time b.

Record inv (now : Z) (t : tracker) : Prop := {
  inv_nodup : NoDup (expire t);
  inv_dom id : id ∈ expire t <-> is_Some (pending t !! id);
  inv_sorted : StronglySorted (earlier (pending t)) (expire t);
  inv_times id r : pending t !! id = Some r -> time r <= now;
  inv_size : Z.of_nat (size (pending t)) <= maxTrackedPackets;
  inv_wake : pending t <> ∅ -> is_Some (wake t);
}.

Inductive step : Z * tracker -> Z * tracker -> Prop :=
  | st_tick n n' t : n <= n' -> step (n, t) (n', t)
  | st_track e n p v c c' id t : step (n, t) (n, Track e n p v c c' id t)
  | st_fulfil e n p v c id t t' : Fulfil e p v c id t = Done t' -> step (n, t) (n, t')
  | st_fire n t : wake t = Some Armed -> step (n, t) (n, fire t)
  | st_clean n t t' : wake t = Some Fired -> clean n t = Done t' -> step (n, t) (n, t').

Lemma trk_inv_New now timeout : inv now (New timeout).
Proof.
  split; simpl; try done; try constructor.
  - intros Hin. by apply not_elem_of_nil in Hin.
  - intros [? Hx]. by rewrite lookup_empty in Hx.
Qed.

Lemma trk_inv_tick n n' t : n <= n' -> inv n t -> inv n' t.
Proof.
  intros Hle [? ? ? Ht ? ?]. split; try done. intros id r Hr. specialize (Ht id r Hr). lia.
Qed.

Lemma sorted_sub m m' l k :
  l `sublist_of` k -> (forall x r, x ∈ l -> m' !! x = Some r -> m !! x = Some r) ->
  StronglySorted (earlier m) k -> StronglySorted (earlier m') l.
Proof.
  intros Hl. induction Hl as [|x l k Hl IH|x l k Hl IH]; intros Hm Hs; [constructor| |].
  - apply StronglySorted_inv in Hs as [Hs Hall]. rewrite Forall_forall in Hall.
    constructor; [apply IH; [set_solver|done]|]. apply Forall_forall.
    intros y Hy a b Ha Hb. apply (Hall y); [by eapply elem_of_sublist| |];
      (apply Hm; [set_solver|done]).
  - apply StronglySorted_inv in Hs as [Hs _]. auto.
Qed.

(** Restricting the tracker to a sublist of the ids. *)
Lemma trk_inv_restrict now t l w m :
  inv now t -> l `sublist_of` expire t ->
  (forall id, id ∈ l <-> is_Some (m !! id)) -> (forall id r, m !! id = Some r -> pending t !! id = Some r) ->
  (m <> ∅ -> is_Some w) -> inv now (mk_tracker (timeout t) m l w).
Proof.
  intros [Hn Hd Hs Ht Hz Hw] Hl Hdom Hsub Hwk. split; simpl.
  - by eapply sublist_NoDup.
  - done.
  - apply (sorted_sub (pending t) m l (expire t)); [done|by eauto|done].
  - eauto.
  - etrans; [|exact Hz]. apply Nat2Z.inj_le, map_subseteq_size, map_subseteq_spec. auto.
  - done.
Qed.

Lemma Track_inv e n p v c c' id t : inv n t -> inv n (Track e n p v c c' id t).
Proof.
  intros Ht. unfold Track. destruct e; simpl; [|done].
  case_bool_decide as Hid; [done|]. apply eq_None_not_Some in Hid.
  destruct (Z.leb_spec maxTrackedPackets (Z.of_nat (size (pending t)))); [done|].
  destruct Ht as [Hn Hd Hs Htm Hz Hw].
  assert (Hnin : id ∉ expire t) by (rewrite Hd, Hid; apply is_Some_None).
  split; simpl.
  - apply NoDup_app. split_and!; [done|set_solver|apply NoDup_singleton].
  - intros x. rewrite elem_of_app, list_elem_of_singleton, Hd. destruct (decide (id = x)) as [->|Hne].
    + rewrite lookup_insert_eq. naive_solver.
    + rewrite lookup_insert_ne by done. naive_solver.
  - apply StronglySorted_app_2; [|by eapply sorted_sub; [| |exact Hs];
      [|intros x r Hx; rewrite lookup_insert_ne by set_solver]|repeat constructor].
    intros x y Hx ->%list_elem_of_singleton a b Ha Hb.
    rewrite lookup_insert_eq in Hb. simplify_eq. simpl.
    rewrite lookup_insert_ne in Ha by set_solver. eauto.
  - intros x r [[<- <-]|[_ Hr]]%lookup_insert_Some; [done|eauto].
  - rewrite map_size_insert_None by done. lia.
  - intros _. destruct (wake t); eauto.
Qed.

(** With an empty list the map is empty. *)
Lemma inv_empty n t : inv n t -> expire t = [] -> pending t = ∅.
Proof.
  intros Ht E. apply map_empty. intros id. apply eq_None_not_Some. rewrite <- (inv_dom _ _ Ht), E.
  apply not_elem_of_nil.
Qed.

Lemma schedule_inv n t :
  inv n (mk_tracker (timeout t) (pending t) (expire t) (Some Armed)) ->
  exists t', schedule t = Done t' /\ inv n t' /\ pending t' = pending t /\ expire t' = expire t
    /\ timeout t' = timeout t.
Proof.
  intros Ht. unfold schedule. destruct (expire t) as [|id l] eqn:E.
  - pose proof (inv_empty _ _ Ht eq_refl) as Hp. simpl in Hp.
    eexists. split_and!; try done. by destruct Ht.
  - destruct (proj1 (inv_dom _ _ Ht id)) as [r Hr]; [simpl; set_solver|]. simpl in Hr. rewrite Hr.
    eexists. split_and!; done.
Qed.

(** What [clean] removed. *)
Definition cleaned (now : Z) (t : tracker) (dropped : list Z) (t' : tracker) : Prop :=
  expire t = dropped ++ expire t' /\ timeout t' = timeout t
  /\ (forall id, pending t' !! id = if decide (id ∈ dropped) then None else pending t !! id)
  /\ (forall id, id ∈ dropped -> exists r, pending t !! id = Some r
        /\ timeout t + 5 * Millisecond <= now - time r)
  /\ (forall id r, pending t' !! id = Some r -> now - time r < timeout t + 5 * Millisecond).

(** Dropping the first id. *)
Lemma drop_first_inv n t id l :
  inv n t -> expire t = id :: l -> is_Some (wake t) ->
  inv n (mk_tracker (timeout t) (delete id (pending t)) l (wake t)).
Proof.
  intros Ht El Hw. pose proof (inv_nodup _ _ Ht) as Hn. rewrite El in Hn.
  apply NoDup_cons in Hn as [Hid Hn].
  apply (trk_inv_restrict n t); [done|rewrite El; by constructor| | |done].
  - intros x. pose proof (inv_dom _ _ Ht x) as Hx. rewrite El, elem_of_cons in Hx.
    destruct (decide (id = x)) as [->|Hne].
    + rewrite lookup_delete_eq. split; [done|by intros [? ?]].
    + rewrite lookup_delete_ne by done. naive_solver.
  - intros x r [_ Hr]%lookup_delete_Some. done.
Qed.

Lemma clean_loop_ok n now l t :
  inv n t -> expire t = l -> is_Some (wake t) ->
  exists t' dropped, clean_loop l now t = Done t' /\ inv n t' /\ wake t' = wake t
    /\ cleaned now t dropped t'.
Proof.
  revert t. induction l as [|id l IH]; intros t Ht El Hw; cbn [clean_loop].
  { exists t, []. split_and!; [done..|]. split_and!; [done..| |].
    - intros id Hin. by apply not_elem_of_nil in Hin.
    - intros id r Hr. by rewrite (inv_empty _ _ Ht El), lookup_empty in Hr. }
  destruct (proj1 (inv_dom _ _ Ht id)) as [req Hreq]; [rewrite El; set_solver|]. rewrite Hreq.
  destruct (Z.ltb_spec (now - time req) (timeout t + 5 * Millisecond)) as [Hlt|Hge].
  - exists t, []. split_and!; [done..|]. split_and!; [done..| |].
    + intros x Hin. by apply not_elem_of_nil in Hin.
    + intros x r Hr. pose proof (inv_sorted _ _ Ht) as Hs. rewrite El in Hs.
      apply StronglySorted_inv in Hs as [_ Hall]. rewrite Forall_forall in Hall.
      assert (x ∈ id :: l) as [->|Hx]%elem_of_cons
        by (rewrite <- El; apply (inv_dom _ _ Ht); rewrite Hr; eauto); [simplify_eq; lia|].
      specialize (Hall x Hx req r Hreq Hr). lia.
  - destruct (IH _ (drop_first_inv n t id l Ht El Hw) eq_refl Hw)
      as (t' & dropped & E & Ht' & Hw' & (Hex & Hto & Hp & Hdr & Hrest)). simpl in *.
    exists t', (id :: dropped). split_and!; [done..|]. split_and!.
    + rewrite El. simpl. by f_equal.
    + done.
    + intros x. rewrite Hp. destruct (decide (x = id)) as [->|Hne].
      * rewrite lookup_delete_eq. by do 2 case_decide; set_solver.
      * rewrite lookup_delete_ne by done. do 2 case_decide; set_solver.
    + intros x [->|Hx]%elem_of_cons; [by eauto|].
      destruct (Hdr x Hx) as (r & [_ Hr]%lookup_delete_Some & ?). eauto.
    + done.
Qed.

Lemma Fulfil_ok n e p v c id t :
  inv n t -> exists t', Fulfil e p v c id t = Done t' /\ inv n t'.
Proof.
  intros Ht. unfold Fulfil. destruct e; simpl; [|by eauto].
  destruct (pending t !! id) as [req|] eqn:Hr; [|by eauto].
  destruct (_ || _ || _)%bool; [by eauto|].
  assert (is_Some (wake t)) as [w Hw].
  { apply (inv_wake _ _ Ht). intros He. by rewrite He, lookup_empty in Hr. }
  assert (Hi : forall w', inv n (mk_tracker (timeout t) (delete id (pending t))
                 (filter (fun x => x <> id) (expire t)) (Some w'))).
  { intros w'. apply (trk_inv_restrict n t); [done|apply sublist_filter| | |by eauto].
    - intros x. rewrite list_elem_of_filter, (inv_dom _ _ Ht).
      destruct (decide (id = x)) as [->|Hne]; [rewrite lookup_delete_eq|rewrite lookup_delete_ne by done];
        [split; [naive_solver|by intros [? ?]]|naive_solver].
    - intros x r [_ Hx]%lookup_delete_Some. done. }
  rewrite Hw. destruct w; [|by eauto].
  destruct (schedule_inv n (mk_tracker (timeout t) (delete id (pending t))
              (filter (fun x => x <> id) (expire t)) (Some Armed)) (Hi Armed)) as (t' & E & Ht' & _).
  eauto.
Qed.

Lemma clean_ok n now t :
  inv n t -> wake t = Some Fired ->
  exists t' dropped, clean now t = Done t' /\ inv n t' /\ cleaned now t dropped t'.
Proof.
  intros Ht Hw.
  destruct (clean_loop_ok n now (expire t) t Ht eq_refl) as (t1 & dropped & E & Ht1 & Hw1 & Hc);
    [by rewrite Hw|].
  destruct (schedule_inv n t1) as (t' & E' & Ht' & Hp & He & Hto).
  { by destruct Ht1. }
  exists t', dropped. unfold clean, mbind, outcome_bind. rewrite E, E'.
  split_and!; [done|done|]. destruct Hc as (? & ? & ? & ? & ?).
  split_and!; rewrite ?Hp, ?He, ?Hto; done.
Qed.

Lemma trk_inv_step s s' : step s s' -> inv s.1 s.2 -> inv s'.1 s'.2.
Proof.
  destruct 1 as [n n' t Hle|e n p v c c' id t|e n p v c id t t' E|n t Hw|n t t' Hw E]; simpl; intros Ht.
  - by eapply trk_inv_tick.
  - by apply Track_inv.
  - destruct (Fulfil_ok n e p v c id t Ht) as (t2 & E2 & ?). rewrite E in E2. by simplify_eq.
  - by destruct Ht.
  - destruct (clean_ok n n t Ht Hw) as (t2 & d & E2 & ? & _). rewrite E in E2. by simplify_eq.
Qed.

Lemma trk_inv_reach n0 to s : rtc step (n0, New to) s -> inv s.1 s.2.
Proof.
  apply (invariant_reach step (fun s => inv s.1 s.2)); [apply trk_inv_New|].
  eauto using trk_inv_step.
Qed.

(** The request tracker: in every reachable state the expiration list and
    the pending map hold the same ids, in the order of their start times, at
    most [maxTrackedPackets] of them, and a timer is due while any is
    pending; [Fulfil] and [clean] never dereference a missing entry, and
    [clean] removes exactly the requests older than the timeout (plus its
    5 ms of slack). *)
Theorem tracker_consistent n0 to now t :
  rtc step (n0, New to) (now, t) ->
  NoDup (expire t) /\ (forall id, id ∈ expire t <-> is_Some (pending t !! id))
  /\ StronglySorted (earlier (pending t)) (expire t)
  /\ Z.of_nat (size (pending t)) <= maxTrackedPackets
  /\ (pending t <> ∅ -> is_Some (wake t))
  /\ (forall e p v c id, exists t', Fulfil e p v c id t = Done t')
  /\ (wake t = Some Fired -> exists t' dropped, clean now t = Done t' /\ cleaned now t dropped t').
Proof.
  intros Ht%trk_inv_reach. simpl in Ht. split_and!; try apply Ht.
  - intros e p v c id. destruct (Fulfil_ok now e p v c id t Ht) as (t' & E & _). eauto.
  - intros Hw. destruct (clean_ok now now t Ht Hw) as (t' & d & E & _ & Hc). eauto.
Qed.

Definition ex_tracker : tracker := Track true 7 "peer" 66 3 4 99 (New 300).

Lemma tracker_consistent_witness :
  99 ∈ expire ex_tracker <-> is_Some (pending ex_tracker !! 99).
Proof.
  apply (tracker_consistent 7 300 7 ex_tracker), rtc_once, st_track.
Defined.
End Tracker.
