(* ===== verification/Dispatcher.v ===== *)
(** * Requests and responses of an eth peer (eth/protocols/eth/dispatcher.go)

    The dispatcher goroutine tracks the requests sent to a peer by their random
    ids and matches the responses; [dispatchResponse] then delivers an accepted
    response to the requester unless the request was cancelled.  Requests are
    shared between the requester and the dispatcher, so they live in a store. *)

From stdpp Require Import base gmap sets list strings numbers.
From Stdlib Require Import ZArith Lia.
From S2P Require Import Prelude.

Module Dispatcher.

Record Request : Type := mk_Request { id : Z; code : Z; want : Z; cancelled : bool }.
Abbreviation reqRef := nat.

Inductive dispErr : Type :=
  | errDisconnected
  | errDanglingResponse
  | errMismatchingResponseType (have want : Z)
  | errNetwork (msg : string).

(** [reqs] are all requests ever dispatched; the lists are the requests whose
    response [dispatchResponse] is handling: accepted by the dispatcher,
    waiting for the requester, and delivered to it. *)
Record state : Type := mk_state {
  reqs : gmap reqRef Request;
  pending : gmap Z reqRef;
  accepted : list (reqRef * Z);
  waiting : list (reqRef * Z);
  delivered : list (reqRef * Z);
}.

Definition init : state := mk_state ∅ ∅ [] [] [].

(** <-p.reqDispatch: the network send fails with [sendErr], or the request is
    tracked; [dispatchRequest] returns the error. *)
Definition dispatchRequest (r : reqRef) (req : Request) (term : bool) (sendErr : option string)
    (s : state) : option dispErr * state :=
  if term then (Some errDisconnected, s)
  else
    let s := mk_state (<[r := req]> (reqs s)) (pending s) (accepted s) (waiting s) (delivered s) in
    match sendErr with
    | Some e => (Some (errNetwork e), s)
    | None => (None, mk_state (reqs s) (<[id req := r]> (pending s)) (accepted s) (waiting s) (delivered s))
    end.

(** <-p.reqCancel, a deletion whether or not the id is pending. *)
Definition dispatcher_cancel (i : Z) (s : state) : state :=
  mk_state (reqs s) (delete i (pending s)) (accepted s) (waiting s) (delivered s).

Definition set_cancelled (q : Request) : Request := mk_Request (id q) (code q) (want q) true.

(** Request.Close: closing the cancel channel a second time panics. *)
Definition Close (r : reqRef) (term : bool) (s : state) : outcome (option dispErr * state) :=
  match reqs s !! r with
  | None => Panic "nil pointer dereference"
  | Some q =>
      if term then Done (Some errDisconnected, s)
      else
        let s := dispatcher_cancel (id q) s in
        if cancelled q then Panic "close of closed channel"
        else Done (None, mk_state (<[r := set_cancelled q]> (reqs s)) (pending s)
                           (accepted s) (waiting s) (delivered s))
  end.

(** <-p.resDispatch: the verdict on a response. *)
Definition dispatcher_response (i c : Z) (s : state) : dispErr + reqRef * state :=
  match pending s !! i with
  | None => inl errDanglingResponse
  | Some r =>
      match reqs s !! r with
      | None => inl errDanglingResponse
      | Some q =>
          if negb (want q =? c) then inl (errMismatchingResponseType c (want q))
          else inr (r, mk_state (reqs s) (delete i (pending s)) ((r, c) :: accepted s)
                         (waiting s) (delivered s))
      end
  end.

(** [dispatchResponse]: an error of the dispatcher is dropped. *)
Definition dispatchResponse_start (i c : Z) (term : bool) (s : state) : option dispErr * state :=
  if term then (Some errDisconnected, s)
  else match dispatcher_response i c s with
       | inl _ => (None, s)
       | inr (_, s) => (None, s)
       end.

(** ** Runs *)
Inductive step : state -> state -> Prop :=
  | st_request r req e s s' :
      reqs s !! r = None -> cancelled req = false ->
      dispatchRequest r req false e s = (None, s') -> step s s'
  | st_close r s s' : Close r false s = Done (None, s') -> step s s'
  | st_response i c s s' : dispatchResponse_start i c false s = (None, s') -> step s s'
  (** The first select of the delivery: a cancelled request is dropped. *)
  | st_check_cancelled r c q l1 l2 rq pd w d :
      rq !! r = Some q -> cancelled q = true ->
      step (mk_state rq pd (l1 ++ (r, c) :: l2) w d) (mk_state rq pd (l1 ++ l2) w d)
  | st_check_ok r c q l1 l2 rq pd w d :
      rq !! r = Some q -> cancelled q = false ->
      step (mk_state rq pd (l1 ++ (r, c) :: l2) w d) (mk_state rq pd (l1 ++ l2) ((r, c) :: w) d)
  (** The second: the sink takes the response, or the request is cancelled. *)
  | st_deliver r c l1 l2 rq pd a d :
      step (mk_state rq pd a (l1 ++ (r, c) :: l2) d) (mk_state rq pd a (l1 ++ l2) ((r, c) :: d))
  | st_drop r c q l1 l2 rq pd a d :
      rq !! r = Some q -> cancelled q = true ->
      step (mk_state rq pd a (l1 ++ (r, c) :: l2) d) (mk_state rq pd a (l1 ++ l2) d).

Definition handled (s : state) : list (reqRef * Z) := accepted s ++ waiting s ++ delivered s.

Record inv (s : state) : Prop := {
  inv_pending i r : pending s !! i = Some r ->
    exists q, reqs s !! r = Some q /\ id q = i /\ cancelled q = false
      /\ r ∉ (handled s).*1;
  inv_handled r c : (r, c) ∈ handled s -> exists q, reqs s !! r = Some q /\ want q = c;
  inv_once : NoDup (handled s).*1;
}.

Lemma disp_inv_init : inv init.
Proof.
  split; simpl.
  - intros i r Hr. by rewrite lookup_empty in Hr.
  - intros r c Hin. by apply not_elem_of_nil in Hin.
  - constructor.
Qed.

(** Moving or dropping an entry of the lists. *)
Lemma inv_sublist s s' :
  inv s -> reqs s' = reqs s -> pending s' = pending s ->
  (exists k, handled s ≡ₚ k ++ handled s') -> inv s'.
Proof.
  intros [Hp Hh Ho] Er Ep [k Hk].
  assert (Hk1 : (handled s).*1 ≡ₚ k.*1 ++ (handled s').*1) by (rewrite Hk, fmap_app; done).
  split; rewrite ?Er, ?Ep.
  - intros i r Hr. destruct (Hp i r Hr) as (q & Hq & Hi & Hc & Hn). exists q.
    split_and!; [done..|]. intros Hin. apply Hn. rewrite Hk1. set_solver.
  - intros r c Hin. apply Hh. rewrite Hk. set_solver.
  - rewrite Hk1 in Ho. by apply list.NoDup_app in Ho as (_ & _ & ?).
Qed.

Lemma inv_request r req e s s' :
  inv s -> reqs s !! r = None -> cancelled req = false ->
  dispatchRequest r req false e s = (None, s') -> inv s'.
Proof.
  intros [Hp Hh Ho] Hr Hc E. unfold dispatchRequest in E. simpl in E.
  destruct e; [done|]. injection E as <-.
  assert (Hnew : r ∉ (handled s).*1).
  { intros [[r' c] [-> Hin]]%list_elem_of_fmap. destruct (Hh r' c Hin) as (q & Hq & _).
    simpl in Hr. congruence. }
  split; simpl.
  - intros i r' [[<- <-]|[_ Hr']]%lookup_insert_Some.
    + exists req. rewrite lookup_insert_eq. done.
    + destruct (Hp i r' Hr') as (q & Hq & ?). exists q. rewrite lookup_insert_ne by congruence. done.
  - intros r' c Hin. destruct (Hh r' c Hin) as (q & Hq & Hw). exists q.
    rewrite lookup_insert_ne by congruence. done.
  - done.
Qed.

Lemma inv_close r s s' : inv s -> Close r false s = Done (None, s') -> inv s'.
Proof.
  intros [Hp Hh Ho] E. unfold Close in E. destruct (reqs s !! r) as [q|] eqn:Hq; [|done].
  destruct (cancelled q); [done|]. injection E as <-. split; simpl.
  - intros i r' [Hne Hr']%lookup_delete_Some. destruct (Hp i r' Hr') as (q' & Hq' & Hi & ?).
    exists q'. rewrite lookup_insert_ne; [done|]. intros <-. congruence.
  - intros r' c Hin. destruct (Hh r' c Hin) as (q' & Hq' & Hw).
    destruct (decide (r = r')) as [<-|Hne].
    + rewrite lookup_insert_eq. simplify_eq. by eexists.
    + rewrite lookup_insert_ne by done. eauto.
  - done.
Qed.

Lemma inv_response i c s s' :
  inv s -> dispatchResponse_start i c false s = (None, s') -> inv s'.
Proof.
  intros Hs E. unfold dispatchResponse_start, dispatcher_response in E. simpl in E.
  destruct (pending s !! i) as [r|] eqn:Hr; [|by injection E as <-].
  destruct Hs as [Hp Hh Ho]. destruct (Hp i r Hr) as (q & Hq & Hi & Hc & Hn). rewrite Hq in E.
  destruct (Z.eqb_spec (want q) c) as [Hw|]; simpl in E; injection E as <-; [|by split].
  split; simpl.
  - intros j r' [Hne Hr']%lookup_delete_Some. destruct (Hp j r' Hr') as (q' & Hq' & Hi' & Hc' & Hn').
    exists q'. split_and!; [done..|]. unfold handled in *. simpl. intros [->|Hin]%elem_of_cons; [|done].
    congruence.
  - unfold handled. simpl. intros r' c' [[= -> ->]|Hin]%elem_of_cons; [by eauto|by apply Hh].
  - by constructor.
Qed.

Lemma disp_inv_step s s' : step s s' -> inv s -> inv s'.
Proof.
  intros Hst Hs. destruct Hst; eauto using inv_request, inv_close, inv_response.
  - apply (inv_sublist _ _ Hs); [done..|]. exists [(r, c)]. unfold handled. simpl. solve_Permutation.
  - apply (inv_sublist _ _ Hs); [done..|]. exists []. unfold handled. simpl. solve_Permutation.
  - apply (inv_sublist _ _ Hs); [done..|]. exists []. unfold handled. simpl. solve_Permutation.
  - apply (inv_sublist _ _ Hs); [done..|]. exists [(r, c)]. unfold handled. simpl. solve_Permutation.
Qed.

Lemma disp_inv_reach s : rtc step init s -> inv s.
Proof. apply invariant_reach; [apply disp_inv_init|]. eauto using disp_inv_step. Qed.


(** A cancelled request is forgotten at once: a response that arrives after
    [Close] is a dangling one for the dispatcher, and [dispatchResponse]
    hides that verdict from its caller. *)
Theorem cancelled_response_dangling r q c s s' :
  reqs s !! r = Some q -> Close r false s = Done (None, s') ->
  dispatcher_response (id q) c s' = inl errDanglingResponse
  /\ dispatchResponse_start (id q) c false s' = (None, s').
Proof.
  intros Hq E. unfold Close in E. rewrite Hq in E. destruct (cancelled q); [done|].
  injection E as <-. unfold dispatchResponse_start, dispatcher_response. simpl.
  by rewrite lookup_delete_eq.
Qed.

Definition ex_req : Request := mk_Request 42 3 4 false.
Definition ex_d1 : state := (dispatchRequest 0%nat ex_req false None init).2.
Definition ex_d2 : state := (dispatchResponse_start 42 4 false ex_d1).2.
Definition ex_d3 : state := mk_state (reqs ex_d2) (pending ex_d2) [] [(0%nat, 4)] [].
Definition ex_d4 : state := mk_state (reqs ex_d2) (pending ex_d2) [] [] [(0%nat, 4)].


Lemma cancelled_response_dangling_witness :
  exists s', Close 0%nat false ex_d1 = Done (None, s')
    /\ dispatcher_response 42 4 s' = inl errDanglingResponse.
Proof.
  eexists. split; [vm_compute; reflexivity|].
  apply (cancelled_response_dangling 0%nat ex_req 4 ex_d1); vm_compute; reflexivity.
Defined.
End Dispatcher.
