(* ===== verification/ChainReader.v ===== *)
(** * Reading headers of the chain (core/headerchain.go, core/rawdb)

    The header chain as the eth handlers see it: the key-value store with the
    recent headers and every side header, the freezer with the canonical
    headers below [Ancients], and the header cache in front of both.  The
    database does not change while a query is served; the cache does, and is
    threaded through the reads.  A header stands for its RLP encoding, whose
    length is a parameter of the database, with its length on disk.

    The cache of block numbers returns what the database returned for the same
    hash and is left out. *)

From stdpp Require Import base gmap sets list numbers strings.
From Stdlib Require Import ZArith Lia.
From S2P Require Import Prelude Externals KnownCache EthPeer.

Module ChainReader.
Import EthPeer.

Record Db : Type := mk_Db {
  kvHeaders : gmap (Z * Hash) Header;   (* headerKey(number, hash) *)
  kvCanonical : gmap Z Hash;            (* headerHashKey(number) *)
  kvNumbers : gmap Hash Z;              (* headerNumberKey(hash) *)
  frozenHeaders : list Header;          (* the freezer's header table *)
  frozenHashes : list Hash;             (* the freezer's hash table *)
  itemOffset : Z;                       (* items pruned from the freezer *)
  currentHeader : Z;                    (* number of the current header *)
  rlpLen : Header -> Z;
  diskLen : Header -> Z;                (* after compression *)
}.

(** The largest slice the runtime allocates (linux/amd64). *)
Definition maxAlloc : Z := 2 ^ 48.

Section Reader.
Context (db : Db) {L : Type} `{Lru Hash Header L}.

(** ** The database *)
Definition Ancients : Z := len (frozenHeaders db).

Definition ancient {A} (table : list A) (number : Z) : option A :=
  if (itemOffset db <=? number) && (number <? len table)
  then table !! Z.to_nat number else None.

(** The zero hash when there is none. *)
Definition ReadCanonicalHash (number : Z) : Hash :=
  match ancient (frozenHashes db) number with
  | Some hash => hash
  | None => default 0 (kvCanonical db !! number)
  end.

Definition ReadHeader (hash : Hash) (number : Z) : option Header :=
  match ancient (frozenHeaders db) number with
  | Some h => if hdr_Hash h =? hash then Some h else kvHeaders db !! (number, hash)
  | None => kvHeaders db !! (number, hash)
  end.

(** Items until the byte limit, but at least one: the raw read, which goes by
    the sizes on disk, *)
Fixpoint retrieve_loop (first : bool) (totalSize maxBytes : Z) (l : list Header) : list Header :=
  match l with
  | [] => []
  | h :: r =>
      let total' := totalSize + diskLen db h in
      if (negb first && (maxBytes <? total'))%bool then []
      else h :: (if maxBytes <? total' then [] else retrieve_loop false total' maxBytes r)
  end.
(** and the decompression, which goes by the decoded sizes. *)
Fixpoint decode_loop (first : bool) (outputSize maxBytes : Z) (l : list Header) : list Header :=
  match l with
  | [] => []
  | h :: r =>
      let size' := outputSize + rlpLen db h in
      if (negb first && (maxBytes <? size'))%bool then []
      else h :: decode_loop false size' maxBytes r
  end.

(** [None] is errOutOfBounds. *)
Definition retrieveItems (start count maxBytes : Z) : outcome (option (list Header)) :=
  let itemCount := len (frozenHeaders db) in
  if ((itemCount <=? start) || (start <? itemOffset db) || (count =? 0))%bool then Done None
  else
    let count := if itemCount <? u64 (start + count) then itemCount - start else count in
    if maxAlloc <? maxBytes then Panic "makeslice: len out of range"
    else Done (Some (retrieve_loop true 0 maxBytes
                       (take (Z.to_nat count) (drop (Z.to_nat start) (frozenHeaders db))))).
Definition RetrieveItems (start count maxBytes : Z) : outcome (option (list Header)) :=
  r ← retrieveItems start count maxBytes;
  Done (option_map (decode_loop true 0 maxBytes) r).
Definition AncientRange (start count maxBytes : Z) : outcome (option (list Header)) :=
  RetrieveItems start count maxBytes.

(** The live part of [ReadHeaderRange]: the headers read, the next number and
    what is left to read.  The canonical headers that are not frozen have the
    numbers from [Ancients] to the current one; a round more is enough. *)
Fixpoint read_live (fuel : nat) (i : Z) (hash : Hash) (count : Z) : list Header * Z * Z :=
  match fuel with
  | O => ([], i, count)
  | S f =>
      if ((Ancients <=? i) && (0 <? count))%bool then
        match kvHeaders db !! (i, hash) with
        | Some h => let '(l, i', count') := read_live f (u64 (i - 1)) (hdr_ParentHash h) (count - 1) in
                    (h :: l, i', count')
        | None => ([], i, count)
        end
      else ([], i, count)
  end.
(** Read what is left from the freezer, all of it or nothing. *)
Definition read_ancient (i count : Z) : outcome (list Header) :=
  if count =? 0 then Done []
  else
    data ← AncientRange (u64 (i + 1 - count)) count (u64 (count * 700));
    match data with
    | Some data => if len data =? count then Done (rev data) else Done []
    | None => Done []
    end.
Definition ReadHeaderRange (number count : Z) : outcome (list Header) :=
  if count =? 0 then Done []
  else
    let count := if number <? count - 1 then u64 (number + 1) else count in
    let '(rlpHeaders, i, count) :=
      if Ancients <=? number
      then read_live (S (Z.to_nat (currentHeader db + 1 - Ancients))) number (ReadCanonicalHash number) count
      else ([], number, count) in
    data ← read_ancient i count;
    Done (rlpHeaders ++ data).

(** ** The header chain *)
Definition cacheGet (hash : Hash) : GoM L (option Header) := fun l => Done (lru_get hash l).
Definition cacheAdd (hash : Hash) (h : Header) : GoM L unit := gmodify (lru_add hash h).

Definition GetHeader (hash : Hash) (number : Z) : GoM L (option Header) :=
  cached ← cacheGet hash;
  match cached with
  | Some h => mret (Some h)
  | None =>
      match ReadHeader hash number with
      | Some h => cacheAdd hash h;; mret (Some h)
      | None => mret None
      end
  end.
Definition GetBlockNumber (hash : Hash) : option Z := kvNumbers db !! hash.
Definition GetHeaderByHash (hash : Hash) : GoM L (option Header) :=
  match GetBlockNumber hash with
  | Some number => GetHeader hash number
  | None => mret None
  end.
Definition GetHeaderByNumber (number : Z) : GoM L (option Header) :=
  let hash := ReadCanonicalHash number in
  if hash =? 0 then mret None else GetHeader hash number.
Definition GetCanonicalHash (number : Z) : Hash := ReadCanonicalHash number.

(** The cached part of [GetHeadersFrom]: the headers, the next number and what
    is left.  A header's ancestors are as many as its number, so [fuel] rounds
    above the number are never used up. *)
Fixpoint read_cache (fuel : nat) (hash : Hash) (number count : Z) : GoM L (list Header * Z * Z) :=
  match fuel with
  | O => mret ([], number, count)
  | S f =>
      if 0 <? count then
        cached ← cacheGet hash;
        match cached with
        | Some h =>
            '(l, n', c') ← read_cache f (hdr_ParentHash h) (u64 (number - 1)) (count - 1);
            mret (h :: l, n', c')
        | None => mret ([], number, count)
        end
      else mret ([], number, count)
  end.
(** The clipping of a request for headers that do not exist yet. *)
Definition clip (number count : Z) : option (Z * Z) :=
  let current := currentHeader db in
  if current <? number then
    if number - current <? count then Some (current, count - (number - current)) else None
  else Some (number, count).
Definition lift {A} (o : outcome A) : GoM L A := fun l => x ← o; Done (x, l).
Definition GetHeadersFrom (number count : Z) : GoM L (list Header) :=
  match clip number count with
  | None => mret []
  | Some (number, count) =>
      let hash := ReadCanonicalHash number in
      if hash =? 0 then mret []
      else
        '(headers, number, count) ← read_cache (S (S (Z.to_nat number))) hash number count;
        if 0 <? count then
          rest ← lift (ReadHeaderRange number count);
          mret (headers ++ rest)
        else mret headers
  end.

(** ** Ancestors: hash and number, and what is left of the budget of
    non-canonical lookups.  Every round that goes on costs one of the budget.
    The source reads the canonical hash a second time in case of a
    concurrent reorganisation; here both reads agree. *)
Fixpoint ancestor_loop (fuel : nat) (hash : Hash) (number ancestor budget : Z)
    : GoM L (Hash * Z * Z) :=
  match fuel with
  | O => mret (0, 0, budget)
  | S f =>
      if ancestor =? 0 then mret (hash, number, budget)
      else if ReadCanonicalHash number =? hash
      then mret (ReadCanonicalHash (number - ancestor), number - ancestor, budget)
      else if budget =? 0 then mret (0, 0, budget)
      else
        header ← GetHeader hash number;
        match header with
        | None => mret (0, 0, budget - 1)
        | Some h => ancestor_loop f (hdr_ParentHash h) (number - 1) (ancestor - 1) (budget - 1)
        end
  end.
Definition GetAncestor (hash : Hash) (number ancestor budget : Z) : GoM L (Hash * Z * Z) :=
  if number <? ancestor then mret (0, 0, budget)
  else if ancestor =? 1 then
    header ← GetHeader hash number;
    match header with
    | Some h => mret (hdr_ParentHash h, number - 1, budget)
    | None => mret (0, 0, budget)
    end
  else ancestor_loop (S (Z.to_nat budget)) hash number ancestor budget.

(** ** The chain the reads are meant to see *)
Definition canonical (n : Z) : option Header :=
  match ancient (frozenHeaders db) n with
  | Some h => Some h
  | None => hash ← kvCanonical db !! n; kvHeaders db !! (n, hash)
  end.
Definition stored (h : Header) : Prop :=
  h ∈ frozenHeaders db \/ exists k, kvHeaders db !! k = Some h.

(** The canonical headers among [n], [n - 1], ..., [n - k + 1]. *)
Fixpoint descending (k : nat) (n : Z) : list Header :=
  match k with
  | O => []
  | S k => match canonical n with
           | Some h => h :: descending k (n - 1)
           | None => descending k (n - 1)
           end
  end.

(** A consistent database: the two freezer tables belong together, every key
    is that of its header, the canonical chain is complete and linked, the
    freezer holds its lower part, hashes do not collide, and no frozen header
    is larger than the 700 bytes [ReadHeaderRange] plans for. *)
Record wf : Prop := {
  wf_sync : frozenHashes db = hdr_Hash <$> frozenHeaders db;
  wf_offset : itemOffset db = 0;
  wf_current : 0 <= currentHeader db < 2 ^ 63;
  wf_ancients : Ancients <= currentHeader db + 1;
  wf_frozen n h : frozenHeaders db !! n = Some h -> hdr_Number h = Z.of_nat n;
  wf_kv n hash h : kvHeaders db !! (n, hash) = Some h ->
    hdr_Hash h = hash /\ hdr_Number h = n /\ 0 <= n < 2 ^ 64;
  wf_canonical n : is_Some (kvCanonical db !! n) -> 0 <= n <= currentHeader db;
  wf_live n : Ancients <= n <= currentHeader db ->
    exists hash h, kvCanonical db !! n = Some hash /\ kvHeaders db !! (n, hash) = Some h;
  wf_linked n h p : canonical n = Some h -> canonical (n + 1) = Some p -> hdr_ParentHash p = hdr_Hash h;
  wf_genesis h : canonical 0 = Some h -> hdr_ParentHash h = 0;
  wf_nonzero h : stored h -> hdr_Hash h <> 0;
  wf_inj h h' : stored h -> stored h' -> hdr_Hash h = hdr_Hash h' -> h = h';
  wf_parent h p : stored h -> stored p -> hdr_ParentHash h = hdr_Hash p ->
    hdr_Number p = hdr_Number h - 1;
  wf_numbers hash n : kvNumbers db !! hash = Some n <-> is_Some (ReadHeader hash n);
  wf_sizes h : h ∈ frozenHeaders db -> 0 <= rlpLen db h <= 700 /\ 0 <= diskLen db h <= 700;
}.

(** The cache holds stored headers under their hashes. *)
Definition cache_ok (l : L) : Prop :=
  forall hash h, (lru_get hash l).1 = Some h -> hdr_Hash h = hash /\ stored h.
End Reader.

(** ** The reads see the canonical chain *)
Section ReaderProps.
Context (db : Db) {L : Type} `{LruLaws Hash Header L} (Hwf : wf db).

Lemma ancient_lookup {A} (table : list A) n :
  ancient db table n = if 0 <=? n then table !! Z.to_nat n else None.
Proof.
  unfold ancient. rewrite (wf_offset db Hwf). destruct (Z.leb_spec 0 n); [|done]. simpl.
  destruct (Z.ltb_spec n (len table)) as [|Hge]; [done|]. symmetry.
  apply lookup_ge_None. unfold len in Hge. lia.
Qed.

Lemma canonical_stored n h :
  canonical db n = Some h ->
  stored db h /\ hdr_Number h = n /\ 0 <= n <= currentHeader db
  /\ (n < Ancients db /\ frozenHeaders db !! Z.to_nat n = Some h
      \/ Ancients db <= n /\ kvHeaders db !! (n, hdr_Hash h) = Some h).
Proof.
  unfold canonical. rewrite ancient_lookup.
  destruct (Z.leb_spec 0 n) as [Hn|Hn]; [destruct (frozenHeaders db !! _) as [h'|] eqn:E|].
  - intros [= ->]. pose proof (wf_frozen db Hwf _ _ E). apply lookup_lt_Some in E as Hlt.
    pose proof (wf_ancients db Hwf). unfold Ancients, len in *.
    split; [left; by eapply list_elem_of_lookup_2|]. split; [lia|]. split; [lia|]. left. split; [lia|done].
  - intros (hash & Hc & Hk)%bind_Some. destruct (wf_kv db Hwf _ _ _ Hk) as (<- & ? & ?).
    pose proof (wf_canonical db Hwf n ltac:(eauto)).
    apply lookup_ge_None in E. unfold Ancients, len.
    split; [right; by eauto|]. split; [done|]. split; [done|]. right. split; [lia|done].
  - intros (hash & Hc & Hk)%bind_Some. pose proof (wf_canonical db Hwf n ltac:(eauto)). lia.
Qed.

Lemma canonical_exists n : 0 <= n <= currentHeader db -> exists h, canonical db n = Some h.
Proof.
  intros Hn. unfold canonical. rewrite ancient_lookup. destruct (Z.leb_spec 0 n); [|lia].
  destruct (frozenHeaders db !! _) as [h|] eqn:E; [by eauto|]. apply lookup_ge_None in E.
  destruct (wf_live db Hwf n) as (hash & h & -> & Hk); [unfold Ancients, len; lia|]. by exists h.
Qed.
Lemma canonical_outside n : ~ (0 <= n <= currentHeader db) -> canonical db n = None.
Proof.
  intros Hn. destruct (canonical db n) as [h|] eqn:E; [|done].
  apply canonical_stored in E as (_ & _ & ? & _). tauto.
Qed.

Lemma ReadCanonicalHash_spec n :
  ReadCanonicalHash db n = match canonical db n with Some h => hdr_Hash h | None => 0 end.
Proof.
  unfold ReadCanonicalHash, canonical. rewrite !ancient_lookup, (wf_sync db Hwf), list_lookup_fmap.
  destruct (Z.leb_spec 0 n) as [Hn|Hn]; [destruct (frozenHeaders db !! _) as [h|] eqn:E; [done|]|].
  - simpl. destruct (kvCanonical db !! n) as [hash|] eqn:Ec; [|done]. simpl.
    apply lookup_ge_None in E. pose proof (wf_canonical db Hwf n ltac:(eauto)).
    destruct (wf_live db Hwf n) as (hash' & h & Hc & Hk); [unfold Ancients, len; lia|].
    rewrite Ec in Hc. simplify_eq. rewrite Hk. by destruct (wf_kv db Hwf _ _ _ Hk).
  - destruct (kvCanonical db !! n) eqn:Ec; [|done]. pose proof (wf_canonical db Hwf n ltac:(eauto)). lia.
Qed.

Lemma canonical_parent n h :
  canonical db n = Some h -> hdr_ParentHash h = ReadCanonicalHash db (n - 1).
Proof.
  intros Hh. rewrite ReadCanonicalHash_spec. apply canonical_stored in Hh as Hs.
  destruct Hs as (_ & _ & Hn & _). destruct (decide (n = 0)) as [->|].
  - rewrite canonical_outside by lia. by apply (wf_genesis db Hwf).
  - destruct (canonical_exists (n - 1)) as [p Hp]; [lia|]. rewrite Hp.
    eapply (wf_linked db Hwf); [done|]. by replace (n - 1 + 1) with n by lia.
Qed.

Lemma stored_canonical n h :
  stored db h -> ReadCanonicalHash db n = hdr_Hash h -> canonical db n = Some h.
Proof.
  intros Hs Hc. rewrite ReadCanonicalHash_spec in Hc. destruct (canonical db n) as [p|] eqn:E.
  - apply canonical_stored in E as (? & _). f_equal. by apply (wf_inj db Hwf).
  - by apply (wf_nonzero db Hwf) in Hs.
Qed.

(** ** Segments *)
Lemma descending_app a b n :
  descending db (a + b) n = descending db a n ++ descending db b (n - Z.of_nat a).
Proof.
  revert n. induction a as [|a IH]; intros n; simpl; [by rewrite Z.sub_0_r|].
  rewrite IH. replace (n - 1 - Z.of_nat a) with (n - Z.of_nat (S a)) by lia.
  by destruct (canonical db n).
Qed.
Lemma descending_neg k n : n < 0 -> descending db k n = [].
Proof.
  revert n. induction k as [|k IH]; intros n Hn; [done|]. simpl.
  rewrite canonical_outside by lia. apply IH. lia.
Qed.
Lemma descending_future k n :
  currentHeader db <= n ->
  descending db k n = descending db (k - Z.to_nat (n - currentHeader db)) (currentHeader db).
Proof.
  revert n. induction k as [|k IH]; intros n Hn; [done|].
  destruct (decide (n = currentHeader db)) as [->|].
  - by rewrite Z.sub_diag.
  - cbn [descending]. rewrite canonical_outside by lia. rewrite IH by lia. f_equal. lia.
Qed.
Lemma descending_length k n :
  0 <= n <= currentHeader db -> Z.of_nat k <= n + 1 -> length (descending db k n) = k.
Proof.
  revert n. induction k as [|k IH]; intros n Hn Hk; [done|]. simpl.
  destruct (canonical_exists n Hn) as [h ->]. simpl. f_equal.
  destruct (decide (n = 0)) as [->|]; [|apply IH; lia]. by destruct k; [|lia].
Qed.
Lemma descending_cut k n : 0 <= n -> n + 1 <= Z.of_nat k -> descending db k n = descending db (Z.to_nat (n + 1)) n.
Proof.
  intros Hn Hk. replace k with (Z.to_nat (n + 1) + (k - Z.to_nat (n + 1)))%nat by lia.
  rewrite descending_app, (descending_neg _ (n - _)) by lia. by rewrite app_nil_r.
Qed.

(** ** The live part *)
Lemma read_live_spec fuel n count :
  -1 <= n <= currentHeader db -> Ancients db - 1 <= n -> 0 <= count <= n + 1 ->
  n - Ancients db + 1 < Z.of_nat fuel ->
  let k := Z.min count (n - Ancients db + 1) in
  read_live db fuel (u64 n) (ReadCanonicalHash db n) count
  = (descending db (Z.to_nat k) n, u64 (n - k), count - k).
Proof.
  pose proof (wf_current db Hwf). pose proof (len_nonneg (frozenHeaders db)).
  revert n count. induction fuel as [|f IH]; intros n count Hn Ha Hc Hf k; [lia|].
  cbn [read_live]. destruct (Z.ltb_spec 0 count) as [Hpos|]; cycle 1.
  { replace k with 0 by (unfold k, Ancients in *; lia). rewrite andb_false_r, !Z.sub_0_r. done. }
  rewrite u64_small by (unfold is_u64; lia).
  destruct (Z.leb_spec (Ancients db) n) as [Hle|]; cycle 1.
  { simpl. replace k with 0 by (unfold k in *; lia). rewrite !Z.sub_0_r, u64_small; [done|unfold is_u64; lia]. }
  simpl. destruct (canonical_exists n) as [h Hh]; [lia|].
  apply canonical_stored in Hh as Hs. destruct Hs as (_ & _ & _ & [?|[_ Hk]]); [lia|].
  rewrite ReadCanonicalHash_spec, Hh, Hk, (canonical_parent n h Hh).
  rewrite IH by (unfold Ancients in *; lia).
  replace (Z.to_nat k) with (S (Z.to_nat (Z.min (count - 1) (n - 1 - Ancients db + 1)))) by (unfold k; lia).
  cbn [descending]. rewrite Hh. unfold k. f_equal; [f_equal; f_equal; lia|lia].
Qed.

(** ** The frozen part *)
Lemma retrieve_loop_all first tot maxBytes l :
  Forall (fun h => 0 <= diskLen db h <= 700) l -> 0 <= tot -> tot + 700 * len l <= maxBytes ->
  retrieve_loop db first tot maxBytes l = l.
Proof.
  intros Hl. revert first tot. induction Hl as [|h l Hh Hl IH]; intros first tot Ht Hm; [done|].
  autorewrite with octopus_len in Hm. pose proof (len_nonneg l). simpl.
  destruct (Z.ltb_spec maxBytes (tot + diskLen db h)); [lia|].
  rewrite andb_false_r, IH by lia. done.
Qed.
Lemma decode_loop_all first tot maxBytes l :
  Forall (fun h => 0 <= rlpLen db h <= 700) l -> 0 <= tot -> tot + 700 * len l <= maxBytes ->
  decode_loop db first tot maxBytes l = l.
Proof.
  intros Hl. revert first tot. induction Hl as [|h l Hh Hl IH]; intros first tot Ht Hm; [done|].
  autorewrite with octopus_len in Hm. pose proof (len_nonneg l). simpl.
  destruct (Z.ltb_spec maxBytes (tot + rlpLen db h)); [lia|].
  rewrite andb_false_r, IH by lia. done.
Qed.

Lemma descending_frozen k n :
  -1 <= n < Ancients db -> Z.of_nat k <= n + 1 ->
  rev (take k (drop (Z.to_nat (n + 1) - k) (frozenHeaders db))) = descending db k n.
Proof.
  revert n. induction k as [|k IH]; intros n Hn Hk; [by rewrite take_0|].
  cbn [descending]. destruct (canonical_exists n) as [h Hh].
  { pose proof (wf_ancients db Hwf). lia. }
  rewrite Hh. apply canonical_stored in Hh as (_ & _ & _ & [[_ Hl]|[? _]]); [|lia].
  rewrite <- IH by lia. replace (Z.to_nat (n - 1 + 1) - k)%nat with (Z.to_nat (n + 1) - S k)%nat by lia.
  rewrite (take_S_r _ _ h), rev_app_distr; [done|].
  rewrite lookup_drop, <- Hl. f_equal. lia.
Qed.

Lemma read_ancient_spec n count :
  -1 <= n < Ancients db -> 0 <= count <= n + 1 -> count <= 2 ^ 32 ->
  read_ancient db (u64 n) count = Done (descending db (Z.to_nat count) n).
Proof.
  intros Hn Hc Hmax. unfold read_ancient. destruct (Z.eqb_spec count 0) as [->|]; [done|].
  pose proof (wf_current db Hwf). pose proof (wf_ancients db Hwf).
  rewrite (u64_small n) by (unfold is_u64; lia). rewrite !u64_small by (unfold is_u64; lia).
  unfold AncientRange, RetrieveItems, retrieveItems. rewrite (wf_offset db Hwf).
  fold (Ancients db). destruct (Z.leb_spec (Ancients db) (n + 1 - count)); [lia|].
  destruct (Z.ltb_spec (n + 1 - count) 0); [lia|]. destruct (Z.eqb_spec count 0); [lia|]. simpl.
  rewrite u64_small by (unfold is_u64; lia).
  destruct (Z.ltb_spec (Ancients db) (n + 1 - count + count)); [lia|].
  destruct (Z.ltb_spec maxAlloc (count * 700)); [unfold maxAlloc in *; lia|]. simpl.
  set (l := take _ _).
  assert (Hsz : Forall (fun h => (0 <= rlpLen db h <= 700) /\ 0 <= diskLen db h <= 700) l).
  { apply List.Forall_forall. intros h Hh. apply (wf_sizes db Hwf).
    apply list_elem_of_In in Hh. unfold l in Hh. apply elem_of_take in Hh as (i & Hi & _).
    rewrite lookup_drop in Hi. by eapply list_elem_of_lookup_2. }
  assert (Hlen : len l = count).
  { unfold l, len. rewrite length_take, length_drop. unfold Ancients, len in *. lia. }
  rewrite retrieve_loop_all; [|eapply List.Forall_impl; [|exact Hsz]; simpl; tauto|lia|lia].
  rewrite decode_loop_all; [|eapply List.Forall_impl; [|exact Hsz]; simpl; tauto|lia|lia].
  rewrite Hlen, Z.eqb_refl. f_equal. rewrite <- descending_frozen by lia. unfold l.
  do 3 f_equal. lia.
Qed.

Lemma ReadHeaderRange_spec n count :
  0 <= n <= currentHeader db -> is_u64 count -> Z.min count (n + 1) <= 2 ^ 32 ->
  ReadHeaderRange db n count = Done (descending db (Z.to_nat count) n).
Proof.
  intros Hn Hc Hmax. unfold is_u64 in Hc. unfold ReadHeaderRange.
  destruct (Z.eqb_spec count 0) as [->|]; [done|].
  pose proof (wf_current db Hwf). pose proof (wf_ancients db Hwf).
  pose proof (len_nonneg (frozenHeaders db)).
  set (c := if n <? count - 1 then u64 (n + 1) else count).
  assert (Hcut : 0 < c <= n + 1 /\ c <= count /\
                 descending db (Z.to_nat count) n = descending db (Z.to_nat c) n).
  { unfold c. destruct (Z.ltb_spec n (count - 1)).
    - rewrite u64_small by (unfold is_u64; lia). rewrite (descending_cut (Z.to_nat count)) by lia. split_and!; done || lia.
    - split_and!; done || lia. }
  destruct Hcut as (? & ? & ->). clearbody c.
  destruct (Z.leb_spec (Ancients db) n).
  - pose proof (read_live_spec (S (Z.to_nat (currentHeader db + 1 - Ancients db))) n c) as Hl.
    cbv zeta in Hl. rewrite u64_small in Hl by (unfold is_u64; lia).
    rewrite Hl by lia. set (k := Z.min c (n - Ancients db + 1)).
    assert (0 <= k <= c) by (unfold k; lia).
    destruct (decide (c = k)) as [Hck|].
    + unfold read_ancient. rewrite <- Hck, Z.sub_diag. simpl. by rewrite app_nil_r.
    + rewrite read_ancient_spec by (unfold k, Ancients in *; lia). simpl. f_equal.
      replace (Z.to_nat c) with (Z.to_nat k + Z.to_nat (c - k))%nat by lia.
      rewrite descending_app. do 2 f_equal. lia.
  - rewrite <- (u64_small n) at 1 by (unfold is_u64; lia).
    rewrite read_ancient_spec by lia. done.
Qed.

(** After the genesis header the number has wrapped around. *)
Lemma ReadHeaderRange_wrapped count :
  0 <= count <= 2 ^ 32 -> ReadHeaderRange db (u64 (-1)) count = Done [].
Proof.
  intros Hc. unfold ReadHeaderRange. destruct (Z.eqb_spec count 0); [done|].
  pose proof (wf_current db Hwf). pose proof (wf_ancients db Hwf).
  change (u64 (-1)) with (2 ^ 64 - 1).
  destruct (Z.ltb_spec (2 ^ 64 - 1) (count - 1)); [lia|].
  destruct (Z.leb_spec (Ancients db) (2 ^ 64 - 1)) as [Ha|]; [|lia]. cbn [read_live].
  rewrite (proj2 (Z.leb_le _ _) Ha). destruct (Z.ltb_spec 0 count); [|lia]. simpl.
  rewrite ReadCanonicalHash_spec, canonical_outside by lia.
  destruct (kvHeaders db !! _) as [h|] eqn:Eh.
  { assert (stored db h) by (right; eauto). apply (wf_kv db Hwf) in Eh as (? & _).
    by apply (wf_nonzero db Hwf) in H6. }
  unfold read_ancient. destruct (Z.eqb_spec count 0); [lia|].
  replace (2 ^ 64 - 1 + 1 - count) with (2 ^ 64 - count) by lia.
  rewrite u64_small by (unfold is_u64; lia).
  unfold AncientRange, RetrieveItems, retrieveItems. fold (Ancients db).
  by destruct (Z.leb_spec (Ancients db) (2 ^ 64 - count)); [|lia].
Qed.

(** ** The cache *)
Lemma cacheGet_runs hash :
  runs (cache_ok db) (cacheGet hash)
    (fun r => forall h, r = Some h -> hdr_Hash h = hash /\ stored db h).
Proof.
  intros l Hl. exists (lru_get hash l).1, (lru_get hash l).2.
  split; [unfold cacheGet; by destruct (lru_get hash l)|]. split; [|by apply Hl].
  intros hash' h'. rewrite lru_get_get. apply Hl.
Qed.
Lemma cacheAdd_runs hash h :
  hdr_Hash h = hash -> stored db h -> runs (cache_ok db) (cacheAdd hash h) (fun _ => True).
Proof.
  intros Hh Hs l Hl. eexists _, _. split; [done|]. split; [|done].
  intros hash' h' [[-> ->]|Hg]%lru_get_add; [done|by apply Hl].
Qed.

(** What is read from the cache is the start of the segment. *)
Lemma read_cache_runs fuel n count :
  -1 <= n <= currentHeader db -> 0 <= count ->
  runs (cache_ok db) (read_cache fuel (ReadCanonicalHash db n) (u64 n) count)
    (fun '(hs, n', c') => exists k, 0 <= k <= count /\ k <= n + 1
       /\ hs = descending db (Z.to_nat k) n /\ n' = u64 (n - k) /\ c' = count - k).
Proof.
  pose proof (wf_current db Hwf).
  revert n count. induction fuel as [|f IH]; intros n count Hn Hc.
  { apply runs_ret. exists 0. rewrite !Z.sub_0_r. split_and!; done || lia. }
  cbn [read_cache]. destruct (Z.ltb_spec 0 count); cycle 1.
  { apply runs_ret. exists 0. rewrite !Z.sub_0_r. split_and!; done || lia. }
  eapply runs_bind; [apply cacheGet_runs|]. intros [h|] Hh; cycle 1.
  { apply runs_ret. exists 0. rewrite !Z.sub_0_r. split_and!; done || lia. }
  destruct (Hh h eq_refl) as [Hhash Hs]. symmetry in Hhash.
  pose proof (stored_canonical n h Hs Hhash) as Hcan.
  apply canonical_stored in Hcan as Hcs. destruct Hcs as (_ & _ & ? & _).
  rewrite (canonical_parent n h Hcan), (u64_small n) by (unfold is_u64; lia).
  eapply runs_bind; [apply IH; lia|]. intros [[hs n'] c'] (k & ? & ? & -> & -> & ->).
  apply runs_ret. exists (k + 1). replace (Z.to_nat (k + 1)) with (S (Z.to_nat k)) by lia.
  cbn [descending]. rewrite Hcan. split_and!; [lia|lia|lia|done|f_equal; lia|lia].
Qed.

Lemma lift_runs {A} (o : outcome A) a :
  o = Done a -> runs (cache_ok (L := L) db) (lift o) (fun x => x = a).
Proof. intros -> l Hl. by exists a, l. Qed.

Lemma GetHeadersFrom_present n count :
  0 <= n <= currentHeader db -> 0 <= count <= 2 ^ 32 ->
  runs (cache_ok (L := L) db)
    ('(headers, number, count) ← read_cache (S (S (Z.to_nat n))) (ReadCanonicalHash db n) n count;
     if 0 <? count then
       rest ← lift (ReadHeaderRange db number count);
       mret (headers ++ rest)
     else mret headers)
    (fun hs => hs = descending db (Z.to_nat count) n).
Proof.
  intros Hn Hc. pose proof (wf_current db Hwf).
  rewrite <- (u64_small n) at 3 by (unfold is_u64; lia).
  eapply runs_bind; [apply read_cache_runs; lia|].
  intros [[hs n'] c'] (k & ? & ? & -> & -> & ->).
  destruct (Z.ltb_spec 0 (count - k)); [|apply runs_ret; by replace k with count by lia].
  eapply runs_bind with (P := fun rest => rest = descending db (Z.to_nat (count - k)) (n - k)).
  - apply lift_runs. destruct (decide (k = n + 1)) as [->|].
    + rewrite descending_neg by lia.
      replace (n - (n + 1)) with (-1) by lia. apply ReadHeaderRange_wrapped. lia.
    + rewrite u64_small by (unfold is_u64; lia). apply ReadHeaderRange_spec; unfold is_u64; lia.
  - intros rest ->. apply runs_ret.
    replace (Z.to_nat count) with (Z.to_nat k + Z.to_nat (count - k))%nat by lia.
    rewrite descending_app. do 2 f_equal. lia.
Qed.

Lemma GetHeadersFrom_runs n count :
  is_u64 n -> 0 <= count <= 2 ^ 32 ->
  runs (cache_ok (L := L) db) (GetHeadersFrom db n count)
    (fun hs => hs = descending db (Z.to_nat count) n).
Proof.
  intros Hn Hc. unfold GetHeadersFrom, clip. pose proof (wf_current db Hwf).
  assert (Hz : forall m, 0 <= m <= currentHeader db -> (ReadCanonicalHash db m =? 0) = false).
  { intros m Hm. rewrite ReadCanonicalHash_spec. destruct (canonical_exists m Hm) as [h Hh]. rewrite Hh.
    apply canonical_stored in Hh as (?%(wf_nonzero db Hwf) & _). by apply Z.eqb_neq. }
  unfold is_u64 in Hn. destruct (Z.ltb_spec (currentHeader db) n).
  - rewrite descending_future by lia. destruct (Z.ltb_spec (n - currentHeader db) count).
    + rewrite Hz by lia. replace (Z.to_nat count - _)%nat with (Z.to_nat (count - (n - currentHeader db))) by lia.
      apply GetHeadersFrom_present; lia.
    + replace (Z.to_nat count - _)%nat with 0%nat by lia. by apply runs_ret.
  - rewrite Hz by lia. apply GetHeadersFrom_present; lia.
Qed.

(** ** Single headers *)
Lemma ReadHeader_stored hash n h :
  ReadHeader db hash n = Some h -> hdr_Hash h = hash /\ stored db h /\ hdr_Number h = n.
Proof.
  unfold ReadHeader. rewrite ancient_lookup.
  assert (Hkv : kvHeaders db !! (n, hash) = Some h -> hdr_Hash h = hash /\ stored db h /\ hdr_Number h = n).
  { intros Hk. destruct (wf_kv db Hwf _ _ _ Hk) as (? & ? & _). split_and!; [done|right; eauto|done]. }
  destruct (Z.leb_spec 0 n); [|done]. destruct (frozenHeaders db !! _) as [h'|] eqn:E; [|done].
  destruct (Z.eqb_spec (hdr_Hash h') hash); [|done]. intros [= ->].
  pose proof (wf_frozen db Hwf _ _ E). split_and!; [done| |lia].
  left. by eapply list_elem_of_lookup_2.
Qed.
Lemma stored_ReadHeader h : stored db h -> ReadHeader db (hdr_Hash h) (hdr_Number h) = Some h.
Proof.
  intros Hs. unfold ReadHeader. rewrite ancient_lookup. destruct Hs as [Hf|[[n hash] Hk]].
  - apply list_elem_of_lookup_1 in Hf as [i Hi]. rewrite (wf_frozen db Hwf _ _ Hi).
    rewrite (proj2 (Z.leb_le 0 (Z.of_nat i))), Nat2Z.id, Hi, Z.eqb_refl by lia. done.
  - assert (Hst : stored db h) by (right; eauto). destruct (wf_kv db Hwf _ _ _ Hk) as (<- & <- & Hn).
    rewrite (proj2 (Z.leb_le 0 (hdr_Number h))) by lia.
    destruct (frozenHeaders db !! _) as [h'|] eqn:E; [|done].
    destruct (Z.eqb_spec (hdr_Hash h') (hdr_Hash h)); [|done]. f_equal.
    apply (wf_inj db Hwf); [|done|done]. left. by eapply list_elem_of_lookup_2.
Qed.

Lemma GetHeader_runs hash n :
  runs (cache_ok db) (GetHeader db hash n)
    (fun r => (forall h, r = Some h -> hdr_Hash h = hash /\ stored db h)
              /\ (r = None -> ReadHeader db hash n = None)).
Proof.
  unfold GetHeader. eapply runs_bind; [apply cacheGet_runs|]. intros [h|] Hh.
  - apply runs_ret. split; [by intros ? [= <-]; apply Hh|done].
  - destruct (ReadHeader db hash n) as [h|] eqn:E; [|apply runs_ret; by split].
    apply ReadHeader_stored in E as (? & ? & _). eapply runs_bind; [by apply cacheAdd_runs|].
    intros _ _. apply runs_ret. split; [by intros ? [= <-]|done].
Qed.
Lemma GetHeaderByHash_runs hash :
  runs (cache_ok db) (GetHeaderByHash db hash)
    (fun r => match r with
              | Some h => hdr_Hash h = hash /\ stored db h
              | None => forall h, stored db h -> hdr_Hash h <> hash
              end).
Proof.
  unfold GetHeaderByHash, GetBlockNumber. destruct (kvNumbers db !! hash) as [n|] eqn:E.
  - eapply runs_weaken; [apply GetHeader_runs|]. intros [h|] [Hs Hn]; [by apply Hs|].
    apply (wf_numbers db Hwf) in E as [h Hh]. by rewrite Hn in Hh.
  - apply runs_ret. intros h Hs <-. apply stored_ReadHeader in Hs.
    assert (kvNumbers db !! hdr_Hash h = Some (hdr_Number h)) by (apply (wf_numbers db Hwf); eauto).
    congruence.
Qed.
Lemma GetHeaderByNumber_runs n :
  runs (cache_ok db) (GetHeaderByNumber db n) (fun r => r = canonical db n).
Proof.
  unfold GetHeaderByNumber. rewrite ReadCanonicalHash_spec.
  destruct (canonical db n) as [h|] eqn:E; [|by apply runs_ret].
  apply canonical_stored in E as Hs. destruct Hs as (Hs & Hnum & _).
  destruct (Z.eqb_spec (hdr_Hash h) 0) as [Hz|]; [by apply (wf_nonzero db Hwf) in Hs|].
  eapply runs_weaken; [apply GetHeader_runs|]. intros [h'|] [Hs' Hn].
  - destruct (Hs' h' eq_refl). f_equal. by apply (wf_inj db Hwf).
  - apply stored_ReadHeader in Hs. rewrite Hnum in Hs. by rewrite Hn in Hs.
Qed.

(** ** Ancestors *)
Definition numbered (hash : Hash) (n : Z) : Prop :=
  forall h, stored db h -> hdr_Hash h = hash -> hdr_Number h = n.

Lemma numbered_canonical n : numbered (ReadCanonicalHash db n) n.
Proof.
  intros h Hs Hh. symmetry in Hh. apply stored_canonical in Hh; [|done].
  by apply canonical_stored in Hh as (_ & ? & _).
Qed.
Lemma numbered_parent h n : stored db h -> numbered (hdr_Hash h) n -> numbered (hdr_ParentHash h) (n - 1).
Proof.
  intros Hs Hn p Hp Heq. rewrite <- (Hn h Hs eq_refl). by apply (wf_parent db Hwf).
Qed.

Lemma ancestor_loop_runs fuel hash n anc budget :
  0 <= anc <= n -> numbered hash n ->
  runs (cache_ok db) (ancestor_loop db fuel hash n anc budget)
    (fun '(hash', n', _) => hash' <> 0 -> n' = n - anc /\ 0 <= n' /\ numbered hash' n').
Proof.
  revert hash n anc budget. induction fuel as [|f IH]; intros hash n anc budget Ha Hn.
  { by apply runs_ret. }
  cbn [ancestor_loop]. destruct (Z.eqb_spec anc 0) as [->|].
  { apply runs_ret. rewrite Z.sub_0_r. intros _. split_and!; done || lia. }
  destruct (Z.eqb_spec (ReadCanonicalHash db n) hash).
  { apply runs_ret. intros _. split_and!; [done|lia|apply numbered_canonical]. }
  destruct (Z.eqb_spec budget 0); [by apply runs_ret|].
  eapply runs_bind; [apply GetHeader_runs|]. intros [h|] [Hh _]; [|by apply runs_ret].
  destruct (Hh h eq_refl) as [<- Hs].
  eapply runs_weaken; [apply IH; [lia|by apply numbered_parent]|].
  intros [[hash' n'] b] Hp Hz. destruct (Hp Hz) as (? & ? & ?). split_and!; [lia|lia|done].
Qed.

Lemma GetAncestor_runs hash n anc budget :
  0 < anc -> numbered hash n ->
  runs (cache_ok db) (GetAncestor db hash n anc budget)
    (fun '(hash', n', _) => hash' <> 0 -> n' = n - anc /\ 0 <= n' /\ numbered hash' n').
Proof.
  intros Ha Hn. unfold GetAncestor. destruct (Z.ltb_spec n anc); [by apply runs_ret|].
  destruct (Z.eqb_spec anc 1) as [->|]; [|apply ancestor_loop_runs; [lia|done]].
  eapply runs_bind; [apply GetHeader_runs|]. intros [h|] [Hh _]; [|by apply runs_ret].
  destruct (Hh h eq_refl) as [<- Hs]. apply runs_ret. intros _. split_and!; [done|lia|by apply numbered_parent].
Qed.

End ReaderProps.

(** ** The byte budget of the freezer read *)
Definition rlpTotal (db : Db) (l : list Header) : Z := foldr (fun h a => rlpLen db h + a) 0 l.

Lemma retrieve_loop_prefix db first tot maxBytes l : retrieve_loop db first tot maxBytes l `prefix_of` l.
Proof.
  revert first tot. induction l as [|h l IH]; intros first tot; simpl; [done|].
  destruct (negb first && _); [apply prefix_nil|].
  destruct (maxBytes <? _); apply prefix_cons; [apply prefix_nil|apply IH].
Qed.
Lemma decode_loop_length db first tot maxBytes l :
  (length (decode_loop db first tot maxBytes l) <= length l)%nat.
Proof.
  revert first tot. induction l as [|h l IH]; intros first tot; simpl; [lia|].
  destruct (negb first && _); simpl; [lia|]. pose proof (IH false (tot + rlpLen db h)). lia.
Qed.
Lemma decode_loop_fits db tot maxBytes l :
  tot <= maxBytes -> length (decode_loop db false tot maxBytes l) = length l ->
  tot + rlpTotal db l <= maxBytes.
Proof.
  revert tot. induction l as [|h l IH]; intros tot Ht; simpl; [lia|].
  destruct (Z.ltb_spec maxBytes (tot + rlpLen db h)); simpl; [lia|].
  intros [= Hl]. apply IH in Hl; lia.
Qed.

(** The freezer is asked for [700 * count] bytes.  When the frozen
    headers of the segment are larger than that, the read comes back short and
    [ReadHeaderRange] returns none of them, although it has read them. *)
Theorem oversized_segment_dropped db n count :
  let segment := take (Z.to_nat count) (drop (Z.to_nat (n + 1 - count)) (frozenHeaders db)) in
  itemOffset db = 0 -> 0 <= n < Ancients db -> 2 <= count <= n + 1 -> count <= 2 ^ 32 ->
  Ancients db < 2 ^ 63 -> Forall (fun h => 0 <= rlpLen db h <= 1400) segment ->
  700 * count < rlpTotal db segment ->
  ReadHeaderRange db n count = Done [].
Proof.
  intros seg Hoff Hn Hc Hmax Ha Hpos Hbig. unfold ReadHeaderRange.
  destruct (Z.eqb_spec count 0); [lia|]. destruct (Z.ltb_spec n (count - 1)); [lia|].
  destruct (Z.leb_spec (Ancients db) n); [lia|]. unfold read_ancient.
  destruct (Z.eqb_spec count 0); [lia|]. rewrite !u64_small by (unfold is_u64; lia).
  unfold AncientRange, RetrieveItems, retrieveItems. rewrite Hoff. fold (Ancients db).
  destruct (Z.leb_spec (Ancients db) (n + 1 - count)); [lia|].
  destruct (Z.ltb_spec (n + 1 - count) 0); [lia|]. destruct (Z.eqb_spec count 0); [lia|]. simpl.
  rewrite u64_small by (unfold is_u64; lia).
  destruct (Z.ltb_spec (Ancients db) (n + 1 - count + count)); [lia|].
  destruct (Z.ltb_spec maxAlloc (count * 700)); [unfold maxAlloc in *; lia|]. simpl. fold seg.
  assert (Hlen : len seg = count).
  { unfold seg, len. rewrite length_take, length_drop. unfold Ancients, len in *. lia. }
  destruct (Z.eqb_spec (len (decode_loop db true 0 (count * 700)
              (retrieve_loop db true 0 (count * 700) seg))) count) as [Heq|]; [exfalso|done].
  pose proof (retrieve_loop_prefix db true 0 (count * 700) seg) as Hp.
  pose proof (decode_loop_length db true 0 (count * 700) (retrieve_loop db true 0 (count * 700) seg)).
  pose proof (prefix_length _ _ Hp).
  apply prefix_length_eq in Hp; [|unfold len in *; lia]. rewrite Hp in Heq. clear Hp.
  destruct seg as [|h r]; [unfold len in *; simpl in *; lia|]. cbn [decode_loop] in Heq.
  cbn [negb andb] in Heq. rewrite Z.add_0_l in Heq. rewrite len_cons in Heq, Hlen. apply Forall_cons in Hpos as [? _].
  pose proof (decode_loop_fits db (rlpLen db h) (count * 700) r ltac:(lia)) as Hf. simpl in Hbig.
  unfold len in *. lapply Hf; lia.
Qed.

(** ** A chain of four headers, two of them frozen, and a side header *)
Definition ex_h0 : Header := mk_Header 10 0 0.
Definition ex_h1 : Header := mk_Header 11 10 1.
Definition ex_h2 : Header := mk_Header 12 11 2.
Definition ex_h3 : Header := mk_Header 13 12 3.
Definition ex_side : Header := mk_Header 22 11 2.
Definition ex_db : Db := {|
  kvHeaders := {[ (2, 12) := ex_h2; (3, 13) := ex_h3; (2, 22) := ex_side ]};
  kvCanonical := {[ 2 := 12; 3 := 13 ]};
  kvNumbers := {[ 10 := 0; 11 := 1; 12 := 2; 13 := 3; 22 := 2 ]};
  frozenHeaders := [ex_h0; ex_h1];
  frozenHashes := [10; 11];
  itemOffset := 0;
  currentHeader := 3;
  rlpLen _ := 600;
  diskLen _ := 500;
|}.

Ltac ex_lookups :=
  repeat match goal with
  | H : context [ <[_ := _]> _ !! _ = Some _ ] |- _ => rewrite lookup_insert_Some in H
  | H : context [ {[_ := _]} !! _ = Some _ ] |- _ => rewrite lookup_singleton_Some in H
  end.

Lemma ex_kv n hash h :
  kvHeaders ex_db !! (n, hash) = Some h ->
  (n, hash, h) ∈ [(2, 12, ex_h2); (3, 13, ex_h3); (2, 22, ex_side)].
Proof. intros Hk. simpl in Hk. ex_lookups. set_unfold. naive_solver. Qed.
Lemma ex_kvc n hash : kvCanonical ex_db !! n = Some hash -> (n, hash) ∈ [(2, 12); (3, 13)].
Proof. intros Hk. simpl in Hk. ex_lookups. set_unfold. naive_solver. Qed.
Lemma ex_frozen n h :
  ancient ex_db (frozenHeaders ex_db) n = Some h -> (n, h) ∈ [(0, ex_h0); (1, ex_h1)].
Proof.
  unfold ancient. simpl. intros Hk. case_match eqn:E; [|done]. bools.
  destruct (decide (n = 0)) as [->|]; [simplify_eq/=; set_solver|].
  assert (n = 1) as -> by (unfold len in *; simpl in *; lia). simplify_eq/=. set_solver.
Qed.
Lemma ex_canonical n h :
  canonical ex_db n = Some h -> (n, h) ∈ [(0, ex_h0); (1, ex_h1); (2, ex_h2); (3, ex_h3)].
Proof.
  unfold canonical. destruct (ancient _ _ n) as [h'|] eqn:E.
  - apply ex_frozen in E. intros [= ->]. set_solver.
  - intros (hash & Hc%ex_kvc & Hk%ex_kv)%bind_Some. set_unfold. naive_solver.
Qed.
Lemma ex_stored h : stored ex_db h -> h ∈ [ex_h0; ex_h1; ex_h2; ex_h3; ex_side].
Proof. intros [Hf|[[n hash] Hk%ex_kv]]; set_unfold; naive_solver. Qed.
Lemma ex_numbers hash n :
  kvNumbers ex_db !! hash = Some n -> (hash, n) ∈ [(10, 0); (11, 1); (12, 2); (13, 3); (22, 2)].
Proof. intros Hk. simpl in Hk. ex_lookups. set_unfold. naive_solver. Qed.

Lemma ex_wf : wf ex_db.
Proof.
  split; try done.
  - intros [|[|n]] h Hh; simplify_eq/=; done.
  - intros n hash h Hk%ex_kv. set_unfold. naive_solver lia.
  - intros n [hash Hk%ex_kvc]. set_unfold. naive_solver lia.
  - intros n Hn. assert (n = 2 \/ n = 3) as [-> | ->] by (unfold Ancients, len in Hn; simpl in Hn; lia);
      eexists _, _; split; reflexivity.
  - intros n h p0 Hh%ex_canonical Hp%ex_canonical. set_unfold.
    destruct_or!; simplify_eq/=; done || lia.
  - intros h Hh%ex_canonical. set_unfold. naive_solver.
  - intros h Hs%ex_stored. set_unfold. naive_solver.
  - intros h h' Hs%ex_stored Hs'%ex_stored. set_unfold. naive_solver.
  - intros h p Hs%ex_stored Hs'%ex_stored. set_unfold. naive_solver.
  - intros hash n. split.
    + intros Hk%ex_numbers. set_unfold. destruct_or!; simplify_eq/=; eexists; reflexivity.
    + unfold ReadHeader. destruct (ancient _ _ n) as [h|] eqn:E; intros [h' Hh].
      * apply ex_frozen in E. destruct (Z.eqb_spec (hdr_Hash h) hash) as [<-|].
        -- set_unfold. destruct_or!; simplify_eq/=; done.
        -- apply ex_kv in Hh. set_unfold. destruct_or!; simplify_eq/=; done.
      * apply ex_kv in Hh. set_unfold. destruct_or!; simplify_eq/=; done.
Qed.
Lemma ex_cache_ok : cache_ok (L := lru2 Hash Header) ex_db [(12, ex_h2)].
Proof.
  intros hash h. rewrite lru2_get_fst, filter_cons. cbn [fst].
  destruct (decide (12 = hash)) as [<-|]; [|done].
  intros [= <-]. split; [done|]. right. by exists (2, 12).
Qed.


Definition ex_big : Db :=
  mk_Db (kvHeaders ex_db) (kvCanonical ex_db) (kvNumbers ex_db) (frozenHeaders ex_db)
    (frozenHashes ex_db) 0 3 (fun h => if hdr_Number h =? 0 then 600 else 1100) (fun _ => 500).

Lemma oversized_segment_dropped_witness : ReadHeaderRange ex_big 1 2 = Done [].
Proof.
  apply (oversized_segment_dropped ex_big 1 2);
    vm_compute; lia || done || by repeat constructor.
Defined.
End ChainReader.
