(* ===== verification/EthServe.v ===== *)
(** * Serving requests (eth/protocols/eth/handlers.go)

    The replies to header, body, node data, receipt and transaction requests,
    on top of the header chain of ChainReader.v.  Bodies, trie nodes, contract
    code, receipts and pooled transactions are read by hash from a store. *)

From stdpp Require Import base gmap sets list numbers strings.
From Stdlib Require Import ZArith Lia.
From S2P Require Import Prelude Externals KnownCache EthPeer ChainReader.

Module EthServe.
Import EthPeer ChainReader.

Definition softResponseLimit : Z := 2 * 1024 * 1024.
Definition maxHeadersServe : Z := 1024.
Definition maxBodiesServe : Z := 1024.
Definition maxNodeDataServe : Z := 1024.
Definition maxReceiptsServe : Z := 1024.

Record HashOrNumber : Type := mk_HashOrNumber { on_Hash : Hash; on_Number : Z }.
Record GetBlockHeadersPacket : Type := mk_GetBlockHeadersPacket {
  Origin : HashOrNumber;
  Amount : Z;
  Skip : Z;
  Reverse : bool;
}.

Section Headers.
Context (db : Db) {L : Type} `{Lru Hash Header L}.

(** ** Headers at a distance: the loop's variables *)
Record ncState : Type := mk_ncState {
  nc_Hash : Hash;              (* query.Origin.Hash *)
  nc_Number : Z;               (* query.Origin.Number *)
  nc_first : bool;
  nc_maxNonCanonical : Z;
  nc_bytes : Z;
  nc_unknown : bool;
}.

(** Retrieve the next header satisfying the query; the first lookup by hash
    also sets the number. *)
Definition nc_origin (hashMode : bool) (st : ncState) : GoM L (option Header * ncState) :=
  if hashMode then
    if nc_first st then
      origin ← GetHeaderByHash db (nc_Hash st);
      let number := match origin with Some h => u64 (hdr_Number h) | None => nc_Number st end in
      mret (origin, mk_ncState (nc_Hash st) number false (nc_maxNonCanonical st) (nc_bytes st) (nc_unknown st))
    else
      origin ← GetHeader db (nc_Hash st) (nc_Number st);
      mret (origin, st)
  else
    origin ← GetHeaderByNumber db (nc_Number st);
    mret (origin, st).

(** Advance to the next header of the query. *)
Definition nc_advance (hashMode : bool) (query : GetBlockHeadersPacket) (origin : Header)
    (st : ncState) : GoM L ncState :=
  let moved hash number budget unknown :=
    mk_ncState hash number (nc_first st) budget (nc_bytes st) unknown in
  let budget := nc_maxNonCanonical st in
  if (hashMode && Reverse query)%bool then
    let ancestor := u64 (Skip query + 1) in
    if ancestor =? 0 then mret (moved (nc_Hash st) (nc_Number st) budget true)
    else
      '(hash, number, budget) ← GetAncestor db (nc_Hash st) (nc_Number st) ancestor budget;
      mret (moved hash number budget (hash =? 0))
  else if hashMode then
    let current := u64 (hdr_Number origin) in
    let next := u64 (current + Skip query + 1) in
    if next <=? current then mret (moved (nc_Hash st) (nc_Number st) budget true)
    else
      header ← GetHeaderByNumber db next;
      match header with
      | Some header =>
          let nextHash := hdr_Hash header in
          '(expOldHash, _, budget) ← GetAncestor db nextHash next (u64 (Skip query + 1)) budget;
          if expOldHash =? nc_Hash st then mret (moved nextHash next budget (nc_unknown st))
          else mret (moved (nc_Hash st) (nc_Number st) budget true)
      | None => mret (moved (nc_Hash st) (nc_Number st) budget true)
      end
  else if Reverse query then
    if u64 (Skip query + 1) <=? nc_Number st
    then mret (moved (nc_Hash st) (nc_Number st - u64 (Skip query + 1)) budget (nc_unknown st))
    else mret (moved (nc_Hash st) (nc_Number st) budget true)
  else mret (moved (nc_Hash st) (u64 (nc_Number st + u64 (Skip query + 1))) budget (nc_unknown st)).

(** The loop: [fuel] is the number of lookups left of [2*maxHeadersServe]. *)
Fixpoint nc_loop (fuel : nat) (hashMode : bool) (query : GetBlockHeadersPacket)
    (st : ncState) (headers : list Header) : GoM L (list Header) :=
  match fuel with
  | O => mret headers
  | S f =>
      if (negb (nc_unknown st) && (len headers <? i64 (Amount query))
          && (nc_bytes st <? softResponseLimit) && (len headers <? maxHeadersServe))%bool then
        '(origin, st) ← nc_origin hashMode st;
        match origin with
        | None => mret headers
        | Some origin =>
            let st := mk_ncState (nc_Hash st) (nc_Number st) (nc_first st)
                        (nc_maxNonCanonical st) (nc_bytes st + rlpLen db origin) (nc_unknown st) in
            st ← nc_advance hashMode query origin st;
            nc_loop f hashMode query st (headers ++ [origin])
        end
      else mret headers
  end.
Definition serviceNonContiguousBlockHeaderQuery (query : GetBlockHeadersPacket) : GoM L (list Header) :=
  let hashMode := negb (on_Hash (Origin query) =? 0) in
  nc_loop (Z.to_nat (2 * maxHeadersServe)) hashMode query
    (mk_ncState (on_Hash (Origin query)) (on_Number (Origin query)) true 100 0 false) [].

(** ** Contiguous headers *)
(** Ancestors of [header], [fuel] of them at most. *)
Fixpoint ancestors (fuel : nat) (header : Header) : GoM L (list Header) :=
  match fuel with
  | O => mret []
  | S f =>
      parent ← GetHeaderByHash db (hdr_ParentHash header);
      match parent with
      | None => mret []
      | Some p => rest ← ancestors f p; mret (p :: rest)
      end
  end.
Definition serviceContiguousBlockHeaderQuery (query : GetBlockHeadersPacket) : GoM L (list Header) :=
  let count := if maxHeadersServe <? Amount query then maxHeadersServe else Amount query in
  if on_Hash (Origin query) =? 0 then
    let from := on_Number (Origin query) in
    let from := if Reverse query then from else u64 (from + count - 1) in
    headers ← GetHeadersFrom db from count;
    mret (if Reverse query then headers else rev headers)
  else
    let hash := on_Hash (Origin query) in
    header ← GetHeaderByHash db hash;
    match header with
    | None => mret []
    | Some header =>
        let num := u64 (hdr_Number header) in
        if negb (Reverse query) then
          if negb (GetCanonicalHash db num =? hash) then mret [header]
          else
            descendants ← GetHeadersFrom db (u64 (num + count - 1)) (u64 (count - 1));
            mret (header :: rev descendants)
        else
          rest ← ancestors (Z.to_nat (count - 1)) header;
          mret (header :: rest)
    end.

Definition ServiceGetBlockHeadersQuery (query : GetBlockHeadersPacket) : GoM L (list Header) :=
  if Skip query =? 0 then serviceContiguousBlockHeaderQuery query
  else serviceNonContiguousBlockHeaderQuery query.
End Headers.

(** ** Data by hash *)
Section Data.
(** A byte string stands for its content and its length. *)
Context {Bytes : Type} (blen : Bytes -> Z).

Record Store : Type := mk_Store {
  GetBodyRLP : Hash -> Bytes;                 (* empty when unknown *)
  TrieNode : Hash -> option Bytes;            (* None: an error *)
  ContractCodeWithPrefix : Hash -> option Bytes;
  GetReceiptsByHash : Hash -> option Bytes;   (* the encoded receipts; None: nil *)
  emptyReceipts : Bytes;                      (* the encoding of nil *)
  ReceiptRootEmpty : Hash -> bool;            (* header known, ReceiptHash empty *)
  PoolGet : Hash -> option Bytes;             (* the encoded transaction *)
}.
Context (store : Store).

(** [for lookups, hash := range query] with the three limits; [lookup] is
    what the body of the loop appends, if anything. *)
Fixpoint serve (maxServe : Z) (lookup : Hash -> option Bytes)
    (lookups bytes : Z) (acc : list Bytes) (query : list Hash) : list Bytes :=
  match query with
  | [] => acc
  | hash :: query =>
      if ((softResponseLimit <=? bytes) || (maxServe <=? len acc) || (2 * maxServe <=? lookups))%bool
      then acc
      else match lookup hash with
           | Some data => serve maxServe lookup (lookups + 1) (bytes + blen data) (acc ++ [data]) query
           | None => serve maxServe lookup (lookups + 1) bytes acc query
           end
  end.

Definition body_lookup (hash : Hash) : option Bytes :=
  let data := GetBodyRLP store hash in
  if negb (blen data =? 0) then Some data else None.
Definition ServiceGetBlockBodiesQuery (query : list Hash) : list Bytes :=
  serve maxBodiesServe body_lookup 0 0 [] query.

Definition node_lookup (hash : Hash) : option Bytes :=
  let entry := match TrieNode store hash with
               | Some entry => if blen entry =? 0 then ContractCodeWithPrefix store hash else Some entry
               | None => ContractCodeWithPrefix store hash
               end in
  match entry with
  | Some entry => if 0 <? blen entry then Some entry else None
  | None => None
  end.
Definition ServiceGetNodeDataQuery (query : list Hash) : list Bytes :=
  serve maxNodeDataServe node_lookup 0 0 [] query.

Definition receipt_lookup (hash : Hash) : option Bytes :=
  match GetReceiptsByHash store hash with
  | Some encoded => Some encoded
  | None => if ReceiptRootEmpty store hash then Some (emptyReceipts store) else None
  end.
Definition ServiceGetReceiptsQuery (query : list Hash) : list Bytes :=
  serve maxReceiptsServe receipt_lookup 0 0 [] query.

Fixpoint answer_loop (bytes : Z) (hashes : list Hash) (txs : list Bytes) (query : list Hash)
    : list Hash * list Bytes :=
  match query with
  | [] => (hashes, txs)
  | hash :: query =>
      if softResponseLimit <=? bytes then (hashes, txs)
      else match PoolGet store hash with
           | None => answer_loop bytes hashes txs query
           | Some encoded =>
               answer_loop (bytes + blen encoded) (hashes ++ [hash]) (txs ++ [encoded]) query
           end
  end.
Definition answerGetPooledTransactions (query : list Hash) : list Hash * list Bytes :=
  answer_loop 0 [] [] query.
End Data.

(** ** Header queries: what they are meant to return *)
(** The canonical headers among [n], [n + 1], ..., [n + k - 1]. *)
Fixpoint ascending (db : Db) (k : nat) (n : Z) : list Header :=
  match k with
  | O => []
  | S k => match canonical db n with
           | Some h => h :: ascending db k (n + 1)
           | None => ascending db k (n + 1)
           end
  end.
(** Each header is the parent of the one before it. *)
Fixpoint lineage (db : Db) (h : Header) (l : list Header) : Prop :=
  match l with
  | [] => True
  | p :: l => stored db p /\ hdr_Hash p = hdr_ParentHash h /\ lineage db p l
  end.

Definition contiguous_answer (db : Db) (q : GetBlockHeadersPacket) (hs : list Header) : Prop :=
  let count := Z.min (Amount q) maxHeadersServe in
  let hash := on_Hash (Origin q) in
  if hash =? 0 then
    hs = if Reverse q then descending db (Z.to_nat count) (on_Number (Origin q))
         else ascending db (Z.to_nat count) (on_Number (Origin q))
  else
    (hs = [] /\ forall h, stored db h -> hdr_Hash h <> hash)
    \/ exists h t, hs = h :: t /\ stored db h /\ hdr_Hash h = hash
       /\ if Reverse q then
            lineage db h t /\ len hs <= count
            /\ (len hs = count
                \/ forall p, stored db p -> hdr_Hash p <> hdr_ParentHash (List.last t h))
          else if decide (canonical db (hdr_Number h) = Some h)
          then t = ascending db (Z.to_nat (count - 1)) (hdr_Number h + 1)
          else t = [].

Lemma ascending_snoc db k n :
  ascending db (S k) n = ascending db k n ++ ascending db 1 (n + Z.of_nat k).
Proof.
  revert n. induction k as [|k IH]; intros n; [by rewrite Z.add_0_r|].
  cbn [ascending] in IH |- *. rewrite IH.
  replace (n + 1 + Z.of_nat k) with (n + Z.of_nat (S k)) by lia.
  by destruct (canonical db n).
Qed.
Lemma rev_descending db k n : rev (descending db k (n + Z.of_nat k - 1)) = ascending db k n.
Proof.
  induction k as [|k IH]; [done|]. rewrite ascending_snoc, <- IH. cbn [descending ascending].
  replace (n + Z.of_nat (S k) - 1) with (n + Z.of_nat k) by lia.
  destruct (canonical db (n + Z.of_nat k)); simpl; by rewrite ?app_nil_r.
Qed.
Lemma ascending_length db k n : (length (ascending db k n) <= k)%nat.
Proof.
  revert n. induction k as [|k IH]; intros n; [done|]. simpl.
  specialize (IH (n + 1)). destruct (canonical db n); simpl; lia.
Qed.

Lemma last_cons_default {A} (x d : A) l : List.last (x :: l) d = List.last l x.
Proof.
  revert x d. induction l as [|y l IH]; intros x d; [done|].
  change (List.last (y :: l) d = List.last (y :: l) x). by rewrite !IH.
Qed.

Section HeaderProps.
Context (db : Db) {L : Type} `{LruLaws Hash Header L} (Hwf : wf db).

Lemma ancestors_runs fuel h :
  runs (cache_ok db) (ancestors db fuel h)
    (fun t => lineage db h t /\ (length t <= fuel)%nat
       /\ (length t = fuel \/ forall p, stored db p -> hdr_Hash p <> hdr_ParentHash (List.last t h))).
Proof.
  revert h. induction fuel as [|f IH]; intros h; cbn [ancestors].
  { apply runs_ret. split_and!; [done|done|by left]. }
  eapply runs_bind; [by apply (GetHeaderByHash_runs db Hwf)|]. intros [p|] Hp.
  - destruct Hp as [Hp Hs]. eapply runs_bind; [apply IH|]. intros t (Hl & Hlen & Hend).
    apply runs_ret. cbn [lineage length]. split_and!; [done|done|done|lia|].
    destruct Hend as [->|Hend]; [by left|right]. by rewrite last_cons_default.
  - apply runs_ret. split_and!; [done|simpl; lia|by right].
Qed.

Lemma stored_number h : stored db h -> is_u64 (hdr_Number h).
Proof.
  unfold is_u64. intros [Hf|[[n hash] Hk]].
  - apply list_elem_of_lookup_1 in Hf as [i Hi]. rewrite (wf_frozen db Hwf _ _ Hi).
    apply lookup_lt_Some in Hi. pose proof (wf_ancients db Hwf). pose proof (wf_current db Hwf).
    unfold Ancients, len in *. lia.
  - by destruct (wf_kv db Hwf _ _ _ Hk) as (_ & -> & ?).
Qed.

(** A canonical block's number is small: adding the limit does not wrap. *)
Lemma canonical_small n h : canonical db n = Some h -> 0 <= n < 2 ^ 63.
Proof.
  intros Hh. apply canonical_stored in Hh as (_ & _ & ? & _); [|done].
  pose proof (wf_current db Hwf). lia.
Qed.
Lemma canonical_iff n h : stored db h -> canonical db n = Some h <-> GetCanonicalHash db n = hdr_Hash h.
Proof.
  intros Hs. unfold GetCanonicalHash. split; [|by apply stored_canonical].
  intros Hc. by rewrite ReadCanonicalHash_spec, Hc.
Qed.

Lemma serviceContiguous_runs q :
  is_u64 (on_Number (Origin q)) -> 1 <= Amount q ->
  on_Number (Origin q) + Z.min (Amount q) maxHeadersServe <= 2 ^ 64 ->
  runs (cache_ok (L := L) db) (serviceContiguousBlockHeaderQuery db q) (contiguous_answer db q).
Proof.
  unfold is_u64. intros Hn Ha Hover. unfold serviceContiguousBlockHeaderQuery, contiguous_answer.
  replace (if maxHeadersServe <? Amount q then maxHeadersServe else Amount q)
    with (Z.min (Amount q) maxHeadersServe) by (destruct (Z.ltb_spec maxHeadersServe (Amount q)); lia).
  set (count := Z.min (Amount q) maxHeadersServe) in *.
  assert (Hc : 1 <= count <= 1024) by (unfold count, maxHeadersServe; lia). clearbody count.
  destruct (Z.eqb_spec (on_Hash (Origin q)) 0) as [|Hz].
  { eapply runs_bind.
    - apply (GetHeadersFrom_runs db Hwf); [destruct (Reverse q); [done|apply u64_range]|lia].
    - intros hs ->. apply runs_ret. destruct (Reverse q); [done|].
      rewrite u64_small by (unfold is_u64; lia).
      rewrite <- rev_descending. by rewrite Z2Nat.id by lia. }
  eapply runs_bind; [by apply (GetHeaderByHash_runs db Hwf)|].
  intros [h|] Hh; [|apply runs_ret; by left]. destruct Hh as [Hh Hs].
  rewrite (u64_small (hdr_Number h)) by by apply stored_number.
  destruct (Reverse q); cbn [negb].
  - eapply runs_bind; [apply ancestors_runs|]. intros t (Hl & Hlen & Hend).
    apply runs_ret. right. exists h, t. autorewrite with octopus_len. unfold len.
    split_and!; [done|done|done|done|lia|]. destruct Hend as [Hend|Hend]; [left; lia|by right].
  - destruct (Z.eqb_spec (GetCanonicalHash db (hdr_Number h)) (on_Hash (Origin q))) as [Hcan|Hcan]; cbn [negb].
    + rewrite <- Hh in Hcan. apply canonical_iff in Hcan; [|done].
      pose proof (canonical_small _ _ Hcan). eapply runs_bind.
      * apply (GetHeadersFrom_runs db Hwf); [apply u64_range|].
        rewrite u64_small by (unfold is_u64; lia). lia.
      * intros hs ->. apply runs_ret. right. eexists h, _. split_and!; [done|done|done|].
        rewrite decide_True by done. rewrite !u64_small by (unfold is_u64; lia).
        rewrite <- rev_descending. do 2 f_equal. lia.
    + apply runs_ret. right. exists h, []. split_and!; [done|done|done|].
      rewrite decide_False; [done|]. rewrite canonical_iff by done. congruence.
Qed.

(** A contiguous header query by number is answered with exactly the
    canonical headers of the range, in the order of the query; by hash with
    the origin followed by its canonical successors (none when it is on a side
    chain), or by its ancestors back to the limit or to the first one that is
    not stored.  At most [maxHeadersServe] headers are returned. *)
Theorem contiguous_query q l :
  is_u64 (on_Number (Origin q)) -> 1 <= Amount q -> Skip q = 0 ->
  on_Number (Origin q) + Z.min (Amount q) maxHeadersServe <= 2 ^ 64 ->
  cache_ok db l ->
  exists hs l', ServiceGetBlockHeadersQuery db q l = Done (hs, l')
    /\ cache_ok db l' /\ contiguous_answer db q hs.
Proof.
  intros Hn Ha Hs Ho Hl. unfold ServiceGetBlockHeadersQuery. rewrite Hs.
  exact (serviceContiguous_runs q Hn Ha Ho l Hl).
Qed.

(** ** Headers at a distance *)
(** The number after [n] in a query. *)
Definition next_number (q : GetBlockHeadersPacket) (n : Z) : Z :=
  if Reverse q then n - u64 (Skip q + 1) else u64 (n + u64 (Skip q + 1)).
(** Stored headers with the numbers [n], [next_number q n], ...; the canonical
    ones when the query is by number. *)
Fixpoint spaced (hashMode : bool) (q : GetBlockHeadersPacket) (n : Z) (l : list Header) : Prop :=
  match l with
  | [] => True
  | h :: l => stored db h /\ hdr_Number h = n
              /\ (hashMode = false -> canonical db n = Some h)
              /\ spaced hashMode q (next_number q n) l
  end.

(** What the loop's variables say once the origin is known. *)
Definition nc_ok (hashMode : bool) (st : ncState) : Prop :=
  is_u64 (nc_Number st) /\ (hashMode = true -> nc_first st = false /\ numbered db (nc_Hash st) (nc_Number st)).

Lemma nc_origin_runs hashMode st :
  nc_ok hashMode st ->
  runs (cache_ok (L := L) db) (nc_origin db hashMode st)
    (fun '(r, st') => st' = st /\ forall h, r = Some h ->
       stored db h /\ hdr_Number h = nc_Number st
       /\ (hashMode = true -> hdr_Hash h = nc_Hash st)
       /\ (hashMode = false -> canonical db (nc_Number st) = Some h)).
Proof.
  intros [Hu Hok]. unfold nc_origin. destruct hashMode.
  - destruct Hok as [-> Hnum]; [done|]. eapply runs_bind; [by apply (GetHeader_runs db Hwf)|].
    intros r [Hr _]. apply runs_ret. split; [done|]. intros h ->. destruct (Hr h eq_refl).
    split_and!; [done|by apply Hnum|done|done].
  - eapply runs_bind; [by apply (GetHeaderByNumber_runs db Hwf)|].
    intros r ->. apply runs_ret. split; [done|]. intros h Hh.
    apply canonical_stored in Hh as Hs; [|done]. destruct Hs as (? & ? & _). done.
Qed.

Lemma nc_advance_runs hashMode q h st :
  nc_ok hashMode st -> stored db h -> hdr_Number h = nc_Number st ->
  runs (cache_ok (L := L) db) (nc_advance db hashMode q h st)
    (fun st' => nc_bytes st' = nc_bytes st /\
       (nc_unknown st' = true \/
        nc_ok hashMode st' /\ nc_Number st' = next_number q (nc_Number st))).
Proof.
  intros [Hu Hok] Hs Hn. unfold nc_advance, next_number. pose proof (u64_range (Skip q + 1)) as Hsk.
  unfold is_u64 in *. destruct hashMode; cbn [andb].
  - destruct Hok as [Hf Hnum]; [done|]. destruct (Reverse q).
    + destruct (Z.eqb_spec (u64 (Skip q + 1)) 0); [apply runs_ret; by eauto|].
      eapply runs_bind; [apply (GetAncestor_runs db Hwf); [lia|done]|].
      intros [[hash n'] b] Ha. apply runs_ret. split; [done|]. simpl.
      destruct (Z.eqb_spec hash 0) as [|Hz]; [by left|right]. destruct (Ha Hz) as (-> & ? & Hnum').
      split; [|done]. split; [unfold is_u64; simpl; lia|by split].
    + rewrite Hn, (u64_small (nc_Number st)) by exact Hu.
      replace (nc_Number st + Skip q + 1) with (nc_Number st + (Skip q + 1)) by lia.
      replace (u64 (nc_Number st + (Skip q + 1))) with (u64 (nc_Number st + u64 (Skip q + 1)))
        by (unfold u64; by rewrite Zplus_mod_idemp_r).
      destruct (Z.leb_spec (u64 (nc_Number st + u64 (Skip q + 1))) (nc_Number st)) as [|Hlt];
        [apply runs_ret; by eauto|].
      eapply runs_bind; [by apply (GetHeaderByNumber_runs db Hwf)|]. intros r ->.
      destruct (canonical db _) as [h'|] eqn:Eh; [|apply runs_ret; by eauto].
      assert (Hnum' : numbered db (hdr_Hash h') (u64 (nc_Number st + u64 (Skip q + 1)))).
      { intros p0 Hp0 Hp1. apply canonical_stored in Eh as (Hs' & <- & _); [|done].
        f_equal. by apply (wf_inj db Hwf). }
      assert (u64 (Skip q + 1) <> 0).
      { intros Hz. rewrite Hz, Z.add_0_r, u64_small in Hlt by done. lia. }
      eapply runs_bind; [apply (GetAncestor_runs db Hwf); [lia|done]|].
      intros [[e n'] b] _. destruct (_ =? _); apply runs_ret; [|by eauto].
      split; [done|right]. split; [|done]. split; [apply u64_range|by split].
  - destruct (Reverse q).
    + destruct (Z.leb_spec (u64 (Skip q + 1)) (nc_Number st)); apply runs_ret; [|by eauto].
      split; [done|right]. split; [|done]. split; [unfold is_u64; simpl; lia|done].
    + apply runs_ret. split; [done|right]. split; [|done]. split; [apply u64_range|done].
Qed.

(** The limits on a reply: the count, and the bytes before the last header. *)
Definition within (q : GetBlockHeadersPacket) (r : list Header) : Prop :=
  len r <= maxHeadersServe /\ len r <= Z.max 0 (i64 (Amount q))
  /\ forall r' h, r = r' ++ [h] -> rlpTotal db r' < softResponseLimit.

Lemma rlpTotal_snoc l h : rlpTotal db (l ++ [h]) = rlpTotal db l + rlpLen db h.
Proof. induction l as [|x l IH]; simpl; [lia|]. rewrite IH. lia. Qed.
Lemma within_snoc q acc h :
  len acc < i64 (Amount q) -> len acc < maxHeadersServe -> rlpTotal db acc < softResponseLimit ->
  within q (acc ++ [h]).
Proof.
  intros ? ? ?. unfold within. autorewrite with octopus_len. split_and!; [lia|lia|].
  intros r' h' [-> _]%app_inj_tail. done.
Qed.

(** A round of the loop, given what the rest of the loop does. *)
Lemma nc_round_runs f hashMode q h st acc :
  (forall st acc, nc_unknown st = true \/ nc_ok hashMode st -> nc_bytes st = rlpTotal db acc ->
     within q acc ->
     runs (cache_ok (L := L) db) (nc_loop db f hashMode q st acc)
       (fun r => exists tail, r = acc ++ tail /\ spaced hashMode q (nc_Number st) tail /\ within q r
                              /\ (nc_unknown st = true -> tail = []))) ->
  nc_ok hashMode st -> stored db h -> hdr_Number h = nc_Number st ->
  (hashMode = false -> canonical db (nc_Number st) = Some h) ->
  nc_bytes st = rlpTotal db acc + rlpLen db h -> within q (acc ++ [h]) ->
  runs (cache_ok (L := L) db)
    (st ← nc_advance db hashMode q h st; nc_loop db f hashMode q st (acc ++ [h]))
    (fun r => exists tail, r = acc ++ h :: tail /\ spaced hashMode q (nc_Number st) (h :: tail)
                           /\ within q r).
Proof.
  intros IH Hst Hs Hn Hc Hb Hw. eapply runs_bind; [by apply nc_advance_runs|].
  intros st' [Hb' Hst']. eapply runs_weaken; [apply IH|].
  - destruct Hst' as [?|[? _]]; [by left|by right].
  - by rewrite rlpTotal_snoc, Hb'.
  - done.
  - intros r (tail & -> & Htail & Hwr & Hnil). exists tail. rewrite <- app_assoc in *.
    split; [done|]. split; [|done]. cbn [spaced]. split_and!; [done|done|done|].
    destruct Hst' as [Hu|[_ <-]]; [by rewrite Hnil by done|done].
Qed.

Lemma nc_loop_runs fuel hashMode q st acc :
  nc_unknown st = true \/ nc_ok hashMode st -> nc_bytes st = rlpTotal db acc -> within q acc ->
  runs (cache_ok (L := L) db) (nc_loop db fuel hashMode q st acc)
    (fun r => exists tail, r = acc ++ tail /\ spaced hashMode q (nc_Number st) tail /\ within q r
                           /\ (nc_unknown st = true -> tail = [])).
Proof.
  revert st acc. induction fuel as [|f IH]; intros st acc Hst Hb Hw.
  { apply runs_ret. exists []. by rewrite app_nil_r. }
  cbn [nc_loop]. destruct (_ && _) eqn:Hgo; cycle 1.
  { apply runs_ret. exists []. by rewrite app_nil_r. }
  bools. destruct Hst as [Hst|Hst]; [congruence|].
  eapply runs_bind; [by apply nc_origin_runs|]. intros [[h|] st'] [-> Hh]; cycle 1.
  { apply runs_ret. exists []. by rewrite app_nil_r. }
  destruct (Hh h eq_refl) as (Hs & Hn & _ & Hc).
  eapply runs_weaken.
  { apply (nc_round_runs f hashMode q h _ acc IH); simpl; try done; [lia|]. apply within_snoc; lia. }
  intros r (tail & -> & Htail & Hwr). exists (h :: tail). split; [done|]. split; [by simpl|].
  split; [done|congruence].
Qed.

Lemma nc_start_runs f hashMode q :
  is_u64 (on_Number (Origin q)) ->
  runs (cache_ok (L := L) db)
    (nc_loop db (S f) hashMode q
       (mk_ncState (on_Hash (Origin q)) (on_Number (Origin q)) true 100 0 false) [])
    (fun hs => within q hs /\ exists n, spaced hashMode q n hs
        /\ (hashMode = false -> n = on_Number (Origin q))
        /\ (hashMode = true -> forall h t, hs = h :: t -> hdr_Hash h = on_Hash (Origin q))).
Proof.
  intros Hu. assert (Hw : within q []).
  { unfold within. rewrite len_nil. split_and!; [unfold maxHeadersServe; lia|lia|].
    intros r' h Hr. by destruct r'. }
  destruct hashMode; cycle 1.
  { eapply runs_weaken; [by apply nc_loop_runs; [right|..]|].
    intros r (tail & -> & ? & ? & _). split; [done|]. eexists. by split_and!. }
  cbn [nc_loop nc_unknown negb andb]. destruct (_ && _) eqn:Hgo; cycle 1.
  { apply runs_ret. split; [done|]. exists 0. by split_and!. }
  bools. unfold nc_origin. cbn [nc_first nc_Hash].
  eapply runs_bind with (P := fun '(r, st) => forall h, r = Some h ->
    hdr_Hash h = on_Hash (Origin q) /\ stored db h
    /\ st = mk_ncState (hdr_Hash h) (hdr_Number h) false 100 0 false).
  { eapply runs_bind; [by apply (GetHeaderByHash_runs db Hwf)|]. intros r Hr. apply runs_ret.
    intros h ->. destruct Hr as [Hh Hs]. rewrite u64_small by by apply stored_number.
    by rewrite Hh. }
  intros [[h|] st'] Hh; cycle 1.
  { apply runs_ret. split; [done|]. exists 0. by split_and!. }
  destruct (Hh h eq_refl) as (Hhash & Hs & ->). simpl.
  eapply runs_weaken.
  { apply (nc_round_runs f true q h _ []); simpl; try done.
    - apply nc_loop_runs.
    - split; [by apply stored_number|]. intros _. split; [done|].
      intros p Hp Heq. simpl in Heq |- *. f_equal. by apply (wf_inj db Hwf).
    - apply (within_snoc q [] h); rewrite ?len_nil in *; simpl;
        unfold softResponseLimit, maxHeadersServe; lia. }
  intros r (tail & -> & Hsp & Hwr). split; [done|]. exists (hdr_Number h).
  split_and!; [done|done|]. by intros _ h' t [= <- _].
Qed.

(** A header query with a distance is always answered (no panic), with at
    most [maxHeadersServe] and at most [Amount] headers, of which all but the
    last fit in the soft byte limit.  Consecutive headers are [Skip + 1]
    numbers apart in the direction of the query.  By number the reply starts
    at the origin's number and holds canonical headers only; by hash it starts
    at the origin's header and holds stored headers. *)
Theorem noncontiguous_query q l :
  is_u64 (on_Number (Origin q)) -> Skip q <> 0 -> cache_ok db l ->
  let hashMode := negb (on_Hash (Origin q) =? 0) in
  exists hs l', ServiceGetBlockHeadersQuery db q l = Done (hs, l') /\ cache_ok db l' /\ within q hs
    /\ exists n, spaced hashMode q n hs
        /\ (hashMode = false -> n = on_Number (Origin q))
        /\ (hashMode = true -> forall h t, hs = h :: t -> hdr_Hash h = on_Hash (Origin q)).
Proof.
  intros Hn Hs Hl hashMode. unfold ServiceGetBlockHeadersQuery.
  destruct (Z.eqb_spec (Skip q) 0); [done|]. unfold serviceNonContiguousBlockHeaderQuery.
  fold hashMode. replace (Z.to_nat (2 * maxHeadersServe)) with (S 2047) by done.
  destruct (nc_start_runs 2047 hashMode q Hn l Hl) as (hs & l' & ? & ? & ? & ?). eauto 10.
Qed.
End HeaderProps.

(** ** A query for no headers *)
Section ZeroAmount.
Context (db : Db) {L : Type} `{LruLaws Hash Header L} (Hwf : wf db).

Lemma GetHeaderByHash_stored h l :
  stored db h -> cache_ok db l ->
  exists l', GetHeaderByHash db (hdr_Hash h) l = Done (Some h, l')
    /\ forall hash w, (lru_get hash l').1 = Some w -> hash = hdr_Hash h \/ (lru_get hash l).1 = Some w.
Proof.
  intros Hs Hl. unfold GetHeaderByHash, GetBlockNumber. pose proof (stored_ReadHeader db Hwf h Hs) as Hr.
  rewrite (proj2 (wf_numbers db Hwf (hdr_Hash h) (hdr_Number h))) by eauto.
  unfold GetHeader, mbind, GoM_bind, cacheGet.
  pose proof (fun k => lru_get_get (hdr_Hash h) k l) as Hgg. specialize (Hl (hdr_Hash h)).
  destruct (lru_get (hdr_Hash h) l) as [[h'|] l1]; simpl in *.
  - destruct (Hl h' eq_refl). replace h' with h by by apply (wf_inj db Hwf).
    exists l1. split; [done|]. intros hash w. rewrite Hgg. by right.
  - rewrite Hr. eexists. split; [reflexivity|]. intros hash w [[-> _]|Hg]%lru_get_add; [by left|].
    rewrite Hgg in Hg. by right.
Qed.

Lemma GetHeadersFrom_miss n p count l l' :
  canonical db n = Some p -> 0 < count -> is_u64 count -> n < 2 ^ 32 ->
  lru_get (hdr_Hash p) l = (None, l') ->
  GetHeadersFrom db n count l = Done (descending db (Z.to_nat count) n, l').
Proof.
  intros Hp Hpos Hc Hn Hg. destruct (canonical_stored db Hwf _ _ Hp) as (Hs & _ & ? & _).
  unfold GetHeadersFrom, clip. destruct (Z.ltb_spec (currentHeader db) n); [lia|].
  rewrite (ReadCanonicalHash_spec db Hwf), Hp.
  rewrite (proj2 (Z.eqb_neq _ _) (wf_nonzero db Hwf p Hs)). cbn [read_cache].
  apply Z.ltb_lt in Hpos. rewrite Hpos. unfold mbind, GoM_bind, cacheGet. rewrite Hg. simpl.
  rewrite Hpos. unfold lift. rewrite (ReadHeaderRange_spec db Hwf) by (done || lia). done.
Qed.

(** A query by hash, towards the head, for no headers at all underflows
    [count-1]: with nothing of the origin's ancestry cached the reply is the
    origin and ALL its ancestors from the genesis block on, as many headers as
    the block's number plus one, without the limit of [maxHeadersServe]. *)
Theorem zero_amount_unbounded h l :
  stored db h -> canonical db (hdr_Number h) = Some h -> 1 <= hdr_Number h <= 2 ^ 32 ->
  cache_ok db l -> (lru_get (hdr_ParentHash h) l).1 = None ->
  exists l', ServiceGetBlockHeadersQuery db
               (mk_GetBlockHeadersPacket (mk_HashOrNumber (hdr_Hash h) 0) 0 0 false) l
             = Done (h :: ascending db (Z.to_nat (hdr_Number h)) 0, l').
Proof.
  intros Hs Hc Hn Hl Hmiss. destruct (GetHeaderByHash_stored h l Hs Hl) as (l1 & Hrun & Hl1).
  pose proof (wf_nonzero db Hwf h Hs) as Hz. set (n := hdr_Number h) in *.
  destruct (canonical_stored db Hwf _ _ Hc) as (_ & _ & Hcur & _).
  pose proof (wf_current db Hwf) as Hmax.
  destruct (canonical_exists db Hwf (n - 1)) as [p Hp]; [lia|].
  destruct (canonical_stored db Hwf _ _ Hp) as (Hps & Hpn & _).
  assert (Hpar : hdr_ParentHash h = hdr_Hash p).
  { rewrite (canonical_parent db Hwf n h Hc), ReadCanonicalHash_spec, Hp by done. done. }
  assert (Hmiss1 : (lru_get (hdr_Hash p) l1).1 = None).
  { destruct (lru_get (hdr_Hash p) l1).1 as [w|] eqn:E; [|done].
    apply Hl1 in E as [E|E]; [|by rewrite <- Hpar, Hmiss in E].
    assert (p = h) by by apply (wf_inj db Hwf). subst p. unfold n in *. lia. }
  destruct (lru_get (hdr_Hash p) l1) as [r l2] eqn:Eg. simpl in Hmiss1. subst r. exists l2.
  unfold ServiceGetBlockHeadersQuery, serviceContiguousBlockHeaderQuery.
  cbn [Skip Origin on_Hash Amount Reverse]. rewrite (proj2 (Z.eqb_neq _ _) Hz). simpl.
  unfold mbind at 1, GoM_bind at 1. rewrite Hrun. fold n. rewrite (u64_small n) by (unfold is_u64; lia).
  rewrite (proj1 (canonical_iff db Hwf n h Hs) Hc), Z.eqb_refl. simpl.
  replace (n + 0 - 1) with (n - 1) by lia. rewrite (u64_small (n - 1)) by (unfold is_u64; lia).
  change (u64 (0 - 1)) with (2 ^ 64 - 1). unfold mbind, GoM_bind.
  rewrite (GetHeadersFrom_miss (n - 1) p _ l1 l2) by (done || unfold is_u64; lia).
  rewrite (descending_cut db Hwf _ (n - 1)) by lia.
  replace (Z.to_nat (n - 1 + 1)) with (Z.to_nat n) by lia.
  unfold mret, GoM_ret. rewrite <- rev_descending.
  by replace (0 + Z.of_nat (Z.to_nat n) - 1) with (n - 1) by lia.
Qed.
End ZeroAmount.

(** The chain of ChainReader.v with three headers frozen. *)
Definition ex_frozen3 : Db :=
  mk_Db {[ (3, 13) := ex_h3 ]} {[ 3 := 13 ]} (kvNumbers ex_db) [ex_h0; ex_h1; ex_h2] [10; 11; 12]
    0 3 (fun _ => 600) (fun _ => 500).

(** When the whole ancestry of the origin is cached, the same query makes
    the number wrap around below the genesis block, and the freezer allocates
    a buffer for close to [2^64] bytes: the handler panics. *)
Theorem zero_amount_panics :
  ServiceGetBlockHeadersQuery ex_frozen3
    (mk_GetBlockHeadersPacket (mk_HashOrNumber 11 0) 0 0 false)
    ([(10, ex_h0)] : lru2 Hash Header)
  = Panic "makeslice: len out of range".
Proof. reflexivity. Qed.

Lemma contiguous_query_witness :
  exists hs l', ServiceGetBlockHeadersQuery ex_db
      (mk_GetBlockHeadersPacket (mk_HashOrNumber 0 1) 5 0 false) [(12, ex_h2)] = Done (hs, l')
    /\ cache_ok ex_db l'
    /\ contiguous_answer ex_db (mk_GetBlockHeadersPacket (mk_HashOrNumber 0 1) 5 0 false) hs.
Proof.
  apply (contiguous_query ex_db (L := lru2 Hash Header) ex_wf); try done.
  exact ex_cache_ok.
Defined.

Lemma noncontiguous_query_witness :
  exists hs l', ServiceGetBlockHeadersQuery ex_db
      (mk_GetBlockHeadersPacket (mk_HashOrNumber 13 0) 5 1 true) [(12, ex_h2)] = Done (hs, l')
    /\ cache_ok ex_db l' /\ within ex_db (mk_GetBlockHeadersPacket (mk_HashOrNumber 13 0) 5 1 true) hs.
Proof.
  destruct (noncontiguous_query ex_db (L := lru2 Hash Header) ex_wf
    (mk_GetBlockHeadersPacket (mk_HashOrNumber 13 0) 5 1 true) [(12, ex_h2)]) as (hs & l' & ? & ? & ? & _);
    [done|done|exact ex_cache_ok|].
  exists hs, l'. done.
Defined.

Lemma zero_amount_unbounded_witness :
  exists l', ServiceGetBlockHeadersQuery ex_db
    (mk_GetBlockHeadersPacket (mk_HashOrNumber 12 0) 0 0 false) [(12, ex_h2)]
    = Done ([ex_h2; ex_h0; ex_h1], l').
Proof.
  apply (zero_amount_unbounded ex_db (L := lru2 Hash Header) ex_wf ex_h2 [(12, ex_h2)]).
  - right. by exists (2, 12).
  - reflexivity.
  - simpl. lia.
  - exact ex_cache_ok.
  - reflexivity.
Defined.

(** ** Data queries *)
Section DataProps.
Context {Bytes : Type} (blen : Bytes -> Z) (store : Store (Bytes := Bytes)).

Definition bytesTotal (l : list Bytes) : Z := foldr (fun b a => blen b + a) 0 l.

(** A reply: the data found for the first [2*maxServe] hashes in their order,
    cut off only by the count or by the byte limit, which the last item may
    exceed. *)
Definition served (maxServe : Z) (lookup : Hash -> option Bytes) (query : list Hash)
    (r : list Bytes) : Prop :=
  let found := omap lookup (take (Z.to_nat (2 * maxServe)) query) in
  r `prefix_of` found /\ len r <= maxServe
  /\ (forall r' b, r = r' ++ [b] -> bytesTotal r' < softResponseLimit)
  /\ (r = found \/ len r = maxServe \/ softResponseLimit <= bytesTotal r).

Lemma bytesTotal_snoc l b : bytesTotal (l ++ [b]) = bytesTotal l + blen b.
Proof. induction l as [|x l IH]; simpl; [lia|]. rewrite IH. lia. Qed.

Lemma serve_found maxServe lookup lookups acc query :
  0 <= lookups <= 2 * maxServe -> len acc <= maxServe ->
  (forall r' b, acc = r' ++ [b] -> bytesTotal r' < softResponseLimit) ->
  let r := serve blen maxServe lookup lookups (bytesTotal acc) acc query in
  let found := acc ++ omap lookup (take (Z.to_nat (2 * maxServe - lookups)) query) in
  r `prefix_of` found /\ len r <= maxServe
  /\ (forall r' b, r = r' ++ [b] -> bytesTotal r' < softResponseLimit)
  /\ (r = found \/ len r = maxServe \/ softResponseLimit <= bytesTotal r).
Proof.
  revert lookups acc. induction query as [|hash query IH]; intros lookups acc Hl Ha Hb; cbn [serve].
  { rewrite take_nil. simpl. rewrite app_nil_r. eauto. }
  destruct (softResponseLimit <=? bytesTotal acc) eqn:E1; cbn [orb].
  { bools. split_and!; [by apply prefix_app_r|done|done|lia]. }
  destruct (maxServe <=? len acc) eqn:E2; cbn [orb].
  { bools. split_and!; [by apply prefix_app_r|done|done|lia]. }
  destruct (2 * maxServe <=? lookups) eqn:E3; bools.
  { replace (Z.to_nat _) with 0%nat by lia. simpl. rewrite app_nil_r. eauto. }
  replace (Z.to_nat (2 * maxServe - lookups))
    with (S (Z.to_nat (2 * maxServe - (lookups + 1)))) by lia.
  simpl. destruct (lookup hash) as [data|]; [|apply IH; done || lia].
  rewrite <- bytesTotal_snoc. set (acc' := acc ++ [data]).
  rewrite (cons_middle data acc), app_assoc. apply IH; [lia| |]; unfold acc'.
  - autorewrite with octopus_len. lia.
  - intros r' b [-> _]%app_inj_tail. lia.
Qed.

Lemma serve_served maxServe lookup query :
  0 <= maxServe -> served maxServe lookup query (serve blen maxServe lookup 0 0 [] query).
Proof.
  intros Hm. destruct (serve_found maxServe lookup 0 [] query) as (? & ? & ? & ?).
  - lia.
  - done.
  - intros r' b Hr. by destruct r'.
  - rewrite Z.sub_0_r in *. done.
Qed.

Lemma answer_loop_found hashes txs query :
  let r := answer_loop blen store (bytesTotal txs) hashes txs query in
  Forall2 (fun h t => PoolGet store h = Some t) hashes txs ->
  (forall r' b, txs = r' ++ [b] -> bytesTotal r' < softResponseLimit) ->
  Forall2 (fun h t => PoolGet store h = Some t) r.1 r.2
  /\ r.2 `prefix_of` txs ++ omap (PoolGet store) query
  /\ (forall r' b, r.2 = r' ++ [b] -> bytesTotal r' < softResponseLimit)
  /\ (r.2 = txs ++ omap (PoolGet store) query \/ softResponseLimit <= bytesTotal r.2).
Proof.
  revert hashes txs. induction query as [|hash query IH]; intros hashes txs r Hf Hb; unfold r; cbn [answer_loop].
  { simpl. rewrite app_nil_r. eauto. }
  destruct (Z.leb_spec softResponseLimit (bytesTotal txs)).
  { simpl. split_and!; [done|by apply prefix_app_r|done|by right]. }
  simpl. destruct (PoolGet store hash) as [t|] eqn:E; [|by apply IH].
  rewrite <- bytesTotal_snoc. set (txs' := txs ++ [t]).
  rewrite (cons_middle t txs), app_assoc. apply IH; unfold txs'.
  - apply Forall2_app; [done|]. by repeat constructor.
  - intros r' b [-> _]%app_inj_tail. lia.
Qed.

(** Body, node data and receipt requests are answered with the data found
    for the first 2048 hashes in the order of the request, cut off only when
    1024 items or the soft byte limit is reached, the last item being the only
    one beyond the limit; pooled transactions likewise without the count, each
    with the hash it was asked for under. *)
Theorem data_queries query :
  served maxBodiesServe (body_lookup blen store) query (ServiceGetBlockBodiesQuery blen store query)
  /\ served maxNodeDataServe (node_lookup blen store) query (ServiceGetNodeDataQuery blen store query)
  /\ served maxReceiptsServe (receipt_lookup store) query (ServiceGetReceiptsQuery blen store query)
  /\ let '(hashes, txs) := answerGetPooledTransactions blen store query in
     Forall2 (fun h t => PoolGet store h = Some t) hashes txs
     /\ txs `prefix_of` omap (PoolGet store) query
     /\ (forall r' b, txs = r' ++ [b] -> bytesTotal r' < softResponseLimit)
     /\ (txs = omap (PoolGet store) query \/ softResponseLimit <= bytesTotal txs).
Proof.
  split_and!; [apply serve_served; done..|].
  unfold answerGetPooledTransactions.
  pose proof (answer_loop_found [] [] query) as Ha. simpl in Ha. destruct (answer_loop _ _ _ _ _ _).
  apply Ha; [constructor|]. intros r' b Hr. by destruct r'.
Qed.
End DataProps.
End EthServe.
