(* ===== verification/EnodeCache.v ===== *)
(** * The pool of crawled nodes (node_manager/crawl.go, HistoryLoop)

    Crawlers put the addresses they learn into [enodePool]; the manager takes
    one at random to dial and moves its key to [enodeHistory], where it stays
    for an hour, so that the address is not pooled again meanwhile.  Both are
    concurrent maps; random indices and clocks are inputs. *)

From stdpp Require Import base gmap sets list strings pretty numbers relations.
From Stdlib Require Import ZArith Lia.
From S2P Require Import Prelude Externals.

Module EnodeCache.

Record NodeItem : Type := mk_NodeItem {
  BootIP : string;
  BootPort : Z;
  BootNodeID : string;
  AddTime : Z;
}.
#[export] Instance NodeItem_eq_dec : EqDecision NodeItem.
Proof. solve_decision. Defined.

(** [fmt.Sprintf("%s:%d", ip, port)] *)
Definition enodeKey (ip : string) (port : Z) : string := ip +:+ ":" +:+ pretty port.

Section Cache.
Context {M : Type -> Type} `{CMap M}.

Record state : Type := mk_state { enodePool : M NodeItem; enodeHistory : M Z }.

Definition init : state := mk_state cm_new cm_new.

(** What follows the check of the history.  The function takes no lock, so
    other goroutines may run between the two parts. *)
Definition add_pooled (ip : string) (port : Z) (enode : string) (now : Z) (s : state) : state :=
  let key := enodeKey ip port in
  if cm_has key (enodePool s) then s
  else mk_state (cm_set key (mk_NodeItem ip port enode now) (enodePool s)) (enodeHistory s).
Definition addEnodeToCache (ip : string) (port : Z) (enode : string) (now : Z) (s : state) : state :=
  if cm_has (enodeKey ip port) (enodeHistory s) then s
  else add_pooled ip port enode now s.

Definition existEnodeIpItem (ip : string) (port : Z) (s : state) : bool :=
  cm_has (enodeKey ip port) (enodePool s).

(** The entry at the random index [src] selects; [None] is the error. *)
Definition pick (src : Z) (s : state) : outcome (option (string * NodeItem)) :=
  let poolLen := cm_count (enodePool s) in
  if 0 <? poolLen then
    targetIndex ← Intn src poolLen;
    Done (cm_iter (enodePool s) !! Z.to_nat targetIndex)
  else Done None.

Definition getEnodeFromCacheForDail (src now : Z) (s : state) : outcome (option NodeItem * state) :=
  r ← pick src s;
  match r with
  | Some (key, item) =>
      Done (Some item, mk_state (cm_remove key (enodePool s)) (cm_set key now (enodeHistory s)))
  | None => Done (None, s)
  end.
Definition getRandEnodeFromCache (src : Z) (s : state) : outcome (option NodeItem) :=
  r ← pick src s;
  Done (option_map snd r).

(** A neighbour of a FINDNODE reply: address, TCP port and encoded id. *)
Record rpcNode : Type := mk_rpcNode { rn_IP : string; rn_TCP : Z; rn_ID : string }.
Definition handleNeighbors (nodes : list rpcNode) (now : Z) (s : state) : state :=
  foldl (fun s rn =>
    if existEnodeIpItem (rn_IP rn) (rn_TCP rn) s then s
    else addEnodeToCache (rn_IP rn) (rn_TCP rn) (rn_ID rn) now s) s nodes.

(** One sweep of [HistoryLoop]. *)
Definition HistoryLoop (nowTime : Z) (s : state) : state :=
  foldl (fun s '(key, itemTime) =>
    if 60 * 60 * 1 <? nowTime - itemTime
    then mk_state (enodePool s) (cm_remove key (enodeHistory s)) else s)
    s (cm_iter (enodeHistory s)).

(** ** Executions: the operations in any order, with a clock *)
Inductive op : Type :=
  | opNeighbors (nodes : list rpcNode)
  | opDial (src : Z)
  | opSweep.
Definition run (o : op) (now : Z) (s : state) : state :=
  match o with
  | opNeighbors nodes => handleNeighbors nodes now s
  | opDial src => match getEnodeFromCacheForDail src now s with Done (_, s) => s | _ => s end
  | opSweep => HistoryLoop now s
  end.

(** What the two maps promise: an address is in one of them at most, and an
    entry is found under the key of its own address. *)
Definition inv (s : state) : Prop :=
  (forall k, cm_get k (enodePool s) = None \/ cm_get k (enodeHistory s) = None)
  /\ (forall k i, cm_get k (enodePool s) = Some i -> k = enodeKey (BootIP i) (BootPort i)).

Context `{!CMapLaws M}.

Lemma ec_inv_init : inv init.
Proof. split; intros k; simpl; rewrite !cm_get_new; [by left|done]. Qed.

Lemma ec_inv_add ip port enode now s : inv s -> inv (addEnodeToCache ip port enode now s).
Proof.
  intros [Hd Hk]. unfold addEnodeToCache, add_pooled.
  destruct (cm_has _ (enodeHistory s)) eqn:Eh; [done|]. apply cm_has_false in Eh.
  destruct (cm_has _ (enodePool s)); [done|]. split; simpl; intros k; rewrite cm_get_set.
  - case_decide; subst; [by right|apply Hd].
  - intros i. case_decide; [|apply Hk]. intros [= <-]. done.
Qed.

Lemma ec_inv_neighbors nodes now s : inv s -> inv (handleNeighbors nodes now s).
Proof.
  unfold handleNeighbors. revert s. induction nodes as [|rn nodes IH]; intros s Hs; [done|]. simpl.
  apply IH. destruct (existEnodeIpItem _ _ s); [done|]. by apply ec_inv_add.
Qed.

Lemma pick_spec src s :
  exists r, pick src s = Done r
    /\ (r = None <-> cm_count (enodePool s) = 0)
    /\ forall k i, r = Some (k, i) -> cm_get k (enodePool s) = Some i.
Proof.
  unfold pick. pose proof (cm_count_iter (enodePool s)) as Hc.
  destruct (Z.ltb_spec 0 (cm_count (enodePool s))) as [Hpos|].
  - unfold Intn. destruct (Z.leb_spec (cm_count (enodePool s)) 0); [lia|]. simpl.
    pose proof (Z.mod_pos_bound src (cm_count (enodePool s)) Hpos) as Hm.
    destruct (lookup_lt_is_Some_2 (cm_iter (enodePool s)) (Z.to_nat (src mod cm_count (enodePool s))))
      as [[k i] Hki]; [unfold len in Hc; lia|].
    eexists. split; [done|]. rewrite Hki. split; [split; [done|lia]|]. intros k' i' [= -> ->].
    apply cm_iter_get. by eapply list_elem_of_lookup_2.
  - eexists. split; [done|]. pose proof (len_nonneg (cm_iter (enodePool s))). split; [split; [lia|done]|done].
Qed.

(** Dialing: an entry of the pool moves to the history with the time. *)
Lemma getForDail_spec src now s :
  exists r s', getEnodeFromCacheForDail src now s = Done (r, s')
    /\ (r = None <-> cm_count (enodePool s) = 0)
    /\ match r with
       | None => s' = s
       | Some i => exists k, cm_get k (enodePool s) = Some i
           /\ s' = mk_state (cm_remove k (enodePool s)) (cm_set k now (enodeHistory s))
       end.
Proof.
  unfold getEnodeFromCacheForDail. destruct (pick_spec src s) as (r & -> & Hn & Hs). simpl.
  destruct r as [[k i]|]; eexists _, _; (split; [done|]); simpl; (split; [naive_solver|]); eauto.
Qed.

Lemma ec_inv_dial src now s r s' :
  inv s -> getEnodeFromCacheForDail src now s = Done (r, s') -> inv s'.
Proof.
  intros [Hd Hk] Hr. destruct (getForDail_spec src now s) as (r0 & s0 & Hr0 & _ & Hm).
  rewrite Hr in Hr0. simplify_eq. destruct r0 as [i|]; [|by subst].
  destruct Hm as (k & Hi & ->). split; simpl; intros k'; rewrite cm_get_remove.
  - rewrite cm_get_set. case_decide; [by left|apply Hd].
  - intros i'. case_decide; [done|apply Hk].
Qed.

(** A part of the sweep. *)
Lemma sweep_fold now l s k :
  let s' := foldl (fun s '(key, itemTime) =>
    if 60 * 60 * 1 <? now - itemTime
    then mk_state (enodePool s) (cm_remove key (enodeHistory s)) else s) s l in
  enodePool s' = enodePool s
  /\ (cm_get k (enodeHistory s) = None -> cm_get k (enodeHistory s') = None)
  /\ (forall t, (k, t) ∈ l -> 3600 < now - t -> cm_get k (enodeHistory s') = None)
  /\ ((forall t, (k, t) ∈ l -> now - t <= 3600) ->
      cm_get k (enodeHistory s') = cm_get k (enodeHistory s)).
Proof.
  revert s. induction l as [|[k' t'] l IH]; intros s; simpl.
  { split_and!; [done|done| |done]. intros t []%not_elem_of_nil. }
  setoid_rewrite elem_of_cons. destruct (Z.ltb_spec (60 * 60 * 1) (now - t')).
  - destruct (IH (mk_state (enodePool s) (cm_remove k' (enodeHistory s)))) as (Hp & Hn & Ho & Hk).
    simpl in *. rewrite cm_get_remove in *. split_and!; [done| | |].
    + intros Hs. apply Hn. by case_decide.
    + intros t [[= <- <-]|Hin] ?; [|by eapply Ho]. apply Hn. by rewrite decide_True.
    + intros Hall. rewrite Hk by eauto. rewrite decide_False; [done|]. intros <-.
      specialize (Hall t' ltac:(by left)). lia.
  - destruct (IH s) as (Hp & Hn & Ho & Hk). split_and!; [done|done| |by eauto].
    intros t [[= <- <-]|Hin] ?; [lia|by eapply Ho].
Qed.

(** The sweep removes exactly the history entries older than an hour. *)
Lemma HistoryLoop_spec now s :
  enodePool (HistoryLoop now s) = enodePool s
  /\ forall k, cm_get k (enodeHistory (HistoryLoop now s))
       = match cm_get k (enodeHistory s) with
         | Some t => if 3600 <? now - t then None else Some t
         | None => None
         end.
Proof.
  pose proof (sweep_fold now (cm_iter (enodeHistory s)) s) as Hf.
  split; [by apply (Hf EmptyString)|]. intros k. destruct (Hf k) as (_ & Hn & Ho & Hk).
  setoid_rewrite cm_iter_get in Ho. setoid_rewrite cm_iter_get in Hk.
  unfold HistoryLoop. destruct (cm_get k (enodeHistory s)) as [t|] eqn:E; [|by apply Hn].
  destruct (Z.ltb_spec 3600 (now - t)); [by eapply Ho|]. apply Hk. by intros ? [= <-].
Qed.

Lemma ec_inv_run o now s : inv s -> inv (run o now s).
Proof.
  intros Hs. destruct o as [nodes|src|]; simpl; [by apply ec_inv_neighbors| |].
  - destruct (getEnodeFromCacheForDail src now s) as [[r s']| |] eqn:E; [|done..].
    by eapply ec_inv_dial.
  - destruct Hs as [Hd Hk]. destruct (HistoryLoop_spec now s) as [Hp Hh]. split; intros k; rewrite Hp.
    + rewrite Hh. destruct (Hd k) as [?|Hn]; [by left|]. right. by rewrite Hn.
    + apply Hk.
Qed.

Definition runs_of (trace : list (op * Z)) (s : state) : state :=
  foldl (fun s '(o, now) => run o now s) s trace.

Lemma ec_inv_runs trace s : inv s -> inv (runs_of trace s).
Proof.
  unfold runs_of. revert s. induction trace as [|[o now] trace IH]; intros s Hs; [done|].
  apply IH. by apply ec_inv_run.
Qed.

(** A key dialed at [t0] is held back until the history forgets it. *)
Definition held (k : string) (t0 : Z) (s : state) : Prop :=
  cm_get k (enodePool s) = None /\ exists t, t0 <= t /\ cm_get k (enodeHistory s) = Some t.

Lemma held_add k t0 ip port enode now s :
  held k t0 s -> held k t0 (addEnodeToCache ip port enode now s).
Proof.
  intros (Hp & t & Ht & Hh). unfold addEnodeToCache, add_pooled.
  destruct (cm_has _ (enodeHistory s)) eqn:Eh; [by split; eauto|].
  destruct (cm_has _ (enodePool s)); [by split; eauto|]. split; simpl; [|by eauto].
  rewrite cm_get_set. case_decide; [|done]. subst. apply cm_has_false in Eh. congruence.
Qed.
Lemma held_run k t0 o now s :
  t0 <= now <= t0 + 3600 -> held k t0 s -> held k t0 (run o now s).
Proof.
  intros Hnow Hs. destruct o as [nodes|src|]; simpl.
  - unfold handleNeighbors. revert s Hs. induction nodes as [|rn nodes IH]; intros s Hs; [done|]. simpl.
    apply IH. destruct (existEnodeIpItem _ _ s); [done|]. by apply held_add.
  - destruct (getForDail_spec src now s) as (r & s' & -> & _ & Hm).
    destruct Hs as (Hp & t & Ht & Hh). destruct r as [i|]; [|subst s'; by split; eauto].
    destruct Hm as (k' & Hk' & ->). assert (k <> k') by congruence.
    split; simpl; [by rewrite cm_get_remove_ne|]. exists t. by rewrite cm_get_set_ne.
  - destruct Hs as (Hp & t & Ht & Hh). destruct (HistoryLoop_spec now s) as [Hp' Hs].
    split; [by rewrite Hp'|]. exists t. rewrite Hs, Hh. destruct (Z.ltb_spec 3600 (now - t)); [lia|done].
Qed.

Lemma held_runs k t0 trace s :
  Forall (fun e => t0 <= e.2 <= t0 + 3600) trace -> held k t0 s -> held k t0 (runs_of trace s).
Proof.
  unfold runs_of. intros Htr. revert s.
  induction Htr as [|[o now] trace Ho Htr IH]; intros s Hs; [done|]. apply IH. by apply held_run.
Qed.
Lemma dialed_held src t0 i s s1 :
  inv s -> getEnodeFromCacheForDail src t0 s = Done (Some i, s1) ->
  held (enodeKey (BootIP i) (BootPort i)) t0 s1.
Proof.
  intros Hinv Hdial. destruct (getForDail_spec src t0 s) as (r & s' & Hr & _ & Hm).
  rewrite Hdial in Hr. simplify_eq. destruct Hm as (k & Hk & ->).
  rewrite <- (proj2 Hinv k i Hk). split; simpl; [by rewrite cm_get_remove_eq|].
  exists t0. by rewrite cm_get_set_eq.
Qed.

(** The pool of crawled nodes: with operations that do not interleave, an
    address is never in the pool and in the history at once, the manager gets
    a node to dial exactly when the pool is not empty, and an address it has
    dialed is not handed out again within the next hour, whatever the crawlers
    report and however often the history is swept. *)
Theorem dialed_address_held trace src t0 i s1 trace' src' now' :
  let s := runs_of trace init in
  getEnodeFromCacheForDail src t0 s = Done (Some i, s1) ->
  Forall (fun e => t0 <= e.2 <= t0 + 3600) trace' ->
  inv s
  /\ exists r s', getEnodeFromCacheForDail src' now' (runs_of trace' s1) = Done (r, s')
     /\ (r = None <-> cm_count (enodePool (runs_of trace' s1)) = 0)
     /\ forall j, r = Some j -> enodeKey (BootIP j) (BootPort j) <> enodeKey (BootIP i) (BootPort i).
Proof.
  intros s Hdial Htr. assert (Hinv : inv s) by apply ec_inv_runs, ec_inv_init. split; [done|].
  assert (Hinv2 : inv (runs_of trace' s1)) by by apply ec_inv_runs; eapply ec_inv_dial.
  pose proof (held_runs _ _ trace' s1 Htr (dialed_held _ _ _ _ _ Hinv Hdial)) as [Hnone _].
  destruct (getForDail_spec src' now' (runs_of trace' s1)) as (r & s' & -> & Hc & Hm).
  exists r, s'. split_and!; [done|done|]. intros j ->. destruct Hm as (k & Hk & _).
  rewrite <- (proj2 Hinv2 _ _ Hk). congruence.
Qed.

(** [addEnodeToCache] runs without the lock: when the manager takes the
    address for dialing between the check of the history and the check of the
    pool, the address ends up in the history and in the pool, and can be
    dialed again at once. *)
Theorem add_race ip port enode now src t0 i s s1 :
  inv s -> getEnodeFromCacheForDail src t0 s = Done (Some i, s1) ->
  enodeKey (BootIP i) (BootPort i) = enodeKey ip port ->
  cm_has (enodeKey ip port) (enodeHistory s) = false
  /\ existEnodeIpItem ip port (add_pooled ip port enode now s1) = true
  /\ cm_has (enodeKey ip port) (enodeHistory (add_pooled ip port enode now s1)) = true.
Proof.
  intros Hinv Hdial Heq. pose proof (dialed_held _ _ _ _ _ Hinv Hdial) as (Hp & t & _ & Hh).
  rewrite Heq in *. destruct (getForDail_spec src t0 s) as (r & s' & Hr & _ & Hm).
  rewrite Hdial in Hr. simplify_eq. destruct Hm as (k & Hk & Hs1).
  pose proof (proj2 Hinv k i Hk) as ->. rewrite Heq in Hk. split_and!.
  - apply cm_has_false. by destruct (proj1 Hinv (enodeKey ip port)); [congruence|].
  - unfold existEnodeIpItem, add_pooled. rewrite (proj2 (cm_has_false _ _) Hp).
    apply cm_has_true. simpl. rewrite cm_get_set_eq. eauto.
  - unfold add_pooled. rewrite (proj2 (cm_has_false _ _) Hp). apply cm_has_true. simpl. eauto.
Qed.
End Cache.

Definition ex_op : op := opNeighbors [mk_rpcNode "10.0.0.1" 30303 "0xaa"].
Definition ex_pool : state (M := gmap string) := runs_of [(ex_op, 5)] init.

Lemma dialed_address_held_witness :
  exists r s', getEnodeFromCacheForDail (M := gmap string) 0 200
     (runs_of [(ex_op, 100)] (mk_state ∅ {[ "10.0.0.1:30303" := 7 ]})) = Done (r, s')
    /\ r = None.
Proof.
  destruct (dialed_address_held (M := gmap string) [(ex_op, 5)] 3 7
    (mk_NodeItem "10.0.0.1" 30303 "0xaa" 5) (mk_state ∅ {[ "10.0.0.1:30303" := 7 ]})
    [(ex_op, 100)] 0 200) as (_ & r & s' & Hr & Hc & _).
  - reflexivity.
  - repeat constructor; simpl; lia.
  - exists r, s'. split; [exact Hr|]. apply Hc. reflexivity.
Defined.

Lemma add_race_witness :
  existEnodeIpItem "10.0.0.1" 30303
    (add_pooled "10.0.0.1" 30303 "0xbb" 8 (mk_state (M := gmap string) ∅ {[ "10.0.0.1:30303" := 7 ]})) = true.
Proof.
  apply (add_race (M := gmap string) "10.0.0.1" 30303 "0xbb" 8 3 7
    (mk_NodeItem "10.0.0.1" 30303 "0xaa" 5) ex_pool).
  - apply ec_inv_runs, ec_inv_init.
  - reflexivity.
  - reflexivity.
Defined.
End EnodeCache.
