(* ===== verification/NodeManager.v ===== *)
(** * The node manager (node_manager/node-manager.go)

    Blocks and transactions received from peers are relayed once to every
    client stream; per coinbase the manager remembers which peers delivered
    its latest block first; clients submit transactions to all peers or to the
    peers of a coinbase; the manager loop kicks useless peers and dials pooled
    nodes, and the crawl loop keeps the pool filled.

    Channels live in a store, since the map of clients and a stream share
    them.  The binary codecs of transactions and blocks are not modelled here:
    a transaction or block carries the result of encoding it, and decoding is
    a function of the request handlers. *)

From Stdlib Require Import Ascii.
From stdpp Require Import base gmap sets list strings pretty numbers.
From Stdlib Require Import ZArith Lia.
From S2P Require Import Prelude Externals KnownCache EnodeCache.

Module NodeManager.
Import EnodeCache.

(** ** Data *)
Record Tx : Type := mk_Tx { txHash : Hash; txBinary : option string }.
Record NBlock : Type := mk_NBlock {
  blkHash : Hash;
  blkNumber : Z;
  blkCoinbase : string;          (* Coinbase().String() *)
  blkRLP : option string;
}.
Record StartStreamRes : Type := mk_StartStreamRes { StreamType : Z; Msg : string }.
Record ServerPeer : Type := mk_ServerPeer { sp_Name : string; StreamChan : Z }.
Record CoinBaseInfo : Type := mk_CoinBaseInfo { LastBlock : Z; PeerIdList : list string }.

#[export] Instance Tx_eq_dec : EqDecision Tx.
Proof. solve_decision. Defined.
#[export] Instance StartStreamRes_eq_dec : EqDecision StartStreamRes.
Proof. solve_decision. Defined.

(** [strings.ToLower] on ASCII. *)
Definition lower (c : Ascii.ascii) : Ascii.ascii :=
  let n := Ascii.nat_of_ascii c in
  if ((65 <=? n) && (n <=? 90))%nat then Ascii.ascii_of_nat (n + 32) else c.
Fixpoint ToLower (s : string) : string :=
  match s with
  | EmptyString => EmptyString
  | String c s => String (lower c) (ToLower s)
  end.

(** make(chan *proto.StartStreamRes, 1024) *)
Definition sendChanCap : Z := 1024.

Section Manager.
Context {S : Type} `{MapSet Hash S} {M : Type -> Type} `{CMap M}.

Record manager : Type := mk_manager {
  knowTx : knownCache S;
  knowBlock : knownCache S;
  serverPeer : M ServerPeer;
  chans : gmap Z (list StartStreamRes);
  coinBaseList : M CoinBaseInfo;
  lastRecvBlockTime : Z;
  lastRecvBlockNum : Z;
}.
Definition mgr_init : manager :=
  mk_manager (newKnownCache 1024) (newKnownCache 12345) cm_new ∅ cm_new 0 0.

(** ** Relaying *)
(** A send on a buffered channel; a full one makes the goroutine wait. *)
Definition send (ch : Z) (m : StartStreamRes) (cs : gmap Z (list StartStreamRes))
    : outcome (gmap Z (list StartStreamRes)) :=
  let q := default [] (cs !! ch) in
  if len q <? sendChanCap then Done (<[ch := q ++ [m]]> cs) else Blocked "StreamChan".
Fixpoint send_all (peers : list (string * ServerPeer)) (m : StartStreamRes)
    (cs : gmap Z (list StartStreamRes)) : outcome (gmap Z (list StartStreamRes)) :=
  match peers with
  | [] => Done cs
  | (_, p) :: peers => cs ← send (StreamChan p) m cs; send_all peers m cs
  end.

Definition TransactionProcess (tx : Tx) (s : manager) : outcome manager :=
  if negb (Contains (knowTx s) (txHash tx)) then
    let known := Add (knowTx s) [txHash tx] in
    match txBinary tx with
    | None => Done (mk_manager known (knowBlock s) (serverPeer s) (chans s) (coinBaseList s)
                      (lastRecvBlockTime s) (lastRecvBlockNum s))
    | Some msg =>
        cs ← send_all (cm_iter (serverPeer s)) (mk_StartStreamRes 2 msg) (chans s);
        Done (mk_manager known (knowBlock s) (serverPeer s) cs (coinBaseList s)
                (lastRecvBlockTime s) (lastRecvBlockNum s))
    end
  else Done s.

(** [number] is [block.Number().Int64()]. *)
Definition updateCoinBase (number : Z) (peer : string) (i : CoinBaseInfo) : CoinBaseInfo :=
  if LastBlock i <? number then mk_CoinBaseInfo number [peer]
  else if len (PeerIdList i) <? 60 then mk_CoinBaseInfo (LastBlock i) (PeerIdList i ++ [peer])
  else i.
(** The entry is shared through a pointer: the update is seen in the map. *)
Definition recordCoinBase (block : NBlock) (peer : string) (l : M CoinBaseInfo) : M CoinBaseInfo :=
  let coinBase := ToLower (blkCoinbase block) in
  let number := i64 (blkNumber block) in
  match cm_get coinBase l with
  | Some info => cm_set coinBase (updateCoinBase number peer info) l
  | None => cm_set coinBase (mk_CoinBaseInfo number [peer]) l
  end.

Definition BlockProcess (block : NBlock) (peer : string) (now : Z) (s : manager) : outcome manager :=
  let coins := recordCoinBase block peer (coinBaseList s) in
  if negb (Contains (knowBlock s) (blkHash block)) then
    let known := Add (knowBlock s) [blkHash block] in
    let num := u64 (blkNumber block) in
    match blkRLP block with
    | None => Done (mk_manager (knowTx s) known (serverPeer s) (chans s) coins now num)
    | Some msg =>
        cs ← send_all (cm_iter (serverPeer s)) (mk_StartStreamRes 1 msg) (chans s);
        Done (mk_manager (knowTx s) known (serverPeer s) cs coins now num)
    end
  else Done (mk_manager (knowTx s) (knowBlock s) (serverPeer s) (chans s) coins
               (lastRecvBlockTime s) (lastRecvBlockNum s)).

(** ** Transactions from clients *)
(** [UnmarshalBinary] of every element; [None] is the early return. *)
Fixpoint decode_all (decode : string -> option Tx) (hexes : list string) : option (list Tx) :=
  match hexes with
  | [] => Some []
  | h :: hexes =>
      match decode h with
      | None => None
      | Some tx => option_map (cons tx) (decode_all decode hexes)
      end
  end.

(** The peers a coinbase submission goes to: [index] counts the ids, connected
    or not. *)
Fixpoint coinbase_targets (allPeers : gset string) (top index : Z) (ids : list string) : list string :=
  match ids with
  | [] => []
  | id :: ids =>
      if index <? top then
        (if bool_decide (id ∈ allPeers) then [id] else []) ++ coinbase_targets allPeers top (index + 1) ids
      else []
  end.
(** Status, and the sends started: peer and transactions. *)
Definition HandSendTxToCoinBase (decode : string -> option Tx) (hexes : list string)
    (coinBaseName : string) (top : Z) (allPeers : gset string) (s : manager)
    : Z * list (string * list Tx) :=
  match decode_all decode hexes with
  | None => (1, [])
  | Some txs =>
      if 0 <? len txs then
        match list_find (fun e => e.1 = coinBaseName) (cm_iter (coinBaseList s)) with
        | Some (_, (_, info)) =>
            (0, (fun id => (id, txs)) <$> coinbase_targets allPeers top 0 (PeerIdList info))
        | None => (0, [])
        end
      else (0, [])
  end.

(** The goroutines of [HandSendTx] read the loop variable [peer] when they
    run: goroutine [i] sees the element of some iteration [reads i], which is
    not before its own. *)
Definition valid_reads (n : nat) (reads : list nat) : Prop :=
  length reads = n /\ forall i r, reads !! i = Some r -> (i <= r < n)%nat.
Definition HandSendTx (decode : string -> option Tx) (hexes : list string)
    (allPeers : list string) (reads : list nat) : Z * list (string * list Tx) :=
  match decode_all decode hexes with
  | None => (1, [])
  | Some txs =>
      if 0 <? len txs
      then (0, (fun id => (id, txs)) <$> omap (fun r => allPeers !! r) reads)
      else (0, [])
  end.

(** ** The manager loop *)
Record EthPeerInfo : Type := mk_EthPeerInfo {
  pi_ID : string;
  PeerStartTime : Z;
  pi_LastBlockNumber : Z;
  pi_TotalRecvTx : Z;
}.
Definition bKickOut (nowTime lastNum : Z) (p : EthPeerInfo) : bool :=
  if 27 <=? nowTime - PeerStartTime p then
    if (pi_LastBlockNumber p =? 0) && (pi_TotalRecvTx p =? 0) then true
    else if (pi_LastBlockNumber p <? lastNum) && (128 <? u64 (lastNum - pi_LastBlockNumber p)) then
      pi_TotalRecvTx p <=? 10
    else false
  else false.

(** [strings.ReplaceAll(s, "0x", "")] *)
Fixpoint remove0x (s : string) : string :=
  match s with
  | String "0"%char (String "x"%char r) => remove0x r
  | String c r => String c (remove0x r)
  | EmptyString => EmptyString
  end.
Definition enodeLine (i : NodeItem) : string :=
  remove0x ("enode://" +:+ BootNodeID i +:+ "@" +:+ BootIP i +:+ ":" +:+ pretty (BootPort i)).

Record ManagerSetting : Type := mk_ManagerSetting {
  MaxCount : Z;
  MaxDailCount : Z;
  PendingEnodeCount : Z;
}.
(** One round: the peers kicked, and the enode URL handed to the parser for
    dialing, if any. *)
Definition ManagerLoop (cfg : ManagerSetting) (allPeers : list EthPeerInfo) (lastNum dialing src now : Z)
    (s : state (M := M)) : outcome (list string * option string * state (M := M)) :=
  let kicked := pi_ID <$> filter (fun p => bKickOut now lastNum p = true) allPeers in
  if len allPeers <? MaxCount cfg then
    if dialing <=? MaxDailCount cfg then
      r ← getEnodeFromCacheForDail src now s;
      let '(item, s) := r in
      Done (kicked, option_map enodeLine item, s)
    else Done (kicked, None, s)
  else Done (kicked, None, s).

(** One round of a crawl loop: the address crawled, if any.  [peerAddrs] are
    the remote addresses of the peers in map order. *)
Definition crawlLoop (cfg : ManagerSetting) (cancelFlag : bool) (src src' : Z)
    (peerAddrs : list (string * Z)) (s : state (M := M)) : outcome (option (string * Z)) :=
  if cancelFlag then Done None
  else if cm_count (enodePool s) <? PendingEnodeCount cfg then
    r ← getRandEnodeFromCache src s;
    match r with
    | Some item => Done (Some (BootIP item, BootPort item))
    | None =>
        targetIndex ← Intn src' (len peerAddrs);
        Done (peerAddrs !! Z.to_nat targetIndex)
    end
  else Done None.

(** ** Relaying once *)
Context `{!CMapLaws M} `{!MapSetLaws Hash S}.

Definition queue (cs : gmap Z (list StartStreamRes)) (ch : Z) : list StartStreamRes :=
  default [] (cs !! ch).
Definition channels (peers : list (string * ServerPeer)) : list Z := (fun e => StreamChan e.2) <$> peers.

Lemma send_all_spec peers m cs :
  NoDup (channels peers) ->
  (forall ch, ch ∈ channels peers -> len (queue cs ch) < sendChanCap) ->
  exists cs', send_all peers m cs = Done cs'
    /\ forall ch, queue cs' ch = queue cs ch ++ (if bool_decide (ch ∈ channels peers) then [m] else []).
Proof.
  revert cs. induction peers as [|[name p] peers IH]; intros cs Hnd Hroom.
  { exists cs. split; [done|]. intros ch. by rewrite app_nil_r. }
  apply list.NoDup_cons in Hnd as [Hnot Hnd]. cbn [send_all channels fmap list_fmap].
  unfold send. fold (queue cs (StreamChan p)).
  assert (len (queue cs (StreamChan p)) < sendChanCap) as Hlt%Z.ltb_lt by (apply Hroom; by left).
  rewrite Hlt. simpl. destruct (IH (<[StreamChan p := queue cs (StreamChan p) ++ [m]]> cs)) as (cs' & Hs & Hq).
  - done.
  - intros ch Hch. unfold queue. rewrite lookup_insert_ne by (intros <-; done).
    apply Hroom. by right.
  - exists cs'. split; [done|]. intros ch. rewrite Hq. unfold queue at 1.
    destruct (decide (ch = StreamChan p)) as [->|].
    + rewrite lookup_insert_eq. rewrite (bool_decide_eq_false_2 (_ ∈ channels peers)) by done.
      rewrite bool_decide_eq_true_2 by by left. by rewrite app_nil_r.
    + rewrite lookup_insert_ne by done. f_equal.
      destruct (decide (ch ∈ channels peers)).
      * by rewrite !bool_decide_eq_true_2 by set_solver.
      * by rewrite !bool_decide_eq_false_2 by set_solver.
Qed.

(** The pattern of both handlers: the hash, and the message if it encodes. *)
Definition relay (ty : Z) (peers : list (string * ServerPeer)) (e : Hash * option string)
    (s : knownCache S * gmap Z (list StartStreamRes)) : outcome (knownCache S * gmap Z (list StartStreamRes)) :=
  if negb (Contains s.1 e.1) then
    match e.2 with
    | None => Done (Add s.1 [e.1], s.2)
    | Some msg => cs ← send_all peers (mk_StartStreamRes ty msg) s.2; Done (Add s.1 [e.1], cs)
    end
  else Done s.

Lemma TransactionProcess_relay tx s :
  TransactionProcess tx s =
  ('(k, cs) ← relay 2 (cm_iter (serverPeer s)) (txHash tx, txBinary tx) (knowTx s, chans s);
   Done (mk_manager k (knowBlock s) (serverPeer s) cs (coinBaseList s)
           (lastRecvBlockTime s) (lastRecvBlockNum s))).
Proof.
  unfold TransactionProcess, relay. simpl. destruct (Contains _ _); simpl; [by destruct s|].
  destruct (txBinary tx); [|done]. by destruct (send_all _ _ _).
Qed.
Lemma BlockProcess_relay b peer now s k cs :
  relay 1 (cm_iter (serverPeer s)) (blkHash b, blkRLP b) (knowBlock s, chans s) = Done (k, cs) ->
  exists t n, BlockProcess b peer now s =
    Done (mk_manager (knowTx s) k (serverPeer s) cs (recordCoinBase b peer (coinBaseList s)) t n).
Proof.
  unfold BlockProcess, relay. simpl. destruct (Contains _ _); simpl; [intros [= -> ->]; by eauto|].
  destruct (blkRLP b); [|intros [= <- <-]; by eauto].
  destruct (send_all _ _ _); simpl; intros; simplify_eq; by eauto.
Qed.

(** The entries whose hash is new, at their first occurrence. *)
Fixpoint first_new (known : Hash -> bool) (l : list (Hash * option string)) : list (Hash * option string) :=
  match l with
  | [] => []
  | e :: l => if known e.1 then first_new known l
              else e :: first_new (fun h => bool_decide (h = e.1) || known h)%bool l
  end.
Fixpoint relay_all (ty : Z) (peers : list (string * ServerPeer)) (l : list (Hash * option string))
    (s : knownCache S * gmap Z (list StartStreamRes)) : outcome (knownCache S * gmap Z (list StartStreamRes)) :=
  match l with
  | [] => Done s
  | e :: l => s ← relay ty peers e s; relay_all ty peers l s
  end.
Definition relayed (ty : Z) (l : list (Hash * option string)) : list StartStreamRes :=
  mk_StartStreamRes ty <$> omap snd l.

Lemma first_new_ext known known' l :
  (forall h, known h = known' h) -> first_new known l = first_new known' l.
Proof.
  revert known known'. induction l as [|e l IH]; intros known known' Hk; [done|]. simpl.
  rewrite Hk. destruct (known' e.1); [by apply IH|]. f_equal. apply IH. intros h. by rewrite Hk.
Qed.

Lemma Add_one k h :
  Cardinality k < kmax k -> Contains k h = false ->
  (forall h', Contains (Add k [h]) h' = bool_decide (h' = h) || Contains k h')%bool
  /\ Cardinality (Add k [h]) <= Cardinality k + 1.
Proof.
  intros Hroom Hnew. split.
  - intros h'. apply Bool.eq_iff_eq_true. rewrite orb_true_iff, bool_decide_eq_true. split.
    + intros [Hin|?]%Add_Contains_old; [left; set_solver|by right].
    + intros [->|?]; [apply Add_Contains_new; by left|].
      apply Add_room; [|done]. rewrite len_cons, len_nil. lia.
  - pose proof (Add_card_grow k [h]) as Hgrow. rewrite len_cons, len_nil in Hgrow. lia.
Qed.

Lemma relay_all_spec ty peers l k cs :
  let news := first_new (Contains k) l in
  NoDup (channels peers) -> Cardinality k + len news <= kmax k ->
  (forall ch, ch ∈ channels peers -> len (queue cs ch) + len news <= sendChanCap) ->
  exists k' cs', relay_all ty peers l (k, cs) = Done (k', cs')
    /\ forall ch, queue cs' ch
         = queue cs ch ++ (if bool_decide (ch ∈ channels peers) then relayed ty news else []).
Proof.
  revert k cs. induction l as [|[h msg] l IH]; intros k cs news Hnd Hk Hroom.
  { exists k, cs. split; [done|]. intros ch. by case_bool_decide; rewrite app_nil_r. }
  unfold news in *. clear news. cbn [relay_all first_new fst] in *. unfold relay. cbn [fst snd].
  destruct (Contains k h) eqn:Eh; cbn [negb]; [simpl; by apply IH|]. rewrite len_cons in Hk, Hroom.
  pose proof (len_nonneg (first_new (fun h' => bool_decide (h' = h) || Contains k h') l)%bool).
  destruct (Add_one k h ltac:(lia) Eh) as [Hc Hcard].
  assert (Hfn : first_new (Contains (Add k [h])) l
                = first_new (fun h' => bool_decide (h' = h) || Contains k h')%bool l) by by apply first_new_ext.
  destruct msg as [msg|]; simpl.
  - destruct (send_all_spec peers (mk_StartStreamRes ty msg) cs Hnd) as (cs1 & -> & Hq1).
    { intros ch Hch. specialize (Hroom ch Hch). lia. }
    simpl. destruct (IH (Add k [h]) cs1) as (k' & cs' & Hr & Hq); rewrite ?Hfn in *.
    + done.
    + change (kmax (Add k [h])) with (kmax k). lia.
    + intros ch Hch. rewrite Hq1, bool_decide_eq_true_2, len_app, len_cons, len_nil by done.
      specialize (Hroom ch Hch). lia.
    + exists k', cs'. split; [done|]. intros ch. rewrite Hq, Hq1. case_bool_decide.
      * by rewrite <- app_assoc.
      * by rewrite !app_nil_r.
  - destruct (IH (Add k [h]) cs) as (k' & cs' & Hr & Hq); rewrite ?Hfn in *.
    + done.
    + change (kmax (Add k [h])) with (kmax k). lia.
    + intros ch Hch. specialize (Hroom ch Hch). lia.
    + eauto.
Qed.

Fixpoint run_txs (l : list Tx) (s : manager) : outcome manager :=
  match l with
  | [] => Done s
  | tx :: l => s ← TransactionProcess tx s; run_txs l s
  end.
(** Block, delivering peer and time of each call. *)
Fixpoint run_blocks (l : list (NBlock * string * Z)) (s : manager) : outcome manager :=
  match l with
  | [] => Done s
  | (b, peer, now) :: l => s ← BlockProcess b peer now s; run_blocks l s
  end.
Definition tx_entry (tx : Tx) : Hash * option string := (txHash tx, txBinary tx).
Definition block_entry (e : NBlock * string * Z) : Hash * option string := (blkHash e.1.1, blkRLP e.1.1).

Lemma run_txs_relay l s k cs :
  relay_all 2 (cm_iter (serverPeer s)) (tx_entry <$> l) (knowTx s, chans s) = Done (k, cs) ->
  run_txs l s = Done (mk_manager k (knowBlock s) (serverPeer s) cs (coinBaseList s)
                        (lastRecvBlockTime s) (lastRecvBlockNum s)).
Proof.
  revert s. induction l as [|tx l IH]; intros s; cbn [run_txs relay_all fmap list_fmap].
  - intros [= <- <-]. by destruct s.
  - rewrite TransactionProcess_relay. fold (tx_entry tx).
    destruct (relay 2 _ (tx_entry tx) _) as [[k1 cs1]| |]; simpl; [|done..].
    intros Hr. by erewrite IH by exact Hr.
Qed.
Lemma run_blocks_relay l s k cs :
  relay_all 1 (cm_iter (serverPeer s)) (block_entry <$> l) (knowBlock s, chans s) = Done (k, cs) ->
  exists s', run_blocks l s = Done s' /\ chans s' = cs /\ serverPeer s' = serverPeer s.
Proof.
  revert s. induction l as [|[[b peer] now] l IH]; intros s; cbn [run_blocks relay_all fmap list_fmap].
  - intros [= <- <-]. eauto.
  - destruct (relay 1 _ (block_entry _) _) as [[k1 cs1]| |] eqn:E; simpl; [|done..].
    destruct (BlockProcess_relay b peer now s k1 cs1 E) as (t & n & ->). simpl. intros Hr.
    exact (IH (mk_manager (knowTx s) k1 (serverPeer s) cs1 (recordCoinBase b peer (coinBaseList s)) t n) Hr).
Qed.


(** The same for blocks: every client gets each new block exactly once. *)
Theorem block_relayed_once l s :
  let news := first_new (Contains (knowBlock s)) (block_entry <$> l) in
  NoDup (channels (cm_iter (serverPeer s))) -> Cardinality (knowBlock s) + len news <= kmax (knowBlock s) ->
  (forall ch, ch ∈ channels (cm_iter (serverPeer s)) -> len (queue (chans s) ch) + len news <= sendChanCap) ->
  exists s', run_blocks l s = Done s'
    /\ forall ch, queue (chans s') ch = queue (chans s) ch ++
         (if bool_decide (ch ∈ channels (cm_iter (serverPeer s))) then relayed 1 news else []).
Proof.
  intros news Hnd Hk Hroom.
  destruct (relay_all_spec 1 _ _ _ _ Hnd Hk Hroom) as (k' & cs' & Hr & Hq).
  destruct (run_blocks_relay _ _ _ _ Hr) as (s' & Hs & <- & _). eauto.
Qed.

(** ** Peers of a coinbase *)
Definition record_all (l : list (NBlock * string)) (m : M CoinBaseInfo) : M CoinBaseInfo :=
  foldl (fun m e => recordCoinBase e.1 e.2 m) m l.
Definition of_coinbase (key : string) (l : list (NBlock * string)) : list (Z * string) :=
  omap (fun e => if decide (ToLower (blkCoinbase e.1) = key)
                 then Some (i64 (blkNumber e.1), e.2) else None) l.
Definition report (o : option CoinBaseInfo) (e : Z * string) : option CoinBaseInfo :=
  Some (match o with
        | Some i => updateCoinBase e.1 e.2 i
        | None => mk_CoinBaseInfo e.1 [e.2]
        end).

Lemma record_all_get key l m :
  cm_get key (record_all l m) = foldl report (cm_get key m) (of_coinbase key l).
Proof.
  unfold record_all. revert m. induction l as [|[b peer] l IH]; intros m; [done|]. simpl. rewrite IH.
  unfold of_coinbase. simpl. unfold recordCoinBase. simpl. destruct (decide (ToLower (blkCoinbase b) = key)) as [<-|].
  - simpl. destruct (cm_get _ m); by rewrite cm_get_set_eq.
  - by destruct (cm_get (ToLower _) m); rewrite cm_get_set_ne.
Qed.

(** Reports that do not raise the number are appended up to 60 ids. *)
Lemma report_lower n ids l :
  Forall (fun e => e.1 <= n) l -> (length ids <= 60)%nat ->
  foldl report (Some (mk_CoinBaseInfo n ids)) l
  = Some (mk_CoinBaseInfo n (ids ++ take (60 - length ids) l.*2)).
Proof.
  intros Hl. revert ids. induction Hl as [|[m p] l Hm Hl IH]; intros ids Hi; simpl.
  { by rewrite take_nil, app_nil_r. }
  unfold report at 2, updateCoinBase. simpl in *. destruct (Z.ltb_spec n m); [lia|].
  destruct (Z.ltb_spec (len ids) 60) as [Hlt|Hge]; unfold len in *.
  - rewrite IH by (rewrite length_app; simpl; lia). rewrite length_app, <- app_assoc. simpl.
    replace (60 - length ids)%nat with (Datatypes.S (60 - (length ids + 1))) by lia. done.
  - rewrite IH by lia. by replace (60 - length ids)%nat with 0%nat by lia.
Qed.

(** The first report of the highest number. *)
Lemma split_max (l : list (Z * string)) :
  l <> [] -> exists pre n p post, l = pre ++ (n, p) :: post
    /\ Forall (fun e => e.1 < n) pre /\ Forall (fun e => e.1 <= n) post.
Proof.
  induction l as [|[m q] l IH]; intros Hne; [done|]. destruct l as [|e l].
  { by exists [], m, q, []. }
  destruct IH as (pre & n & p & post & -> & Hpre & Hpost); [done|].
  destruct (decide (m < n)).
  - exists ((m, q) :: pre), n, p, post. split; [done|]. split; [by constructor|done].
  - exists [], m, q, (pre ++ (n, p) :: post). split; [done|]. split; [constructor|].
    apply Forall_app. split; [eapply List.Forall_impl; [|exact Hpre]; simpl; intros; lia|].
    constructor; [simpl; lia|]. eapply List.Forall_impl; [|exact Hpost]. simpl. intros. lia.
Qed.

Lemma report_last l o n p post :
  Forall (fun e => e.1 < n) l -> (forall i, o = Some i -> LastBlock i < n) ->
  foldl report o (l ++ (n, p) :: post) = foldl report (Some (mk_CoinBaseInfo n [p])) post.
Proof.
  intros Hl. revert o. induction Hl as [|[m q] l Hm Hl IH]; intros o Ho; simpl.
  - f_equal. unfold report. destruct o as [i|]; [|done]. unfold updateCoinBase. simpl.
    specialize (Ho i eq_refl). destruct (Z.ltb_spec (LastBlock i) n); [done|lia].
  - apply IH. intros i [= <-]. simpl in Hm. destruct o as [i|]; simpl; [|done].
    specialize (Ho i eq_refl). unfold updateCoinBase.
    destruct (Z.ltb_spec (LastBlock i) m); [done|]. by destruct (_ <? 60).
Qed.

(** After any sequence of blocks, the entry of a coinbase holds the highest
    block number reported for it; its peer list starts with the peer that
    first delivered that block and continues with the next 59 reports of the
    coinbase, of any lower or equal number, in their order. *)
Theorem coinbase_peers key l :
  let reports := of_coinbase key l in
  (reports = [] -> cm_get key (record_all l cm_new) = None)
  /\ (reports <> [] -> exists pre n p post, reports = pre ++ (n, p) :: post
       /\ Forall (fun e => e.1 < n) pre /\ Forall (fun e => e.1 <= n) post
       /\ cm_get key (record_all l cm_new) = Some (mk_CoinBaseInfo n (p :: take 59 post.*2))).
Proof.
  intros reports. rewrite record_all_get, cm_get_new. fold reports. split; [by intros ->|].
  intros (pre & n & p & post & -> & Hpre & Hpost)%split_max.
  exists pre, n, p, post. split_and!; [done..|].
  rewrite report_last by done. by rewrite report_lower by (done || simpl; lia).
Qed.

(** ** Submitting transactions *)
Lemma decode_all_spec decode hexes txs :
  decode_all decode hexes = Some txs <-> Forall2 (fun h tx => decode h = Some tx) hexes txs.
Proof.
  revert txs. induction hexes as [|h hexes IH]; intros txs; simpl.
  - split; [by intros [= <-]|]. by intros ->%Forall2_nil_inv_l.
  - destruct (decode h) as [tx|] eqn:E.
    + destruct (decode_all decode hexes) as [l|]; simpl.
      * split; [intros [= <-]; constructor; [done|by apply IH]|].
        intros (tx' & l' & ? & Hl & ->)%Forall2_cons_inv_l. apply IH in Hl. congruence.
      * split; [done|]. intros (tx' & l' & ? & Hl & ->)%Forall2_cons_inv_l. by apply IH in Hl.
    + split; [done|]. intros (tx' & l' & ? & _)%Forall2_cons_inv_l. congruence.
Qed.

Lemma coinbase_targets_spec allPeers top index ids :
  coinbase_targets allPeers top index ids
  = filter (fun id => id ∈ allPeers) (take (Z.to_nat (top - index)) ids).
Proof.
  revert index. induction ids as [|id ids IH]; intros index; simpl; [by rewrite take_nil|].
  destruct (Z.ltb_spec index top).
  - rewrite IH. replace (Z.to_nat (top - index)) with (Datatypes.S (Z.to_nat (top - (index + 1)))) by lia.
    simpl. rewrite filter_cons. case_decide.
    + by rewrite bool_decide_eq_true_2.
    + by rewrite bool_decide_eq_false_2.
  - by replace (Z.to_nat (top - index)) with 0%nat by lia.
Qed.

Lemma find_coinbase name (m : M CoinBaseInfo) :
  match list_find (fun e => e.1 = name) (cm_iter m) with
  | Some (_, e) => cm_get name m = Some e.2
  | None => cm_get name m = None
  end.
Proof.
  destruct (list_find _ _) as [[i [k info]]|] eqn:E.
  - apply list_find_Some in E as (Hi & Hk & _). simpl in Hk. subst k.
    apply cm_iter_get. by eapply list_elem_of_lookup_2.
  - apply list_find_None in E. destruct (cm_get name m) as [info|] eqn:Eg; [|done].
    apply cm_iter_get in Eg. rewrite Forall_forall in E. by destruct (E (name, info) (proj1 (list_elem_of_In _ _) Eg)).
Qed.

(** A submission to a coinbase: when every transaction decodes, the
    transactions go to the connected peers among the first [Top] ids of the
    entry stored under exactly that name, in their order; nothing is sent for
    an unknown name, which any name with a capital letter is, or when one
    transaction does not decode. *)
Theorem SendTxToCoinBase_spec decode hexes name top allPeers s :
  (decode_all decode hexes = None ->
     HandSendTxToCoinBase decode hexes name top allPeers s = (1, []))
  /\ forall txs, Forall2 (fun h tx => decode h = Some tx) hexes txs ->
     HandSendTxToCoinBase decode hexes name top allPeers s
     = (0, match cm_get name (coinBaseList s) with
           | Some i => (fun id => (id, txs)) <$>
                         (if decide (txs = []) then []
                          else filter (fun id => id ∈ allPeers) (take (Z.to_nat top) (PeerIdList i)))
           | None => []
           end).
Proof.
  unfold HandSendTxToCoinBase. split; [by intros ->|]. intros txs ->%decode_all_spec.
  destruct (decide (txs = [])) as [->|Hne].
  { simpl. by destruct (cm_get name _). }
  destruct (Z.ltb_spec 0 (len txs)); [|by destruct txs; [|rewrite len_cons in *; pose proof (len_nonneg txs); lia]].
  pose proof (find_coinbase name (coinBaseList s)) as Hf.
  destruct (list_find _ _) as [[i [k info]]|]; rewrite Hf; [|done]. simpl.
  by rewrite coinbase_targets_spec, Z.sub_0_r.
Qed.

(** The keys of the table are lower case. *)
Lemma lower_idem c : lower (lower c) = lower c.
Proof. by destruct c as [[] [] [] [] [] [] [] []]. Qed.
Lemma ToLower_idem x : ToLower (ToLower x) = ToLower x.
Proof. induction x as [|c x IH]; simpl; [done|]. by rewrite lower_idem, IH. Qed.
Lemma coinbase_key_lower l key i :
  cm_get key (record_all l cm_new) = Some i -> ToLower key = key.
Proof.
  rewrite record_all_get, cm_get_new. intros Hi.
  assert (Hne : of_coinbase key l <> []) by by intros Hnil; rewrite Hnil in Hi.
  destruct (of_coinbase key l) as [|e r] eqn:E; [done|].
  assert (Hin : e ∈ of_coinbase key l) by (rewrite E; by left).
  apply list_elem_of_omap in Hin as ([b p] & _ & Hd). case_decide as Hk; [|done].
  simpl in Hk. rewrite <- Hk. apply ToLower_idem.
Qed.

(** [HandSendTx] starts a goroutine per peer, but each reads the loop
    variable when it runs: every schedule sends as many messages as there are
    peers, and in the schedule where the loop ends first all of them go to the
    last peer. *)
Theorem HandSendTx_captures decode hexes txs allPeers last :
  Forall2 (fun h tx => decode h = Some tx) hexes txs -> txs <> [] ->
  let peers := allPeers ++ [last] in
  (forall reads, valid_reads (length peers) reads ->
     length (HandSendTx decode hexes peers reads).2 = length peers)
  /\ valid_reads (length peers) (replicate (length peers) (length allPeers))
  /\ HandSendTx decode hexes peers (replicate (length peers) (length allPeers))
     = (0, replicate (length peers) (last, txs)).
Proof.
  intros Hd%decode_all_spec Hne peers. unfold HandSendTx. rewrite Hd.
  destruct (Z.ltb_spec 0 (len txs)); [|by destruct txs; [|rewrite len_cons in *; pose proof (len_nonneg txs); lia]].
  assert (Hlen : length peers = Datatypes.S (length allPeers)) by (unfold peers; rewrite length_app; simpl; lia).
  split_and!.
  - intros reads [Hl Hr]. simpl. rewrite length_fmap, <- Hl. clear Hl. revert Hr.
    assert (Hgen : forall l, Forall (fun r => (r < length peers)%nat) l ->
              length (omap (fun r => peers !! r) l) = length l).
    { induction 1 as [|r l Hr _ IH]; [done|]. simpl.
      destruct (lookup_lt_is_Some_2 peers r Hr) as [x ->]. simpl. f_equal. exact IH. }
    intros Hr. apply Hgen. apply Forall_lookup. intros i r Hi. apply Hr in Hi. lia.
  - split; [by rewrite length_replicate|]. intros i r [-> Hi]%lookup_replicate. lia.
  - f_equal. rewrite Hlen. generalize (Datatypes.S (length allPeers)). intros n.
    assert (Hl : peers !! length allPeers = Some last) by (unfold peers; by rewrite lookup_app_r, Nat.sub_diag).
    induction n as [|n IH]; [done|]. simpl. rewrite Hl. simpl. f_equal. exact IH.
Qed.

(** ** The loops *)
(** A crawl round panics exactly when the pool is empty, there is room for
    nodes and no peer is connected: the index is drawn from no peers. *)
Theorem crawl_panics cfg cancelFlag src src' peerAddrs (s : state (M := M)) :
  (exists e, crawlLoop cfg cancelFlag src src' peerAddrs s = Panic e)
  <-> cancelFlag = false /\ cm_count (enodePool s) = 0 /\ 0 < PendingEnodeCount cfg /\ peerAddrs = [].
Proof.
  unfold crawlLoop. destruct cancelFlag; [split; [by intros [e ?]|by intros [? _]]|].
  unfold getRandEnodeFromCache. destruct (pick_spec src s) as (r & -> & Hc & _). simpl.
  destruct (Z.ltb_spec (cm_count (enodePool s)) (PendingEnodeCount cfg)) as [Hlt|Hge]; cycle 1.
  { split; [by intros [e ?]|]. intros (_ & ? & ? & _). lia. }
  destruct r as [[k i]|]; simpl.
  { split; [by intros [e ?]|]. intros (_ & Hz & _). by apply Hc in Hz. }
  assert (cm_count (enodePool s) = 0) by by apply Hc. unfold Intn.
  destruct peerAddrs as [|a l]; simpl.
  - split; [intros _; split_and!; done || lia|by eauto].
  - rewrite len_cons. pose proof (len_nonneg l). destruct (Z.leb_spec (1 + len l) 0); [lia|].
    simpl. split; [by intros [e ?]|by intros (_ & _ & _ & ?)].
Qed.

Fixpoint no_x (x : string) : bool :=
  match x with
  | EmptyString => true
  | String c x => negb (Ascii.eqb c "x") && no_x x
  end.
Lemma remove0x_no_x x : no_x x = true -> remove0x x = x.
Proof.
  induction x as [|c x IH]; [done|]. intros [Hc Hx]%andb_true_iff. specialize (IH Hx).
  destruct x as [|d x]; [by destruct c as [[] [] [] [] [] [] [] []]|].
  apply andb_true_iff in Hx as [Hd _].
  destruct c as [[] [] [] [] [] [] [] []]; try (simpl in *; by rewrite IH).
  destruct d as [[] [] [] [] [] [] [] []]; try done; simpl in *; by rewrite IH.
Qed.

Lemma remove0x_app x y : no_x x = true -> no_x y = true -> remove0x (x +:+ "0x" +:+ y) = x +:+ y.
Proof.
  intros Hx Hy. induction x as [|c x IH]; [simpl; by apply remove0x_no_x|].
  apply andb_true_iff in Hx as [Hc Hx]. specialize (IH Hx).
  destruct x as [|d x].
  - destruct c as [[] [] [] [] [] [] [] []]; try done;
      exact (f_equal (String _) (remove0x_no_x y Hy)).
  - apply andb_true_iff in Hx as [Hd _].
    destruct c as [[] [] [] [] [] [] [] []]; try exact (f_equal (String _) IH).
    destruct d as [[] [] [] [] [] [] [] []]; try done;
      exact (f_equal (String _) IH).
Qed.

(** The id is stored as hexutil prints it; the URL has it without the prefix. *)
Lemma enodeLine_url i hex :
  let rest := hex +:+ "@" +:+ BootIP i +:+ ":" +:+ pretty (BootPort i) in
  BootNodeID i = "0x" +:+ hex -> no_x rest = true -> enodeLine i = "enode://" +:+ rest.
Proof.
  intros rest Hid Hr. unfold enodeLine. rewrite Hid.
  exact (remove0x_app "enode://" rest eq_refl Hr).
Qed.

(** The reason a peer is kicked. *)
Definition useless (now lastNum : Z) (p : EthPeerInfo) : Prop :=
  27 <= now - PeerStartTime p
  /\ (pi_LastBlockNumber p = 0 /\ pi_TotalRecvTx p = 0
      \/ pi_LastBlockNumber p + 128 < lastNum /\ pi_TotalRecvTx p <= 10).

Lemma bKickOut_spec now lastNum p :
  is_u64 lastNum -> is_u64 (pi_LastBlockNumber p) ->
  bKickOut now lastNum p = true <-> useless now lastNum p.
Proof.
  unfold is_u64, bKickOut, useless. intros Hn Hl.
  destruct (Z.leb_spec 27 (now - PeerStartTime p)); [|split; [done|lia]].
  destruct (Z.eqb_spec (pi_LastBlockNumber p) 0), (Z.eqb_spec (pi_TotalRecvTx p) 0); simpl;
    try (split; [intros _; lia|done]);
    (destruct (Z.ltb_spec (pi_LastBlockNumber p) lastNum); simpl; [|split; [done|lia]];
     rewrite u64_small by (unfold is_u64; lia);
     destruct (Z.ltb_spec 128 (lastNum - pi_LastBlockNumber p)); [|split; [done|lia]];
     rewrite Z.leb_le; lia).
Qed.

(** A round of the manager loop always completes.  It disconnects exactly
    the peers that have been connected for 27 seconds and either have sent
    nothing, or are more than 128 blocks behind with at most 10 transactions;
    it dials exactly when there is room for a peer, no more than
    [MaxDailCount] dials are running and the pool is not empty. *)
Theorem manager_round cfg allPeers lastNum dialing src now (s : state (M := M)) :
  is_u64 lastNum -> Forall (fun p => is_u64 (pi_LastBlockNumber p)) allPeers ->
  exists kicked line s', ManagerLoop cfg allPeers lastNum dialing src now s = Done (kicked, line, s')
    /\ kicked = pi_ID <$> filter (fun p => bKickOut now lastNum p = true) allPeers
    /\ (forall p, p ∈ filter (fun p => bKickOut now lastNum p = true) allPeers
                  <-> p ∈ allPeers /\ useless now lastNum p)
    /\ (is_Some line <-> len allPeers < MaxCount cfg /\ dialing <= MaxDailCount cfg
                         /\ cm_count (enodePool s) <> 0)
    /\ forall l, line = Some l -> exists k i, cm_get k (enodePool s) = Some i /\ l = enodeLine i.
Proof.
  intros Hn Hp. unfold ManagerLoop.
  assert (Hk : forall p, p ∈ filter (fun p => bKickOut now lastNum p = true) allPeers
                  <-> p ∈ allPeers /\ useless now lastNum p).
  { intros p. rewrite list_elem_of_filter. split.
    - intros [Hb Hin]. split; [done|]. apply bKickOut_spec; [done| |done].
      rewrite Forall_forall in Hp. apply Hp. by apply list_elem_of_In.
    - intros [Hin Hu]. split; [|done]. apply bKickOut_spec; [done| |done].
      rewrite Forall_forall in Hp. apply Hp. by apply list_elem_of_In. }
  destruct (Z.ltb_spec (len allPeers) (MaxCount cfg)) as [Hlt|Hge]; cycle 1.
  { eexists _, None, s. split_and!; [done|done|done| |done]. split; [by intros []|lia]. }
  destruct (Z.leb_spec dialing (MaxDailCount cfg)); cycle 1.
  { eexists _, None, s. split_and!; [done|done|done| |done]. split; [by intros []|lia]. }
  destruct (getForDail_spec src now s) as (r & s' & -> & Hc & Hm). simpl.
  eexists _, _, s'. split_and!; [done|done|done| |].
  - destruct r as [i|]; simpl.
    + split; [|by eauto]. intros _. split_and!; [done|done|]. intros Hz. by apply Hc in Hz.
    + split; [by intros []|]. intros (_ & _ & Hz). by destruct Hz; apply Hc.
  - intros l Hl. destruct r as [i|]; [|done]. destruct Hm as (k & Hk' & _). simpl in Hl. simplify_eq. eauto.
Qed.
End Manager.

(** ** A client's stream (HandStartStream)

    The loop takes messages off the channel and starts a goroutine for each;
    a goroutine sends its message on the stream, and when that fails reports
    on the unbuffered [closeSteamChan], which ends the loop and unregisters
    the client. *)
Section Stream.
(** Whether a message decodes (transaction or block, by its type). *)
Context (decodes : StartStreamRes -> bool).

Record stream : Type := mk_stream {
  sendChan : list StartStreamRes;
  looping : bool;                        (* the loop runs, the client is registered *)
  delivering : list StartStreamRes;      (* goroutines before their Send *)
  delivered : list StartStreamRes;
  closing : list StartStreamRes;         (* goroutines blocked on closeSteamChan *)
  dropped : list StartStreamRes;
  accepted : list StartStreamRes;        (* all messages put on the channel *)
}.
Definition stream_init : stream := mk_stream [] true [] [] [] [] [].

Inductive stream_step : stream -> stream -> Prop :=
  | st_enqueue q lo a d c x acc m :
      len q < sendChanCap ->
      stream_step (mk_stream q lo a d c x acc) (mk_stream (q ++ [m]) lo a d c x (acc ++ [m]))
  | st_take q a d c x acc m :
      stream_step (mk_stream (m :: q) true a d c x acc) (mk_stream q true (a ++ [m]) d c x acc)
  | st_sent q lo a1 a2 d c x acc m :
      decodes m = true -> StreamType m = 1 \/ StreamType m = 2 ->
      stream_step (mk_stream q lo (a1 ++ m :: a2) d c x acc) (mk_stream q lo (a1 ++ a2) (d ++ [m]) c x acc)
  | st_failed q lo a1 a2 d c x acc m :
      decodes m = true -> StreamType m = 1 \/ StreamType m = 2 ->
      stream_step (mk_stream q lo (a1 ++ m :: a2) d c x acc) (mk_stream q lo (a1 ++ a2) d (c ++ [m]) x acc)
  | st_undecodable q lo a1 a2 d c x acc m :
      decodes m = false \/ StreamType m <> 1 /\ StreamType m <> 2 ->
      stream_step (mk_stream q lo (a1 ++ m :: a2) d c x acc) (mk_stream q lo (a1 ++ a2) d c (x ++ [m]) acc)
  | st_close q a d c1 c2 x acc m :
      stream_step (mk_stream q true a d (c1 ++ m :: c2) x acc)
                  (mk_stream q false a d (c1 ++ c2) (x ++ [m]) acc).

Definition stream_inv (s : stream) : Prop :=
  accepted s ≡ₚ sendChan s ++ delivering s ++ delivered s ++ closing s ++ dropped s
  /\ len (sendChan s) <= sendChanCap.

Lemma stream_inv_step s s' : stream_step s s' -> stream_inv s -> stream_inv s'.
Proof.
  unfold stream_inv.
  destruct 1; simpl; intros [Hp Hl]; rewrite ?Hp; autorewrite with octopus_len in *;
    (split; [solve_Permutation|lia]).
Qed.
Lemma stream_inv_reach s : rtc stream_step stream_init s -> stream_inv s.
Proof.
  apply invariant_reach; [split; [done|vm_compute; discriminate]|].
  eauto using stream_inv_step.
Qed.

(** A client's stream neither loses nor duplicates messages while it is
    open: in every reachable state the messages accepted are, up to order,
    those queued, being delivered, delivered, or given up because the stream
    failed or they do not decode; and the queue never exceeds its capacity. *)
Theorem stream_accounting s :
  rtc stream_step stream_init s ->
  accepted s ≡ₚ sendChan s ++ delivering s ++ delivered s ++ closing s ++ dropped s
  /\ len (sendChan s) <= sendChanCap.
Proof. apply stream_inv_reach. Qed.

(** Once the loop has ended, a goroutine whose send failed waits for ever on
    [closeSteamChan]: it is still there in every later state. *)
Theorem stream_leak s s' m :
  looping s = false -> m ∈ closing s -> rtc stream_step s s' -> looping s' = false /\ m ∈ closing s'.
Proof.
  intros Hl Hm Hr. induction Hr as [|s1 s2 s3 Hst _ IH]; [done|].
  apply IH; destruct Hst; simpl in *; try done; set_solver.
Qed.
End Stream.

(** Messages may reach the client in another order than they were accepted
    in, since every message has a goroutine of its own. *)
Theorem stream_reorders decodes m1 m2 :
  decodes m1 = true -> decodes m2 = true -> StreamType m1 = 1 -> StreamType m2 = 1 ->
  exists s, rtc (stream_step decodes) stream_init s
    /\ accepted s = [m1; m2] /\ delivered s = [m2; m1].
Proof.
  intros H1 H2 H3 H4. exists (mk_stream [] true [] [m2; m1] [] [] [m1; m2]). split; [|done].
  eapply rtc_l; [by apply (st_enqueue _ [] true [] [] [] [] [] m1)|].
  eapply rtc_l; [by apply (st_enqueue _ [m1] true [] [] [] [] [m1] m2)|].
  eapply rtc_l; [by apply (st_take _ [m2] [] [] [] [] [m1; m2] m1)|].
  eapply rtc_l; [by apply (st_take _ [] [m1] [] [] [] [m1; m2] m2)|].
  eapply rtc_l; [by apply (st_sent _ [] true [m1] [] [] [] [] [m1; m2] m2); auto|].
  eapply rtc_l; [by apply (st_sent _ [] true [] [] [m2] [] [] [m1; m2] m1); auto|]. done.
Qed.

(** ** Concrete runs *)
Abbreviation Mgr := (manager (S := gset Hash) (M := gmap string)).
Definition ex_mgr : Mgr :=
  mk_manager (newKnownCache 1024) (newKnownCache 12345)
    {[ "bot" := mk_ServerPeer "bot" 1 ]} ∅ ∅ 0 0.
Definition ex_tx (h : Hash) : Tx := mk_Tx h (Some "tx").
Definition ex_block (h n : Z) : NBlock := mk_NBlock h n "0xAB" (Some "blk").

Lemma ex_channels : channels (cm_iter (serverPeer ex_mgr)) = [1].
Proof. vm_compute. reflexivity. Qed.

Lemma block_relayed_once_witness :
  exists s', run_blocks [(ex_block 5 1, "p", 7); (ex_block 5 1, "q", 8)] ex_mgr = Done s'
    /\ queue (chans s') 1 = [mk_StartStreamRes 1 "blk"].
Proof.
  destruct (block_relayed_once [(ex_block 5 1, "p", 7); (ex_block 5 1, "q", 8)] ex_mgr) as (s' & Hr & Hq).
  - vm_compute. by repeat constructor; set_solver.
  - vm_compute. discriminate.
  - intros ch Hch. rewrite ex_channels in Hch. apply list_elem_of_singleton in Hch as ->.
    vm_compute. discriminate.
  - exists s'. split; [exact Hr|]. rewrite Hq. vm_compute. reflexivity.
Defined.

Definition ex_reports : list (NBlock * string) :=
  [(ex_block 5 1, "p"); (ex_block 6 2, "q"); (ex_block 5 1, "r")].
Lemma coinbase_peers_witness :
  is_Some (cm_get "0xab" (record_all (M := gmap string) ex_reports cm_new)).
Proof.
  destruct (coinbase_peers (M := gmap string) "0xab" ex_reports) as [_ Hr].
  destruct Hr as (pre & n & p & post & _ & _ & _ & Hg); [discriminate|].
  rewrite Hg. eexists. reflexivity.
Defined.

Definition ex_decode (h : string) : option Tx := Some (mk_Tx 1 (Some h)).
Definition ex_coins : Mgr :=
  mk_manager (newKnownCache 1) (newKnownCache 1) ∅ ∅ {[ "0xab" := mk_CoinBaseInfo 2 ["q"; "p"] ]} 0 0.
Lemma SendTxToCoinBase_spec_witness :
  HandSendTxToCoinBase ex_decode ["aa"] "0xab" 1 {["p"; "q"]} ex_coins = (0, [("q", [mk_Tx 1 (Some "aa")])])
  /\ HandSendTxToCoinBase ex_decode ["aa"] "0xAB" 1 {["p"; "q"]} ex_coins = (0, []).
Proof.
  split.
  - destruct (SendTxToCoinBase_spec ex_decode ["aa"] "0xab" 1 {["p"; "q"]} ex_coins) as [_ Hs].
    exact (Hs [mk_Tx 1 (Some "aa")] ltac:(by repeat constructor)).
  - destruct (SendTxToCoinBase_spec ex_decode ["aa"] "0xAB" 1 {["p"; "q"]} ex_coins) as [_ Hs].
    exact (Hs [mk_Tx 1 (Some "aa")] ltac:(by repeat constructor)).
Defined.

Lemma HandSendTx_captures_witness :
  HandSendTx ex_decode ["aa"] ["p"; "q"] [1%nat; 1%nat]
  = (0, [("q", [mk_Tx 1 (Some "aa")]); ("q", [mk_Tx 1 (Some "aa")])]).
Proof.
  apply (HandSendTx_captures ex_decode ["aa"] [mk_Tx 1 (Some "aa")] ["p"] "q"); [by repeat constructor|discriminate].
Defined.

Lemma manager_round_witness :
  exists kicked line s', ManagerLoop (M := gmap string) (mk_ManagerSetting 10 5 100)
    [mk_EthPeerInfo "p" 0 0 0; mk_EthPeerInfo "q" 20 0 0] 7 5 0 30 init = Done (kicked, line, s')
    /\ kicked = ["p"].
Proof.
  destruct (manager_round (M := gmap string) (mk_ManagerSetting 10 5 100)
    [mk_EthPeerInfo "p" 0 0 0; mk_EthPeerInfo "q" 20 0 0] 7 5 0 30 init)
    as (kicked & line & s' & Hr & Hk & _).
  - by split.
  - repeat constructor; done.
  - exists kicked, line, s'. split; [exact Hr|]. rewrite Hk. reflexivity.
Defined.

Lemma crawl_panics_witness :
  exists e, crawlLoop (M := gmap string) (mk_ManagerSetting 10 5 100) false 3 4 [] init = Panic e.
Proof.
  apply (crawl_panics (M := gmap string) (mk_ManagerSetting 10 5 100) false 3 4 [] init).
  done.
Defined.

Lemma stream_accounting_witness :
  let m := mk_StartStreamRes 1 "blk" in
  accepted (mk_stream [m] true [] [] [] [] [m]) ≡ₚ [m].
Proof.
  intros m.
  destruct (stream_accounting (fun _ => true) (mk_stream [m] true [] [] [] [] [m])) as [Hp _].
  - eapply rtc_l; [by apply (st_enqueue _ [] true [] [] [] [] [] m)|]. apply rtc_refl.
  - exact Hp.
Defined.
Lemma stream_leak_witness :
  let m := mk_StartStreamRes 1 "blk" in
  m ∈ closing (mk_stream [] false [] [] [m] [] [m]).
Proof.
  intros m. apply (stream_leak (fun _ => true) (mk_stream [] false [] [] [m] [] [m])); [done|by left|].
  apply rtc_refl.
Defined.
Lemma stream_reorders_witness :
  exists s, delivered s = [mk_StartStreamRes 1 "b"; mk_StartStreamRes 1 "a"].
Proof.
  destruct (stream_reorders (fun _ => true) (mk_StartStreamRes 1 "a") (mk_StartStreamRes 1 "b"))
    as (s & _ & _ & Hd); [done..|]. by exists s.
Defined.
End NodeManager.
