(* ===== verification/ForkID.v ===== *)
(** * Fork identifiers (core/forkid/forkid.go)

    The fork list of a chain configuration, the identifier of a head and the
    filter for remote identifiers (EIP-2124), with the IEEE CRC-32 of Go's
    hash/crc32 written out. *)

From stdpp Require Import base sets list numbers strings sorting.
From Stdlib Require Import ZArith Lia.
From S2P Require Import Prelude.

Module ForkID.

(** ** hash/crc32 *)
Definition crc32_bit (c : Z) : Z :=
  if Z.testbit c 0 then Z.lxor (Z.shiftr c 1) 0xEDB88320 else Z.shiftr c 1.
Definition crc32_byte (c b : Z) : Z := Nat.iter 8 crc32_bit (Z.lxor c b).
(** [crc32.Update(crc, IEEETable, p)]; the complement is on 32 bits. *)
Definition crc32_Update (crc : Z) (p : list Z) : Z :=
  Z.lxor (foldl crc32_byte (Z.lxor crc 0xFFFFFFFF) p) 0xFFFFFFFF.
Definition ChecksumIEEE (p : list Z) : Z := crc32_Update 0 p.

(** [binary.BigEndian.PutUint64] *)
Fixpoint put_be (n : nat) (z : Z) : list Z :=
  match n with
  | O => []
  | S n => put_be n (Z.shiftr z 8) ++ [Z.land z 255]
  end.
Definition checksumUpdate (hash fork : Z) : Z := crc32_Update hash (put_be 8 fork).
Definition checksumToBytes (hash : Z) : list Z := put_be 4 hash.

(** ** The forks of a configuration
    A field of params.ChainConfig: its name and, when its type is a pointer to
    big.Int, its value. *)
Inductive fieldValue : Type :=
  | BigInt (v : option Z)
  | OtherField.
Definition config : Type := list (string * fieldValue).

(** [strings.HasSuffix] *)
Definition HasSuffix (s suffix : string) : bool :=
  bool_decide (String.substring (String.length s - String.length suffix) (String.length suffix) s = suffix
               /\ (String.length suffix <= String.length s)%nat).
Definition gather (c : config) : list Z :=
  omap (fun '(name, v) =>
    if HasSuffix name "Block" then
      match v with BigInt (Some r) => Some (u64 r) | _ => None end
    else None) c.

(** The exchange sort: the inner loop carries the element at [i] along and
    leaves the larger one of each pair behind. *)
Fixpoint exchange (x : Z) (l : list Z) : Z * list Z :=
  match l with
  | [] => (x, [])
  | y :: l =>
      if y <? x then let '(m, r) := exchange y l in (m, x :: r)
      else let '(m, r) := exchange x l in (m, y :: r)
  end.
Fixpoint exchange_sort (fuel : nat) (l : list Z) : list Z :=
  match fuel, l with
  | S f, x :: l => let '(m, r) := exchange x l in m :: exchange_sort f r
  | _, _ => []
  end.
(** Removal of an element equal to its predecessor. *)
Fixpoint dedup (l : list Z) : list Z :=
  match l with
  | x :: ((y :: _) as r) => if y =? x then dedup r else x :: dedup r
  | l => l
  end.
Definition gatherForks (c : config) : list Z :=
  let forks := dedup (exchange_sort (length (gather c)) (gather c)) in
  match forks with
  | f :: r => if f =? 0 then r else forks
  | [] => []
  end.

(** ** Identifiers *)
Record ID : Type := mk_ID { id_Hash : list Z; id_Next : Z }.
#[export] Instance ID_eq_dec : EqDecision ID.
Proof. solve_decision. Defined.

(** The forks passed go into the checksum; the first other one is next. *)
Fixpoint newID_loop (head hash : Z) (forks : list Z) {struct forks} : Z * Z :=
  match forks with
  | [] => (hash, 0)
  | fork :: r => if fork <=? head then newID_loop head (checksumUpdate hash fork) r else (hash, fork)
  end.
Definition NewID (c : config) (genesis : list Z) (head : Z) : ID :=
  let '(hash, next) := newID_loop head (ChecksumIEEE genesis) (gatherForks c) in
  mk_ID (checksumToBytes hash) next.
Definition NextForkHash (c : config) (genesis : list Z) (head : Z) : list Z :=
  let '(hash, next) := newID_loop head (ChecksumIEEE genesis) (gatherForks c) in
  if next =? 0 then checksumToBytes hash else checksumToBytes (checksumUpdate hash next).

(** ** The filter *)
Inductive filterErr : Type := ErrRemoteStale | ErrLocalIncompatibleOrStale.

Definition MaxUint64 : Z := 2 ^ 64 - 1.

(** The checksum of the genesis block and after each fork. *)
Fixpoint sums_from (hash : Z) (forks : list Z) {struct forks} : list (list Z) :=
  checksumToBytes hash ::
  match forks with
  | [] => []
  | fork :: r => sums_from (checksumUpdate hash fork) r
  end.

(** The first index below [n] with this checksum. *)
Definition find_sum (sums : list (list Z)) (from to : nat) (h : list Z) : option nat :=
  head (filter (fun j => sums !! j = Some h) (seq from (to - from))).

(** The validator's loop over the forks, from index [i]; [None] accepts. *)
Fixpoint filter_loop (sums : list (list Z)) (all : list Z) (head : Z) (id : ID) (i : nat)
    (forks : list Z) : option filterErr :=
  match forks with
  | [] => None
  | fork :: r =>
      if fork <=? head then filter_loop sums all head id (S i) r
      else if bool_decide (sums !! i = Some (id_Hash id)) then
        if ((0 <? id_Next id) && (id_Next id <=? head))%bool then Some ErrLocalIncompatibleOrStale
        else None
      else
        match find_sum sums 0 i (id_Hash id) with
        | Some j => if bool_decide (all !! j = Some (id_Next id)) then None else Some ErrRemoteStale
        | None =>
            match find_sum sums (S i) (length sums) (id_Hash id) with
            | Some _ => None
            | None => Some ErrLocalIncompatibleOrStale
            end
        end
  end.
Definition newFilter (c : config) (genesis : list Z) (head : Z) (id : ID) : option filterErr :=
  let forks := gatherForks c in
  let sums := sums_from (ChecksumIEEE genesis) forks in
  let forks := forks ++ [MaxUint64] in
  filter_loop sums forks head id 0 forks.

(** The checksums are computed on concrete inputs only. *)
#[local] Opaque checksumUpdate ChecksumIEEE checksumToBytes.

(** ** The fork list *)
Lemma exchange_spec x l m r :
  exchange x l = (m, r) -> m :: r ≡ₚ x :: l /\ Forall (fun y => m <= y) r /\ length r = length l.
Proof.
  revert x m r. induction l as [|y l IH]; intros x m r; simpl; [by intros [= <- <-]|].
  destruct (Z.ltb_spec y x).
  - destruct (exchange y l) as [m' r'] eqn:E. intros [= <- <-].
    apply IH in E as (Hp & Hm & Hl). split_and!; [|constructor|simpl; lia]; [..|done].
    + by rewrite (Permutation_swap x m'), Hp.
    + assert (m' <= y); [|lia]. assert (Hin : y ∈ m' :: r') by (rewrite Hp; by left).
      apply elem_of_cons in Hin as [->|Hin]; [done|]. rewrite List.Forall_forall in Hm. apply Hm.
      by apply list_elem_of_In.
  - destruct (exchange x l) as [m' r'] eqn:E. intros [= <- <-].
    apply IH in E as (Hp & Hm & Hl). split_and!; [|constructor|simpl; lia]; [..|done].
    + rewrite (Permutation_swap y m'), Hp. apply Permutation_swap.
    + assert (m' <= x); [|lia]. assert (Hin : x ∈ m' :: r') by (rewrite Hp; by left).
      apply elem_of_cons in Hin as [->|Hin]; [done|]. rewrite List.Forall_forall in Hm. apply Hm.
      by apply list_elem_of_In.
Qed.

Lemma exchange_sort_spec fuel l :
  (length l <= fuel)%nat -> exchange_sort fuel l ≡ₚ l /\ StronglySorted Z.le (exchange_sort fuel l).
Proof.
  revert l. induction fuel as [|f IH]; intros [|x l] Hl; simpl in *;
    [split; [done|constructor]|lia|split; [done|constructor]|].
  destruct (exchange x l) as [m r] eqn:E. apply exchange_spec in E as (Hp & Hm & Hr).
  destruct (IH r) as [Hp' Hs]; [lia|]. split; [by rewrite Hp'|]. constructor; [done|].
  by rewrite Hp'.
Qed.

Lemma dedup_spec l :
  StronglySorted Z.le l -> StronglySorted Z.lt (dedup l) /\ forall x, x ∈ dedup l <-> x ∈ l.
Proof.
  induction 1 as [|x l Hs IH Hx]; [split; [constructor|done]|].
  destruct IH as [Hlt Hin]. destruct l as [|y r]; [split; [by repeat constructor|done]|].
  change (dedup (x :: y :: r)) with (if y =? x then dedup (y :: r) else x :: dedup (y :: r)).
  destruct (Z.eqb_spec y x) as [->|Hne].
  - split; [done|]. intros z. rewrite Hin. set_solver.
  - split.
    + constructor; [done|]. apply List.Forall_forall. intros z Hz%list_elem_of_In.
      apply Hin, elem_of_cons in Hz as [->|Hz]; inversion_clear Hx; [lia|].
      inversion_clear Hs as [|? ? _ Hy]. rewrite List.Forall_forall in Hy.
      apply list_elem_of_In in Hz. specialize (Hy z Hz). lia.
    + intros z. rewrite !elem_of_cons, Hin, elem_of_cons. done.
Qed.

(** The gathered forks are strictly increasing, positive, and exactly the
    configured numbers other than zero. *)
Lemma gatherForks_spec c :
  StronglySorted Z.lt (gatherForks c) /\ forall x, x ∈ gatherForks c <-> x ∈ gather c /\ x <> 0.
Proof.
  destruct (exchange_sort_spec (length (gather c)) (gather c)) as [Hp Hs]; [done|].
  destruct (dedup_spec _ Hs) as [Hd Hin0].
  assert (Hin : forall x, x ∈ dedup (exchange_sort (length (gather c)) (gather c)) <-> x ∈ gather c)
    by (intros x; rewrite Hin0; by rewrite Hp). clear Hin0.
  assert (Hpos : forall x, x ∈ gather c -> 0 <= x).
  { intros x ([name v] & _ & Hv)%list_elem_of_omap. simpl in Hv.
    destruct (HasSuffix _ _); [|done]. destruct v as [[r|]|]; simplify_eq. apply u64_range. }
  unfold gatherForks. destruct (dedup _) as [|f r] eqn:E.
  - split; [constructor|]. intros x. rewrite <- Hin. set_solver.
  - inversion_clear Hd as [|? ? Hr Hf]. rewrite List.Forall_forall in Hf.
    assert (Hf0 : 0 <= f) by (apply Hpos, Hin; by left).
    assert (Hr0 : forall x, x ∈ r -> f < x) by (intros x Hx; by apply Hf, list_elem_of_In).
    destruct (Z.eqb_spec f 0) as [->|Hz].
    + split; [done|]. intros x. rewrite <- Hin, elem_of_cons. split.
      * intros Hx. specialize (Hr0 x Hx). split; [by right|lia].
      * by intros [[->|?] ?].
    + split; [constructor; [done|by apply List.Forall_forall]|]. intros x. rewrite <- Hin. split; [|tauto].
      intros Hx. split; [done|]. apply elem_of_cons in Hx as [->|Hx]; [done|]. specialize (Hr0 x Hx). lia.
Qed.

(** ** The identifier of a head *)
(** The index of the first fork above the head. *)
Fixpoint passed (head : Z) (forks : list Z) : nat :=
  match forks with
  | [] => 0
  | f :: r => if f <=? head then S (passed head r) else 0
  end.

Lemma newID_loop_spec head hash forks h n :
  newID_loop head hash forks = (h, n) ->
  sums_from hash forks !! passed head forks = Some (checksumToBytes h)
  /\ n = default 0 (forks !! passed head forks).
Proof.
  revert hash. induction forks as [|f r IH]; intros hash; simpl; [by intros [= <- <-]|].
  destruct (f <=? head); [apply IH|]. by intros [= <- <-].
Qed.
Lemma passed_le head forks : (passed head forks <= length forks)%nat.
Proof. induction forks as [|f r IH]; simpl; [lia|]. destruct (f <=? head); lia. Qed.
Lemma passed_at head forks f : forks !! passed head forks = Some f -> head < f.
Proof.
  induction forks as [|g r IH]; simpl; [done|].
  destruct (Z.leb_spec g head); simpl; [done|]. by intros [= <-].
Qed.
Lemma passed_snoc head forks last :
  head < last -> passed head (forks ++ [last]) = passed head forks.
Proof.
  intros Hl. induction forks as [|f r IH]; simpl; [|by rewrite IH].
  destruct (Z.leb_spec last head); [lia|done].
Qed.
Lemma sums_from_length hash forks : length (sums_from hash forks) = S (length forks).
Proof. revert hash. induction forks as [|f r IH]; intros hash; simpl; [done|]. by rewrite IH. Qed.

(** ** The filter *)
(** What the filter decides once the current fork index is known. *)
Definition judge (sums : list (list Z)) (all : list Z) (head : Z) (id : ID) (i : nat) : option filterErr :=
  if bool_decide (sums !! i = Some (id_Hash id)) then
    if ((0 <? id_Next id) && (id_Next id <=? head))%bool then Some ErrLocalIncompatibleOrStale else None
  else
    match find_sum sums 0 i (id_Hash id) with
    | Some j => if bool_decide (all !! j = Some (id_Next id)) then None else Some ErrRemoteStale
    | None =>
        match find_sum sums (S i) (length sums) (id_Hash id) with
        | Some _ => None
        | None => Some ErrLocalIncompatibleOrStale
        end
    end.
Lemma filter_loop_judge sums all head id i forks :
  (passed head forks < length forks)%nat ->
  filter_loop sums all head id i forks = judge sums all head id (i + passed head forks).
Proof.
  revert i. induction forks as [|f r IH]; intros i Hl; simpl in *; [lia|].
  destruct (f <=? head); [|by rewrite Nat.add_0_r].
  rewrite IH by lia. by rewrite Nat.add_succ_r.
Qed.
Lemma newFilter_judge c genesis head id :
  head < MaxUint64 ->
  newFilter c genesis head id
  = judge (sums_from (ChecksumIEEE genesis) (gatherForks c)) (gatherForks c ++ [MaxUint64]) head id
      (passed head (gatherForks c)).
Proof.
  intros Hh. unfold newFilter.
  rewrite filter_loop_judge; rewrite passed_snoc by done; [done|].
  pose proof (passed_le head (gatherForks c)). rewrite length_app. simpl. lia.
Qed.

Lemma find_sum_Some sums from to h j :
  find_sum sums from to h = Some j -> (from <= j < to)%nat /\ sums !! j = Some h.
Proof.
  unfold find_sum. intros Hj. assert (Hin : j ∈ filter (fun j => sums !! j = Some h) (seq from (to - from))).
  { destruct (filter _ _); [done|]. simpl in Hj. simplify_eq. by left. }
  apply list_elem_of_filter in Hin as [? Hs%elem_of_seq]. split; [lia|done].
Qed.
Lemma find_sum_None sums from to h j :
  find_sum sums from to h = None -> (from <= j < to)%nat -> sums !! j <> Some h.
Proof.
  unfold find_sum. intros Hn Hj Hs. assert (Hin : j ∈ filter (fun j => sums !! j = Some h) (seq from (to - from))).
  { apply list_elem_of_filter. split; [done|]. apply elem_of_seq. lia. }
  destruct (filter _ _); [by apply not_elem_of_nil in Hin|done].
Qed.

(** Nodes of the same chain are never rejected: whatever the two heads,
    the filter of one accepts the identifier of the other, provided the fork
    checksums of the chain are distinct. *)
Lemma same_chain_accepted c genesis head head' :
  NoDup (sums_from (ChecksumIEEE genesis) (gatherForks c)) -> head < MaxUint64 ->
  newFilter c genesis head (NewID c genesis head') = None.
Proof.
  intros Hnd Hh. rewrite newFilter_judge by done. unfold NewID.
  destruct (newID_loop _ _ _) as [h n] eqn:E. apply newID_loop_spec in E as [Hs Hn].
  set (sums := sums_from _ _) in *. set (forks := gatherForks c) in *.
  set (i := passed head forks). set (k := passed head' forks) in *.
  assert (Hk : (k <= length forks)%nat) by apply passed_le.
  assert (Huniq : forall j, sums !! j = Some (checksumToBytes h) -> j = k).
  { intros j Hj. by eapply NoDup_lookup. }
  unfold judge. cbn [id_Hash id_Next]. case_bool_decide as Hi.
  - assert (Hik : i = k) by by apply Huniq. destruct (forks !! k) as [f|] eqn:Ef; simpl in Hn; subst n; [|done].
    rewrite <- Hik in Ef. apply passed_at in Ef. destruct (Z.leb_spec f head); [lia|].
    by rewrite andb_false_r.
  - destruct (find_sum sums 0 i _) as [j|] eqn:Ej.
    + apply find_sum_Some in Ej as [Hr Hj]. apply Huniq in Hj as ->.
      assert (i <= length forks)%nat by apply passed_le.
      destruct (lookup_lt_is_Some_2 forks k) as [f Hf]; [lia|].
      rewrite Hf in Hn. simpl in Hn. subst n. rewrite bool_decide_eq_true_2; [done|].
      by rewrite lookup_app_l by lia.
    + destruct (find_sum sums (S i) (length sums) _) as [j|] eqn:Ej2; [done|]. exfalso.
      assert (k <> i) by by intros ->.
      assert (k < length sums)%nat by (unfold sums; rewrite sums_from_length; lia).
      destruct (decide (k < i)%nat).
      * by apply (find_sum_None _ _ _ _ k Ej); [lia|].
      * by apply (find_sum_None _ _ _ _ k Ej2); [lia|].
Qed.

(** The filter only accepts identifiers whose checksum is one of the local
    chain's: the current one with no fork announced that the local head has
    already passed, an earlier one whose announced next fork is the one that
    followed locally, or a later one. *)
Theorem filter_accepts_only c genesis head id :
  head < MaxUint64 -> newFilter c genesis head id = None ->
  let sums := sums_from (ChecksumIEEE genesis) (gatherForks c) in
  let i := passed head (gatherForks c) in
  exists k, sums !! k = Some (id_Hash id)
    /\ ((k = i /\ (id_Next id <= 0 \/ head < id_Next id))
        \/ ((k < i)%nat /\ gatherForks c !! k = Some (id_Next id))
        \/ (i < k)%nat).
Proof.
  intros Hh Hf sums i. rewrite newFilter_judge in Hf by done. unfold judge in Hf. fold sums i in Hf.
  case_bool_decide as Hi.
  { exists i. split; [done|]. left. split; [done|].
    destruct (Z.ltb_spec 0 (id_Next id)), (Z.leb_spec (id_Next id) head); simpl in Hf; done || lia. }
  destruct (find_sum sums 0 i _) as [j|] eqn:Ej.
  - apply find_sum_Some in Ej as [Hr Hj]. exists j. split; [done|]. right. left. split; [lia|].
    case_bool_decide as Ha; [|done]. rewrite lookup_app_l in Ha; [done|].
    pose proof (passed_le head (gatherForks c)). unfold i in Hr. lia.
  - destruct (find_sum sums (S i) _ _) as [j|] eqn:Ej2; [|done].
    apply find_sum_Some in Ej2 as [Hr Hj]. exists j. split; [done|]. right. right. lia.
Qed.

(** ** The BNB Smart Chain (params.BSCChainConfig) *)
Definition BSCGenesisHash : list Z :=
  [13; 33; 132; 10; 191; 244; 107; 150; 200; 75; 42; 201; 225; 14; 79; 92; 218; 235; 86; 147; 203;
   102; 93; 182; 42; 47; 59; 2; 210; 213; 123; 91].
Definition BSCChainConfig : config :=
  [("ChainID", BigInt (Some 56)); ("HomesteadBlock", BigInt (Some 0)); ("DAOForkBlock", BigInt
   None); ("DAOForkSupport", OtherField); ("EIP150Block", BigInt (Some 0)); ("EIP150Hash",
   OtherField); ("EIP155Block", BigInt (Some 0)); ("EIP158Block", BigInt (Some 0));
   ("ByzantiumBlock", BigInt (Some 0)); ("ConstantinopleBlock", BigInt (Some 0));
   ("PetersburgBlock", BigInt (Some 0)); ("IstanbulBlock", BigInt (Some 0)); ("MuirGlacierBlock",
   BigInt (Some 0)); ("BerlinBlock", BigInt None); ("YoloV3Block", BigInt None); ("CatalystBlock",
   BigInt None); ("LondonBlock", BigInt None); ("ArrowGlacierBlock", BigInt None);
   ("MergeForkBlock", BigInt None); ("TerminalTotalDifficulty", BigInt None); ("RamanujanBlock",
   BigInt (Some 0)); ("NielsBlock", BigInt (Some 0)); ("MirrorSyncBlock", BigInt (Some 5184000));
   ("BrunoBlock", BigInt (Some 13082000)); ("EulerBlock", BigInt (Some 18907621)); ("GibbsBlock",
   BigInt (Some 23846001)); ("NanoBlock", BigInt (Some 21962149)); ("MoranBlock", BigInt (Some
   22107423)); ("Ethash", OtherField); ("Clique", OtherField); ("Parlia", OtherField)].

Lemma bsc_sums_NoDup : NoDup (sums_from (ChecksumIEEE BSCGenesisHash) (gatherForks BSCChainConfig)).
Proof. apply (bool_decide_eq_true_1 _). vm_compute. reflexivity. Qed.

Lemma same_chain_accepted_witness :
  newFilter BSCChainConfig BSCGenesisHash 21962149 (NewID BSCChainConfig BSCGenesisHash 5) = None.
Proof.
  exact (same_chain_accepted BSCChainConfig BSCGenesisHash 21962149 5 bsc_sums_NoDup eq_refl).
Defined.

Lemma filter_accepts_only_witness :
  exists k, sums_from (ChecksumIEEE BSCGenesisHash) (gatherForks BSCChainConfig) !! k
            = Some (id_Hash (NewID BSCChainConfig BSCGenesisHash 5)).
Proof.
  destruct (filter_accepts_only BSCChainConfig BSCGenesisHash 21962149
              (NewID BSCChainConfig BSCGenesisHash 5) eq_refl) as (k & Hk & _).
  - vm_compute. reflexivity.
  - exists k. exact Hk.
Defined.

(** The first identifier of the Ethereum main network, from the unit tests. *)
Lemma mainnet_first_id :
  checksumToBytes (ChecksumIEEE
    [212; 229; 103; 64; 248; 118; 174; 248; 192; 16; 184; 106; 64; 213; 245; 103; 69; 161; 24; 208;
     144; 106; 52; 230; 154; 236; 140; 13; 177; 203; 143; 163])
  = put_be 4 0xfc64ec04.
Proof. vm_compute. reflexivity. Qed.
End ForkID.
