(* ===== verification/Handshake.v ===== *)
(** * The eth handshake (eth/protocols/eth/handshake.go)

    Both sides send their status and read the other's; the two goroutines
    report on a channel, and a timer bounds each of the two exchanges.  Which
    report comes first, and whether the timer fires before one of them, is an
    input; a message carries the result of decoding it. *)

From stdpp Require Import base gmap sets list strings numbers.
From Stdlib Require Import ZArith Lia.
From S2P Require Import Prelude Externals KnownCache EthPeer ForkID.

Module Handshake.
Import EthPeer ForkID.

Definition ETH66 : Z := 66.
Definition ETH67 : Z := 67.
Definition StatusMsg : Z := 0x00.
Definition UpgradeStatusMsg : Z := 0x0b.
Definition maxMessageSize : Z := 10 * 1024 * 1024.

Inductive hsErr : Type :=
  | errReadMsg                          (* the transport's error *)
  | errSend
  | errNoStatusMsg
  | errMsgTooLarge
  | errDecode
  | errNetworkIDMismatch
  | errProtocolVersionMismatch
  | errGenesisMismatch
  | errForkIDRejected (e : filterErr)
  | DiscReadTimeout
  | DiscRequested
  | errExtension
  | errTDTooLarge.

Record StatusPacket : Type := mk_StatusPacket {
  ProtocolVersion : Z;
  NetworkID : Z;
  TD : Z;
  sp_Head : Hash;
  Genesis : list Z;                     (* the 32 bytes *)
  ForkID_ : ID;
}.
(** An incoming message and what decoding it gives. *)
Record inMsg (A : Type) : Type := mk_inMsg { msg_Code : Z; msg_Size : Z; decoded : option A }.
Arguments mk_inMsg {A}.
Arguments msg_Code {A}.
Arguments msg_Size {A}.
Arguments decoded {A}.

(** [inl] an error, [inr] the packet. *)
Definition readStatus (version network : Z) (genesis : list Z) (forkFilter : ID -> option filterErr)
    (msg : option (inMsg StatusPacket)) : hsErr + StatusPacket :=
  match msg with
  | None => inl errReadMsg
  | Some msg =>
      if negb (msg_Code msg =? StatusMsg) then inl errNoStatusMsg
      else if maxMessageSize <? msg_Size msg then inl errMsgTooLarge
      else match decoded msg with
           | None => inl errDecode
           | Some status =>
               if negb (NetworkID status =? network) then inl errNetworkIDMismatch
               else if negb (ProtocolVersion status =? version) then inl errProtocolVersionMismatch
               else if negb (bool_decide (Genesis status = genesis)) then inl errGenesisMismatch
               else match forkFilter (ForkID_ status) with
                    | Some e => inl (errForkIDRejected e)
                    | None => inr status
                    end
           end
  end.
(** The extension of the packet: absent, or present and decoded or not. *)
Definition UpgradeStatusPacket : Type := option (option bool).
Definition readUpgradeStatus (msg : option (inMsg UpgradeStatusPacket)) : hsErr + UpgradeStatusPacket :=
  match msg with
  | None => inl errReadMsg
  | Some msg =>
      if negb (msg_Code msg =? UpgradeStatusMsg) then inl errNoStatusMsg
      else if maxMessageSize <? msg_Size msg then inl errMsgTooLarge
      else match decoded msg with
           | None => inl errDecode
           | Some p => inr p
           end
  end.
(** DisablePeerTxBroadcast; [None] is a decoding error. *)
Definition GetExtension (p : UpgradeStatusPacket) : option bool :=
  match p with
  | None => Some false
  | Some ext => ext
  end.

(** The two iterations of the waiting loop. *)
Inductive arrival : Type := fromSend | fromRead | fromTimer.
Definition report {A} (sendErr : option hsErr) (res : hsErr + A) (a : arrival) : option hsErr :=
  match a with
  | fromSend => sendErr
  | fromRead => match res with inl e => Some e | inr _ => None end
  | fromTimer => Some DiscReadTimeout
  end.
Definition await {A} (sendErr : option hsErr) (res : hsErr + A) (a1 a2 : arrival) : option hsErr :=
  match report sendErr res a1 with
  | Some e => Some e
  | None => report sendErr res a2
  end.
(** Both goroutines report, once each: [order] says which is first, [timer]
    after how many reports the timer fires, if it does. *)
Definition arrivals (sendFirst : bool) (timer : option bool) : arrival * arrival :=
  let '(x, y) := if sendFirst then (fromSend, fromRead) else (fromRead, fromSend) in
  match timer with
  | None => (x, y)
  | Some false => (fromTimer, x)
  | Some true => (x, fromTimer)
  end.

Definition BitLen (z : Z) : Z := if z =? 0 then 0 else Z.log2 (Z.abs z) + 1.

(** One exchange of messages. *)
Record exchange (A : Type) : Type := mk_exchange {
  x_sendErr : option hsErr;
  x_msg : option (inMsg A);
  x_sendFirst : bool;
  x_timer : option bool;
}.
Arguments mk_exchange {A}.
Arguments x_sendErr {A}.
Arguments x_msg {A}.
Arguments x_sendFirst {A}.
Arguments x_timer {A}.
Definition perform {A B} (x : exchange A) (read : option (inMsg A) -> hsErr + B) : hsErr + B :=
  let res := read (x_msg x) in
  let '(a1, a2) := arrivals (x_sendFirst x) (x_timer x) in
  match await (x_sendErr x) res a1 a2 with
  | Some e => inl e
  | None => res
  end.

Section Handshake.
Context {S : Type} `{MapSet Hash S} {M : Type -> Type} `{CMap M}.

(** The error, the peer and its [statusExtension]. *)
Definition Handshake (version network : Z) (genesis : list Z) (forkFilter : ID -> option filterErr)
    (x1 : exchange StatusPacket) (x2 : exchange UpgradeStatusPacket) (p : Peer S M)
    : option hsErr * Peer S M * option bool :=
  match perform x1 (readStatus version network genesis forkFilter) with
  | inl e => (Some e, p, None)
  | inr status =>
      let p := SetHead (sp_Head status) (TD status) p in
      if TD status <? 10000 then (Some DiscRequested, p, None)
      else
        let finish p ext := ((if 100 <? BitLen (td p) then Some errTDTooLarge else None), p, ext) in
        if ETH67 <=? version then
          match perform x2 readUpgradeStatus with
          | inl e => (Some e, p, None)
          | inr us =>
              match GetExtension us with
              | None => (Some errExtension, p, None)
              | Some disable => finish (if disable then CloseTxBroadcast p else p) (Some disable)
              end
          end
        else finish p None
  end.

(** ** Properties *)
Lemma perform_ok {A B} (x : exchange A) (read : option (inMsg A) -> hsErr + B) r :
  perform x read = inr r <-> read (x_msg x) = inr r /\ x_sendErr x = None /\ x_timer x = None.
Proof.
  unfold perform, arrivals, await. destruct (x_sendFirst x), (x_timer x) as [[]|], (x_sendErr x),
    (read (x_msg x)); simpl; naive_solver.
Qed.
Lemma BitLen_100 z : 0 <= z -> (100 <? BitLen z) = false <-> z < 2 ^ 100.
Proof.
  intros Hz. rewrite Z.ltb_ge. unfold BitLen. destruct (Z.eqb_spec z 0) as [->|].
  - split; intros _; [reflexivity|discriminate].
  - rewrite Z.abs_eq by lia. rewrite (Z.log2_lt_pow2 z 100) by lia. lia.
Qed.

(** What a successful exchange of the status requires. *)
Definition status_matches (version network : Z) (genesis : list Z) (forkFilter : ID -> option filterErr)
    (x : exchange StatusPacket) (status : StatusPacket) : Prop :=
  x_sendErr x = None /\ x_timer x = None
  /\ (exists size, x_msg x = Some (mk_inMsg StatusMsg size (Some status)) /\ size <= maxMessageSize)
  /\ NetworkID status = network /\ ProtocolVersion status = version /\ Genesis status = genesis
  /\ forkFilter (ForkID_ status) = None.

Lemma readStatus_ok version network genesis forkFilter msg status :
  readStatus version network genesis forkFilter msg = inr status <->
  (exists size, msg = Some (mk_inMsg StatusMsg size (Some status)) /\ size <= maxMessageSize)
  /\ NetworkID status = network /\ ProtocolVersion status = version /\ Genesis status = genesis
  /\ forkFilter (ForkID_ status) = None.
Proof.
  unfold readStatus. destruct msg as [[code size dec]|]; simpl; [|naive_solver].
  destruct (Z.eqb_spec code StatusMsg) as [->|]; simpl; [|naive_solver].
  destruct (Z.ltb_spec maxMessageSize size); simpl; [naive_solver lia|].
  destruct dec as [st|]; simpl; [|naive_solver].
  destruct (Z.eqb_spec (NetworkID st) network); simpl; [|naive_solver].
  destruct (Z.eqb_spec (ProtocolVersion st) version); simpl; [|naive_solver].
  case_bool_decide; simpl; [|naive_solver].
  destruct (forkFilter (ForkID_ st)) eqn:E; naive_solver.
Qed.

Lemma readUpgradeStatus_ok msg us :
  readUpgradeStatus msg = inr us <->
  exists size, msg = Some (mk_inMsg UpgradeStatusMsg size (Some us)) /\ size <= maxMessageSize.
Proof.
  unfold readUpgradeStatus. destruct msg as [[code size dec]|]; simpl; [|naive_solver].
  destruct (Z.eqb_spec code UpgradeStatusMsg) as [->|]; simpl; [|naive_solver].
  destruct (Z.ltb_spec maxMessageSize size); simpl; [naive_solver lia|].
  destruct dec as [st|]; simpl; naive_solver.
Qed.

(** The upgrade status a version 67 peer must deliver. *)
Definition upgrade_done (x : exchange UpgradeStatusPacket) (disable : bool) : Prop :=
  x_sendErr x = None /\ x_timer x = None
  /\ exists size us, x_msg x = Some (mk_inMsg UpgradeStatusMsg size (Some us))
     /\ size <= maxMessageSize /\ GetExtension us = Some disable.

Lemma status_exchange_ok version network genesis forkFilter x status :
  perform x (readStatus version network genesis forkFilter) = inr status
  <-> status_matches version network genesis forkFilter x status.
Proof. rewrite perform_ok, readStatus_ok. unfold status_matches. naive_solver. Qed.
Lemma upgrade_exchange_ok x disable :
  (exists us, perform x readUpgradeStatus = inr us /\ GetExtension us = Some disable)
  <-> upgrade_done x disable.
Proof.
  unfold upgrade_done. setoid_rewrite perform_ok. setoid_rewrite readUpgradeStatus_ok. naive_solver.
Qed.

(** C23.  The handshake succeeds exactly when both sends succeed, no timer fires
    and the remote's status names the same network, version and genesis block
    and an acceptable fork, with a total difficulty from 10000 to [2^100 - 1];
    a version 67 peer must also deliver its upgrade status.  Then the peer's
    head is the announced one, and its transaction broadcast is closed exactly
    when the extension asks for it. *)
Theorem handshake_ok version network genesis forkFilter x1 x2 p q ext :
  (forall status, x_msg x1 = Some status -> forall st, decoded status = Some st -> 0 <= TD st) ->
  Handshake version network genesis forkFilter x1 x2 p = (None, q, ext) <->
  exists status, status_matches version network genesis forkFilter x1 status
    /\ 10000 <= TD status < 2 ^ 100
    /\ let p1 := SetHead (sp_Head status) (TD status) p in
       if ETH67 <=? version then
         exists disable, upgrade_done x2 disable /\ ext = Some disable
           /\ q = if disable then CloseTxBroadcast p1 else p1
       else ext = None /\ q = p1.
Proof.
  intros Hpos. unfold Handshake.
  destruct (perform x1 _) as [e|status] eqn:E1.
  { split; [done|]. intros (status & Hs%status_exchange_ok & _). congruence. }
  assert (Hm := E1). apply status_exchange_ok in Hm.
  assert (Hex : forall P : StatusPacket -> Prop,
    (exists st, status_matches version network genesis forkFilter x1 st /\ P st) <-> P status).
  { intros P. split; [|by eauto]. intros (st & Hst%status_exchange_ok & HP). congruence. }
  rewrite Hex. clear Hex.
  assert (Hnn : 0 <= TD status).
  { destruct Hm as (_ & _ & (size & Hmsg & _) & _). exact (Hpos _ Hmsg status eq_refl). }
  pose proof (BitLen_100 (TD status) Hnn) as Hb.
  destruct (Z.ltb_spec (TD status) 10000); [split; [done|lia]|].
  destruct (ETH67 <=? version).
  - destruct (perform x2 _) as [e|us] eqn:E2.
    { split; [done|]. intros (_ & d & (us & Hu & _)%upgrade_exchange_ok & _). congruence. }
    assert (Hup : forall d, GetExtension us = Some d <-> upgrade_done x2 d).
    { intros d. rewrite <- upgrade_exchange_ok. split; [by eauto|]. intros (us' & Hu & ?). congruence. }
    destruct (GetExtension us) as [d|].
    + assert (Hd : forall d', upgrade_done x2 d' <-> d' = d) by (intros d'; rewrite <- Hup; naive_solver).
      setoid_rewrite Hd.
      replace (td (if d then _ else _)) with (TD status)
        by (destruct d; [unfold CloseTxBroadcast; simpl; by destruct (txTerm p)|done]).
      destruct (100 <? BitLen (TD status)); naive_solver lia.
    + split; [done|]. intros (_ & d & Hd%Hup & _). done.
  - simpl. destruct (100 <? BitLen (TD status)); naive_solver lia.
Qed.
End Handshake.

Definition ex_status : StatusPacket :=
  mk_StatusPacket 67 56 20000 7 BSCGenesisHash (NewID BSCChainConfig BSCGenesisHash 5).
Definition ex_x1 : exchange StatusPacket :=
  mk_exchange None (Some (mk_inMsg StatusMsg 100 (Some ex_status))) true None.
Definition ex_x2 : exchange UpgradeStatusPacket :=
  mk_exchange None (Some (mk_inMsg UpgradeStatusMsg 10 (Some (Some (Some true))))) false None.
Definition ex_peer : Peer (gset Hash) (gmap string) := NewPeer.

Lemma handshake_ok_witness :
  exists q, Handshake 67 56 BSCGenesisHash (newFilter BSCChainConfig BSCGenesisHash 23846001) ex_x1 ex_x2 ex_peer
            = (None, q, Some true) /\ txTerm q = true.
Proof.
  exists (CloseTxBroadcast (SetHead 7 20000 ex_peer)). split; [|reflexivity].
  apply handshake_ok.
  - intros st [= <-] st' [= <-]. discriminate.
  - exists ex_status. split; [|split; [done|]].
    + unfold status_matches. split_and!; [done|done|exists 100; done|done|done|done|].
      vm_compute. reflexivity.
    + exists true. split_and!; [|done|done]. unfold upgrade_done. split_and!; [done|done|].
      exists 10, (Some (Some true)). done.
Defined.
End Handshake.
