(* ===== verification/EthHandle.v ===== *)
(** * Incoming eth messages (eth/protocols/eth/handler.go, handlers.go)

    The dispatch of a message to its handler, and the handlers that change the
    peer or call the backend.  What a handler does outside the peer (replies,
    requests, calls of the backend and of the transaction pool) is an action;
    the replies themselves are those of EthServe.v and the delivery of
    responses that of Dispatcher.v.  A message carries the packet its payload
    decodes to. *)

From stdpp Require Import base gmap sets list strings numbers.
From Stdlib Require Import ZArith Lia.
From S2P Require Import Prelude Externals KnownCache EthPeer ForkID Handshake EthServe.

Module EthHandle.
Import EthPeer Handshake EthServe.

Definition NewBlockHashesMsg : Z := 0x01.
Definition TransactionsMsg : Z := 0x02.
Definition GetBlockHeadersMsg : Z := 0x03.
Definition BlockHeadersMsg : Z := 0x04.
Definition GetBlockBodiesMsg : Z := 0x05.
Definition BlockBodiesMsg : Z := 0x06.
Definition NewBlockMsg : Z := 0x07.
Definition NewPooledTransactionHashesMsg : Z := 0x08.
Definition GetPooledTransactionsMsg : Z := 0x09.
Definition PooledTransactionsMsg : Z := 0x0a.
Definition GetNodeDataMsg : Z := 0x0d.
Definition NodeDataMsg : Z := 0x0e.
Definition GetReceiptsMsg : Z := 0x0f.
Definition ReceiptsMsg : Z := 0x10.

Inductive hErr : Type :=
  | errRead
  | errTooLarge
  | errInvalidMsgCode
  | errDecoding                    (* errDecode *)
  | errNilTransaction (i : Z)      (* errDecode: transaction i is nil *)
  | errSanity
  | errAction (msg : string).

(** A propagated block with what its checks look at; whether the uncle and
    transaction hashes match is the result of hashing the body. *)
Record NewBlock : Type := mk_NewBlock {
  nb_Block : Block;
  nb_TD : Z;
  nb_Difficulty : option Z;
  nb_ExtraLen : Z;
  nb_BaseFee : option Z;
  nb_UnclesOK : bool;
  nb_TxsOK : bool;
}.

Inductive payload : Type :=
  | pNewBlockHashes (anns : list (Hash * Z))
  | pNewBlock (b : NewBlock)
  | pTransactions (txs : list (option Transaction))
  | pNewPooledTransactionHashes (hashes : list Hash)
  | pGetBlockHeaders (id : Z) (q : GetBlockHeadersPacket)
  | pBlockHeaders (id : Z) (headers : list Header)
  | pGetBlockBodies (id : Z) (hashes : list Hash)
  | pBlockBodies (id : Z) (bodies : list BlockBody)
  | pGetNodeData (id : Z) (hashes : list Hash)
  | pNodeData (id : Z)
  | pGetReceipts (id : Z) (hashes : list Hash)
  | pReceipts (id : Z)
  | pGetPooledTransactions (id : Z) (hashes : list Hash)
  | pPooledTransactions (id : Z) (txs : list (option Transaction)).

Inductive action : Type :=
  | aBackendHandle (anns : list (Hash * Z))       (* backend.Handle *)
  | aAddRemotes (txs : list Transaction)          (* backend.TxPool().AddRemotes *)
  | aRequestTxs (hashes : list Hash)              (* peer.RequestTxs *)
  | aReply (code id : Z) (hashes : list Hash) (q : option GetBlockHeadersPacket)
  | aDispatch (code id : Z).                      (* peer.dispatchResponse *)

Section Handle.
Context {S : Type} `{MapSet Hash S} {M : Type -> Type} `{CMap M}.
(** The chain's HasBlock, and the store requests are served from. *)
Context (hasBlock : Hash -> Z -> bool).
Context {Bytes : Type} (blen : Bytes -> Z) (store : Store (Bytes := Bytes)).
(** The error an action returns: of the transport, the backend or the
    dispatcher. *)
Context (actErr : action -> option hErr).
Abbreviation P := (Peer S M).

Definition act (a : action) (p : P) : option hErr * P * list action := (actErr a, p, [a]).

(** The pool's Has, and Get <> nil. *)
Definition poolHas (h : Hash) : bool := bool_decide (is_Some (PoolGet store h)).

Definition sanityCheck (b : NewBlock) : bool :=
  (0 <=? hdr_Number (blk_Header (nb_Block b))) && (hdr_Number (blk_Header (nb_Block b)) <? 2 ^ 64)
  && match nb_Difficulty b with Some d => BitLen d <=? 80 | None => true end
  && (nb_ExtraLen b <=? 100 * 1024)
  && match nb_BaseFee b with Some f => BitLen f <=? 256 | None => true end
  && (BitLen (nb_TD b) <=? 100).

Definition handleNewBlockhashes (anns : list (Hash * Z)) (p : P) : option hErr * P * list action :=
  act (aBackendHandle anns) (foldl (fun p a => markBlock a.1 p) p anns).

Definition handleNewBlock (b : NewBlock) (p : P) : option hErr * P * list action :=
  if negb (sanityCheck b) then (Some errSanity, p, [])
  else if negb (nb_UnclesOK b) then (None, p, [])
  else if negb (nb_TxsOK b) then (None, p, [])
  else
    let block := nb_Block b in
    let p := markBlock (blk_Hash block) p in
    let p := if fnBlock p then set_gotBlocks (gotBlocks p ++ [(block, 1)]) p else p in
    (None, set_counters (NumberU64 block) (u64 (TotalRecvBlock p + 1)) p, []).

(** The loop over received transactions; [i] is the index, [acc] what goes to
    the pool. *)
Fixpoint deliver_txs (flag i : Z) (txs : list (option Transaction)) (acc : list Transaction) (p : P)
    : option hErr * P * list action :=
  match txs with
  | [] => (None, p, [aAddRemotes acc])
  | None :: _ => (Some (errNilTransaction i), p, [])
  | Some tx :: txs =>
      let p := markTransaction (tx_Hash tx) p in
      let p := if (negb (poolHas (tx_Hash tx)) && fnTx p)%bool
               then set_gotTxs (u64 (TotalRecvTx p + 1)) (gotTxs p ++ [(tx, flag)]) p else p in
      deliver_txs flag (i + 1) txs (acc ++ [tx]) p
  end.
Definition handleTransactions (txs : list (option Transaction)) (p : P) : option hErr * P * list action :=
  deliver_txs 1 0 txs [] p.
Definition handlePooledTransactions66 (txs : list (option Transaction)) (p : P) : option hErr * P * list action :=
  deliver_txs 0 0 txs [] p.

Definition handleBlockHeaders66 (id : Z) (headers : list Header) (p : P) : option hErr * P * list action :=
  if cm_has (idString id) (receiveBlocks p)
  then (None, ProcessBlockHeader hasBlock id headers p, [])
  else act (aDispatch BlockHeadersMsg id) p.
Definition handleBlockBodies66 (id : Z) (bodies : list BlockBody) (p : P) : option hErr * P * list action :=
  if cm_has (idString id) (receiveBlocks p)
  then (None, ProcessBlockBody hasBlock id bodies p, [])
  else act (aDispatch BlockBodiesMsg id) p.

Definition handleGetPooledTransactions66 (id : Z) (query : list Hash) (p : P) : option hErr * P * list action :=
  let '(hashes, _) := answerGetPooledTransactions blen store query in
  act (aReply PooledTransactionsMsg id hashes None) (ReplyPooledTransactionsRLP id hashes p).2.

(** The announcement of pooled transactions is handled inline. *)
Definition announced (hashes : list Hash) (p : P) : option hErr * P * list action :=
  let unknown := filter (fun h => poolHas h = false) hashes in
  let p := foldl (fun p h => if poolHas h then p else markTransaction h p) p hashes in
  if 0 <? len unknown then act (aRequestTxs unknown) p else (None, p, []).

(** The handler of a packet; a handler whose packet type does not match the
    payload fails to decode it. *)
Definition handler (code : Z) (pk : payload) (p : P) : option (option hErr * P * list action) :=
  let bad := Some (Some errDecoding, p, []) in
  if code =? NewBlockHashesMsg then
    match pk with pNewBlockHashes anns => Some (handleNewBlockhashes anns p) | _ => bad end
  else if code =? NewBlockMsg then
    match pk with pNewBlock b => Some (handleNewBlock b p) | _ => bad end
  else if code =? TransactionsMsg then
    match pk with pTransactions txs => Some (handleTransactions txs p) | _ => bad end
  else if code =? NewPooledTransactionHashesMsg then
    match pk with pNewPooledTransactionHashes hs => Some (announced hs p) | _ => bad end
  else if code =? GetBlockHeadersMsg then
    match pk with pGetBlockHeaders id q => Some (act (aReply BlockHeadersMsg id [] (Some q)) p) | _ => bad end
  else if code =? BlockHeadersMsg then
    match pk with pBlockHeaders id hs => Some (handleBlockHeaders66 id hs p) | _ => bad end
  else if code =? GetBlockBodiesMsg then
    match pk with pGetBlockBodies id hs => Some (act (aReply BlockBodiesMsg id hs None) p) | _ => bad end
  else if code =? BlockBodiesMsg then
    match pk with pBlockBodies id bs => Some (handleBlockBodies66 id bs p) | _ => bad end
  else if code =? GetNodeDataMsg then
    match pk with pGetNodeData id hs => Some (act (aReply NodeDataMsg id hs None) p) | _ => bad end
  else if code =? NodeDataMsg then
    match pk with pNodeData id => Some (act (aDispatch NodeDataMsg id) p) | _ => bad end
  else if code =? GetReceiptsMsg then
    match pk with pGetReceipts id hs => Some (act (aReply ReceiptsMsg id hs None) p) | _ => bad end
  else if code =? ReceiptsMsg then
    match pk with pReceipts id => Some (act (aDispatch ReceiptsMsg id) p) | _ => bad end
  else if code =? GetPooledTransactionsMsg then
    match pk with
    | pGetPooledTransactions id hs => Some (handleGetPooledTransactions66 id hs p)
    | _ => bad
    end
  else if code =? PooledTransactionsMsg then
    match pk with pPooledTransactions _ txs => Some (handlePooledTransactions66 txs p) | _ => bad end
  else None.

(** The codes with a handler. *)
Definition eth66 : list Z :=
  [NewBlockHashesMsg; NewBlockMsg; TransactionsMsg; NewPooledTransactionHashesMsg;
   GetBlockHeadersMsg; BlockHeadersMsg; GetBlockBodiesMsg; BlockBodiesMsg; GetNodeDataMsg;
   NodeDataMsg; GetReceiptsMsg; ReceiptsMsg; GetPooledTransactionsMsg; PooledTransactionsMsg].

(** [None] is a read error of the transport. *)
Definition handleMessage (msg : option (inMsg payload)) (p : P) : option hErr * P * list action :=
  match msg with
  | None => (Some errRead, p, [])
  | Some msg =>
      if maxMessageSize <? msg_Size msg then (Some errTooLarge, p, [])
      else if bool_decide (msg_Code msg ∈ eth66) then
        match decoded msg with
        | None => (Some errDecoding, p, [])
        | Some pk => default (Some errInvalidMsgCode, p, []) (handler (msg_Code msg) pk p)
        end
      else (Some errInvalidMsgCode, p, [])
  end.

(** Messages are handled until one fails; the rest is not read. *)
Fixpoint Handle (msgs : list (option (inMsg payload))) (p : P) : option hErr * P * list action :=
  match msgs with
  | [] => (None, p, [])
  | m :: msgs =>
      match handleMessage m p with
      | (Some e, p, acts) => (Some e, p, acts)
      | (None, p, acts) => let '(e, p, acts') := Handle msgs p in (e, p, acts ++ acts')
      end
  end.

(** ** Properties *)
Context `{!MapSetLaws Hash S}.

(** The transactions before the first nil one. *)
Fixpoint before_nil (txs : list (option Transaction)) : list Transaction :=
  match txs with
  | Some tx :: txs => tx :: before_nil txs
  | _ => []
  end.
Definition no_nil (txs : list (option Transaction)) : bool := (length (before_nil txs) =? length txs)%nat.

Lemma no_nil_cons tx txs : no_nil (Some tx :: txs) = no_nil txs.
Proof. done. Qed.

Lemma deliver_txs_spec flag i txs acc (p : P) :
  is_u64 (TotalRecvTx p) ->
  let pre := before_nil txs in
  let fresh := filter (fun tx => poolHas (tx_Hash tx) = false) pre in
  exists q, deliver_txs flag i txs acc p =
      (if no_nil txs then None else Some (errNilTransaction (i + len pre)), q,
       if no_nil txs then [aAddRemotes (acc ++ pre)] else [])
    /\ gotTxs q = gotTxs p ++ (if fnTx p then (fun tx => (tx, flag)) <$> fresh else [])
    /\ TotalRecvTx q = u64 (TotalRecvTx p + (if fnTx p then len fresh else 0))
    /\ gotBlocks q = gotBlocks p /\ receiveBlocks q = receiveBlocks p
    /\ (Cardinality (knownTxs p) + len pre <= kmax (knownTxs p) ->
        forall h, (Contains (knownTxs p) h = true \/ h ∈ tx_Hash <$> pre) -> Contains (knownTxs q) h = true).
Proof.
  revert i acc p. induction txs as [|[tx|] txs IH]; intros i acc p Hu;
    cbn [deliver_txs before_nil]; cbv zeta.
  - exists p. rewrite !app_nil_r. split_and!; [done| | |done|done|].
    + by destruct (fnTx p); rewrite app_nil_r.
    + destruct (fnTx p); rewrite Z.add_0_r, u64_small; done.
    + intros _ h [?|[]%not_elem_of_nil]. done.
  - rewrite no_nil_cons.
    set (p1 := markTransaction (tx_Hash tx) p).
    set (p2 := if (negb (poolHas (tx_Hash tx)) && fnTx p1)%bool
               then set_gotTxs (u64 (TotalRecvTx p1 + 1)) (gotTxs p1 ++ [(tx, flag)]) p1 else p1).
    assert (Hp2 : is_u64 (TotalRecvTx p2) /\ fnTx p2 = fnTx p /\ knownTxs p2 = Add (knownTxs p) [tx_Hash tx]
      /\ gotBlocks p2 = gotBlocks p /\ receiveBlocks p2 = receiveBlocks p).
    { unfold p2. destruct (_ && _)%bool; simpl; split_and!; try done. apply u64_range. }
    destruct Hp2 as (Hu2 & Hf2 & Hk2 & Hb2 & Hr2).
    destruct (IH (i + 1) (acc ++ [tx]) p2 Hu2) as (q & Hq & Hg & Ht & Hb & Hr & Hk).
    exists q. rewrite Hq, len_cons, <- app_assoc. rewrite Hf2 in Hg, Ht. rewrite Hk2 in Hk.
    rewrite Hb2 in Hb. rewrite Hr2 in Hr. clear Hq. split_and!.
    + replace (i + 1 + len (before_nil txs)) with (i + (1 + len (before_nil txs))) by lia. done.
    + rewrite Hg, filter_cons. unfold p2. change (fnTx p1) with (fnTx p).
      destruct (poolHas (tx_Hash tx)), (fnTx p); simpl; rewrite <- ?app_assoc; done.
    + rewrite Ht, filter_cons. unfold p2. change (fnTx p1) with (fnTx p).
      destruct (poolHas (tx_Hash tx)), (fnTx p); simpl; try done.
      rewrite len_cons. unfold u64. rewrite Zplus_mod_idemp_l. f_equal. lia.
    + done.
    + done.
    + intros Hroom h Hh. pose proof (len_nonneg (before_nil txs)). apply Hk.
      * change (kmax (Add (knownTxs p) [tx_Hash tx])) with (kmax (knownTxs p)).
        pose proof (Add_card_grow (knownTxs p) [tx_Hash tx]) as Hgrow.
        rewrite len_cons, len_nil in Hgrow. lia.
      * destruct Hh as [Hh|Hh].
        -- left. apply Add_room; [|done]. rewrite len_cons, len_nil. lia.
        -- apply elem_of_cons in Hh as [->|Hh]; [left|by right]. apply Add_Contains_new. by left.
  - exists p. unfold no_nil. simpl. rewrite !Z.add_0_r. split_and!; [done| | |done|done|].
    + by destruct (fnTx p); rewrite app_nil_r.
    + destruct (fnTx p); rewrite ?Z.add_0_r, u64_small; done.
    + intros _ h [?|[]%not_elem_of_nil]. done.
Qed.

(** A message with transactions: broadcast, or the answer to a request. *)
Definition txMsg (pooled : bool) (id size : Z) (txs : list (option Transaction)) : inMsg payload :=
  if pooled then mk_inMsg PooledTransactionsMsg size (Some (pPooledTransactions id txs))
  else mk_inMsg TransactionsMsg size (Some (pTransactions txs)).

(** Received transactions: those before the first nil one are marked as
    known to the peer (room in the cache given), and exactly the ones the pool
    does not have are handed to the node manager, in order, with the flag of
    the message type; when no transaction is nil all of them go to the pool
    and the handler succeeds, otherwise it fails with the position of the nil
    one and the pool gets nothing. *)
Theorem transactions_delivered (pooled : bool) id size txs (p : P) :
  is_u64 (TotalRecvTx p) -> size <= maxMessageSize ->
  let pre := before_nil txs in
  let fresh := filter (fun tx => poolHas (tx_Hash tx) = false) pre in
  let flag := if pooled then 0 else 1 in
  exists q, handleMessage (Some (txMsg pooled id size txs)) p =
      (if no_nil txs then None else Some (errNilTransaction (len pre)), q,
       if no_nil txs then [aAddRemotes pre] else [])
    /\ gotTxs q = gotTxs p ++ (if fnTx p then (fun tx => (tx, flag)) <$> fresh else [])
    /\ TotalRecvTx q = u64 (TotalRecvTx p + (if fnTx p then len fresh else 0))
    /\ (Cardinality (knownTxs p) + len pre <= kmax (knownTxs p) ->
        forall tx, tx ∈ pre -> KnownTransaction q (tx_Hash tx) = true).
Proof.
  intros Hu Hs pre fresh flag.
  destruct (deliver_txs_spec flag 0 txs [] p Hu) as (q & Hq & Hg & Ht & _ & _ & Hk).
  exists q. split; [|split_and!; [done|done|]].
  - unfold handleMessage, txMsg, flag in *. apply Z.ltb_ge in Hs.
    destruct pooled; cbn [msg_Size msg_Code decoded]; rewrite Hs;
      (rewrite bool_decide_eq_true_2 by (unfold eth66; set_solver)); exact Hq.
  - intros Hroom tx Htx. apply Hk; [done|]. right. by apply list_elem_of_fmap_2.
Qed.

Lemma mark_fold_known hashes (p : P) :
  Cardinality (knownTxs p) + len hashes <= kmax (knownTxs p) ->
  let q := foldl (fun p h => if poolHas h then p else markTransaction h p) p hashes in
  forall h, (Contains (knownTxs p) h = true \/ h ∈ hashes /\ poolHas h = false) ->
    Contains (knownTxs q) h = true.
Proof.
  revert p. induction hashes as [|h0 hashes IH]; intros p Hroom q h Hh; unfold q; simpl.
  { destruct Hh as [?|[[]%not_elem_of_nil _]]. done. }
  rewrite len_cons in Hroom. pose proof (len_nonneg hashes). destruct (poolHas h0) eqn:E.
  - apply IH; [lia|]. destruct Hh as [?|[[->|?]%elem_of_cons ?]]; [by left|congruence|by right].
  - pose proof (Add_card_grow (knownTxs p) [h0]) as Hgrow. rewrite len_cons, len_nil in Hgrow. apply IH.
    + simpl. lia.
    + simpl. destruct Hh as [?|[[->|?]%elem_of_cons ?]]; [left|left|by right].
      * apply Add_room; [|done]. rewrite len_cons, len_nil. lia.
      * apply Add_Contains_new. by left.
Qed.

(** An announcement of pooled transactions is answered with one request for
    exactly the hashes the pool does not have, in their order, whose error is
    the handler's, and with none when it has them all; the hashes requested
    are then known to the peer. *)
Theorem announcement_requested size hashes (p : P) :
  size <= maxMessageSize ->
  let unknown := filter (fun h => poolHas h = false) hashes in
  exists q, handleMessage
      (Some (mk_inMsg NewPooledTransactionHashesMsg size (Some (pNewPooledTransactionHashes hashes)))) p
    = (if decide (unknown = []) then (None, q, []) else (actErr (aRequestTxs unknown), q, [aRequestTxs unknown]))
    /\ (Cardinality (knownTxs p) + len hashes <= kmax (knownTxs p) ->
        forall h, h ∈ unknown -> KnownTransaction q h = true).
Proof.
  intros Hs unknown.
  exists (foldl (fun p h => if poolHas h then p else markTransaction h p) p hashes). split.
  - unfold handleMessage. apply Z.ltb_ge in Hs. cbn [msg_Size msg_Code decoded]. rewrite Hs.
    rewrite bool_decide_eq_true_2 by (unfold eth66; set_solver).
    unfold handler, announced. simpl. fold unknown. destruct (decide (unknown = [])) as [->|Hne]; [done|].
    destruct (Z.ltb_spec 0 (len unknown)); [done|]. destruct unknown; [done|].
    rewrite len_cons in *. pose proof (len_nonneg unknown). lia.
  - intros Hroom h [Hp Hin]%list_elem_of_filter. apply mark_fold_known; [done|by right].
Qed.
End Handle.

Definition ex_store : Store (Bytes := Z) :=
  mk_Store (fun _ => 0) (fun _ => None) (fun _ => None) (fun _ => None) 0 (fun _ => false)
    (fun h => if h =? 5 then Some 100 else None).
Definition ex_p : Peer (gset Hash) (gmap string) :=
  mk_Peer 0 0 (newKnownCache 4) [] [] (newKnownCache 4) false false 0 0 0 ∅ true true [] [].

Lemma transactions_delivered_witness :
  exists q, handleMessage (fun _ _ => false) (fun b => b) ex_store (fun _ => None)
      (Some (txMsg false 0 100 [Some (mk_Transaction 5 10); Some (mk_Transaction 6 10)])) ex_p
    = (None, q, [aAddRemotes [mk_Transaction 5 10; mk_Transaction 6 10]])
    /\ gotTxs q = [(mk_Transaction 6 10, 1)].
Proof.
  destruct (transactions_delivered (fun _ _ => false) (fun b : Z => b) ex_store (fun _ => None) false 0 100
    [Some (mk_Transaction 5 10); Some (mk_Transaction 6 10)] ex_p) as (q & Hq & Hg & _); [done|done|].
  exists q. split; [exact Hq|exact Hg].
Defined.

Lemma announcement_requested_witness :
  exists q, handleMessage (fun _ _ => false) (fun b => b) ex_store (fun _ => None)
      (Some (mk_inMsg NewPooledTransactionHashesMsg 100 (Some (pNewPooledTransactionHashes [5; 6])))) ex_p
    = (None, q, [aRequestTxs [6]]).
Proof.
  destruct (announcement_requested (fun _ _ => false) (fun b : Z => b) ex_store (fun _ => None) 100 [5; 6] ex_p)
    as (q & Hq & _); [done|].
  exists q. exact Hq.
Defined.
End EthHandle.
