(* ===== verification/PeerSet.v ===== *)
(** * The set of eth peers (eth/peerset.go)

    The registered peers with their satellite protocols, and the rendezvous of
    an eth connection with the connections of its satellites.  The three kinds
    of satellites have the same code, each with its own maps; here one map
    keyed by kind and id. *)

From stdpp Require Import base gmap sets list strings numbers relations.
From Stdlib Require Import ZArith Lia.
From S2P Require Import Prelude Externals KnownCache EthPeer.

Module PeerSet.
Import EthPeer.

Inductive ext : Type := Snap | Diff | Trust.
#[export] Instance ext_eq_dec : EqDecision ext.
Proof. solve_decision. Defined.
#[export] Instance ext_countable : Countable ext.
Proof.
  refine (inj_countable' (fun e => match e with Snap => 0%nat | Diff => 1%nat | Trust => 2%nat end)
    (fun n => match n with 0%nat => Snap | 1%nat => Diff | _ => Trust end) _).
  by intros [].
Defined.

Inductive psErr : Type :=
  | errPeerSetClosed
  | errPeerAlreadyRegistered
  | errPeerWaitTimeout
  | errPeerNotRegistered
  | errWithoutEth (e : ext).

(** [x, ok := m[k]] used for [ok] only; a pointer compared with nil. *)
Definition present {A} (o : option A) : bool := match o with Some _ => true | None => false end.

Section PeerSet.
Context {S : Type} `{MapSet Hash S} {M : Type -> Type} `{CMap M}.

(** A registered peer; an extension is the identity of the satellite's peer. *)
Record EthPeer : Type := mk_EthPeer {
  ep_Peer : Peer S M;
  snapExt : option Z;
  diffExt : option Z;
  trustExt : option Z;
}.

Record peerSet : Type := mk_peerSet {
  peers : gmap string EthPeer;
  snapPeers : Z;
  extWait : gmap (ext * string) Z;      (* the channel of the waiting eth peer *)
  extPend : gmap (ext * string) Z;      (* the satellite's peer *)
  closed : bool;
}.
Definition newPeerSet : peerSet := mk_peerSet ∅ 0 ∅ ∅ false.

(** ** Registration *)
Definition registerPeer (id : string) (peer : Peer S M) (se de te : option Z) (ps : peerSet)
    : option psErr * peerSet :=
  if closed ps then (Some errPeerSetClosed, ps)
  else
    match peers ps !! id with
    | Some _ => (Some errPeerAlreadyRegistered, ps)
    | None =>
        (None, mk_peerSet (<[id := mk_EthPeer peer se de te]> (peers ps))
                 (if present se then snapPeers ps + 1 else snapPeers ps)
                 (extWait ps) (extPend ps) (closed ps))
    end.
Definition unregisterPeer (id : string) (ps : peerSet) : option psErr * peerSet :=
  match peers ps !! id with
  | None => (Some errPeerNotRegistered, ps)
  | Some peer =>
      (None, mk_peerSet (delete id (peers ps))
               (if present (snapExt peer) then snapPeers ps - 1 else snapPeers ps)
               (extWait ps) (extPend ps) (closed ps))
  end.
(** The peers disconnected, and the closed set. *)
Definition close (ps : peerSet) : list string * peerSet :=
  ((map_to_list (peers ps)).*1, mk_peerSet (peers ps) (snapPeers ps) (extWait ps) (extPend ps) true).

(** ** Queries; a list is in the map's order *)
Definition peer (id : string) (ps : peerSet) : option EthPeer := peers ps !! id.
Definition GetDiffPeer (id : string) (ps : peerSet) : option Z := peer id ps ≫= diffExt.
Definition GetVerifyPeers (ps : peerSet) : list Z := omap (fun e => trustExt e.2) (map_to_list (peers ps)).
Definition headPeers (num : Z) (ps : peerSet) : list EthPeer := (map_to_list (peers ps)).*2.
Definition peersWithoutBlock (hash : Hash) (ps : peerSet) : list EthPeer :=
  filter (fun p => KnownBlock (ep_Peer p) hash = false) (map_to_list (peers ps)).*2.
Definition peersWithoutTransaction (hash : Hash) (ps : peerSet) : list EthPeer :=
  filter (fun p => KnownTransaction (ep_Peer p) hash = false) (map_to_list (peers ps)).*2.
Definition AllPeers (ps : peerSet) : gmap string EthPeer :=
  map_fold (fun k v dst => <[k := v]> dst) ∅ (peers ps).
Definition ps_len (ps : peerSet) : Z := Z.of_nat (size (peers ps)).
Definition snapLen (ps : peerSet) : Z := snapPeers ps.

Definition best_step (best : option (Peer S M)) (p : EthPeer) : option (Peer S M) :=
  match best with
  | None => Some (ep_Peer p)
  | Some b => if td b <? td (ep_Peer p) then Some (ep_Peer p) else Some b
  end.
Definition peerWithHighestTD (ps : peerSet) : option (Peer S M) :=
  foldl best_step None (map_to_list (peers ps)).*2.

(** ** Satellites
    The critical section of a satellite's registration: an error, the peer
    kept for later, or the channel to send it on, still under the lock.
    [running] says that the connection also runs eth, [verify] that it is a
    verify node. *)
Inductive registration : Type :=
  | RegErr (e : psErr)
  | RegSkip
  | RegPending (ps : peerSet)
  | RegInject (wait : Z) (ps : peerSet).
Definition registerExtension (e : ext) (running verify : bool) (id : string) (sat : Z) (ps : peerSet)
    : registration :=
  if negb running then RegErr (errWithoutEth e)
  else if (bool_decide (e = Trust) && negb verify)%bool then RegSkip
  else if present (peers ps !! id) then RegErr errPeerAlreadyRegistered
  else if present (extPend ps !! (e, id)) then RegErr errPeerAlreadyRegistered
  else
    match extWait ps !! (e, id) with
    | Some wait =>
        RegInject wait (mk_peerSet (peers ps) (snapPeers ps) (delete (e, id) (extWait ps)) (extPend ps) (closed ps))
    | None =>
        RegPending (mk_peerSet (peers ps) (snapPeers ps) (extWait ps) (<[(e, id) := sat]> (extPend ps)) (closed ps))
    end.
Definition registerSnapExtension := registerExtension Snap.
Definition registerDiffExtension := registerExtension Diff.
Definition registerTrustExtension := registerExtension Trust.

(** The critical section of an eth peer's wait: an error, no satellite to wait
    for, the pending satellite, or a new channel to wait on. *)
Inductive waiting : Type :=
  | WaitErr (e : psErr)
  | WaitNone
  | WaitGot (sat : Z) (ps : peerSet)
  | WaitOn (wait : Z) (ps : peerSet).
Definition waitExtension (e : ext) (running verify : bool) (id : string) (ch : Z) (ps : peerSet) : waiting :=
  if negb running then WaitNone
  else if (bool_decide (e = Trust) && negb verify)%bool then WaitNone
  else if present (peers ps !! id) then WaitErr errPeerAlreadyRegistered
  else if present (extWait ps !! (e, id)) then WaitErr errPeerAlreadyRegistered
  else
    match extPend ps !! (e, id) with
    | Some sat =>
        WaitGot sat (mk_peerSet (peers ps) (snapPeers ps) (extWait ps) (delete (e, id) (extPend ps)) (closed ps))
    | None =>
        WaitOn ch (mk_peerSet (peers ps) (snapPeers ps) (<[(e, id) := ch]> (extWait ps)) (extPend ps) (closed ps))
    end.
Definition waitSnapExtension := waitExtension Snap.
Definition waitDiffExtension := waitExtension Diff.
Definition waitTrustExtension := waitExtension Trust.
(** After the timer has fired. *)
Definition stopWaiting (e : ext) (id : string) (ps : peerSet) : peerSet :=
  mk_peerSet (peers ps) (snapPeers ps) (delete (e, id) (extWait ps)) (extPend ps) (closed ps).

(** ** Bookkeeping *)
Inductive op : Type :=
  | opRegister (id : string) (p : Peer S M) (se de te : option Z)
  | opUnregister (id : string)
  | opClose
  | opSatellite (e : ext) (running verify : bool) (id : string) (sat : Z)
  | opWait (e : ext) (running verify : bool) (id : string) (ch : Z)
  | opTimeout (e : ext) (id : string).
Definition run (o : op) (ps : peerSet) : peerSet :=
  match o with
  | opRegister id p se de te => (registerPeer id p se de te ps).2
  | opUnregister id => (unregisterPeer id ps).2
  | opClose => (close ps).2
  | opSatellite e r v id sat =>
      match registerExtension e r v id sat ps with
      | RegPending ps | RegInject _ ps => ps
      | _ => ps
      end
  | opWait e r v id ch =>
      match waitExtension e r v id ch ps with
      | WaitGot _ ps | WaitOn _ ps => ps
      | _ => ps
      end
  | opTimeout e id => stopWaiting e id ps
  end.
Definition run_all (ops : list op) (ps : peerSet) : peerSet := foldl (fun ps o => run o ps) ps ops.

Definition snapCount (m : gmap string EthPeer) : Z :=
  Z.of_nat (size (filter (fun e => is_Some (snapExt e.2)) m)).

Lemma snapCount_insert id e m :
  m !! id = None -> snapCount (<[id := e]> m) = snapCount m + if present (snapExt e) then 1 else 0.
Proof.
  intros Hn. unfold snapCount. destruct (snapExt e) as [x|] eqn:E; simpl.
  - rewrite map_filter_insert_True by (simpl; rewrite E; eauto).
    rewrite map_size_insert_None; [lia|]. apply map_lookup_filter_None. by left.
  - rewrite map_filter_insert_False by (simpl; rewrite E; by intros []). rewrite delete_id by done. lia.
Qed.
Lemma snapCount_delete id e m :
  m !! id = Some e -> snapCount (delete id m) = snapCount m - if present (snapExt e) then 1 else 0.
Proof.
  intros Hs. assert (Hm : m = <[id := e]> (delete id m)) by by rewrite insert_delete_id.
  rewrite Hm at 2. rewrite snapCount_insert by apply lookup_delete_eq. lia.
Qed.

Definition ps_inv (ps : peerSet) : Prop :=
  snapPeers ps = snapCount (peers ps)
  /\ forall k, extWait ps !! k = None \/ extPend ps !! k = None.

Lemma ps_inv_run o ps : ps_inv ps -> ps_inv (run o ps).
Proof.
  intros [Hs Hd]. destruct o as [id p se de te|id| |e r v id sat|e r v id ch|e id]; simpl.
  - unfold registerPeer. destruct (closed ps); [done|]. destruct (peers ps !! id) eqn:E; [done|].
    split; [|done]. simpl. rewrite snapCount_insert by done. simpl. destruct (present se); lia.
  - unfold unregisterPeer. destruct (peers ps !! id) as [p|] eqn:E; [|done].
    split; [|done]. simpl. rewrite (snapCount_delete id p) by done. destruct (present (snapExt p)); lia.
  - done.
  - unfold registerExtension. destruct r; simpl; [|done]. destruct (_ && _)%bool; [done|].
    destruct (present (peers ps !! id)); [done|]. destruct (extPend ps !! (e, id)) eqn:Ep; simpl; [done|].
    destruct (extWait ps !! (e, id)) eqn:Ew; (split; [done|]); simpl; intros k.
    + destruct (decide (k = (e, id))) as [->|]; [left; apply lookup_delete_eq|].
      rewrite lookup_delete_ne by done. apply Hd.
    + destruct (decide (k = (e, id))) as [->|]; [by left|]. rewrite lookup_insert_ne by done. apply Hd.
  - unfold waitExtension. destruct r; simpl; [|done]. destruct (_ && _)%bool; [done|].
    destruct (present (peers ps !! id)); [done|]. destruct (extWait ps !! (e, id)) eqn:Ew; simpl; [done|].
    destruct (extPend ps !! (e, id)) eqn:Ep; (split; [done|]); simpl; intros k.
    + destruct (decide (k = (e, id))) as [->|]; [right; apply lookup_delete_eq|].
      rewrite (lookup_delete_ne _ (e, id)) by done. apply Hd.
    + destruct (decide (k = (e, id))) as [->|]; [by right|]. rewrite lookup_insert_ne by done. apply Hd.
  - split; [done|]. intros k. simpl. destruct (decide (k = (e, id))) as [->|].
    + left. apply lookup_delete_eq.
    + rewrite lookup_delete_ne by done. apply Hd.
Qed.

Lemma ps_inv_run_all ops : ps_inv (run_all ops newPeerSet).
Proof.
  unfold run_all. assert (Hi : ps_inv newPeerSet) by (split; [done|]; intros k; left; apply lookup_empty).
  revert Hi. generalize newPeerSet. induction ops as [|o ops IH]; intros ps Hi; [done|].
  apply IH. by apply ps_inv_run.
Qed.

Lemma best_fold l b :
  exists q, foldl best_step (Some b) l = Some q
    /\ (q = b \/ q ∈ ep_Peer <$> l) /\ td b <= td q /\ forall p, p ∈ l -> td (ep_Peer p) <= td q.
Proof.
  revert b. induction l as [|p l IH]; intros b; simpl.
  { exists b. split_and!; [done|by left|lia|]. intros p []%not_elem_of_nil. }
  destruct (Z.ltb_spec (td b) (td (ep_Peer p))).
  - destruct (IH (ep_Peer p)) as (q & Hq & Hin & Hle & Hall). exists q. split_and!; [done| |lia|].
    + right. destruct Hin as [->|?]; [by left|by right].
    + intros p' [->|?]%elem_of_cons; [lia|by apply Hall].
  - destruct (IH b) as (q & Hq & Hin & Hle & Hall). exists q. split_and!; [done| |lia|].
    + destruct Hin as [->|?]; [by left|right; by right].
    + intros p' [->|?]%elem_of_cons; [lia|by apply Hall].
Qed.

Lemma highest_spec ps :
  match peerWithHighestTD ps with
  | None => peers ps = ∅
  | Some b => (exists id p, peers ps !! id = Some p /\ ep_Peer p = b)
              /\ forall id p, peers ps !! id = Some p -> td (ep_Peer p) <= td b
  end.
Proof.
  unfold peerWithHighestTD.
  assert (Hl : forall p, p ∈ (map_to_list (peers ps)).*2 <-> exists id, peers ps !! id = Some p).
  { intros p. rewrite list_elem_of_fmap. split.
    - intros ([id q] & -> & Hin%elem_of_map_to_list). eauto.
    - intros [id Hid]. exists (id, p). split; [done|by apply elem_of_map_to_list]. }
  destruct (map_to_list (peers ps)).*2 as [|p l] eqn:E.
  { apply fmap_nil_inv, map_to_list_empty_iff in E. done. }
  simpl. destruct (best_fold l (ep_Peer p)) as (b & -> & Hin & Hle & Hall). split.
  - destruct Hin as [->|Hin].
    + destruct (proj1 (Hl p)) as [id Hid]; [by left|]. eauto.
    + apply list_elem_of_fmap in Hin as (p' & -> & Hp'). destruct (proj1 (Hl p')) as [id Hid]; [by right|]. eauto.
  - intros id p' Hp'. assert (Hin' : p' ∈ p :: l) by (apply Hl; eauto).
    apply elem_of_cons in Hin' as [->|?]; [done|by apply Hall].
Qed.

(** The peer set: after any sequence of operations the counter of snap
    peers is the number of registered peers with a snap extension, no
    satellite is both waited for and pending, an id is registered at most once
    (a second registration fails and changes nothing), nothing is registered
    after [close], and the peer chosen for synchronisation is one with the
    highest total difficulty. *)
Theorem peerset_bookkeeping ops id p se de te :
  let ps := run_all ops newPeerSet in
  snapLen ps = snapCount (peers ps) /\ 0 <= snapLen ps <= ps_len ps
  /\ (forall k, extWait ps !! k = None \/ extPend ps !! k = None)
  /\ (is_Some (peers ps !! id) \/ closed ps = true ->
      exists err, registerPeer id p se de te ps = (Some err, ps))
  /\ match peerWithHighestTD ps with
     | None => peers ps = ∅
     | Some b => (exists id p, peers ps !! id = Some p /\ ep_Peer p = b)
                 /\ forall id p, peers ps !! id = Some p -> td (ep_Peer p) <= td b
     end.
Proof.
  intros ps. destruct (ps_inv_run_all ops) as [Hs Hd]. fold ps in Hs, Hd.
  split_and!; [done| | |done| |apply highest_spec]; unfold snapLen, ps_len.
  - rewrite Hs. unfold snapCount. lia.
  - rewrite Hs. unfold snapCount. apply Nat2Z.inj_le, map_subseteq_size, map_filter_subseteq.
  - unfold registerPeer. intros [[q Hq]|Hc].
    + destruct (closed ps); [by eauto|]. rewrite Hq. eauto.
    + rewrite Hc. eauto.
Qed.

(** ** The rendezvous as threads
    An eth peer's wait and a satellite's registration, at the points where
    they hold or want the lock or use the channel. *)
Inductive thread : Type :=
  | WStart (e : ext) (id : string) (ch : Z)
  | WSelect (e : ext) (id : string) (ch : Z)       (* waits for the channel or the timer *)
  | WTimedOut (e : ext) (id : string)              (* wants the lock to stop waiting *)
  | WReturned (r : psErr + option Z)
  | RStart (e : ext) (id : string) (sat : Z)
  | RSend (ch sat : Z)                             (* sends while holding the lock *)
  | RReturned (err : option psErr).

Record sys : Type := mk_sys { s_ps : peerSet; s_lock : option nat; s_threads : list thread }.

Definition wait_result (e : ext) (id : string) (ch : Z) (ps : peerSet) : peerSet * thread :=
  match waitExtension e true true id ch ps with
  | WaitErr err => (ps, WReturned (inl err))
  | WaitNone => (ps, WReturned (inr None))
  | WaitGot sat ps => (ps, WReturned (inr (Some sat)))
  | WaitOn ch ps => (ps, WSelect e id ch)
  end.
Definition register_result (e : ext) (id : string) (sat : Z) (ps : peerSet) : peerSet * thread :=
  match registerExtension e true true id sat ps with
  | RegErr err => (ps, RReturned (Some err))
  | RegSkip => (ps, RReturned None)
  | RegPending ps => (ps, RReturned None)
  | RegInject ch ps => (ps, RSend ch sat)
  end.

Inductive sys_step : sys -> sys -> Prop :=
  | sWait ps ts i e id ch ps' t :
      ts !! i = Some (WStart e id ch) -> wait_result e id ch ps = (ps', t) ->
      sys_step (mk_sys ps None ts) (mk_sys ps' None (<[i := t]> ts))
  | sTimer ps l ts i e id ch :
      ts !! i = Some (WSelect e id ch) ->
      sys_step (mk_sys ps l ts) (mk_sys ps l (<[i := WTimedOut e id]> ts))
  | sStop ps ts i e id :
      ts !! i = Some (WTimedOut e id) ->
      sys_step (mk_sys ps None ts)
        (mk_sys (stopWaiting e id ps) None (<[i := WReturned (inl errPeerWaitTimeout)]> ts))
  | sRegister ps ts i e id sat ps' t :
      ts !! i = Some (RStart e id sat) -> register_result e id sat ps = (ps', t) ->
      sys_step (mk_sys ps None ts)
        (mk_sys ps' (match t with RSend _ _ => Some i | _ => None end) (<[i := t]> ts))
  | sHandOver ps ts i j ch sat e id :
      ts !! i = Some (RSend ch sat) -> ts !! j = Some (WSelect e id ch) ->
      sys_step (mk_sys ps (Some i) ts)
        (mk_sys ps None (<[i := RReturned None]> (<[j := WReturned (inr (Some sat))]> ts)))
  | sOther ps ts o :                    (* any other operation takes the lock *)
      sys_step (mk_sys ps None ts) (mk_sys (run o ps) None ts).

(** The rendezvous can deadlock the peer set: when the timer of a waiting
    eth peer fires just before its satellite registers, the satellite sends on
    a channel nobody receives from while it holds the lock the other needs;
    no operation on the peer set ever completes again.  Without the timer the
    satellite is handed over. *)
Theorem extension_deadlock e id ch sat :
  let start := mk_sys newPeerSet None [WStart e id ch; RStart e id sat] in
  (exists s, rtc sys_step start s /\ s_lock s = Some 1%nat /\ forall s', ~ sys_step s s')
  /\ exists s, rtc sys_step start s
       /\ s_threads s = [WReturned (inr (Some sat)); RReturned None] /\ s_lock s = None.
Proof.
  intros start.
  set (ps1 := mk_peerSet ∅ 0 {[ (e, id) := ch ]} ∅ false).
  set (ps2 := mk_peerSet ∅ 0 (delete (e, id) {[ (e, id) := ch ]}) ∅ false).
  assert (Hwait : wait_result e id ch newPeerSet = (ps1, WSelect e id ch)).
  { unfold wait_result, waitExtension. simpl. rewrite andb_false_r, !lookup_empty. done. }
  assert (H1 : sys_step start (mk_sys ps1 None [WSelect e id ch; RStart e id sat]))
    by exact (sWait _ [WStart e id ch; RStart e id sat] 0 e id ch _ _ eq_refl Hwait).
  assert (Hreg : register_result e id sat ps1 = (ps2, RSend ch sat)).
  { unfold register_result, registerExtension. simpl. rewrite andb_false_r, !lookup_empty. simpl.
    by rewrite lookup_singleton_eq. }
  split.
  - exists (mk_sys ps2 (Some 1%nat) [WTimedOut e id; RSend ch sat]). split; [|split; [done|]].
    + eapply rtc_l; [exact H1|].
      eapply rtc_l; [exact (sTimer _ _ [WSelect e id ch; RStart e id sat] 0 e id ch eq_refl)|].
      eapply rtc_l; [|done]. exact (sRegister _ [WTimedOut e id; RStart e id sat] 1 e id sat _ _ eq_refl Hreg).
    + intros s' Hs. inversion Hs; subst.
      * by destruct i as [|[|i]].
      * by destruct j as [|[|j]].
  - eexists (mk_sys ps2 None [WReturned (inr (Some sat)); RReturned None]). split; [|done].
    eapply rtc_l; [exact H1|].
    eapply rtc_l; [exact (sRegister _ [WSelect e id ch; RStart e id sat] 1 e id sat _ _ eq_refl Hreg)|].
    eapply rtc_l; [|done].
    exact (sHandOver _ [WSelect e id ch; RSend ch sat] 1 0 ch sat e id eq_refl eq_refl).
Qed.
End PeerSet.

Definition ex_peer (t : Z) : Peer (gset Hash) (gmap string) :=
  mk_Peer 0 t (newKnownCache 4) [] [] (newKnownCache 4) false false 0 0 0 ∅ false false [] [].
Definition ex_ops : list (op (S := gset Hash) (M := gmap string)) :=
  [opRegister "a" (ex_peer 5) (Some 1) None None; opRegister "b" (ex_peer 7) None None None; opUnregister "a"].
Lemma peerset_bookkeeping_witness :
  exists err, registerPeer "b" (ex_peer 7) None None None (run_all ex_ops newPeerSet)
              = (Some err, run_all ex_ops newPeerSet).
Proof.
  destruct (peerset_bookkeeping ex_ops "b" (ex_peer 7) None None None) as (_ & _ & _ & Hr & _).
  apply Hr. left. eexists. reflexivity.
Defined.
End PeerSet.
