(* ===== verification/EthConn.v ===== *)
(** * Connections of the eth protocol (eth/handler.go, callback_manager)

    [runEthPeer] from the handshake to the running message loop: what the node
    announces (its own head, or what a registered callback reports), the slots
    reserved for peers, the registration in the peer set of PeerSet.v with its
    deferred removal, and the header challenges.  Every connection runs it in
    its own goroutine; the goroutines interleave at the points where they
    touch the shared peer set. *)

From stdpp Require Import base gmap sets list strings numbers relations.
From Stdlib Require Import ZArith Lia.
From S2P Require Import Prelude Externals KnownCache EthPeer ChainReader EthServe ForkID Handshake PeerSet.

Module EthConn.
Import EthPeer ForkID Handshake PeerSet ChainReader EthServe.

(** ** Callbacks
    A value behind an [interface{}], as far as [runEthPeer] asserts its type;
    a hash is its bytes. *)
Inductive dyn : Type :=
  | dUint64 (n : Z)
  | dHash (b : list Z)
  | dBigInt (z : Z)
  | dOther.
Definition callbacks : Type := gmap string (list dyn -> outcome (list dyn)).

Definition RegisterCallBack (key : string) (callBack : list dyn -> outcome (list dyn)) (m : callbacks)
    : callbacks := <[key := callBack]> m.
Definition IsExistCallBack (key : string) (m : callbacks) : bool := present (m !! key).
Definition CallBackFunc (key : string) (args : list dyn) (m : callbacks) : outcome (list dyn) :=
  match m !! key with
  | Some callBack => callBack args
  | None => Panic "callBack not found"
  end.

(** [l[i].(T)]: a wrong index or type panics. *)
Definition index (l : list dyn) (i : nat) : outcome dyn :=
  match l !! i with Some v => Done v | None => Panic "index out of range" end.
Definition asUint64 (v : dyn) : outcome Z :=
  match v with dUint64 n => Done n | _ => Panic "interface conversion" end.
Definition asHash (v : dyn) : outcome (list Z) :=
  match v with dHash b => Done b | _ => Panic "interface conversion" end.
Definition asBigInt (v : dyn) : outcome Z :=
  match v with dBigInt z => Done z | _ => Panic "interface conversion" end.

(** ** The handler *)
Record handler : Type := mk_handler {
  networkID : Z;
  h_config : config;                    (* h.chain.Config() *)
  h_genesis : list Z;                   (* h.chain.Genesis().Hash() *)
  snapSync : bool;
  maxPeers : Z;
  checkpointNumber : Z;
  checkpointHash : Hash;
  whitelist : list (Z * Hash);          (* in the order of the range loop *)
}.
(** h.chain.CurrentHeader() and its total difficulty. *)
Record chainHead : Type := mk_chainHead { head_Number : Z; head_Hash : list Z; head_Td : Z }.

Record hsInfo : Type := mk_hsInfo {
  i_networkID : Z;
  i_genesisHash : list Z;
  i_headNumber : Z;
  i_headHash : list Z;
  i_headTd : Z;
}.

Definition handshakeInfo (cbs : callbacks) (h : handler) (hd : chainHead) : outcome hsInfo :=
  info ← (if IsExistCallBack "GetHandshakeInfo" cbs then
            r ← CallBackFunc "GetHandshakeInfo" [] cbs;
            v0 ← index r 0; network ← asUint64 v0;
            v1 ← index r 1; genesis ← asHash v1;
            v2 ← index r 2; number ← asUint64 v2;
            v3 ← index r 3; hash ← asHash v3;
            v4 ← index r 4; td ← asBigInt v4;
            Done (mk_hsInfo network genesis number hash td)
          else Done (mk_hsInfo 0 [] 0 [] 0));
  if i_networkID info =? 0
  then Done (mk_hsInfo (networkID h) (h_genesis h) (head_Number hd) (head_Hash hd) (head_Td hd))
  else Done info.

(** The value of the bytes of a hash. *)
Definition Hash_value (b : list Z) : Hash := foldl (fun a x => a * 256 + x) 0 b.

(** The status sent to the remote node. *)
Definition localStatus (version : Z) (h : handler) (info : hsInfo) : StatusPacket :=
  mk_StatusPacket version (i_networkID info) (i_headTd info) (Hash_value (i_headHash info))
    (i_genesisHash info) (NewID (h_config h) (i_genesisHash info) (i_headNumber info)).

(** ** Slots
    Reserved for snap peers while snap sync runs; [all] and [snp] are the
    values of [len] and [snapLen]. *)
Definition reject (h : handler) (snap : option Z) (all snp : Z) : bool :=
  (snapSync h && negb (present snap) && (snp + 5 <? all - snp))%bool.
Definition hasSlot (h : handler) (snap : option Z) (trusted : bool) (all snp l : Z) : bool :=
  (trusted || negb (reject h snap all snp || (maxPeers h <=? l)))%bool.

(** ** Challenges *)
Inductive challenge : Type :=
  | Checkpoint (number : Z) (hash : Hash)
  | Whitelisted (number : Z) (hash : Hash).
Definition ch_number (c : challenge) : Z := match c with Checkpoint n _ | Whitelisted n _ => n end.
Definition ch_hash (c : challenge) : Hash := match c with Checkpoint _ h | Whitelisted _ h => h end.
Definition challenges (h : handler) : list challenge :=
  (if checkpointHash h =? 0 then [] else [Checkpoint (checkpointNumber h) (checkpointHash h)])
  ++ ((fun '(n, hash) => Whitelisted n hash) <$> whitelist h).

(** [RequestHeadersByNumber(number, 1, 0, false, resCh)] *)
Definition challengeQuery (c : challenge) : GetBlockHeadersPacket :=
  mk_GetBlockHeadersPacket (mk_HashOrNumber 0 (ch_number c)) 1 0 false.

Inductive challengeErr : Type := errUnsynced | errTooManyHeaders | errHashMismatch | errWhitelistMismatch.
(** What is reported on [res.Done] for the headers of the reply. *)
Definition checkReply (h : handler) (c : challenge) (headers : list Header) : option challengeErr :=
  match c, headers with
  | Checkpoint _ _, [] => if snapSync h then Some errUnsynced else None
  | Checkpoint _ hash, [hd] => if hdr_Hash hd =? hash then None else Some errHashMismatch
  | Whitelisted _ _, [] => None
  | Whitelisted n hash, [hd] =>
      if ((u64 (hdr_Number hd) =? n) && (hdr_Hash hd =? hash))%bool then None else Some errWhitelistMismatch
  | _, _ => Some errTooManyHeaders
  end.

(** ** The goroutines *)
Section Connections.
Context {S : Type} `{MapSet Hash S} {M : Type -> Type} `{CMap M}.

(** [peer.Handshake] with the arguments [runEthPeer] gives it: the filter is
    that of the node's own chain, whatever the callback reports. *)
Definition ethHandshake (cbs : callbacks) (h : handler) (hd : chainHead) (version : Z)
    (x1 : exchange StatusPacket) (x2 : exchange UpgradeStatusPacket) (p : Peer S M)
    : outcome (option hsErr * Peer S M * option bool) :=
  info ← handshakeInfo cbs h hd;
  Done (Handshake version (i_networkID info) (i_genesisHash info)
          (newFilter (h_config h) (h_genesis h) (head_Number hd)) x1 x2 p).

(** Where a goroutine is.  [Checking] holds the lengths read so far: [len] and
    [snapLen] for the reserved slots, then [len] again.  The code skips a
    length it does not need; reading it changes nothing. *)
Inductive phase : Type :=
  | Handshaking
  | Checking (reads : list Z)
  | Registering
  | Registered
  | Running
  | Returned.
Record conn : Type := mk_conn {
  c_id : string;
  c_peer : Peer S M;
  c_trusted : bool;
  c_snap : option Z;
  c_diff : option Z;
  c_trust : option Z;
  c_phase : phase;
}.
Definition at_phase (c : conn) (ph : phase) : conn :=
  mk_conn (c_id c) (c_peer c) (c_trusted c) (c_snap c) (c_diff c) (c_trust c) ph.
Definition with_peer (c : conn) (p : Peer S M) : conn :=
  mk_conn (c_id c) p (c_trusted c) (c_snap c) (c_diff c) (c_trust c) (c_phase c).
Definition entry (c : conn) : EthPeer := mk_EthPeer (c_peer c) (c_snap c) (c_diff c) (c_trust c).

Definition readLen (reads : list Z) (ps : peerSet (S := S) (M := M)) : Z :=
  match reads with [_] => snapLen ps | _ => ps_len ps end.

(** [handler.unregisterPeer]; the error is the one it logs. *)
Definition dropPeer (id : string) (ps : peerSet (S := S) (M := M)) : option psErr * peerSet :=
  match peer id ps with
  | None => (Some errPeerNotRegistered, ps)
  | Some _ => unregisterPeer id ps
  end.

Definition system : Type := (peerSet (S := S) (M := M) * list conn)%type.

(** The operations of others on the peer set: the rendezvous with satellites,
    and [Stop] closing the set. *)
Definition outside (o : op (S := S) (M := M)) : bool :=
  match o with opRegister _ _ _ _ _ | opUnregister _ => false | _ => true end.

Context (h : handler).

Inductive step : system -> system -> Prop :=
  | sConnect ps cs c :                  (* the extensions have been waited for *)
      c_phase c = Handshaking -> step (ps, cs) (ps, cs ++ [c])
  | sHandshake ps cs i c cbs hd version x1 x2 err p ext :
      cs !! i = Some c -> c_phase c = Handshaking ->
      ethHandshake cbs h hd version x1 x2 (c_peer c) = Done (err, p, ext) ->
      step (ps, cs)
        (ps, <[i := at_phase (with_peer c p) (if present err then Returned else Checking [])]> cs)
  | sRead ps cs i c reads :
      cs !! i = Some c -> c_phase c = Checking reads -> (length reads < 3)%nat ->
      step (ps, cs) (ps, <[i := at_phase c (Checking (reads ++ [readLen reads ps]))]> cs)
  | sAdmit ps cs i c all snp l :
      cs !! i = Some c -> c_phase c = Checking [all; snp; l] ->
      step (ps, cs)
        (ps, <[i := at_phase c (if hasSlot h (c_snap c) (c_trusted c) all snp l
                                then Registering else Returned)]> cs)
  | sRegister ps cs i c err ps' :
      cs !! i = Some c -> c_phase c = Registering ->
      registerPeer (c_id c) (c_peer c) (c_snap c) (c_diff c) (c_trust c) ps = (err, ps') ->
      step (ps, cs) (ps', <[i := at_phase c (if present err then Returned else Registered)]> cs)
  | sLookup ps cs i c :                 (* p := h.peers.peer(peer.ID()) *)
      cs !! i = Some c -> c_phase c = Registered -> peer (c_id c) ps <> None ->
      step (ps, cs) (ps, <[i := at_phase c Running]> cs)
  | sDropped ps cs i c :                (* "peer dropped during handling" *)
      cs !! i = Some c -> c_phase c = Registered -> peer (c_id c) ps = None ->
      step (ps, cs) ((dropPeer (c_id c) ps).2, <[i := at_phase c Returned]> cs)
  | sReturn ps cs i c :                 (* the handler ends, or a challenge cannot be sent *)
      cs !! i = Some c -> c_phase c = Running ->
      step (ps, cs) ((dropPeer (c_id c) ps).2, <[i := at_phase c Returned]> cs)
  | sOthers ps cs o : outside o = true -> step (ps, cs) (run o ps, cs).

Definition reach (s : system) : Prop := rtc step (newPeerSet, []) s.

(** ** The peer set holds exactly the registered connections *)
Definition holds (c : conn) : bool :=
  match c_phase c with Registered | Running => true | _ => false end.

Record inv (s : system) : Prop := {
  inv_entry id e : peers s.1 !! id = Some e ->
    exists i c, s.2 !! i = Some c /\ holds c = true /\ c_id c = id /\ e = entry c;
  inv_held i c : s.2 !! i = Some c -> holds c = true -> peers s.1 !! c_id c = Some (entry c);
  inv_unique i j c d : s.2 !! i = Some c -> s.2 !! j = Some d ->
    holds c = true -> holds d = true -> c_id c = c_id d -> i = j;
  inv_ps : ps_inv s.1;
}.

(** A step of a connection that keeps the peer set's peers, and whether the
    connection is registered. *)
Lemma inv_same ps ps' cs i c c' :
  inv (ps, cs) -> cs !! i = Some c -> peers ps' = peers ps -> ps_inv ps' ->
  holds c' = holds c -> (holds c = true -> c_id c' = c_id c /\ entry c' = entry c) ->
  inv (ps', <[i := c']> cs).
Proof.
  intros [He Hh Hu Hp] Hi Hps Hp' Hc Hsame. simpl in *.
  assert (Hback : forall j d, <[i := c']> cs !! j = Some d -> holds d = true ->
    exists d0, cs !! j = Some d0 /\ holds d0 = true /\ c_id d = c_id d0 /\ entry d = entry d0).
  { intros j d [(-> & <- & _)|[Hne Hd]]%list_lookup_insert_Some Hhd; [|by eauto].
    rewrite Hc in Hhd. destruct (Hsame Hhd). eauto. }
  split; simpl; [| | |done].
  - rewrite Hps. intros id e (j & d & Hj & Hhd & <- & ->)%He. exists j.
    destruct (decide (i = j)) as [<-|Hne].
    + simplify_eq. destruct (Hsame Hhd) as [<- <-]. exists c'. rewrite Hc.
      rewrite list_lookup_insert_eq by by eapply lookup_lt_Some. done.
    + exists d. rewrite list_lookup_insert_ne by done. done.
  - rewrite Hps. intros j d Hj Hhd. destruct (Hback j d Hj Hhd) as (d0 & ? & ? & -> & ->). eauto.
  - intros j k d e Hj Hk Hd Hek Heq.
    destruct (Hback j d Hj Hd) as (d0 & ? & ? & Ed & _), (Hback k e Hk Hek) as (e0 & ? & ? & Ee & _).
    eapply (Hu j k d0 e0); try done. congruence.
Qed.

Lemma inv_connect ps cs c : inv (ps, cs) -> holds c = false -> inv (ps, cs ++ [c]).
Proof.
  intros [He Hh Hu Hp] Hc. simpl in *.
  assert (Hback : forall j d, (cs ++ [c]) !! j = Some d -> holds d = true -> cs !! j = Some d).
  { intros j d [|[_ [_ <-]%list_lookup_singleton_Some]]%lookup_app_Some; [done|congruence]. }
  split; simpl; [|by eauto..].
  intros id e (j & d & Hj & ? & ? & ?)%He. exists j, d. split_and!; [|done..].
  by apply lookup_app_l_Some.
Qed.

Lemma inv_register ps cs i c ps' :
  inv (ps, cs) -> cs !! i = Some c -> holds c = false ->
  registerPeer (c_id c) (c_peer c) (c_snap c) (c_diff c) (c_trust c) ps = (None, ps') ->
  inv (ps', <[i := at_phase c Registered]> cs).
Proof.
  intros [He Hh Hu Hp] Hi Hc Hr. simpl in *.
  assert (Hp' : ps_inv ps').
  { pose proof (ps_inv_run (opRegister (c_id c) (c_peer c) (c_snap c) (c_diff c) (c_trust c)) _ Hp) as Hx.
    simpl in Hx. by rewrite Hr in Hx. }
  unfold registerPeer in Hr. destruct (closed ps); [done|].
  destruct (peers ps !! c_id c) eqn:En; [done|]. injection Hr as <-.
  assert (Hfree : forall j d, cs !! j = Some d -> holds d = true -> c_id d <> c_id c).
  { intros j d Hj Hd E. specialize (Hh j d Hj Hd). congruence. }
  split; simpl; [| | |done].
  - intros id e [[<- <-]|[Hne (j & d & Hj & ? & <- & ->)%He]]%lookup_insert_Some.
    + exists i. eexists. rewrite list_lookup_insert_eq by by eapply lookup_lt_Some. done.
    + exists j, d. rewrite list_lookup_insert_ne; [done|]. intros ->. congruence.
  - intros j d [(-> & <- & _)|[Hne Hd]]%list_lookup_insert_Some Hhd; simpl.
    + apply lookup_insert_eq.
    + rewrite lookup_insert_ne by (symmetry; eauto). eauto.
  - intros j k d e [(<- & <- & _)|[? Hj]]%list_lookup_insert_Some
      [(<- & <- & _)|[? Hk]]%list_lookup_insert_Some Hd Hek Heq; simpl in *.
    + done.
    + by destruct (Hfree k e Hk Hek).
    + by destruct (Hfree j d Hj Hd).
    + by eauto.
Qed.

(** The deferred removal finds its peer. *)
Lemma dropPeer_held ps cs i c :
  inv (ps, cs) -> cs !! i = Some c -> holds c = true ->
  exists ps', dropPeer (c_id c) ps = (None, ps') /\ peers ps' = delete (c_id c) (peers ps)
    /\ closed ps' = closed ps.
Proof.
  intros Hinv Hi Hc. pose proof (inv_held _ Hinv i c Hi Hc) as Hl. simpl in Hl.
  unfold dropPeer, peer, unregisterPeer. rewrite Hl. eauto.
Qed.

Lemma inv_drop ps cs i c :
  inv (ps, cs) -> cs !! i = Some c -> holds c = true ->
  inv ((dropPeer (c_id c) ps).2, <[i := at_phase c Returned]> cs).
Proof.
  intros Hinv Hi Hc. destruct (dropPeer_held _ _ _ _ Hinv Hi Hc) as (ps' & Ed & Hps & _).
  assert (Hp' : ps_inv ps').
  { pose proof (ps_inv_run (opUnregister (c_id c)) _ (inv_ps _ Hinv)) as Hx. simpl in Hx.
    unfold dropPeer in Ed. destruct (peer (c_id c) ps); [|done]. by rewrite Ed in Hx. }
  rewrite Ed. destruct Hinv as [He Hh Hu Hp]. simpl in *.
  assert (Hback : forall j d, <[i := at_phase c Returned]> cs !! j = Some d -> holds d = true ->
    cs !! j = Some d /\ i <> j).
  { intros j d [(-> & <- & _)|[? ?]]%list_lookup_insert_Some Hd; [done|by auto]. }
  split; simpl; [| | |done].
  - rewrite Hps. intros id e [Hne (j & d & Hj & ? & <- & ->)%He]%lookup_delete_Some.
    exists j, d. rewrite list_lookup_insert_ne; [done|]. intros ->. congruence.
  - rewrite Hps. intros j d Hj Hd. destruct (Hback j d Hj Hd) as [Hj' Hne].
    rewrite lookup_delete_ne by (intros E; by destruct Hne, (Hu i j c d)). eauto.
  - intros j k d e Hj Hk Hd Hek. apply (Hu j k); [by apply Hback|by apply Hback|done|done].
Qed.

Lemma run_outside_peers o ps : outside o = true -> peers (run o ps) = peers ps.
Proof.
  destruct o as [| | |e r v id sat|e r v id ch|]; simpl; try done; intros _.
  - unfold registerExtension. repeat case_match; by simplify_eq.
  - unfold waitExtension. repeat case_match; by simplify_eq.
Qed.

Lemma cn_inv_step s s' : inv s -> step s s' -> inv s'.
Proof.
  intros Hinv Hst. destruct Hst as
    [ps cs c Hc|ps cs i c cbs hd version x1 x2 err p ext Hi Hc Hx|ps cs i c reads Hi Hc Hl
    |ps cs i c all snp l Hi Hc|ps cs i c err ps' Hi Hc Hr|ps cs i c Hi Hc Hl|ps cs i c Hi Hc Hl
    |ps cs i c Hi Hc|ps cs o Ho].
  1: by apply inv_connect; [|unfold holds; rewrite Hc].
  8: { pose proof (ps_inv_run o _ (inv_ps _ Hinv)) as Hp. pose proof (run_outside_peers o ps Ho) as Hps.
       destruct Hinv. split; simpl in *; rewrite ?Hps; done. }
  all: assert (Hh : holds c = match c_phase c with Registered | Running => true | _ => false end) by done;
    rewrite Hc in Hh.
  - eapply (inv_same ps); [done..|apply Hinv| |congruence].
    rewrite Hh. unfold holds. simpl. by destruct (present err).
  - by eapply (inv_same ps); [done..|apply Hinv| |congruence].
  - eapply (inv_same ps); [done..|apply Hinv| |congruence].
    rewrite Hh. unfold holds. simpl. by destruct (hasSlot _ _ _ _ _ _).
  - destruct err as [err|]; simpl; [|by eapply inv_register].
    assert (ps' = ps) as ->.
    { unfold registerPeer in Hr. destruct (closed ps); [by simplify_eq|]. by destruct (peers ps !! _); simplify_eq. }
    by eapply (inv_same ps); [done..|apply Hinv| |congruence].
  - by eapply (inv_same ps); [done..|apply Hinv| |].
  - by apply inv_drop.
  - by apply inv_drop.
Qed.

Lemma cn_inv_init : inv (newPeerSet, []).
Proof. split; simpl; [done..|]. apply (ps_inv_run_all []). Qed.
Lemma cn_inv_reach s : reach s -> inv s.
Proof. apply invariant_reach; [apply cn_inv_init|]. eauto using cn_inv_step. Qed.


(** ** Slots *)
(** The check and the registration without interruption: a peer that is not
    trusted is only registered below [maxPeers], and during snap sync a peer
    without snap leaves at most six more peers without snap than with it. *)
Theorem eth_slots (ps : peerSet (S := S) (M := M)) p id se de te trusted ps' :
  ps_inv ps -> trusted = false ->
  hasSlot h se trusted (ps_len ps) (snapLen ps) (ps_len ps) = true ->
  registerPeer id p se de te ps = (None, ps') ->
  ps_len ps' = ps_len ps + 1 /\ ps_len ps' <= maxPeers h
  /\ (snapSync h = true -> se = None -> (ps_len ps' - snapLen ps') - snapLen ps' <= 6).
Proof.
  intros [Hs _] -> Ha Hr. unfold registerPeer in Hr. destruct (closed ps); [done|].
  destruct (peers ps !! id) eqn:En; [done|]. injection Hr as <-.
  unfold hasSlot, reject in Ha. simpl in Ha. apply negb_true_iff, orb_false_iff in Ha as [Hrej Hmax].
  apply Z.leb_gt in Hmax. unfold ps_len, snapLen in *. simpl.
  rewrite map_size_insert_None by done. split_and!; [lia..|].
  intros Hsn ->. rewrite Hsn in Hrej. simpl in *. apply Z.ltb_ge in Hrej. lia.
Qed.
End Connections.
Arguments conn : clear implicits.
Arguments system : clear implicits.

(** ** An honest node passes the challenges *)
Section Challenges.
Context (db : Db) {L : Type} `{LruLaws Hash Header L} (Hwf : wf db).

Lemma ascending_one n : ascending db 1 n = match canonical db n with Some hd => [hd] | None => [] end.
Proof. simpl. by destruct (canonical db n). Qed.

(** The reply of a remote node to a challenge, as that node computes it, passes
    the check exactly when its canonical block at the challenged number has
    the expected hash, or it has no block there and the check allows it: a
    whitelisted block may be missing, a checkpoint only when no snap sync
    runs. *)
Theorem challenge_exact h c l :
  is_u64 (ch_number c) -> cache_ok db l ->
  exists hs l', ServiceGetBlockHeadersQuery db (challengeQuery c) l = Done (hs, l') /\ cache_ok db l'
    /\ (checkReply h c hs = None <->
        match canonical db (ch_number c) with
        | Some hd => hdr_Hash hd = ch_hash c
        | None => match c with Checkpoint _ _ => snapSync h = false | Whitelisted _ _ => True end
        end).
Proof.
  intros Hn Hl. unfold is_u64 in Hn.
  destruct (serviceContiguous_runs db Hwf (challengeQuery c) Hn ltac:(simpl; lia)
              ltac:(unfold maxHeadersServe; simpl; lia) l Hl) as (hs & l' & E & Hl' & Ha).
  exists hs, l'. split_and!; [exact E|done|].
  change (hs = ascending db 1 (ch_number c)) in Ha. rewrite ascending_one in Ha.
  destruct (canonical db (ch_number c)) as [hd|] eqn:Ec; subst hs.
  - assert (Hnum : u64 (hdr_Number hd) = ch_number c).
    { destruct (canonical_stored db Hwf _ _ Ec) as (_ & -> & _). by apply u64_small. }
    destruct c as [n hash|n hash]; simpl in *.
    + destruct (Z.eqb_spec (hdr_Hash hd) hash); naive_solver.
    + rewrite Hnum, Z.eqb_refl. simpl. destruct (Z.eqb_spec (hdr_Hash hd) hash); naive_solver.
  - destruct c; simpl; [|done]. destruct (snapSync h); naive_solver.
Qed.
End Challenges.
(** ** Two nodes of the same network *)
Section SameNetwork.
Context {S : Type} `{MapSet Hash S} {M : Type -> Type} `{CMap M}.

(** What a node sends when no callback replaces its own head. *)
Lemma handshakeInfo_own cbs h hd :
  IsExistCallBack "GetHandshakeInfo" cbs = false ->
  handshakeInfo cbs h hd
  = Done (mk_hsInfo (networkID h) (h_genesis h) (head_Number hd) (head_Hash hd) (head_Td hd)).
Proof. intros E. unfold handshakeInfo. by rewrite E. Qed.

End SameNetwork.
(** ** Examples *)
Definition ex_handler (snap : bool) (max : Z) : handler :=
  mk_handler 56 BSCChainConfig BSCGenesisHash snap max 2 12 [(3, 13); (7, 99)].
Definition ex_head : chainHead := mk_chainHead 23846001 [7] 20000.
Definition ex_conn (id : string) (ph : phase) : conn (gset Hash) (gmap string) :=
  mk_conn id (CloseTxBroadcast (SetHead 7 20000 Handshake.ex_peer)) false None None None ph.
Definition ex_fresh (id : string) : conn (gset Hash) (gmap string) :=
  mk_conn id Handshake.ex_peer false None None None Handshaking.

Lemma ex_handshake snap max :
  ethHandshake ∅ (ex_handler snap max) ex_head 67 ex_x1 ex_x2 Handshake.ex_peer
  = Done (None, CloseTxBroadcast (SetHead 7 20000 Handshake.ex_peer), Some true).
Proof. vm_compute. reflexivity. Qed.

Ltac shake i :=
  eapply rtc_l; [eapply (sHandshake _ _ _ i); [reflexivity|reflexivity|apply ex_handshake]|].
Ltac read i := eapply rtc_l; [eapply (sRead _ _ _ i); [reflexivity|reflexivity|simpl; lia]|].
Ltac enter i := eapply rtc_l; [eapply (sAdmit _ _ _ i); reflexivity|].
Ltac register i := eapply rtc_l; [eapply (sRegister _ _ _ i); reflexivity|].

(** The lengths are read before the registration, outside its critical
    section: two connections that are checked at the same time both get the
    last free slot. *)
Theorem slots_race :
  exists ps, reach (ex_handler false 1) (ps, [ex_conn "a" Registered; ex_conn "b" Registered])
    /\ ps_len ps = 2.
Proof.
  eexists. split.
  - unfold reach.
    eapply rtc_l; [exact (sConnect _ _ [] (ex_fresh "a") eq_refl)|].
    eapply rtc_l; [exact (sConnect _ _ _ (ex_fresh "b") eq_refl)|].
    shake 0%nat. shake 1%nat. do 3 read 0%nat. do 3 read 1%nat. enter 0%nat. enter 1%nat.
    register 0%nat. register 1%nat. apply rtc_refl.
  - reflexivity.
Qed.

Lemma ex_reach_one : exists ps, reach (ex_handler false 1) (ps, [ex_conn "a" Registered]).
Proof.
  eexists. unfold reach. eapply rtc_l; [exact (sConnect _ _ [] (ex_fresh "a") eq_refl)|].
  shake 0%nat. do 3 read 0%nat. enter 0%nat. register 0%nat. apply rtc_refl.
Qed.

Lemma eth_slots_witness :
  exists ps' : peerSet (S := gset Hash) (M := gmap string), ps_len ps' <= 1.
Proof.
  eexists. destruct (eth_slots (ex_handler true 1) newPeerSet Handshake.ex_peer "a" None None None false _
    (ps_inv_run_all []) eq_refl eq_refl eq_refl) as (_ & Hle & _). exact Hle.
Defined.

Lemma challenge_exact_witness :
  exists hs l', ServiceGetBlockHeadersQuery ex_db (challengeQuery (Checkpoint 2 12)) [(12, ex_h2)] = Done (hs, l')
    /\ checkReply (ex_handler true 1) (Checkpoint 2 12) hs = None.
Proof.
  destruct (challenge_exact ex_db (L := lru2 Hash Header) ex_wf (ex_handler true 1) (Checkpoint 2 12)
    [(12, ex_h2)] ltac:(unfold is_u64; simpl; lia) ex_cache_ok) as (hs & l' & Hq & _ & Hc).
  exists hs, l'. split; [exact Hq|]. by apply Hc.
Defined.

Definition ex_info : hsInfo := mk_hsInfo 56 BSCGenesisHash 23846001 [7] 20000.
End EthConn.
