(* ===== verification/Bytes.v ===== *)
(** * Bytes and big-endian integers

    A byte is a [Z] below 256; a byte slice is a list of them.  The helpers
    here are shared by the codecs. *)

From stdpp Require Import base list numbers.
From Stdlib Require Import ZArith Lia.
From S2P Require Import Prelude.

Definition is_byte (b : Z) : Prop := 0 <= b < 256.
Abbreviation bytes := (Forall is_byte).

(** Go's conversion [byte(x)]. *)
Definition byte (z : Z) : Z := z mod 256.

(** [n] bytes of [z], most significant first, and back. *)
Fixpoint be (n : nat) (z : Z) : list Z :=
  match n with
  | O => []
  | S n => be n (z / 256) ++ [byte z]
  end.
Definition unbe (l : list Z) : Z := foldl (fun a b => a * 256 + b) 0 l.

Lemma byte_range z : is_byte (byte z).
Proof. unfold is_byte, byte. apply Z.mod_pos_bound. lia. Qed.
Lemma byte_small z : is_byte z -> byte z = z.
Proof. unfold is_byte, byte. intros. apply Z.mod_small. lia. Qed.
#[export] Hint Resolve byte_range : octopus.

Lemma be_length n z : length (be n z) = n.
Proof. revert z. induction n as [|n IH]; intros z; simpl; [done|]. rewrite length_app, IH. simpl. lia. Qed.
Lemma be_bytes n z : bytes (be n z).
Proof.
  revert z. induction n as [|n IH]; intros z; simpl; [done|].
  apply Forall_app. split; [done|]. constructor; [apply byte_range|done].
Qed.

Lemma unbe_snoc l b : unbe (l ++ [b]) = unbe l * 256 + b.
Proof. unfold unbe. by rewrite foldl_app. Qed.
Lemma unbe_be n z : 0 <= z < 256 ^ Z.of_nat n -> unbe (be n z) = z.
Proof.
  revert z. induction n as [|n IH]; intros z Hz.
  { change (256 ^ Z.of_nat 0) with 1 in Hz. assert (z = 0) as -> by lia. done. }
  rewrite Nat2Z.inj_succ, Z.pow_succ_r in Hz by lia.
  simpl. rewrite unbe_snoc, IH.
  - unfold byte. pose proof (Z.div_mod z 256). lia.
  - split; [apply Z.div_pos; lia|apply Z.div_lt_upper_bound; lia].
Qed.
Lemma unbe_bound l : bytes l -> 0 <= unbe l < 256 ^ len l.
Proof.
  induction l as [|b l IH] using rev_ind; intros Hl; [done|].
  apply Forall_app in Hl as [Hl Hb]. inversion Hb as [|? ? Hb' _]; subst. unfold is_byte in Hb'.
  rewrite unbe_snoc, len_app, Z.pow_add_r by (try apply len_nonneg; done).
  change (256 ^ len [b]) with 256. specialize (IH Hl). lia.
Qed.
Lemma be_unbe l : bytes l -> be (length l) (unbe l) = l.
Proof.
  induction l as [|b l IH] using rev_ind; intros Hl; [done|].
  apply Forall_app in Hl as [Hl Hb]. inversion Hb as [|? ? Hb' _]; subst.
  rewrite length_app, Nat.add_1_r. simpl. rewrite unbe_snoc. unfold is_byte in Hb'.
  replace ((unbe l * 256 + b) / 256) with (unbe l) by (rewrite Z.div_add_l, Z.div_small; lia).
  rewrite IH by done. unfold byte. rewrite Z.add_comm, Z.mod_add, Z.mod_small by lia. done.
Qed.

(** The first of several bytes tells whether fewer would do. *)
Lemma unbe_cons b l : unbe (b :: l) = b * 256 ^ len l + unbe l.
Proof.
  induction l as [|c l IH] using rev_ind.
  - change (b :: []) with ([] ++ [b]). rewrite unbe_snoc. change (256 ^ len (@nil Z)) with 1.
    change (unbe []) with 0. lia.
  - rewrite app_comm_cons, !unbe_snoc, IH, len_app, Z.pow_add_r by (try apply len_nonneg; done).
    change (256 ^ len [c]) with 256. lia.
Qed.
Lemma unbe_lower b l : bytes (b :: l) -> b <> 0 -> 256 ^ len l <= unbe (b :: l).
Proof.
  intros [Hb Hl]%list.Forall_cons_1 Hz. rewrite unbe_cons. pose proof (unbe_bound l Hl). unfold is_byte in Hb.
  assert (0 < 256 ^ len l) by (apply Z.pow_pos_nonneg; [lia|apply len_nonneg]). nia.
Qed.
Lemma unbe_zero l : unbe (0 :: l) = unbe l.
Proof. by rewrite unbe_cons. Qed.
