(* ===== verification/Rlp.v ===== *)
(** * RLP: integers, raw values and the encoder's buffer (src/rlp)

    raw.go, encbuffer.go and the size computations of encode.go.  The encoder
    writes the contents of strings into one buffer and remembers the position
    and size of every list header; the headers are merged in at the end.  The
    reference is the recursive definition of the encoding. *)

From stdpp Require Import base list numbers strings.
From Stdlib Require Import ZArith Lia.
From S2P Require Import Prelude Bytes.

Module Rlp.

Inductive rlpErr : Type :=
  | EOL
  | ErrExpectedString
  | ErrExpectedList
  | ErrCanonInt
  | ErrCanonSize
  | ErrElemTooLarge
  | ErrValueTooLarge
  | ErrMoreThanOneValue
  | errNotInList
  | errNotAtEOL
  | errUintOverflow
  | ErrNegativeBigInt
  | io_EOF
  | io_ErrUnexpectedEOF
  | decodeError (msg : string)
  | customError (msg : string).   (* of a DecodeRLP method *)

Inductive Kind : Type := Byte | String_ | List_.
#[export] Instance Kind_eq_dec : EqDecision Kind.
Proof. solve_decision. Defined.

(** ** Integers *)
Fixpoint intsize_loop (fuel : nat) (size i : Z) : Z :=
  match fuel with
  | O => size
  | S f => let i := Z.shiftr i 8 in if i =? 0 then size else intsize_loop f (size + 1) i
  end.
(** A uint64 is zero after eight shifts. *)
Definition intsize (i : Z) : Z := intsize_loop 8 1 i.

Definition putint (i : Z) : list Z :=
  if i <? Z.shiftl 1 8 then [byte i]
  else if i <? Z.shiftl 1 16 then [byte (Z.shiftr i 8); byte i]
  else if i <? Z.shiftl 1 24 then [byte (Z.shiftr i 16); byte (Z.shiftr i 8); byte i]
  else if i <? Z.shiftl 1 32 then
    [byte (Z.shiftr i 24); byte (Z.shiftr i 16); byte (Z.shiftr i 8); byte i]
  else if i <? Z.shiftl 1 40 then
    [byte (Z.shiftr i 32); byte (Z.shiftr i 24); byte (Z.shiftr i 16); byte (Z.shiftr i 8); byte i]
  else if i <? Z.shiftl 1 48 then
    [byte (Z.shiftr i 40); byte (Z.shiftr i 32); byte (Z.shiftr i 24); byte (Z.shiftr i 16);
     byte (Z.shiftr i 8); byte i]
  else if i <? Z.shiftl 1 56 then
    [byte (Z.shiftr i 48); byte (Z.shiftr i 40); byte (Z.shiftr i 32); byte (Z.shiftr i 24);
     byte (Z.shiftr i 16); byte (Z.shiftr i 8); byte i]
  else
    [byte (Z.shiftr i 56); byte (Z.shiftr i 48); byte (Z.shiftr i 40); byte (Z.shiftr i 32);
     byte (Z.shiftr i 24); byte (Z.shiftr i 16); byte (Z.shiftr i 8); byte i].

Definition AppendUint64 (b : list Z) (i : Z) : list Z :=
  if i =? 0 then b ++ [0x80]
  else if i <? 128 then b ++ [byte i]
  else if i <? Z.shiftl 1 8 then b ++ [0x81; byte i]
  else if i <? Z.shiftl 1 16 then b ++ [0x82; byte (Z.shiftr i 8); byte i]
  else if i <? Z.shiftl 1 24 then b ++ [0x83; byte (Z.shiftr i 16); byte (Z.shiftr i 8); byte i]
  else if i <? Z.shiftl 1 32 then
    b ++ [0x84; byte (Z.shiftr i 24); byte (Z.shiftr i 16); byte (Z.shiftr i 8); byte i]
  else if i <? Z.shiftl 1 40 then
    b ++ [0x85; byte (Z.shiftr i 32); byte (Z.shiftr i 24); byte (Z.shiftr i 16); byte (Z.shiftr i 8); byte i]
  else if i <? Z.shiftl 1 48 then
    b ++ [0x86; byte (Z.shiftr i 40); byte (Z.shiftr i 32); byte (Z.shiftr i 24); byte (Z.shiftr i 16);
          byte (Z.shiftr i 8); byte i]
  else if i <? Z.shiftl 1 56 then
    b ++ [0x87; byte (Z.shiftr i 48); byte (Z.shiftr i 40); byte (Z.shiftr i 32); byte (Z.shiftr i 24);
          byte (Z.shiftr i 16); byte (Z.shiftr i 8); byte i]
  else
    b ++ [0x88; byte (Z.shiftr i 56); byte (Z.shiftr i 48); byte (Z.shiftr i 40); byte (Z.shiftr i 32);
          byte (Z.shiftr i 24); byte (Z.shiftr i 16); byte (Z.shiftr i 8); byte i].

Definition IntSize (x : Z) : Z := if x <? 0x80 then 1 else 1 + intsize x.
Definition headsize (size : Z) : Z := if size <? 56 then 1 else 1 + intsize size.
Definition ListSize (contentSize : Z) : Z := u64 (headsize contentSize + contentSize).
(** The header, as the bytes written. *)
Definition puthead (smalltag largetag size : Z) : list Z :=
  if size <? 56 then [byte (smalltag + byte size)]
  else let b := putint size in byte (largetag + byte (len b)) :: b.

(** ** Raw values *)
Definition readSize (b : list Z) (slen : Z) : rlpErr + Z :=
  if len b <? slen then inl io_ErrUnexpectedEOF
  else
    let x k := default 0 (b !! k) in
    let sh k n := Z.shiftl (x k) n in
    let s :=
      if slen =? 1 then x 0%nat
      else if slen =? 2 then Z.lor (sh 0%nat 8) (x 1%nat)
      else if slen =? 3 then Z.lor (Z.lor (sh 0%nat 16) (sh 1%nat 8)) (x 2%nat)
      else if slen =? 4 then Z.lor (Z.lor (Z.lor (sh 0%nat 24) (sh 1%nat 16)) (sh 2%nat 8)) (x 3%nat)
      else if slen =? 5 then
        Z.lor (Z.lor (Z.lor (Z.lor (sh 0%nat 32) (sh 1%nat 24)) (sh 2%nat 16)) (sh 3%nat 8)) (x 4%nat)
      else if slen =? 6 then
        Z.lor (Z.lor (Z.lor (Z.lor (Z.lor (sh 0%nat 40) (sh 1%nat 32)) (sh 2%nat 24)) (sh 3%nat 16))
          (sh 4%nat 8)) (x 5%nat)
      else if slen =? 7 then
        Z.lor (Z.lor (Z.lor (Z.lor (Z.lor (Z.lor (sh 0%nat 48) (sh 1%nat 40)) (sh 2%nat 32)) (sh 3%nat 24))
          (sh 4%nat 16)) (sh 5%nat 8)) (x 6%nat)
      else if slen =? 8 then
        Z.lor (Z.lor (Z.lor (Z.lor (Z.lor (Z.lor (Z.lor (sh 0%nat 56) (sh 1%nat 48)) (sh 2%nat 40))
          (sh 3%nat 32)) (sh 4%nat 24)) (sh 5%nat 16)) (sh 6%nat 8)) (x 7%nat)
      else 0 in
    if ((s <? 56) || (x 0%nat =? 0))%bool then inl ErrCanonSize else inr s.

(** Kind, tag size and content size of the value at the start of [buf]. *)
Definition readKind (buf : list Z) : rlpErr + (Kind * Z * Z) :=
  match buf with
  | [] => inl io_ErrUnexpectedEOF
  | b :: tl =>
      let checked k tagsize contentsize :=
        if u64 (len buf - tagsize) <? contentsize then inl ErrValueTooLarge
        else inr (k, tagsize, contentsize) in
      let long k slen :=
        match readSize tl slen with
        | inl e => inl e
        | inr contentsize => checked k (slen + 1) contentsize
        end in
      if b <? 0x80 then checked Byte 0 1
      else if b <? 0xB8 then
        if ((b - 0x80 =? 1) && match tl with c :: _ => c <? 128 | [] => false end)%bool
        then inl ErrCanonSize
        else checked String_ 1 (b - 0x80)
      else if b <? 0xC0 then long String_ (b - 0xB7)
      else if b <? 0xF8 then checked List_ 1 (b - 0xC0)
      else long List_ (b - 0xF7)
  end.

(** [b[i:j]] *)
Definition slice (b : list Z) (i j : Z) : list Z := take (Z.to_nat (j - i)) (drop (Z.to_nat i) b).

Definition Split (b : list Z) : rlpErr + (Kind * list Z * list Z) :=
  match readKind b with
  | inl e => inl e
  | inr (k, ts, cs) => inr (k, slice b ts (ts + cs), drop (Z.to_nat (ts + cs)) b)
  end.
Definition SplitString (b : list Z) : rlpErr + (list Z * list Z) :=
  match Split b with
  | inl e => inl e
  | inr (List_, _, _) => inl ErrExpectedString
  | inr (_, content, rest) => inr (content, rest)
  end.
Definition SplitUint64 (b : list Z) : rlpErr + (Z * list Z) :=
  match SplitString b with
  | inl e => inl e
  | inr (content, rest) =>
      match content with
      | [] => inr (0, rest)
      | [c] => if c =? 0 then inl ErrCanonInt else inr (c, rest)
      | _ =>
          if 8 <? len content then inl errUintOverflow
          else match readSize content (len content) with
               | inl _ => inl ErrCanonInt
               | inr x => inr (x, rest)
               end
      end
  end.
Definition SplitList (b : list Z) : rlpErr + (list Z * list Z) :=
  match Split b with
  | inl e => inl e
  | inr (List_, content, rest) => inr (content, rest)
  | inr _ => inl ErrExpectedList
  end.

(** Every value takes at least one byte. *)
Fixpoint count_loop (fuel : nat) (i : Z) (b : list Z) : rlpErr + Z :=
  match fuel, b with
  | _, [] => inr i
  | O, _ => inr i
  | S f, _ =>
      match readKind b with
      | inl e => inl e
      | inr (_, tagsize, size) => count_loop f (i + 1) (drop (Z.to_nat (tagsize + size)) b)
      end
  end.
Definition CountValues (b : list Z) : rlpErr + Z := count_loop (length b) 0 b.
(** ** The encoder's buffer; [sizebuf] is scratch space *)
Record listhead : Type := mk_listhead {
  offset : Z;                  (* index of this header in string data *)
  lh_size : Z;                 (* total size of encoded data, including list headers *)
}.
Record encBuffer : Type := mk_encBuffer {
  str : list Z;
  lheads : list listhead;
  lhsize : Z;
}.
Definition empty_buffer : encBuffer := mk_encBuffer [] [] 0.
Definition head_encode (h : listhead) : list Z := puthead 0xC0 0xF7 (lh_size h).

Definition size (buf : encBuffer) : Z := len (str buf) + lhsize buf.
Fixpoint copyTo (heads : list listhead) (s : list Z) (strpos : Z) : list Z :=
  match heads with
  | [] => drop (Z.to_nat strpos) s
  | h :: hs =>
      let before := slice s strpos (offset h) in
      before ++ head_encode h ++ copyTo hs s (strpos + len before)
  end.
(** The output slice has [size] bytes; what does not fit is not copied. *)
Definition makeBytes (buf : encBuffer) : list Z :=
  take (Z.to_nat (size buf))
    (copyTo (lheads buf) (str buf) 0 ++ replicate (Z.to_nat (size buf)) 0).
(** The chunks written to an io.Writer that takes everything. *)
Fixpoint write_loop (heads : list listhead) (s : list Z) (strpos : Z) : list (list Z) :=
  match heads with
  | [] => if strpos <? len s then [drop (Z.to_nat strpos) s] else []
  | h :: hs =>
      if 0 <? offset h - strpos
      then slice s strpos (offset h) :: head_encode h :: write_loop hs s (strpos + len (slice s strpos (offset h)))
      else head_encode h :: write_loop hs s strpos
  end.
Definition writeTo (buf : encBuffer) : list (list Z) := write_loop (lheads buf) (str buf) 0.

Definition append (b : list Z) (buf : encBuffer) : encBuffer :=
  mk_encBuffer (str buf ++ b) (lheads buf) (lhsize buf).
Definition Write (b : list Z) (buf : encBuffer) : encBuffer := append b buf.
Definition writeBool (b : bool) (buf : encBuffer) : encBuffer :=
  if b then append [0x01] buf else append [0x80] buf.
Definition writeUint64 (i : Z) (buf : encBuffer) : encBuffer :=
  if i =? 0 then append [0x80] buf
  else if i <? 128 then append [byte i] buf
  else let b := putint i in append (byte (0x80 + byte (len b)) :: b) buf.
Definition encodeStringHeader (size : Z) (buf : encBuffer) : encBuffer :=
  if size <? 56 then append [byte (0x80 + byte size)] buf
  else let b := putint size in append (byte (0xB7 + byte (len b)) :: b) buf.
Definition writeBytes (b : list Z) (buf : encBuffer) : encBuffer :=
  match b with
  | [x] => if x <=? 0x7F then append [x] buf else append b (encodeStringHeader (len b) buf)
  | _ => append b (encodeStringHeader (len b) buf)
  end.

(** The words of a big.Int, least significant first, without leading zeros. *)
Fixpoint words (fuel : nat) (i : Z) : list Z :=
  match fuel with
  | O => []
  | S f => if i =? 0 then [] else u64 i :: words f (Z.shiftr i 64)
  end.
Definition BitLen (i : Z) : Z := if i =? 0 then 0 else Z.log2 i + 1.
Definition Bits (i : Z) : list Z := words (Z.to_nat (BitLen i / 64 + 1)) i.
(** The inner loop: at most eight bytes of a word, from the end of the buffer
    towards its start; [acc] is what has been written. *)
Fixpoint put_word (j : nat) (d : Z) (index : nat) (acc : list Z) : nat * list Z :=
  match j, index with
  | S j, S index => put_word j (Z.shiftr d 8) index (byte d :: acc)
  | _, _ => (index, acc)
  end.
Definition put_words (ws : list Z) (index : nat) (acc : list Z) : nat * list Z :=
  foldl (fun '(index, acc) d => put_word 8 d index acc) (index, acc) ws.
Definition writeBigInt (i : Z) (buf : encBuffer) : encBuffer :=
  let bitlen := BitLen i in
  if bitlen <=? 64 then writeUint64 (u64 i) buf
  else
    let length := Z.shiftr (Z.land (bitlen + 7) (-8)) 3 in
    let '(index, acc) := put_words (Bits i) (Z.to_nat length) [] in
    append (replicate index 0 ++ acc) (encodeStringHeader length buf).

Definition list_ (buf : encBuffer) : nat * encBuffer :=
  (length (lheads buf),
   mk_encBuffer (str buf) (lheads buf ++ [mk_listhead (len (str buf)) (lhsize buf)]) (lhsize buf)).
(** An index out of range panics in Go; [list_] returns indexes in range. *)
Definition listEnd (index : nat) (buf : encBuffer) : encBuffer :=
  match lheads buf !! index with
  | None => buf
  | Some lh =>
      let sz := size buf - offset lh - lh_size lh in
      mk_encBuffer (str buf) (<[index := mk_listhead (offset lh) sz]> (lheads buf))
        (if sz <? 56 then lhsize buf + 1 else lhsize buf + (1 + intsize sz))
  end.

(** ** The reference encoding *)
Definition enc_string (b : list Z) : list Z :=
  match b with
  | [x] => if x <=? 0x7F then [x] else puthead 0x80 0xB7 1 ++ b
  | _ => puthead 0x80 0xB7 (len b) ++ b
  end.
Definition enc_list (content : list Z) : list Z := puthead 0xC0 0xF7 (len content) ++ content.
(** The least number of bytes of a natural number. *)
Definition nbytes (i : Z) : nat := Z.to_nat ((BitLen i + 7) / 8).
Definition enc_nat (i : Z) : list Z := enc_string (be (nbytes i) i).
End Rlp.
