(* ===== verification/RlpProps.v ===== *)
(** * RLP: properties of integers, raw values and the buffer

    The optimised routines agree with the reference encoding of Rlp.v, and
    what is encoded is read back. *)

From stdpp Require Import base list numbers strings.
From Stdlib Require Import ZArith Lia.
From S2P Require Import Prelude Bytes Rlp.

Module RlpProps.
Import Rlp.

(** ** Sizes of integers *)
Lemma pow256 n : 0 <= n -> 256 ^ n = 2 ^ (8 * n).
Proof. intros. change 256 with (2 ^ 8). by rewrite <- Z.pow_mul_r by lia. Qed.

Lemma nbytes_bounds i : 0 < i -> 1 <= Z.of_nat (nbytes i) /\ 256 ^ (Z.of_nat (nbytes i) - 1) <= i < 256 ^ Z.of_nat (nbytes i).
Proof.
  intros Hi. unfold nbytes, BitLen. destruct (Z.eqb_spec i 0); [lia|].
  pose proof (Z.log2_nonneg i) as Hl. destruct (Z.log2_spec i Hi) as [Hlo Hhi].
  replace (Z.log2 i + 1 + 7) with (Z.log2 i + 1 * 8) by lia. rewrite Z.div_add by lia.
  pose proof (Z.div_mod (Z.log2 i) 8 ltac:(lia)) as Hd. pose proof (Z.mod_pos_bound (Z.log2 i) 8 ltac:(lia)) as Hm.
  pose proof (Z.div_pos (Z.log2 i) 8 Hl ltac:(lia)).
  rewrite Z2Nat.id by lia. split; [lia|]. rewrite !pow256 by lia. split.
  - eapply Z.le_trans; [|exact Hlo]. apply Z.pow_le_mono_r; lia.
  - eapply Z.lt_le_trans; [exact Hhi|]. apply Z.pow_le_mono_r; lia.
Qed.
Lemma nbytes_unique i n : 1 <= n -> 256 ^ (n - 1) <= i < 256 ^ n -> Z.of_nat (nbytes i) = n.
Proof.
  intros Hn Hi. assert (0 < 256 ^ (n - 1)) by (apply Z.pow_pos_nonneg; lia).
  destruct (nbytes_bounds i) as [H1 H2]; [lia|]. set (m := Z.of_nat (nbytes i)) in *.
  destruct (Z.lt_trichotomy m n) as [Hlt|[->|Hlt]]; [|done|].
  - assert (256 ^ m <= 256 ^ (n - 1)) by (apply Z.pow_le_mono_r; lia). lia.
  - assert (256 ^ n <= 256 ^ (m - 1)) by (apply Z.pow_le_mono_r; lia). lia.
Qed.
Lemma nbytes_u64 i : 0 < i < 2 ^ 64 -> (1 <= nbytes i <= 8)%nat.
Proof.
  intros Hi. destruct (nbytes_bounds i) as [H1 H2]; [lia|]. split; [lia|].
  destruct (Nat.le_gt_cases (nbytes i) 8) as [|Hgt]; [done|].
  assert (256 ^ 8 <= 256 ^ (Z.of_nat (nbytes i) - 1)) by (apply Z.pow_le_mono_r; lia). lia.
Qed.
Lemma nbytes_small i : 0 < i < 256 -> nbytes i = 1%nat.
Proof. intros Hi. apply Nat2Z.inj. apply nbytes_unique; [lia|]. simpl. lia. Qed.
Lemma nbytes_large i : 256 <= i -> (2 <= nbytes i)%nat.
Proof.
  intros Hi. destruct (nbytes_bounds i) as [H1 H2]; [lia|].
  destruct (decide (nbytes i = 1%nat)) as [E|]; [|lia]. rewrite E in H2. simpl in H2. lia.
Qed.

Lemma intsize_loop_spec fuel size i n :
  0 < n -> n <= Z.of_nat fuel -> 256 ^ (n - 1) <= i < 256 ^ n -> intsize_loop fuel size i = size + n - 1.
Proof.
  revert size i n. induction fuel as [|f IH]; intros size i n Hn Hf Hi; [lia|]. simpl.
  rewrite Z.shiftr_div_pow2 by lia. change (2 ^ 8) with 256.
  destruct (decide (n = 1)) as [->|].
  - simpl in Hi. rewrite Z.div_small by lia. simpl. lia.
  - assert (Hp : 256 ^ (n - 1) = 256 * 256 ^ (n - 1 - 1)) by (rewrite <- Z.pow_succ_r by lia; f_equal; lia).
    assert (Hp' : 256 ^ n = 256 * 256 ^ (n - 1)) by (rewrite <- Z.pow_succ_r by lia; f_equal; lia).
    assert (0 < 256 ^ (n - 1 - 1)) by (apply Z.pow_pos_nonneg; lia).
    assert (256 ^ (n - 1 - 1) <= i / 256 < 256 ^ (n - 1)).
    { split; [apply Z.div_le_lower_bound; lia|apply Z.div_lt_upper_bound; lia]. }
    destruct (Z.eqb_spec (i / 256) 0); [lia|]. rewrite (IH (size + 1) (i / 256) (n - 1)); lia.
Qed.
Lemma intsize_nbytes i : 0 < i < 2 ^ 64 -> intsize i = Z.of_nat (nbytes i).
Proof.
  intros Hi. pose proof (nbytes_u64 i Hi). destruct (nbytes_bounds i) as [? ?]; [lia|].
  unfold intsize. rewrite (intsize_loop_spec _ _ _ (Z.of_nat (nbytes i))); lia.
Qed.

Ltac be_explicit := cbn [be app]; rewrite ?Z.shiftr_div_pow2, ?Z.div_div by lia; reflexivity.

Lemma putint_cases i n : 0 < i < 2 ^ 64 -> nbytes i = n -> putint i = be n i.
Proof.
  intros Hi <-. pose proof (nbytes_u64 i Hi) as Hn. destruct (nbytes_bounds i) as [_ Hb]; [lia|].
  unfold putint. change (Z.shiftl 1 8) with (2 ^ 8). change (Z.shiftl 1 16) with (2 ^ 16).
  change (Z.shiftl 1 24) with (2 ^ 24). change (Z.shiftl 1 32) with (2 ^ 32).
  change (Z.shiftl 1 40) with (2 ^ 40). change (Z.shiftl 1 48) with (2 ^ 48).
  change (Z.shiftl 1 56) with (2 ^ 56).
  destruct (nbytes i) as [|[|[|[|[|[|[|[|[|]]]]]]]]]; try lia;
    simpl Z.of_nat in Hb; rewrite !pow256 in Hb by lia; simpl (_ - _) in Hb; simpl (8 * _) in Hb;
    repeat match goal with |- context [i <? ?k] => destruct (Z.ltb_spec i k); try lia end; be_explicit.
Qed.
Lemma putint_be i : 0 < i < 2 ^ 64 -> putint i = be (nbytes i) i.
Proof. intros. by apply putint_cases. Qed.
Lemma putint_len i : 0 < i < 2 ^ 64 -> len (putint i) = Z.of_nat (nbytes i).
Proof. intros. unfold len. by rewrite putint_be, be_length by done. Qed.
(** ** Reading sizes *)
Lemma lor_add a b k : 0 <= k -> 0 <= b < 2 ^ k -> Z.lor (Z.shiftl a k) b = a * 2 ^ k + b.
Proof.
  intros Hk Hb. rewrite Z.shiftl_mul_pow2 by lia.
  assert (Hl : Z.land (a * 2 ^ k) b = 0).
  { apply Z.bits_inj'. intros n Hn. rewrite Z.land_spec, Z.bits_0.
    destruct (Z.lt_ge_cases n k); [by rewrite Z.mul_pow2_bits_low|].
    destruct (decide (b = 0)) as [->|]; [by rewrite Z.bits_0, andb_false_r|].
    assert (Z.log2 b < k) by (apply Z.log2_lt_pow2; lia).
    by rewrite (Z.bits_above_log2 b), andb_false_r by lia. }
  pose proof (Z.add_lor_land (a * 2 ^ k) b). lia.
Qed.
(** Bytes joined by [|] from the most significant on. *)
Lemma join_byte m b K k :
  is_byte b -> 0 <= k -> K = k + 8 -> Z.lor (Z.shiftl m K) (Z.shiftl b k) = Z.shiftl (m * 256 + b) k.
Proof.
  unfold is_byte. intros Hb Hk ->. rewrite lor_add.
  - rewrite !Z.shiftl_mul_pow2, Z.pow_add_r by lia. change (2 ^ 8) with 256. ring.
  - lia.
  - rewrite Z.shiftl_mul_pow2, Z.pow_add_r by lia. assert (0 < 2 ^ k) by (apply Z.pow_pos_nonneg; lia).
    change (2 ^ 8) with 256. nia.
Qed.
Lemma join_last m b : is_byte b -> Z.lor (Z.shiftl m 8) b = m * 256 + b.
Proof. intros Hb. by rewrite lor_add by (unfold is_byte in Hb; lia). Qed.

Definition read_be (b : list Z) (n : nat) : Z := unbe (take n b).

Lemma readSize_spec b n :
  bytes b -> (1 <= n <= 8)%nat -> (n <= length b)%nat ->
  readSize b (Z.of_nat n) =
    if ((read_be b n <? 56) || (default 0 (b !! 0%nat) =? 0))%bool then inl ErrCanonSize
    else inr (read_be b n).
Proof.
  intros Hb Hn Hl. unfold readSize, len.
  destruct (Z.ltb_spec (Z.of_nat (length b)) (Z.of_nat n)); [lia|]. cbv zeta.
  match goal with |- context [((?e <? 56) || _)%bool] => assert (e = read_be b n) as ->; [|done] end.
  unfold read_be.
  assert (n = 1 \/ n = 2 \/ n = 3 \/ n = 4 \/ n = 5 \/ n = 6 \/ n = 7 \/ n = 8)%nat
    as [->|[->|[->|[->|[->|[->|[->| ->]]]]]]] by lia; simpl Z.eqb; cbv iota;
    do 8 try (destruct b as [|? b]; simpl in Hl; [lia|]; apply list.Forall_cons_1 in Hb as [? Hb]);
    simpl; rewrite ?join_byte by (done || lia); rewrite ?join_last by done; reflexivity.
Qed.
Lemma read_be_app n a rest : length a = n -> read_be (a ++ rest) n = unbe a.
Proof. intros <-. unfold read_be. by rewrite take_app_length. Qed.

Lemma be_head i : 0 < i -> exists x l, be (nbytes i) i = x :: l /\ x <> 0.
Proof.
  intros Hi. destruct (nbytes_bounds i) as [H1 Hb]; [lia|].
  pose proof (be_length (nbytes i) i) as Hlen. pose proof (unbe_be (nbytes i) i ltac:(lia)) as Hu.
  destruct (be (nbytes i) i) as [|x l] eqn:E; [simpl in Hlen; lia|]. exists x, l. split; [done|]. intros ->.
  rewrite unbe_zero in Hu. pose proof (be_bytes (nbytes i) i) as Hby. rewrite E in Hby.
  apply list.Forall_cons_1 in Hby as [_ Hl]. apply unbe_bound in Hl. unfold len in Hl.
  simpl in Hlen. replace (Z.of_nat (length l)) with (Z.of_nat (nbytes i) - 1) in Hl by lia. lia.
Qed.

Lemma readSize_putint i rest :
  56 <= i < 2 ^ 64 -> bytes rest -> readSize (putint i ++ rest) (len (putint i)) = inr i.
Proof.
  intros Hi Hr. pose proof (nbytes_u64 i ltac:(lia)) as Hn.
  destruct (nbytes_bounds i) as [_ Hb]; [lia|].
  rewrite putint_len by lia. rewrite putint_be by lia.
  rewrite readSize_spec; [|by apply Forall_app_2; [apply be_bytes|]|done|rewrite length_app, be_length; lia].
  rewrite read_be_app by apply be_length. rewrite unbe_be by lia.
  destruct (Z.ltb_spec i 56); [lia|]. simpl.
  destruct (be_head i) as (x & l & -> & Hx); [lia|]. simpl. by destruct (Z.eqb_spec x 0).
Qed.

(** ** Headers *)
Lemma puthead_small st lt sz :
  0 <= sz < 56 -> 0 <= st <= 0xC0 -> puthead st lt sz = [st + sz].
Proof.
  intros Hs Ht. unfold puthead. destruct (Z.ltb_spec sz 56); [|lia].
  rewrite (byte_small sz) by (unfold is_byte; lia). rewrite byte_small by (unfold is_byte; lia). done.
Qed.
Lemma puthead_large st lt sz :
  56 <= sz < 2 ^ 64 -> 0 <= lt <= 0xF7 ->
  puthead st lt sz = (lt + len (putint sz)) :: putint sz.
Proof.
  intros Hs Ht. unfold puthead. destruct (Z.ltb_spec sz 56); [lia|].
  pose proof (nbytes_u64 sz ltac:(lia)). pose proof (putint_len sz ltac:(lia)).
  rewrite (byte_small (len _)) by (unfold is_byte; lia).
  rewrite byte_small by (unfold is_byte; lia). done.
Qed.
Lemma puthead_len st lt sz : 0 <= sz < 2 ^ 64 -> len (puthead st lt sz) = headsize sz.
Proof.
  intros Hs. unfold puthead, headsize. destruct (Z.ltb_spec sz 56); [done|].
  rewrite len_cons, putint_len, intsize_nbytes by lia. done.
Qed.
Lemma headsize_bounds sz : 0 <= sz < 2 ^ 64 -> 1 <= headsize sz <= 9.
Proof.
  intros Hs. unfold headsize. destruct (Z.ltb_spec sz 56); [lia|].
  rewrite intsize_nbytes by lia. pose proof (nbytes_u64 sz ltac:(lia)). lia.
Qed.
Lemma putint_bytes i : bytes (putint i).
Proof. unfold putint. repeat case_match; repeat constructor; apply byte_range. Qed.
Lemma puthead_bytes st lt sz : bytes (puthead st lt sz).
Proof.
  unfold puthead. case_match; [|simpl]; constructor; try apply byte_range; [done|apply putint_bytes].
Qed.

(** The encoded kinds: the tag for small and for large sizes. *)
Definition tags (k : Kind) : Z * Z := match k with List_ => (0xC0, 0xF7) | _ => (0x80, 0xB7) end.
Definition header (k : Kind) (sz : Z) : list Z := puthead (tags k).1 (tags k).2 sz.

Lemma readKind_header k content rest :
  k <> Byte -> bytes content -> bytes rest ->
  (k = String_ -> forall x, content = [x] -> 128 <= x) ->
  len (header k (len content) ++ content ++ rest) < 2 ^ 64 ->
  readKind (header k (len content) ++ content ++ rest) = inr (k, headsize (len content), len content).
Proof.
  intros Hk Hc Hr Hsingle Hlen. pose proof (len_nonneg content). pose proof (len_nonneg rest).
  assert (Hu : len content < 2 ^ 64).
  { rewrite !len_app in Hlen. pose proof (len_nonneg (header k (len content))). lia. }
  set (n := len content) in *. unfold header in *.
  assert (Hfit : forall tag l, tag <= headsize n -> 0 <= tag -> l = headsize n + n + len rest ->
    (u64 (l - tag) <? n) = false).
  { intros tag l Ht Hpos ->. rewrite !len_app, puthead_len in Hlen by lia. fold n in Hlen.
    rewrite u64_small by (unfold is_u64; lia). apply Z.ltb_ge. lia. }
  assert (Htot : len (puthead (tags k).1 (tags k).2 n ++ content ++ rest) = headsize n + n + len rest).
  { rewrite !len_app, puthead_len by lia. lia. }
  destruct (Z.lt_ge_cases n 56) as [Hsm|Hlg].
  - assert (Hh : headsize n = 1) by (unfold headsize; by destruct (Z.ltb_spec n 56); [|lia]).
    rewrite puthead_small in * by (destruct k; simpl; lia).
    cbn [app readKind]. cbn [app] in Htot. rewrite Htot, Hh.
    specialize (Hfit 1 _ ltac:(lia) ltac:(lia) eq_refl). rewrite Hh in Hfit.
    destruct k; [done| |]; cbn [tags fst snd].
    + destruct (Z.ltb_spec (128 + n) 128); [lia|]. destruct (Z.ltb_spec (128 + n) 184); [|lia].
      replace (128 + n - 128) with n by lia. rewrite Hfit.
      destruct (Z.eqb_spec n 1) as [E|]; simpl; [|done].
      assert (exists x, content = [x]) as [x ->].
      { unfold n, len in E. destruct content as [|x [|]]; simpl in E; [lia|by exists x|lia]. }
      specialize (Hsingle eq_refl x eq_refl). cbn [app]. by destruct (Z.ltb_spec x 128); [lia|].
    + destruct (Z.ltb_spec (192 + n) 128); [lia|]. destruct (Z.ltb_spec (192 + n) 184); [lia|].
      destruct (Z.ltb_spec (192 + n) 192); [lia|]. destruct (Z.ltb_spec (192 + n) 248); [|lia].
      replace (192 + n - 192) with n by lia. by rewrite Hfit.
  - assert (Hh : headsize n = len (putint n) + 1).
    { unfold headsize. destruct (Z.ltb_spec n 56); [lia|]. rewrite intsize_nbytes, putint_len by lia. lia. }
    pose proof (nbytes_u64 n ltac:(lia)). pose proof (putint_len n ltac:(lia)) as Hpl.
    rewrite puthead_large in * by (destruct k; simpl; lia).
    cbn [app readKind]. cbn [app] in Htot. rewrite Htot, Hh.
    specialize (Hfit (len (putint n) + 1) _ ltac:(lia) ltac:(lia) eq_refl). rewrite Hh in Hfit.
    pose proof (readSize_putint n (content ++ rest) ltac:(lia) ltac:(by apply Forall_app_2)) as Hrs.
    destruct k; [done| |]; cbn [tags fst snd].
    + destruct (Z.ltb_spec (183 + len (putint n)) 128); [lia|]. destruct (Z.ltb_spec (183 + len (putint n)) 184); [lia|].
      destruct (Z.ltb_spec (183 + len (putint n)) 192); [|lia].
      replace (183 + len (putint n) - 183) with (len (putint n)) by lia. by rewrite Hrs, Hfit.
    + destruct (Z.ltb_spec (247 + len (putint n)) 128); [lia|]. destruct (Z.ltb_spec (247 + len (putint n)) 184); [lia|].
      destruct (Z.ltb_spec (247 + len (putint n)) 192); [lia|]. destruct (Z.ltb_spec (247 + len (putint n)) 248); [lia|].
      replace (247 + len (putint n) - 247) with (len (putint n)) by lia. by rewrite Hrs, Hfit.
Qed.
(** ** Only canonical headers are read *)
Lemma readSize_inv b n s :
  bytes b -> (1 <= n <= 8)%nat -> readSize b (Z.of_nat n) = inr s ->
  exists tl, b = putint s ++ tl /\ len (putint s) = Z.of_nat n /\ 56 <= s < 2 ^ 64.
Proof.
  intros Hb Hn E.
  destruct (Nat.le_gt_cases n (length b)) as [Hl|Hl].
  2: { unfold readSize, len in E. destruct (Z.ltb_spec (Z.of_nat (length b)) (Z.of_nat n)); [done|lia]. }
  rewrite readSize_spec in E by done.
  destruct (Z.ltb_spec (read_be b n) 56); [done|]. simpl in E.
  destruct (Z.eqb_spec (default 0 (b !! 0%nat)) 0) as [|Hz]; [done|]. injection E as <-.
  assert (Htk : length (take n b) = n) by (rewrite length_take; lia).
  assert (Hby : bytes (take n b)) by by apply Forall_take.
  assert (Hne : forall l, take n b <> 0 :: l).
  { intros l El. destruct b as [|y b], n; try done. simpl in El. by simplify_eq. }
  unfold read_be in *. set (a := take n b) in *.
  assert (Hub : unbe a < 256 ^ Z.of_nat n) by (rewrite <- Htk; by apply unbe_bound).
  assert (Hlo : 256 ^ (Z.of_nat n - 1) <= unbe a).
  { destruct a as [|x l]; [simpl in Htk; lia|].
    replace (Z.of_nat n - 1) with (len l) by (unfold len; simpl in Htk; lia).
    apply unbe_lower; [done|]. intros ->. by apply (Hne l). }
  assert (Hnb : nbytes (unbe a) = n) by (apply Nat2Z.inj, nbytes_unique; lia).
  assert (256 ^ Z.of_nat n <= 256 ^ 8) by (apply Z.pow_le_mono_r; lia).
  exists (drop n b). split_and!.
  - rewrite putint_be, Hnb by lia. rewrite <- Htk at 1. rewrite be_unbe by done. unfold a. by rewrite take_drop.
  - rewrite putint_len by lia. lia.
  - lia.
  - lia.
Qed.

Lemma split_at (n : Z) (l : list Z) :
  0 <= n <= len l -> exists a c, l = a ++ c /\ len a = n.
Proof.
  intros Hn. exists (take (Z.to_nat n) l), (drop (Z.to_nat n) l). rewrite take_drop. split; [done|].
  unfold len in *. rewrite length_take. lia.
Qed.

Lemma readKind_inv b k ts cs :
  bytes b -> len b < 2 ^ 64 -> readKind b = inr (k, ts, cs) ->
  (k = Byte /\ ts = 0 /\ cs = 1 /\ exists x rest, b = x :: rest /\ 0 <= x < 128)
  \/ (k <> Byte /\ exists content rest, b = header k (len content) ++ content ++ rest
      /\ ts = headsize (len content) /\ cs = len content
      /\ (k = String_ -> forall x, content = [x] -> 128 <= x)).
Proof.
  intros Hb Hlen. destruct b as [|x tl]; [done|]. apply list.Forall_cons_1 in Hb as [Hx Htl].
  unfold is_byte in Hx. rewrite len_cons in Hlen. pose proof (len_nonneg tl).
  unfold readKind. rewrite len_cons. intros E.
  assert (Hsmall : forall kk st sz, (tags kk).1 = st -> kk <> Byte -> x = st + sz -> 0 <= sz < 56 -> 0 <= st <= 0xC0 ->
    (if u64 (1 + len tl - 1) <? sz then inl ErrValueTooLarge else inr (kk, 1, sz)) = inr (k, ts, cs) ->
    (kk = String_ -> sz = 1 -> match tl with c :: _ => 128 <= c | [] => True end) ->
    k <> Byte /\ exists content rest, x :: tl = header k (len content) ++ content ++ rest
      /\ ts = headsize (len content) /\ cs = len content
      /\ (k = String_ -> forall x, content = [x] -> 128 <= x)).
  { intros kk st sz Hst Hkk -> Hsz Hst' Hu Hcan. rewrite u64_small in Hu by (unfold is_u64; lia).
    destruct (Z.ltb_spec (1 + len tl - 1) sz); [done|]. injection Hu as <- <- <-. split; [done|].
    destruct (split_at sz tl) as (a & c & -> & Ha); [lia|]. exists a, c. rewrite Ha. unfold header.
    rewrite puthead_small by lia. rewrite Hst. split_and!; [done| |done|].
    - unfold headsize. by destruct (Z.ltb_spec sz 56); [|lia].
    - intros Hs y ->. apply Hcan; [done|]. by rewrite <- Ha. }
  assert (Hlarge : forall kk slen, kk <> Byte -> x = (tags kk).2 + slen -> 1 <= slen <= 8 ->
    match readSize tl slen with
    | inl e => inl e
    | inr c => if u64 (1 + len tl - (slen + 1)) <? c then inl ErrValueTooLarge else inr (kk, slen + 1, c)
    end = inr (k, ts, cs) ->
    k <> Byte /\ exists content rest, x :: tl = header k (len content) ++ content ++ rest
      /\ ts = headsize (len content) /\ cs = len content
      /\ (k = String_ -> forall x, content = [x] -> 128 <= x)).
  { intros kk slen Hkk -> Hsl Hu. destruct (readSize tl slen) as [|sz] eqn:Er; [done|].
    rewrite <- (Z2Nat.id slen) in Er by lia.
    apply readSize_inv in Er as (tl' & -> & Hpl & Hsz); [|done|lia]. rewrite Z2Nat.id in Hpl by lia.
    rewrite len_app in *. pose proof (len_nonneg tl').
    rewrite u64_small in Hu by (unfold is_u64; lia).
    destruct (Z.ltb_spec (1 + (len (putint sz) + len tl') - (slen + 1)) sz); [done|].
    injection Hu as <- <- <-. split; [done|].
    destruct (split_at sz tl') as (a & c & -> & Ha); [lia|]. exists a, c. rewrite Ha. unfold header.
    rewrite puthead_large by (destruct kk; simpl in *; lia). rewrite Hpl. split_and!; [done| |done|].
    - unfold headsize. destruct (Z.ltb_spec sz 56); [lia|]. rewrite intsize_nbytes, <- putint_len by lia. lia.
    - intros Hs y ->. change (len [y]) with 1 in Ha. lia. }
  destruct (Z.ltb_spec x 128).
  { left. destruct (_ <? 1); [done|]. injection E as <- <- <-. split_and!; [done..|]. exists x, tl. split; [done|lia]. }
  right. destruct (Z.ltb_spec x 184).
  { destruct (Z.eqb_spec (x - 128) 1) as [E1|]; simpl in E.
    - destruct tl as [|c tl]; [|destruct (Z.ltb_spec c 128); [done|]];
        (apply (Hsmall String_ 128 (x - 128)); [done..|lia|lia|lia|exact E|done]).
    - apply (Hsmall String_ 128 (x - 128)); [done..|lia|lia|lia|exact E|done]. }
  destruct (Z.ltb_spec x 192); [apply (Hlarge String_ (x - 183)); simpl; [done|lia|lia|exact E]|].
  destruct (Z.ltb_spec x 248); [apply (Hsmall List_ 192 (x - 192)); [done..|lia|lia|lia|exact E|done]|].
  apply (Hlarge List_ (x - 247)); simpl; [done|lia|lia|exact E].
Qed.
(** ** Splitting *)
Lemma enc_string_header c :
  (forall x, c = [x] -> 128 <= x) -> enc_string c = header String_ (len c) ++ c.
Proof.
  intros Hc. destruct c as [|x [|y c]]; try done. specialize (Hc x eq_refl). simpl.
  by destruct (Z.leb_spec x 127); [lia|].
Qed.
Lemma slice_app a c rest n m :
  len a = n -> len a + len c = m -> slice (a ++ c ++ rest) n m = c.
Proof.
  intros Ha Hc. unfold slice. rewrite (drop_app_length' a) by (unfold len in *; lia).
  apply take_app_length'. unfold len in *. lia.
Qed.
Lemma drop_app_len (a rest : list Z) n : len a = n -> drop (Z.to_nat n) (a ++ rest) = rest.
Proof. intros Ha. apply drop_app_length'. unfold len in *. lia. Qed.

(** What the three kinds of values look like. *)
Definition is_value (k : Kind) (c enc : list Z) : Prop :=
  match k with
  | Byte => exists x, c = [x] /\ 0 <= x < 128 /\ enc = [x]
  | String_ => (forall x, c = [x] -> 128 <= x) /\ enc = enc_string c
  | List_ => enc = enc_list c
  end.
Lemma is_value_header k c enc : k <> Byte ->
  is_value k c enc <-> (k = String_ -> forall x, c = [x] -> 128 <= x) /\ enc = header k (len c) ++ c.
Proof.
  intros Hk. destruct k; [done| |]; simpl.
  - split; intros [Hc ->]; (split; [auto|]); [by apply enc_string_header|].
    symmetry. apply enc_string_header. auto.
  - naive_solver.
Qed.

(** The values at the start of a byte slice that [Split] accepts are exactly
    the canonical encodings. *)
Lemma split_exact b k c rest :
  bytes b -> len b < 2 ^ 64 ->
  Split b = inr (k, c, rest) <-> exists enc, is_value k c enc /\ b = enc ++ rest.
Proof.
  intros Hb Hl. unfold Split. split.
  - destruct (readKind b) as [e|[[k' ts] cs]] eqn:E; [done|]. intros [= -> <- <-].
    destruct (readKind_inv _ _ _ _ Hb Hl E) as [(-> & -> & -> & x & r & -> & Hx)|(Hk & c & r & -> & -> & -> & Hc)].
    + exists [x]. split; [by exists x|done].
    + assert (Hu : len c < 2 ^ 64).
      { rewrite !len_app in Hl. pose proof (len_nonneg (header k (len c))). pose proof (len_nonneg r). lia. }
      pose proof (len_nonneg c). assert (Hhl : len (header k (len c)) = headsize (len c)) by (apply puthead_len; lia).
      exists (header k (len c) ++ c). rewrite slice_app by lia. split.
      * by apply is_value_header.
      * rewrite app_assoc. by rewrite drop_app_len by (rewrite len_app; lia).
  - intros (enc & Hv & ->). destruct (decide (k = Byte)) as [->|Hk].
    + destruct Hv as (x & -> & Hx & ->). cbn [app readKind] in *. rewrite len_cons in *.
      pose proof (len_nonneg rest).
      destruct (Z.ltb_spec x 128); [|lia]. rewrite u64_small by (unfold is_u64; lia).
      destruct (Z.ltb_spec (1 + len rest - 0) 1); [lia|done].
    + apply is_value_header in Hv as [Hc ->]; [|done]. rewrite <- app_assoc in *.
      apply Forall_app in Hb as [_ [Hbc Hbr]%Forall_app].
      rewrite readKind_header by done.
      assert (Hu : len c < 2 ^ 64).
      { rewrite !len_app in Hl. pose proof (len_nonneg (header k (len c))). pose proof (len_nonneg rest). lia. }
      pose proof (len_nonneg c). assert (Hhl : len (header k (len c)) = headsize (len c)) by (apply puthead_len; lia).
      rewrite slice_app by lia. rewrite app_assoc. by rewrite drop_app_len by (rewrite len_app; lia).
Qed.

(** ** Integers *)
Lemma enc_nat_cases i :
  0 <= i < 2 ^ 64 ->
  enc_nat i = if i =? 0 then [0x80] else if i <? 128 then [i] else (0x80 + Z.of_nat (nbytes i)) :: be (nbytes i) i.
Proof.
  intros Hi. unfold enc_nat. destruct (Z.eqb_spec i 0) as [->|]; [done|].
  destruct (Z.ltb_spec i 128).
  - rewrite nbytes_small by lia. cbn [be app]. rewrite byte_small by (unfold is_byte; lia).
    simpl. by destruct (Z.leb_spec i 127); [|lia].
  - pose proof (nbytes_u64 i ltac:(lia)) as Hn. pose proof (be_length (nbytes i) i) as Hl.
    rewrite enc_string_header.
    + unfold header, len. rewrite Hl. cbn [tags fst snd]. by rewrite puthead_small by lia.
    + intros x E. rewrite E in Hl. simpl in Hl. rewrite <- Hl in E. cbn [be app] in E. injection E as <-.
      destruct (nbytes_bounds i) as [_ Hb]; [lia|]. rewrite <- Hl in Hb. simpl in Hb.
      rewrite byte_small by (unfold is_byte; lia). lia.
Qed.

Lemma writeUint64_enc i buf : 0 <= i < 2 ^ 64 -> writeUint64 i buf = append (enc_nat i) buf.
Proof.
  intros Hi. rewrite enc_nat_cases by done. unfold writeUint64.
  destruct (Z.eqb_spec i 0); [done|]. destruct (Z.ltb_spec i 128).
  - by rewrite byte_small by (unfold is_byte; lia).
  - pose proof (nbytes_u64 i ltac:(lia)). rewrite putint_len, putint_be by lia.
    rewrite (byte_small (Z.of_nat _)) by (unfold is_byte; lia).
    by rewrite byte_small by (unfold is_byte; lia).
Qed.
Lemma AppendUint64_enc b i : 0 <= i < 2 ^ 64 -> AppendUint64 b i = b ++ enc_nat i.
Proof.
  intros Hi. rewrite enc_nat_cases by done. unfold AppendUint64.
  destruct (Z.eqb_spec i 0); [done|]. destruct (Z.ltb_spec i 128).
  { by rewrite byte_small by (unfold is_byte; lia). }
  pose proof (putint_len i ltac:(lia)) as Hl. rewrite <- putint_be, <- Hl by lia.
  unfold putint. repeat case_match; done.
Qed.
Lemma IntSize_enc i : 0 <= i < 2 ^ 64 -> IntSize i = len (enc_nat i).
Proof.
  intros Hi. rewrite enc_nat_cases by done. unfold IntSize.
  destruct (Z.eqb_spec i 0) as [->|]; [done|]. destruct (Z.ltb_spec i 128); [done|].
  rewrite len_cons, intsize_nbytes by lia. unfold len. rewrite be_length. lia.
Qed.

Lemma enc_string_bytes_inv c rest : bytes (enc_string c ++ rest) -> bytes c /\ bytes rest.
Proof.
  intros [Hb ?]%Forall_app. split; [|done].
  destruct c as [|x [|y c]]; [done| |unfold enc_string in Hb; by apply Forall_app in Hb as [_ ?]].
  cbn [enc_string] in Hb. destruct (x <=? 127); [done|by apply Forall_app in Hb as [_ ?]].
Qed.

Lemma SplitString_exact b c rest :
  bytes b -> len b < 2 ^ 64 -> SplitString b = inr (c, rest) <-> b = enc_string c ++ rest.
Proof.
  intros Hb Hl. unfold SplitString. split.
  - destruct (Split b) as [e|[[k c'] r]] eqn:E; [done|]. apply split_exact in E as (enc & Hv & ->); [|done..].
    destruct k; intros [= <- <-].
    + destruct Hv as (x & -> & Hx & ->). simpl. by destruct (Z.leb_spec x 127); [|lia].
    + by destruct Hv as [_ ->].
  - intros ->.
    assert (exists k, k <> List_ /\ Split (enc_string c ++ rest) = inr (k, c, rest)) as (k & Hk & ->); [|by destruct k].
    assert (Hdec : (exists x, c = [x] /\ x < 128) \/ forall x, c = [x] -> 128 <= x).
    { destruct c as [|x [|]]; [by right| |by right]. destruct (Z.lt_ge_cases x 128); [left; eauto|right; naive_solver]. }
    destruct Hdec as [(x & -> & Hx)|Hc].
    + exists Byte. split; [done|]. apply split_exact; [done..|]. exists [x].
      destruct (enc_string_bytes_inv _ _ Hb) as [[[? _] _]%list.Forall_cons_1 _].
      split; [by exists x|]. simpl. by destruct (Z.leb_spec x 127); [|lia].
    + exists String_. split; [done|]. apply split_exact; [done..|]. by eexists.
Qed.

Lemma be_nbytes_unbe c :
  bytes c -> (forall l, c <> 0 :: l) -> be (nbytes (unbe c)) (unbe c) = c.
Proof.
  intros Hc Hz. destruct c as [|x l]; [done|]. assert (x <> 0) by (intros ->; by apply (Hz l)).
  assert (nbytes (unbe (x :: l)) = length (x :: l)) as ->; [|by apply be_unbe].
  apply Nat2Z.inj, nbytes_unique; [simpl; lia|].
  pose proof (unbe_lower x l Hc ltac:(done)). pose proof (unbe_bound _ Hc). unfold len in *.
  cbn [length] in *. replace (Z.of_nat (S (length l)) - 1) with (Z.of_nat (length l)) by lia. lia.
Qed.

(** An integer is read from exactly its canonical encoding, the one that
    [AppendUint64] writes. *)
Lemma uint64_exact b x rest :
  bytes b -> len b < 2 ^ 64 ->
  SplitUint64 b = inr (x, rest) <-> 0 <= x < 2 ^ 64 /\ b = AppendUint64 [] x ++ rest.
Proof.
  intros Hb Hl. unfold SplitUint64. split.
  - destruct (SplitString b) as [e|[c r]] eqn:E; [done|]. apply SplitString_exact in E as ->; [|done..].
    destruct (enc_string_bytes_inv _ _ Hb) as [Hc _].
    assert (Hok : 0 <= unbe c < 2 ^ 64 -> (forall l, c <> 0 :: l) ->
      0 <= unbe c < 2 ^ 64 /\ enc_string c ++ r = AppendUint64 [] (unbe c) ++ r).
    { intros Hu Hz. split; [done|]. rewrite AppendUint64_enc by done. unfold enc_nat.
      by rewrite be_nbytes_unbe. }
    destruct c as [|y [|z c]].
    + intros [= <- <-]. by apply Hok.
    + destruct (Z.eqb_spec y 0) as [|Hy]; [done|]. intros [= <- <-].
      apply list.Forall_cons_1 in Hc as [Hy' _]. unfold is_byte in Hy'. apply Hok; [unfold unbe; simpl; lia|naive_solver].
    + set (w := y :: z :: c) in *. destruct (Z.ltb_spec 8 (len w)); [done|].
      destruct (readSize w (len w)) as [|s] eqn:Es; [done|]. intros [= <- <-].
      assert (Hw : len w = Z.of_nat (length w)) by done. rewrite Hw in *.
      destruct (readSize_inv w (length w) s Hc) as (tl & Ew & Hpl & Hs); [unfold w in *; simpl in *; lia|done|].
      assert (tl = []) as ->.
      { apply (f_equal len) in Ew. rewrite len_app, Hpl, Hw in Ew. destruct tl; [done|].
        rewrite len_cons in Ew. pose proof (len_nonneg tl). lia. }
      rewrite app_nil_r in Ew. split; [lia|]. rewrite AppendUint64_enc by lia. unfold enc_nat.
      by rewrite <- putint_be, Ew by lia.
  - intros [Hx ->]. rewrite AppendUint64_enc in * by done. cbn [app] in *. unfold enc_nat in *.
    rewrite (proj2 (SplitString_exact _ (be (nbytes x) x) rest Hb Hl) eq_refl).
    destruct (decide (x = 0)) as [->|]; [done|].
    pose proof (nbytes_u64 x ltac:(lia)) as Hn. pose proof (be_length (nbytes x) x) as Hlen.
    destruct (Z.lt_ge_cases x 256).
    + rewrite nbytes_small by lia. cbn [be app]. rewrite byte_small by (unfold is_byte; lia).
      by destruct (Z.eqb_spec x 0).
    + pose proof (nbytes_large x ltac:(lia)). rewrite <- putint_be in * by lia.
      destruct (putint x) as [|y [|z c]] eqn:Ep; simpl in Hlen; [lia|lia|]. rewrite <- Ep in *.
      pose proof (putint_len x ltac:(lia)) as Hpl.
      destruct (Z.ltb_spec 8 (len (putint x))); [lia|].
      pose proof (readSize_putint x [] ltac:(lia) ltac:(done)) as Hr. rewrite app_nil_r in Hr. by rewrite Hr.
Qed.
(** ** Counting *)
Lemma is_value_len k c enc : is_value k c enc -> len enc < 2 ^ 64 -> 1 <= len enc.
Proof.
  destruct (decide (k = Byte)) as [->|Hk]; [intros (x & _ & _ & ->) _; done|].
  intros [_ ->]%is_value_header Hl; [|done]. rewrite len_app in *. pose proof (len_nonneg c).
  pose proof (len_nonneg (header k (len c))). assert (Hc : len c < 2 ^ 64) by lia.
  unfold header. rewrite puthead_len by lia. pose proof (headsize_bounds (len c) ltac:(lia)). lia.
Qed.

Lemma count_loop_exact fuel i b n :
  bytes b -> len b < 2 ^ 64 -> (length b <= fuel)%nat ->
  count_loop fuel i b = inr n <->
  exists encs, Forall (fun e => exists k c, is_value k c e) encs /\ b = concat encs /\ n = i + len encs.
Proof.
  revert i b. induction fuel as [|f IH]; intros i b Hb Hl Hf.
  { destruct b; [|simpl in Hf; lia]. simpl. split; [intros [= <-]; exists []; split_and!; [done|done|]|].
    - rewrite len_nil. lia.
    - intros (encs & Hv & Hc & ->). f_equal. destruct encs as [|e encs]; [by rewrite len_nil, Z.add_0_r|].
      apply list.Forall_cons_1 in Hv as [(k & c & Hv) _]. destruct e; [|done].
      apply is_value_len in Hv; [unfold len in Hv; simpl in Hv; lia|done]. }
  assert (Hnil : forall encs, Forall (fun e => exists k c, is_value k c e) encs -> concat encs = [] -> encs = []).
  { intros [|e encs]; [done|]. intros [(k & c & Hv) _]%list.Forall_cons_1 [-> _]%app_nil.
    apply is_value_len in Hv; [unfold len in Hv; simpl in Hv; lia|done]. }
  destruct b as [|x b].
  { simpl. split; [intros [= <-]; exists []; rewrite len_nil; split_and!; [done|done|lia]|].
    intros (encs & Hv & Hc & ->). rewrite (Hnil encs Hv (eq_sym Hc)), len_nil. f_equal. lia. }
  set (w := x :: b) in *. change (count_loop (S f) i w) with
    (match readKind w with inl e => inl e
     | inr (_, ts, cs) => count_loop f (i + 1) (drop (Z.to_nat (ts + cs)) w) end).
  assert (Hsplit : forall k ts cs, readKind w = inr (k, ts, cs) ->
    exists c enc rest, is_value k c enc /\ w = enc ++ rest /\ drop (Z.to_nat (ts + cs)) w = rest).
  { intros k ts cs E. assert (Es : Split w = inr (k, slice w ts (ts + cs), drop (Z.to_nat (ts + cs)) w))
      by (unfold Split; by rewrite E).
    apply split_exact in Es as (enc & Hv & Hw); [|done..]. eauto 10. }
  split.
  - destruct (readKind w) as [e|[[k ts] cs]] eqn:E; [done|].
    destruct (Hsplit _ _ _ eq_refl) as (c & enc & rest & Hv & Hw & ->). rewrite Hw in Hb, Hl, Hf.
    apply Forall_app in Hb as [_ Hbr]. rewrite len_app in Hl. pose proof (len_nonneg rest).
    pose proof (is_value_len _ _ _ Hv ltac:(lia)) as He. rewrite length_app in Hf. pose proof He as He'. unfold len in He'.
    intros (encs & Hvs & -> & ->)%IH; [|done|lia|lia]. exists (enc :: encs). rewrite Hw, len_cons.
    split_and!; [constructor; eauto|done|lia].
  - intros (encs & Hvs & Hw & ->). destruct encs as [|enc encs]; [done|].
    apply list.Forall_cons_1 in Hvs as [(k & c & Hv) Hvs]. cbn [concat] in Hw.
    assert (Es : Split w = inr (k, c, concat encs)) by (apply split_exact; eauto).
    unfold Split in Es. destruct (readKind w) as [e|[[k' ts] cs]] eqn:E; [done|]. injection Es as -> _ ->.
    rewrite Hw in Hb, Hl, Hf. apply Forall_app in Hb as [_ Hbr]. rewrite len_app in Hl.
    pose proof (len_nonneg (concat encs)). pose proof (is_value_len _ _ _ Hv ltac:(lia)) as He.
    rewrite length_app in Hf. pose proof He as He'. unfold len in He'.
    apply IH; [done|lia|lia|]. exists encs. rewrite len_cons. split_and!; [done..|lia].
Qed.

(** [CountValues] returns on every input: the number of values when the input
    is a sequence of canonical encodings, and an error otherwise. *)
Lemma count_exact b n :
  bytes b -> len b < 2 ^ 64 ->
  CountValues b = inr n <->
  exists encs, Forall (fun e => exists k c, is_value k c e) encs /\ b = concat encs /\ n = len encs.
Proof. intros Hb Hl. unfold CountValues. by rewrite count_loop_exact. Qed.
(** The functions on raw bytes accept exactly the canonical encodings: of a
    value, of a 64-bit integer, and of a sequence of values, which they
    count. *)
Theorem raw_exact b :
  bytes b -> len b < 2 ^ 64 ->
  (forall k c rest, Split b = inr (k, c, rest) <-> exists enc, is_value k c enc /\ b = enc ++ rest)
  /\ (forall x rest, SplitUint64 b = inr (x, rest) <-> 0 <= x < 2 ^ 64 /\ b = AppendUint64 [] x ++ rest)
  /\ (forall n, CountValues b = inr n <->
       exists encs, Forall (fun e => exists k c, is_value k c e) encs /\ b = concat encs /\ n = len encs).
Proof. intros Hb Hl. split_and!; intros; [by apply split_exact|by apply uint64_exact|by apply count_exact]. Qed.
Lemma raw_exact_witness :
  bytes [0x82; 0x04; 0x00; 0xC0] /\ SplitUint64 [0x82; 0x04; 0x00; 0xC0] = inr (1024, [0xC0])
  /\ CountValues [0x82; 0x04; 0x00; 0xC0] = inr 2.
Proof.
  assert (Hb : bytes [0x82; 0x04; 0x00; 0xC0]) by (repeat constructor; unfold is_byte; lia).
  destruct (raw_exact [0x82; 0x04; 0x00; 0xC0] Hb ltac:(reflexivity)) as (_ & Hu & Hc). split; [done|]. split.
  - apply Hu. split; [lia|vm_compute; reflexivity].
  - apply Hc. exists [[0x82; 0x04; 0x00]; [0xC0]]. split; [|done]. constructor; [|constructor; [|constructor]].
    + exists String_, [4; 0]. done.
    + exists List_, []. done.
Defined.
End RlpProps.
