(* ===== verification/RlpBuffer.v ===== *)
(** * RLP: the buffer refines the recursive encoding

    [writes w w' out] says that the buffer operations between [w] and [w']
    have added a part whose bytes, once the list headers are merged in, are
    [out].  Parts compose, and a finished buffer yields its part. *)

From stdpp Require Import base list numbers strings.
From Stdlib Require Import ZArith Lia.
From S2P Require Import Prelude Bytes Rlp RlpProps.

Module RlpBuffer.
Import Rlp RlpProps.

(** The string data from position [base] on, with the headers merged in. *)
Fixpoint render (base : Z) (hs : list listhead) (s : list Z) : list Z :=
  match hs with
  | [] => s
  | h :: hs =>
      take (Z.to_nat (offset h - base)) s ++ head_encode h
      ++ render (offset h) hs (drop (Z.to_nat (offset h - base)) s)
  end.
(** The headers are in order and lie between [a] and [b]. *)
Fixpoint spans (a : Z) (hs : list listhead) (b : Z) : Prop :=
  match hs with
  | [] => a <= b
  | h :: hs => a <= offset h /\ spans (offset h) hs b
  end.

Lemma spans_le a hs b : spans a hs b -> a <= b.
Proof. revert a. induction hs as [|h hs IH]; intros a; simpl; [done|]. intros [? ?%IH]. lia. Qed.
Lemma spans_app a hs b hs' c : spans a hs b -> spans b hs' c -> spans a (hs ++ hs') c.
Proof.
  revert a. induction hs as [|h hs IH]; intros a; simpl.
  - intros Hab Hs. destruct hs' as [|h' hs']; simpl in *; [lia|]. destruct Hs. split; [lia|done].
  - intros [? ?] ?. split; [done|]. by apply IH.
Qed.

Lemma render_nil_prefix base s hs s' :
  (forall b, spans (base + len s) hs b -> render base hs (s ++ s') = s ++ render (base + len s) hs s').
Proof.
  intros b Hs. destruct hs as [|h hs]; [done|]. simpl in *. destruct Hs as [Hle _].
  pose proof (len_nonneg s). unfold len in *.
  replace (Z.to_nat (offset h - base)) with (length s + Z.to_nat (offset h - (base + Z.of_nat (length s))))%nat by lia.
  by rewrite take_app_add, drop_app_add, <- app_assoc.
Qed.

Lemma render_app base hs s hs' s' b :
  spans base hs (base + len s) -> spans (base + len s) hs' b ->
  render base (hs ++ hs') (s ++ s') = render base hs s ++ render (base + len s) hs' s'.
Proof.
  revert base s. induction hs as [|h hs IH]; intros base s Hs Hs'; simpl.
  { by eapply render_nil_prefix. }
  destruct Hs as [Hle Hs]. pose proof (spans_le _ _ _ Hs) as Hle'. pose proof (len_nonneg s).
  set (n := Z.to_nat (offset h - base)). assert (Hn : (n <= length s)%nat) by (unfold len in *; lia).
  rewrite take_app_le, drop_app_le by done.
  assert (Hd : offset h + len (drop n s) = base + len s).
  { unfold len. rewrite length_drop. unfold len in *. lia. }
  rewrite IH; rewrite ?Hd; [by rewrite <- !app_assoc|done|done].
Qed.

Record writes (w w' : encBuffer) (out : list Z) : Prop := {
  wr_part : exists s hs,
    str w' = str w ++ s /\ lheads w' = lheads w ++ hs
    /\ spans (len (str w)) hs (len (str w) + len s)
    /\ render (len (str w)) hs s = out
    /\ lhsize w' = lhsize w + len out - len s
}.

Lemma writes_append w b : writes w (append b w) b.
Proof.
  split. exists b, []. simpl. rewrite app_nil_r. pose proof (len_nonneg b). split_and!; [done..|lia|done|lia].
Qed.
Lemma writes_refl w : writes w w [].
Proof. split. exists [], []. rewrite !app_nil_r, len_nil. simpl. split_and!; [done..|lia|done|lia]. Qed.
Lemma writes_trans w1 w2 w3 o1 o2 : writes w1 w2 o1 -> writes w2 w3 o2 -> writes w1 w3 (o1 ++ o2).
Proof.
  intros [(s1 & hs1 & E1 & L1 & S1 & R1 & Z1)] [(s2 & hs2 & E2 & L2 & S2 & R2 & Z2)].
  split. exists (s1 ++ s2), (hs1 ++ hs2). rewrite E1, len_app in S2, R2. rewrite E2, E1, L2, L1, !app_assoc, !len_app.
  split_and!; [done|done| | |lia].
  - eapply spans_app; [done|]. by rewrite Z.add_assoc.
  - erewrite render_app by done. by rewrite R1, R2.
Qed.

(** A list around a part. *)
Lemma writes_list w w' content :
  len content < 2 ^ 64 ->
  writes (list_ w).2 w' content -> writes w (listEnd (list_ w).1 w') (enc_list content).
Proof.
  intros Hc [(s & hs & E & L & S & R & Z_)]. simpl in *.
  assert (Hl : lheads w' !! length (lheads w) = Some (mk_listhead (len (str w)) (lhsize w))).
  { rewrite L, <- app_assoc. apply list_lookup_middle. done. }
  unfold listEnd. rewrite Hl. simpl.
  assert (Hsz : size w' - len (str w) - lhsize w = len content).
  { unfold size. rewrite E, len_app. lia. }
  rewrite Hsz. split. exists s, (mk_listhead (len (str w)) (len content) :: hs). simpl.
  rewrite E, L, Z.sub_diag. split_and!; [done| |lia|done| |].
  - rewrite <- app_assoc. rewrite insert_app_r_alt by lia. by rewrite Nat.sub_diag.
  - simpl. unfold enc_list, head_encode. simpl. change (drop (Z.to_nat 0) s) with s. by rewrite R.
  - unfold enc_list. pose proof (len_nonneg content). rewrite len_app, puthead_len by lia. unfold headsize.
    destruct (len content <? 56); lia.
Qed.

(** The bytes of a finished buffer. *)
Lemma copyTo_render hs s strpos :
  0 <= strpos <= len s -> spans strpos hs (len s) ->
  copyTo hs s strpos = render strpos hs (drop (Z.to_nat strpos) s).
Proof.
  revert strpos. induction hs as [|h hs IH]; intros strpos Hp Hs; [done|]. simpl. destruct Hs as [Hle Hs].
  pose proof (spans_le _ _ _ Hs).
  assert (Hb : len (slice s strpos (offset h)) = offset h - strpos).
  { unfold slice, len in *. rewrite length_take, length_drop. lia. }
  rewrite Hb. replace (strpos + (offset h - strpos)) with (offset h) by lia.
  rewrite IH by (done || lia). unfold slice. rewrite drop_drop. do 3 f_equal. f_equal. lia.
Qed.
Lemma concat_write_loop hs s strpos :
  0 <= strpos <= len s -> spans strpos hs (len s) -> concat (write_loop hs s strpos) = copyTo hs s strpos.
Proof.
  revert strpos. induction hs as [|h hs IH]; intros strpos Hp Hs; simpl.
  { destruct (Z.ltb_spec strpos (len s)); simpl; [by rewrite app_nil_r|].
    rewrite drop_ge; [done|]. unfold len in *. lia. }
  destruct Hs as [Hle Hs]. pose proof (spans_le _ _ _ Hs).
  assert (Hb : len (slice s strpos (offset h)) = offset h - strpos).
  { unfold slice, len in *. rewrite length_take, length_drop. lia. }
  destruct (Z.ltb_spec 0 (offset h - strpos)); simpl.
  - rewrite Hb. rewrite IH; [done|lia|]. by replace (strpos + (offset h - strpos)) with (offset h) by lia.
  - assert (Hz : offset h = strpos) by lia. rewrite Hz in *. rewrite IH by done.
    assert (slice s strpos strpos = []) as -> by (unfold slice; by rewrite Z.sub_diag).
    rewrite len_nil. by replace (strpos + 0) with strpos by lia.
Qed.

Lemma writes_makeBytes w out : writes empty_buffer w out -> makeBytes w = out /\ concat (writeTo w) = out /\ size w = len out.
Proof.
  intros [(s & hs & E & L & S & R & Z_)]. simpl in *. rewrite len_nil in *. subst s hs.
  assert (Hsz : size w = len out) by (unfold size; lia).
  assert (Hc : copyTo (lheads w) (str w) 0 = out).
  { rewrite copyTo_render; [exact R|split; [lia|apply len_nonneg]|exact S]. }
  split_and!; [|unfold writeTo; rewrite concat_write_loop; [done|split; [lia|apply len_nonneg]|exact S]|done].
  unfold makeBytes. rewrite Hc, Hsz. unfold len. rewrite Nat2Z.id. apply take_app_length.
Qed.
(** ** Strings and integers *)
Lemma encodeStringHeader_append n w : encodeStringHeader n w = append (puthead 0x80 0xB7 n) w.
Proof. unfold encodeStringHeader, puthead. by destruct (n <? 56). Qed.
Lemma append_append a b w : append b (append a w) = append (a ++ b) w.
Proof. unfold append. simpl. by rewrite app_assoc. Qed.
Lemma writeBytes_enc b w : writeBytes b w = append (enc_string b) w.
Proof.
  destruct b as [|x [|y b]]; cbn [writeBytes enc_string]; [by rewrite encodeStringHeader_append, append_append| |].
  - destruct (x <=? 127); [done|]. by rewrite encodeStringHeader_append, append_append.
  - by rewrite encodeStringHeader_append, append_append.
Qed.
Lemma writeBool_enc b w : writeBool b w = append (enc_nat (if b then 1 else 0)) w.
Proof. by destruct b. Qed.

Lemma be_app a b z : 0 <= z -> be (a + b) z = be a (z / 256 ^ Z.of_nat b) ++ be b z.
Proof.
  revert z. induction b as [|b IH]; intros z Hz.
  { rewrite Nat.add_0_r, app_nil_r. by rewrite Z.div_1_r. }
  rewrite Nat.add_succ_r. cbn [be]. rewrite IH by (apply Z.div_pos; lia).
  rewrite Nat2Z.inj_succ, Z.pow_succ_r, <- app_assoc, Z.div_div by lia. done.
Qed.
Lemma be_mod n z : be n (z mod 256 ^ Z.of_nat n) = be n z.
Proof.
  revert z. induction n as [|n IH]; intros z; [done|]. cbn [be]. f_equal.
  - rewrite <- (IH (z / 256)). f_equal. rewrite Nat2Z.inj_succ, Z.pow_succ_r by lia.
    pose proof (Z.pow_pos_nonneg 256 (Z.of_nat n)).
    rewrite Z.rem_mul_r by lia. rewrite (Z.mul_comm 256), Z.div_add by lia.
    rewrite (Z.div_small (z mod 256)) by (apply Z.mod_pos_bound; lia). lia.
  - f_equal. unfold byte. rewrite Nat2Z.inj_succ, Z.pow_succ_r by lia.
    pose proof (Z.pow_pos_nonneg 256 (Z.of_nat n)).
    rewrite Z.rem_mul_r by lia. rewrite (Z.mul_comm 256), Z.mod_add by lia. apply Z.mod_mod. lia.
Qed.
Lemma be_zero n : be n 0 = replicate n 0.
Proof. induction n as [|n IH]; [done|]. cbn [be]. change (0 / 256) with 0. by rewrite IH, <- replicate_S_end. Qed.

Lemma put_word_spec j d index acc :
  put_word j d index acc = ((index - Nat.min j index)%nat, be (Nat.min j index) d ++ acc).
Proof.
  revert d index acc. induction j as [|j IH]; intros d index acc; destruct index as [|index]; simpl; [done..|].
  rewrite IH. f_equal. rewrite <- app_assoc, Z.shiftr_div_pow2 by lia. done.
Qed.
Lemma be_u64 m i : (m <= 8)%nat -> be m (u64 i) = be m i.
Proof.
  intros Hm. rewrite <- (be_mod m (u64 i)), <- (be_mod m i). f_equal. unfold u64.
  replace (2 ^ 64) with (256 ^ Z.of_nat m * 256 ^ (8 - Z.of_nat m)).
  - pose proof (Z.pow_pos_nonneg 256 (Z.of_nat m)). pose proof (Z.pow_pos_nonneg 256 (8 - Z.of_nat m)).
    rewrite Z.rem_mul_r by lia. rewrite (Z.mul_comm (256 ^ Z.of_nat m)), Z.mod_add by lia. apply Z.mod_mod. lia.
  - rewrite <- Z.pow_add_r by lia. replace (Z.of_nat m + (8 - Z.of_nat m)) with 8 by lia. done.
Qed.

Lemma put_words_spec fuel i index acc :
  0 <= i < 2 ^ (64 * Z.of_nat fuel) ->
  let '(k, a) := put_words (words fuel i) index acc in replicate k 0 ++ a = be index i ++ acc.
Proof.
  unfold put_words. revert i index acc. induction fuel as [|f IH]; intros i index acc Hi.
  { simpl in Hi. assert (i = 0) as -> by lia. simpl. by rewrite be_zero. }
  cbn [words]. destruct (Z.eqb_spec i 0) as [->|]; [simpl; by rewrite be_zero|].
  cbn [foldl]. rewrite put_word_spec. set (m := Nat.min 8 index).
  assert (Hs : 0 <= Z.shiftr i 64 < 2 ^ (64 * Z.of_nat f)).
  { rewrite Z.shiftr_div_pow2 by lia. split; [apply Z.div_pos; lia|]. apply Z.div_lt_upper_bound; [lia|].
    rewrite <- Z.pow_add_r by lia. eapply Z.lt_le_trans; [apply Hi|]. apply Z.pow_le_mono_r; lia. }
  specialize (IH (Z.shiftr i 64) (index - m)%nat (be m (u64 i) ++ acc) Hs).
  destruct (foldl _ _ _) as [k a]. rewrite IH, be_u64 by lia.
  rewrite app_assoc. f_equal. destruct (Nat.le_gt_cases 8 index).
  - replace m with 8%nat by lia. replace index with ((index - 8) + 8)%nat at 2 by lia.
    rewrite be_app by lia. by rewrite Z.shiftr_div_pow2 by lia.
  - replace m with index by lia. by rewrite Nat.sub_diag.
Qed.

Lemma BitLen_pow i : 0 <= i -> i < 2 ^ BitLen i.
Proof.
  intros Hi. unfold BitLen. destruct (Z.eqb_spec i 0) as [->|]; [done|].
  destruct (Z.log2_spec i) as [_ H]; [lia|]. by rewrite Z.add_1_r.
Qed.
Lemma BitLen_nonneg i : 0 <= BitLen i.
Proof. unfold BitLen. destruct (i =? 0); [done|]. pose proof (Z.log2_nonneg i). lia. Qed.
Lemma round_up_bytes n : 0 <= n -> Z.shiftr (Z.land (n + 7) (-8)) 3 = (n + 7) / 8.
Proof.
  intros Hn. change (-8) with (Z.lnot (Z.ones 3)). rewrite <- Z.ldiff_land, Z.ldiff_ones_r by lia.
  rewrite Z.shiftr_shiftl_l, Z.sub_diag, Z.shiftl_0_r, Z.shiftr_div_pow2 by lia. done.
Qed.

Lemma writeBigInt_enc i w : 0 <= i -> writeBigInt i w = append (enc_nat i) w.
Proof.
  intros Hi. unfold writeBigInt. pose proof (BitLen_nonneg i) as Hbn. pose proof (BitLen_pow i Hi) as Hp.
  destruct (Z.leb_spec (BitLen i) 64).
  { assert (i < 2 ^ 64) by (eapply Z.lt_le_trans; [exact Hp|apply Z.pow_le_mono_r; lia]).
    rewrite u64_small by (unfold is_u64; lia). by apply writeUint64_enc. }
  rewrite round_up_bytes by lia.
  assert (Hf : 0 <= i < 2 ^ (64 * Z.of_nat (Z.to_nat (BitLen i / 64 + 1)))).
  { split; [done|]. eapply Z.lt_le_trans; [exact Hp|]. apply Z.pow_le_mono_r; [lia|].
    pose proof (Z.div_mod (BitLen i) 64). pose proof (Z.mod_pos_bound (BitLen i) 64).
    pose proof (Z.div_pos (BitLen i) 64). lia. }
  fold (nbytes i). pose proof (put_words_spec _ i (nbytes i) [] Hf) as Hw. fold (Bits i) in Hw.
  destruct (put_words (Bits i) (nbytes i) []) as [k a]. rewrite Hw, app_nil_r.
  rewrite encodeStringHeader_append, append_append. f_equal. unfold enc_nat.
  assert (Hlen : len (be (nbytes i) i) = (BitLen i + 7) / 8).
  { unfold len. rewrite be_length. unfold nbytes. apply Z2Nat.id. apply Z.div_pos; lia. }
  assert (9 <= (BitLen i + 7) / 8) by (apply Z.div_le_lower_bound; lia).
  rewrite enc_string_header; [unfold header; by rewrite Hlen|].
  intros x E. rewrite E in Hlen. change (len [x]) with 1 in Hlen. lia.
Qed.
End RlpBuffer.
