(* ===== verification/RlpStream.v ===== *)
(** * RLP: the decoding stream (src/rlp/decode.go)

    A [Stream] reads from an in-memory reader.  It checks every read against
    the sizes of the enclosing lists and the input limit, and remembers the
    kind and size of the value ahead. *)

From stdpp Require Import base list numbers strings.
From Stdlib Require Import ZArith Lia.
From S2P Require Import Prelude Bytes Rlp RlpProps.

Module RlpStream.
Import Rlp RlpProps.

Record Stream : Type := mk_Stream {
  input : list Z;              (* what is left in r *)
  remaining : Z;
  ssize : Z;
  kinderr : option rlpErr;
  stack : list Z;              (* innermost list first *)
  kind : option Kind;          (* None: -1 *)
  byteval : Z;
  limited : bool;
}.
Definition set_kind (k : option Kind) (s : Stream) : Stream :=
  mk_Stream (input s) (remaining s) (ssize s) (kinderr s) (stack s) k (byteval s) (limited s).
Definition set_ahead (k : Kind) (sz : Z) (e : option rlpErr) (s : Stream) : Stream :=
  mk_Stream (input s) (remaining s) sz e (stack s) (Some k) (byteval s) (limited s).
Definition set_stack (st : list Z) (s : Stream) : Stream :=
  mk_Stream (input s) (remaining s) (ssize s) (kinderr s) st (kind s) (byteval s) (limited s).
Definition set_size (sz : Z) (s : Stream) : Stream :=
  mk_Stream (input s) (remaining s) sz (kinderr s) (stack s) (kind s) (byteval s) (limited s).
Definition set_input (i : list Z) (s : Stream) : Stream :=
  mk_Stream i (remaining s) (ssize s) (kinderr s) (stack s) (kind s) (byteval s) (limited s).
Definition set_remaining (r : Z) (s : Stream) : Stream :=
  mk_Stream (input s) r (ssize s) (kinderr s) (stack s) (kind s) (byteval s) (limited s).
Definition set_byteval (b : Z) (s : Stream) : Stream :=
  mk_Stream (input s) (remaining s) (ssize s) (kinderr s) (stack s) (kind s) b (limited s).

(** An operation: an error or a value, and the stream after it. *)
Definition M (A : Type) : Type := Stream -> (rlpErr + A) * Stream.
#[export] Instance M_ret : MRet M := fun A a s => (inr a, s).
#[export] Instance M_bind : MBind M := fun A B f m s =>
  match m s with
  | (inl e, s') => (inl e, s')
  | (inr a, s') => f a s'
  end.
Definition fail {A} (e : rlpErr) : M A := fun s => (inl e, s).
Definition get : M Stream := fun s => (inr s, s).
Definition modify (f : Stream -> Stream) : M unit := fun s => (inr tt, f s).
Definition rearm : M unit := modify (set_kind None).
(** [err] of [m] as a value. *)
Definition try_ {A} (m : M A) : M (rlpErr + A) := fun s => let '(r, s') := m s in (inr r, s').

(** A stream on a bytes.Reader. *)
Definition NewStream (b : list Z) (inputLimit : Z) : Stream :=
  mk_Stream b (if 0 <? inputLimit then inputLimit else len b) 0 None [] None 0 true.
Definition NewListStream (b : list Z) (n : Z) : Stream :=
  set_ahead List_ n None (NewStream b n).

Definition listLimit (s : Stream) : option Z := head (stack s).

Definition willRead (n : Z) : M unit := fun s =>
  let s := set_kind None s in
  let check (s : Stream) :=
    if limited s then
      if remaining s <? n then (inl ErrValueTooLarge, s)
      else (inr tt, set_remaining (remaining s - n) s)
    else (inr tt, s) in
  match stack s with
  | limit :: st =>
      if limit <? n then (inl ErrElemTooLarge, s) else check (set_stack ((limit - n) :: st) s)
  | [] => check s
  end.
Definition readByte : M Z :=
  willRead 1 ;;
  s ← get;
  match input s with
  | [] => fail io_ErrUnexpectedEOF
  | b :: i => modify (set_input i) ;; mret b
  end.
Definition readFull (n : Z) : M (list Z) :=
  willRead n ;;
  s ← get;
  if n <=? len (input s) then
    modify (set_input (drop (Z.to_nat n) (input s))) ;; mret (take (Z.to_nat n) (input s))
  else modify (set_input []) ;; fail io_ErrUnexpectedEOF.
Definition readUint (n : Z) : M Z :=
  if n =? 0 then rearm ;; mret 0
  else if n =? 1 then readByte
  else
    b ← readFull n;
    match b with
    | x :: _ => if x =? 0 then fail ErrCanonSize else mret (unbe b)
    | [] => mret 0
    end.

(** Kind and size, which are returned also with an error. *)
Definition readKind_s (s : Stream) : Kind * Z * option rlpErr * Stream :=
  match readByte s with
  | (inl err, s) =>
      let err := match stack s, err with
                 | [], io_ErrUnexpectedEOF => io_EOF
                 | [], ErrValueTooLarge => io_EOF
                 | _, e => e
                 end in
      (Byte, 0, Some err, s)
  | (inr b, s) =>
      let s := set_byteval 0 s in
      let long k n :=
        match readUint n s with
        | (inl e, s) => (k, 0, Some e, s)
        | (inr sz, s) => (k, sz, if sz <? 56 then Some ErrCanonSize else None, s)
        end in
      if b <? 0x80 then (Byte, 0, None, set_byteval b s)
      else if b <? 0xB8 then (String_, b - 0x80, None, s)
      else if b <? 0xC0 then long String_ (b - 0xB7)
      else if b <? 0xF8 then (List_, b - 0xC0, None, s)
      else long List_ (b - 0xF7)
  end.
Definition Kind_ : M (Kind * Z) := fun s =>
  match kind s with
  | Some k => (match kinderr s with Some e => inl e | None => inr (k, ssize s) end, s)
  | None =>
      let limit := listLimit s in
      if bool_decide (limit = Some 0) then (inl EOL, s)
      else
        let '(k, sz, err, s) := readKind_s s in
        let err := match err with
                   | Some e => Some e
                   | None =>
                       if match limit with Some l => l <? sz | None => false end then Some ErrElemTooLarge
                       else if (limited s && (remaining s <? sz))%bool then Some ErrValueTooLarge
                       else None
                   end in
        (match err with Some e => inl e | None => inr (k, sz) end, set_ahead k sz err s)
  end.

Definition Bytes : M (list Z) :=
  '(k, sz) ← Kind_;
  match k with
  | Byte => rearm ;; s ← get; mret [byteval s]
  | String_ =>
      b ← readFull sz;
      match b with
      | [x] => if x <? 128 then fail ErrCanonSize else mret b
      | _ => mret b
      end
  | List_ => fail ErrExpectedString
  end.
(** [ReadBytes(b)] for a slice of length [n]; returns what it holds then. *)
Definition ReadBytes (n : Z) : M (list Z) :=
  '(k, sz) ← Kind_;
  match k with
  | Byte =>
      if negb (n =? 1) then fail (decodeError "input value has wrong size")
      else s ← get; rearm ;; mret [byteval s]
  | String_ =>
      if negb (n =? sz) then fail (decodeError "input value has wrong size")
      else
        b ← readFull n;
        match b with
        | [x] => if x <? 128 then fail ErrCanonSize else mret b
        | _ => mret b
        end
  | List_ => fail ErrExpectedString
  end.
Definition Raw : M (list Z) :=
  '(k, sz) ← Kind_;
  match k with
  | Byte => rearm ;; s ← get; mret [byteval s]
  | _ =>
      b ← readFull sz;
      mret ((if bool_decide (k = String_) then puthead 0x80 0xB7 sz else puthead 0xC0 0xF7 sz) ++ b)
  end.
Definition uint (maxbits : Z) : M Z :=
  '(k, sz) ← Kind_;
  match k with
  | Byte => s ← get; if byteval s =? 0 then fail ErrCanonInt else rearm ;; mret (byteval s)
  | String_ =>
      if maxbits / 8 <? sz then fail errUintOverflow
      else
        r ← try_ (readUint sz);
        match r with
        | inl ErrCanonSize => fail ErrCanonInt
        | inl e => fail e
        | inr v => if ((0 <? sz) && (v <? 128))%bool then fail ErrCanonSize else mret v
        end
  | List_ => fail ErrExpectedString
  end.
Definition Uint64 : M Z := uint 64.
Definition Uint32 : M Z := uint 32.
Definition Uint16 : M Z := uint 16.
Definition Uint8 : M Z := uint 8.
Definition Bool : M bool :=
  num ← uint 8;
  if num =? 0 then mret false
  else if num =? 1 then mret true
  else fail (decodeError "invalid boolean value").
Definition List : M Z :=
  '(k, sz) ← Kind_;
  match k with
  | List_ =>
      s ← get;
      modify (set_stack (sz :: match stack s with
                               | limit :: st => u64 (limit - sz) :: st
                               | [] => []
                               end)) ;;
      rearm ;; modify (set_size 0) ;; mret sz
  | _ => fail ErrExpectedList
  end.
Definition ListEnd : M unit :=
  s ← get;
  match stack s with
  | [] => fail errNotInList
  | limit :: st =>
      if 0 <? limit then fail errNotAtEOL
      else modify (set_stack st) ;; rearm ;; modify (set_size 0)
  end.
Definition MoreDataInList : M bool :=
  s ← get; mret match listLimit s with Some l => 0 <? l | None => false end.
Definition decodeBigInt : M Z :=
  '(k, sz) ← Kind_;
  buffer ← match k with
           | List_ => fail ErrExpectedString
           | Byte => s ← get; rearm ;; mret [byteval s]
           | String_ =>
               if sz =? 0 then rearm ;; mret []
               else
                 b ← readFull sz;
                 match b with
                 | [x] => if x <? 128 then fail ErrCanonSize else mret b
                 | _ => mret b
                 end
           end;
  match buffer with
  | x :: _ => if x =? 0 then fail ErrCanonInt else mret (unbe buffer)
  | [] => mret 0
  end.
(** ** Reading what is there
    The part of the stream that reading changes, [n] bytes further on, and
    whether the limits leave room for [n] bytes. *)
Record core : Type := mk_core { c_input : list Z; c_remaining : Z; c_stack : list Z; c_limited : bool }.
Definition core_of (s : Stream) : core := mk_core (input s) (remaining s) (stack s) (limited s).
Definition adv (n : Z) (c : core) : core :=
  mk_core (drop (Z.to_nat n) (c_input c)) (if c_limited c then c_remaining c - n else c_remaining c)
    (match c_stack c with l :: st => (l - n) :: st | [] => [] end) (c_limited c).
Definition room (n : Z) (c : core) : Prop :=
  match c_stack c with l :: _ => n <= l < 2 ^ 64 | [] => True end
  /\ (c_limited c = true -> n <= c_remaining c).

Lemma adv_adv a b c : 0 <= a -> 0 <= b -> adv b (adv a c) = adv (a + b) c.
Proof.
  intros Ha Hb. unfold adv. simpl. f_equal.
  - rewrite drop_drop. f_equal. lia.
  - destruct (c_limited c); lia.
  - destruct (c_stack c); f_equal. lia.
Qed.
Lemma adv_0 c : adv 0 c = c.
Proof. destruct c as [i r st l]. unfold adv. simpl. f_equal; [by destruct l; lia|]. destruct st; f_equal. lia. Qed.
Lemma room_split a b c : 0 <= a -> 0 <= b -> room (a + b) c -> room a c /\ room b (adv a c).
Proof.
  unfold room, adv. simpl. intros Ha Hb [H1 H2]. destruct (c_stack c), (c_limited c); simpl in *;
    repeat split; try lia; intros; specialize (H2 eq_refl); lia.
Qed.
Lemma room_le a b c : a <= b -> room b c -> room a c.
Proof. unfold room. intros Hab [H1 H2]. destruct (c_stack c); (split; [lia||done|]); intros Hl; specialize (H2 Hl); lia. Qed.

(** An operation that reads [enc], [rest] left, and returns [a]. *)
Definition reads {A} (m : M A) (enc : list Z) (a : A) : Prop :=
  forall s rest, kind s = None -> input s = enc ++ rest -> room (len enc) (core_of s) ->
  exists s', m s = (inr a, s') /\ kind s' = None /\ core_of s' = adv (len enc) (core_of s).

Lemma willRead_ok n s :
  room n (core_of s) ->
  exists s', willRead n s = (inr tt, s') /\ kind s' = None /\ input s' = input s
    /\ adv n (core_of s) = core_of (set_input (drop (Z.to_nat n) (input s)) s').
Proof.
  intros [H1 H2]. unfold willRead. simpl in *. unfold adv, core_of. simpl.
  destruct (stack s) as [|l st] eqn:Es; simpl in *.
  - destruct (limited s) eqn:El; [|eexists; split_and!; [done..|simpl; by rewrite Es, El]].
    destruct (Z.ltb_spec (remaining s) n); [specialize (H2 eq_refl); lia|].
    eexists. split_and!; [done..|]. simpl. by rewrite Es, El.
  - destruct (Z.ltb_spec l n); [lia|].
    destruct (limited s) eqn:El; [|eexists; split_and!; [done..|simpl; by rewrite El]].
    destruct (Z.ltb_spec (remaining s) n); [specialize (H2 eq_refl); lia|].
    eexists. split_and!; [done..|]. simpl. by rewrite El.
Qed.

Lemma readFull_ok b s rest :
  input s = b ++ rest -> room (len b) (core_of s) ->
  exists s', readFull (len b) s = (inr b, s') /\ kind s' = None /\ core_of s' = adv (len b) (core_of s).
Proof.
  intros Hi Hr. destruct (willRead_ok _ _ Hr) as (s1 & E & Hk & Hi1 & Ha).
  unfold readFull, mbind, M_bind. rewrite E. simpl. rewrite Hi1, Hi, len_app. pose proof (len_nonneg rest).
  destruct (Z.leb_spec (len b) (len b + len rest)); [|lia]. simpl.
  rewrite take_app_length' by (unfold len; lia).
  eexists. split_and!; [done|exact Hk|]. by rewrite Ha, Hi.
Qed.
Lemma readByte_ok b s rest :
  input s = b :: rest -> room 1 (core_of s) ->
  exists s', readByte s = (inr b, s') /\ kind s' = None /\ core_of s' = adv 1 (core_of s).
Proof.
  intros Hi Hr. destruct (willRead_ok _ _ Hr) as (s1 & E & Hk & Hi1 & Ha).
  unfold readByte, mbind, M_bind. rewrite E. simpl. rewrite Hi1, Hi. simpl.
  eexists. split_and!; [done|exact Hk|]. rewrite Ha, Hi. done.
Qed.
Lemma readUint_ok i s rest :
  0 < i < 2 ^ 64 -> input s = be (nbytes i) i ++ rest -> room (Z.of_nat (nbytes i)) (core_of s) ->
  exists s', readUint (Z.of_nat (nbytes i)) s = (inr i, s') /\ kind s' = None
    /\ core_of s' = adv (Z.of_nat (nbytes i)) (core_of s).
Proof.
  intros Hi Hin Hr. pose proof (nbytes_u64 i Hi) as Hn. unfold readUint.
  destruct (Z.eqb_spec (Z.of_nat (nbytes i)) 0); [lia|].
  destruct (Z.eqb_spec (Z.of_nat (nbytes i)) 1) as [E1|].
  - assert (E : nbytes i = 1%nat) by lia. rewrite E in *. cbn [be app] in Hin.
    destruct (nbytes_bounds i) as [_ Hb]; [lia|]. rewrite E in Hb. simpl in Hb.
    rewrite byte_small in Hin by (unfold is_byte; lia). by apply (readByte_ok i s rest).
  - assert (Hl : len (be (nbytes i) i) = Z.of_nat (nbytes i)) by (unfold len; by rewrite be_length).
    rewrite <- Hl in Hr |- *. destruct (readFull_ok _ s rest Hin Hr) as (s' & E & Hk & Hc).
    unfold mbind, M_bind. rewrite E.
    pose proof (unbe_be (nbytes i) i ltac:(destruct (nbytes_bounds i); lia)) as Hu.
    destruct (be_head i) as (x & l & Eb & Hx); [lia|]. rewrite Eb in *.
    destruct (Z.eqb_spec x 0); [done|]. rewrite Hu. by exists s'.
Qed.

(** The header of a string or a list. *)
Lemma readKind_ok k n s tl :
  k <> Byte -> 0 <= n < 2 ^ 64 -> input s = header k n ++ tl -> room (headsize n) (core_of s) ->
  exists s', readKind_s s = (k, n, None, s') /\ core_of s' = adv (headsize n) (core_of s).
Proof.
  intros Hk Hn Hi Hr. pose proof (headsize_bounds n Hn). unfold readKind_s, header in *.
  destruct (Z.lt_ge_cases n 56) as [Hsm|Hlg].
  - assert (Hh : headsize n = 1) by (unfold headsize; by destruct (Z.ltb_spec n 56); [|lia]).
    rewrite puthead_small in Hi by (destruct k; simpl; lia). rewrite Hh in *.
    destruct (readByte_ok _ s tl Hi Hr) as (s1 & -> & _ & Hc).
    destruct k; [done| |]; cbn [tags fst snd].
    + destruct (Z.ltb_spec (128 + n) 128); [lia|]. destruct (Z.ltb_spec (128 + n) 184); [|lia].
      replace (128 + n - 128) with n by lia. eauto.
    + destruct (Z.ltb_spec (192 + n) 128); [lia|]. destruct (Z.ltb_spec (192 + n) 184); [lia|].
      destruct (Z.ltb_spec (192 + n) 192); [lia|]. destruct (Z.ltb_spec (192 + n) 248); [|lia].
      replace (192 + n - 192) with n by lia. eauto.
  - assert (Hh : headsize n = 1 + Z.of_nat (nbytes n)).
    { unfold headsize. destruct (Z.ltb_spec n 56); [lia|]. by rewrite intsize_nbytes by lia. }
    pose proof (nbytes_u64 n ltac:(lia)) as Hnb. pose proof (putint_len n ltac:(lia)) as Hpl.
    rewrite puthead_large in Hi by (destruct k; simpl; lia). rewrite Hpl, Hh in *. cbn [app] in Hi.
    apply room_split in Hr as [Hr1 Hr2]; [|lia..].
    destruct (readByte_ok _ s _ Hi Hr1) as (s1 & -> & _ & Hc).
    assert (Hin : input (set_byteval 0 s1) = be (nbytes n) n ++ tl).
    { change (input (set_byteval 0 s1)) with (c_input (core_of s1)). rewrite Hc. simpl.
      by rewrite Hi, putint_be by lia. }
    destruct (readUint_ok n (set_byteval 0 s1) tl ltac:(lia) Hin) as (s2 & Eu & _ & Hc2).
    { change (core_of (set_byteval 0 s1)) with (core_of s1). by rewrite Hc. }
    change (core_of (set_byteval 0 s1)) with (core_of s1) in Hc2. rewrite Hc, adv_adv in Hc2 by lia.
    destruct k; [done| |]; cbn [tags fst snd]; set (m := Z.of_nat (nbytes n)) in *.
    + destruct (Z.ltb_spec (183 + m) 128); [lia|]. destruct (Z.ltb_spec (183 + m) 184); [lia|].
      destruct (Z.ltb_spec (183 + m) 192); [|lia]. replace (183 + m - 183) with m by lia. rewrite Eu.
      destruct (Z.ltb_spec n 56); [lia|]. eauto.
    + destruct (Z.ltb_spec (247 + m) 128); [lia|]. destruct (Z.ltb_spec (247 + m) 184); [lia|].
      destruct (Z.ltb_spec (247 + m) 192); [lia|]. destruct (Z.ltb_spec (247 + m) 248); [lia|].
      replace (247 + m - 247) with m by lia. rewrite Eu. destruct (Z.ltb_spec n 56); [lia|]. eauto.
Qed.

Lemma room_limit n s : 0 < n -> room n (core_of s) -> listLimit s <> Some 0.
Proof. unfold room, listLimit. simpl. destruct (stack s); simpl; [done|]. intros ? [? _] [= ->]. lia. Qed.

Lemma Kind_header k n s tl :
  k <> Byte -> 0 <= n < 2 ^ 64 -> kind s = None -> input s = header k n ++ tl ->
  room (headsize n + n) (core_of s) ->
  exists s', Kind_ s = (inr (k, n), s') /\ kind s' = Some k /\ core_of s' = adv (headsize n) (core_of s).
Proof.
  intros Hk Hn Hkind Hi Hr. pose proof (headsize_bounds n Hn). unfold Kind_. rewrite Hkind.
  rewrite bool_decide_eq_false_2 by (apply (room_limit (headsize n + n) _ ltac:(lia) Hr)).
  destruct (readKind_ok k n s tl Hk Hn Hi (room_le (headsize n) (headsize n + n) _ ltac:(lia) Hr)) as (s1 & -> & Hc).
  apply room_split in Hr as [Hr1 Hr2]; [|lia..]. rewrite <- Hc in Hr2.
  assert (match listLimit s with Some l => l <? n | None => false end = false) as ->.
  { unfold listLimit. destruct Hr2 as [Hs _]. rewrite Hc in Hs. unfold adv in Hs. simpl in Hs.
    destruct (stack s) as [|l st]; simpl in *; [done|]. apply Z.ltb_ge. lia. }
  assert ((limited s1 && (remaining s1 <? n))%bool = false) as ->.
  { destruct Hr2 as [_ Hl]. simpl in Hl. destruct (limited s1); [|done]. apply Z.ltb_ge. by apply Hl. }
  eexists. split_and!; [done|done|]. exact Hc.
Qed.
Lemma Kind_byte x s tl :
  0 <= x < 128 -> kind s = None -> input s = x :: tl -> room 1 (core_of s) ->
  exists s', Kind_ s = (inr (Byte, 0), s') /\ kind s' = Some Byte /\ byteval s' = x
    /\ core_of s' = adv 1 (core_of s).
Proof.
  intros Hx Hkind Hi Hr. unfold Kind_. rewrite Hkind.
  rewrite bool_decide_eq_false_2 by (apply (room_limit 1 _ ltac:(lia) Hr)). unfold readKind_s.
  destruct (readByte_ok _ s tl Hi Hr) as (s1 & -> & _ & Hc).
  destruct (Z.ltb_spec x 128); [|lia]. cbn [limited remaining set_byteval].
  assert (match listLimit s with Some l => l <? 0 | None => false end = false) as ->.
  { unfold listLimit. destruct Hr as [Hs _]. simpl in Hs. destruct (stack s); simpl in *; [done|].
    apply Z.ltb_ge. lia. }
  assert ((limited s1 && (remaining s1 <? 0))%bool = false) as ->.
  { destruct Hr as [_ Hl]. change (limited s1) with (c_limited (core_of s1)).
    change (remaining s1) with (c_remaining (core_of s1)). rewrite Hc. unfold adv. simpl in *.
    destruct (limited s); [|done]. apply Z.ltb_ge. specialize (Hl eq_refl). lia. }
  eexists. split_and!; done.
Qed.
(** ** Values *)
Lemma M_bind_inr {A B} (m : M A) (f : A -> M B) s a s' : m s = (inr a, s') -> (m ≫= f) s = f a s'.
Proof. unfold mbind, M_bind. by intros ->. Qed.
Lemma M_bind_inl {A B} (m : M A) (f : A -> M B) s e s' : m s = (inl e, s') -> (m ≫= f) s = (inl e, s').
Proof. unfold mbind, M_bind. by intros ->. Qed.

(** After [Kind_] the value is still ahead: a second call, and every operation
    that starts with it, sees the same. *)
Lemma Kind_again s r s' : Kind_ s = (r, s') -> Kind_ s' = (r, s').
Proof.
  unfold Kind_ at 1. destruct (kind s) as [k|] eqn:Ek.
  { intros [= <- <-]. unfold Kind_. by rewrite Ek. }
  case_bool_decide as Hb.
  { intros [= <- <-]. unfold Kind_. rewrite Ek. by rewrite bool_decide_eq_true_2. }
  destruct (readKind_s s) as [[[k sz] err] s1]. intros [= <- <-]. unfold Kind_. simpl. by destruct (match err with Some _ => _ | None => _ end).
Qed.
Definition peeks {A} (m : M A) : Prop := forall s r s', Kind_ s = (r, s') -> m s' = m s.
Lemma peeks_Kind {A} (f : Kind * Z -> M A) : peeks (Kind_ ≫= f).
Proof. intros s r s' E. unfold mbind, M_bind. by rewrite E, (Kind_again _ _ _ E). Qed.

Lemma core_input s : input s = c_input (core_of s).
Proof. done. Qed.
Lemma core_kind s k : core_of (set_kind k s) = core_of s.
Proof. done. Qed.

Lemma header_len k n : 0 <= n < 2 ^ 64 -> len (header k n) = headsize n.
Proof. apply puthead_len. Qed.

(** Reading the content after the header. *)
Lemma content_ok k content s rest :
  k <> Byte -> len content < 2 ^ 64 -> kind s = None -> input s = header k (len content) ++ content ++ rest ->
  room (len (header k (len content) ++ content)) (core_of s) ->
  exists s1 s2, Kind_ s = (inr (k, len content), s1)
    /\ readFull (len content) s1 = (inr content, s2) /\ kind s2 = None
    /\ core_of s2 = adv (len (header k (len content) ++ content)) (core_of s).
Proof.
  intros Hk Hl Hkind Hi Hr. pose proof (len_nonneg content) as Hn.
  rewrite len_app, header_len in * by lia. pose proof (headsize_bounds (len content) ltac:(lia)).
  destruct (Kind_header k (len content) s _ Hk ltac:(lia) Hkind Hi Hr) as (s1 & E & _ & Hc).
  apply room_split in Hr as [_ Hr]; [|lia..]. rewrite <- Hc in Hr.
  assert (Hi1 : input s1 = content ++ rest).
  { rewrite core_input, Hc. simpl. rewrite Hi. by rewrite drop_app_len by by apply header_len. }
  destruct (readFull_ok content s1 rest Hi1 Hr) as (s2 & E2 & Hk2 & Hc2).
  exists s1, s2. split_and!; [done..|]. by rewrite Hc2, Hc, adv_adv by lia.
Qed.

Lemma string_cases b :
  (exists x, b = [x] /\ x < 128) \/ (forall x, b = [x] -> 128 <= x).
Proof. destruct b as [|x [|]]; [by right| |by right]. destruct (Z.lt_ge_cases x 128); [left; eauto|right; naive_solver]. Qed.
Lemma enc_string_byte x : x < 128 -> enc_string [x] = [x].
Proof. intros Hx. simpl. by destruct (Z.leb_spec x 127); [|lia]. Qed.

Lemma reads_Bytes b : bytes b -> len b < 2 ^ 64 -> reads Bytes (enc_string b) b.
Proof.
  intros Hb Hl s rest Hkind Hi Hr. unfold Bytes. destruct (string_cases b) as [(x & -> & Hx)|Hc].
  - rewrite enc_string_byte in * by done. apply list.Forall_cons_1 in Hb as [[Hx0 _] _].
    destruct (Kind_byte x s rest) as (s1 & E & _ & Hv & Hco); [done..|].
    rewrite (M_bind_inr _ _ _ _ _ E). exists (set_kind None s1). split_and!; [by rewrite <- Hv|done|exact Hco].
  - rewrite enc_string_header in * by done. rewrite <- app_assoc in Hi.
    destruct (content_ok String_ b s rest) as (s1 & s2 & E1 & E2 & Hk2 & Hco); [done..|].
    rewrite (M_bind_inr _ _ _ _ _ E1). cbv iota. rewrite (M_bind_inr _ _ _ _ _ E2).
    exists s2. split_and!; [|done..]. destruct b as [|x [|]]; [done| |done]. specialize (Hc x eq_refl).
    by destruct (Z.ltb_spec x 128); [lia|].
Qed.
Lemma reads_ReadBytes b n : bytes b -> len b < 2 ^ 64 -> len b = n -> reads (ReadBytes n) (enc_string b) b.
Proof.
  intros Hb Hl <- s rest Hkind Hi Hr. unfold ReadBytes. destruct (string_cases b) as [(x & -> & Hx)|Hc].
  - rewrite enc_string_byte in * by done. apply list.Forall_cons_1 in Hb as [[Hx0 _] _].
    destruct (Kind_byte x s rest) as (s1 & E & _ & Hv & Hco); [done..|].
    rewrite (M_bind_inr _ _ _ _ _ E). exists (set_kind None s1). split_and!; [by rewrite <- Hv|done|exact Hco].
  - rewrite enc_string_header in * by done. rewrite <- app_assoc in Hi.
    destruct (content_ok String_ b s rest) as (s1 & s2 & E1 & E2 & Hk2 & Hco); [done..|].
    rewrite (M_bind_inr _ _ _ _ _ E1). cbv iota. rewrite Z.eqb_refl. change (negb true) with false. cbv iota.
    rewrite (M_bind_inr _ _ _ _ _ E2).
    exists s2. split_and!; [|done..]. destruct b as [|x [|]]; [done| |done]. specialize (Hc x eq_refl).
    by destruct (Z.ltb_spec x 128); [lia|].
Qed.
(** A header and what it announces; unlike [is_value] the content of a string
    may be a single small byte. *)
Definition framed (k : Kind) (c enc : list Z) : Prop :=
  match k with
  | Byte => exists x, c = [x] /\ 0 <= x < 128 /\ enc = [x]
  | _ => enc = header k (len c) ++ c
  end.
Lemma is_value_framed k c enc : is_value k c enc -> framed k c enc.
Proof. destruct k; [done| |]; intros Hv; by apply is_value_header in Hv as [_ Hv]. Qed.
Lemma framed_header k c enc : k <> Byte -> framed k c enc -> enc = header k (len c) ++ c.
Proof. by destruct k. Qed.
Lemma framed_len k c enc : framed k c enc -> len enc < 2 ^ 64 -> 1 <= len enc.
Proof.
  destruct (decide (k = Byte)) as [->|Hk]; [intros (x & _ & _ & ->) _; done|].
  intros ->%framed_header Hl; [|done]. rewrite len_app in *. pose proof (len_nonneg c).
  pose proof (len_nonneg (header k (len c))). rewrite header_len by lia. pose proof (headsize_bounds (len c) ltac:(lia)). lia.
Qed.
Lemma reads_Raw k c enc : framed k c enc -> len enc < 2 ^ 64 -> reads Raw enc enc.
Proof.
  intros Hv Hl s rest Hkind Hi Hr. unfold Raw. destruct (decide (k = Byte)) as [->|Hk].
  - destruct Hv as (x & -> & Hx & ->).
    destruct (Kind_byte x s rest) as (s1 & E & _ & Hvx & Hco); [done..|].
    rewrite (M_bind_inr _ _ _ _ _ E). exists (set_kind None s1). split_and!; [by rewrite <- Hvx|done|exact Hco].
  - apply framed_header in Hv as ->; [|done]. rewrite <- app_assoc in Hi.
    assert (len c < 2 ^ 64) by (rewrite len_app in Hl; pose proof (len_nonneg (header k (len c))); lia).
    destruct (content_ok k c s rest) as (s1 & s2 & E1 & E2 & Hk2 & Hco); [done..|].
    rewrite (M_bind_inr _ _ _ _ _ E1). exists s2. split_and!; [|done..].
    destruct k; [done| |]; cbv iota; rewrite (M_bind_inr _ _ _ _ _ E2); done.
Qed.
(** The contents of an integer. *)
Lemma be_single i x : 0 <= i -> be (nbytes i) i = [x] -> x = i.
Proof.
  intros Hi E. assert (Hn : nbytes i = 1%nat) by (pose proof (be_length (nbytes i) i) as Hl; by rewrite E in Hl).
  destruct (decide (i = 0)) as [->|]; [done|]. destruct (nbytes_bounds i) as [_ Hb]; [lia|].
  rewrite Hn in *. simpl in Hb. cbn [be app] in E. injection E as <-. apply byte_small. unfold is_byte. lia.
Qed.
Lemma unbe_nbytes i : 0 <= i -> unbe (be (nbytes i) i) = i.
Proof.
  intros Hi. destruct (decide (i = 0)) as [->|]; [done|]. destruct (nbytes_bounds i); [lia|]. apply unbe_be. lia.
Qed.
Lemma nbytes_len i : len (be (nbytes i) i) = Z.of_nat (nbytes i).
Proof. unfold len. by rewrite be_length. Qed.

Lemma nbytes_le i m : 0 <= m -> 0 <= i < 2 ^ (8 * m) -> Z.of_nat (nbytes i) <= m.
Proof.
  intros Hm Hi. destruct (decide (i = 0)) as [->|]; [done|]. destruct (nbytes_bounds i) as [H1 Hb]; [lia|].
  destruct (Z.le_gt_cases (Z.of_nat (nbytes i)) m) as [|Hgt]; [done|].
  assert (256 ^ m <= 256 ^ (Z.of_nat (nbytes i) - 1)) by (apply Z.pow_le_mono_r; lia).
  rewrite (pow256 m) in * by lia. lia.
Qed.

Lemma reads_uint m i :
  1 <= m <= 8 -> 0 <= i < 2 ^ (8 * m) -> reads (uint (8 * m)) (enc_nat i) i.
Proof.
  intros Hm Hi s rest Hkind Hin Hr. unfold uint.
  assert (Hi64 : i < 2 ^ 64) by (eapply Z.lt_le_trans; [apply Hi|apply Z.pow_le_mono_r; lia]).
  pose proof (nbytes_le i m ltac:(lia) Hi) as Hnb.
  assert (Hdiv : 8 * m / 8 = m) by (rewrite Z.mul_comm; apply Z.div_mul; lia).
  unfold enc_nat in *. destruct (string_cases (be (nbytes i) i)) as [(x & E & Hx)|Hc].
  - pose proof (be_single i x ltac:(lia) E) as ->. assert (Hz : i <> 0) by (by intros ->).
    rewrite E in *. rewrite enc_string_byte in * by done.
    destruct (Kind_byte i s rest) as (s1 & E1 & _ & Hv & Hco); [lia|done..|].
    rewrite (M_bind_inr _ _ _ _ _ E1). exists (set_kind None s1).
    split_and!; [|done|exact Hco]. unfold mbind, M_bind, get, rearm, modify, mret, M_ret. simpl. rewrite Hv.
    by destruct (Z.eqb_spec i 0).
  - rewrite enc_string_header in * by done. rewrite nbytes_len in *. rewrite <- app_assoc in Hin.
    set (n := Z.of_nat (nbytes i)) in *. assert (0 <= n) by lia.
    rewrite len_app, header_len, nbytes_len in * by lia. fold n in Hr |- *.
    pose proof (headsize_bounds n ltac:(lia)).
    destruct (Kind_header String_ n s _ ltac:(done) ltac:(lia) Hkind Hin Hr) as (s1 & E & _ & Hco).
    rewrite (M_bind_inr _ _ _ _ _ E). cbv iota. rewrite Hdiv. destruct (Z.ltb_spec m n); [lia|].
    apply room_split in Hr as [_ Hr]; [|lia..]. rewrite <- Hco in Hr.
    assert (Hi1 : input s1 = be (nbytes i) i ++ rest).
    { rewrite core_input, Hco. simpl. rewrite Hin. by rewrite drop_app_len by (apply header_len; lia). }
    destruct (decide (i = 0)) as [->|Hz].
    { exists (set_kind None s1). split_and!; [done|done|]. rewrite core_kind, Hco. by rewrite Z.add_0_r. }
    destruct (readUint_ok i s1 rest ltac:(lia) Hi1 Hr) as (s2 & E2 & Hk2 & Hco2). fold n in E2, Hco2.
    exists s2. split_and!; [|done|by rewrite Hco2, Hco, adv_adv by lia].
    unfold mbind, M_bind, try_. rewrite E2. destruct (Z.ltb_spec 0 n); [|done]. simpl.
    destruct (Z.ltb_spec i 128); [|done]. exfalso.
    assert (Hs : be (nbytes i) i = [i]).
    { rewrite nbytes_small by lia. cbn [be app]. by rewrite byte_small by (unfold is_byte; lia). }
    specialize (Hc i Hs). lia.
Qed.
Lemma reads_Bool (b : bool) : reads Bool (enc_nat (if b then 1 else 0)) b.
Proof.
  intros s rest Hkind Hin Hr. unfold Bool.
  destruct (reads_uint 1 (if b then 1 else 0) ltac:(lia) ltac:(destruct b; simpl; lia) s rest Hkind Hin Hr)
    as (s' & E & Hk & Hc).
  change (8 * 1) with 8 in E. rewrite (M_bind_inr _ _ _ _ _ E). exists s'. split_and!; [by destruct b|done..].
Qed.
Lemma reads_BigInt i :
  0 <= i -> Z.of_nat (nbytes i) < 2 ^ 64 -> reads decodeBigInt (enc_nat i) i.
Proof.
  intros Hi Hnb s rest Hkind Hin Hr. unfold decodeBigInt. unfold enc_nat in *.
  destruct (string_cases (be (nbytes i) i)) as [(x & E & Hx)|Hc].
  - pose proof (be_single i x ltac:(lia) E) as ->. assert (Hz : i <> 0) by (by intros ->).
    rewrite E in *. rewrite enc_string_byte in * by done.
    destruct (Kind_byte i s rest) as (s1 & E1 & _ & Hv & Hco); [lia|done..|].
    rewrite (M_bind_inr _ _ _ _ _ E1). exists (set_kind None s1).
    split_and!; [|done|exact Hco]. unfold mbind, M_bind, get, rearm, modify, mret, M_ret. simpl. rewrite Hv.
    by destruct (Z.eqb_spec i 0).
  - rewrite enc_string_header in * by done. rewrite <- app_assoc in Hin.
    destruct (content_ok String_ (be (nbytes i) i) s rest) as (s1 & s2 & E1 & E2 & Hk2 & Hco);
      [done|by rewrite nbytes_len|done..|].
    rewrite (M_bind_inr _ _ _ _ _ E1). cbv iota.
    destruct (decide (i = 0)) as [->|Hz].
    { simpl in E2. exists (set_kind None s1). split_and!; [done|done|].
      destruct (Kind_header String_ 0 s rest) as (s1' & E1' & _ & Hco'); [done..|]. rewrite E1' in E1.
      injection E1 as ->. exact Hco'. }
    destruct (be_head i) as (x & l & Eb & Hx); [lia|].
    pose proof (unbe_nbytes i Hi) as Hu. rewrite Eb in *.
    destruct (Z.eqb_spec (len (x :: l)) 0) as [E0|]; [rewrite len_cons in E0; pose proof (len_nonneg l); lia|].
    exists s2. split_and!; [|done..].
    assert (Hb : (b ← readFull (len (x :: l)); match b with
                 | [x] => if x <? 128 then fail ErrCanonSize else mret b
                 | _ => mret b end) s1 = (inr (x :: l), s2)).
    { rewrite (M_bind_inr _ _ _ _ _ E2). destruct l; [|done]. specialize (Hc x eq_refl).
      by destruct (Z.ltb_spec x 128); [lia|]. }
    rewrite (M_bind_inr _ _ _ _ _ Hb). destruct (Z.eqb_spec x 0); [done|]. by rewrite Hu.
Qed.
(** ** Lists *)
Definition enter (n : Z) (c : core) : core :=
  let c1 := adv (headsize n) c in
  mk_core (c_input c1) (c_remaining c1) (n :: c_stack (adv (headsize n + n) c)) (c_limited c).

Lemma List_ok content s rest :
  len content < 2 ^ 64 -> kind s = None -> input s = enc_list content ++ rest ->
  room (len (enc_list content)) (core_of s) ->
  exists s', List s = (inr (len content), s') /\ kind s' = None /\ core_of s' = enter (len content) (core_of s).
Proof.
  intros Hl Hkind Hi Hr. pose proof (len_nonneg content) as Hn. unfold enc_list in *.
  rewrite len_app, puthead_len in Hr by lia. pose proof (headsize_bounds (len content) ltac:(lia)).
  rewrite <- app_assoc in Hi.
  destruct (Kind_header List_ (len content) s (content ++ rest) ltac:(done) ltac:(lia) Hkind Hi Hr)
    as (s1 & E & _ & Hc).
  unfold List. rewrite (M_bind_inr _ _ _ _ _ E). cbv iota. eexists. split; [reflexivity|]. split; [done|].
  unfold enter. rewrite <- Hc. unfold core_of at 1. simpl. f_equal.
  - f_equal. change (stack s1) with (c_stack (core_of s1)). rewrite Hc. destruct Hr as [Hs _]. unfold adv. simpl in *.
    destruct (stack s) as [|l st]; [done|]. f_equal. rewrite u64_small by (unfold is_u64; lia). lia.
  - by change (limited s1) with (c_limited (core_of s1)); rewrite Hc.
Qed.

Lemma ListEnd_ok s st :
  stack s = 0 :: st ->
  exists s', ListEnd s = (inr tt, s') /\ kind s' = None
    /\ core_of s' = mk_core (input s) (remaining s) st (limited s).
Proof.
  intros Hs. unfold ListEnd, mbind, M_bind, get. rewrite Hs. simpl. eexists. split; [reflexivity|]. done.
Qed.

(** An operation that reads all of the innermost list. *)
Definition reads_in {A} (m : M A) (enc : list Z) (a : A) : Prop :=
  forall s rest, kind s = None -> input s = enc ++ rest -> room (len enc) (core_of s) ->
  listLimit s = Some (len enc) ->
  exists s', m s = (inr a, s') /\ kind s' = None /\ core_of s' = adv (len enc) (core_of s).

(** [m'] returns what [m] returns when that is not an error. *)
Definition extends {A} (m m' : M A) : Prop := forall s a s', m s = (inr a, s') -> m' s = (inr a, s').

Lemma reads_List {A B} (l : M Z) (le : M unit) (body : Z -> M A) (g : A -> B) content a :
  extends List l -> extends ListEnd le ->
  len content < 2 ^ 64 -> reads_in (body (len content)) content a ->
  reads (sz ← l; a ← body sz; le ;; mret (g a)) (enc_list content) (g a).
Proof.
  intros Hel Hele Hl Hb s rest Hkind Hi Hr. pose proof (len_nonneg content) as Hn.
  destruct (List_ok content s rest Hl Hkind Hi Hr) as (s1 & E & Hk1 & Hc1). apply Hel in E.
  rewrite (M_bind_inr _ _ _ _ _ E). pose proof (headsize_bounds (len content) ltac:(lia)).
  unfold enc_list in *. rewrite len_app, puthead_len in * by lia.
  assert (Hi1 : input s1 = content ++ rest).
  { rewrite core_input, Hc1. simpl. rewrite Hi, <- app_assoc. rewrite drop_app_len; [done|]. by apply puthead_len. }
  destruct (Hb s1 rest Hk1 Hi1) as (s2 & E2 & Hk2 & Hc2).
  { rewrite Hc1. unfold room, enter. simpl. split; [lia|]. intros Hlim. destruct Hr as [_ Hr]. simpl in *.
    rewrite Hlim in *. specialize (Hr eq_refl). lia. }
  { change (listLimit s1) with (head (c_stack (core_of s1))). by rewrite Hc1. }
  rewrite (M_bind_inr _ _ _ _ _ E2). rewrite Hc1 in Hc2.
  assert (Hst : stack s2 = 0 :: c_stack (adv (headsize (len content) + len content) (core_of s))).
  { change (stack s2) with (c_stack (core_of s2)). rewrite Hc2. simpl. by rewrite Z.sub_diag. }
  destruct (ListEnd_ok s2 _ Hst) as (s3 & E3 & Hk3 & Hc3). apply Hele in E3.
  exists s3. split_and!; [by rewrite (M_bind_inr _ _ _ _ _ E3)|done|]. rewrite Hc3.
  change (input s2) with (c_input (core_of s2)). change (remaining s2) with (c_remaining (core_of s2)).
  change (limited s2) with (c_limited (core_of s2)). rewrite Hc2. unfold adv, enter. simpl.
  rewrite drop_drop. f_equal; [f_equal; lia|]. destruct (limited s); lia.
Qed.

(** The outer list is charged with the size of the inner one after the check
    against its limit, which was made before the inner header was read: an
    inner list that overruns the outer one by at most its header is accepted
    when the input is long enough, and the room left in the outer list wraps
    around. *)
Theorem list_overrun :
  exists s, (List ;; List ;; Uint64 ;; ListEnd) (NewStream [0xC1; 0xC1; 0x05] 0) = (inr tt, s)
    /\ listLimit s = Some (2 ^ 64 - 1) /\ input s = [].
Proof. eexists. split; [vm_compute; reflexivity|]. done. Qed.
End RlpStream.
