(* ===== verification/RlpTypes.v ===== *)
(** * RLP: values of Go types (src/rlp/encode.go, decode.go, typecache.go)

    The writers and decoders that the package builds by reflection.  A Go type
    is described by [typ] and a value of it by [val]; types that refer to
    themselves and types with their own EncodeRLP or DecodeRLP are left out.
    An interface holds byte slices and slices of interfaces, which is what the
    decoder makes. *)

From stdpp Require Import base list numbers strings.
From Stdlib Require Import ZArith Lia.
From S2P Require Import Prelude Bytes Rlp RlpProps RlpStream.

Module RlpTypes.
Import Rlp RlpProps RlpStream.

(** [TUint m] has [m] bytes.  [TTail] is a slice with the "tail" tag;
    [TPtr (Some k)] a pointer with the "nil" tag, whose nil is the empty value
    of kind [k].  The fields of a struct are those that take part, with their
    "optional" tag. *)
#[warnings="-register-all"]
Inductive typ : Type :=
  | TRaw
  | TBigInt
  | TUint (m : Z)
  | TBool
  | TString
  | TBytes
  | TByteArray (n : nat)
  | TSlice (te : typ)
  | TTail (te : typ)
  | TArray (n : nat) (te : typ)
  | TStruct (fs : list (typ * bool))
  | TPtr (nk : option Kind) (te : typ)
  | TInterface.

(** [VNil] is the nil pointer, slice or interface. *)
#[warnings="-register-all"]
Inductive val : Type :=
  | VBytes (b : list Z)
  | VInt (z : Z)
  | VBool (b : bool)
  | VNil
  | VPtr (v : val)
  | VList (vs : list val)
  | VStruct (vs : list val).

(** reflect.Zero *)
Fixpoint zero (t : typ) : val :=
  match t with
  | TUint _ => VInt 0
  | TBool => VBool false
  | TString => VBytes []
  | TByteArray n => VBytes (replicate n 0)
  | TArray n te => VList (replicate n (zero te))
  | TStruct fs => VStruct (map (fun f => zero f.1) fs)
  | TRaw | TBigInt | TBytes | TSlice _ | TTail _ | TPtr _ _ | TInterface => VNil
  end.
(** reflect.Value.IsZero: of simple values, and of values of a type. *)
Definition isZero_simple (v : val) : bool :=
  match v with
  | VNil => true
  | VInt z => z =? 0
  | VBool b => negb b
  | _ => false
  end.
Fixpoint isZero (v : val) (t : typ) {struct v} : bool :=
  match t, v with
  | TBigInt, _ => match v with VNil => true | _ => false end
  | TString, VBytes b => match b with [] => true | _ => false end
  | TByteArray _, VBytes b => forallb (Z.eqb 0) b
  | TArray _ te, VList vs => forallb (fun x => isZero x te) vs
  | TStruct fs, VStruct vs =>
      (fix all (vs : list val) (fs : list (typ * bool)) : bool :=
         match vs, fs with
         | x :: vs, f :: fs => (isZero x f.1 && all vs fs)%bool
         | _, _ => true
         end) vs fs
  | _, _ => isZero_simple v
  end.

(** ** Writing *)
Definition errBadValue : rlpErr := decodeError "value does not have the type".

Fixpoint firstOptionalField (fs : list (typ * bool)) : nat :=
  match fs with
  | [] => 0
  | (_, optional) :: fs => if optional : bool then 0 else S (firstOptionalField fs)
  end.
(** [lastField + 1], from [k] downwards. *)
Fixpoint trim (first : nat) (zs : list bool) (k : nat) : nat :=
  match k with
  | O => O
  | S k' => if ((first <=? k')%nat && default false (zs !! k'))%bool then trim first zs k' else S k'
  end.
Definition zeros (vs : list val) (fs : list (typ * bool)) : list bool :=
  zip_with (fun v f => isZero v f.1) vs fs.
Definition written (vs : list val) (fs : list (typ * bool)) : nat :=
  if decide (firstOptionalField fs = length fs) then length fs
  else trim (firstOptionalField fs) (zeros vs fs) (length fs).

Definition default_nil (t : typ) : Kind :=
  match t with TUint _ | TString | TBool | TBytes | TByteArray _ | TRaw => String_ | _ => List_ end.
Definition nilEncoding (k : Kind) : Z := match k with String_ => 0x80 | _ => 0xC0 end.

Fixpoint writer (v : val) (t : typ) (w : encBuffer) {struct v} : rlpErr + encBuffer :=
  let elems :=
    fix elems (vs : list val) (te : typ) (w : encBuffer) : rlpErr + encBuffer :=
      match vs with
      | [] => inr w
      | x :: vs => match writer x te w with inl e => inl e | inr w => elems vs te w end
      end in
  let fields :=
    fix fields (vs : list val) (fs : list (typ * bool)) (n : nat) (w : encBuffer) : rlpErr + encBuffer :=
      match n, vs, fs with
      | S n, x :: vs, f :: fs =>
          match writer x f.1 w with inl e => inl e | inr w => fields vs fs n w end
      | _, _, _ => inr w
      end in
  let in_list (body : encBuffer -> rlpErr + encBuffer) (w : encBuffer) :=
    let '(listOffset, w) := list_ w in
    match body w with inl e => inl e | inr w => inr (listEnd listOffset w) end in
  let slice vs te w :=
    match vs with
    | [] => inr (append [0xC0] w)
    | _ => in_list (elems vs te) w
    end in
  match t, v with
  | TRaw, VBytes b => inr (append b w)
  | TRaw, VNil => inr w
  | TBigInt, VNil => inr (append [0x80] w)
  | TBigInt, VInt z => if z <? 0 then inl ErrNegativeBigInt else inr (writeBigInt z w)
  | TUint _, VInt z => inr (writeUint64 z w)
  | TBool, VBool b => inr (writeBool b w)
  | TString, VBytes b | TBytes, VBytes b | TInterface, VBytes b => inr (writeBytes b w)
  | TBytes, VNil => inr (writeBytes [] w)
  | TByteArray n, VBytes b =>
      match n, b with
      | O, _ => inr (append [0x80] w)
      | 1%nat, [x] => inr (if x <=? 0x7f then append [x] w else append [0x81; x] w)
      | _, _ => inr (append b (encodeStringHeader (len b) w))
      end
  | TSlice te, VNil => inr (append [0xC0] w)
  | TSlice te, VList vs => slice vs te w
  | TArray _ te, VList vs => slice vs te w
  | TTail te, VNil => inr w
  | TTail te, VList vs => elems vs te w
  | TStruct fs, VStruct vs => in_list (fields vs fs (written vs fs)) w
  | TPtr nk te, VPtr x => writer x te w
  | TPtr nk te, VNil => inr (append [nilEncoding (default (default_nil te) nk)] w)
  | TInterface, VNil => inr (append [0xC0] w)
  | TInterface, VList vs => slice vs TInterface w
  | _, _ => inl errBadValue
  end.
Definition EncodeToBytes (t : typ) (v : val) : rlpErr + list Z :=
  match writer v t empty_buffer with
  | inl e => inl e
  | inr w => inr (makeBytes w)
  end.

(** ** Decoding *)
Definition out_of_fuel : rlpErr := decodeError "out of fuel".

Definition wrapStreamError (e : rlpErr) : rlpErr :=
  match e with
  | ErrCanonInt => decodeError "non-canonical integer (leading zero bytes)"
  | ErrCanonSize => decodeError "non-canonical size information"
  | ErrExpectedList => decodeError "expected input list"
  | ErrExpectedString => decodeError "expected input string or byte"
  | errUintOverflow => decodeError "input string too long"
  | errNotAtEOL => decodeError "input list has too many elements"
  | e => e
  end.
Definition wrap {A} (m : M A) : M A := fun s =>
  match m s with
  | (inl e, s) => (inl (wrapStreamError e), s)
  | r => r
  end.

(** Decode elements until the end of the list. *)
Fixpoint elems_loop (fuel : nat) (dec : M val) : M (list val) :=
  match fuel with
  | O => fail out_of_fuel
  | S f =>
      r ← try_ dec;
      match r with
      | inl EOL => mret []
      | inl e => fail e
      | inr v => vs ← elems_loop f dec; mret (v :: vs)
      end
  end.
(** Every element takes at least one byte of the input. *)
Definition decodeSliceElems (dec : M val) : M (list val) :=
  s ← get; elems_loop (S (length (input s))) dec.
Definition decodeListSlice (dec : M val) : M val :=
  sz ← wrap List;
  if sz =? 0 then ListEnd ;; mret (VList [])
  else vs ← decodeSliceElems dec; ListEnd ;; mret (VList vs).
Fixpoint array_loop (n : nat) (dec : M val) : M (list val) :=
  match n with
  | O => mret []
  | S n =>
      r ← try_ dec;
      match r with
      | inl EOL => fail (decodeError "input list has too few elements")
      | inl e => fail e
      | inr v => vs ← array_loop n dec; mret (v :: vs)
      end
  end.
Definition decodeListArray (n : nat) (dec : M val) : M val :=
  wrap List ;; vs ← array_loop n dec; wrap ListEnd ;; mret (VList vs).
Definition decodeByteArray (n : nat) : M val :=
  '(k, sz) ← Kind_;
  match k with
  | Byte =>
      match n with
      | O => fail (decodeError "input string too long")
      | S O => s ← get; rearm ;; mret (VBytes [byteval s])
      | _ => fail (decodeError "input string too short")
      end
  | String_ =>
      if Z.of_nat n <? sz then fail (decodeError "input string too long")
      else if sz <? Z.of_nat n then fail (decodeError "input string too short")
      else
        b ← readFull (Z.of_nat n);
        match b with
        | [x] => if x <? 128 then fail (wrapStreamError ErrCanonSize) else mret (VBytes b)
        | _ => mret (VBytes b)
        end
  | List_ => fail (wrapStreamError ErrExpectedString)
  end.
(** Every level of nesting takes at least one byte of the input. *)
Fixpoint decodeInterface (fuel : nat) : M val :=
  match fuel with
  | O => fail out_of_fuel
  | S f =>
      '(k, _) ← Kind_;
      match k with
      | List_ => decodeListSlice (decodeInterface f)
      | _ => b ← Bytes; mret (VBytes b)
      end
  end.
Definition decodeNilPtr (nk : Kind) (dec : M val) : M val :=
  '(k, sz) ← wrap Kind_;
  if (negb (bool_decide (k = Byte)) && (sz =? 0))%bool then
    if bool_decide (k = nk) then rearm ;; mret VNil
    else fail (decodeError "wrong kind of empty value")
  else v ← dec; mret (VPtr v).

Fixpoint decode (t : typ) : M val :=
  match t with
  | TRaw => b ← Raw; mret (VBytes b)
  | TBigInt => z ← wrap decodeBigInt; mret (VInt z)
  | TUint m => z ← wrap (uint (8 * m)); mret (VInt z)
  | TBool => b ← wrap Bool; mret (VBool b)
  | TString | TBytes => b ← wrap Bytes; mret (VBytes b)
  | TByteArray n => decodeByteArray n
  | TSlice te => decodeListSlice (decode te)
  | TTail te => vs ← decodeSliceElems (decode te); mret (VList vs)
  | TArray n te => decodeListArray n (decode te)
  | TStruct fs =>
      wrap List ;;
      vs ← (fix fields (fs : list (typ * bool)) : M (list val) :=
              match fs with
              | [] => mret []
              | f :: r =>
                  res ← try_ (decode f.1);
                  match res with
                  | inl EOL =>
                      if f.2 then mret (map (fun g => zero g.1) (f :: r))
                      else fail (decodeError "too few elements")
                  | inl e => fail e
                  | inr v => vs ← fields r; mret (v :: vs)
                  end
              end) fs;
      wrap ListEnd ;; mret (VStruct vs)
  | TPtr None te => v ← decode te; mret (VPtr v)
  | TPtr (Some nk) te => decodeNilPtr nk (decode te)
  | TInterface => s ← get; decodeInterface (2 + length (input s))
  end.
Definition DecodeBytes (t : typ) (b : list Z) : rlpErr + val :=
  match decode t (NewStream b (len b)) with
  | (inl e, _) => inl e
  | (inr v, s) => if 0 <? len (input s) then inl ErrMoreThanOneValue else inr v
  end.
End RlpTypes.
