(* ===== verification/RlpDecode.v ===== *)
(** * RLP: the decoders read every encoding back

    The value decoders of [RlpTypes] against the specification [encodes]:
    the round trip with the encoder, and that the bounds on their recursion
    are never reached. *)

From stdpp Require Import base list numbers strings.
From Stdlib Require Import ZArith Lia.
From S2P Require Import Prelude Bytes Rlp RlpProps RlpStream RlpTypes RlpRoundtrip.

Module RlpDecode.
Import Rlp RlpProps RlpStream RlpTypes RlpRoundtrip.

(** ** Composing operations *)
Lemma reads_ext {A} (m m' : M A) enc a : (forall s, m s = m' s) -> reads m enc a -> reads m' enc a.
Proof. intros He Hm s rest ???. rewrite <- He. by eapply Hm. Qed.
Lemma reads_map {A B} (m : M A) (g : A -> B) enc a : reads m enc a -> reads (x ← m; mret (g x)) enc (g a).
Proof.
  intros Hm s rest Hk Hi Hr. destruct (Hm s rest Hk Hi Hr) as (s' & E & ?). exists s'.
  by rewrite (M_bind_inr _ _ _ _ _ E).
Qed.
Lemma reads_in_map {A B} (m : M A) (g : A -> B) enc a : reads_in m enc a -> reads_in (x ← m; mret (g x)) enc (g a).
Proof.
  intros Hm s rest Hk Hi Hr Hl. destruct (Hm s rest Hk Hi Hr Hl) as (s' & E & ?). exists s'.
  by rewrite (M_bind_inr _ _ _ _ _ E).
Qed.
Lemma reads_try {A} (m : M A) enc a : reads m enc a -> reads (try_ m) enc (inr a).
Proof.
  intros Hm s rest Hk Hi Hr. destruct (Hm s rest Hk Hi Hr) as (s' & E & ?). exists s'. unfold try_. by rewrite E.
Qed.
Lemma reads_in_try {A} (m : M A) enc a : reads_in m enc a -> reads_in (try_ m) enc (inr a).
Proof.
  intros Hm s rest Hk Hi Hr Hl. destruct (Hm s rest Hk Hi Hr Hl) as (s' & E & ?). exists s'. unfold try_. by rewrite E.
Qed.
Lemma reads_ret {A} (a : A) : reads (mret a) [] a.
Proof. intros s rest Hk Hi Hr. exists s. rewrite len_nil, adv_0. done. Qed.
Lemma reads_reads_in {A} (m : M A) enc a : reads m enc a -> reads_in m enc a.
Proof. intros Hm s rest ?? ? _. by eapply Hm. Qed.
Lemma extends_wrap {A} (m : M A) : extends m (wrap m).
Proof. intros s a s' E. unfold wrap. by rewrite E. Qed.
Lemma reads_extends {A} (m m' : M A) enc a : extends m m' -> reads m enc a -> reads m' enc a.
Proof. intros He Hm s rest Hk Hi Hr. destruct (Hm s rest Hk Hi Hr) as (s' & E & ?). exists s'. by rewrite (He _ _ _ E). Qed.

(** The stream between two operations. *)
Lemma between s s1 (o out rest : list Z) :
  input s = o ++ out ++ rest -> room (len (o ++ out)) (core_of s) -> core_of s1 = adv (len o) (core_of s) ->
  input s1 = out ++ rest /\ room (len out) (core_of s1) /\ adv (len out) (core_of s1) = adv (len (o ++ out)) (core_of s)
  /\ (listLimit s = Some (len (o ++ out)) -> listLimit s1 = Some (len out)).
Proof.
  intros Hi Hr Hc. pose proof (len_nonneg o). pose proof (len_nonneg out). rewrite len_app in *. split_and!.
  - rewrite core_input, Hc. simpl. by rewrite Hi, drop_app_len.
  - rewrite Hc. by apply room_split in Hr as [_ Hr].
  - by rewrite Hc, adv_adv.
  - change (listLimit s1) with (head (c_stack (core_of s1))). rewrite Hc. unfold adv, listLimit. simpl.
    destruct (stack s); [done|]. intros [= ->]. simpl. f_equal. lia.
Qed.
Lemma reads_bind {A B} (m : M A) (f : A -> M B) o out a b :
  reads m o a -> reads (f a) out b -> reads (m ≫= f) (o ++ out) b.
Proof.
  intros Hm Hf s rest Hk Hi Hr. rewrite <- app_assoc in Hi. pose proof Hr as Hr0. rewrite len_app in Hr0.
  apply room_split in Hr0 as [Hr0 _]; [|apply len_nonneg..].
  destruct (Hm s _ Hk Hi Hr0) as (s1 & E & Hk1 & Hc). destruct (between s s1 o out rest Hi Hr Hc) as (Hi1 & Hr1 & Ha & _).
  destruct (Hf s1 rest Hk1 Hi1 Hr1) as (s2 & E2 & Hk2 & Hc2). exists s2. rewrite (M_bind_inr _ _ _ _ _ E).
  rewrite Ha in Hc2. done.
Qed.
Lemma reads_in_bind {A B} (m : M A) (f : A -> M B) o out a b :
  reads m o a -> reads_in (f a) out b -> reads_in (m ≫= f) (o ++ out) b.
Proof.
  intros Hm Hf s rest Hk Hi Hr Hl. rewrite <- app_assoc in Hi. pose proof Hr as Hr0. rewrite len_app in Hr0.
  apply room_split in Hr0 as [Hr0 _]; [|apply len_nonneg..].
  destruct (Hm s _ Hk Hi Hr0) as (s1 & E & Hk1 & Hc).
  destruct (between s s1 o out rest Hi Hr Hc) as (Hi1 & Hr1 & Ha & Hl1).
  destruct (Hf s1 rest Hk1 Hi1 Hr1 (Hl1 Hl)) as (s2 & E2 & Hk2 & Hc2). exists s2. rewrite (M_bind_inr _ _ _ _ _ E).
  rewrite Ha in Hc2. done.
Qed.
(** The rest of the list, then what is left to do at its end. *)
Lemma reads_in_end {A B} (m : M A) (f : A -> M B) out a b :
  reads_in m out a -> reads_in (f a) [] b -> reads_in (m ≫= f) out b.
Proof.
  intros Hm Hf s rest Hk Hi Hr Hl. destruct (Hm s rest Hk Hi Hr Hl) as (s1 & E & Hk1 & Hc).
  destruct (between s s1 out [] rest) as (Hi1 & Hr1 & Ha & Hl1); [done|by rewrite app_nil_r|done|].
  rewrite app_nil_r in *. destruct (Hf s1 rest Hk1 Hi1 Hr1 (Hl1 Hl)) as (s2 & E2 & Hk2 & Hc2). exists s2.
  rewrite (M_bind_inr _ _ _ _ _ E). rewrite Ha in Hc2. done.
Qed.

(** ** The end of a list *)
Definition eol {A} (m : M A) : Prop := forall s, kind s = None -> listLimit s = Some 0 -> m s = (inl EOL, s).
Lemma eol_Kind : eol Kind_.
Proof. intros s Hk Hl. unfold Kind_. rewrite Hk. by rewrite bool_decide_eq_true_2. Qed.
Lemma eol_bind {A B} (m : M A) (f : A -> M B) : eol m -> eol (m ≫= f).
Proof. intros Hm s Hk Hl. by rewrite (M_bind_inl _ _ _ _ _ (Hm s Hk Hl)). Qed.
Lemma eol_wrap {A} (m : M A) : eol m -> eol (wrap m).
Proof. intros Hm s Hk Hl. unfold wrap. by rewrite (Hm s Hk Hl). Qed.
Lemma eol_interface f : eol (decodeInterface (S f)).
Proof. cbn [decodeInterface]. apply eol_bind, eol_Kind. Qed.
Lemma eol_decode t : no_tail t = true -> eol (decode t).
Proof.
  induction t; try done; cbn [decode no_tail]; intros Ht; [..|intros s Hk Hl; by apply (eol_interface _ s)].
  all: try destruct nk; repeat first [apply eol_Kind | apply eol_bind | apply eol_wrap]. by apply IHt.
Qed.

(** ** Loops over elements
    [reads_some]: the element takes at least a byte. *)
Definition reads_some (dec : M val) (v : val) (o : list Z) : Prop := o <> [] /\ reads dec o v.

Lemma elems_loop_reads dec vs os fuel :
  eol dec -> Forall2 (reads_some dec) vs os -> (length vs < fuel)%nat ->
  reads_in (elems_loop fuel dec) (concat os) vs.
Proof.
  intros He Hv. revert fuel. induction Hv as [|v o vs os [_ Hv] _ IH]; intros [|fuel] Hf; try (simpl in Hf; lia).
  - intros s rest Hk Hi Hr Hl. exists s. cbn [concat]. rewrite len_nil, adv_0. split; [|done].
    cbn [elems_loop]. unfold mbind, M_bind, try_. by rewrite He.
  - cbn [concat elems_loop]. eapply reads_in_bind; [by apply reads_try|]. cbv iota.
    apply (reads_in_map _ (cons v)). apply IH. simpl in Hf. lia.
Qed.
Lemma reads_some_length dec vs os : Forall2 (reads_some dec) vs os -> (length vs <= length (concat os))%nat.
Proof.
  induction 1 as [|v o vs os [Ho _] _ IH]; [done|]. simpl. rewrite length_app. destruct o; [done|]. simpl. lia.
Qed.
Lemma decodeSliceElems_reads dec vs os :
  eol dec -> Forall2 (reads_some dec) vs os -> reads_in (decodeSliceElems dec) (concat os) vs.
Proof.
  intros He Hv s rest Hk Hi Hr Hl. unfold decodeSliceElems, mbind, M_bind, get. pose proof (reads_some_length _ _ _ Hv).
  eapply elems_loop_reads; try done. rewrite Hi, length_app. lia.
Qed.
Lemma decodeListSlice_reads dec vs os :
  (vs <> [] -> eol dec) -> Forall2 (reads_some dec) vs os -> len (concat os) < 2 ^ 64 ->
  reads (decodeListSlice dec) (enc_list (concat os)) (VList vs).
Proof.
  intros He Hv Hl.
  apply (reads_ext (sz ← wrap List; vs ← (if sz =? 0 then mret [] else decodeSliceElems dec); ListEnd ;; mret (VList vs))).
  { intros s. unfold decodeListSlice, mbind, M_bind. destruct (wrap List s) as [[e|sz] s1]; [done|].
    by destruct (sz =? 0). }
  apply (reads_List (wrap List) ListEnd (fun sz => if sz =? 0 then mret [] else decodeSliceElems dec) VList);
    [apply extends_wrap|by intros s a s'|done|].
  destruct (Z.eqb_spec (len (concat os)) 0) as [E|E].
  2: { apply decodeSliceElems_reads; [|done]. apply He. intros ->. by inversion Hv; subst. }
  pose proof (reads_some_length _ _ _ Hv). destruct (concat os); [|unfold len in E; simpl in E; lia]. destruct vs; [|simpl in *; lia].
  apply reads_reads_in, reads_ret.
Qed.
Lemma array_loop_reads dec vs os :
  Forall2 (reads_some dec) vs os -> reads (array_loop (length vs) dec) (concat os) vs.
Proof.
  induction 1 as [|v o vs os [_ Hv] _ IH]; [apply reads_ret|]. cbn [concat array_loop length].
  eapply reads_bind; [by apply reads_try|]. cbv iota. by apply (reads_map _ (cons v)).
Qed.
Lemma decodeListArray_reads dec vs os :
  Forall2 (reads_some dec) vs os -> len (concat os) < 2 ^ 64 ->
  reads (decodeListArray (length vs) dec) (enc_list (concat os)) (VList vs).
Proof.
  intros Hv Hl.
  apply (reads_List (wrap List) (wrap ListEnd) (fun _ => array_loop (length vs) dec) VList); try apply extends_wrap; [done|].
  by apply reads_reads_in, array_loop_reads.
Qed.
Lemma decodeByteArray_reads b :
  bytes b -> len b < 2 ^ 64 -> reads (decodeByteArray (length b)) (enc_string b) (VBytes b).
Proof.
  intros Hb Hl s rest Hkind Hi Hr. unfold decodeByteArray. destruct (string_cases b) as [(x & -> & Hx)|Hc].
  - rewrite enc_string_byte in * by done. apply list.Forall_cons_1 in Hb as [[Hx0 _] _].
    destruct (Kind_byte x s rest) as (s1 & E & _ & Hv & Hco); [done..|].
    rewrite (M_bind_inr _ _ _ _ _ E). exists (set_kind None s1). split_and!; [by rewrite <- Hv|done|exact Hco].
  - rewrite enc_string_header in * by done. rewrite <- app_assoc in Hi.
    destruct (content_ok String_ b s rest) as (s1 & s2 & E1 & E2 & Hk2 & Hco); [done..|].
    rewrite (M_bind_inr _ _ _ _ _ E1). cbv iota. change (Z.of_nat (length b)) with (len b). rewrite Z.ltb_irrefl.
    rewrite (M_bind_inr _ _ _ _ _ E2).
    exists s2. split_and!; [|done..]. destruct b as [|x [|]]; [done| |done]. specialize (Hc x eq_refl).
    by destruct (Z.ltb_spec x 128); [lia|].
Qed.

(** ** Decoding after a look at the kind
    The decoder of a pointer with the "nil" tag looks at the kind first. *)
Definition reads_from {A} (m : M A) (enc : list Z) (a : A) : Prop :=
  forall s rest s0, kind s = None -> input s = enc ++ rest -> room (len enc) (core_of s) ->
  (s0 = s \/ exists r, Kind_ s = (r, s0)) ->
  exists s', m s0 = (inr a, s') /\ kind s' = None /\ core_of s' = adv (len enc) (core_of s).
Lemma reads_from_reads {A} (m : M A) enc a : reads_from m enc a -> reads m enc a.
Proof. intros Hm s rest ???. eapply Hm; eauto. Qed.
Lemma peeks_from {A} (m : M A) enc a : peeks m -> reads m enc a -> reads_from m enc a.
Proof.
  intros Hp Hm s rest s0 Hk Hi Hr [->|[r E]]; [by eapply Hm|]. rewrite (Hp _ _ _ E). by eapply Hm.
Qed.
Lemma reads_from_map {A B} (m : M A) (g : A -> B) enc a :
  reads_from m enc a -> reads_from (x ← m; mret (g x)) enc (g a).
Proof.
  intros Hm s rest s0 Hk Hi Hr H0. destruct (Hm s rest s0 Hk Hi Hr H0) as (s' & E & ?). exists s'.
  by rewrite (M_bind_inr _ _ _ _ _ E).
Qed.
Lemma peeks_bind {A B} (m : M A) (f : A -> M B) : peeks m -> peeks (m ≫= f).
Proof. intros Hm s r s' E. unfold mbind, M_bind. by rewrite (Hm _ _ _ E). Qed.
Lemma peeks_wrap {A} (m : M A) : peeks m -> peeks (wrap m).
Proof. intros Hm s r s' E. unfold wrap. by rewrite (Hm _ _ _ E). Qed.
Lemma peeks_Kind_ : peeks Kind_.
Proof. intros s r s' E. by rewrite E, (Kind_again _ _ _ E). Qed.
Ltac peek := repeat first [apply peeks_Kind_ | apply peeks_wrap | apply peeks_bind].

(** The kind of an encoding, whether read or looked at before. *)
Lemma Kind_value k c enc s rest :
  framed k c enc -> len enc < 2 ^ 64 -> kind s = None -> input s = enc ++ rest -> room (len enc) (core_of s) ->
  exists s1, Kind_ s = (inr (k, if bool_decide (k = Byte) then 0 else len c), s1)
    /\ (k <> Byte -> core_of s1 = adv (headsize (len c)) (core_of s)).
Proof.
  intros Hv Hl Hk Hi Hr. destruct (decide (k = Byte)) as [->|Hkb].
  - destruct Hv as (x & -> & Hx & ->). destruct (Kind_byte x s rest) as (s1 & E & _); [done..|]. exists s1. done.
  - apply framed_header in Hv as ->; [|done]. rewrite <- app_assoc in Hi.
    pose proof (len_nonneg c). rewrite len_app in Hl. pose proof (len_nonneg (header k (len c))).
    rewrite len_app, header_len in Hr by lia.
    destruct (Kind_header k (len c) s (c ++ rest)) as (s1 & E & _ & Hc); [done|lia|done..|]. exists s1.
    by rewrite bool_decide_eq_false_2.
Qed.
Lemma decodeNilPtr_value nk dec k c enc v :
  framed k c enc -> len enc < 2 ^ 64 -> enc <> [0x80] -> enc <> [0xC0] -> reads_from dec enc v ->
  reads_from (decodeNilPtr nk dec) enc (VPtr v).
Proof.
  intros Hv Hl H1 H2 Hd. apply peeks_from; [unfold decodeNilPtr; peek|]. intros s rest Hk Hi Hr.
  destruct (Kind_value k c enc s rest) as (s1 & E & _); [done..|]. unfold decodeNilPtr.
  rewrite (M_bind_inr _ _ _ _ _ (extends_wrap _ _ _ _ E)).
  destruct (Hd s rest s1 Hk Hi Hr ltac:(eauto)) as (s' & E' & ?). exists s'.
  assert ((negb (bool_decide (k = Byte)) && ((if bool_decide (k = Byte) then 0 else len c) =? 0))%bool = false) as ->;
    [|by rewrite (M_bind_inr _ _ _ _ _ E')].
  case_bool_decide as Hkb; [done|]. apply framed_header in Hv as ->; [|done]. simpl.
  apply Z.eqb_neq. intros E0. destruct c; [|unfold len in E0; simpl in E0; lia]. by destruct k.
Qed.
Lemma decodeNilPtr_nil k dec : k <> Byte -> reads_from (decodeNilPtr k dec) [nilEncoding k] VNil.
Proof.
  intros Hkb. apply peeks_from; [unfold decodeNilPtr; peek|]. intros s rest Hk Hi Hr.
  destruct (Kind_value k [] [nilEncoding k] s rest) as (s1 & E & Hc); [by destruct k|done..|].
  unfold decodeNilPtr. rewrite (M_bind_inr _ _ _ _ _ (extends_wrap _ _ _ _ E)).
  rewrite bool_decide_eq_false_2 by done. simpl. rewrite bool_decide_eq_true_2 by done.
  exists (set_kind None s1). split_and!; [done..|]. by apply Hc.
Qed.
(** ** Every encoding is one value *)
Lemma string_value b : bytes b -> exists k c, k <> List_ /\ framed k c (enc_string b).
Proof.
  intros Hb. destruct (string_cases b) as [(x & -> & Hx)|Hc].
  - exists Byte, [x]. apply list.Forall_cons_1 in Hb as [[Hx0 _] _]. split; [done|]. exists x.
    by rewrite enc_string_byte.
  - exists String_, b. split; [done|]. by apply is_value_framed.
Qed.
Lemma enc_string_len b : len b <= len (enc_string b).
Proof.
  assert (forall h, len b <= len (h ++ b)) by (intros h; rewrite len_app; pose proof (len_nonneg h); lia).
  unfold enc_string. destruct b as [|x [|]]; auto. by destruct (x <=? 127).
Qed.
Lemma encodes_value t v o : encodes t v o -> exists k c, framed k c o.
Proof.
  assert (Hs : forall b, bytes b -> exists k c, framed k c (enc_string b)).
  { intros b (k & c & _ & ?)%string_value. eauto. }
  induction 1; eauto; try (by eexists List_, _); try (apply Hs, be_bytes). exists k, []. by destruct k.
Qed.
Lemma encodes_nonempty t v o : encodes t v o -> len o < 2 ^ 64 -> o <> [].
Proof. intros (k & c & Hv)%encodes_value Hl ->. apply framed_len in Hv; done. Qed.
Lemma enc_elems_split te vs out : enc_elems te vs out -> exists os, out = concat os /\ Forall2 (encodes te) vs os.
Proof.
  induction 1 as [|te v vs o out Hv _ (os & -> & IH)]; [by exists []|]. exists (o :: os). by split; [|constructor].
Qed.

(** ** Interfaces *)
Lemma interface_reads f v o :
  encodes TInterface v o -> len o < 2 ^ 64 -> (0 < f)%nat -> (forall out, o = enc_list out -> (length out < f)%nat) ->
  reads (decodeInterface f) o v.
Proof.
  revert v o. induction f as [|f IH]; intros v o Hv Hl Hf Hf'; [lia|]. intros s rest Hk Hi Hr.
  inversion Hv as [| | | | | | | | | | | | |b Hb|vs out He]; subst; cbn [decodeInterface].
  - destruct (string_value b Hb) as (k & c & Hkl & Hkc). destruct (Kind_value k c _ s rest Hkc Hl Hk Hi Hr) as (s1 & E & _).
    rewrite (M_bind_inr _ _ _ _ _ E). pose proof (enc_string_len b).
    destruct (reads_map Bytes VBytes _ _ (reads_Bytes b Hb ltac:(lia)) s rest Hk Hi Hr) as (s' & E' & ?). exists s'.
    assert (Hp : peeks (b ← Bytes; mret (VBytes b))) by peek.
    rewrite <- (Hp _ _ _ E) in E'. by destruct k.
  - destruct (Kind_value List_ out _ s rest eq_refl Hl Hk Hi Hr) as (s1 & E & _).
    rewrite (M_bind_inr _ _ _ _ _ E). cbv iota.
    assert (Hp : peeks (decodeListSlice (decodeInterface f))) by (unfold decodeListSlice; peek).
    rewrite (Hp _ _ _ E). destruct (enc_elems_split _ _ _ He) as (os & -> & Hos).
    specialize (Hf' _ eq_refl). apply enc_list_content in Hl.
    refine (decodeListSlice_reads _ vs os _ _ Hl s rest Hk Hi Hr).
    { intros Hvs. destruct f; [|apply eol_interface]. destruct Hos as [|v o vs os Ho _]; [done|].
      pose proof (encodes_nonempty _ _ _ Ho (proj1 (written_app_l _ _ Hl))). cbn [concat] in Hf'. rewrite length_app in Hf'.
      destruct o; [done|simpl in Hf'; lia]. }
    clear -IH Hos Hl Hf'. assert (Hf : (length (concat os) <= f)%nat) by lia. clear Hf'.
    induction Hos as [|v o vs os Ho _ IHo]; [constructor|]. cbn [concat] in *. rewrite length_app in Hf.
    apply written_app_l in Hl as [Hl1 Hl2]. pose proof (encodes_nonempty _ _ _ Ho Hl1) as Hne.
    constructor; [|apply IHo; [done|lia]]. split; [done|]. apply IH; [done..| |].
    { destruct o; [done|simpl in Hf; lia]. }
    intros out ->. apply enc_list_content in Hl1. unfold enc_list in Hf. rewrite length_app in Hf.
    pose proof (len_nonneg out). pose proof (puthead_len 192 247 (len out) ltac:(lia)) as Hp.
    pose proof (headsize_bounds (len out) ltac:(lia)). unfold len at 1 in Hp. lia.
Qed.
Lemma interface_from v o : encodes TInterface v o -> len o < 2 ^ 64 -> reads_from (decode TInterface) o v.
Proof.
  intros Hv Hl s rest s0 Hk Hi Hr H0. cbn [decode]. unfold mbind, M_bind, get. cbv beta iota.
  set (f := S (length (input s0))). change (2 + length (input s0))%nat with (S f).
  assert (Hd : decodeInterface (S f) s0 = decodeInterface (S f) s).
  { destruct H0 as [->|[r E]]; [done|]. eapply peeks_Kind, E. }
  rewrite Hd. eapply interface_reads; try done; [lia|]. intros out ->. destruct H0 as [->|[r E]].
  - unfold f. rewrite Hi. unfold enc_list. rewrite !length_app. lia.
  - destruct (Kind_value List_ out _ s rest eq_refl Hl Hk Hi Hr) as (s1 & E1 & Hc). rewrite E in E1.
    injection E1 as _ <-. apply enc_list_content in Hl. pose proof (len_nonneg out).
    assert (Hs0 : input s0 = out ++ rest).
    { rewrite core_input, Hc by done. simpl. rewrite Hi. unfold enc_list. rewrite <- app_assoc.
      apply drop_app_len. apply puthead_len. lia. }
    unfold f. rewrite Hs0, length_app. lia.
Qed.

(** ** Structs *)
Fixpoint dec_fields (fs : list (typ * bool)) : M (list val) :=
  match fs with
  | [] => mret []
  | f :: r =>
      res ← try_ (decode f.1);
      match res with
      | inl EOL =>
          if f.2 then mret (map (fun g => zero g.1) (f :: r))
          else fail (decodeError "too few elements")
      | inl e => fail e
      | inr v => vs ← dec_fields r; mret (v :: vs)
      end
  end.
Lemma decode_struct fs :
  decode (TStruct fs) = (wrap List ;; vs ← dec_fields fs; wrap ListEnd ;; mret (VStruct vs)).
Proof. done. Qed.
Lemma dec_fields_omit t fs :
  eol (decode t) -> reads_in (dec_fields ((t, true) :: fs)) [] (map (fun f => zero f.1) ((t, true) :: fs)).
Proof.
  intros He s rest Hk Hi Hr Hl. exists s. rewrite len_nil, adv_0. split; [|done]. cbn [dec_fields fst snd].
  unfold mbind, M_bind, try_. by rewrite He.
Qed.

Lemma decoder_reads :
  (forall t v o, encodes t v o -> len o < 2 ^ 64 -> reads_from (decode t) o v)
  /\ (forall te vs out, enc_elems te vs out -> len out < 2 ^ 64 ->
        exists os, out = concat os /\ Forall2 (reads_some (decode te)) vs os)
  /\ (forall fs vs out, enc_fields fs vs out -> len out < 2 ^ 64 -> reads_in (dec_fields fs) out vs).
Proof.
  assert (Hw : forall A (m : M A) (g : A -> val) o a, peeks m -> reads m o a ->
    reads_from (x ← wrap m; mret (g x)) o (g a)).
  { intros A m g o a Hp Hm. apply reads_from_map, peeks_from; [by apply peeks_wrap|].
    by eapply reads_extends; [apply extends_wrap|]. }
  apply encodes_mutind.
  - intros k c b Hv _ Hl. apply (reads_from_map Raw VBytes), peeks_from; [unfold Raw; peek|by eapply reads_Raw].
  - intros z Hz Hl. apply Hw; [unfold decodeBigInt; peek|]. apply reads_BigInt; [done|].
    pose proof (enc_string_len (be (nbytes z) z)) as He. rewrite nbytes_len in He. unfold enc_nat in Hl. lia.
  - intros m z Hm Hz Hl. apply Hw; [unfold uint; peek|]. by apply reads_uint.
  - intros b Hl. apply Hw; [unfold Bool, uint; peek|]. apply reads_Bool.
  - intros b Hb Hl. pose proof (enc_string_len b). apply Hw; [unfold Bytes; peek|]. apply reads_Bytes; [done|lia].
  - intros b Hb Hl. pose proof (enc_string_len b). apply Hw; [unfold Bytes; peek|]. apply reads_Bytes; [done|lia].
  - intros n b Hb <- Hl. pose proof (enc_string_len b). apply peeks_from; [cbn [decode]; unfold decodeByteArray; peek|].
    apply decodeByteArray_reads; [done|lia].
  - intros te vs out Ht _ IH Hl. pose proof (enc_list_content _ Hl) as Hl'. destruct (IH Hl') as (os & -> & Hos).
    apply peeks_from; [cbn [decode]; unfold decodeListSlice; peek|].
    apply decodeListSlice_reads; [intros _; by apply eol_decode|done..].
  - intros n te vs out <- _ IH Hl. pose proof (enc_list_content _ Hl) as Hl'. destruct (IH Hl') as (os & -> & Hos).
    apply peeks_from; [cbn [decode]; unfold decodeListArray; peek|]. by apply decodeListArray_reads.
  - intros fs vs out _ _ IH Hl. pose proof (enc_list_content _ Hl) as Hl'. rewrite decode_struct.
    apply peeks_from; [peek|]. apply (reads_List (wrap List) (wrap ListEnd) (fun _ => dec_fields fs) VStruct);
      [apply extends_wrap..|done|by apply IH].
  - intros te v out _ IH Hl. by apply (reads_from_map _ VPtr), IH.
  - intros k te Hk _. by apply decodeNilPtr_nil.
  - intros k te v out He IH H1 H2 Hl. destruct (encodes_value _ _ _ He) as (k' & c & Hv).
    eapply decodeNilPtr_value; eauto.
  - intros b Hb Hl. apply interface_from; [by constructor|done].
  - intros vs out He _ Hl. apply interface_from; [by constructor|done].
  - intros te _. by exists [].
  - intros te v vs o out He IH1 _ IH2 [H1 H2]%written_app_l. destruct (IH2 H2) as (os & -> & Hos).
    exists (o :: os). split; [done|]. constructor; [|done]. split; [by eapply encodes_nonempty|].
    by apply reads_from_reads, IH1.
  - intros _. apply reads_reads_in, reads_ret.
  - intros te vs out Ht _ IH Hl. destruct (IH Hl) as (os & -> & Hos). cbn [dec_fields fst].
    eapply reads_in_end; [apply reads_in_try, (reads_in_map _ VList), decodeSliceElems_reads; [by apply eol_decode|done]|].
    apply reads_reads_in, reads_ret.
  - intros t fs Ht _. by apply dec_fields_omit, eol_decode.
  - intros t o fs v vs out outs _ IH1 _ IH2 _ [H1 H2]%written_app_l. cbn [dec_fields fst].
    eapply reads_in_bind; [by apply reads_try, reads_from_reads, IH1|]. cbv iota.
    by apply (reads_in_map _ (cons v)), IH2.
Qed.

Lemma decode_prefix t v out rest :
  encodes t v out -> len out < 2 ^ 64 ->
  exists s, decode t (NewStream (out ++ rest) (len (out ++ rest))) = (inr v, s) /\ input s = rest.
Proof.
  intros He Hl. pose proof (encodes_nonempty _ _ _ He Hl) as Hne.
  destruct (reads_from_reads _ _ _ (proj1 decoder_reads t v out He Hl)
    (NewStream (out ++ rest) (len (out ++ rest))) rest) as (s & E & _ & Hc); [done..| |].
  - split; [done|]. intros _. cbn [core_of c_remaining NewStream remaining]. pose proof (len_nonneg rest).
    rewrite len_app. destruct (Z.ltb_spec 0 (len out + len rest)); lia.
  - exists s. split; [done|]. rewrite core_input, Hc. simpl. by apply drop_app_len.
Qed.
Lemma decode_encoded t v out : encodes t v out -> len out < 2 ^ 64 -> DecodeBytes t out = inr v.
Proof.
  intros He Hl. destruct (decode_prefix t v out [] He Hl) as (s & E & Hi). rewrite app_nil_r in E.
  unfold DecodeBytes. by rewrite E, Hi.
Qed.

End RlpDecode.
