(* ===== verification/RlpExact.v ===== *)
(** * RLP: the decoders accept nothing but encodings

    What a successful operation of the stream has read, and from it that a
    decoder of a type without optional fields accepts exactly the encodings
    of its values.  The innermost limit of the stack is tracked modulo
    [2 ^ 64], as [List] charges it. *)

From stdpp Require Import base list numbers strings.
From Stdlib Require Import ZArith Lia.
From S2P Require Import Prelude Bytes Rlp RlpProps RlpStream RlpTypes RlpRoundtrip RlpDecode.

Module RlpExact.
Import Rlp RlpProps RlpStream RlpTypes RlpRoundtrip RlpDecode.

(** ** What has been read *)
Record inv (s : Stream) : Prop := {
  inv_limited : limited s = true;
  inv_remaining : remaining s = len (input s);
  inv_bytes : bytes (input s);
  inv_len : len (input s) < 2 ^ 63;
  inv_stack : Forall is_u64 (stack s)
}.
Definition charge (n : Z) (st : list Z) : list Z :=
  match st with l :: st => u64 (l - n) :: st | [] => [] end.
Record consumed (o : list Z) (s s' : Stream) : Prop := {
  con_input : input s = o ++ input s';
  con_stack : stack s' = charge (len o) (stack s);
  con_inv : inv s'
}.

Lemma u64_sub_sub l a b : u64 (u64 (l - a) - b) = u64 (l - (a + b)).
Proof. unfold u64. rewrite Zminus_mod_idemp_l. f_equal. lia. Qed.
Lemma charge_charge a b st : charge b (charge a st) = charge (a + b) st.
Proof. destruct st as [|l st]; [done|]. simpl. by rewrite u64_sub_sub. Qed.
Lemma charge_0 st : Forall is_u64 st -> charge 0 st = st.
Proof. destruct 1 as [|l st Hl _]; [done|]. simpl. rewrite Z.sub_0_r, u64_small; done. Qed.
Lemma consumed_trans o1 o2 s s1 s2 : consumed o1 s s1 -> consumed o2 s1 s2 -> consumed (o1 ++ o2) s s2.
Proof.
  intros [I1 S1 V1] [I2 S2 V2]. split; [by rewrite I1, I2, app_assoc| |done].
  by rewrite S2, S1, charge_charge, len_app.
Qed.
Lemma consumed_refl s s' : inv s -> core_of s' = core_of s -> consumed [] s s'.
Proof.
  intros V [= E1 E2 E3 E4]. split; [by rewrite E1|by rewrite E3, charge_0 by apply V|]. destruct V.
  split; rewrite ?E1, ?E2, ?E3, ?E4; done.
Qed.
Lemma consumed_core o s s1 s2 : consumed o s s1 -> core_of s2 = core_of s1 -> consumed o s s2.
Proof.
  intros C E. rewrite <- (app_nil_r o). eapply consumed_trans; [exact C|]. apply consumed_refl; [apply C|done].
Qed.
Lemma consumed_small o s s' : inv s -> consumed o s s' -> len o < 2 ^ 63 /\ bytes o.
Proof.
  intros V C. pose proof (inv_len _ V) as Hl. pose proof (inv_bytes _ V) as Hb. rewrite (con_input _ _ _ C) in *.
  rewrite len_app in Hl. pose proof (len_nonneg (input s')). apply Forall_app in Hb as [Hb _]. split; [lia|done].
Qed.

(** ** Primitives *)
Lemma willRead_inv n s s' :
  inv s -> 0 <= n -> willRead n s = (inr tt, s') ->
  n <= len (input s) /\ kind s' = None /\ input s' = input s
  /\ forall o, len o = n -> input s = o ++ drop (Z.to_nat n) (input s) ->
     consumed o s (set_input (drop (Z.to_nat n) (input s)) s').
Proof.
  intros V Hn E. unfold willRead in E. cbn [stack set_kind] in E.
  assert (Hc : forall s1, kind s1 = None -> input s1 = input s -> remaining s1 = remaining s -> limited s1 = limited s ->
    stack s1 = charge n (stack s) ->
    (if limited s1 then if remaining s1 <? n then (inl ErrValueTooLarge, s1)
      else (inr tt, set_remaining (remaining s1 - n) s1) else (inr tt, s1)) = (@inr rlpErr unit tt, s') ->
    n <= len (input s) /\ kind s' = None /\ input s' = input s
    /\ forall o, len o = n -> input s = o ++ drop (Z.to_nat n) (input s) ->
       consumed o s (set_input (drop (Z.to_nat n) (input s)) s')).
  { clear E. intros s1 K1 I1 R1 L1 S1 E. rewrite L1, (inv_limited _ V) in E. rewrite R1, (inv_remaining _ V) in E.
    destruct (Z.ltb_spec (len (input s)) n); [done|]. injection E as <-. split_and!; [done..|].
    intros o <- Hi. split; [done|done|]. destruct V. split; cbn [limited remaining input stack set_input set_remaining].
    - by rewrite L1.
    - rewrite Hi at 1. rewrite len_app. lia.
    - by apply Forall_drop.
    - rewrite Hi, len_app in inv_len0. pose proof (len_nonneg o). lia.
    - rewrite S1. destruct inv_stack0; [constructor|]. constructor; [apply u64_range|done]. }
  destruct (stack s) as [|l st] eqn:Es; [by apply (Hc (set_kind None s)) in E|].
  destruct (Z.ltb_spec l n); [done|].
  apply (Hc (set_stack ((l - n) :: st) (set_kind None s))) in E; try done. simpl. f_equal.
  pose proof (inv_stack _ V) as Hs. rewrite Es in Hs. apply list.Forall_cons_1 in Hs as [Hs _].
  symmetry. apply u64_small. unfold is_u64 in *. lia.
Qed.
Lemma readFull_inv n s b s' :
  inv s -> 0 <= n -> readFull n s = (inr b, s') -> len b = n /\ consumed b s s' /\ kind s' = None.
Proof.
  intros V Hn E. unfold readFull, mbind, M_bind in E. destruct (willRead n s) as [[e|[]] s1] eqn:Ew; [done|].
  apply willRead_inv in Ew as (Hl & K1 & I1 & Hc); [|done..]. cbn [get] in E. rewrite I1 in E.
  destruct (Z.leb_spec n (len (input s))); [|lia]. injection E as <- <-.
  assert (Hb : len (take (Z.to_nat n) (input s)) = n) by (unfold len in *; rewrite length_take; lia).
  split; [done|]. split; [|done]. apply Hc; [done|]. by rewrite take_drop.
Qed.
Lemma readByte_inv s x s' : inv s -> readByte s = (inr x, s') -> consumed [x] s s' /\ kind s' = None.
Proof.
  intros V E. unfold readByte, mbind, M_bind in E. destruct (willRead 1 s) as [[e|[]] s1] eqn:Ew; [done|].
  apply willRead_inv in Ew as (Hl & K1 & I1 & Hc); [|done..]. cbn [get] in E. rewrite I1 in E.
  destruct (input s) as [|y i] eqn:Ei; [done|]. injection E as <- <-. split; [|done]. by apply (Hc [y]).
Qed.
(** Contents without a leading zero are those of an integer. *)
Lemma be_canon b : bytes b -> (forall l, b <> 0 :: l) -> be (nbytes (unbe b)) (unbe b) = b.
Proof.
  intros Hb Hz. destruct b as [|x l]; [done|]. set (b := x :: l) in *.
  assert (Hn : nbytes (unbe b) = length b); [|by rewrite Hn, be_unbe].
  apply Nat2Z.inj, nbytes_unique; [simpl; lia|]. split.
  - replace (Z.of_nat (length b) - 1) with (len l) by (unfold b, len; simpl; lia).
    apply unbe_lower; [done|]. intros ->. by apply (Hz l).
  - by apply unbe_bound.
Qed.
Lemma readUint_inv n s v s' :
  inv s -> 0 <= n -> readUint n s = (inr v, s') ->
  exists b, len b = n /\ consumed b s s' /\ kind s' = None /\ v = unbe b /\ (n <> 1 -> forall l, b <> 0 :: l).
Proof.
  intros V Hn E. unfold readUint in E. destruct (Z.eqb_spec n 0) as [->|].
  { injection E as <- <-. exists []. split_and!; [done| |done..]. by apply consumed_refl. }
  destruct (Z.eqb_spec n 1) as [->|].
  { apply readByte_inv in E as [C K]; [|done]. exists [v]. split_and!; [done..| |done].
    unfold unbe. simpl. lia. }
  unfold mbind, M_bind in E. destruct (readFull n s) as [[e|b] s1] eqn:Er; [done|].
  apply readFull_inv in Er as (Hl & C & K); [|done..]. exists b. destruct b as [|x b]; [by subst|].
  destruct (Z.eqb_spec x 0); [done|]. injection E as <- <-. split_and!; [done..|]. intros _ l [= ->]. done.
Qed.

(** The header that was read. *)
Definition ahead (k : Kind) (sz : Z) (s s1 : Stream) : Prop :=
  match k with
  | Byte => sz = 0 /\ 0 <= byteval s1 < 128 /\ consumed [byteval s1] s s1
  | _ => consumed (header k sz) s s1
  end.
Lemma readKind_s_inv k sz s s1 :
  inv s -> readKind_s s = (k, sz, None, s1) -> 0 <= sz < 2 ^ 64 /\ ahead k sz s s1.
Proof.
  intros V E. unfold readKind_s in E. destruct (readByte s) as [[e|b] s0] eqn:Eb.
  { injection E. by destruct (stack s0), e. }
  apply readByte_inv in Eb as [C K]; [|done].
  assert (Hb : is_byte b) by (destruct (consumed_small _ _ _ V C) as [_ Hb]; by apply list.Forall_cons_1 in Hb as [? _]).
  unfold is_byte in Hb. assert (C0 : consumed [b] s (set_byteval 0 s0)) by by eapply consumed_core.
  set (s0' := set_byteval 0 s0) in *.
  assert (Hlong : forall kk n, kk <> Byte -> 1 <= n <= 8 -> b = (tags kk).2 + n ->
    match readUint n s0' with
    | (inl e, s) => (kk, 0, Some e, s)
    | (inr sz, s) => (kk, sz, if sz <? 56 then Some ErrCanonSize else None, s)
    end = (k, sz, None, s1) -> 0 <= sz < 2 ^ 64 /\ ahead k sz s s1).
  { clear E. intros kk n Hkk Hn -> E. destruct (readUint n s0') as [[e|v] s2] eqn:Eu; [done|].
    destruct (Z.ltb_spec v 56); [done|]. injection E as <- <- <-.
    apply readUint_inv in Eu as (c & Hc & C1 & _ & -> & Hz); [|apply C0|lia].
    destruct (consumed_small _ _ _ (con_inv _ _ _ C0) C1) as [_ Hbc].
    assert (Hlz : forall l, c <> 0 :: l).
    { destruct (decide (n = 1)) as [->|]; [|by apply Hz]. intros l ->. destruct l; [done|].
      unfold len in Hc. simpl in Hc. lia. }
    pose proof (be_canon c Hbc Hlz) as Hbe. pose proof (unbe_bound c Hbc) as Hub.
    assert (256 ^ len c <= 256 ^ 8) by (apply Z.pow_le_mono_r; lia). unfold len in *.
    split; [lia|]. assert (Hh : header kk (unbe c) = [(tags kk).2 + n] ++ c).
    { unfold header. rewrite puthead_large by (destruct kk; simpl; lia). rewrite putint_be, Hbe by lia.
      unfold len. by rewrite Hc. }
    pose proof (consumed_trans _ _ _ _ _ C0 C1) as C2. rewrite <- Hh in C2. by destruct kk. }
  assert (Hsmall : forall kk sz', kk <> Byte -> b = (tags kk).1 + sz' -> 0 <= sz' < 56 ->
    (kk, sz', @None rlpErr, s0') = (k, sz, None, s1) -> 0 <= sz < 2 ^ 64 /\ ahead k sz s s1).
  { clear E. intros kk sz' Hkk -> Hsz [= <- <- <-]. split; [lia|].
    assert (Hh : header kk sz' = [(tags kk).1 + sz']) by (unfold header; by rewrite puthead_small by (destruct kk; simpl; lia)).
    destruct kk; [done|..]; unfold ahead; by rewrite Hh. }
  destruct (Z.ltb_spec b 128).
  { injection E as <- <- <-. split; [lia|]. split_and!; [done|simpl; lia..|]. by eapply consumed_core. }
  destruct (Z.ltb_spec b 184); [apply (Hsmall String_ (b - 128)); simpl; [done|lia..|done]|].
  destruct (Z.ltb_spec b 192); [apply (Hlong String_ (b - 183)); simpl; [done|lia..|done]|].
  destruct (Z.ltb_spec b 248); [apply (Hsmall List_ (b - 192)); simpl; [done|lia..|done]|].
  apply (Hlong List_ (b - 247)); simpl; [done|lia..|done].
Qed.
Lemma Kind_inv k sz s s1 :
  inv s -> kind s = None -> Kind_ s = (inr (k, sz), s1) ->
  0 <= sz <= len (input s1) /\ ahead k sz s s1 /\ inv s1.
Proof.
  intros V K E. unfold Kind_ in E. rewrite K in E. case_bool_decide; [done|].
  destruct (readKind_s s) as [[[k' sz'] err] s0] eqn:Er. destruct err as [e|]; [done|].
  destruct (match listLimit s with Some l => l <? sz' | None => false end); [done|].
  destruct (limited s0 && (remaining s0 <? sz'))%bool eqn:El; [done|]. injection E as -> -> <-.
  apply readKind_s_inv in Er as [Hs Ha]; [|done].
  assert (Hc : forall o, consumed o s s0 -> sz <= len (input s0)).
  { intros o C. destruct (con_inv _ _ _ C). rewrite inv_limited0, inv_remaining0 in El. simpl in El.
    by apply Z.ltb_ge in El. }
  assert (ahead k sz s (set_ahead k sz None s0)).
  { destruct k; simpl in *; [destruct Ha as (? & ? & ?); split_and!; try done; try lia|..]; by eapply consumed_core. }
  destruct k; simpl in *; [destruct Ha as (? & ? & Ha)|..]; (split; [split; [lia|by eapply Hc]|]);
    (split; [done|]); [destruct H0 as (_ & _ & [])|destruct H0|destruct H0]; done.
Qed.
(** ** The end of a list is the only way to [EOL] *)
Definition noeol {A} (m : M A) : Prop := forall s s', m s <> (inl EOL, s').
Lemma noeol_bind {A B} (m : M A) (f : A -> M B) : noeol m -> (forall a, noeol (f a)) -> noeol (m ≫= f).
Proof.
  intros Hm Hf s s'. unfold mbind, M_bind. destruct (m s) as [[e|a] s1] eqn:E; [|apply Hf].
  intros [= -> ->]. by apply (Hm s s').
Qed.
Lemma noeol_ret {A} (a : A) : noeol (mret a).
Proof. by intros s s'. Qed.
Lemma noeol_fail {A} e : e <> EOL -> noeol (@fail A e).
Proof. intros He s s' [= -> _]. done. Qed.
Lemma noeol_wrap {A} (m : M A) : noeol m -> noeol (wrap m).
Proof.
  intros Hm s s'. unfold wrap. destruct (m s) as [[e|a] s1] eqn:E; [|done]. destruct e; try done.
  by destruct (Hm s s1).
Qed.
Lemma noeol_readFull n : noeol (readFull n).
Proof.
  intros s s'. unfold readFull, mbind, M_bind, willRead. destruct (stack (set_kind None s)).
  all: repeat case_match; by simplify_eq/=.
Qed.
Lemma noeol_ListEnd : noeol ListEnd.
Proof. intros s s'. unfold ListEnd, mbind, M_bind. repeat case_match; by simplify_eq/=. Qed.
Lemma noeol_readByte : noeol readByte.
Proof.
  intros s s'. unfold readByte, mbind, M_bind, willRead. destruct (stack (set_kind None s)).
  all: repeat case_match; by simplify_eq/=.
Qed.
Lemma noeol_readUint n : noeol (readUint n).
Proof.
  unfold readUint. destruct (n =? 0); [done|]. destruct (n =? 1).
  - apply noeol_readByte.
  - apply noeol_bind; [apply noeol_readFull|]. intros [|x b]; [done|]. by destruct (x =? 0); [apply noeol_fail|].
Qed.
Lemma readKind_s_eol k sz s s' : readKind_s s <> (k, sz, Some EOL, s').
Proof.
  unfold readKind_s. destruct (readByte s) as [[e|b] s1] eqn:Eb.
  { pose proof (noeol_readByte s s1). destruct (stack s1), e; naive_solver. }
  assert (Hu : forall kk n s0, match readUint n s0 with
    | (inl e, s) => (kk, 0, Some e, s)
    | (inr sz, s) => (kk, sz, if sz <? 56 then Some ErrCanonSize else None, s)
    end <> (k, sz, Some EOL, s')).
  { intros kk n s0. destruct (readUint n s0) as [[e|v] s2] eqn:Eu.
    - pose proof (noeol_readUint n s0 s2). naive_solver.
    - by destruct (v <? 56). }
  repeat (case_match; [done|]). apply Hu.
Qed.
Lemma Kind_eol s s' : kind s = None -> Kind_ s = (inl EOL, s') -> s' = s.
Proof.
  intros K E. unfold Kind_ in E. rewrite K in E. case_bool_decide; [by injection E as <-|].
  destruct (readKind_s s) as [[[k sz] err] s1] eqn:Er. pose proof (readKind_s_eol k sz s s1).
  destruct err as [e|]; [injection E as -> _; done|].
  destruct (match listLimit s with Some l => l <? sz | None => false end); [done|].
  by destruct (limited s1 && (remaining s1 <? sz))%bool.
Qed.
Create HintDb rlp_eol.
#[export] Hint Resolve noeol_ret noeol_wrap noeol_readFull noeol_ListEnd noeol_readUint : rlp_eol.
#[export] Hint Extern 1 (noeol (fail _)) => apply noeol_fail; done : rlp_eol.
#[export] Hint Extern 1 (noeol (modify _)) => done : rlp_eol.
#[export] Hint Extern 1 (noeol rearm) => done : rlp_eol.
#[export] Hint Extern 1 (noeol get) => done : rlp_eol.
#[export] Hint Extern 1 (noeol (try_ _)) => (intros ??; unfold try_; by case_match) : rlp_eol.
Ltac no_eol :=
  repeat first
    [ lazymatch goal with |- forall _, _ => intro end | solve [auto with rlp_eol] | apply noeol_bind | case_match ].

(** ** Values
    [accepts m R]: the bytes that [m] has read for its value satisfy [R], and
    [EOL] leaves the stream as it was. *)
Definition outcome_ok {A} (R : A -> list Z -> Prop) (s : Stream) (r : (rlpErr + A) * Stream) : Prop :=
  match r with
  | (inr a, s') => exists o, consumed o s s' /\ kind s' = None /\ R a o
  | (inl e, s') => e = EOL -> s' = s
  end.
Definition accepts {A} (m : M A) (R : A -> list Z -> Prop) : Prop :=
  forall s, inv s -> kind s = None -> outcome_ok R s (m s).
Definition accepts_from {A} (m : M A) (R : A -> list Z -> Prop) : Prop :=
  forall s s0, inv s -> kind s = None -> (s0 = s \/ exists r, Kind_ s = (r, s0)) -> outcome_ok R s (m s0).

Lemma accepts_peeks {A} (m : M A) R : peeks m -> accepts m R -> accepts_from m R.
Proof. intros Hp Hm s s0 V K [->|[r E]]; [|rewrite (Hp _ _ _ E)]; by apply Hm. Qed.
Lemma accepts_from_accepts {A} (m : M A) R : accepts_from m R -> accepts m R.
Proof. intros Hm s V K. apply Hm; auto. Qed.
Lemma outcome_ok_wrap {A} (m : M A) R s s0 : outcome_ok R s (m s0) -> outcome_ok R s (wrap m s0).
Proof. unfold wrap. destruct (m s0) as [[e|a] s1]; [|done]. simpl. intros He Hw. apply He. by destruct e. Qed.
Lemma accepts_wrap {A} (m : M A) R : accepts m R -> accepts (wrap m) R.
Proof. intros Hm s V K. by apply outcome_ok_wrap, Hm. Qed.
Lemma outcome_ok_map {A B} (m : M A) (g : A -> B) (R : A -> list Z -> Prop) (R' : B -> list Z -> Prop) s s0 :
  outcome_ok R s (m s0) -> (forall a o, bytes o -> R a o -> R' (g a) o) -> inv s ->
  outcome_ok R' s ((x ← m; mret (g x)) s0).
Proof.
  intros Hm HR V. unfold mbind, M_bind. destruct (m s0) as [[e|a] s1]; [done|]. simpl in *.
  destruct Hm as (o & C & K & Hr). exists o. split_and!; [done..|]. apply HR; [|done].
  by destruct (consumed_small _ _ _ V C).
Qed.
Lemma accepts_map {A B} (m : M A) (g : A -> B) (R : A -> list Z -> Prop) (R' : B -> list Z -> Prop) :
  accepts m R -> (forall a o, bytes o -> R a o -> R' (g a) o) -> accepts (x ← m; mret (g x)) R'.
Proof. intros Hm HR s V K. eapply outcome_ok_map; eauto. Qed.

Lemma accepts_impl {A} (m : M A) (R R' : A -> list Z -> Prop) :
  (forall a o, bytes o -> R a o -> R' a o) -> accepts m R -> accepts m R'.
Proof.
  intros HR Hm s V K. specialize (Hm s V K). destruct (m s) as [[e|a] s1]; [done|].
  destruct Hm as (o & C & K1 & Hr). exists o. split_and!; [done..|]. apply HR; [|done]. by destruct (consumed_small _ _ _ V C).
Qed.
Lemma accepts_bind {A B} (m : M A) (f : A -> M B) (R1 : A -> list Z -> Prop) (R2 : A -> B -> list Z -> Prop) :
  accepts m R1 -> (forall a, accepts (f a) (R2 a) /\ noeol (f a)) ->
  accepts (m ≫= f) (fun b o => exists a o1 o2, o = o1 ++ o2 /\ R1 a o1 /\ R2 a b o2).
Proof.
  intros Hm Hf s V K. specialize (Hm s V K). unfold mbind, M_bind. destruct (m s) as [[e|a] s1]; [done|].
  destruct Hm as (o1 & C & K1 & Hr). destruct (Hf a) as [Ha Hn]. specialize (Ha s1 (con_inv _ _ _ C) K1).
  destruct (f a s1) as [[e|b] s2] eqn:E; [intros ->; by destruct (Hn s1 s2)|].
  destruct Ha as (o2 & C2 & K2 & Hr2). exists (o1 ++ o2). split_and!; [by eapply consumed_trans|done|]. by exists a, o1, o2.
Qed.
Lemma accepts_Kind {A} (f : Kind * Z -> M A) R :
  (forall kz, noeol (f kz)) ->
  (forall k sz s s1 a s', inv s1 -> 0 <= sz <= len (input s1) -> ahead k sz s s1 -> f (k, sz) s1 = (inr a, s') ->
     exists o, consumed o s s' /\ kind s' = None /\ R a o) ->
  accepts (Kind_ ≫= f) R.
Proof.
  intros Hn Hf s V K. unfold mbind, M_bind. destruct (Kind_ s) as [[e|[k sz]] s1] eqn:E; simpl.
  - intros ->. by eapply Kind_eol.
  - apply Kind_inv in E as (Hsz & Ha & V1); [|done..].
    destruct (f (k, sz) s1) as [[e|a] s'] eqn:E; [|by eapply Hf]. intros ->. by destruct (Hn (k, sz) s1 s').
Qed.
(** A string of which the content has been read. *)
Lemma read_string sz s s1 b s2 :
  inv s1 -> 0 <= sz -> ahead String_ sz s s1 -> readFull sz s1 = (inr b, s2) ->
  len b = sz /\ consumed (header String_ (len b) ++ b) s s2 /\ kind s2 = None /\ bytes b.
Proof.
  intros V1 Hsz Ha E. apply readFull_inv in E as (Hl & C & K); [|done..]. split; [done|].
  split; [rewrite Hl; by eapply consumed_trans|]. split; [done|]. by destruct (consumed_small _ _ _ V1 C).
Qed.
(** The contents after the check that a single small byte is not a string. *)
Definition canon {A} (e : rlpErr) (g : list Z -> A) (b : list Z) : M A :=
  match b with
  | [x] => if x <? 128 then fail e else mret (g b)
  | _ => mret (g b)
  end.
Lemma read_canon {A} e (g : list Z -> A) sz s s1 a s2 :
  inv s1 -> 0 <= sz -> ahead String_ sz s s1 -> (readFull sz ≫= canon e g) s1 = (inr a, s2) ->
  exists b, a = g b /\ len b = sz /\ bytes b /\ consumed (enc_string b) s s2 /\ kind s2 = None.
Proof.
  intros V1 Hsz Ha E. unfold mbind, M_bind in E. destruct (readFull sz s1) as [[?|b] s3] eqn:Er; [done|].
  destruct (read_string _ _ _ _ _ V1 Hsz Ha Er) as (Hl & C & K & Hb). exists b.
  assert (Hc : a = g b /\ s2 = s3 /\ (forall x, b = [x] -> 128 <= x)).
  { unfold canon in E. destruct b as [|x [|y b]]; [by injection E as <- <-| |by injection E as <- <-].
    destruct (Z.ltb_spec x 128); [done|]. injection E as <- <-. split_and!; [done..|]. by intros ? [= <-]. }
  destruct Hc as (-> & -> & Hc). split_and!; try done. by rewrite enc_string_header.
Qed.
Lemma read_single s s1 : ahead Byte 0 s s1 -> consumed (enc_string [byteval s1]) s (set_kind None s1) /\ bytes [byteval s1].
Proof.
  intros (_ & Hb & C). rewrite enc_string_byte by lia. split; [by eapply consumed_core|].
  constructor; [unfold is_byte; lia|done].
Qed.

Definition is_string (b o : list Z) : Prop := bytes b /\ o = enc_string b.
Lemma accepts_Bytes : accepts Bytes is_string.
Proof.
  apply accepts_Kind; [intros [[] sz]; no_eol|]. intros [] sz s s1 a s' V1 Hsz Ha E; [|..|done].
  - destruct Ha as (-> & Ha). injection E as <- <-. destruct (read_single s s1) as [C Hb]; [by split|].
    eexists. split_and!; done.
  - apply (read_canon ErrCanonSize id sz s) in E as (b & -> & Hl & Hb & C & K); [|done|lia|done]. exists (enc_string b). done.
Qed.
Lemma accepts_ByteArray n :
  accepts (decodeByteArray n) (fun v o => exists b, v = VBytes b /\ length b = n /\ is_string b o).
Proof.
  apply accepts_Kind; [intros [[] sz]; no_eol|]. intros [] sz s s1 a s' V1 Hsz Ha E; [|..|done].
  - destruct Ha as (-> & Ha). destruct n as [|[|n]]; [done| |done]. injection E as <- <-.
    destruct (read_single s s1) as [C Hb]; [by split|]. eexists. split_and!; [done..|]. by exists [byteval s1].
  - cbv iota in E. destruct (Z.ltb_spec (Z.of_nat n) sz); [done|]. destruct (Z.ltb_spec sz (Z.of_nat n)); [done|].
    assert (sz = Z.of_nat n) as -> by lia.
    apply (read_canon _ VBytes (Z.of_nat n) s) in E as (b & -> & Hl & Hb & C & K); [|done|lia|done].
    exists (enc_string b). split_and!; [done..|]. exists b. split_and!; [done|unfold len in Hl; lia|done..].
Qed.
Lemma accepts_Raw : accepts Raw (fun b o => b = o /\ exists k c, framed k c o).
Proof.
  apply accepts_Kind; [intros [[] sz]; no_eol|]. intros k sz s s1 a s' V1 Hsz Ha E. destruct k.
  - destruct Ha as (-> & Hb & C). injection E as <- <-. exists [byteval s1].
    split_and!; [by eapply consumed_core|done..|]. exists Byte, [byteval s1]. by exists (byteval s1).
  - cbv iota in E. unfold mbind, M_bind in E. destruct (readFull sz s1) as [[?|b] s3] eqn:Er; [done|]. injection E as <- <-.
    apply readFull_inv in Er as (<- & C & K); [|done|lia]. exists (header String_ (len b) ++ b).
    split_and!; [by eapply consumed_trans|done..|]. by exists String_, b.
  - cbv iota in E. unfold mbind, M_bind in E. destruct (readFull sz s1) as [[?|b] s3] eqn:Er; [done|]. injection E as <- <-.
    apply readFull_inv in Er as (<- & C & K); [|done|lia]. exists (header List_ (len b) ++ b).
    split_and!; [by eapply consumed_trans|done..|]. by exists List_, b.
Qed.

(** ** Integers *)
Lemma enc_nat_unbe b : bytes b -> (forall l, b <> 0 :: l) -> enc_nat (unbe b) = enc_string b.
Proof. intros Hb Hz. unfold enc_nat. by rewrite be_canon. Qed.
Lemma unbe_single x : unbe [x] = x.
Proof. unfold unbe. simpl. lia. Qed.
Lemma unbe_nonneg b : bytes b -> 0 <= unbe b.
Proof. intros Hb. pose proof (unbe_bound b Hb). lia. Qed.
Lemma accepts_uint m : 1 <= m <= 8 -> accepts (uint (8 * m)) (fun z o => 0 <= z < 2 ^ (8 * m) /\ o = enc_nat z).
Proof.
  intros Hm. apply accepts_Kind.
  { intros [[] sz]; try solve [no_eol]. cbv iota. case_match; [by apply noeol_fail|].
    intros s s'. unfold mbind, M_bind, try_. destruct (readUint sz s) as [r s1] eqn:E. cbv iota.
    pose proof (noeol_readUint sz s s1). destruct r as [[]|]; try done; try congruence. by case_match. }
  assert (H256 : 256 <= 2 ^ (8 * m)) by (change 256 with (2 ^ 8); apply Z.pow_le_mono_r; lia).
  assert (Hdiv : 8 * m / 8 = m) by (rewrite Z.mul_comm; apply Z.div_mul; lia).
  intros [] sz s s1 a s' V1 Hsz Ha E; [|..|done].
  - destruct Ha as (-> & Ha). unfold mbind, M_bind in E. simpl in E. destruct (Z.eqb_spec (byteval s1) 0) as [|Hz]; [done|].
    injection E as <- <-. destruct (read_single s s1) as [C Hb]; [by split|].
    eexists. split_and!; [exact C|done|destruct Ha; lia..|]. rewrite <- enc_nat_unbe, unbe_single; [done..|]. naive_solver.
  - cbv iota in E. rewrite Hdiv in E. destruct (Z.ltb_spec m sz); [done|]. unfold mbind, M_bind, try_ in E.
    destruct (readUint sz s1) as [[e|v] s2] eqn:Eu; [by destruct e|].
    destruct ((0 <? sz) && (v <? 128))%bool eqn:Eb; [done|]. injection E as <- <-.
    apply readUint_inv in Eu as (b & Hl & C & K & -> & Hz); [|done|lia].
    assert (Hb : bytes b) by by destruct (consumed_small _ _ _ V1 C).
    assert (Hbig : forall x, b = [x] -> 128 <= x).
    { intros x ->. rewrite unbe_single, <- Hl in Eb. simpl in Eb. by apply Z.ltb_ge in Eb. }
    exists (enc_string b). split_and!.
    + rewrite enc_string_header by done. rewrite Hl. by eapply consumed_trans.
    + done.
    + by apply unbe_nonneg.
    + eapply Z.lt_le_trans; [by apply unbe_bound|]. rewrite pow256 by (unfold len; lia).
      apply Z.pow_le_mono_r; unfold len in *; lia.
    + symmetry. apply enc_nat_unbe; [done|]. intros l ->. destruct (decide (sz = 1)) as [->|]; [|by apply (Hz ltac:(done) l)].
      destruct l; [specialize (Hbig 0 eq_refl); lia|unfold len in Hl; simpl in Hl; lia].
Qed.
Lemma accepts_Bool : accepts Bool (fun b o => o = enc_nat (if b then 1 else 0)).
Proof.
  intros s V K. pose proof (accepts_uint 1 ltac:(lia) s V K) as Hu. change (8 * 1) with 8 in Hu.
  unfold Bool, mbind, M_bind. destruct (uint 8 s) as [[e|z] s1]; [done|]. destruct Hu as (o & C & K1 & _ & ->).
  destruct (Z.eqb_spec z 0) as [->|]; [by exists (enc_nat 0)|].
  destruct (Z.eqb_spec z 1) as [->|]; [by exists (enc_nat 1)|]. done.
Qed.
Lemma accepts_BigInt : accepts decodeBigInt (fun z o => 0 <= z /\ o = enc_nat z).
Proof.
  apply accepts_Kind; [intros [[] sz]; no_eol|]. intros k sz s s1 a s' V1 Hsz Ha E. cbv iota beta in E.
  unfold mbind at 1, M_bind at 1 in E.
  match type of E with context [match ?m s1 with _ => _ end] => destruct (m s1) as [[e|b] s2] eqn:Eb end; [done|].
  assert (Hb : bytes b /\ consumed (enc_string b) s s2 /\ kind s2 = None).
  { clear E. destruct k; [|..|done].
    - destruct Ha as (-> & Ha). injection Eb as <- <-. by destruct (read_single s s1) as [C Hb]; [by split|].
    - destruct (Z.eqb_spec sz 0) as [->|].
      + injection Eb as <- <-. split_and!; [done| |done]. by eapply consumed_core.
      + apply (read_canon ErrCanonSize id sz s) in Eb as (b' & -> & Hl & Hb & C & K); [done|done|lia|done]. }
  destruct Hb as (Hb & C & K). exists (enc_string b).
  assert (Hz : a = unbe b /\ s' = s2 /\ forall l, b <> 0 :: l).
  { destruct b as [|x b]; [by injection E as <- <-|]. destruct (Z.eqb_spec x 0); [done|].
    injection E as <- <-. split_and!; [done..|]. by intros l [= ->]. }
  destruct Hz as (-> & -> & Hz). split_and!; [done..|by apply unbe_nonneg|]. by rewrite enc_nat_unbe.
Qed.

(** ** Lists *)
Lemma List_inv s sz s1 :
  inv s -> kind s = None -> List s = (inr sz, s1) ->
  input s = header List_ sz ++ input s1 /\ stack s1 = sz :: charge (headsize sz + sz) (stack s)
  /\ inv s1 /\ kind s1 = None /\ 0 <= sz < 2 ^ 63.
Proof.
  intros V K E. unfold List, mbind, M_bind in E. destruct (Kind_ s) as [[e|[k z]] s0] eqn:Ek; [done|].
  apply Kind_inv in Ek as (Hz & Ha & V0); [|done..]. destruct k; [done..|]. injection E as <- <-.
  pose proof (con_stack _ _ _ Ha) as Hs. pose proof (inv_len _ V0). rewrite header_len in Hs by lia. split_and!; try done; try lia.
  - apply Ha.
  - simpl. f_equal. rewrite Hs. destruct (stack s) as [|l st]; [done|]. cbn [charge]. by rewrite u64_sub_sub.
  - destruct V0. split; try done. simpl. constructor; [unfold is_u64; lia|]. destruct inv_stack0; [constructor|].
    constructor; [apply u64_range|done].
Qed.
Lemma List_eol s s' : kind s = None -> List s = (inl EOL, s') -> s' = s.
Proof.
  intros K El. unfold List, mbind, M_bind in El.
  destruct (Kind_ s) as [[e|[k sz]] s2] eqn:Ek; [|by destruct k]. injection El as -> ->. by eapply Kind_eol.
Qed.
Lemma accepts_List_body {A B} (l : M Z) (le : M unit) (body : Z -> M A) (g : A -> B) (R : A -> list Z -> Prop) :
  (forall s sz s', l s = (inr sz, s') -> List s = (inr sz, s')) ->
  (forall s s', l s = (inl EOL, s') -> kind s = None -> s' = s) ->
  (forall s s', le s = (inr tt, s') -> ListEnd s = (inr tt, s')) -> noeol le ->
  (forall sz, accepts (body sz) R /\ noeol (body sz)) ->
  accepts (sz ← l; a ← body sz; le ;; mret (g a)) (fun v o => exists a o', v = g a /\ o = enc_list o' /\ R a o').
Proof.
  intros Hl Hle0 Hle Hln Hb s V K. unfold mbind at 1, M_bind at 1. destruct (l s) as [[e|sz] s1] eqn:El.
  { intros ->. by eapply Hle0. }
  apply Hl, List_inv in El as (I1 & S1 & V1 & K1 & Hsz); [|done..]. destruct (Hb sz) as [Hb' Hbn]. specialize (Hb' s1 V1 K1).
  unfold mbind at 1, M_bind at 1. destruct (body sz s1) as [[e|a] s2] eqn:Eb.
  { intros ->. by destruct (Hbn s1 s2). }
  destruct Hb' as (o & C & K2 & HR). unfold mbind, M_bind. destruct (le s2) as [[e|[]] s3] eqn:Ee.
  { intros ->. by destruct (Hln s2 s3). }
  apply Hle in Ee. unfold ListEnd, mbind, M_bind in Ee. simpl in Ee.
  pose proof (con_stack _ _ _ C) as S2. rewrite S1 in S2. cbn [charge] in S2. rewrite S2 in Ee.
  destruct (Z.ltb_spec 0 (u64 (sz - len o))) as [|Hz]; [done|]. injection Ee as <-.
  pose proof (u64_range (sz - len o)) as Hr. destruct (consumed_small _ _ _ V1 C) as [Ho _].
  assert (Hso : sz = len o).
  { unfold is_u64 in Hr. assert (H0 : u64 (sz - len o) = 0) by lia. pose proof (len_nonneg o). unfold u64 in H0.
    destruct (Z.le_gt_cases 0 (sz - len o)); [rewrite Z.mod_small in H0; lia|].
    rewrite <- (Z.mod_add _ 1), Z.mod_small in H0; lia. }
  exists (enc_list o). split_and!; [|done|by exists a, o]. pose proof (con_inv _ _ _ C) as V2.
  assert (Hi : input s = enc_list o ++ input s2).
  { unfold enc_list. rewrite I1, (con_input _ _ _ C), Hso. by rewrite <- app_assoc. }
  pose proof (len_nonneg o). split; [exact Hi| |].
  - simpl. unfold enc_list. rewrite len_app, puthead_len, Hso by lia. done.
  - destruct V2. split; try done. simpl. rewrite S2 in inv_stack0. by apply list.Forall_cons_1 in inv_stack0 as [_ ?].
Qed.
Lemma accepts_list {A B} (le : M unit) (body : Z -> M A) (g : A -> B) (R : A -> list Z -> Prop) :
  le = ListEnd \/ le = wrap ListEnd ->
  (forall sz, accepts (body sz) R /\ noeol (body sz)) ->
  accepts (sz ← wrap List; a ← body sz; le ;; mret (g a)) (fun v o => exists a o', v = g a /\ o = enc_list o' /\ R a o').
Proof.
  intros Hle Hb. apply accepts_List_body; [..|done].
  - intros s sz s' E. unfold wrap in E. by destruct (List s) as [[e|?] ?].
  - intros s s' E K. unfold wrap in E. destruct (List s) as [[e|?] s1] eqn:El; [|done]. injection E as He <-.
    assert (e = EOL) as -> by by destruct e. by eapply List_eol.
  - intros s s' E. destruct Hle as [->| ->]; [done|]. unfold wrap in E. by destruct (ListEnd s) as [[e|?] ?].
  - destruct Hle as [->| ->]; auto with rlp_eol.
Qed.
Definition elems (R : val -> list Z -> Prop) (vs : list val) (o : list Z) : Prop :=
  exists os, o = concat os /\ Forall2 R vs os.
Lemma elems_cons (R : val -> list Z -> Prop) v vs o out : R v o -> elems R vs out -> elems R (v :: vs) (o ++ out).
Proof. intros Hv (os & -> & Hos). exists (o :: os). by split; [|constructor]. Qed.
Lemma elems_enc te vs o : elems (encodes te) vs o -> enc_elems te vs o.
Proof. intros (os & -> & Hos). induction Hos; simpl; by constructor. Qed.

Lemma noeol_elems fuel dec : noeol (elems_loop fuel dec).
Proof.
  induction fuel as [|f IH]; [by apply noeol_fail|]. cbn [elems_loop]. apply noeol_bind; [auto with rlp_eol|].
  intros [[]|v]; auto with rlp_eol. apply noeol_bind; auto with rlp_eol.
Qed.
Lemma noeol_array n dec : noeol (array_loop n dec).
Proof.
  induction n as [|n IH]; [done|]. cbn [array_loop]. apply noeol_bind; [auto with rlp_eol|].
  intros [[]|v]; auto with rlp_eol. apply noeol_bind; auto with rlp_eol.
Qed.
Lemma noeol_fields fs : noeol (dec_fields fs).
Proof.
  induction fs as [|f fs IH]; [done|]. cbn [dec_fields]. apply noeol_bind; [auto with rlp_eol|].
  intros [[]|v]; auto with rlp_eol; [by destruct f.2; auto with rlp_eol|]. apply noeol_bind; auto with rlp_eol.
Qed.

(** One value, then the others. *)
Lemma outcome_ok_cons (m : M (list val)) v o s s1 (R R' : list val -> list Z -> Prop) :
  consumed o s s1 -> outcome_ok R s1 (m s1) -> noeol m ->
  (forall vs out, R vs out -> R' (v :: vs) (o ++ out)) ->
  outcome_ok R' s ((vs ← m; mret (v :: vs)) s1).
Proof.
  intros C Hm Hn HR. unfold mbind, M_bind. destruct (m s1) as [[e|vs] s2] eqn:E.
  - intros ->. by destruct (Hn s1 s2).
  - destruct Hm as (out & C2 & K2 & Hr). exists (o ++ out). split_and!; [by eapply consumed_trans|done|by apply HR].
Qed.
Lemma accepts_elems dec R fuel : accepts dec R -> accepts (elems_loop fuel dec) (elems R).
Proof.
  intros Hd. induction fuel as [|f IH]; intros s V K; [done|]. cbn [elems_loop]. unfold mbind at 1, M_bind at 1, try_.
  specialize (Hd s V K). destruct (dec s) as [[e|v] s1].
  - destruct e; try done. rewrite (Hd eq_refl). exists []. split_and!; [by apply consumed_refl|done|]. by exists [].
  - destruct Hd as (o & C & K1 & Hv). eapply outcome_ok_cons; [done|by apply IH; [apply C|]|apply noeol_elems|].
    intros vs out. by apply elems_cons.
Qed.
Lemma accepts_sliceElems dec R : accepts dec R -> accepts (decodeSliceElems dec) (elems R).
Proof. intros Hd s. by apply accepts_elems. Qed.
Lemma accepts_array dec R n :
  accepts dec R -> accepts (array_loop n dec) (fun vs o => length vs = n /\ elems R vs o).
Proof.
  intros Hd. induction n as [|n IH]; intros s V K; cbn [array_loop].
  - exists []. split_and!; [by apply consumed_refl|done..|]. by exists [].
  - unfold mbind at 1, M_bind at 1, try_. specialize (Hd s V K). destruct (dec s) as [[e|v] s1].
    + by destruct e.
    + destruct Hd as (o & C & K1 & Hv). eapply outcome_ok_cons; [done|by apply IH; [apply C|]|apply noeol_array|].
      intros vs out [<- He]. split; [done|]. by apply elems_cons.
Qed.
Lemma accepts_ListSlice dec R :
  accepts dec R -> accepts (decodeListSlice dec) (fun v o => exists vs o', v = VList vs /\ o = enc_list o' /\ elems R vs o').
Proof.
  intros Hd s V K.
  pose proof (accepts_list ListEnd (fun sz => if sz =? 0 then mret [] else decodeSliceElems dec) VList (elems R)
    ltac:(by left)) as Ha.
  assert (E : decodeListSlice dec s
    = (sz ← wrap List; vs ← (if sz =? 0 then mret [] else decodeSliceElems dec); ListEnd ;; mret (VList vs)) s).
  { unfold decodeListSlice, mbind, M_bind. destruct (wrap List s) as [[e|sz] s1]; [done|]. by destruct (sz =? 0). }
  rewrite E. apply Ha; [|done..]. intros sz. destruct (sz =? 0).
  - split; [|done]. intros s1 V1 K1. exists []. split_and!; [by apply consumed_refl|done|]. by exists [].
  - split; [by apply accepts_sliceElems|]. intros s1 s2. apply noeol_elems.
Qed.
(** ** Interfaces and pointers *)
Lemma accepts_look {A} (f : Kind * Z -> M A) R : (forall kz, accepts_from (f kz) R) -> accepts (Kind_ ≫= f) R.
Proof.
  intros Hf s V K. unfold mbind, M_bind. destruct (Kind_ s) as [[e|kz] s1] eqn:E.
  - intros ->. by eapply Kind_eol.
  - apply Hf; eauto.
Qed.
Lemma accepts_interface f : accepts (decodeInterface f) (encodes TInterface).
Proof.
  induction f as [|f IH]; [by intros s _ _|]. cbn [decodeInterface].
  assert (Hb : accepts_from (b ← Bytes; mret (VBytes b)) (encodes TInterface)).
  { apply accepts_peeks; [unfold Bytes; peek|]. eapply accepts_map; [apply accepts_Bytes|].
    intros b o _ [Hb ->]. by constructor. }
  apply accepts_look. intros [[] sz]; [done..|]. apply accepts_peeks; [unfold decodeListSlice; peek|].
  intros s V K. pose proof (accepts_ListSlice _ _ IH s V K) as Hl.
  destruct (decodeListSlice (decodeInterface f) s) as [[e|v] s1]; [done|].
  destruct Hl as (o & C & K1 & vs & o' & -> & -> & He). exists (enc_list o'). split_and!; [done..|].
  by apply e_if_list, elems_enc.
Qed.
Lemma accepts_from_interface : accepts_from (decode TInterface) (encodes TInterface).
Proof.
  intros s s0 V K H0. cbn [decode]. unfold mbind, M_bind, get. cbv beta iota.
  eapply accepts_peeks; [|apply accepts_interface|done..]. cbn [decodeInterface Nat.add]. peek.
Qed.

Lemma header_head k sz tl : k <> Byte -> 0 < sz < 2 ^ 64 -> header k sz <> 0x80 :: tl /\ header k sz <> 0xC0 :: tl.
Proof.
  intros Hk Hsz. unfold header. destruct (Z.lt_ge_cases sz 56).
  - rewrite puthead_small by (destruct k; simpl; lia). destruct k; [done|..]; simpl; split; intros [= E]; lia.
  - rewrite puthead_large by (destruct k; simpl; lia). pose proof (nbytes_u64 sz ltac:(lia)).
    rewrite putint_len by lia. destruct k; [done|..]; simpl; split; intros [= E]; lia.
Qed.
Lemma accepts_nilPtr nk dec te :
  nk <> Byte -> accepts_from dec (encodes te) -> accepts_from (decodeNilPtr nk dec) (encodes (TPtr (Some nk) te)).
Proof.
  intros Hnk Hd. apply accepts_peeks; [unfold decodeNilPtr; peek|]. intros s V K. unfold decodeNilPtr, mbind at 1, M_bind at 1.
  unfold wrap. destruct (Kind_ s) as [[e|[k sz]] s1] eqn:Ek.
  { intros He. assert (e = EOL) as -> by by destruct e. by eapply Kind_eol. }
  specialize (Hd s s1 V K ltac:(eauto)). apply Kind_inv in Ek as (Hsz & Ha & V1); [|done..].
  destruct (negb (bool_decide (k = Byte)) && (sz =? 0))%bool eqn:Eb.
  - apply andb_true_iff in Eb as [Hk%negb_true_iff%bool_decide_eq_false ->%Z.eqb_eq].
    case_bool_decide as Hkk; [subst k|done]. exists [nilEncoding nk]. split_and!; [|done|by constructor].
    destruct nk; [done|..]; by eapply consumed_core.
  - unfold mbind, M_bind. destruct (dec s1) as [[e|v] s2]; [done|]. destruct Hd as (o & C & K2 & He). exists o.
    split_and!; [done..|]. pose proof (con_input _ _ _ C) as Hi. pose proof (inv_len _ V1).
    assert (Hne : forall x, x = 0x80 \/ x = 0xC0 -> o <> [x]).
    { intros x Hx ->. destruct (decide (k = Byte)) as [->|Hk].
      - destruct Ha as (_ & Hb & Ca). rewrite (con_input _ _ _ Ca) in Hi. simplify_eq/=. lia.
      - rewrite bool_decide_eq_false_2 in Eb by done. apply Z.eqb_neq in Eb.
        assert (Ca : consumed (header k sz) s s1) by by destruct k. rewrite (con_input _ _ _ Ca) in Hi.
        destruct (header_head k sz (drop 1 (header k sz)) Hk ltac:(lia)).
        destruct (header k sz) as [|y h] eqn:Eh; [|simplify_eq/=; naive_solver].
        pose proof (header_len k sz ltac:(lia)) as Hh. rewrite Eh in Hh. pose proof (headsize_bounds sz ltac:(lia)).
        rewrite len_nil in Hh. lia. }
    apply e_nilptr; [done|apply Hne; auto..].
Qed.

(** ** Types without optional fields *)
Inductive plain : typ -> Prop :=
  | p_raw : plain TRaw
  | p_big : plain TBigInt
  | p_uint m : 1 <= m <= 8 -> plain (TUint m)
  | p_bool : plain TBool
  | p_string : plain TString
  | p_bytes : plain TBytes
  | p_byte_array n : plain (TByteArray n)
  | p_slice te : plain te -> plain (TSlice te)
  | p_array n te : plain te -> plain (TArray n te)
  | p_struct fs : plain_fields fs -> plain (TStruct fs)
  | p_ptr te : plain te -> plain (TPtr None te)
  | p_nilptr k te : k <> Byte -> plain te -> plain (TPtr (Some k) te)
  | p_interface : plain TInterface
with plain_fields : list (typ * bool) -> Prop :=
  | pf_nil : plain_fields []
  | pf_tail te : plain te -> plain_fields [(TTail te, false)]
  | pf_cons t fs : plain t -> plain_fields fs -> plain_fields ((t, false) :: fs).
Scheme plain_mut := Minimality for plain Sort Prop
  with plain_fields_mut := Minimality for plain_fields Sort Prop.
Combined Scheme plain_mutind from plain_mut, plain_fields_mut.

Lemma plain_no_tail t : plain t -> no_tail t = true.
Proof. by induction 1. Qed.
Lemma plain_opt_ok fs : plain_fields fs -> opt_ok fs = true.
Proof. induction 1; try done. Qed.

Lemma accepts_from_impl {A} (m : M A) (R R' : A -> list Z -> Prop) :
  (forall a o, bytes o -> R a o -> R' a o) -> accepts_from m R -> accepts_from m R'.
Proof.
  intros HR Hm s s0 V K H0. specialize (Hm s s0 V K H0). destruct (m s0) as [[e|a] s1]; [done|].
  destruct Hm as (o & C & K1 & Hr). exists o. split_and!; [done..|]. apply HR; [|done]. by destruct (consumed_small _ _ _ V C).
Qed.
Lemma accepts_fields_cons t fs :
  accepts (decode t) (encodes t) -> accepts (dec_fields fs) (enc_fields fs) ->
  accepts (dec_fields ((t, false) :: fs)) (enc_fields ((t, false) :: fs)).
Proof.
  intros Ht Hfs s V K. cbn [dec_fields fst snd]. unfold mbind at 1, M_bind at 1, try_. specialize (Ht s V K).
  destruct (decode t s) as [[e|v] s1]; [by destruct e|]. destruct Ht as (o & C & K1 & Hv).
  eapply outcome_ok_cons; [done|by apply Hfs; [apply C|]|apply noeol_fields|]. intros vs out He. by apply ef_cons.
Qed.
Lemma accepts_fields_tail te :
  no_tail te = true -> accepts (decode te) (encodes te) -> accepts (dec_fields [(TTail te, false)]) (enc_fields [(TTail te, false)]).
Proof.
  intros Hn Ht s V K. cbn [dec_fields fst snd decode]. unfold mbind at 1, M_bind at 1, try_.
  pose proof (accepts_sliceElems _ _ Ht s V K) as Hs. unfold mbind at 1, M_bind at 1.
  destruct (decodeSliceElems (decode te) s) as [[e|vs] s1]; [by destruct e|].
  destruct Hs as (o & C & K1 & He). exists o. split_and!; [done..|]. apply ef_tail; [done|by apply elems_enc].
Qed.
Lemma decoder_accepts :
  (forall t, plain t -> accepts_from (decode t) (encodes t))
  /\ (forall fs, plain_fields fs -> accepts (dec_fields fs) (enc_fields fs)).
Proof.
  assert (Hw : forall A (m : M A) (g : A -> val) R t, peeks m -> accepts m R ->
    (forall a o, bytes o -> R a o -> encodes t (g a) o) -> accepts_from (x ← wrap m; mret (g x)) (encodes t)).
  { intros A m g R t Hp Hm HR. apply accepts_peeks; [by apply peeks_bind, peeks_wrap|].
    eapply accepts_map; [by apply accepts_wrap|done]. }
  apply plain_mutind.
  - apply accepts_peeks; [cbn [decode]; unfold Raw; peek|]. eapply accepts_map; [apply accepts_Raw|].
    intros b o Hb (-> & k & c & Hf). by eapply e_raw.
  - eapply Hw; [unfold decodeBigInt; peek|apply accepts_BigInt|]. intros z o _ [Hz ->]. by constructor.
  - intros m Hm. eapply Hw; [unfold uint; peek|by apply accepts_uint|]. intros z o _ [Hz ->]. by constructor.
  - eapply Hw; [unfold Bool, uint; peek|apply accepts_Bool|]. intros b o _ ->. by constructor.
  - eapply Hw; [unfold Bytes; peek|apply accepts_Bytes|]. intros b o _ [Hb ->]. by constructor.
  - eapply Hw; [unfold Bytes; peek|apply accepts_Bytes|]. intros b o _ [Hb ->]. by constructor.
  - intros n. apply accepts_peeks; [cbn [decode]; unfold decodeByteArray; peek|].
    eapply accepts_from_accepts, accepts_from_impl; [|apply accepts_peeks, accepts_ByteArray; unfold decodeByteArray; peek].
    intros v o _ (b & -> & Hl & Hb & ->). by constructor.
  - intros te Hp IH. eapply accepts_from_impl;
      [|apply accepts_peeks, accepts_ListSlice, accepts_from_accepts, IH; unfold decodeListSlice; peek].
    intros v o _ (vs & o' & -> & -> & He). apply e_slice; [by apply plain_no_tail|by apply elems_enc].
  - intros n te Hp IH. eapply accepts_from_impl;
      [|apply accepts_peeks, (accepts_list (wrap ListEnd) (fun _ => array_loop n (decode te)) VList (fun vs o => length vs = n /\ elems (encodes te) vs o)
          (or_intror eq_refl)); [cbn [decode]; unfold decodeListArray; peek|]; intros _;
        split; [by apply accepts_array, accepts_from_accepts|apply noeol_array]].
    intros v o _ (vs & o' & -> & -> & Hn & He). apply e_array; [done|by apply elems_enc].
  - intros fs Hp IH. rewrite decode_struct. eapply accepts_from_impl;
      [|apply accepts_peeks, (accepts_list (wrap ListEnd) (fun _ => dec_fields fs) VStruct (enc_fields fs) (or_intror eq_refl)); [peek|]; intros _;
        split; [exact IH|apply noeol_fields]].
    intros v o _ (vs & o' & -> & -> & He). apply e_struct; [by apply plain_opt_ok|done].
  - intros te _ IH s s0 V K H0. eapply outcome_ok_map; [by apply IH| |done]. intros v o _ He. by constructor.
  - intros k te Hk _ IH. by apply accepts_nilPtr.
  - apply accepts_from_interface.
  - intros s V K. exists []. split_and!; [by apply consumed_refl|done|constructor].
  - intros te Hp IH. apply accepts_fields_tail; [by apply plain_no_tail|by apply accepts_from_accepts].
  - intros t fs _ IH1 _ IH2. by apply accepts_fields_cons; [apply accepts_from_accepts|].
Qed.

(** C18.  The decoder of a type without optional fields accepts exactly the
    encodings of its values: no value has two encodings that are accepted. *)
Theorem decode_exact t b v :
  plain t -> bytes b -> len b < 2 ^ 63 -> DecodeBytes t b = inr v <-> encodes t v b.
Proof.
  intros Hp Hb Hl. split; [|intros He; apply decode_encoded; [done|lia]].
  unfold DecodeBytes. assert (V : inv (NewStream b (len b))).
  { split; try done. simpl. destruct (Z.ltb_spec 0 (len b)); [done|]. done. }
  pose proof (proj1 decoder_accepts t Hp _ _ V eq_refl (or_introl eq_refl)) as Ha.
  destruct (decode t (NewStream b (len b))) as [[e|v'] s]; [done|]. destruct Ha as (o & C & _ & He).
  destruct (Z.ltb_spec 0 (len (input s))); [done|]. intros [= ->].
  pose proof (con_input _ _ _ C) as Hi. simpl in Hi. destruct (input s); [|rewrite len_cons in *; pose proof (len_nonneg l); lia].
  by rewrite Hi, app_nil_r.
Qed.
(** A node record: a signature, a sequence number and the list of entries. *)
Lemma decode_exact_witness :
  plain (TStruct [(TBytes, false); (TUint 8, false); (TTail TRaw, false)])
  /\ DecodeBytes (TStruct [(TBytes, false); (TUint 8, false); (TTail TRaw, false)]) [0xC4; 0x80; 0x07; 0x02; 0xC0]
     = inr (VStruct [VBytes []; VInt 7; VList [VBytes [2]; VBytes [0xC0]]])
  /\ encodes (TStruct [(TBytes, false); (TUint 8, false); (TTail TRaw, false)])
       (VStruct [VBytes []; VInt 7; VList [VBytes [2]; VBytes [0xC0]]]) [0xC4; 0x80; 0x07; 0x02; 0xC0].
Proof.
  assert (Hp : plain (TStruct [(TBytes, false); (TUint 8, false); (TTail TRaw, false)])).
  { constructor. apply pf_cons; [constructor|]. apply pf_cons; [constructor; lia|]. apply pf_tail. constructor. }
  split; [done|]. split; [vm_compute; reflexivity|].
  apply (decode_exact _ [0xC4; 0x80; 0x07; 0x02; 0xC0]); [done|repeat constructor; unfold is_byte; lia|done|].
  vm_compute. reflexivity.
Defined.
End RlpExact.
