(* ===== verification/RlpTotal.v ===== *)
(** * RLP: decoding ends

    The loops of the decoders are bounded by the length of the input; these
    bounds are never reached, whatever the input: every element and every
    level of nesting takes at least one byte. *)

From stdpp Require Import base list numbers strings.
From Stdlib Require Import ZArith Lia.
From S2P Require Import Prelude Bytes Rlp RlpProps RlpStream RlpTypes RlpRoundtrip RlpDecode.

Module RlpTotal.
Import Rlp RlpProps RlpStream RlpTypes RlpRoundtrip RlpDecode.

(** A tail is a field of a struct. *)
Fixpoint wf (t : typ) : bool :=
  match t with
  | TSlice te | TTail te | TArray _ te | TPtr _ te => no_tail te && wf te
  | TStruct fs => forallb (fun f => wf f.1) fs && forallb (fun f => no_tail f.1) (removelast fs)
  | _ => true
  end.

(** ** Operations that do not run out of fuel *)
Definition good (s : Stream) : Prop := kinderr s <> Some out_of_fuel.
Definition left (s : Stream) : nat := length (input s).
Definition fine {A} (s : Stream) (r : (rlpErr + A) * Stream) : Prop :=
  good r.2 /\ r.1 <> inl out_of_fuel /\ (left r.2 <= left s)%nat.
Definition tame {A} (m : M A) : Prop := forall s, good s -> fine s (m s).
(** Success leaves nothing ahead, and has taken something. *)
Definition armed {A} (m : M A) : Prop := forall s a s', m s = (inr a, s') -> kind s' = None.
Definition takes {A} (m : M A) : Prop :=
  forall s a s', good s -> kind s = None -> m s = (inr a, s') -> (left s' < left s)%nat.

Lemma tame_bind {A B} (m : M A) (f : A -> M B) : tame m -> (forall a, tame (f a)) -> tame (m ≫= f).
Proof.
  intros Hm Hf s G. specialize (Hm s G). unfold mbind, M_bind. destruct (m s) as [[e|a] s1]; destruct Hm as (G1 & Hr & Hl); simpl in *.
  - split_and!; [done|by intros [= ->]|done].
  - destruct (Hf a s1 G1) as (G2 & Hr2 & Hl2). split_and!; [done..|lia].
Qed.
Lemma tame_ret {A} (a : A) : tame (mret a).
Proof. intros s G. by split_and!. Qed.
Lemma tame_fail {A} e : e <> out_of_fuel -> tame (@fail A e).
Proof. intros He s G. split_and!; [done| |done]. by intros [= ->]. Qed.
Lemma tame_get : tame get.
Proof. intros s G. by split_and!. Qed.
Lemma tame_rearm : tame rearm.
Proof. intros s G. by split_and!. Qed.
Lemma tame_wrap {A} (m : M A) : tame m -> tame (wrap m).
Proof.
  intros Hm s G. specialize (Hm s G). unfold wrap. destruct (m s) as [[e|a] s1]; [|done].
  destruct Hm as (G1 & Hr & Hl). split_and!; [done| |done]. simpl in *. intros [= E]. apply Hr. f_equal. by destruct e.
Qed.
Lemma tame_willRead n : tame (willRead n).
Proof. intros s G. unfold willRead. repeat case_match; by split_and!. Qed.
Lemma tame_readFull n : tame (readFull n).
Proof.
  apply tame_bind; [apply tame_willRead|]. intros _ s G. unfold mbind, M_bind, get. case_match; split_and!; try done.
  all: unfold left; simpl; rewrite ?length_drop; lia.
Qed.
Lemma tame_readByte : tame readByte.
Proof.
  apply tame_bind; [apply tame_willRead|]. intros _ s G. unfold mbind, M_bind, get, left, fine. simpl.
  destruct (input s) eqn:E; simpl; split_and!; try done; unfold left; simpl; rewrite E; simpl; lia.
Qed.
Lemma tame_readUint n : tame (readUint n).
Proof.
  unfold readUint. destruct (n =? 0); [apply tame_bind; [apply tame_rearm|intros _; apply tame_ret]|].
  destruct (n =? 1); [apply tame_readByte|]. apply tame_bind; [apply tame_readFull|]. intros [|x b]; [apply tame_ret|].
  destruct (x =? 0); [by apply tame_fail|apply tame_ret].
Qed.
Create HintDb rlp_tame.
#[export] Hint Resolve tame_ret tame_get tame_rearm tame_wrap tame_readFull tame_readByte tame_readUint : rlp_tame.
#[export] Hint Extern 1 (tame (fail _)) => apply tame_fail; done : rlp_tame.
#[export] Hint Extern 1 (tame (modify _)) => (intros ??; by split_and!) : rlp_tame.
Ltac tame :=
  repeat first [ lazymatch goal with |- forall _, _ => intro end | solve [auto with rlp_tame] | apply tame_bind | case_match ].

Lemma readByte_takes s b s' : readByte s = (inr b, s') -> (left s' < left s)%nat.
Proof.
  unfold readByte, mbind, M_bind, get. destruct (willRead 1 s) as [[e|[]] s1] eqn:E; [done|].
  assert (Hi : input s1 = input s) by (unfold willRead in E; repeat case_match; by simplify_eq).
  rewrite Hi. unfold left. destruct (input s) as [|x i]; [done|]. intros [= <- <-]. simpl. lia.
Qed.
Lemma readKind_s_fine s k sz err s' :
  good s -> readKind_s s = (k, sz, err, s') ->
  good s' /\ err <> Some out_of_fuel /\ (left s' <= left s)%nat /\ (err = None -> (left s' < left s)%nat).
Proof.
  intros G. unfold readKind_s. pose proof (tame_readByte s G) as Ht. pose proof (readByte_takes s) as Hb.
  destruct (readByte s) as [[e|b] s1]; destruct Ht as (G1 & Hr & Hl); simpl in *.
  { intros [= <- <- <- <-]. split_and!; [done| |done|done]. intros [= He]. apply Hr. f_equal.
    destruct (stack s1); [by destruct e|done]. }
  specialize (Hb b s1 eq_refl).
  assert (Hu : forall kk n s0, good s0 -> left s0 = left s1 -> match readUint n s0 with
    | (inl e, s) => (kk, 0, Some e, s)
    | (inr sz, s) => (kk, sz, if sz <? 56 then Some ErrCanonSize else None, s)
    end = (k, sz, err, s') ->
    good s' /\ err <> Some out_of_fuel /\ (left s' <= left s)%nat /\ (err = None -> (left s' < left s)%nat)).
  { intros kk n s0 G0 Hl0. pose proof (tame_readUint n s0 G0) as Ht.
    destruct (readUint n s0) as [[e|v] s2]; destruct Ht as (G2 & Hr2 & Hl2); simpl in *; intros [= <- <- <- <-].
    - split_and!; [done|by intros [= ->]|lia|done].
    - split_and!; [done|by destruct (v <? 56)|lia|lia]. }
  assert (Hd : forall kk z s0, (kk, z, None, s0) = (k, sz, err, s') -> good s0 -> left s0 = left s1 ->
    good s' /\ err <> Some out_of_fuel /\ (left s' <= left s)%nat /\ (err = None -> (left s' < left s)%nat)).
  { intros kk z s0 [= <- <- <- <-] G0 Hl0. split_and!; [done|done|lia|lia]. }
  destruct (b <? 128); [intros E; eapply Hd; [exact E|exact G1|done]|]. destruct (b <? 184); [intros E; eapply Hd; [exact E|exact G1|done]|].
  destruct (b <? 192); [intros E; eapply Hu; [| |exact E]; [exact G1|done]|]. destruct (b <? 248); [intros E; eapply Hd; [exact E|exact G1|done]|intros E; eapply Hu; [| |exact E]; [exact G1|done]].
Qed.
Lemma Kind_fine s : good s -> fine s (Kind_ s) /\ (forall kz, kind s = None -> (Kind_ s).1 = inr kz -> (left (Kind_ s).2 < left s)%nat).
Proof.
  intros G. unfold Kind_. destruct (kind s) as [k|].
  { split; [|done]. split_and!; [done| |done]. unfold good in G. simpl. destruct (kinderr s); [congruence|done]. }
  case_bool_decide; [by split; [split_and!|]|].
  destruct (readKind_s s) as [[[k sz] err] s1] eqn:Er. apply readKind_s_fine in Er as (G1 & He & Hl & Hl'); [|done].
  set (err' := match err with Some e => Some e | None => _ end).
  assert (Hne : err' <> Some out_of_fuel) by (unfold err'; destruct err; [done|]; by repeat case_match).
  assert (Hno : err' = None -> err = None) by (unfold err'; by destruct err).
  clearbody err'. split.
  - split_and!; [done| |done]. simpl. destruct err'; [congruence|done].
  - intros kz _. simpl. destruct err'; [done|]. intros _. by apply Hl', Hno.
Qed.
Lemma tame_Kind : tame Kind_.
Proof. intros s G. by apply Kind_fine. Qed.
#[export] Hint Resolve tame_Kind : rlp_tame.
Lemma takes_Kind {A} (f : Kind * Z -> M A) : (forall kz, tame (f kz)) -> takes (Kind_ ≫= f).
Proof.
  intros Hf s a s' G K. destruct (Kind_fine s G) as [(G1 & _ & _) Hl]. unfold mbind, M_bind.
  destruct (Kind_ s) as [[e|kz] s1]; [done|]. simpl in *. specialize (Hl kz K eq_refl). intros E.
  destruct (Hf kz s1 G1) as (_ & _ & Hl2). rewrite E in Hl2. simpl in Hl2. lia.
Qed.
(** ** Nothing ahead after a value *)
Definition keeps {A} (m : M A) : Prop := forall s a s', kind s = None -> m s = (inr a, s') -> kind s' = None.
Lemma armed_keeps {A} (m : M A) : armed m -> keeps m.
Proof. intros Hm s a s' _. apply Hm. Qed.
Lemma armed_first {A B} (m : M A) (f : A -> M B) : armed m -> (forall a, keeps (f a)) -> armed (m ≫= f).
Proof.
  intros Hm Hf s b s'. unfold mbind, M_bind. destruct (m s) as [[e|a] s1] eqn:E; [done|]. apply Hf. by eapply Hm.
Qed.
Lemma armed_rest {A B} (m : M A) (f : A -> M B) : (forall a, armed (f a)) -> armed (m ≫= f).
Proof. intros Hf s b s'. unfold mbind, M_bind. destruct (m s) as [[e|a] s1] eqn:E; [done|]. apply Hf. Qed.
Lemma keeps_bind {A B} (m : M A) (f : A -> M B) : keeps m -> (forall a, keeps (f a)) -> keeps (m ≫= f).
Proof.
  intros Hm Hf s b s' K. unfold mbind, M_bind. destruct (m s) as [[e|a] s1] eqn:E; [done|]. apply Hf. by eapply Hm.
Qed.
Lemma keeps_ret {A} (a : A) : keeps (mret a).
Proof. by intros s b s' K [= _ <-]. Qed.
Lemma armed_fail {A} e : armed (@fail A e).
Proof. by intros s b s'. Qed.
Lemma armed_rearm : armed rearm.
Proof. by intros s b s' [= _ <-]. Qed.
Lemma armed_wrap {A} (m : M A) : armed m -> armed (wrap m).
Proof. intros Hm s b s'. unfold wrap. destruct (m s) as [[e|a] s1] eqn:E; [done|]. intros [= <- <-]. by eapply Hm. Qed.
Lemma willRead_kind n s : kind (willRead n s).2 = None.
Proof. unfold willRead. by repeat case_match. Qed.
Lemma readFull_kind n s : kind (readFull n s).2 = None.
Proof.
  unfold readFull, mbind, M_bind, get. pose proof (willRead_kind n s). destruct (willRead n s) as [[e|[]] s1]; [done|].
  by case_match.
Qed.
Lemma readUint_kind n s : kind (readUint n s).2 = None.
Proof.
  unfold readUint. destruct (n =? 0); [done|]. destruct (n =? 1).
  - unfold readByte, mbind, M_bind, get. pose proof (willRead_kind 1 s). destruct (willRead 1 s) as [[e|[]] s1]; [done|].
    by case_match.
  - unfold mbind, M_bind. pose proof (readFull_kind n s). destruct (readFull n s) as [[e|[|x b]] s1]; [done..|].
    by case_match.
Qed.
Lemma armed_try_readUint n : armed (try_ (readUint n)).
Proof.
  intros s b s'. unfold try_. pose proof (readUint_kind n s). destruct (readUint n s). by intros [= _ <-].
Qed.
Lemma armed_readFull n : armed (readFull n).
Proof. intros s b s' E. pose proof (readFull_kind n s) as K. by rewrite E in K. Qed.
Lemma keeps_modify_size z : keeps (modify (set_size z)).
Proof. by intros s b s' K [= _ <-]. Qed.
Lemma keeps_get : keeps get.
Proof. by intros s b s' K [= _ <-]. Qed.
Create HintDb rlp_arm.
#[export] Hint Resolve keeps_ret keeps_get armed_fail armed_rearm armed_wrap armed_try_readUint armed_readFull
  keeps_modify_size : rlp_arm.
#[export] Hint Resolve armed_keeps | 5 : rlp_arm.
Ltac arm :=
  repeat first [ lazymatch goal with |- forall _, _ => intro end | solve [auto with rlp_arm]
               | apply armed_first; [solve [auto with rlp_arm]|] | apply armed_rest | apply keeps_bind | case_match ].
Lemma armed_ListEnd : armed ListEnd.
Proof. unfold ListEnd. arm. Qed.
Lemma armed_List : armed List.
Proof. unfold List. arm. Qed.
Lemma armed_Bytes : armed Bytes.
Proof. unfold Bytes. arm. Qed.
Lemma tame_Bytes : tame Bytes.
Proof. unfold Bytes. tame. Qed.
Lemma tame_List : tame List.
Proof. unfold List. tame. Qed.
Lemma tame_ListEnd : tame ListEnd.
Proof. unfold ListEnd. tame. Qed.
#[export] Hint Resolve armed_List armed_ListEnd armed_Bytes : rlp_arm.
#[export] Hint Resolve tame_Bytes tame_List tame_ListEnd : rlp_tame.
Lemma takes_Bytes : takes Bytes.
Proof. apply takes_Kind. intros [[] sz]; tame. Qed.
Lemma takes_wrap {A} (m : M A) : takes m -> takes (wrap m).
Proof. intros Hm s a s' G K. unfold wrap. destruct (m s) as [[e|b] s1] eqn:E; [done|]. intros [= <- <-]. by eapply Hm. Qed.
Lemma takes_List : takes List.
Proof. apply takes_Kind. intros [[] sz]; tame. Qed.
Lemma tame_uint_string sz :
  tame (r ← try_ (readUint sz);
        match r with
        | inl ErrCanonSize => fail ErrCanonInt
        | inl e => fail e
        | inr v => if ((0 <? sz) && (v <? 128))%bool then fail ErrCanonSize else mret v
        end).
Proof.
  intros s G. unfold mbind, M_bind, try_.
  pose proof (tame_readUint sz s G) as (G1 & Hr & Hl). destruct (readUint sz s) as [[e|v] s1]; simpl in *.
  - by destruct e; split_and!.
  - by case_match; split_and!.
Qed.
#[export] Hint Resolve tame_uint_string : rlp_tame.
Lemma tame_uint m : tame (uint m).
Proof. unfold uint. tame. Qed.
Lemma armed_uint m : armed (uint m).
Proof. apply armed_rest. intros [[] sz]; arm. Qed.
#[export] Hint Resolve tame_uint : rlp_tame.
#[export] Hint Resolve armed_uint : rlp_arm.
Lemma takes_uint m : takes (uint m).
Proof. apply takes_Kind. intros [[] sz]; tame. Qed.
Lemma takes_bind {A B} (m : M A) (f : A -> M B) : tame m -> takes m -> (forall a, tame (f a)) -> takes (m ≫= f).
Proof.
  intros Hm Ht Hf s b s' G K. pose proof (Hm s G) as (G1 & _ & _). specialize (Ht s). unfold mbind, M_bind.
  destruct (m s) as [[e|a] s1]; [done|]. specialize (Ht a s1 G K eq_refl). intros E. destruct (Hf a s1 G1) as (_ & _ & Hl).
  rewrite E in Hl. simpl in Hl. lia.
Qed.

(** ** Loops
    [solid m s]: on [s], [m] does not run out of fuel, and a value leaves
    nothing ahead and takes at least a byte. *)
Definition solid {A} (m : M A) (s : Stream) : Prop :=
  fine s (m s)
  /\ forall a s', m s = (inr a, s') -> kind s' = None /\ (kind s = None -> (left s' < left s)%nat).
Lemma solid_tame {A} (m : M A) s : good s -> tame m -> armed m -> takes m -> solid m s.
Proof. intros G Ht Ha Hk. split; [by apply Ht|]. intros a s' E. split; [by eapply Ha|]. intros K. by eapply Hk. Qed.
Lemma solid_map {A B} (m : M A) (g : A -> B) s : solid m s -> solid (x ← m; mret (g x)) s.
Proof.
  intros [(G & Hr & Hl) Ht]. unfold solid, fine, mbind, M_bind. destruct (m s) as [[e|a] s1]; simpl in *.
  - split_and!; [done|by intros [= ->]|done|done].
  - split_and!; [done..|]. intros ? ? [= _ <-]. by eapply Ht.
Qed.
(** From at most [n] bytes with nothing ahead. *)
Definition works {A} (n : nat) (dec : M A) : Prop :=
  forall s, good s -> kind s = None -> (left s <= n)%nat -> solid dec s.

Lemma fine_bind {A B} (m : M A) (f : A -> M B) s :
  fine s (m s) -> (forall a s1, m s = (inr a, s1) -> good s1 -> (left s1 <= left s)%nat -> fine s1 (f a s1)) ->
  fine s ((m ≫= f) s).
Proof.
  intros (G & Hr & Hl) Hf. unfold mbind, M_bind. destruct (m s) as [[e|a] s1]; simpl in *.
  - split_and!; [done|by intros [= ->]|done].
  - destruct (Hf a s1 eq_refl G Hl) as (G2 & Hr2 & Hl2). split_and!; [done..|lia].
Qed.
Lemma fine_try {A B} (m : M A) (f : rlpErr + A -> M B) s :
  fine s (m s) ->
  (forall e s1, e <> out_of_fuel -> good s1 -> (left s1 <= left s)%nat -> fine s1 (f (inl e) s1)) ->
  (forall a s1, m s = (inr a, s1) -> good s1 -> (left s1 <= left s)%nat -> fine s1 (f (inr a) s1)) ->
  fine s ((try_ m ≫= f) s).
Proof.
  intros (G & Hr & Hl) He Hv. unfold mbind, M_bind, try_. destruct (m s) as [[e|a] s1]; simpl in *.
  - destruct (He e s1) as (G2 & Hr2 & Hl2); [by intros ->|done..|]. split_and!; [done..|lia].
  - destruct (Hv a s1 eq_refl G Hl) as (G2 & Hr2 & Hl2). split_and!; [done..|lia].
Qed.
Lemma fine_cons (m : M (list val)) v s : fine s (m s) -> fine s ((vs ← m; mret (v :: vs)) s).
Proof. intros Hm. apply fine_bind; [done|]. intros vs s1 _ G _. by apply tame_ret. Qed.

Lemma elems_fine n dec fuel s :
  works n dec -> good s -> kind s = None -> (left s <= n)%nat -> (left s < fuel)%nat -> fine s (elems_loop fuel dec s).
Proof.
  intros Hd. revert s. induction fuel as [|f IH]; intros s G K Hn Hf; [lia|]. cbn [elems_loop].
  destruct (Hd s G K Hn) as [Hfi Ht]. apply fine_try; [done|..].
  - intros e s1 He G1 _. by destruct e; apply tame_ret || apply tame_fail.
  - intros v s1 E G1 _. destruct (Ht v s1 E) as [K1 Hl]. specialize (Hl K). apply fine_cons, IH; [done..|lia|lia].
Qed.
Lemma sliceElems_fine n dec s :
  works n dec -> good s -> kind s = None -> (left s <= n)%nat -> fine s (decodeSliceElems dec s).
Proof. intros Hd G K Hn. unfold decodeSliceElems, mbind, M_bind, get. eapply elems_fine; try done. unfold left. lia. Qed.
Lemma array_fine n dec k s :
  works n dec -> good s -> kind s = None -> (left s <= n)%nat -> fine s (array_loop k dec s).
Proof.
  intros Hd. revert s. induction k as [|k IH]; intros s G K Hn; [by apply tame_ret|]. cbn [array_loop].
  destruct (Hd s G K Hn) as [Hfi Ht]. apply fine_try; [done|..].
  - intros e s1 He G1 _. by destruct e; apply tame_fail.
  - intros v s1 E G1 Hl. destruct (Ht v s1 E) as [K1 _]. apply fine_cons, IH; [done..|lia].
Qed.
Lemma fields_fine fs s :
  Forall (fun f => forall s, good s -> kind s = None -> fine s (decode f.1 s)) fs ->
  Forall (fun f => forall s, good s -> kind s = None -> solid (decode f.1) s) (removelast fs) ->
  good s -> kind s = None -> fine s (dec_fields fs s).
Proof.
  revert s. induction fs as [|f fs IH]; intros s Hf Hs G K; [by apply tame_ret|]. cbn [dec_fields].
  apply list.Forall_cons_1 in Hf as [Hf Hfs]. apply fine_try; [by apply Hf|..].
  - intros e s1 He G1 _. destruct e; try by apply tame_fail. by destruct f.2; [apply tame_ret|apply tame_fail].
  - intros v s1 E G1 _. apply fine_cons. destruct fs as [|g fs]; [by apply tame_ret|].
    apply list.Forall_cons_1 in Hs as [Hs Hss]. destruct (Hs s G K) as [_ Ht]. apply IH; [done..|]. by eapply Ht.
Qed.

(** A list: its header, then a body that starts with nothing ahead. *)
Lemma list_solid {A} n (body : Z -> M A) s :
  good s -> (left s <= n)%nat \/ kind s = None /\ (left s <= S n)%nat ->
  (forall sz s1, good s1 -> kind s1 = None -> (left s1 <= n)%nat -> fine s1 (body sz s1)) ->
  (forall sz, armed (body sz)) -> solid (wrap List ≫= body) s.
Proof.
  intros G Hn Hb Ha. pose proof (tame_wrap _ tame_List s G) as Ht.
  assert (Hl : forall sz s1, wrap List s = (inr sz, s1) -> kind s1 = None /\ (left s1 <= n)%nat
    /\ (kind s = None -> left s1 < left s)%nat).
  { intros sz s1 E. assert (Hk : (kind s = None -> left s1 < left s)%nat).
    { intros K. by eapply takes_wrap; [apply takes_List|..]. }
    split_and!; [by eapply armed_wrap; [apply armed_List|]| |done]. destruct Ht as (_ & _ & Hl). rewrite E in Hl. simpl in Hl.
    destruct Hn as [|[K ?]]; [lia|]. specialize (Hk K). lia. }
  split.
  - apply fine_bind; [done|]. intros sz s1 E G1 _. destruct (Hl sz s1 E) as (K1 & Hl1 & _). by apply Hb.
  - unfold mbind, M_bind. destruct Ht as (G1 & _ & _). destruct (wrap List s) as [[e|sz] s1] eqn:E; [done|]. simpl in G1.
    destruct (Hl sz s1 eq_refl) as (K1 & Hl1 & Hk). intros a s' E2. split; [by eapply Ha|]. intros K. specialize (Hk K).
    destruct (Hb sz s1 G1 K1 Hl1) as (_ & _ & Hl2). rewrite E2 in Hl2. simpl in Hl2. lia.
Qed.
Lemma list_end_solid {A} n (le : M unit) (body : M A) (g : A -> val) s :
  tame le -> armed le -> good s -> (left s <= n)%nat \/ kind s = None /\ (left s <= S n)%nat ->
  (forall s1, good s1 -> kind s1 = None -> (left s1 <= n)%nat -> fine s1 (body s1)) ->
  solid (wrap List ;; a ← body; le ;; mret (g a)) s.
Proof.
  intros Hle Ha G Hn Hb. eapply list_solid; [done|exact Hn|..].
  - intros _ s1 G1 K1 Hl1. apply fine_bind; [by apply Hb|]. intros a s2 _ G2 _.
    assert (Ht : tame (le ;; mret (g a))) by tame. by apply Ht.
  - intros _. apply armed_rest. intros a. apply armed_first; [done|]. intros _. apply keeps_ret.
Qed.
Lemma listSlice_solid n dec s :
  works n dec -> good s -> (left s <= n)%nat \/ kind s = None /\ (left s <= S n)%nat -> solid (decodeListSlice dec) s.
Proof.
  intros Hd G Hn. eapply list_solid; [done|exact Hn|..].
  - intros sz s1 G1 K1 Hl1. cbv beta. destruct (sz =? 0).
    + assert (Ht : tame (ListEnd ;; mret (VList []))) by tame. by apply Ht.
    + apply fine_bind; [by eapply sliceElems_fine|]. intros vs s2 _ G2 _.
      assert (Ht : tame (ListEnd ;; mret (VList vs))) by tame. by apply Ht.
  - intros sz. arm.
Qed.
Lemma interface_solid f s :
  good s -> (S (left s) < f)%nat \/ kind s = None /\ (left s < f)%nat -> solid (decodeInterface f) s.
Proof.
  revert s. induction f as [|f IH]; intros s G Hf; [lia|]. cbn [decodeInterface].
  destruct (Kind_fine s G) as [Hk Hl].
  assert (Hs : forall kz s1, Kind_ s = (inr kz, s1) -> good s1 ->
    solid (let '(k, _) := kz in match k with List_ => decodeListSlice (decodeInterface f) | _ => b ← Bytes; mret (VBytes b) end) s1).
  { intros [k sz] s1 E G1. rewrite E in Hk, Hl. destruct Hk as (_ & _ & Hk). simpl in Hk, Hl.
    assert (Hb : solid (b ← Bytes; mret (VBytes b)) s1).
    { apply solid_map, solid_tame; [done|apply tame_Bytes|apply armed_Bytes|apply takes_Bytes]. }
    destruct k; [done..|].
    assert (Hlf : (left s1 < f)%nat) by (destruct Hf as [|[K ?]]; [lia|]; specialize (Hl _ K eq_refl); lia).
    apply (listSlice_solid (pred f)); [|done|left; lia]. intros s2 G2 K2 Hl2. apply IH; [done|]. right. split; [done|lia]. }
  split.
  - apply fine_bind; [done|]. intros kz s1 E G1 _. by apply Hs.
  - intros a s' E2. destruct Hk as (G1 & _ & Hk).
    destruct (Kind_ s) as [[e|kz] s1] eqn:E; [by rewrite (M_bind_inl _ _ _ _ _ E) in E2|].
    rewrite (M_bind_inr _ _ _ _ _ E) in E2. cbn [fst snd] in G1, Hk, Hl. destruct (Hs kz s1 eq_refl G1) as [(_ & _ & Hl2) Ht]. rewrite E2 in Hl2. simpl in Hl2.
    split; [by eapply Ht|]. intros K. specialize (Hl kz K eq_refl). lia.
Qed.
Lemma nilPtr_solid nk dec s : good s -> (forall s1, good s1 -> solid dec s1) -> solid (decodeNilPtr nk dec) s.
Proof.
  intros G Hd. unfold decodeNilPtr. destruct (Kind_fine s G) as [Hk Hl].
  assert (Hs : forall kz s1, good s1 -> let m := (let '(k, sz) := kz in
      if (negb (bool_decide (k = Byte)) && (sz =? 0))%bool
      then if bool_decide (k = nk) then rearm ;; mret VNil else fail (decodeError "wrong kind of empty value")
      else v ← dec; mret (VPtr v)) in fine s1 (m s1) /\ forall a s', m s1 = (inr a, s') -> kind s' = None).
  { intros [k sz] s1 G1. cbv zeta. destruct (_ && _)%bool.
    - case_bool_decide; split; [assert (Ht : tame (rearm ;; mret VNil)) by tame; by apply Ht|by intros ?? [= _ <-]| |done].
      by apply tame_fail.
    - destruct (solid_map dec VPtr s1 (Hd s1 G1)) as [Hfi Ht]. split; [done|]. intros a s' E. by eapply Ht. }
  assert (Hw : fine s (wrap Kind_ s)) by (apply tame_wrap; [apply tame_Kind|done]).
  split.
  - apply fine_bind; [done|]. intros kz s1 _ G1 _. by apply Hs.
  - intros a s' E2. destruct Hk as (G1 & _ & Hk). assert (Ew : wrap Kind_ s = match Kind_ s with
      | (inl e, s) => (inl (wrapStreamError e), s) | r => r end) by done.
    destruct (Kind_ s) as [[e|kz] s1]; [by rewrite (M_bind_inl _ _ _ _ _ Ew) in E2|].
    rewrite (M_bind_inr _ _ _ _ _ Ew) in E2. cbn [fst snd] in G1, Hk, Hl. destruct (Hs kz s1 G1) as [(_ & _ & Hl2) Ht]. rewrite E2 in Hl2. simpl in Hl2.
    split; [by eapply Ht|]. intros K. specialize (Hl kz K eq_refl). lia.
Qed.

(** ** All types *)
Lemma leaf_solid {A} (m : M A) (g : A -> val) s :
  good s -> tame m -> armed m -> takes m -> solid (x ← wrap m; mret (g x)) s.
Proof. intros G Ht Ha Hk. apply solid_map, solid_tame; [done|by apply tame_wrap|by apply armed_wrap|by apply takes_wrap]. Qed.
Lemma decode_total t :
  wf t = true ->
  (forall s, good s -> kind s = None -> fine s (decode t s)) /\ (no_tail t = true -> forall s, good s -> solid (decode t) s).
Proof.
  assert (Hred : forall t, (forall s, good s -> solid (decode t) s) ->
    (forall s, good s -> kind s = None -> fine s (decode t s)) /\ (no_tail t = true -> forall s, good s -> solid (decode t) s)).
  { intros t' Hs. split; [|done]. intros s G _. by apply Hs. }
  revert t. fix IH 1. intros t Hwf.
  assert (Hte : forall te, (no_tail te && wf te)%bool = true -> (no_tail te = true -> wf te = true ->
    forall s, good s -> solid (decode te) s) -> forall n, works n (decode te)).
  { intros te [Hn Hw]%andb_true_iff Hs n s G _ _. by apply Hs. }
  destruct t as [| |m| | | |n|te|te|n te|fs|nk te|]; cbn [wf] in Hwf.
  - apply Hred. intros s G. apply (solid_map Raw), solid_tame; [done|unfold Raw; tame|unfold Raw; arm|].
    apply takes_Kind. intros [[] sz]; tame.
  - apply Hred. intros s G. apply leaf_solid; [done|unfold decodeBigInt; tame|unfold decodeBigInt|].
    + apply armed_rest. intros [k sz]. apply armed_first; [destruct k; arm|arm].
    + apply takes_Kind. intros [[] sz]; tame.
  - apply Hred. intros s G. apply leaf_solid; [done|apply tame_uint|apply armed_uint|apply takes_uint].
  - apply Hred. intros s G. apply leaf_solid; [done|unfold Bool; tame|unfold Bool; arm|].
    apply takes_bind; [apply tame_uint|apply takes_uint|tame].
  - apply Hred. intros s G. apply leaf_solid; [done|apply tame_Bytes|apply armed_Bytes|apply takes_Bytes].
  - apply Hred. intros s G. apply leaf_solid; [done|apply tame_Bytes|apply armed_Bytes|apply takes_Bytes].
  - apply Hred. intros s G. apply solid_tame; [done|cbn [decode]; unfold decodeByteArray; tame|..].
    + apply armed_rest. intros [[] sz]; arm.
    + apply takes_Kind. intros [[] sz]; tame.
  - apply Hred. intros s G. apply (listSlice_solid (left s)); [|done|by left]. apply Hte; [done|]. intros Hn Hw. by apply IH.
  - split; [|done]. intros s G K. apply fine_bind; [|intros vs s1 _ G1 _; by apply tame_ret].
    apply (sliceElems_fine (left s)); [|done..]. apply Hte; [done|]. intros Hn Hw. by apply IH.
  - apply Hred. intros s G. apply (list_end_solid (left s)); [tame|arm|done|by left|].
    intros s1 G1 K1 Hl1. apply (array_fine (left s)); [|done..]. apply Hte; [done|]. intros Hn Hw. by apply IH.
  - apply Hred. intros s G. rewrite decode_struct. apply andb_true_iff in Hwf as [Hwf Hnt].
    apply (list_end_solid (left s)); [tame|arm|done|by left|]. intros s1 G1 K1 _. apply fields_fine; [| |done..].
    + clear Hnt. induction fs as [|f fs IHfs]; constructor; simpl in Hwf; apply andb_true_iff in Hwf as [H1 H2].
      * by apply IH.
      * by apply IHfs.
    + induction fs as [|f [|g fs] IHfs]; [constructor..|]. simpl in Hwf, Hnt.
      apply andb_true_iff in Hwf as [H1 H2]. apply andb_true_iff in Hnt as [H3 H4]. constructor.
      * intros s2 G2 _. by apply IH.
      * by apply IHfs.
  - apply Hred. intros s G. apply andb_true_iff in Hwf as [Hn Hw]. destruct nk as [k|]; cbn [decode].
    + apply nilPtr_solid; [done|]. by apply IH.
    + apply solid_map. by apply IH.
  - apply Hred. intros s G. cbn [decode].
    assert (Hs : solid (decodeInterface (2 + length (input s))) s) by (apply interface_solid; [done|left; unfold left; lia]).
    exact Hs.
Qed.

(** C25.  Whatever the input, decoding a value of a well-formed type ends: none of
    the loops reaches its bound. *)
Theorem decode_terminates t b : wf t = true -> DecodeBytes t b <> inl out_of_fuel.
Proof.
  intros Hwf. unfold DecodeBytes. destruct (decode_total t Hwf) as [Hf _].
  destruct (Hf (NewStream b (len b))) as (_ & Hr & _); [done..|].
  destruct (decode t (NewStream b (len b))) as [[e|v] s]; simpl in *; [by intros [= ->]|]. by case_match.
Qed.
Lemma decode_terminates_witness :
  DecodeBytes (TSlice TInterface) (replicate 40 0xC1) <> inl out_of_fuel.
Proof. apply (decode_terminates (TSlice TInterface)). reflexivity. Defined.
End RlpTotal.
