(* ===== verification/NodeID.v ===== *)
(** * Node identifiers and their distance (src/p2p/enode/node.go)

    An [ID] is a 32-byte array.  [LogDist] and [DistCmp] walk over the bytes;
    they compute the bit length of the XOR of two identifiers and compare two
    such numbers. *)

From stdpp Require Import base list numbers.
From Stdlib Require Import ZArith Lia.
From S2P Require Import Prelude Bytes.

Module NodeID.

Abbreviation ID := (list Z).
Definition is_ID (a : ID) : Prop := length a = 32%nat /\ bytes a.

(** [bits.Len8] and [bits.LeadingZeros8] *)
Definition Len8 (x : Z) : Z := if x =? 0 then 0 else Z.log2 x + 1.
Definition LeadingZeros8 (x : Z) : Z := 8 - Len8 x.

Fixpoint leading_zeros (a b : ID) : Z :=
  match a, b with
  | x :: a, y :: b =>
      let v := Z.lxor x y in
      if v =? 0 then 8 + leading_zeros a b else LeadingZeros8 v
  | _, _ => 0
  end.
Definition LogDist (a b : ID) : Z := len a * 8 - leading_zeros a b.

Fixpoint DistCmp (target a b : ID) : Z :=
  match target, a, b with
  | t :: target, x :: a, y :: b =>
      let da := Z.lxor x t in
      let db := Z.lxor y t in
      if db <? da then 1 else if da <? db then -1 else DistCmp target a b
  | _, _, _ => 0
  end.

(** ** Distances as numbers *)
Definition dist (a b : ID) : Z := Z.lxor (unbe a) (unbe b).

Lemma lxor_low a b c d n :
  0 <= n -> 0 <= b < 2 ^ n -> 0 <= d < 2 ^ n ->
  Z.lxor (a * 2 ^ n + b) (c * 2 ^ n + d) = Z.lxor a c * 2 ^ n + Z.lxor b d.
Proof.
  intros Hn Hb Hd.
  assert (Hs : forall x y, 0 <= y < 2 ^ n -> x * 2 ^ n + y = Z.lor (Z.shiftl x n) y).
  { intros x y Hy. rewrite Z.shiftl_mul_pow2 by lia. apply Z.bits_inj'. intros i Hi.
    destruct (Z.lt_ge_cases i n).
    - rewrite Z.lor_spec, Z.mul_pow2_bits_low by lia. simpl.
      rewrite <- (Z.mod_pow2_bits_low (x * 2 ^ n + y) n), <- (Z.mod_pow2_bits_low y n) by lia.
      by rewrite Z.add_comm, Z.mod_add by lia.
    - rewrite Z.lor_spec, Z.mul_pow2_bits by lia. replace i with ((i - n) + n) at 1 by lia.
      rewrite <- Z.div_pow2_bits by lia. rewrite Z.div_add_l, Z.div_small, Z.add_0_r by lia.
      destruct (decide (y = 0)) as [->|]; [by rewrite Z.bits_0, orb_false_r|].
      rewrite (Z.bits_above_log2 y); [by rewrite orb_false_r|lia|].
      apply Z.lt_le_trans with n; [apply Z.log2_lt_pow2; lia|lia]. }
  assert (Hx : 0 <= Z.lxor b d < 2 ^ n).
  { split; [apply Z.lxor_nonneg; lia|]. destruct (decide (Z.lxor b d = 0)); [lia|].
    apply Z.log2_lt_pow2; [assert (0 <= Z.lxor b d) by (apply Z.lxor_nonneg; lia); lia|].
    destruct (decide (n = 0)) as [->|]; [assert (b = 0) by lia; assert (d = 0) by lia; by subst|].
    eapply Z.le_lt_trans; [apply Z.log2_lxor; lia|].
    assert (forall y, 0 <= y < 2 ^ n -> Z.log2 y < n).
    { intros y Hy. destruct (decide (y = 0)) as [->|]; [simpl; lia|]. apply Z.log2_lt_pow2; lia. }
    apply Z.max_lub_lt; auto. }
  rewrite !Hs by done. apply Z.bits_inj'. intros i Hi.
  rewrite !Z.lxor_spec, !Z.lor_spec, !Z.lxor_spec. destruct (Z.lt_ge_cases i n).
  - rewrite !Z.shiftl_spec_low by lia. simpl. done.
  - rewrite !Z.shiftl_spec, Z.lxor_spec by lia.
    assert (Hz : forall y, 0 <= y < 2 ^ n -> Z.testbit y i = false).
    { intros y Hy. destruct (decide (y = 0)) as [->|]; [apply Z.bits_0|]. apply Z.bits_above_log2; [lia|].
      apply Z.lt_le_trans with n; [apply Z.log2_lt_pow2; lia|lia]. }
    rewrite !Hz by done. by rewrite !orb_false_r.
Qed.
Lemma byte_lxor x y : is_byte x -> is_byte y -> is_byte (Z.lxor x y).
Proof.
  unfold is_byte. intros Hx Hy. pose proof (lxor_low 0 x 0 y 8 ltac:(lia) ltac:(lia) ltac:(lia)) as E.
  split; [apply Z.lxor_nonneg; lia|]. destruct (decide (Z.lxor x y = 0)); [lia|].
  assert (0 <= Z.lxor x y) by (apply Z.lxor_nonneg; lia). change 256 with (2 ^ 8). apply Z.log2_lt_pow2; [lia|].
  eapply Z.le_lt_trans; [apply Z.log2_lxor; lia|].
  assert (forall z, 0 <= z < 256 -> Z.log2 z < 8).
  { intros z Hz. destruct (decide (z = 0)) as [->|]; [simpl; lia|]. apply Z.log2_lt_pow2; lia. }
  apply Z.max_lub_lt; auto.
Qed.
Lemma dist_cons x a y b :
  bytes a -> bytes b -> length a = length b -> dist (x :: a) (y :: b) = Z.lxor x y * 256 ^ len a + dist a b.
Proof.
  intros Ha Hb Hl. unfold dist. rewrite !unbe_cons. pose proof (unbe_bound a Ha). pose proof (unbe_bound b Hb).
  assert (E : len b = len a) by (unfold len; by rewrite Hl). rewrite E in *.
  assert (Hp : 256 ^ len a = 2 ^ (8 * len a)) by (change 256 with (2 ^ 8); by rewrite <- Z.pow_mul_r by (pose proof (len_nonneg a); lia)).
  rewrite Hp in *. apply lxor_low; [pose proof (len_nonneg a); lia|lia|lia].
Qed.
Lemma dist_bound a b : bytes a -> bytes b -> length a = length b -> 0 <= dist a b < 256 ^ len a.
Proof.
  intros Ha. revert b. induction Ha as [|x a Hx Ha IH]; intros [|y b] Hb Hl; try done.
  apply list.Forall_cons_1 in Hb as [Hy Hb]. injection Hl as Hl. rewrite dist_cons by done. specialize (IH b Hb Hl).
  pose proof (byte_lxor x y Hx Hy) as Hxy. unfold is_byte in Hxy. rewrite len_cons, Z.pow_add_r by (pose proof (len_nonneg a); lia).
  change (256 ^ 1) with 256. nia.
Qed.

(** [LogDist] is the bit length of the distance. *)
Lemma LogDist_spec a b :
  bytes a -> bytes b -> length a = length b ->
  LogDist a b = if dist a b =? 0 then 0 else Z.log2 (dist a b) + 1.
Proof.
  unfold LogDist. intros Ha. revert b. induction Ha as [|x a Hx Ha IH]; intros [|y b] Hb Hl; try done.
  apply list.Forall_cons_1 in Hb as [Hy Hb]. injection Hl as Hl. specialize (IH b Hb Hl).
  rewrite dist_cons, len_cons by done. cbn [leading_zeros]. pose proof (dist_bound a b Ha Hb Hl) as Hd.
  destruct (Z.eqb_spec (Z.lxor x y) 0) as [->|Hz].
  { rewrite Z.mul_0_l, Z.add_0_l, <- IH. lia. }
  pose proof (byte_lxor x y Hx Hy) as Hxy. unfold is_byte in Hxy. pose proof (len_nonneg a).
  destruct (Z.eqb_spec (Z.lxor x y * 256 ^ len a + dist a b) 0); [nia|].
  unfold LeadingZeros8, Len8. destruct (Z.eqb_spec (Z.lxor x y) 0); [done|].
  assert (Hp : 256 ^ len a = 2 ^ (8 * len a)) by (change 256 with (2 ^ 8); by rewrite <- Z.pow_mul_r by lia).
  assert (Hlog : Z.log2 (Z.lxor x y * 256 ^ len a + dist a b) = Z.log2 (Z.lxor x y) + 8 * len a).
  { rewrite Hp in *. pose proof (Z.log2_spec (Z.lxor x y) ltac:(lia)) as [H1 H2].
    apply Z.log2_unique; [pose proof (Z.log2_nonneg (Z.lxor x y)); lia|].
    rewrite Z.pow_succ_r, Z.pow_add_r by (pose proof (Z.log2_nonneg (Z.lxor x y)); lia).
    rewrite Z.pow_succ_r in H2 by apply Z.log2_nonneg. nia. }
  rewrite Hlog. lia.
Qed.
(** [DistCmp] compares distances. *)
Lemma DistCmp_spec t a b :
  bytes t -> bytes a -> bytes b -> length a = length t -> length b = length t ->
  DistCmp t a b = match dist a t ?= dist b t with Lt => -1 | Eq => 0 | Gt => 1 end.
Proof.
  intros Ht. revert a b. induction Ht as [|z t Hz Ht IH]; intros [|x a] [|y b] Ha Hb Hla Hlb; try done.
  apply list.Forall_cons_1 in Ha as [Hx Ha]. apply list.Forall_cons_1 in Hb as [Hy Hb].
  injection Hla as Hla. injection Hlb as Hlb. cbn [DistCmp]. rewrite !dist_cons by done.
  specialize (IH a b Ha Hb Hla Hlb). pose proof (dist_bound a t Ha Ht Hla). pose proof (dist_bound b t Hb Ht Hlb).
  assert (E : len b = len a) by (unfold len; congruence). rewrite E in *.
  destruct (Z.ltb_spec (Z.lxor y z) (Z.lxor x z)).
  { destruct (Z.compare_spec (Z.lxor x z * 256 ^ len a + dist a t) (Z.lxor y z * 256 ^ len a + dist b t)); [nia|nia|done]. }
  destruct (Z.ltb_spec (Z.lxor x z) (Z.lxor y z)).
  { destruct (Z.compare_spec (Z.lxor x z * 256 ^ len a + dist a t) (Z.lxor y z * 256 ^ len a + dist b t)); [nia|done|nia]. }
  rewrite IH. assert (Exy : Z.lxor x z = Z.lxor y z) by lia. rewrite Exy.
  destruct (Z.compare_spec (dist a t) (dist b t)) as [Ed|Hd|Hd];
    destruct (Z.compare_spec (Z.lxor y z * 256 ^ len a + dist a t) (Z.lxor y z * 256 ^ len a + dist b t)); lia.
Qed.
Lemma dist_0 a b : bytes a -> bytes b -> length a = length b -> dist a b = 0 -> a = b.
Proof.
  intros Ha Hb Hl Hd. apply Z.lxor_eq in Hd. rewrite <- (be_unbe a), <- (be_unbe b) by done. by rewrite Hl, Hd.
Qed.
Lemma dist_inj t a b : is_ID t -> is_ID a -> is_ID b -> dist a t = dist b t -> a = b.
Proof.
  intros [Lt Ht] [La Ha] [Lb Hb] Hd. apply dist_0; [done..|congruence|]. unfold dist in *.
  assert (E : Z.lxor (Z.lxor (unbe a) (unbe t)) (unbe t) = Z.lxor (Z.lxor (unbe b) (unbe t)) (unbe t)) by by rewrite Hd.
  rewrite !Z.lxor_assoc, Z.lxor_nilpotent, !Z.lxor_0_r in E. by rewrite E, Z.lxor_nilpotent.
Qed.
Lemma LogDist_range a b : is_ID a -> is_ID b -> 0 <= LogDist a b <= 256.
Proof.
  intros [La Ha] [Lb Hb]. rewrite LogDist_spec by (done || congruence).
  pose proof (dist_bound a b Ha Hb ltac:(congruence)) as Hd. unfold len in Hd. rewrite La in Hd.
  destruct (Z.eqb_spec (dist a b) 0); [lia|]. pose proof (Z.log2_nonneg (dist a b)).
  assert (Z.log2 (dist a b) < 256); [|lia]. apply Z.log2_lt_pow2; [lia|]. change (2 ^ 256) with (256 ^ Z.of_nat 32). lia.
Qed.
End NodeID.
