(* ===== verification/DiscTable.v ===== *)
(** * The node table of the discovery protocol (src/p2p/discover/table.go, node.go)

    A Kademlia-like index: 17 buckets of nodes by distance, each with a list
    of replacements and a limit on addresses per subnet.  A node is a value:
    the fields the table writes, [addedAt] and [livenessChecks], are only
    written to a node that is put at its place in the same critical section.
    Random numbers, the clock and the transport are inputs. *)

From stdpp Require Import base gmap list numbers sorting relations.
From Stdlib Require Import ZArith Lia.
From S2P Require Import Prelude Bytes NetUtil NodeID.

Module DiscTable.
Import NetUtil NodeID.

Definition bucketSize : Z := 16.
Definition maxReplacements : Z := 10.
Definition hashBits : Z := 256.
Definition nBuckets : Z := hashBits / 15.
Definition bucketMinDistance : Z := hashBits - nBuckets.
Definition bucketIPLimit : Z := 2.
Definition bucketSubnet : Z := 24.
Definition tableIPLimit : Z := 10.
Definition tableSubnet : Z := 24.
Definition seedMinTableTime : Z := 300 * 1000000000.

(** What discovery reads of an enode.Node; [n_key] is its encoded public key. *)
Record enode : Type := mk_enode { n_id : ID; n_ip : IP; n_seq : Z; n_udp : Z; n_tcp : Z; n_key : list Z }.
Record node : Type := mk_node { Node : enode; addedAt : Z; livenessChecks : Z }.
Definition nID (n : node) : ID := n_id (Node n).
Definition nIP (n : node) : IP := n_ip (Node n).
Definition wrapNode (n : enode) : node := mk_node n 0 0.
Definition set_addedAt (t : Z) (n : node) : node := mk_node (Node n) t (livenessChecks n).

Record bucket : Type := mk_bucket { entries : list node; replacements : list node; bips : DistinctNetSet }.
Record Table : Type := mk_Table {
  self : ID;
  buckets : list bucket;
  nursery : list node;
  ips : DistinctNetSet;
  initDone : bool;
}.

(** ** Operations on a bucket
    They change the bucket and the address counters of the table. *)
Definition tb : Type := DistinctNetSet * bucket.
Definition set_bips (b : bucket) (s : DistinctNetSet) : bucket := mk_bucket (entries b) (replacements b) s.
Definition set_entries (l : list node) (s : tb) : tb := (s.1, mk_bucket l (replacements s.2) (bips s.2)).
Definition set_replacements (l : list node) (s : tb) : tb := (s.1, mk_bucket (entries s.2) l (bips s.2)).

Definition addIP (s : tb) (ip : IP) : bool * tb :=
  if decide (length ip = 0%nat) then (false, s)
  else if IsLAN ip then (true, s)
  else
    let '(ok, t) := Add s.1 ip in
    if negb ok then (false, s)
    else
      let '(ok, bi) := Add (bips s.2) ip in
      if negb ok then (false, (Remove t ip, s.2))
      else (true, (t, set_bips s.2 bi)).
Definition removeIP (s : tb) (ip : IP) : tb :=
  if IsLAN ip then s else (Remove s.1 ip, set_bips s.2 (Remove (bips s.2) ip)).

Definition contains (ns : list node) (id : ID) : bool := existsb (fun n => bool_decide (nID n = id)) ns.
(** The list is never empty when it is full. *)
Definition pushNode (l : list node) (n : node) (max : Z) : list node * option node :=
  if len l <? max then (n :: l, None) else (n :: removelast l, last l).
Fixpoint deleteNode (l : list node) (n : node) : list node :=
  match l with
  | [] => []
  | x :: l => if decide (nID x = nID n) then l else x :: deleteNode l n
  end.
Definition deleteInBucket (s : tb) (n : node) : tb :=
  removeIP (set_entries (deleteNode (entries s.2) n) s) (nIP n).

Definition addReplacement (s : tb) (n : node) : tb :=
  if contains (replacements s.2) (nID n) then s
  else
    let '(ok, s) := addIP s (nIP n) in
    if negb ok then s
    else
      let '(l, removed) := pushNode (replacements s.2) n maxReplacements in
      let s := set_replacements l s in
      match removed with
      | Some r => removeIP s (nIP r)
      | None => s
      end.
(** [rnd] is the random number; without replacements there is none to pick. *)
Definition replace (s : tb) (last_ : node) (rnd : Z) : tb :=
  match last (entries s.2) with
  | None => s
  | Some e =>
      if decide (nID e <> nID last_) then s
      else
        match replacements s.2 !! Z.to_nat (rnd mod len (replacements s.2)) with
        | None => deleteInBucket s last_
        | Some r =>
            let s := set_replacements (deleteNode (replacements s.2) r) s in
            let s := set_entries (removelast (entries s.2) ++ [r]) s in
            removeIP s (nIP last_)
        end
  end.
(** The index of the first entry with an ID. *)
Fixpoint index_of (l : list node) (id : ID) : option nat :=
  match l with
  | [] => None
  | x :: l => if decide (nID x = id) then Some O else S <$> index_of l id
  end.
Definition bumpInBucket (s : tb) (n : node) : bool * tb :=
  match index_of (entries s.2) (nID n) with
  | None => (false, s)
  | Some i =>
      match entries s.2 !! i with
      | None => (false, s)
      | Some e =>
          let front s := (true, set_entries (n :: take i (entries s.2) ++ drop (S i) (entries s.2)) s) in
          if negb (IP_Equal (nIP n) (nIP e)) then
            let s := removeIP s (nIP e) in
            let '(ok, s) := addIP s (nIP n) in
            if negb ok then (false, (addIP s (nIP e)).2) else front s
          else front s
      end
  end.

(** ** Operations on the table *)
Definition bucketAtDistance (d : Z) : nat :=
  if d <=? bucketMinDistance then O else Z.to_nat (d - bucketMinDistance - 1).
Definition bucket_of (tab : Table) (id : ID) : nat := bucketAtDistance (LogDist (self tab) id).
Definition empty_bucket : bucket := mk_bucket [] [] (mk_DistinctNetSet bucketSubnet bucketIPLimit ∅).
Definition get_bucket (tab : Table) (i : nat) : bucket := default empty_bucket (buckets tab !! i).
Definition put_bucket (tab : Table) (i : nat) (s : tb) : Table :=
  mk_Table (self tab) (<[i := s.2]> (buckets tab)) (nursery tab) s.1 (initDone tab).
Definition on_bucket (tab : Table) (i : nat) (f : tb -> tb) : Table :=
  put_bucket tab i (f (ips tab, get_bucket tab i)).

Definition addSeen (n : node) (now : Z) (s : tb) : tb :=
  if contains (entries s.2) (nID n) then s
  else if bucketSize <=? len (entries s.2) then addReplacement s n
  else
    let '(ok, s) := addIP s (nIP n) in
    if negb ok then s
    else set_replacements (deleteNode (replacements s.2) n)
           (set_entries (entries s.2 ++ [set_addedAt now n]) s).
Definition addSeenNode (tab : Table) (n : node) (now : Z) : Table :=
  if decide (nID n = self tab) then tab
  else on_bucket tab (bucket_of tab (nID n)) (addSeen n now).

Definition addVerified (n : node) (now : Z) (s : tb) : tb :=
  let '(bumped, s) := bumpInBucket s n in
  if bumped then s
  else if bucketSize <=? len (entries s.2) then addReplacement s n
  else
    let '(ok, s) := addIP s (nIP n) in
    if negb ok then s
    else set_replacements (deleteNode (replacements s.2) n)
           (set_entries (pushNode (entries s.2) (set_addedAt now n) bucketSize).1 s).
Definition addVerifiedNode (tab : Table) (n : node) (now : Z) : Table :=
  if negb (initDone tab) then tab
  else if decide (nID n = self tab) then tab
  else on_bucket tab (bucket_of tab (nID n)) (addVerified n now).

Definition delete (tab : Table) (n : node) : Table :=
  on_bucket tab (bucket_of tab (nID n)) (fun s => deleteInBucket s n).

(** [perm] is the random permutation of the buckets. *)
Fixpoint nodeToRevalidate (tab : Table) (perm : list nat) : option (node * nat) :=
  match perm with
  | [] => None
  | bi :: perm =>
      match last (entries (get_bucket tab bi)) with
      | Some n => Some (n, bi)
      | None => nodeToRevalidate tab perm
      end
  end.
(** The record of [last_] after the ping and, for a newer sequence number, the
    request for it. *)
Definition fetched (last_ : node) (remoteSeq : Z) (enr : option enode) : node :=
  if n_seq (Node last_) <? remoteSeq then
    match enr with Some n => mk_node n (addedAt last_) (livenessChecks last_) | None => last_ end
  else last_.
Definition revalidated (tab : Table) (bi : nat) (last_ : node) (replied : bool) (rnd : Z) : Table :=
  on_bucket tab bi (fun s =>
    if replied then (bumpInBucket s (mk_node (Node last_) (addedAt last_) (livenessChecks last_ + 1))).2
    else replace s last_ rnd).

Definition loadSeedNodes (tab : Table) (seeds : list enode) (now : Z) : Table :=
  foldl (fun tab n => addSeenNode tab n now) tab (map wrapNode seeds ++ nursery tab).
Definition newTable (self_ : ID) (bootnodes seeds : list enode) (now : Z) : Table :=
  loadSeedNodes
    (mk_Table self_ (replicate (Z.to_nat nBuckets) empty_bucket) (map wrapNode bootnodes)
       (mk_DistinctNetSet tableSubnet tableIPLimit ∅) false) seeds now.

Definition all_entries (tab : Table) : list node := concat (map entries (buckets tab)).
Definition getNode (tab : Table) (id : ID) : option enode :=
  (fun p => Node p.2) <$> list_find (fun n => nID n = id) (entries (get_bucket tab (bucket_of tab id))).
Definition tab_len (tab : Table) : Z := len (all_entries tab).
Definition bucketLen (tab : Table) (id : ID) : Z := len (entries (get_bucket tab (bucket_of tab id))).
(** The nodes written to the database. *)
Definition copyLiveNodes (tab : Table) (now : Z) : list enode :=
  Node <$> filter (fun n => 0 < livenessChecks n /\ seedMinTableTime <= now - addedAt n) (all_entries tab).
(** Swap [nodes[i]] with a random place, for every [i]. *)
Fixpoint shuffle (i : nat) (rnds : list Z) (nodes : list enode) : list enode :=
  match rnds with
  | [] => nodes
  | r :: rnds =>
      let j := Z.to_nat (r mod len nodes) in
      match nodes !! i, nodes !! j with
      | Some x, Some y => shuffle (S i) rnds (<[j := x]> (<[i := y]> nodes))
      | _, _ => nodes
      end
  end.
Definition ReadRandomNodes (tab : Table) (n : nat) (rnds : list Z) : list enode :=
  if negb (initDone tab) then [] else take n (shuffle 0 rnds (Node <$> all_entries tab)).

(** ** Closest nodes *)

Definition push (target : ID) (l : list node) (n : node) (maxElems : Z) : list node :=
  let ix := Search (len l) (fun i => match l !! Z.to_nat i with
                                     | Some e => 0 <? DistCmp target (nID e) (nID n)
                                     | None => false
                                     end) in
  let l' := if len l <? maxElems then l ++ [n] else l in
  if ix =? len l' then l'
  else take (Z.to_nat ix) l' ++ n :: removelast (drop (Z.to_nat ix) l').
Definition findnodeByID (tab : Table) (target : ID) (nresults : Z) (preferLive : bool) : list node :=
  let all := all_entries tab in
  let nodes := foldl (fun l n => push target l n nresults) [] all in
  let live := foldl (fun l n => if (preferLive && (0 <? livenessChecks n))%bool then push target l n nresults else l) [] all in
  if (preferLive && (0 <? len live))%bool then live else nodes.
(** ** Address counters *)
Definition cnt (s : DistinctNetSet) (k : list Z) : Z := default 0 (members s !! k).
(** A set of the table's kind. *)
Definition net_ok (limit : Z) (s : DistinctNetSet) : Prop := Subnet s = 24 /\ Limit s = limit /\ wf s.
Definition subnet (ip : IP) : list Z := key (mk_DistinctNetSet 24 0 ∅) ip.

Lemma key_subnet limit s ip : net_ok limit s -> key s ip = subnet ip.
Proof. intros (E & _). unfold subnet, key. by rewrite E. Qed.
Lemma cnt_wf limit s k : net_ok limit s -> 0 <= cnt s k /\ (0 <= limit -> cnt s k <= limit).
Proof.
  intros (_ & <- & Hw). unfold cnt. destruct (members s !! k) as [n|] eqn:E; simpl; [|lia].
  specialize (Hw _ _ E). simpl in Hw. lia.
Qed.
Lemma Add_cnt limit s ip :
  net_ok limit s ->
  (Add s ip).1 = (cnt s (subnet ip) <? limit)
  /\ net_ok limit (Add s ip).2
  /\ forall k, cnt (Add s ip).2 k = cnt s k + (if decide ((Add s ip).1 = true /\ k = subnet ip) then 1 else 0).
Proof.
  intros Hs. pose proof Hs as (E1 & E2 & Hw). pose proof (Add_wf s ip Hw) as Hw'. pose proof (key_subnet limit s ip Hs) as Hk.
  unfold Add, cnt in *. rewrite Hk, E2 in *. destruct (Z.ltb_spec (default 0 (members s !! subnet ip)) limit); cbn [fst snd] in *.
  - split_and!; try done. intros k. cbn [members]. destruct (decide (true = true /\ k = subnet ip)) as [[_ ->]|Hne].
    + by rewrite lookup_insert_eq.
    + rewrite lookup_insert_ne by naive_solver. lia.
  - split_and!; try done. intros k. rewrite decide_False by naive_solver. lia.
Qed.
Lemma Remove_cnt limit s ip :
  net_ok limit s ->
  net_ok limit (Remove s ip)
  /\ forall k, cnt (Remove s ip) k = cnt s k - (if decide (k = subnet ip /\ 0 < cnt s k) then 1 else 0).
Proof.
  intros Hs. pose proof Hs as (E1 & E2 & Hw). pose proof (Remove_wf s ip Hw) as Hw'. pose proof (key_subnet limit s ip Hs) as Hk.
  unfold Remove, cnt in *. rewrite Hk in *. destruct (members s !! subnet ip) as [n|] eqn:E; simpl in *.
  - split; [done|]. intros k. specialize (Hw _ _ E). simpl in Hw. destruct (decide (k = subnet ip)) as [->|Hne].
    + rewrite E. simpl. rewrite decide_True by (split; [done|lia]). destruct (Z.eqb_spec n 1) as [->|].
      * by rewrite lookup_delete_eq.
      * by rewrite lookup_insert_eq.
    + rewrite decide_False by naive_solver. destruct (n =? 1); [rewrite lookup_delete_ne by done|rewrite lookup_insert_ne by done]; lia.
  - split; [done|]. intros k. rewrite decide_False; [lia|]. intros [-> Hc]. rewrite E in Hc. simpl in Hc. lia.
Qed.
Lemma Add_Remove limit s ip : net_ok limit s -> (Add s ip).1 = true -> Remove (Add s ip).2 ip = s.
Proof.
  intros (_ & _ & Hw). unfold Remove. rewrite key_Add. unfold Add. destruct (_ <? _); simpl; [intros _|done].
  rewrite lookup_insert_eq. destruct (members s !! key s ip) as [n|] eqn:E; simpl.
  - specialize (Hw _ _ E). simpl in Hw. destruct (Z.eqb_spec (n + 1) 1); [lia|].
    rewrite insert_insert_eq, Z.add_simpl_r, insert_id by done. by destruct s.
  - rewrite delete_insert_id by done. by destruct s.
Qed.

Definition nets_ok (s : tb) : Prop := net_ok tableIPLimit s.1 /\ net_ok bucketIPLimit (bips s.2).
Definition lists (s : tb) : list node * list node := (entries s.2, replacements s.2).
(** Whether an address fits. *)
Definition fits (s : tb) (ip : IP) : Prop :=
  ip <> [] /\ (IsLAN ip = true
    \/ cnt s.1 (subnet ip) < tableIPLimit /\ cnt (bips s.2) (subnet ip) < bucketIPLimit).
(** The counters of both sets, as changed by [d]. *)
Definition shifted (s s' : tb) (d : list Z -> Z) : Prop :=
  forall k, cnt s'.1 k = cnt s.1 k + d k /\ cnt (bips s'.2) k = cnt (bips s.2) k + d k.
Definition counts (ip : IP) (k : list Z) : Z := if decide (IsLAN ip = false /\ k = subnet ip) then 1 else 0.

Lemma addIP_spec s ip :
  nets_ok s ->
  let '(ok, s') := addIP s ip in
  nets_ok s' /\ lists s' = lists s /\ (ok = true <-> fits s ip)
  /\ (ok = true -> shifted s s' (counts ip)) /\ (ok = false -> s' = s).
Proof.
  intros [Ht Hb]. unfold addIP. destruct (decide (length ip = 0%nat)) as [E|Hne].
  { split_and!; try done. split; [done|]. intros [Hn _]. by destruct ip. }
  assert (Hip : ip <> []) by (by intros ->). unfold fits.
  destruct (IsLAN ip) eqn:El.
  { split_and!; try done; [by split; [split; [|left]|]|]. intros _ k. unfold counts. rewrite decide_False by (by rewrite El; intros []). lia. }
  destruct (Add_cnt _ _ ip Ht) as (A1 & A2 & A3). pose proof (Add_Remove _ _ ip Ht) as A4.
  destruct (Add s.1 ip) as [ok t]. simpl in *. destruct ok; simpl.
  2: { split_and!; try done. split; [done|]. intros [_ [|[? _]]]; [done|]. symmetry in A1. apply Z.ltb_ge in A1. lia. }
  destruct (Add_cnt _ _ ip Hb) as (B1 & B2 & B3). destruct (Add (bips s.2) ip) as [ok bi]. simpl in *. destruct ok; simpl.
  - symmetry in A1, B1. apply Z.ltb_lt in A1, B1. split_and!; try done; [split; [intros _; split; [done|by right]|done]|].
    intros _ k. simpl. rewrite A3, B3. unfold counts. rewrite El.
    destruct (decide (k = subnet ip)) as [->|]; [by rewrite !decide_True by done|by rewrite !decide_False by naive_solver].
  - rewrite A4 by done. replace (s.1, s.2) with s by (by destruct s). split_and!; try done.
    split; [done|]. intros [_ [|[_ ?]]]; [done|]. symmetry in B1. apply Z.ltb_ge in B1. lia.
Qed.
Lemma removeIP_spec s ip :
  nets_ok s ->
  let s' := removeIP s ip in
  nets_ok s' /\ lists s' = lists s
  /\ (forall k, cnt s'.1 k = cnt s.1 k - (if decide (counts ip k = 1 /\ 0 < cnt s.1 k) then 1 else 0)
        /\ cnt (bips s'.2) k = cnt (bips s.2) k - (if decide (counts ip k = 1 /\ 0 < cnt (bips s.2) k) then 1 else 0)).
Proof.
  intros [Ht Hb]. unfold removeIP, counts. destruct (IsLAN ip) eqn:El.
  { split_and!; try done. intros k. rewrite (decide_False (P := true = false /\ _)) by naive_solver.
    rewrite !decide_False by naive_solver. lia. }
  destruct (Remove_cnt _ _ ip Ht) as [A1 A2]. destruct (Remove_cnt _ _ ip Hb) as [B1 B2].
  split_and!; try done. intros k. simpl. rewrite A2, B2. destruct (decide (k = subnet ip)) as [->|].
  - rewrite (decide_True (P := false = false /\ _)) by done. split; do 2 case_decide; naive_solver lia.
  - rewrite (decide_False (P := false = false /\ _)) by naive_solver. rewrite !decide_False by naive_solver. lia.
Qed.
(** ** Lists of nodes *)
Definition ids (l : list node) : list ID := nID <$> l.
Definition usage (l : list node) (k : list Z) : Z := foldr (fun n a => counts (nIP n) k + a) 0 l.

Lemma counts_range ip k : 0 <= counts ip k <= 1.
Proof. unfold counts. case_decide; lia. Qed.
Lemma usage_app l l' k : usage (l ++ l') k = usage l k + usage l' k.
Proof. induction l as [|n l IH]; simpl; lia. Qed.
Lemma usage_perm l l' k : l ≡ₚ l' -> usage l k = usage l' k.
Proof. induction 1; simpl; lia. Qed.
Lemma usage_nonneg l k : 0 <= usage l k.
Proof. induction l as [|n l IH]; simpl; [lia|]. pose proof (counts_range (nIP n) k). lia. Qed.

Lemma contains_spec l id : contains l id = true <-> id ∈ ids l.
Proof.
  unfold contains, ids. rewrite existsb_exists, list_elem_of_fmap. split.
  - intros (n & Hn & E%bool_decide_eq_true). exists n. split; [done|]. by apply list_elem_of_In.
  - intros (n & -> & Hn). exists n. split; [by apply list_elem_of_In|]. by apply bool_decide_eq_true.
Qed.
Lemma deleteNode_spec l n :
  ((nID n ∉ ids l) /\ deleteNode l n = l)
  \/ (exists l1 x l2, l = l1 ++ x :: l2 /\ nID x = nID n /\ deleteNode l n = l1 ++ l2).
Proof.
  induction l as [|x l IH]; simpl; [left; split; [apply not_elem_of_nil|done]|].
  destruct (decide (nID x = nID n)) as [E|E]; [right; by exists [], x, l|].
  destruct IH as [[Hn ->]|(l1 & y & l2 & -> & Hy & ->)].
  - left. split; [|done]. rewrite not_elem_of_cons. done.
  - right. by exists (x :: l1), y, l2.
Qed.
Lemma deleteNode_perm l n : nID n ∈ ids l -> exists x, nID x = nID n /\ l ≡ₚ x :: deleteNode l n.
Proof.
  destruct (deleteNode_spec l n) as [[Hn _]|(l1 & x & l2 & -> & Hx & ->)]; [done|]. intros _.
  exists x. split; [done|]. by rewrite Permutation_middle.
Qed.
Lemma deleteNode_sublist l n : deleteNode l n `sublist_of` l.
Proof.
  induction l as [|x l IH]; simpl; [done|]. case_decide; [by apply sublist_cons|by apply sublist_skip].
Qed.
Lemma index_of_Some l id i :
  index_of l id = Some i -> exists l1 e l2, l = l1 ++ e :: l2 /\ length l1 = i /\ nID e = id.
Proof.
  revert i. induction l as [|x l IH]; intros i; simpl; [done|]. case_decide as E.
  - intros [= <-]. by exists [], x, l.
  - destruct (index_of l id) as [j|] eqn:Ej; [|done]. intros [= <-].
    destruct (IH j eq_refl) as (l1 & e & l2 & -> & <- & He). by exists (x :: l1), e, l2.
Qed.
Lemma index_of_None l id : index_of l id = None -> id ∉ ids l.
Proof.
  induction l as [|x l IH]; simpl; [intros _; apply not_elem_of_nil|]. case_decide as E; [done|].
  destruct (index_of l id); [done|]. intros _. rewrite not_elem_of_cons. split; [done|by apply IH].
Qed.
Lemma snoc_split (l : list node) : (l = [] /\ last l = None) \/ exists e, l = removelast l ++ [e] /\ last l = Some e.
Proof.
  destruct l as [|x l] using rev_ind; [by left|]. right. exists x. rewrite last_snoc. split; [|done].
  by rewrite removelast_last.
Qed.
Lemma pushNode_spec l n max :
  0 < max -> len l <= max ->
  let '(l', removed) := pushNode l n max in
  len l' <= max /\ match removed with None => l' = n :: l | Some r => exists l0, l = l0 ++ [r] /\ l' = n :: l0 end.
Proof.
  intros Hm Hl. unfold pushNode. destruct (Z.ltb_spec (len l) max); [rewrite len_cons; split; [lia|done]|].
  destruct (snoc_split l) as [[-> _]|(e & E & ->)]; [rewrite len_nil in *; lia|].
  rewrite E, len_app in Hl. rewrite len_cons. change (len [e]) with 1 in Hl. split; [lia|by exists (removelast l)].
Qed.

(** ** Buckets *)
Definition placed (P : ID -> Prop) (n : node) : Prop := P (nID n) /\ nIP n <> [].
Record bucket_ok (P : ID -> Prop) (s : tb) : Prop := {
  bk_nets : nets_ok s;
  bk_entries : len (entries s.2) <= bucketSize;
  bk_repl : len (replacements s.2) <= maxReplacements;
  bk_nodup : NoDup (ids (entries s.2 ++ replacements s.2));
  bk_nodes : Forall (placed P) (entries s.2 ++ replacements s.2)
}.
Definition used (s : tb) (k : list Z) : Z := usage (entries s.2 ++ replacements s.2) k.
(** The counters grow at least as much as the nodes of a subnet. *)
Definition counted (s s' : tb) : Prop :=
  forall k, used s' k - used s k <= cnt s'.1 k - cnt s.1 k
         /\ used s' k - used s k <= cnt (bips s'.2) k - cnt (bips s.2) k.
Lemma counted_refl s : counted s s.
Proof. intros k. lia. Qed.
Lemma counted_trans s1 s2 s3 : counted s1 s2 -> counted s2 s3 -> counted s1 s3.
Proof. intros H1 H2 k. specialize (H1 k). specialize (H2 k). lia. Qed.

Lemma bucket_ok_lists P s s' : bucket_ok P s -> nets_ok s' -> lists s' = lists s -> bucket_ok P s'.
Proof. intros [] Hn [= E1 E2]. split; rewrite ?E1, ?E2; done. Qed.
Lemma used_lists s s' k : lists s' = lists s -> used s' k = used s k.
Proof. intros [= E1 E2]. unfold used. by rewrite E1, E2. Qed.
Lemma addIP_ok P s ip :
  bucket_ok P s ->
  let '(ok, s') := addIP s ip in
  bucket_ok P s' /\ lists s' = lists s /\ (ok = true -> ip <> [] /\ shifted s s' (counts ip)) /\ (ok = false -> s' = s).
Proof.
  intros Hb. pose proof (addIP_spec s ip (bk_nets _ _ Hb)) as Ha. destruct (addIP s ip) as [ok s'].
  destruct Ha as (Hn & Hl & Hf & Hs & He). split_and!; [by eapply bucket_ok_lists|done| |done].
  intros Hok. split; [by apply Hf|by apply Hs].
Qed.
Lemma removeIP_ok P s ip :
  bucket_ok P s -> bucket_ok P (removeIP s ip) /\ lists (removeIP s ip) = lists s
  /\ forall k, cnt s.1 k - counts ip k <= cnt (removeIP s ip).1 k
      /\ cnt (bips s.2) k - counts ip k <= cnt (bips (removeIP s ip).2) k.
Proof.
  intros Hb. destruct (removeIP_spec s ip (bk_nets _ _ Hb)) as (Hn & Hl & Hc).
  split_and!; [by eapply bucket_ok_lists|done|]. intros k. destruct (Hc k) as [-> ->].
  pose proof (counts_range ip k). split; case_decide; lia.
Qed.
Lemma lists_eq s s' : lists s' = lists s -> entries s'.2 = entries s.2 /\ replacements s'.2 = replacements s.2.
Proof. by intros [= -> ->]. Qed.
Lemma ids_app l l' : ids (l ++ l') = ids l ++ ids l'.
Proof. apply fmap_app. Qed.
Lemma NoDup_ids_perm l l' : l ≡ₚ l' -> NoDup (ids l) -> NoDup (ids l').
Proof. intros Hp. unfold ids. by rewrite Hp. Qed.
Lemma NoDup_ids_sublist l l' : l `sublist_of` l' -> NoDup (ids l') -> NoDup (ids l).
Proof. intros Hs Hn. eapply sublist_NoDup; [exact Hn|]. by apply fmap_sublist. Qed.
Lemma Forall_sublist (P : node -> Prop) l l' : l `sublist_of` l' -> Forall P l' -> Forall P l.
Proof. induction 1; intros HP; [done|..]; apply list.Forall_cons_1 in HP as [? ?]; [constructor|]; auto. Qed.

Lemma addReplacement_ok P s n :
  bucket_ok P s -> P (nID n) -> (nID n ∉ ids (entries s.2)) \/ ~ fits s (nIP n) ->
  bucket_ok P (addReplacement s n) /\ counted s (addReplacement s n).
Proof.
  intros Hb Hp Hnew. unfold addReplacement. destruct (contains (replacements s.2) (nID n)) eqn:Ec.
  { split; [done|apply counted_refl]. }
  pose proof (addIP_ok P s (nIP n) Hb) as Ha. pose proof (addIP_spec s (nIP n) (bk_nets _ _ Hb)) as Hf.
  destruct (addIP s (nIP n)) as [ok s1]. destruct Ha as (Hb1 & Hl1 & Hok & Hno).
  destruct ok; simpl; [|rewrite (Hno eq_refl); split; [done|apply counted_refl]].
  destruct Hnew as [Hnew|Hnf]; [|by destruct Hf as (_ & _ & [Hf _] & _); destruct Hnf; apply Hf].
  destruct (Hok eq_refl) as [Hip Hsh]. destruct (lists_eq _ _ Hl1) as [Ee Er].
  assert (Hnr : nID n ∉ ids (replacements s.2)).
  { rewrite <- contains_spec. by rewrite Ec. }
  pose proof (pushNode_spec (replacements s1.2) n maxReplacements) as Hpush.
  destruct (pushNode (replacements s1.2) n maxReplacements) as [l removed].
  destruct Hpush as [Hlen Hrem]; [done|apply Hb1|]. rewrite Er in Hrem.
  assert (Hsub : exists d, replacements s.2 = d ++ from_option (fun r => [r]) [] removed /\ l = n :: d).
  { destruct removed as [r|]; [destruct Hrem as (l0 & -> & ->); by exists l0|]. exists (replacements s.2). by rewrite app_nil_r. }
  destruct Hsub as (d & Ed & ->).
  assert (Hb2 : bucket_ok P (set_replacements (n :: d) s1)).
  { destruct Hb1, Hb. rewrite Ed in *. split; simpl; [done|by rewrite Ee|done|rewrite Ee|rewrite Ee].
    - apply (NoDup_ids_perm (n :: entries s.2 ++ d)); [by rewrite Permutation_middle|]. simpl. constructor.
      + rewrite ids_app, elem_of_app. rewrite ids_app, elem_of_app in Hnr. tauto.
      + eapply NoDup_ids_sublist, bk_nodup1. apply sublist_app; [done|by apply sublist_inserts_r].
    - rewrite app_assoc in bk_nodes1. apply Forall_app in bk_nodes1 as [H1 _]. apply Forall_app in H1 as [H1 H2].
      apply Forall_app. split; [done|by constructor]. }
  destruct removed as [r|].
  - destruct (removeIP_ok P _ (nIP r) Hb2) as (Hb3 & Hl3 & Hc3). split; [done|]. intros k.
    rewrite (used_lists _ _ k Hl3). specialize (Hc3 k). specialize (Hsh k). unfold used. simpl in *.
    rewrite Ee, Ed, !usage_app. simpl. lia.
  - split; [done|]. intros k. specialize (Hsh k). unfold used. simpl in *. rewrite Ee, Ed, !usage_app. simpl. lia.
Qed.
(** A new entry, at either end; the node leaves the replacements. *)
Lemma new_entry_ok P s n n' E :
  bucket_ok P s -> placed P n' -> nID n' = nID n -> nID n ∉ ids (entries s.2) -> E ≡ₚ n' :: entries s.2 ->
  len (entries s.2) < bucketSize ->
  bucket_ok P (set_replacements (deleteNode (replacements s.2) n) (set_entries E s))
  /\ (forall k, used (set_replacements (deleteNode (replacements s.2) n) (set_entries E s)) k <= used s k + counts (nIP n') k).
Proof.
  intros Hb Hp Hid Hnew HE Hlen. pose proof (deleteNode_sublist (replacements s.2) n) as Hsub. split.
  - destruct Hb. split; simpl.
    + done.
    + unfold len in *. apply Permutation_length in HE. simpl in HE. lia.
    + apply sublist_length in Hsub. unfold len in *. lia.
    + apply (NoDup_ids_perm (n' :: entries s.2 ++ deleteNode (replacements s.2) n)); [by rewrite HE|]. simpl. constructor.
      * rewrite ids_app, elem_of_app, Hid. intros [|Hin]; [done|].
        rewrite ids_app in bk_nodup0. apply NoDup_app in bk_nodup0 as (_ & _ & Hnd).
        destruct (deleteNode_spec (replacements s.2) n) as [[Hn E0]|(l1 & x & l2 & E1 & Hx & E2)].
        { rewrite E0 in Hin. done. }
        rewrite E1 in Hnd. rewrite E2 in Hin. unfold ids in Hnd, Hin. rewrite fmap_app in Hnd. simpl in Hnd.
        rewrite Hx in Hnd. apply NoDup_app in Hnd as (_ & Hd & Hnd). apply NoDup_cons in Hnd as [Hnd _].
        rewrite fmap_app, elem_of_app in Hin. destruct Hin as [Hin|]; [|done]. apply (Hd _ Hin). by left.
      * eapply NoDup_ids_sublist, bk_nodup0. by apply sublist_app.
    + rewrite HE. simpl. constructor; [done|]. apply Forall_app in bk_nodes0 as [H1 H2].
      apply Forall_app. split; [done|]. by eapply Forall_sublist.
  - intros k. unfold used. simpl. rewrite !usage_app, (usage_perm E _ k HE). simpl.
    assert (usage (deleteNode (replacements s.2) n) k <= usage (replacements s.2) k); [|lia].
    destruct (deleteNode_spec (replacements s.2) n) as [[_ ->]|(l1 & x & l2 & -> & _ & ->)]; [lia|].
    rewrite !usage_app. simpl. pose proof (counts_range (nIP x) k). lia.
Qed.
Lemma addSeen_ok P s n now :
  bucket_ok P s -> P (nID n) ->
  bucket_ok P (addSeen n now s) /\ counted s (addSeen n now s).
Proof.
  intros Hb Hp. unfold addSeen. destruct (contains (entries s.2) (nID n)) eqn:Ec; [split; [done|apply counted_refl]|].
  assert (Hnew : nID n ∉ ids (entries s.2)) by (rewrite <- contains_spec; by rewrite Ec).
  destruct (Z.leb_spec bucketSize (len (entries s.2))); [apply addReplacement_ok; auto|].
  pose proof (addIP_ok P s (nIP n) Hb) as Ha. destruct (addIP s (nIP n)) as [ok s1]. destruct Ha as (Hb1 & Hl1 & Hok & Hno).
  destruct ok; simpl; [|rewrite (Hno eq_refl); split; [done|apply counted_refl]].
  destruct (Hok eq_refl) as [Hip Hsh]. pose proof (lists_eq _ _ Hl1) as [Ee Er].
  destruct (new_entry_ok P s1 n (set_addedAt now n) (entries s1.2 ++ [set_addedAt now n]) Hb1) as [Hb2 Hu];
    [done|done|by rewrite Ee|by rewrite Permutation_app_comm|by rewrite Ee|].
  split; [done|]. intros k. specialize (Hu k). specialize (Hsh k). rewrite (used_lists _ _ k Hl1) in Hu.
  change (counts (nIP (set_addedAt now n)) k) with (counts (nIP n) k) in Hu. simpl in *. lia.
Qed.
Lemma IP_Equal_To4 a b : IP_Equal a b = true -> a = b \/ (exists ip4, To4 a = Some ip4 /\ To4 b = Some ip4 /\ a <> []).
Proof.
  assert (H4 : forall x : IP, length x = 4%nat -> To4 x = Some x) by (intros x Hx; unfold To4; by rewrite bool_decide_eq_true_2).
  assert (H16 : forall x : IP, length x = 16%nat -> take 12 x = v4InV6Prefix -> To4 x = Some (drop 12 x)).
  { intros x Hx Hp. unfold To4. rewrite bool_decide_eq_false_2 by (by rewrite Hx). rewrite bool_decide_eq_true_2 by done.
    assert (H10 : take 10 x = take 10 (take 12 x)) by by rewrite take_take.
    assert (H2 : take 2 (drop 10 x) = drop 10 (take 12 x)) by by rewrite skipn_firstn_comm.
    rewrite H10, H2, Hp. done. }
  unfold IP_Equal. destruct (decide (length a = length b)) as [|Hl]; [rewrite bool_decide_eq_true; by left|].
  destruct (decide (length a = 4%nat /\ length b = 16%nat)) as [[Ha Hb]|_].
  { intros [Hp%bool_decide_eq_true ->%bool_decide_eq_true]%andb_true_iff. right. exists (drop 12 b).
    split_and!; [by apply H4|by apply H16|]. intros E. by rewrite E in Ha. }
  destruct (decide (length a = 16%nat /\ length b = 4%nat)) as [[Ha Hb]|_]; [|done].
  intros [Hp%bool_decide_eq_true <-%bool_decide_eq_true]%andb_true_iff. right. exists (drop 12 a).
  split_and!; [by apply H16|by apply H4|]. by intros ->.
Qed.
Lemma IP_Equal_counts a b k : IP_Equal a b = true -> counts a k = counts b k.
Proof.
  intros [->|(ip4 & Ha & Hb & _)]%IP_Equal_To4; [done|]. unfold counts, subnet, key, IsLAN, IsLoopback. by rewrite Ha, Hb.
Qed.
Lemma IP_Equal_nonempty a b : IP_Equal a b = true -> b <> [] -> a <> [].
Proof. by intros [->|(? & _ & _ & ?)]%IP_Equal_To4. Qed.

(** An address that does not fit does not fit with more addresses. *)
Lemma fits_mono s s' ip :
  (forall k, cnt s.1 k <= cnt s'.1 k /\ cnt (bips s.2) k <= cnt (bips s'.2) k) -> fits s' ip -> fits s ip.
Proof. intros Hm [Hip [|[H1 H2]]]; split; [done|by left|done|right]. specialize (Hm (subnet ip)). lia. Qed.
Lemma removed_fits s ip : nets_ok s -> ip <> [] -> fits (removeIP s ip) ip.
Proof.
  intros Hn Hip. split; [done|]. destruct (IsLAN ip) eqn:El; [by left|right].
  destruct (removeIP_spec s ip Hn) as (_ & _ & Hc). destruct Hn as [Ht Hb]. destruct (Hc (subnet ip)) as [-> ->].
  assert (E : counts ip (subnet ip) = 1) by (unfold counts; by rewrite decide_True). rewrite E.
  pose proof (cnt_wf _ _ (subnet ip) Ht) as [? Ht']. pose proof (cnt_wf _ _ (subnet ip) Hb) as [? Hb'].
  unfold tableIPLimit, bucketIPLimit in *. split; case_decide; lia.
Qed.
Lemma replace_entry_ok P s n l1 e l2 :
  bucket_ok P s -> entries s.2 = l1 ++ e :: l2 -> nID e = nID n -> nIP n <> [] ->
  bucket_ok P (set_entries (n :: l1 ++ l2) s)
  /\ forall k, used (set_entries (n :: l1 ++ l2) s) k = used s k - counts (nIP e) k + counts (nIP n) k.
Proof.
  intros Hb He Hid Hip. split.
  - destruct Hb. rewrite He in *. assert (Hp : P (nID n)).
    { apply Forall_app in bk_nodes0 as [H1 _]. apply Forall_app in H1 as [_ H1].
      apply list.Forall_cons_1 in H1 as [[H1 _] _]. by rewrite <- Hid. }
    split; simpl; [done| |done|..].
    + rewrite len_app, len_cons in bk_entries0. rewrite len_cons, len_app. lia.
    + apply (NoDup_ids_perm ((l1 ++ n :: l2) ++ replacements s.2) (n :: (l1 ++ l2) ++ replacements s.2));
        [by rewrite <- Permutation_middle|].
      rewrite !ids_app in *. simpl in *. by rewrite <- Hid.
    + constructor; [done|]. rewrite <- app_assoc in *. apply Forall_app in bk_nodes0 as [H1 H2].
      apply Forall_app. split; [done|]. by apply list.Forall_cons_1 in H2 as [_ ?].
  - intros k. unfold used. simpl. rewrite He, !usage_app. simpl. lia.
Qed.
Lemma bump_ok P s n :
  bucket_ok P s ->
  let '(bumped, s') := bumpInBucket s n in
  bucket_ok P s' /\ counted s s'
  /\ (bumped = false -> lists s' = lists s /\ ((nID n ∉ ids (entries s.2)) \/ ~ fits s' (nIP n))).
Proof.
  intros Hb. unfold bumpInBucket. destruct (index_of (entries s.2) (nID n)) as [i|] eqn:Ei.
  2: { apply index_of_None in Ei. split_and!; [done|apply counted_refl|]. intros _. split; [done|by left]. }
  apply index_of_Some in Ei as (l1 & e & l2 & He & Hl1 & Hid). subst i.
  assert (Hlk : entries s.2 !! length l1 = Some e) by (by rewrite He, list_lookup_middle). rewrite Hlk.
  assert (Hfront : forall s1, lists s1 = lists s ->
    n :: take (length l1) (entries s1.2) ++ drop (S (length l1)) (entries s1.2) = n :: l1 ++ l2).
  { intros s1 [-> _]%lists_eq. rewrite He. rewrite take_app_length. f_equal. f_equal.
    change (e :: l2) with ([e] ++ l2). rewrite app_assoc. apply drop_app_length'. rewrite length_app. simpl. lia. }
  assert (Hpe : nIP e <> []).
  { destruct Hb. rewrite He in *. apply Forall_app in bk_nodes0 as [H1 _]. apply Forall_app in H1 as [_ H1].
    by apply list.Forall_cons_1 in H1 as [[_ ?] _]. }
  destruct (IP_Equal (nIP n) (nIP e)) eqn:Eip; simpl.
  { rewrite Hfront by done. destruct (replace_entry_ok P s n l1 e l2 Hb He Hid) as [Hb1 Hu];
      [by eapply IP_Equal_nonempty|]. split_and!; [done| |done]. intros k. rewrite Hu, (IP_Equal_counts _ _ k Eip). simpl. lia. }
  destruct (removeIP_ok P s (nIP e) Hb) as (Hb1 & Hl1 & Hc1). set (s1 := removeIP s (nIP e)) in *.
  pose proof (addIP_ok P s1 (nIP n) Hb1) as Ha. pose proof (addIP_spec s1 (nIP n) (bk_nets _ _ Hb1)) as Hf.
  destruct (addIP s1 (nIP n)) as [ok s2]. destruct Ha as (Hb2 & Hl2 & Hok & Hno). destruct Hf as (_ & _ & Hf & _).
  rewrite Hl1 in Hl2. destruct ok; simpl.
  - destruct (Hok eq_refl) as [Hip Hsh]. rewrite Hfront by done. pose proof (lists_eq _ _ Hl2) as [Ee2 _].
    destruct (replace_entry_ok P s2 n l1 e l2 Hb2) as [Hb3 Hu]; [by rewrite Ee2|done|done|].
    split_and!; [done| |done]. intros k. rewrite Hu, (used_lists _ _ k Hl2). specialize (Hc1 k). specialize (Hsh k). simpl. lia.
  - rewrite (Hno eq_refl) in *. clear Hok Hno.
    pose proof (addIP_ok P s1 (nIP e) Hb1) as Ha. pose proof (addIP_spec s1 (nIP e) (bk_nets _ _ Hb1)) as Hfe.
    destruct (addIP s1 (nIP e)) as [ok s3]. simpl. destruct Ha as (Hb3 & Hl3 & Hok & _). rewrite Hl2 in Hl3.
    destruct Hfe as (_ & _ & [_ Hfe] & _). rewrite (Hfe (removed_fits s (nIP e) (bk_nets _ _ Hb) Hpe)) in *.
    destruct (Hok eq_refl) as [_ Hsh]. split_and!; [done| |].
    + intros k. rewrite (used_lists _ _ k Hl3). specialize (Hc1 k). specialize (Hsh k). lia.
    + intros _. split; [done|]. right. intros Hfit. apply fits_mono with (s := s1) in Hfit; [by apply Hf in Hfit|].
      intros k. specialize (Hsh k). pose proof (counts_range (nIP e) k). lia.
Qed.
Lemma addVerified_ok P s n now :
  bucket_ok P s -> P (nID n) -> bucket_ok P (addVerified n now s) /\ counted s (addVerified n now s).
Proof.
  intros Hb Hp. unfold addVerified. pose proof (bump_ok P s n Hb) as Hbump.
  destruct (bumpInBucket s n) as [bumped s1]. destruct Hbump as (Hb1 & Hc1 & Hno). destruct bumped; [done|].
  destruct (Hno eq_refl) as [Hl1 Hnew]. pose proof (lists_eq _ _ Hl1) as [Ee1 _]. rewrite <- Ee1 in Hnew.
  destruct (Z.leb_spec bucketSize (len (entries s1.2))).
  { destruct (addReplacement_ok P s1 n Hb1 Hp Hnew) as [Hb2 Hc2]. split; [done|by eapply counted_trans]. }
  pose proof (addIP_ok P s1 (nIP n) Hb1) as Ha. pose proof (addIP_spec s1 (nIP n) (bk_nets _ _ Hb1)) as Hf.
  destruct (addIP s1 (nIP n)) as [ok s2]. destruct Ha as (Hb2 & Hl2 & Hok & Hnok).
  destruct ok; simpl; [|by rewrite (Hnok eq_refl)].
  destruct Hnew as [Hnew|Hnf]; [|by destruct Hf as (_ & _ & [Hf _] & _); destruct Hnf; apply Hf].
  destruct (Hok eq_refl) as [Hip Hsh]. pose proof (lists_eq _ _ Hl2) as [Ee2 _].
  pose proof (pushNode_spec (entries s2.2) (set_addedAt now n) bucketSize) as Hpush.
  assert (Elt : (len (entries s2.2) <? bucketSize) = true) by (rewrite Ee2; by apply Z.ltb_lt).
  destruct (new_entry_ok P s2 n (set_addedAt now n) (pushNode (entries s2.2) (set_addedAt now n) bucketSize).1 Hb2) as [Hb3 Hu];
    [done|done|by rewrite Ee2|by unfold pushNode; rewrite Elt|by rewrite Ee2|].
  split; [done|]. eapply counted_trans; [exact Hc1|]. intros k. specialize (Hu k). specialize (Hsh k).
  rewrite (used_lists _ _ k Hl2) in Hu. change (counts (nIP (set_addedAt now n)) k) with (counts (nIP n) k) in Hu.
  simpl in *. lia.
Qed.

(** The entry with the ID of [n] has its address. *)
Definition held (s : tb) (n : node) : Prop := exists e, e ∈ entries s.2 /\ nID e = nID n /\ nIP e = nIP n.
Lemma sub_entries_ok P s E : bucket_ok P s -> E `sublist_of` entries s.2 -> bucket_ok P (set_entries E s).
Proof.
  intros [] Hs. pose proof (sublist_length _ _ Hs). assert (Hs' : E ++ replacements s.2 `sublist_of` entries s.2 ++ replacements s.2)
    by by apply sublist_app.
  split; simpl; [done|unfold len in *; lia|done|by eapply NoDup_ids_sublist|by eapply Forall_sublist].
Qed.
Lemma deleteInBucket_ok P s n :
  bucket_ok P s -> bucket_ok P (deleteInBucket s n) /\ (held s n -> counted s (deleteInBucket s n)).
Proof.
  intros Hb. unfold deleteInBucket.
  assert (Hb1 : bucket_ok P (set_entries (deleteNode (entries s.2) n) s)) by (apply sub_entries_ok; [done|apply deleteNode_sublist]).
  destruct (removeIP_ok P _ (nIP n) Hb1) as (Hb2 & Hl2 & Hc2). split; [done|].
  intros (e & He & Hid & Hip) k. rewrite (used_lists _ _ k Hl2). specialize (Hc2 k). simpl in Hc2.
  assert (used (set_entries (deleteNode (entries s.2) n) s) k = used s k - counts (nIP n) k); [|lia].
  destruct (deleteNode_spec (entries s.2) n) as [[Hn _]|(l1 & x & l2 & E & Hx & E2)].
  { destruct Hn. rewrite <- Hid. by apply list_elem_of_fmap_2. }
  assert (x = e) as ->.
  { destruct Hb. rewrite E in *. rewrite <- app_assoc in bk_nodup0. simpl in bk_nodup0. unfold ids in bk_nodup0.
    rewrite fmap_app in bk_nodup0. simpl in bk_nodup0. rewrite Hx, <- Hid in bk_nodup0.
    apply NoDup_app in bk_nodup0 as (_ & Hd & Hnd). apply NoDup_cons in Hnd as [Hnd _].
    rewrite fmap_app, elem_of_app in Hnd.
    apply elem_of_app in He as [He|He]; [destruct (Hd (nID e)); [by apply list_elem_of_fmap_2|by left]|].
    apply elem_of_cons in He as [->|He]; [done|]. destruct Hnd. left. by apply list_elem_of_fmap_2. }
  unfold used. simpl. rewrite E2, E, !usage_app. simpl. rewrite Hip. lia.
Qed.
Lemma replace_ok P s n rnd :
  bucket_ok P s ->
  bucket_ok P (replace s n rnd)
  /\ ((forall e, last (entries s.2) = Some e -> nID e = nID n -> nIP e = nIP n) -> counted s (replace s n rnd)).
Proof.
  intros Hb. unfold replace. destruct (snoc_split (entries s.2)) as [[E ->]|(e & E & El)].
  { split; [done|]. intros _. apply counted_refl. }
  rewrite El. destruct (decide (nID e <> nID n)) as [|Hid]; [split; [done|intros _; apply counted_refl]|].
  apply dec_stable in Hid.
  destruct (replacements s.2 !! Z.to_nat (rnd mod len (replacements s.2))) as [r|] eqn:Er.
  2: { destruct (deleteInBucket_ok P s n Hb) as [Hb1 Hc1]. split; [done|]. intros Hh. apply Hc1. exists e.
       split_and!; [|done|by apply Hh]. rewrite E. apply elem_of_app. right. by left. }
  set (rs := deleteNode (replacements s.2) r). set (E0 := removelast (entries s.2)) in *.
  assert (Hr : replacements s.2 ≡ₚ r :: rs).
  { destruct (deleteNode_perm (replacements s.2) r) as (x & Hx & Hp).
    { apply list_elem_of_fmap_2. by eapply list_elem_of_lookup_2. }
    assert (x = r) as ->; [|done]. apply list_elem_of_lookup_2 in Er. rewrite Hp in Er.
    apply elem_of_cons in Er as [|Er]; [done|]. destruct Hb. rewrite ids_app in bk_nodup0.
    apply NoDup_app in bk_nodup0 as (_ & _ & Hnd). apply (NoDup_ids_perm _ _ Hp) in Hnd. simpl in Hnd.
    apply NoDup_cons in Hnd as [Hnd _]. destruct Hnd. rewrite Hx. by apply list_elem_of_fmap_2. }
  assert (Hperm : (E0 ++ [r]) ++ rs ≡ₚ E0 ++ replacements s.2) by (by rewrite Hr, <- app_assoc).
  assert (Hsub : E0 ++ replacements s.2 `sublist_of` entries s.2 ++ replacements s.2).
  { apply sublist_app; [|done]. rewrite E at 1. by apply sublist_inserts_r. }
  assert (Hb1 : bucket_ok P (set_entries (E0 ++ [r]) (set_replacements rs s))).
  { destruct Hb. split; simpl; [done|..].
    - rewrite E, len_app in bk_entries0. by rewrite len_app.
    - apply Permutation_length in Hr. simpl in Hr. unfold len in *. lia.
    - eapply NoDup_ids_perm; [symmetry; exact Hperm|]. by eapply NoDup_ids_sublist.
    - rewrite Hperm. by eapply Forall_sublist. }
  cbv zeta. change (removelast (entries (set_replacements rs s).2)) with E0.
  destruct (removeIP_ok P _ (nIP n) Hb1) as (Hb2 & Hl2 & Hc2).
  split; [done|]. intros Hh k. specialize (Hh e eq_refl Hid). rewrite (used_lists _ _ k Hl2). specialize (Hc2 k).
  assert (used (set_entries (E0 ++ [r]) (set_replacements rs s)) k = used s k - counts (nIP n) k); [|simpl in *; lia].
  unfold used. simpl. rewrite (usage_perm _ _ k Hperm), E, !usage_app. simpl. rewrite Hh. lia.
Qed.
End DiscTable.
