(* ===== verification/DiscTableProps.v ===== *)
(** * The node table: invariants, limits and the closest nodes

    The table as a step relation over the operations of its goroutines, each
    under the mutex, and what holds in every reachable state. *)

From stdpp Require Import base gmap list numbers sorting relations.
From Stdlib Require Import ZArith Lia.
From S2P Require Import Prelude Bytes NetUtil NodeID DiscTable.

Module DiscTableProps.
Import NetUtil NodeID DiscTable.

(** ** Well-formed tables *)
Definition in_bucket (self_ : ID) (i : nat) (id : ID) : Prop :=
  is_ID id /\ id <> self_ /\ bucketAtDistance (LogDist self_ id) = i.
Record table_ok (tab : Table) : Prop := {
  tk_self : is_ID (self tab);
  tk_buckets : length (buckets tab) = Z.to_nat nBuckets;
  tk_bucket : forall i b, buckets tab !! i = Some b -> bucket_ok (in_bucket (self tab) i) (ips tab, b);
  tk_ips : net_ok tableIPLimit (ips tab)
}.
Definition all_nodes (b : bucket) : list node := entries b ++ replacements b.
Definition total (tab : Table) (k : list Z) : Z := foldr (fun b a => usage (all_nodes b) k + a) 0 (buckets tab).
(** The counters cover what is in the table. *)
Definition limits_ok (tab : Table) : Prop :=
  forall k, total tab k <= cnt (ips tab) k /\ Forall (fun b => usage (all_nodes b) k <= cnt (bips b) k) (buckets tab).

Lemma nBuckets_17 : Z.to_nat nBuckets = 17%nat.
Proof. reflexivity. Qed.
Lemma bucketAtDistance_lt d : d <= 256 -> (bucketAtDistance d < 17)%nat.
Proof. unfold bucketAtDistance. change bucketMinDistance with 239. destruct (Z.leb_spec d 239); lia. Qed.
Lemma bucket_of_lt tab id : table_ok tab -> is_ID id -> (bucket_of tab id < length (buckets tab))%nat.
Proof.
  intros Ht Hid. rewrite (tk_buckets _ Ht), nBuckets_17. apply bucketAtDistance_lt.
  by apply LogDist_range; [apply (tk_self _ Ht)|].
Qed.
Lemma get_bucket_lookup tab i : (i < length (buckets tab))%nat -> buckets tab !! i = Some (get_bucket tab i).
Proof. intros Hi. unfold get_bucket. by destruct (lookup_lt_is_Some_2 _ _ Hi) as [b ->]. Qed.

Lemma on_bucket_ok tab i f :
  table_ok tab -> (i < length (buckets tab))%nat ->
  (bucket_ok (in_bucket (self tab) i) (ips tab, get_bucket tab i) ->
     bucket_ok (in_bucket (self tab) i) (f (ips tab, get_bucket tab i))) ->
  table_ok (on_bucket tab i f).
Proof.
  intros Ht Hi Hf. pose proof (Hf (tk_bucket _ Ht _ _ (get_bucket_lookup _ _ Hi))) as Hb.
  unfold on_bucket, put_bucket. set (s := f (ips tab, get_bucket tab i)) in *.
  assert (Hn : net_ok tableIPLimit s.1) by (by destruct Hb as [[? _] _ _ _ _]).
  split; simpl; [apply Ht|by rewrite length_insert; apply Ht| |done]. intros j b Hj.
  destruct (decide (i = j)) as [<-|Hne].
  - rewrite list_lookup_insert_eq in Hj by done. injection Hj as <-. by destruct s.
  - rewrite list_lookup_insert_ne in Hj by done. destruct (tk_bucket _ Ht _ _ Hj) as [[_ Hb1] ? ? ? ?]. by split.
Qed.
Lemma total_insert (bs : list bucket) i b b' k :
  bs !! i = Some b ->
  foldr (fun b a => usage (all_nodes b) k + a) 0 (<[i := b']> bs)
  = foldr (fun b a => usage (all_nodes b) k + a) 0 bs - usage (all_nodes b) k + usage (all_nodes b') k.
Proof.
  revert i. induction bs as [|x bs IH]; intros [|i] Hi; try done; simpl in *.
  - injection Hi as ->. lia.
  - rewrite (IH i Hi). lia.
Qed.
Lemma on_bucket_limits tab i f :
  limits_ok tab -> (i < length (buckets tab))%nat ->
  counted (ips tab, get_bucket tab i) (f (ips tab, get_bucket tab i)) -> limits_ok (on_bucket tab i f).
Proof.
  intros Hl Hi Hc k. pose proof (get_bucket_lookup _ _ Hi) as Hlk. unfold on_bucket, put_bucket. simpl.
  set (s := f (ips tab, get_bucket tab i)) in *. specialize (Hc k). destruct (Hl k) as [Ht Hb].
  unfold used in Hc. simpl in Hc. unfold total. simpl. rewrite (total_insert _ _ _ s.2 k Hlk).
  unfold all_nodes in *. unfold total, all_nodes in Ht. split; [lia|].
  apply Forall_insert; [done|]. pose proof (Forall_lookup_1 _ _ _ _ Hb Hlk) as Hbi. simpl in Hbi. lia.
Qed.

(** ** The operations *)
Lemma addSeenNode_ok tab n now :
  table_ok tab -> is_ID (nID n) ->
  table_ok (addSeenNode tab n now) /\ (limits_ok tab -> limits_ok (addSeenNode tab n now)).
Proof.
  intros Ht Hid. unfold addSeenNode. case_decide as Hs; [done|]. pose proof (bucket_of_lt _ _ Ht Hid) as Hi.
  pose proof (tk_bucket _ Ht _ _ (get_bucket_lookup _ _ Hi)) as Hb.
  destruct (addSeen_ok _ _ n now Hb) as [Hb1 Hc1]; [done|].
  split; [by apply on_bucket_ok|]. intros Hl. by apply on_bucket_limits.
Qed.
Lemma addVerifiedNode_ok tab n now :
  table_ok tab -> is_ID (nID n) ->
  table_ok (addVerifiedNode tab n now) /\ (limits_ok tab -> limits_ok (addVerifiedNode tab n now)).
Proof.
  intros Ht Hid. unfold addVerifiedNode. destruct (negb (initDone tab)); [done|]. case_decide as Hs; [done|].
  pose proof (bucket_of_lt _ _ Ht Hid) as Hi. pose proof (tk_bucket _ Ht _ _ (get_bucket_lookup _ _ Hi)) as Hb.
  destruct (addVerified_ok _ _ n now Hb) as [Hb1 Hc1]; [done|].
  split; [by apply on_bucket_ok|]. intros Hl. by apply on_bucket_limits.
Qed.
Definition tab_held (tab : Table) (n : node) : Prop := held (ips tab, get_bucket tab (bucket_of tab (nID n))) n.
Lemma delete_ok tab n :
  table_ok tab -> is_ID (nID n) ->
  table_ok (delete tab n) /\ (tab_held tab n -> limits_ok tab -> limits_ok (delete tab n)).
Proof.
  intros Ht Hid. unfold delete. pose proof (bucket_of_lt _ _ Ht Hid) as Hi.
  pose proof (tk_bucket _ Ht _ _ (get_bucket_lookup _ _ Hi)) as Hb. destruct (deleteInBucket_ok _ _ n Hb) as [Hb1 Hc1].
  split; [by apply on_bucket_ok|]. intros Hh Hl. apply on_bucket_limits; auto.
Qed.
(** The last entry, if it has the ID of [n], has its address. *)
Definition last_held (tab : Table) (bi : nat) (n : node) : Prop :=
  forall e, last (entries (get_bucket tab bi)) = Some e -> nID e = nID n -> nIP e = nIP n.
Lemma revalidated_ok tab bi n replied rnd :
  table_ok tab -> (bi < length (buckets tab))%nat ->
  table_ok (revalidated tab bi n replied rnd)
  /\ (replied = true \/ last_held tab bi n -> limits_ok tab -> limits_ok (revalidated tab bi n replied rnd)).
Proof.
  intros Ht Hi. unfold revalidated. pose proof (tk_bucket _ Ht _ _ (get_bucket_lookup _ _ Hi)) as Hb.
  destruct replied.
  - set (n' := mk_node _ _ _). pose proof (bump_ok _ _ n' Hb) as Hbump.
    destruct (bumpInBucket (ips tab, get_bucket tab bi) n') as [bumped s1] eqn:E. destruct Hbump as (Hb1 & Hc1 & _).
    split; [apply on_bucket_ok; [done..|]; by rewrite E|]. intros _ Hl. apply on_bucket_limits; [done..|]. by rewrite E.
  - destruct (replace_ok _ _ n rnd Hb) as [Hb1 Hc1]. split; [by apply on_bucket_ok|].
    intros [|Hh] Hl; [done|]. apply on_bucket_limits; auto.
Qed.

(** ** The table as a step relation
    The table, and the nodes that are being revalidated with their buckets.
    With [strict], nodes are deleted or replaced under the address that the
    table has for them. *)
Definition state : Type := Table * list (node * nat).
Inductive step (strict : bool) : state -> state -> Prop :=
  | s_seen tab fl n now : is_ID (nID n) -> step strict (tab, fl) (addSeenNode tab n now, fl)
  | s_verified tab fl n now : is_ID (nID n) -> step strict (tab, fl) (addVerifiedNode tab n now, fl)
  | s_delete tab fl n :
      is_ID (nID n) -> (strict = true -> tab_held tab n) -> step strict (tab, fl) (delete tab n, fl)
  | s_revalidate tab fl perm n bi :
      Forall (fun i => (i < Z.to_nat nBuckets)%nat) perm -> nodeToRevalidate tab perm = Some (n, bi) ->
      step strict (tab, fl) (tab, (n, bi) :: fl)
  | s_revalidated tab fl1 fl2 n bi remoteSeq enr replied rnd :
      let n' := fetched n remoteSeq enr in
      (strict = true -> replied = true \/ last_held tab bi n') ->
      step strict (tab, fl1 ++ (n, bi) :: fl2) (revalidated tab bi n' replied rnd, fl1 ++ fl2)
  | s_init tab fl :
      step strict (tab, fl) (mk_Table (self tab) (buckets tab) (nursery tab) (ips tab) true, fl).

Definition state_ok (s : state) : Prop :=
  table_ok s.1 /\ Forall (fun p => (p.2 < Z.to_nat nBuckets)%nat) s.2.
Lemma nodeToRevalidate_in tab perm n bi : nodeToRevalidate tab perm = Some (n, bi) -> bi ∈ perm.
Proof.
  induction perm as [|i perm IH]; simpl; [done|]. destruct (last _); [intros [= _ <-]; by left|]. intros H. right. auto.
Qed.
Lemma step_ok strict s s' :
  step strict s s' -> state_ok s -> state_ok s' /\ (strict = true -> limits_ok s.1 -> limits_ok s'.1).
Proof.
  intros Hst. destruct Hst as [tab fl n now Hid|tab fl n now Hid|tab fl n Hid Hh|tab fl perm n bi Hp Hn
    |tab fl1 fl2 n bi seq enr replied rnd n' Hh|tab fl]; intros [Ht Hf]; simpl in *.
  - destruct (addSeenNode_ok tab n now Ht Hid). split; [by split|auto].
  - destruct (addVerifiedNode_ok tab n now Ht Hid). split; [by split|auto].
  - destruct (delete_ok tab n Ht Hid). split; [by split|auto].
  - split; [|auto]. split; [done|]. constructor; [|done]. simpl. apply nodeToRevalidate_in in Hn.
    by eapply Forall_forall in Hp.
  - apply Forall_app in Hf as [Hf1 [Hf2 Hf3]%list.Forall_cons_1]. simpl in Hf2.
    destruct (revalidated_ok tab bi n' replied rnd Ht) as [H1 H2]; [by rewrite (tk_buckets _ Ht)|].
    split; [split; [done|by apply Forall_app]|auto].
  - split; [|auto]. split; [|done]. by destruct Ht.
Qed.
(** ** Reachable tables *)
Definition start (self_ : ID) (bootnodes seeds : list enode) (now : Z) : state := (newTable self_ bootnodes seeds now, []).
Definition good_nodes (l : list enode) : Prop := Forall (fun n => is_ID (n_id n)) l.

Lemma empty_table_ok self_ boot :
  is_ID self_ ->
  let tab := mk_Table self_ (replicate (Z.to_nat nBuckets) empty_bucket) boot (mk_DistinctNetSet tableSubnet tableIPLimit ∅) false in
  table_ok tab /\ limits_ok tab.
Proof.
  intros Hid tab. assert (Hn : forall l, net_ok l (mk_DistinctNetSet 24 l ∅)) by (intros l; split_and!; [done..|apply map_Forall_empty]).
  split.
  - split; [done|done| |apply Hn]. intros i b Hi. apply lookup_replicate in Hi as [-> _].
    split; [split; apply Hn|done..|apply NoDup_nil_2|constructor].
  - intros k. split; [done|]. unfold tab. cbn [buckets]. apply Forall_replicate. unfold usage, cnt. simpl. rewrite lookup_empty. done.
Qed.
Lemma newTable_ok self_ boot seeds now :
  is_ID self_ -> good_nodes boot -> good_nodes seeds ->
  state_ok (start self_ boot seeds now) /\ limits_ok (start self_ boot seeds now).1.
Proof.
  intros Hid Hb Hs. unfold start, newTable, loadSeedNodes. simpl.
  destruct (empty_table_ok self_ (map wrapNode boot) Hid) as [Ht Hl].
  set (tab := mk_Table _ _ _ _ _) in *. clearbody tab.
  assert (Hall : Forall (fun n => is_ID (nID n)) (map wrapNode seeds ++ map wrapNode boot)).
  { apply Forall_app. split; apply Forall_fmap; done. }
  set (l := map wrapNode seeds ++ map wrapNode boot) in *. clearbody l.
  assert (Hgo : table_ok (foldl (fun tab n => addSeenNode tab n now) tab l)
    /\ limits_ok (foldl (fun tab n => addSeenNode tab n now) tab l)).
  { revert tab Ht Hl. induction Hall as [|n l Hn _ IH]; intros tab Ht Hl; [done|]. simpl.
    destruct (addSeenNode_ok tab n now Ht Hn) as [Ht' Hl']. by apply IH; [|apply Hl']. }
  destruct Hgo. split; [split; [done|constructor]|done].
Qed.

(** Every node is in one place: no ID occurs twice in the table. *)
Lemma table_ids_NoDup tab : table_ok tab -> NoDup (ids (concat (map all_nodes (buckets tab)))).
Proof.
  intros Ht. assert (Hgen : forall l j, (forall i b, l !! i = Some b -> bucket_ok (in_bucket (self tab) (j + i)) (ips tab, b)) ->
    NoDup (ids (concat (map all_nodes l))) /\ forall id, id ∈ ids (concat (map all_nodes l)) ->
      (j <= bucketAtDistance (LogDist (self tab) id))%nat).
  { induction l as [|b l IH]; intros j Hl; simpl; [split; [apply NoDup_nil_2|by intros id ?%elem_of_nil]|].
    pose proof (Hl 0%nat b eq_refl) as Hb. rewrite Nat.add_0_r in Hb.
    destruct (IH (S j)) as [Hnd Hlow]; [intros i b' Hi; rewrite Nat.add_succ_comm; by apply (Hl (S i))|].
    assert (Hin : forall id, id ∈ ids (all_nodes b) -> bucketAtDistance (LogDist (self tab) id) = j).
    { intros id (n & -> & Hn)%list_elem_of_fmap. pose proof (bk_nodes _ _ Hb) as Hall. eapply Forall_forall in Hall as [(_ & _ & ?) _]; done. }
    rewrite ids_app. split.
    - apply NoDup_app. split_and!; [apply Hb| |done]. intros id H1 H2%Hlow. rewrite Hin in H2 by done. lia.
    - intros id [H1|H2]%elem_of_app; [rewrite Hin by done; lia|]. specialize (Hlow id H2). lia. }
  apply (Hgen (buckets tab) 0%nat). intros i b Hi. by apply (tk_bucket _ Ht).
Qed.
Lemma reach_ok strict self_ boot seeds now s :
  is_ID self_ -> good_nodes boot -> good_nodes seeds -> rtc (step strict) (start self_ boot seeds now) s ->
  state_ok s /\ (strict = true -> limits_ok s.1).
Proof.
  intros Hid Hb Hs Hr. destruct (newTable_ok self_ boot seeds now Hid Hb Hs) as [H1 H2].
  apply (invariant_reach (step strict) (fun s => state_ok s /\ (strict = true -> limits_ok s.1)) (start self_ boot seeds now)); [auto| |done].
  intros a b Hst [Ha Hl]. destruct (step_ok strict a b Hst Ha) as [Hb' Hl']. split; [done|]. intros Hstr. auto.
Qed.

(** C32.  However nodes are added, verified, revalidated and deleted, the table is
    well formed: 17 buckets of at most 16 nodes and 10 replacements, every
    node in the bucket of its distance, no node twice and never the node
    itself, every node with an address. *)
Theorem table_invariant self_ boot seeds now tab fl :
  is_ID self_ -> good_nodes boot -> good_nodes seeds -> rtc (step false) (start self_ boot seeds now) (tab, fl) ->
  length (buckets tab) = 17%nat
  /\ NoDup (ids (concat (map all_nodes (buckets tab))))
  /\ forall i b, buckets tab !! i = Some b ->
     len (entries b) <= 16 /\ len (replacements b) <= 10
     /\ Forall (fun n => nID n <> self tab /\ nIP n <> [] /\ bucket_of tab (nID n) = i) (entries b ++ replacements b).
Proof.
  intros Hid Hb Hs Hr. destruct (reach_ok _ _ _ _ _ _ Hid Hb Hs Hr) as [[Ht _] _]. simpl in Ht.
  split; [apply Ht|]. split; [by apply table_ids_NoDup|]. intros i b Hi.
  destruct (tk_bucket _ Ht i b Hi) as [_ He Hrp _ Hall]. split_and!; [done..|]. eapply Forall_impl; [exact Hall|]. intros n [(_ & ? & ?) ?]. done.
Qed.
(** As long as nodes leave the table under the address it has for them, at
    most two nodes of a bucket and ten nodes of the table, replacements
    included, are in the same /24 network, local networks apart. *)
Theorem ip_limits self_ boot seeds now tab fl k :
  is_ID self_ -> good_nodes boot -> good_nodes seeds -> rtc (step true) (start self_ boot seeds now) (tab, fl) ->
  usage (concat (map all_nodes (buckets tab))) k <= 10
  /\ forall b, b ∈ buckets tab -> usage (all_nodes b) k <= 2.
Proof.
  intros Hid Hb Hs Hr. destruct (reach_ok _ _ _ _ _ _ Hid Hb Hs Hr) as [[Ht _] Hl]. simpl in *.
  destruct (Hl eq_refl k) as [H1 H2]. split.
  - assert (usage (concat (map all_nodes (buckets tab))) k = total tab k) as ->.
    { unfold total. clear. induction (buckets tab) as [|b l IH]; simpl; [done|]. by rewrite usage_app, IH. }
    pose proof (cnt_wf _ _ k (tk_ips _ Ht)) as [_ Hc]. unfold tableIPLimit in Hc. lia.
  - intros b Hb'. pose proof (list_elem_of_lookup_1 _ _ Hb') as [i Hi]. destruct (tk_bucket _ Ht i b Hi) as [[_ Hn] _ _ _ _].
    pose proof (cnt_wf _ _ k Hn) as [_ Hc]. unfold bucketIPLimit in Hc. eapply Forall_forall in H2; [|exact Hb']. simpl in *. lia.
Qed.
(** ** A table at work *)
Definition ex_self : ID := replicate 32 0.
Definition ex_id (b : Z) : ID := 128 :: replicate 30 0 ++ [b].
Definition ex_node (b : Z) (ip : IP) : node := mk_node (mk_enode (ex_id b) ip 1 30303 30303 []) 0 0.
Lemma ex_id_ok b : is_byte b -> is_ID (ex_id b).
Proof.
  intros Hb. split; [done|]. constructor; [unfold is_byte; lia|]. apply Forall_app. split; [|by constructor].
  apply Forall_replicate. unfold is_byte. lia.
Qed.
Lemma ex_self_ok : is_ID ex_self.
Proof. split; [done|]. apply Forall_replicate. unfold is_byte. lia. Qed.
Definition see (l : list (Z * IP)) (tab : Table) : Table :=
  foldl (fun tab p => addSeenNode tab (ex_node p.1 p.2) 0) tab l.
Lemma see_steps strict l tab fl :
  Forall (fun p => is_byte p.1) l -> rtc (step strict) (tab, fl) (see l tab, fl).
Proof.
  intros Hl. revert tab. induction Hl as [|[b ip] l Hb _ IH]; intros tab; [apply rtc_refl|].
  eapply rtc_l; [apply (s_seen strict _ _ (ex_node b ip) 0); by apply (ex_id_ok b)|]. apply IH.
Qed.
Definition ex_peers : list (Z * IP) := (fun i => (Z.of_nat i, [40 + Z.of_nat i; 1; 1; 1])) <$> seq 1 8.
Lemma ex_peers_ok : Forall (fun p => is_byte p.1) ex_peers.
Proof. repeat constructor; unfold is_byte; simpl; lia. Qed.

Lemma table_invariant_witness :
  let tab := see [(9, [8; 8; 8; 1])] (see ex_peers (newTable ex_self [] [] 0)) in
  length (entries (get_bucket tab 16)) = 9%nat /\ len (entries (get_bucket tab 16)) <= 16.
Proof.
  intros tab. split; [vm_compute; reflexivity|].
  assert (Hr : rtc (step false) (start ex_self [] [] 0) (tab, [])).
  { transitivity (see ex_peers (newTable ex_self [] [] 0), @nil (node * nat)).
    - apply (see_steps false ex_peers), ex_peers_ok.
    - apply (see_steps false [(9, [8; 8; 8; 1])]). repeat constructor; unfold is_byte; simpl; lia. }
  pose proof (table_invariant ex_self [] [] 0 tab [] ex_self_ok ltac:(constructor) ltac:(constructor) Hr) as (_ & _ & Hb).
  destruct (Hb 16%nat (get_bucket tab 16)) as [Hlen _]; [vm_compute; reflexivity|exact Hlen].
Defined.
Lemma ip_limits_witness :
  let tab := see [(9, [8; 8; 8; 1]); (10, [8; 8; 8; 2]); (11, [8; 8; 8; 3])] (newTable ex_self [] [] 0) in
  usage (all_nodes (get_bucket tab 16)) (subnet [8; 8; 8; 1]) = 2
  /\ usage (concat (map all_nodes (buckets tab))) (subnet [8; 8; 8; 1]) <= 10.
Proof.
  intros tab. split; [vm_compute; reflexivity|].
  assert (Hr : rtc (step true) (start ex_self [] [] 0) (tab, [])).
  { apply (see_steps true [(9, [8; 8; 8; 1]); (10, [8; 8; 8; 2]); (11, [8; 8; 8; 3])] (newTable ex_self [] [] 0)).
    repeat constructor; unfold is_byte; simpl; lia. }
  pose proof (ip_limits ex_self [] [] 0 tab [] (subnet [8; 8; 8; 1]) ex_self_ok ltac:(constructor) ltac:(constructor) Hr)
    as [Htot _]. exact Htot.
Defined.

(** [delete] lowers the counters of the node's address also when the node is
    not in the table, as happens to nodes a lookup has learned from others:
    the limit of two addresses per network can then be exceeded. *)
Theorem absent_delete_exceeds :
  let c := ex_node 100 [8; 8; 8; 9] in
  let tab1 := see [(9, [8; 8; 8; 1]); (10, [8; 8; 8; 2])] (see ex_peers (newTable ex_self [] [] 0)) in
  let tab2 := see [(11, [8; 8; 8; 3])] (delete tab1 c) in
  rtc (step false) (start ex_self [] [] 0) (tab2, [])
  /\ getNode tab1 (nID c) = None /\ bucketSize / 2 <= bucketLen tab1 (nID c)
  /\ usage (entries (get_bucket tab2 16)) (subnet [8; 8; 8; 9]) = 3.
Proof.
  intros c tab1 tab2. split_and!; [|vm_compute; reflexivity|vm_compute; discriminate|vm_compute; reflexivity].
  assert (Hl : forall b, 0 <= b < 256 -> is_byte b) by (unfold is_byte; lia).
  etrans; [apply (see_steps false ex_peers), ex_peers_ok|].
  etrans; [apply (see_steps false [(9, [8; 8; 8; 1]); (10, [8; 8; 8; 2])]); repeat constructor; apply Hl; simpl; lia|].
  eapply rtc_l; [apply (s_delete false _ _ c); [apply (ex_id_ok 100); unfold is_byte; lia|done]|].
  apply (see_steps false [(11, [8; 8; 8; 3])]). repeat constructor; apply Hl; simpl; lia.
Qed.
(** A replacement that becomes an entry is counted a second time: afterwards
    the network has used up its limit with a single node. *)
Theorem promoted_counted_twice :
  let full := (fun i => (Z.of_nat i, [40 + Z.of_nat i; 1; 1; 1])) <$> seq 1 16 in
  let r := (99, [8; 8; 8; 1]) in
  let tab1 := see [r] (see full (newTable ex_self [] [] 0)) in
  let tab2 := see [r] (delete tab1 (ex_node 1 [41; 1; 1; 1])) in
  let tab3 := see [(98, [8; 8; 8; 2])] (delete tab2 (ex_node 2 [42; 1; 1; 1])) in
  rtc (step true) (start ex_self [] [] 0) (tab3, [])
  /\ usage (all_nodes (get_bucket tab3 16)) (subnet [8; 8; 8; 1]) = 1
  /\ cnt (bips (get_bucket tab3 16)) (subnet [8; 8; 8; 1]) = 2
  /\ getNode tab3 (ex_id 98) = None /\ bucketLen tab3 (ex_id 98) = 15.
Proof.
  intros full r tab1 tab2 tab3. split_and!; [|vm_compute; reflexivity..].
  assert (Hl : forall b, 0 <= b < 256 -> is_byte b) by (unfold is_byte; lia).
  assert (Hd : forall n tab, is_byte n -> forall ip, tab_held tab (ex_node n ip) -> step true (tab, []) (delete tab (ex_node n ip), [])).
  { intros n tab Hn ip Hh. apply s_delete; [by apply (ex_id_ok n)|done]. }
  assert (Hh : forall tab n ip, existsb (fun e => bool_decide (nID e = nID (ex_node n ip) /\ nIP e = ip))
    (entries (get_bucket tab (bucket_of tab (nID (ex_node n ip))))) = true -> tab_held tab (ex_node n ip)).
  { intros tab n ip (e & He & [Hid Hip]%bool_decide_eq_true)%existsb_exists. exists e. split_and!; [|done..].
    by apply list_elem_of_In. }
  etrans; [apply (see_steps true full); repeat constructor; apply Hl; simpl; lia|].
  etrans; [apply (see_steps true [r]); repeat constructor; apply Hl; simpl; lia|].
  eapply rtc_l; [apply (Hd 1 _ ltac:(apply Hl; lia) [41; 1; 1; 1]), Hh; vm_compute; reflexivity|].
  etrans; [apply (see_steps true [r]); repeat constructor; apply Hl; simpl; lia|].
  eapply rtc_l; [apply (Hd 2 _ ltac:(apply Hl; lia) [42; 1; 1; 1]), Hh; vm_compute; reflexivity|].
  apply (see_steps true [(98, [8; 8; 8; 2])]). repeat constructor; apply Hl; simpl; lia.
Qed.
End DiscTableProps.
