(* ===== verification/DiscClosest.v ===== *)
(** * The closest nodes (src/p2p/discover/table.go)

    [push] keeps a list of nodes sorted by distance with a binary search; a
    sequence of pushes leaves the closest nodes of all that were pushed. *)

From stdpp Require Import base gmap list numbers sorting relations.
From Stdlib Require Import ZArith Lia.
From S2P Require Import Prelude Bytes NetUtil NodeID DiscTable DiscTableProps.

Module DiscClosest.
Import NetUtil NodeID DiscTable DiscTableProps.

(** ** Sorted insertion *)
Section closest.
Context (target : ID).
Definition d (n : node) : Z := dist (nID n) target.
Definition nearer (a b : node) : Prop := d a <= d b.
#[local] Instance nearer_trans : Transitive nearer.
Proof. intros a b c. unfold nearer. lia. Qed.

Fixpoint ins (l : list node) (n : node) : list node :=
  match l with
  | [] => [n]
  | e :: l' => if d n <? d e then n :: l else e :: ins l' n
  end.
Definition isort (l : list node) : list node := foldl ins [] l.

Lemma ins_perm l n : ins l n ≡ₚ n :: l.
Proof. induction l as [|e l IH]; simpl; [done|]. destruct (d n <? d e); [done|]. rewrite IH. apply Permutation_swap. Qed.
Lemma ins_sorted l n : StronglySorted nearer l -> StronglySorted nearer (ins l n).
Proof.
  induction 1 as [|e l Hl IH He]; simpl; [by repeat constructor|].
  destruct (Z.ltb_spec (d n) (d e)).
  - constructor; [by constructor|]. constructor; [unfold nearer; lia|]. eapply Forall_impl; [exact He|].
    intros x Hx. unfold nearer in *. lia.
  - constructor; [done|]. rewrite ins_perm. by constructor.
Qed.
Lemma ins_split l1 l2 n :
  Forall (fun e => d e <= d n) l1 -> Forall (fun e => d n < d e) l2 -> ins (l1 ++ l2) n = l1 ++ n :: l2.
Proof.
  intros H1 H2. induction H1 as [|e l1 He _ IH]; simpl.
  - destruct H2 as [|e l2 He _]; [done|]. simpl. by destruct (Z.ltb_spec (d n) (d e)); [|lia].
  - destruct (Z.ltb_spec (d n) (d e)); [lia|]. by rewrite IH.
Qed.
Lemma ins_take k l n : StronglySorted nearer l -> take k (ins (take k l) n) = take k (ins l n).
Proof.
  intros Hl. revert k. induction Hl as [|e l Hl IH He]; intros k; [by rewrite take_nil|].
  destruct k as [|k]; [done|]. cbn [take ins]. destruct (d n <? d e).
  - cbn [take]. destruct k as [|k]; [done|]. cbn [take]. by rewrite take_take, Nat.min_l by lia.
  - cbn [take]. by rewrite IH.
Qed.
Lemma isort_app l n : isort (l ++ [n]) = ins (isort l) n.
Proof. unfold isort. by rewrite foldl_app. Qed.
Lemma isort_spec l : isort l ≡ₚ l /\ StronglySorted nearer (isort l).
Proof.
  induction l as [|n l [IH1 IH2]] using rev_ind; [split; [done|constructor]|]. rewrite isort_app.
  split; [|by apply ins_sorted]. by rewrite ins_perm, IH1, Permutation_cons_append.
Qed.

Hypothesis Htarget : is_ID target.
Lemma DistCmp_d e n :
  is_ID (nID e) -> is_ID (nID n) -> (0 <? DistCmp target (nID e) (nID n)) = (d n <? d e).
Proof.
  intros [Le He] [Ln Hn]. destruct Htarget as [Lt Ht]. unfold d.
  rewrite (DistCmp_spec target (nID e) (nID n)) by (done || congruence).
  destruct (Z.compare_spec (dist (nID e) target) (dist (nID n) target)); symmetry; simpl;
    [apply Z.ltb_ge; lia|apply Z.ltb_ge; lia|apply Z.ltb_lt; lia].
Qed.
(** [push] is insertion followed by truncation. *)
Lemma push_ins l n k :
  Forall (fun e => is_ID (nID e)) l -> is_ID (nID n) -> StronglySorted nearer l -> len l <= k ->
  push target l n k = take (Z.to_nat k) (ins l n).
Proof.
  intros Hl Hn Hs Hk. unfold push. pose proof (len_nonneg l) as H0.
  set (f := fun i => match l !! Z.to_nat i with Some e => 0 <? DistCmp target (nID e) (nID n) | None => false end).
  assert (Hf : forall i e, l !! Z.to_nat i = Some e -> f i = (d n <? d e)).
  { intros i e He. unfold f. rewrite He. apply DistCmp_d; [|done]. by eapply Forall_lookup_1 in Hl. }
  assert (Hlk : forall i, 0 <= i < len l -> exists e, l !! Z.to_nat i = Some e).
  { intros i Hi. apply lookup_lt_is_Some_2. unfold len in Hi. lia. }
  destruct (Search_spec (len l) f H0) as (Hr & Hlo & Hhi).
  { intros h h' Hh Hh' Efh. destruct (Hlk h ltac:(lia)) as [e He]. destruct (Hlk h' ltac:(lia)) as [e' He'].
    rewrite (Hf h e He) in Efh. rewrite (Hf h' e' He'). apply Z.ltb_lt in Efh. apply Z.ltb_lt.
    destruct (decide (h = h')) as [->|]; [congruence|].
    assert (nearer e e') by (apply (sorted_lookup nearer l (Z.to_nat h) (Z.to_nat h')); [done|lia|done..]). unfold nearer in *. lia. }
  set (ix := Search (len l) f) in *. set (i := Z.to_nat ix).
  assert (Hins : ins l n = take i l ++ n :: drop i l).
  { rewrite <- (take_drop i l) at 1. apply ins_split; apply Forall_lookup_2; intros j e Hj.
    - apply lookup_take_Some in Hj as [Hj Hji]. assert (E : f (Z.of_nat j) = false) by (apply Hlo; unfold i in *; lia).
      rewrite (Hf (Z.of_nat j) e) in E by (by rewrite Nat2Z.id). apply Z.ltb_ge in E. lia.
    - rewrite lookup_drop in Hj. pose proof (lookup_lt_Some _ _ _ Hj).
      assert (E : f (Z.of_nat (i + j)) = true) by (apply Hhi; unfold i, len in *; lia).
      rewrite (Hf _ e) in E by (by rewrite Nat2Z.id). by apply Z.ltb_lt in E. }
  rewrite Hins. unfold len in *. destruct (Z.ltb_spec (Z.of_nat (length l)) k) as [Hlt|Hge].
  - rewrite length_app. simpl. destruct (Z.eqb_spec ix (Z.of_nat (length l + 1))); [lia|].
    rewrite take_app_le, drop_app_le by (unfold i; lia). rewrite removelast_last.
    symmetry. apply take_ge. rewrite length_app. simpl. rewrite length_take, length_drop. unfold i. lia.
  - destruct (Z.eqb_spec ix (Z.of_nat (length l))) as [E|Hne].
    + rewrite (take_ge l i) by (unfold i; lia). rewrite take_app_length' by lia. done.
    + assert (Hd : exists x r, drop i l = r ++ [x]).
      { destruct (drop i l) as [|x r _] eqn:E using rev_ind; [|by exists x, r].
        apply (f_equal length) in E. rewrite length_drop in E. simpl in E. unfold i in E. lia. }
      destruct Hd as (x & r & Hd). fold i. rewrite Hd, removelast_last.
      assert (Hk' : Z.to_nat k = (length (take i l ++ n :: r))%nat).
      { apply (f_equal length) in Hd. rewrite length_drop, length_app in Hd. simpl in Hd.
        rewrite length_app, length_take. simpl. unfold i in *. lia. }
      rewrite Hk'. change (n :: r ++ [x]) with ((n :: r) ++ [x]). rewrite app_assoc. by rewrite take_app_length.
Qed.

Definition closest (k : Z) (l r : list node) : Prop :=
  exists rest, l ≡ₚ r ++ rest /\ StronglySorted nearer r /\ len r = Z.min k (len l)
    /\ forall x y, x ∈ r -> y ∈ rest -> nearer x y.
Lemma closest_isort k l : 0 <= k -> closest k l (take (Z.to_nat k) (isort l)).
Proof.
  intros Hk. destruct (isort_spec l) as [Hp Hs]. exists (drop (Z.to_nat k) (isort l)).
  rewrite <- (take_drop (Z.to_nat k) (isort l)) in Hs. apply StronglySorted_app in Hs as (Hx & Hs1 & _). split_and!.
  - by rewrite take_drop, Hp.
  - done.
  - unfold len. rewrite length_take. apply Permutation_length in Hp. lia.
  - intros x y Hxr Hyr. by apply Hx.
Qed.
(** Pushing nodes one after the other leaves the closest ones. *)
Lemma push_all k l :
  0 <= k -> Forall (fun e => is_ID (nID e)) l ->
  foldl (fun l n => push target l n k) [] l = take (Z.to_nat k) (isort l).
Proof.
  intros Hk. induction l as [|n l IH] using rev_ind; intros Hl; [by destruct (Z.to_nat k)|].
  apply Forall_app in Hl as [Hl [Hn _]%list.Forall_cons_1]. rewrite foldl_app, isort_app, IH by done. simpl.
  destruct (isort_spec l) as [Hp Hs]. rewrite push_ins; [by apply ins_take|..|done| |].
  - apply Forall_take. by rewrite Hp.
  - rewrite <- (take_drop (Z.to_nat k) (isort l)) in Hs. by apply StronglySorted_app in Hs as (_ & Hs1 & _).
  - unfold len. rewrite length_take. lia.
Qed.
End closest.

Lemma foldl_filter {A} (f : A -> node -> A) (p : node -> bool) l a :
  foldl (fun a n => if p n then f a n else a) a l = foldl f a (filter (fun n => p n = true) l).
Proof.
  revert a. induction l as [|n l IH]; intros a; [done|]. simpl. rewrite filter_cons.
  destruct (p n) eqn:E; [rewrite decide_True by done|rewrite decide_False by done]; simpl; apply IH.
Qed.
Lemma all_entries_IDs tab : table_ok tab -> Forall (fun n => is_ID (nID n)) (all_entries tab).
Proof.
  intros Ht. apply Forall_concat, Forall_fmap, Forall_lookup_2. intros i b Hi. simpl.
  pose proof (bk_nodes _ _ (tk_bucket _ Ht i b Hi)) as Hn. apply Forall_app in Hn as [Hn _].
  eapply Forall_impl; [exact Hn|]. by intros n [(? & _) _].
Qed.
(** C36.  A query for the closest nodes is answered with the nodes of the table
    that are closest to the target, sorted by distance: with [preferLive] those
    among the verified nodes, if there are any. *)
Theorem findnode_closest self_ boot seeds now tab fl target nresults preferLive :
  is_ID self_ -> good_nodes boot -> good_nodes seeds -> rtc (step false) (start self_ boot seeds now) (tab, fl) ->
  is_ID target -> 0 < nresults ->
  let live := filter (fun n => (0 <? livenessChecks n) = true) (all_entries tab) in
  closest target nresults (if (preferLive && (0 <? len live))%bool then live else all_entries tab)
    (findnodeByID tab target nresults preferLive).
Proof.
  intros Hid Hb Hs Hr Htg Hk live. destruct (reach_ok _ _ _ _ _ _ Hid Hb Hs Hr) as [[Ht _] _]. simpl in Ht.
  pose proof (all_entries_IDs tab Ht) as Hall. unfold findnodeByID.
  rewrite (push_all target Htg nresults (all_entries tab)) by (done || lia).
  destruct preferLive; cbn [andb]; [|apply closest_isort; lia].
  rewrite (foldl_filter (fun l n => push target l n nresults) (fun n => 0 <? livenessChecks n)). fold live.
  assert (Hlive : Forall (fun n => is_ID (nID n)) live).
  { apply Forall_forall. intros n [_ Hn]%list_elem_of_filter. by eapply Forall_forall in Hall. }
  rewrite (push_all target Htg nresults live) by (done || lia).
  assert (E : (0 <? len (take (Z.to_nat nresults) (isort target live))) = (0 <? len live)).
  { destruct (closest_isort target nresults live ltac:(lia)) as (_ & _ & _ & -> & _). pose proof (len_nonneg live).
    destruct (Z.ltb_spec 0 (len live)); [apply Z.ltb_lt|apply Z.ltb_ge]; lia. }
  rewrite E. destruct (0 <? len live); apply closest_isort; lia.
Qed.

(** ** Random nodes *)
Lemma exchange_perm {A} (l : list A) i j x y : l !! i = Some x -> l !! j = Some y -> <[j := x]> (<[i := y]> l) ≡ₚ l.
Proof.
  intros Hi Hj. apply (Permutation_cons_inv (a := y)). rewrite (insert_perm l i x y Hi).
  symmetry. apply insert_perm. destruct (decide (i = j)) as [->|Hne].
  - rewrite Hi in Hj. injection Hj as ->. apply list_lookup_insert_eq. by eapply lookup_lt_Some.
  - by rewrite list_lookup_insert_ne.
Qed.
Lemma shuffle_perm rnds i l : shuffle i rnds l ≡ₚ l.
Proof.
  revert i l. induction rnds as [|r rnds IH]; intros i l; [done|]. cbn [shuffle].
  destruct (l !! i) as [x|] eqn:Hi; [|done]. destruct (l !! Z.to_nat (r mod len l)) as [y|] eqn:Hj; [|done].
  rewrite IH. by apply exchange_perm.
Qed.
(** [ReadRandomNodes] returns distinct nodes of the table, as many as are
    asked for if there are enough. *)
Theorem random_nodes self_ boot seeds now tab fl n rnds :
  is_ID self_ -> good_nodes boot -> good_nodes seeds -> rtc (step false) (start self_ boot seeds now) (tab, fl) ->
  initDone tab = true ->
  NoDup (map n_id (ReadRandomNodes tab n rnds))
  /\ (forall x, x ∈ ReadRandomNodes tab n rnds -> exists e, e ∈ all_entries tab /\ Node e = x)
  /\ length (ReadRandomNodes tab n rnds) = Nat.min n (length (all_entries tab)).
Proof.
  intros Hid Hb Hs Hr Hd. destruct (reach_ok _ _ _ _ _ _ Hid Hb Hs Hr) as [[Ht _] _]. simpl in Ht.
  unfold ReadRandomNodes. rewrite Hd. cbn [negb]. pose proof (shuffle_perm rnds 0 (Node <$> all_entries tab)) as Hp. split_and!.
  - assert (Hnd : NoDup (ids (all_entries tab))).
    { eapply NoDup_ids_sublist, table_ids_NoDup, Ht. unfold all_entries. clear. induction (buckets tab) as [|b l IH]; simpl; [done|].
      apply sublist_app; [|done]. unfold all_nodes. by apply sublist_inserts_r. }
    assert (Hnd' : NoDup (map n_id (shuffle 0 rnds (Node <$> all_entries tab)))).
    { rewrite Hp. rewrite <- list_fmap_compose. exact Hnd. }
    eapply sublist_NoDup; [exact Hnd'|]. apply fmap_sublist, sublist_take.
  - intros x Hx. assert (Hx' : x ∈ Node <$> all_entries tab).
    { rewrite <- Hp. eapply elem_of_sublist; [exact Hx|]. apply sublist_take. }
    apply list_elem_of_fmap in Hx' as (e & -> & He). by exists e.
  - rewrite length_take. apply Permutation_length in Hp. by rewrite Hp, length_fmap.
Qed.
(** The table of the example, initialised. *)
Definition ex_tab : Table := see ex_peers (newTable ex_self [] [] 0).
Definition ex_ready : Table := mk_Table (self ex_tab) (buckets ex_tab) (nursery ex_tab) (ips ex_tab) true.
Lemma ex_tab_steps : rtc (step false) (start ex_self [] [] 0) (ex_ready, []).
Proof.
  assert (Hs : rtc (step false) (start ex_self [] [] 0) (ex_tab, []))
    by exact (see_steps false ex_peers (newTable ex_self [] [] 0) [] ex_peers_ok).
  eapply rtc_r; [exact Hs|]. unfold ex_ready. generalize ex_tab. intros tab. apply s_init.
Qed.
Lemma findnode_closest_witness :
  closest (ex_id 3) 2 (all_entries ex_ready) (findnodeByID ex_ready (ex_id 3) 2 false)
  /\ nID <$> findnodeByID ex_ready (ex_id 3) 2 false = [ex_id 3; ex_id 2].
Proof.
  split; [|vm_compute; reflexivity].
  pose proof (findnode_closest ex_self [] [] 0 ex_ready [] (ex_id 3) 2 false ex_self_ok ltac:(constructor) ltac:(constructor)
    ex_tab_steps ltac:(apply ex_id_ok; unfold is_byte; lia) ltac:(lia)) as Hc. cbv zeta in Hc. rewrite andb_false_l in Hc. exact Hc.
Defined.
Lemma random_nodes_witness :
  NoDup (map n_id (ReadRandomNodes ex_ready 3 [5; 1; 4; 4; 0; 2; 7; 6])) /\ length (ReadRandomNodes ex_ready 3 [5; 1; 4; 4; 0; 2; 7; 6]) = 3%nat.
Proof.
  pose proof (random_nodes ex_self [] [] 0 ex_ready [] 3 [5; 1; 4; 4; 0; 2; 7; 6] ex_self_ok ltac:(constructor) ltac:(constructor)
    ex_tab_steps ltac:(reflexivity)) as (Hnd & _ & Hl). split; [exact Hnd|vm_compute; reflexivity].
Defined.
End DiscClosest.
