(* ===== verification/DiscLookup.v ===== *)
(** * Lookups (src/p2p/discover/lookup.go)

    A lookup asks the closest nodes it has seen for nodes that are closer
    still, at most three at a time.  Its goroutine and those of its queries
    are a step relation; what the network answers and when is arbitrary. *)

From stdpp Require Import base gmap list numbers sorting relations.
From Stdlib Require Import ZArith Lia.
From S2P Require Import Prelude Bytes NetUtil NodeID DiscTable DiscTableProps DiscClosest.

Module DiscLookup.
Import NetUtil NodeID DiscTable DiscTableProps DiscClosest.

Definition alpha : Z := 3.
Definition maxFindnodeFailures : Z := 5.

(** [queryfunc] is false when it is nil.  [replyCh] holds what has been sent
    and not received. *)
Record lookup : Type := mk_lookup {
  queryfunc : bool;
  replyCh : list (list (option node));
  asked : gset ID;
  seen : gset ID;
  result : list node;
  replyBuffer : list node;
  queries : Z;
}.
Definition newLookup (self_ : ID) : lookup := mk_lookup true [] {[self_]} ∅ [] [] (-1).

(** The loop of [startQueries]: the nodes asked now. *)
Fixpoint ask (l : list node) (asked_ : gset ID) (queries_ : Z) : gset ID * Z * list node :=
  match l with
  | [] => (asked_, queries_, [])
  | n :: l =>
      if queries_ <? alpha then
        if decide (nID n ∈ asked_) then ask l asked_ queries_
        else let '(a, q, started) := ask l ({[nID n]} ∪ asked_) (queries_ + 1) in (a, q, n :: started)
      else (asked_, queries_, [])
  end.
(** Returns whether the lookup goes on, and the nodes for which a query is
    started.  [closest_] is the answer of the local table. *)
Definition startQueries (it : lookup) (closest_ : list node) : bool * lookup * list node :=
  if negb (queryfunc it) then (false, it, [])
  else if queries it =? -1 then
    (true, mk_lookup (queryfunc it) (replyCh it ++ [Some <$> closest_]) (asked it) (seen it) (result it) (replyBuffer it) 1, [])
  else
    let '(a, q, started) := ask (result it) (asked it) (queries it) in
    (0 <? q, mk_lookup (queryfunc it) (replyCh it) a (seen it) (result it) (replyBuffer it) q, started).

(** The nodes of a reply that have not been seen. *)
Fixpoint new_nodes (nodes : list (option node)) (seen_ : gset ID) : list node :=
  match nodes with
  | [] => []
  | None :: nodes => new_nodes nodes seen_
  | Some n :: nodes =>
      if decide (nID n ∈ seen_) then new_nodes nodes seen_ else n :: new_nodes nodes ({[nID n]} ∪ seen_)
  end.
(** The reply case of [advance]. *)
Definition receive (target : ID) (it : lookup) (nodes : list (option node)) : lookup :=
  let l := new_nodes nodes (seen it) in
  mk_lookup (queryfunc it) (drop 1 (replyCh it)) (asked it) (seen it ∪ list_to_set (ids l))
    (foldl (fun r n => push target r n bucketSize) (result it) l) l (queries it - 1).
(** One round of [shutdown], and its end. *)
Definition drain (it : lookup) : lookup :=
  mk_lookup (queryfunc it) (drop 1 (replyCh it)) (asked it) (seen it) (result it) (replyBuffer it) (queries it - 1).
Definition drained (it : lookup) : lookup :=
  mk_lookup false (replyCh it) (asked it) (seen it) (result it) [] (queries it).
(** The send of a query goroutine. *)
Definition answer (it : lookup) (r : list (option node)) : lookup :=
  mk_lookup (queryfunc it) (replyCh it ++ [r]) (asked it) (seen it) (result it) (replyBuffer it) (queries it).

(** What a query does to the table; [fails] is the number of failures so far,
    and the new number is returned if it is stored. *)
Definition query (tab : Table) (n : node) (fails : Z) (r : list node) (closed : bool) (now : Z) : option Z * Table :=
  if closed then (None, tab)
  else
    let '(upd, tab) :=
      match r with
      | [] =>
          (Some (fails + 1),
           if ((maxFindnodeFailures <=? fails + 1) && (bucketSize / 2 <=? bucketLen tab (nID n)))%bool
           then delete tab n else tab)
      | _ => (if 0 <? fails then Some 0 else None, tab)
      end in
    (upd, foldl (fun tab m => addSeenNode tab m now) tab r).

(** ** The lookup as a step relation *)
Inductive phase : Type := Start | Waiting | Draining | Done.
(** [flying]: the nodes being queried.  [history]: all nodes that were asked;
    [found]: all nodes that were seen. *)
Record cfg : Type := mk_cfg { ph : phase; it : lookup; flying : list node; history : list node; found : list node }.
Definition init (self_ : ID) : cfg := mk_cfg Start (newLookup self_) [] [] [].

Section lookup.
Context (self_ target : ID).
(** The nodes that can occur in answers. *)
Context (U : gset ID).
Definition known (n : node) : Prop := is_ID (nID n) /\ nID n ∈ U.

Inductive step : cfg -> cfg -> Prop :=
  | l_start it_ fl hist found_ closest_ it' started :
      Forall known closest_ -> startQueries it_ closest_ = (true, it', started) ->
      step (mk_cfg Start it_ fl hist found_) (mk_cfg Waiting it' (fl ++ started) (hist ++ started) found_)
  | l_done it_ fl hist found_ closest_ it' started :
      startQueries it_ closest_ = (false, it', started) ->
      step (mk_cfg Start it_ fl hist found_) (mk_cfg Done it' (fl ++ started) (hist ++ started) found_)
  | l_reply it_ fl hist found_ r rest :
      replyCh it_ = r :: rest ->
      step (mk_cfg Waiting it_ fl hist found_)
        (mk_cfg Start (receive target it_ r) fl hist (found_ ++ new_nodes r (seen it_)))
  | l_cancel it_ fl hist found_ : step (mk_cfg Waiting it_ fl hist found_) (mk_cfg Draining it_ fl hist found_)
  | l_drain it_ fl hist found_ r rest :
      0 < queries it_ -> replyCh it_ = r :: rest ->
      step (mk_cfg Draining it_ fl hist found_) (mk_cfg Draining (drain it_) fl hist found_)
  | l_drained it_ fl hist found_ :
      queries it_ <= 0 -> step (mk_cfg Draining it_ fl hist found_) (mk_cfg Start (drained it_) fl hist found_)
  | l_answer p it_ fl1 n fl2 hist found_ r :
      Forall (fun o => match o with Some m => known m | None => True end) r ->
      len (replyCh it_) < alpha ->
      step (mk_cfg p it_ (fl1 ++ n :: fl2) hist found_) (mk_cfg p (answer it_ r) (fl1 ++ fl2) hist found_).

(** ** Invariant *)
Lemma ask_spec l a q a' q' started :
  ask l a q = (a', q', started) -> q <= alpha ->
  q' = q + len started /\ q' <= alpha /\ a' = a ∪ list_to_set (ids started)
  /\ NoDup (ids started) /\ (forall id, id ∈ ids started -> id ∉ a) /\ started `sublist_of` l
  /\ (q' < alpha -> forall n, n ∈ l -> nID n ∈ a').
Proof.
  revert a q a' q' started. induction l as [|n l IH]; intros a q a' q' started; cbn [ask].
  { intros [= <- <- <-] Hq.
    split_and!; [rewrite len_nil; lia|done|clear; set_solver|apply NoDup_nil_2|by intros ? ?%elem_of_nil|done|by intros _ ? ?%elem_of_nil]. }
  destruct (Z.ltb_spec q alpha) as [Hlt|Hge].
  2: { intros [= <- <- <-] Hq.
       split_and!; [rewrite len_nil; lia|done|clear; set_solver|apply NoDup_nil_2|by intros ? ?%elem_of_nil|apply sublist_nil_l|lia]. }
  case_decide as Hn.
  - intros E Hq. destruct (IH _ _ _ _ _ E Hq) as (-> & H2 & -> & H4 & H5 & H6 & H7).
    split_and!; try done; [by apply sublist_cons|]. intros Hal m [->|Hm]%elem_of_cons; [clear -Hn; set_solver|auto].
  - destruct (ask l ({[nID n]} ∪ a) (q + 1)) as [[a1 q1] st1] eqn:E. intros [= <- <- <-] Hq.
    destruct (IH _ _ _ _ _ E ltac:(lia)) as (-> & H2 & -> & H4 & H5 & H6 & H7). split_and!.
    + rewrite len_cons. lia.
    + done.
    + simpl. clear. set_solver.
    + simpl. constructor; [|done]. intros Hin. specialize (H5 _ Hin). clear -H5. set_solver.
    + intros id [->|Hid]%elem_of_cons; [done|]. specialize (H5 _ Hid). clear -H5. set_solver.
    + by apply sublist_skip.
    + intros Hal m [->|Hm]%elem_of_cons; [clear; set_solver|auto].
Qed.
Lemma new_nodes_spec nodes s :
  Forall (fun o => match o with Some m => known m | None => True end) nodes ->
  NoDup (ids (new_nodes nodes s)) /\ (forall id, id ∈ ids (new_nodes nodes s) -> id ∉ s) /\ Forall known (new_nodes nodes s).
Proof.
  intros Hk. revert s. induction Hk as [|[n|] nodes Hn _ IH]; intros s; cbn [new_nodes]; [|..|apply IH].
  - split_and!; [apply NoDup_nil_2|set_solver|constructor].
  - case_decide as Hs; [apply IH|]. destruct (IH ({[nID n]} ∪ s)) as (H1 & H2 & H3). split_and!.
    + simpl. constructor; [|done]. intros Hin. specialize (H2 _ Hin). set_solver.
    + intros id [->|Hid]%elem_of_cons; [done|]. specialize (H2 _ Hid). set_solver.
    + by constructor.
Qed.

Record inv (c : cfg) : Prop := {
  i_asked : asked (it c) = {[self_]} ∪ list_to_set (ids (history c));
  i_once : NoDup (ids (history c)) /\ self_ ∉ ids (history c);
  i_seen : seen (it c) = list_to_set (ids (found c)) /\ NoDup (ids (found c)) /\ Forall known (found c);
  i_result : result (it c) = take 16 (isort target (found c));
  i_flying : flying c ⊆+ history c /\ Forall (fun n => nID n ∈ U) (history c);
  i_replies : Forall (Forall (fun o => match o with Some m => known m | None => True end)) (replyCh (it c));
  i_queries :
    (queries (it c) = -1 /\ ph c = Start /\ queryfunc (it c) = true /\ flying c = [] /\ replyCh (it c) = [])
    \/ (0 <= queries (it c) <= alpha /\ queries (it c) = len (flying c) + len (replyCh (it c)));
  i_waiting : ph c = Waiting -> 0 < queries (it c) /\ queryfunc (it c) = true;
  i_ended : queryfunc (it c) = false -> queries (it c) = 0;
  i_done : ph c = Done -> queries (it c) = 0 /\ (queryfunc (it c) = true -> forall n, n ∈ result (it c) -> nID n ∈ asked (it c))
}.
Hypothesis Htarget : is_ID target.
Lemma known_IDs l : Forall known l -> Forall (fun n => is_ID (nID n)) l.
Proof. intros Hl. eapply Forall_impl; [exact Hl|]. by intros n [? _]. Qed.
Lemma push_more l m :
  Forall known (l ++ m) ->
  foldl (fun r n => push target r n bucketSize) (take 16 (isort target l)) m = take 16 (isort target (l ++ m)).
Proof.
  intros Hk%known_IDs. pose proof (push_all target Htarget bucketSize) as Hp. change (Z.to_nat bucketSize) with 16%nat in Hp.
  rewrite <- !Hp by (done || by apply Forall_app in Hk as [? _]). by rewrite foldl_app.
Qed.
Lemma lk_inv_init : inv (init self_).
Proof.
  split; simpl; try done.
  - set_solver.
  - split; [apply NoDup_nil_2|set_solver].
  - split_and!; [done|apply NoDup_nil_2|done].
  - by left.
Qed.

(** The two ways on from [startQueries]. *)
Lemma lk_inv_start it_ fl hist found_ closest_ b it' started :
  inv (mk_cfg Start it_ fl hist found_) -> (b = true -> Forall known closest_) -> startQueries it_ closest_ = (b, it', started) ->
  inv (mk_cfg (if b then Waiting else Done) it' (fl ++ started) (hist ++ started) found_).
Proof.
  intros Hi Hcl E. destruct Hi as [Ha [Ho1 Ho2] Hs Hr [Hf1 Hf2] Hrep Hq _ He _]. simpl in *. unfold startQueries in E.
  destruct (queryfunc it_) eqn:Eq; simpl in E.
  2: { injection E as <- <- <-. rewrite !app_nil_r. specialize (He eq_refl). split; simpl; try done.
       - right. destruct Hq as [(? & _)|?]; [lia|done].
       - intros _. split; [done|congruence]. }
  destruct (Z.eqb_spec (queries it_) (-1)) as [Em|Hne].
  { injection E as <- <- <-. rewrite !app_nil_r. destruct Hq as [(_ & _ & _ & -> & Hch)|Hq]; [|lia].
    split; simpl; try done.
    - rewrite Hch. apply Forall_app. split; [constructor|]. constructor; [|done]. apply Forall_fmap.
      eapply Forall_impl; [by apply Hcl|]. done.
    - right. rewrite Hch. done. }
  destruct Hq as [(? & _)|[Hq1 Hq2]]; [done|].
  destruct (ask (result it_) (asked it_) (queries it_)) as [[a q] st] eqn:Ea. injection E as <- <- <-.
  destruct (ask_spec _ _ _ _ _ _ Ea ltac:(lia)) as (-> & H2 & -> & H4 & H5 & H6 & H7).
  assert (HstU : Forall known st).
  { apply Forall_forall. intros n Hn. assert (Hin : n ∈ result it_) by by eapply elem_of_sublist.
    rewrite Hr in Hin. eapply Forall_forall; [exact (proj2 (proj2 Hs))|].
    destruct (isort_spec target found_) as [Hp _]. rewrite <- Hp. eapply elem_of_sublist; [exact Hin|apply sublist_take]. }
  pose proof (len_nonneg st). rewrite Ha in H5. split; simpl; try done.
  - rewrite Ha, ids_app, list_to_set_app_L. set_solver.
  - rewrite ids_app. split.
    + apply NoDup_app. split_and!; [done| |done]. intros id Hid Hid'. specialize (H5 id Hid'). set_solver.
    + rewrite elem_of_app. intros [|Hid]; [done|]. specialize (H5 _ Hid). set_solver.
  - split; [by apply submseteq_app|]. apply Forall_app. split; [done|]. eapply Forall_impl; [exact HstU|]. by intros n [_ ?].
  - right. rewrite len_app. split; lia.
  - by destruct (Z.ltb_spec 0 (queries it_ + len st)).
  - destruct (Z.ltb_spec 0 (queries it_ + len st)); [done|]. intros _. split; [lia|]. intros _ n Hn.
    apply H7; [unfold alpha; lia|done].
Qed.

Lemma lk_inv_step c c' : step c c' -> inv c -> inv c'.
Proof.
  destruct 1 as [it_ fl hist fd cl it' st Hcl E|it_ fl hist fd cl it' st E|it_ fl hist fd r rest Hr|it_ fl hist fd
    |it_ fl hist fd r rest Hq Hr|it_ fl hist fd Hq|p it_ fl1 n fl2 hist fd r Hk Hlt].
  - intros Hi. by apply (lk_inv_start it_ fl hist fd cl true).
  - intros Hi. by apply (lk_inv_start it_ fl hist fd cl false).
  - intros [Ha Ho (Hs1 & Hs2 & Hs3) Hre Hf Hrep Hq Hw He _]. simpl in *. destruct (Hw eq_refl) as [Hq0 Hqf].
    rewrite Hr in Hrep. apply list.Forall_cons_1 in Hrep as [Hkr Hrep].
    destruct (new_nodes_spec r (seen it_) Hkr) as (N1 & N2 & N3). destruct Hq as [(? & _)|[Hq1 Hq2]]; [lia|].
    rewrite Hr, len_cons in Hq2. assert (Hall : Forall known (fd ++ new_nodes r (seen it_))) by by apply Forall_app.
    split; simpl; rewrite ?Hr; try done.
    + split_and!; [rewrite Hs1, ids_app, list_to_set_app_L; set_solver| |done]. rewrite ids_app. apply NoDup_app.
      split_and!; [done| |done]. intros id Hid Hid'. apply (N2 id Hid'). rewrite Hs1. by apply elem_of_list_to_set.
    + rewrite Hre. by apply push_more.
    + right. cbn [drop]. rewrite drop_0. lia.
    + congruence.
  - intros [Ha Ho Hs Hre Hf Hrep Hq Hw He _]. split; simpl in *; try done. right. destruct (Hw eq_refl). destruct Hq as [(? & _)|?]; [lia|done].
  - intros [Ha Ho Hs Hre Hf Hrep Hq' Hw He _]. simpl in *. rewrite Hr in Hrep. apply list.Forall_cons_1 in Hrep as [_ Hrep].
    destruct Hq' as [(? & _)|[Hq1 Hq2]]; [lia|]. rewrite Hr, len_cons in Hq2. split; simpl; rewrite ?Hr; try done.
    + right. cbn [drop]. rewrite drop_0. lia.
    + intros E. specialize (He E). lia.
  - intros [Ha Ho Hs Hre Hf Hrep Hq' Hw He _]. simpl in *. destruct Hq' as [(_ & ? & _)|[Hq1 Hq2]]; [done|].
    split; simpl; try done; [by right|]. intros _. lia.
  - intros [Ha Ho Hs Hre [Hf1 Hf2] Hrep Hq' Hw He Hd]. simpl in *. destruct Hq' as [(_ & _ & _ & ? & _)|[Hq1 Hq2]]; [by destruct fl1|].
    split; simpl; try done.
    + split; [|done]. etrans; [|exact Hf1]. apply submseteq_app; [done|]. by apply submseteq_cons.
    + apply Forall_app. split; [done|by constructor].
    + right. rewrite !len_app in *. rewrite len_cons in Hq2. change (len [r]) with 1. lia.
Qed.

(** ** Every lookup ends *)
Definition phase_weight (c : cfg) : nat :=
  match ph c with
  | Start => if queryfunc (it c) then (if queries (it c) =? -1 then 6 else 4) else 1
  | Waiting => 3
  | Draining => 2
  | Done => 0
  end.
Definition measure (c : cfg) : nat :=
  4 * size (U ∖ asked (it c)) + 3 * length (flying c) + 2 * length (replyCh (it c)) + phase_weight c.
Lemma asked_new (started : list node) (a : gset ID) :
  NoDup (ids started) -> (forall id, id ∈ ids started -> id ∉ a) -> Forall (fun n => nID n ∈ U) started ->
  (size (U ∖ (a ∪ list_to_set (ids started))) + length started = size (U ∖ a))%nat.
Proof.
  intros Hnd Hna HU. assert (Hsub : (list_to_set (ids started) : gset ID) ⊆ U ∖ a).
  { intros id Hid. apply elem_of_list_to_set in Hid. apply elem_of_difference. split; [|by apply Hna].
    apply list_elem_of_fmap in Hid as (n & -> & Hn). by eapply Forall_forall in HU. }
  assert (Hsz : size (list_to_set (ids started) : gset ID) = length started) by (rewrite size_list_to_set by done; apply length_fmap).
  rewrite <- Hsz. rewrite <- size_union by set_solver. f_equal. rewrite <- difference_difference_l_L.
  rewrite (union_comm_L _ (list_to_set _)), <- union_difference_L; done.
Qed.
Lemma lk_step_measure c c' : step c c' -> inv c -> (measure c' < measure c)%nat.
Proof.
  intros Hst Hi. pose proof (lk_inv_step c c' Hst Hi) as Hi'. revert Hi Hi'. unfold measure, phase_weight.
  destruct Hst as [it_ fl hist fd cl it' st Hcl E|it_ fl hist fd cl it' st E|it_ fl hist fd r rest Hr|it_ fl hist fd
    |it_ fl hist fd r rest Hq Hr|it_ fl hist fd Hq|p it_ fl1 n fl2 hist fd r Hk Hlt]; intros Hi Hi'; simpl.
  1,2: unfold startQueries in E; destruct (queryfunc it_) eqn:Eq; simpl in E.
  - destruct (queries it_ =? -1) eqn:Em.
    { injection E as <- <-. simpl. rewrite !length_app. simpl. lia. }
    destruct (ask (result it_) (asked it_) (queries it_)) as [[a q] st'] eqn:Ea. injection E as Eb <- <-.
    destruct Hi. simpl in *. destruct i_queries0 as [(Hx & _)|[Hq1 Hq2]]; [by rewrite Hx in Em|].
    destruct (ask_spec _ _ _ _ _ _ Ea ltac:(lia)) as (-> & H2 & -> & H4 & H5 & H6 & H7). destruct Hi'. simpl in *.
    destruct i_flying1 as [_ HU]. apply Forall_app in HU as [_ HU].
    pose proof (asked_new st' (asked it_) H4 H5 HU). rewrite length_app. lia.
  - done.
  - destruct (queries it_ =? -1) eqn:Em; [done|].
    destruct (ask (result it_) (asked it_) (queries it_)) as [[a q] st'] eqn:Ea. injection E as Eb <- <-.
    destruct Hi. simpl in *. destruct i_queries0 as [(Hx & _)|[Hq1 Hq2]]; [by rewrite Hx in Em|].
    destruct (ask_spec _ _ _ _ _ _ Ea ltac:(lia)) as (-> & H2 & -> & H4 & H5 & H6 & H7). destruct Hi'. simpl in *.
    destruct i_flying1 as [_ HU]. apply Forall_app in HU as [_ HU].
    pose proof (asked_new st' (asked it_) H4 H5 HU). rewrite length_app. lia.
  - injection E as <- <-. rewrite app_nil_r. lia.
  - rewrite Hr. cbn [drop length]. rewrite drop_0. destruct Hi. simpl in *. destruct (i_waiting0 eq_refl) as [Hq0 ->].
    destruct (Z.eqb_spec (queries it_ - 1) (-1)); lia.
  - lia.
  - rewrite Hr. cbn [drop length]. rewrite drop_0. lia.
  - lia.
  - rewrite !length_app. simpl. destruct p; lia.
Qed.

Lemma can_answer p it_ n fl hist found_ :
  len (replyCh it_) < alpha -> exists c', step (mk_cfg p it_ (n :: fl) hist found_) c'.
Proof. intros Hl. eexists. by apply (l_answer p it_ [] n fl hist found_ []). Qed.
Lemma lk_progress c : inv c -> ph c <> Done -> exists c', step c c'.
Proof.
  intros Hi Hd. destruct c as [p it_ fl hist fd]. destruct Hi. simpl in *.
  assert (Hgo : 0 < queries it_ -> (exists r rest, replyCh it_ = r :: rest)
    \/ exists c', step (mk_cfg p it_ fl hist fd) c').
  { intros Hq. destruct i_queries0 as [(? & _)|[Hq1 Hq2]]; [lia|]. destruct (replyCh it_) as [|r rest] eqn:Er; [right|left; eauto].
    destruct fl as [|n fl]; [unfold len in Hq2; simpl in Hq2; lia|]. apply can_answer. by rewrite Er. }
  destruct p; [..|done].
  - destruct (startQueries it_ []) as [[b it'] st] eqn:E. destruct b; eexists; [by eapply l_start|by eapply l_done].
  - destruct (Hgo (proj1 (i_waiting0 eq_refl))) as [(r & rest & Er)|]; [|done]. eexists. by eapply l_reply.
  - destruct (Z.le_gt_cases (queries it_) 0) as [Hq|Hq]; [eexists; by apply l_drained|].
    destruct (Hgo Hq) as [(r & rest & Er)|]; [|done]. eexists. by eapply l_drain.
Qed.
Lemma lk_reach_inv c : rtc step (init self_) c -> inv c.
Proof. apply invariant_reach; [apply lk_inv_init|]. intros a b Hs Hi. by eapply lk_inv_step. Qed.

(** C33.  Whatever the network answers, out of a finite set of nodes, and however
    the goroutines are scheduled, a lookup ends: no run is longer than the
    bound, a lookup that has not ended can go on, no query ever blocks on
    its reply, and none is left behind at the end. *)
Theorem lookup_ends n c :
  nsteps step n (init self_) c ->
  (n <= 4 * size U + 6)%nat
  /\ (ph c <> Done -> exists c', step c c')
  /\ (flying c <> [] -> len (replyCh (it c)) < alpha)
  /\ (ph c = Done -> flying c = [] /\ replyCh (it c) = []).
Proof.
  intros Hn. assert (Hi : inv c) by (apply lk_reach_inv; apply rtc_nsteps_2 in Hn; done). split_and!.
  - assert (Hm : forall a, inv a -> nsteps step n a c -> (n + measure c <= measure a)%nat).
    { clear Hn Hi. induction n as [|n IH]; intros a Ha Hn; inversion Hn as [|? ? b ? Hs Hns]; subst; [lia|].
      pose proof (lk_step_measure _ _ Hs Ha). specialize (IH b (lk_inv_step _ _ Hs Ha) Hns). lia. }
    specialize (Hm (init self_) lk_inv_init Hn).
    assert (Hsz : (size (U ∖ asked (newLookup self_)) <= size U)%nat) by (apply subseteq_size; clear; set_solver).
    assert (measure (init self_) <= 4 * size U + 6)%nat; [|lia]. unfold measure, phase_weight.
    cbn [init it flying ph queryfunc queries newLookup replyCh length]. change (-1 =? -1) with true. cbv iota. lia.
  - by apply lk_progress.
  - intros Hf. destruct Hi. destruct i_queries0 as [(_ & _ & _ & ? & _)|[Hq1 Hq2]]; [done|].
    destruct (flying c); [done|]. rewrite len_cons in Hq2. pose proof (len_nonneg l). lia.
  - intros Hd. destruct Hi. destruct (i_done0 Hd) as [Hq _]. destruct i_queries0 as [(? & _)|[_ Hq2]]; [lia|].
    rewrite Hq in Hq2. pose proof (len_nonneg (flying c)). pose proof (len_nonneg (replyCh (it c))).
    destruct (flying c); [|rewrite len_cons in Hq2; pose proof (len_nonneg l); lia].
    destruct (replyCh (it c)); [done|]. rewrite len_cons in Hq2. pose proof (len_nonneg l0). lia.
Qed.
(** A lookup asks every node at most once, never itself, and at most three
    at a time; its result are always the 16 closest of the nodes it has
    seen, and when it ends without being cancelled it has asked all of
    them. *)
Theorem lookup_result c :
  rtc step (init self_) c ->
  NoDup (ids (history c)) /\ (self_ ∉ ids (history c)) /\ len (flying c) <= alpha
  /\ closest target 16 (found c) (result (it c))
  /\ (ph c = Done -> queryfunc (it c) = true ->
       forall n, n ∈ result (it c) -> nID n = self_ \/ nID n ∈ ids (history c)).
Proof.
  intros Hr%lk_reach_inv. destruct Hr. destruct i_once0 as [H1 H2]. split_and!; [done|done|..].
  - destruct i_queries0 as [(_ & _ & _ & -> & _)|[Hq1 Hq2]]; [done|]. pose proof (len_nonneg (replyCh (it c))). lia.
  - rewrite i_result0. by apply (closest_isort target 16).
  - intros Hd Hq n Hn. destruct (i_done0 Hd) as [_ Ha]. specialize (Ha Hq n Hn). rewrite i_asked0 in Ha.
    apply elem_of_union in Ha as [Ha|Ha]; [apply elem_of_singleton in Ha; by left|apply elem_of_list_to_set in Ha; by right].
Qed.
End lookup.

(** What a query does to the table are steps of the table. *)
Lemma query_steps tab n fails r closed now fl :
  is_ID (nID n) -> Forall (fun m => is_ID (nID m)) r ->
  rtc (DiscTableProps.step false) (tab, fl) ((query tab n fails r closed now).2, fl).
Proof.
  intros Hn Hr. unfold query. destruct closed; [apply rtc_refl|].
  assert (Hseen : forall tab, rtc (DiscTableProps.step false) (tab, fl) (foldl (fun tab m => addSeenNode tab m now) tab r, fl)).
  { induction Hr as [|m r Hm _ IH]; intros tab'; [apply rtc_refl|]. simpl. eapply rtc_l; [by apply s_seen|apply IH]. }
  destruct r as [|m r]; simpl; [|by apply (Hseen tab)].
  destruct (_ && _)%bool; [|apply rtc_refl]. by apply rtc_once, s_delete.
Qed.
(** A lookup that asks one node of the table and ends. *)
Definition ex_found : node := ex_node 1 [8; 8; 8; 1].
Definition ex_run : cfg :=
  let it0 := newLookup ex_self in
  let it1 := (startQueries it0 [ex_found]).1.2 in
  let it2 := receive (ex_id 2) it1 [Some ex_found] in
  let it3 := (startQueries it2 []).1.2 in
  let it4 := receive (ex_id 2) (answer it3 []) [] in
  mk_cfg Done (startQueries it4 []).1.2 [] [ex_found] [ex_found].
Lemma ex_run_steps : nsteps (step (ex_id 2) {[ex_id 1]}) 6 (init ex_self) ex_run.
Proof.
  assert (Hk : known {[ex_id 1]} ex_found).
  { split; [apply ex_id_ok; unfold is_byte; lia|by apply elem_of_singleton]. }
  eapply nsteps_l; [apply (l_start _ _ _ [] [] [] [ex_found] (startQueries (newLookup ex_self) [ex_found]).1.2 []);
    [by constructor|reflexivity]|].
  eapply nsteps_l; [apply (l_reply (ex_id 2) _ _ [] [] [] [Some ex_found] []); reflexivity|].
  eapply nsteps_l; [eapply (l_start _ _ _ [] [] _ []); [constructor|vm_compute; reflexivity]|].
  eapply nsteps_l; [apply (l_answer _ _ _ _ [] ex_found [] _ _ []); [constructor|vm_compute; reflexivity]|].
  eapply nsteps_l; [eapply (l_reply (ex_id 2) _ _ [] _ _ [] []); reflexivity|].
  eapply nsteps_l; [eapply (l_done _ _ _ [] _ _ []); vm_compute; reflexivity|].
  apply nsteps_O.
Qed.
Lemma lookup_ends_witness : (6 <= 4 * size ({[ex_id 1]} : gset ID) + 6)%nat /\ flying ex_run = [].
Proof.
  pose proof (lookup_ends ex_self (ex_id 2) {[ex_id 1]} ltac:(apply ex_id_ok; unfold is_byte; lia) 6 ex_run ex_run_steps)
    as (Hn & _ & _ & Hd). split; [exact Hn|]. apply Hd. reflexivity.
Defined.
Lemma lookup_result_witness : closest (ex_id 2) 16 [ex_found] (result (it ex_run)) /\ result (it ex_run) = [ex_found].
Proof.
  pose proof (lookup_result ex_self (ex_id 2) {[ex_id 1]} ltac:(apply ex_id_ok; unfold is_byte; lia) ex_run
    (rtc_nsteps_2 _ _ _ ex_run_steps)) as (_ & _ & _ & Hc & _). split; [exact Hc|vm_compute; reflexivity].
Defined.
End DiscLookup.
