(* ===== verification/Enr.v ===== *)
(** * Ethereum node records (src/p2p/enr, src/p2p/enode)

    A record is a sequence number with key/value pairs sorted by key, signed
    under an identity scheme and at most 300 bytes long.  Keys and other Go
    strings are byte lists, compared byte by byte; a nil signature is [None].
    Keccak and the secp256k1 operations are parameters. *)

From stdpp Require Import base gmap list numbers strings sorting.
From Stdlib Require Import ZArith Lia.
From S2P Require Import Prelude Bytes Rlp RlpProps RlpStream RlpTypes RlpRoundtrip RlpDecode RlpExact NetUtil.

Module Enr.
Import Rlp RlpProps RlpStream RlpTypes RlpRoundtrip RlpDecode RlpExact NetUtil.

(** ** Strings *)
Definition str_of (s : string) : list Z := map (fun c => Z.of_N (Ascii.N_of_ascii c)) (String.list_ascii_of_string s).
(** [a < b] of Go strings. *)
Fixpoint str_lt (a b : list Z) : bool :=
  match a, b with
  | _, [] => false
  | [], _ :: _ => true
  | x :: a, y :: b => if x <? y then true else if y <? x then false else str_lt a b
  end.

(** ** Records *)
Definition SizeLimit : Z := 300.
Definition errNotSorted : rlpErr := customError "record key/value pairs are not sorted by key".
Definition errDuplicateKey : rlpErr := customError "record contains duplicate key".
Definition errIncompletePair : rlpErr := customError "record contains incomplete k/v pair".
Definition errIncompleteList : rlpErr := customError "record contains less than two list elements".
Definition errTooBig : rlpErr := customError "record bigger than 300 bytes".
Definition errEncodeUnsigned : rlpErr := customError "can't encode unsigned record".
Definition ErrInvalidSig : rlpErr := customError "invalid signature on node record".

Record Record_ : Type := mk_Record {
  seq : Z;
  signature : option (list Z);
  raw : list Z;
  pairs : list (list Z * list Z);
}.
Definition empty_record : Record_ := mk_Record 0 None [] [].
Definition SetSeq (s : Z) (r : Record_) : Record_ := mk_Record s None [] (pairs r).

(** The index of the first pair whose key is not below [k]. *)
Definition find_key (k : list Z) (ps : list (list Z * list Z)) : Z :=
  Search (len ps) (fun i => match ps !! Z.to_nat i with Some p => negb (str_lt p.1 k) | None => false end).

Inductive loadErr : Type := errNotFound | errEntry (e : rlpErr).
(** [dec] is the decoder of the entry type. *)
Definition Load {A} (k : list Z) (dec : list Z -> rlpErr + A) (r : Record_) : loadErr + A :=
  match pairs r !! Z.to_nat (find_key k (pairs r)) with
  | Some (k', v) =>
      if decide (k' = k) then
        match dec v with inl e => inl (errEntry e) | inr a => inr a end
      else inl errNotFound
  | None => inl errNotFound
  end.

Definition invalidate (r : Record_) : Record_ :=
  mk_Record (match signature r with Some _ => u64 (seq r + 1) | None => seq r end) None [] (pairs r).
(** The pairs with that of key [k] set. *)
Definition set_pair (k blob : list Z) (ps : list (list Z * list Z)) : list (list Z * list Z) :=
  let i := Z.to_nat (find_key k ps) in
  match ps !! i with
  | Some (k', _) =>
      if decide (k' = k) then <[i := (k', blob)]> ps
      else take i ps ++ (k, blob) :: drop i ps
  | None => ps ++ [(k, blob)]
  end.
(** [blob] is the encoding of the entry. *)
Definition Set_ (k : list Z) (blob : rlpErr + list Z) (r : Record_) : outcome Record_ :=
  match blob with
  | inl _ => Panic "enr: can't encode"
  | inr blob =>
      let r := invalidate r in
      Done (mk_Record (seq r) (signature r) (raw r) (set_pair k blob (pairs r)))
  end.

Definition EncodeRLP (r : Record_) : rlpErr + list Z :=
  match signature r with
  | None => inl errEncodeUnsigned
  | Some _ => inr (raw r)
  end.

(** An [[]interface{}] is written element by element, each by the writer of its
    dynamic type: what a struct with these fields gives. *)
Definition EncodeInterfaces (l : list (typ * val)) : rlpErr + list Z :=
  EncodeToBytes (TStruct (map (fun e => (e.1, false)) l)) (VStruct (map snd l)).
Definition AppendElements (acc : list (typ * val)) (r : Record_) : list (typ * val) :=
  acc ++ (TUint 8, VInt (seq r))
    :: concat (map (fun p => [(TString, VBytes p.1); (TRaw, VBytes p.2)]) (pairs r)).
Definition encode (sig : list Z) (r : Record_) : rlpErr + list Z :=
  match EncodeInterfaces (AppendElements [(TBytes, VBytes sig)] r) with
  | inl e => inl e
  | inr raw => if SizeLimit <? len raw then inl errTooBig else inr raw
  end.

(** The loop over the pairs; every pair takes at least one byte. *)
Definition eol_as {A} (e : rlpErr) (m : M A) : M A := fun s =>
  match m s with
  | (inl EOL, s) => (inl e, s)
  | r => r
  end.
Fixpoint pairs_loop (fuel : nat) (prev : option (list Z)) : M (list (list Z * list Z)) :=
  match fuel with
  | O => fail out_of_fuel
  | S f =>
      k ← try_ (wrap Bytes);
      match k with
      | inl EOL => mret []
      | inl e => fail e
      | inr k =>
          v ← eol_as errIncompletePair Raw;
          match prev with
          | Some prevkey =>
              if decide (k = prevkey) then fail errDuplicateKey
              else if str_lt k prevkey then fail errNotSorted
              else ps ← pairs_loop f (Some k); mret ((k, v) :: ps)
          | None => ps ← pairs_loop f (Some k); mret ((k, v) :: ps)
          end
      end
  end.
(** Reading the container, on a stream of its own. *)
Definition container (raw : list Z) : M Record_ :=
  List ;;
  sig ← eol_as errIncompleteList (wrap Bytes);
  sq ← eol_as errIncompleteList (wrap (uint 64));
  ps ← pairs_loop (S (length raw)) None;
  ListEnd ;;
  mret (mk_Record sq (Some sig) raw ps).
(** DecodeRLP *)
Definition decodeRecord : M Record_ :=
  raw ← Raw;
  if SizeLimit <? len raw then fail errTooBig
  else
    match (container raw (NewStream raw 0)).1 with
    | inl e => fail e
    | inr r => mret r
    end.
(** rlp.DecodeBytes into a value with the decoder [m]. *)
Definition DecodeBytesWith {A} (m : M A) (b : list Z) : rlpErr + A :=
  match m (NewStream b (len b)) with
  | (inl e, _) => inl e
  | (inr a, s) => if 0 <? len (input s) then inl ErrMoreThanOneValue else inr a
  end.

(** ** Cryptography *)
Record PublicKey : Type := mk_PublicKey { key_X : Z; key_Y : Z }.
#[export] Instance PublicKey_eq_dec : EqDecision PublicKey.
Proof. solve_decision. Defined.
Class Crypto : Type := {
  PrivateKey : Type;
  public : PrivateKey -> PublicKey;
  Keccak256 : list Z -> list Z;
  Sign : list Z -> PrivateKey -> option (list Z);
  VerifySignature : list Z -> list Z -> list Z -> bool;
  Ecrecover : list Z -> list Z -> option (list Z);
  IsOnCurve : Z -> Z -> bool;
  CompressPubkey : PublicKey -> list Z;
  DecompressPubkey : list Z -> option PublicKey;
}.
(** The bytes of a public key, without the format byte. *)
Definition pubkey_bytes (k : PublicKey) : list Z := be 32 (key_X k) ++ be 32 (key_Y k).
(** What the documentation of the packages promises. *)
Class CryptoLaws (C : Crypto) : Prop := {
  Keccak256_len b : length (Keccak256 b) = 32%nat;
  Keccak256_bytes b : bytes (Keccak256 b);
  Sign_len h k s : Sign h k = Some s -> length s = 65%nat /\ bytes s;
  Sign_recover h k s : Sign h k = Some s -> Ecrecover h s = Some (4 :: pubkey_bytes (public k));
  Ecrecover_bytes h s p : bytes s -> Ecrecover h s = Some p -> bytes p;
  Sign_verify h k s : Sign h k = Some s -> VerifySignature (CompressPubkey (public k)) h (take 64 s) = true;
  public_on_curve k : IsOnCurve (key_X (public k)) (key_Y (public k)) = true;
  Compress_len k : IsOnCurve (key_X k) (key_Y k) = true -> length (CompressPubkey k) = 33%nat /\ bytes (CompressPubkey k);
  Compress_decompress k : IsOnCurve (key_X k) (key_Y k) = true -> DecompressPubkey (CompressPubkey k) = Some k;
}.

Section schemes.
Context `{C : Crypto}.

(** ** Entries *)
Inductive Entry : Type :=
  | TCP (port : Z)
  | TCP6 (port : Z)
  | UDP (port : Z)
  | UDP6 (port : Z)
  | ID (name : list Z)
  | IP_ (ip : IP)
  | IPv4 (ip : IP)
  | IPv6 (ip : IP)
  | Secp256k1 (k : PublicKey)
  | WithEntry (k : list Z) (t : typ) (v : val).
Definition ENRKey (e : Entry) : list Z :=
  match e with
  | TCP _ => str_of "tcp"
  | TCP6 _ => str_of "tcp6"
  | UDP _ => str_of "udp"
  | UDP6 _ => str_of "udp6"
  | ID _ => str_of "id"
  | IP_ ip => match To4 ip with None => str_of "ip6" | Some _ => str_of "ip" end
  | IPv4 _ => str_of "ip"
  | IPv6 _ => str_of "ip6"
  | Secp256k1 _ => str_of "secp256k1"
  | WithEntry k _ _ => k
  end.
Definition errIP : rlpErr := customError "invalid IP address".
Definition EncodeEntry (e : Entry) : rlpErr + list Z :=
  let bytes_ b := EncodeToBytes TBytes (VBytes b) in
  match e with
  | TCP p | TCP6 p | UDP p | UDP6 p => EncodeToBytes (TUint 2) (VInt p)
  | ID name => EncodeToBytes TString (VBytes name)
  | IP_ ip =>
      match To4 ip, To16 ip with
      | Some ip4, _ => bytes_ ip4
      | None, Some ip6 => bytes_ ip6
      | None, None => inl errIP
      end
  | IPv4 ip => match To4 ip with Some ip4 => bytes_ ip4 | None => inl errIP end
  | IPv6 ip => match To16 ip with Some ip6 => bytes_ ip6 | None => inl errIP end
  | Secp256k1 k => bytes_ (CompressPubkey k)
  | WithEntry _ t v => EncodeToBytes t v
  end.
Definition SetEntry (e : Entry) (r : Record_) : outcome Record_ := Set_ (ENRKey e) (EncodeEntry e) r.

Definition dec_port : M Z := wrap (uint 16).
Definition dec_ID : M (list Z) := wrap Bytes.
Definition dec_sized (n : Z) : M (list Z) := b ← wrap Bytes; if len b =? n then mret b else fail errIP.
Definition dec_Secp256k1 : M PublicKey :=
  b ← Bytes;
  match DecompressPubkey b with Some k => mret k | None => fail (customError "invalid public key") end.
Definition LoadWith {A} (k : string) (m : M A) (r : Record_) : loadErr + A := Load (str_of k) (DecodeBytesWith m) r.
(** The zero value where the code ignores the error. *)
Definition or_zero {A} (z : A) (x : loadErr + A) : A := match x with inr a => a | inl _ => z end.

(** ** Identity schemes *)
Record IdentityScheme : Type := mk_scheme {
  Verify : Record_ -> list Z -> option loadErr;
  NodeAddr : Record_ -> list Z;
}.
Definition scheme_name (r : Record_) : list Z := or_zero [] (LoadWith "id" dec_ID r).
(** Schemes by name. *)
Definition SchemeMap (m : list (list Z * IdentityScheme)) : IdentityScheme :=
  let get r := snd <$> list_find (fun p => p.1 = scheme_name r) m in
  mk_scheme
    (fun r sig => match get r with Some p => Verify p.2 r sig | None => Some (errEntry ErrInvalidSig) end)
    (fun r => match get r with Some p => NodeAddr p.2 r | None => [] end).

Definition SetSig (s : option IdentityScheme) (sig : option (list Z)) (r : Record_) : outcome (option loadErr * Record_) :=
  match s, sig with
  | None, Some _ => Panic "enr: invalid call to SetSig with non-nil signature but nil scheme"
  | Some _, None => Panic "enr: invalid call to SetSig with nil signature but non-nil scheme"
  | Some s, Some sg =>
      match Verify s r sg with
      | Some e => Done (Some e, r)
      | None =>
          match encode sg r with
          | inl e => Done (Some (errEntry e), r)
          | inr raw => Done (None, mk_Record (seq r) (Some sg) raw (pairs r))
          end
      end
  | None, None => Done (None, mk_Record (seq r) None [] (pairs r))
  end.

(** The hash that is signed: of nothing, should the encoding fail. *)
Definition sig_hash (r : Record_) : list Z :=
  Keccak256 match EncodeInterfaces (AppendElements [] r) with inr b => b | inl _ => [] end.
Definition V4_Verify (r : Record_) (sig : list Z) : option loadErr :=
  match LoadWith "secp256k1" (wrap Bytes) r with
  | inl e => Some e
  | inr entry =>
      if negb (len entry =? 33) then Some (errEntry (customError "invalid public key"))
      else if negb (VerifySignature entry (sig_hash r) sig) then Some (errEntry ErrInvalidSig)
      else None
  end.
Definition V4_NodeAddr (r : Record_) : list Z :=
  match LoadWith "secp256k1" dec_Secp256k1 r with
  | inl _ => []
  | inr k => Keccak256 (pubkey_bytes k)
  end.
Definition V4ID : IdentityScheme := mk_scheme V4_Verify V4_NodeAddr.
(** Only checks that there is a key. *)
Definition v4CompatID : IdentityScheme :=
  mk_scheme (fun r _ => match LoadWith "secp256k1" dec_Secp256k1 r with inl e => Some e | inr _ => None end) V4_NodeAddr.
Definition ValidSchemes : IdentityScheme := SchemeMap [(str_of "v4", V4ID)].

Definition errSign : loadErr := errEntry (customError "signing failed").
Definition SignV4 (r : Record_) (k : PrivateKey) : outcome (option loadErr * Record_) :=
  cpy ← SetEntry (ID (str_of "v4")) r;
  cpy ← SetEntry (Secp256k1 (public k)) cpy;
  match Sign (sig_hash cpy) k with
  | None => Done (Some errSign, r)
  | Some sig =>
      res ← SetSig (Some V4ID) (Some (take (length sig - 1) sig)) cpy;
      match res with
      | (None, cpy) => Done (None, cpy)
      | (Some e, _) => Done (Some e, r)
      end
  end.
Definition signV4Compat (r : Record_) (k : PublicKey) : outcome Record_ :=
  r ← SetEntry (Secp256k1 k) r;
  res ← SetSig (Some v4CompatID) (Some []) r;
  match res with
  | (None, r) => Done r
  | (Some _, _) => Panic "SetSig failed"
  end.

(** ** Nodes *)
Record Node : Type := mk_Node { node_r : Record_; node_id : list Z }.
Definition New (validSchemes : IdentityScheme) (r : Record_) : loadErr + Node :=
  match Verify validSchemes r (default [] (signature r)) with
  | Some e => inl e
  | None =>
      let addr := NodeAddr validSchemes r in
      if negb (Z.min 32 (len addr) =? 32) then inl (errEntry (customError "invalid node ID length"))
      else inr (mk_Node r (take 32 addr))
  end.
Definition Node_IP (n : Node) : IP :=
  match LoadWith "ip" (dec_sized 4) (node_r n) with
  | inr ip => ip
  | inl _ => or_zero [] (LoadWith "ip6" (dec_sized 16) (node_r n))
  end.
Definition Node_UDP (n : Node) : Z := or_zero 0 (LoadWith "udp" dec_port (node_r n)).
Definition Node_TCP (n : Node) : Z := or_zero 0 (LoadWith "tcp" dec_port (node_r n)).
Definition Node_Pubkey (n : Node) : option PublicKey :=
  match LoadWith "secp256k1" dec_Secp256k1 (node_r n) with inr k => Some k | inl _ => None end.
Definition Incomplete (n : Node) : bool := bool_decide (Node_IP n = []).
Definition ValidateComplete (n : Node) : bool :=
  (negb (Incomplete n) && negb (Node_UDP n =? 0)
   && negb (IsMulticast (Node_IP n) || IsUnspecified (Node_IP n))
   && bool_decide (is_Some (Node_Pubkey n)))%bool.
(** [uint16] of the ports. *)
Definition NewV4 (k : PublicKey) (ip : IP) (tcp udp : Z) : outcome Node :=
  r ← (if 0 <? len ip then SetEntry (IP_ ip) empty_record else Done empty_record);
  r ← (if negb (udp =? 0) then SetEntry (UDP (udp mod 2 ^ 16)) r else Done r);
  r ← (if negb (tcp =? 0) then SetEntry (TCP (tcp mod 2 ^ 16)) r else Done r);
  r ← signV4Compat r k;
  match New v4CompatID r with
  | inl _ => Panic "NewV4"
  | inr n => Done n
  end.
Definition PubkeyToIDV4 (k : PublicKey) : list Z := Keccak256 (pubkey_bytes k).
End schemes.
End Enr.
