(* ===== verification/EnrProps.v ===== *)
(** * Node records: properties

    The pairs of a record are a finite map kept as a sorted list; a signed
    record is its encoding, which the decoder accepts and nothing else; and a
    record signed by [SignV4] is valid for everybody who decodes it. *)

From stdpp Require Import base gmap list numbers strings sorting.
From Stdlib Require Import ZArith Lia.
From S2P Require Import Prelude Bytes Rlp RlpProps RlpStream RlpTypes RlpRoundtrip RlpDecode RlpExact NetUtil Enr.

Module EnrProps.
Import Rlp RlpProps RlpStream RlpTypes RlpRoundtrip RlpDecode RlpExact NetUtil Enr.

(** ** The order of strings *)
Lemma str_lt_irrefl a : str_lt a a = false.
Proof. induction a as [|x a IH]; [done|]. simpl. by rewrite Z.ltb_irrefl. Qed.
Lemma str_lt_trans a b c : str_lt a b = true -> str_lt b c = true -> str_lt a c = true.
Proof.
  revert b c. induction a as [|x a IH]; intros [|y b] [|z c]; try done. simpl.
  destruct (Z.ltb_spec x y), (Z.ltb_spec y z), (Z.ltb_spec x z); try done; try lia;
    destruct (Z.ltb_spec y x), (Z.ltb_spec z y), (Z.ltb_spec z x); try done; try lia. apply IH.
Qed.
Lemma str_lt_total a b : str_lt a b = false -> a = b \/ str_lt b a = true.
Proof.
  revert b. induction a as [|x a IH]; intros [|y b]; try (by auto). simpl.
  destruct (Z.ltb_spec x y), (Z.ltb_spec y x); try (by auto); try lia. assert (x = y) as -> by lia.
  intros [->|?]%IH; auto.
Qed.
Lemma str_lt_asym a b : str_lt a b = true -> str_lt b a = false.
Proof.
  intros H. destruct (str_lt b a) eqn:E; [|done]. pose proof (str_lt_trans _ _ _ H E) as Hx. by rewrite str_lt_irrefl in Hx.
Qed.

(** ** Sorted pairs *)
Definition before (p q : list Z * list Z) : Prop := str_lt p.1 q.1 = true.
Definition sorted (ps : list (list Z * list Z)) : Prop := StronglySorted before ps.

Lemma find_key_split k ps :
  sorted ps -> exists a b, ps = a ++ b /\ Z.to_nat (find_key k ps) = length a
    /\ Forall (fun p => str_lt p.1 k = true) a /\ Forall (fun p => str_lt p.1 k = false) b.
Proof.
  intros Hs. set (i := Z.to_nat (find_key k ps)).
  destruct (Search_spec (len ps) (fun i => match ps !! Z.to_nat i with Some p => negb (str_lt p.1 k) | None => false end))
    as (Hr & Hlo & Hhi); [apply len_nonneg| |].
  { intros h h' Hh Hh'. destruct (decide (h = h')) as [->|]; [done|].
    destruct (ps !! Z.to_nat h) as [p|] eqn:E1; [|done].
    destruct (ps !! Z.to_nat h') as [q|] eqn:E2; [|apply lookup_ge_None in E2; unfold len in *; lia].
    intros Hp%negb_true_iff. apply negb_true_iff. destruct (str_lt q.1 k) eqn:Eq; [|done].
    assert (before p q) by (apply (sorted_lookup before ps (Z.to_nat h) (Z.to_nat h')); [done|lia|done..]).
    pose proof (str_lt_trans _ _ _ H Eq) as Hx. congruence. }
  change (Search _ _) with (find_key k ps) in *. exists (take i ps), (drop i ps).
  assert (Hi : (i <= length ps)%nat) by (unfold i, len in *; lia).
  split_and!; [by rewrite take_drop|by rewrite length_take, Nat.min_l|apply Forall_lookup|apply Forall_lookup].
  - intros j p Hp. assert (Hj : (j < i)%nat) by (apply lookup_lt_Some in Hp; rewrite length_take in Hp; lia).
    rewrite lookup_take in Hp. specialize (Hlo (Z.of_nat j) ltac:(unfold i in *; lia)). rewrite Nat2Z.id in Hlo.
    case_decide; [|done]. rewrite Hp in Hlo. by apply negb_false_iff in Hlo.
  - intros j p Hp. rewrite lookup_drop in Hp. apply lookup_lt_Some in Hp as Hl.
    specialize (Hhi (Z.of_nat (i + j)) ltac:(unfold i, len in *; lia)). rewrite Nat2Z.id, Hp in Hhi.
    by apply negb_true_iff in Hhi.
Qed.
(** [set_pair] replaces the pair of the key, or puts it at its place. *)
Lemma set_pair_split k v ps :
  sorted ps -> exists a b, set_pair k v ps = a ++ (k, v) :: b /\ (ps = a ++ b \/ exists v', ps = a ++ (k, v') :: b)
    /\ Forall (fun p => str_lt p.1 k = true) a /\ Forall (fun p => str_lt k p.1 = true) b.
Proof.
  intros Hs. destruct (find_key_split k ps Hs) as (a & b & -> & Hi & Ha & Hb). unfold set_pair. rewrite Hi.
  destruct b as [|[k' v'] b].
  - rewrite app_nil_r, lookup_ge_None_2 by lia. exists a, []. rewrite app_nil_r. split_and!; auto.
  - rewrite list_lookup_middle by done. apply list.Forall_cons_1 in Hb as [Hk Hb]. simpl in Hk.
    apply StronglySorted_app_1_r, StronglySorted_cons in Hs as [Hk' Hs].
    case_decide as Hd; [subst k'|].
    + exists a, b. rewrite insert_app_r_alt, Nat.sub_diag by lia. split_and!; eauto.
    + apply str_lt_total in Hk as [->|Hk]; [done|]. exists a, ((k', v') :: b). rewrite take_app_length, drop_app_length.
      split_and!; auto. constructor; [done|]. eapply Forall_impl; [exact Hk'|]. intros p Hp. by eapply str_lt_trans.
Qed.
(** The pairs as a finite map. *)
Definition to_map (ps : list (list Z * list Z)) : gmap (list Z) (list Z) := list_to_map ps.

Lemma sorted_nodup ps : sorted ps -> NoDup ps.*1.
Proof.
  induction 1 as [|p ps Hs IH Hp]; [constructor|]. apply NoDup_cons. split; [|done]. intros (q & Hq & Hin)%list_elem_of_fmap.
  rewrite Forall_forall in Hp. specialize (Hp q Hin). unfold before in Hp. rewrite Hq, str_lt_irrefl in Hp. done.
Qed.
Lemma sorted_insert a b p :
  sorted (a ++ b) -> Forall (fun q => before q p) a -> Forall (before p) b -> sorted (a ++ p :: b).
Proof.
  intros Hs Ha Hb. apply StronglySorted_app in Hs as (Hab & Hsa & Hsb). apply StronglySorted_app.
  split_and!; [|done|by apply StronglySorted_cons]. intros x y Hx [->|Hy]%elem_of_cons; [|by apply Hab].
  rewrite Forall_forall in Ha. by apply Ha.
Qed.
Lemma sorted_drop a b p : sorted (a ++ p :: b) -> sorted (a ++ b).
Proof.
  intros (Hab & Hsa & Hsb)%StronglySorted_app. apply StronglySorted_cons in Hsb as [_ Hsb].
  apply StronglySorted_app. split_and!; [|done..]. intros x y Hx Hy. apply Hab; [done|by right].
Qed.
Lemma to_map_middle a b k v : sorted (a ++ (k, v) :: b) -> to_map (a ++ (k, v) :: b) = <[k := v]> (to_map (a ++ b)).
Proof.
  intros Hs. unfold to_map. change (<[k:=v]> (list_to_map (a ++ b))) with (list_to_map (M:=gmap _ _) ((k, v) :: a ++ b)).
  apply list_to_map_proper; [by apply sorted_nodup|]. symmetry. apply Permutation_middle.
Qed.
Lemma set_pair_sorted k v ps : sorted ps -> sorted (set_pair k v ps) /\ to_map (set_pair k v ps) = <[k := v]> (to_map ps).
Proof.
  intros Hs. destruct (set_pair_split k v ps Hs) as (a & b & -> & Hps & Ha & Hb).
  assert (Hab : sorted (a ++ b)) by (destruct Hps as [->|[v' ->]]; [done|by eapply sorted_drop]).
  assert (Hsi : sorted (a ++ (k, v) :: b)) by by apply sorted_insert.
  split; [done|]. rewrite to_map_middle by done. destruct Hps as [->|[v' ->]]; [done|].
  by rewrite to_map_middle, insert_insert_eq by done.
Qed.
Lemma Load_map {A} k (dec : list Z -> rlpErr + A) r :
  sorted (pairs r) ->
  Load k dec r = match to_map (pairs r) !! k with
                 | Some v => match dec v with inl e => inl (errEntry e) | inr a => inr a end
                 | None => inl errNotFound
                 end.
Proof.
  intros Hs. destruct (find_key_split k _ Hs) as (a & b & Hp & Hi & Ha & Hb). unfold Load. rewrite Hi, Hp in *.
  assert (Hn : forall l, Forall (fun p => p.1 <> k) l -> to_map l !! k = None).
  { intros l Hl. apply not_elem_of_list_to_map. intros (q & -> & Hq)%list_elem_of_fmap. rewrite Forall_forall in Hl. by apply (Hl q). }
  assert (Ha' : Forall (fun p : list Z * list Z => p.1 <> k) a).
  { eapply Forall_impl; [exact Ha|]. intros q Hq <-. by rewrite str_lt_irrefl in Hq. }
  destruct b as [|[k' v'] b]; [rewrite app_nil_r, lookup_ge_None_2 by lia; by rewrite Hn|].
  rewrite list_lookup_middle by done. case_decide as Hd; [subst k'|].
  - by rewrite to_map_middle, lookup_insert_eq by done.
  - rewrite Hn; [done|]. apply Forall_app. split; [done|]. constructor; [done|].
    apply list.Forall_cons_1 in Hb as [Hk _]. apply str_lt_total in Hk as [|Hk]; [done|].
    apply StronglySorted_app_1_r, StronglySorted_cons in Hs as [Hs _]. eapply Forall_impl; [exact Hs|].
    intros q Hq Hqk. pose proof (str_lt_trans _ _ _ Hk Hq) as Hx. by rewrite Hqk, str_lt_irrefl in Hx.
Qed.

(** ** Well-formed records *)
Definition enc_pair (p : list Z * list Z) : list Z := enc_string p.1 ++ p.2.
Definition enc_pairs (ps : list (list Z * list Z)) : list Z := concat (map enc_pair ps).
Definition content (sig : list Z) (r : Record_) : list Z := enc_string sig ++ enc_nat (seq r) ++ enc_pairs (pairs r).
(** The value is one RLP value. *)
Definition pair_ok (p : list Z * list Z) : Prop := bytes p.1 /\ bytes p.2 /\ exists k c, framed k c p.2.
Record wf (r : Record_) : Prop := {
  wf_sorted : sorted (pairs r);
  wf_pairs : Forall pair_ok (pairs r);
  wf_seq : is_u64 (seq r);
  wf_signed : forall sig, signature r = Some sig ->
    bytes sig /\ raw r = enc_list (content sig r) /\ len (raw r) <= SizeLimit;
}.

(** ** Encoding *)
Lemma enc_ifaces l os :
  Forall2 (fun e o => encodes e.1 e.2 o) l os ->
  encodes (TStruct (map (fun e => (e.1, false)) l)) (VStruct (map snd l)) (enc_list (concat os)).
Proof.
  intros Hl. constructor.
  - clear Hl os. induction l as [|e l IH]; [done|]. simpl. done.
  - induction Hl as [|[t v] o l os He _ IH]; simpl; [constructor|]. by apply ef_cons.
Qed.
Lemma enc_elements acc os r :
  is_u64 (seq r) -> Forall pair_ok (pairs r) -> Forall2 (fun e o => encodes e.1 e.2 o) acc os ->
  exists os', Forall2 (fun e o => encodes e.1 e.2 o) (AppendElements acc r) os'
    /\ concat os' = concat os ++ enc_nat (seq r) ++ enc_pairs (pairs r).
Proof.
  intros Hs Hp Ha. unfold AppendElements.
  assert (exists os2, Forall2 (fun e o => encodes e.1 e.2 o)
    (concat (map (fun p => [(TString, VBytes p.1); (TRaw, VBytes p.2)]) (pairs r))) os2 /\ concat os2 = enc_pairs (pairs r))
    as (os2 & H2 & E2).
  { unfold enc_pairs. induction Hp as [|[k v] ps (Hk & Hv & kd & c & Hf) _ (os2 & IH & E)]; [by exists []|].
    exists (enc_string k :: v :: os2). simpl in *. split; [|by rewrite E, app_assoc].
    constructor; [by constructor|]. constructor; [by eapply e_raw|done]. }
  exists (os ++ enc_nat (seq r) :: os2). split.
  - apply Forall2_app; [done|]. constructor; [|done]. constructor; [lia|exact Hs].
  - rewrite concat_app. simpl. by rewrite E2.
Qed.
Lemma encode_spec sig r :
  is_u64 (seq r) -> Forall pair_ok (pairs r) -> bytes sig -> len (enc_list (content sig r)) < 2 ^ 64 ->
  encode sig r = if SizeLimit <? len (enc_list (content sig r)) then inl errTooBig else inr (enc_list (content sig r)).
Proof.
  intros Hs Hp Hb Hl. destruct (enc_elements [(TBytes, VBytes sig)] [enc_string sig] r Hs Hp) as (os & Ho & E).
  { constructor; [by constructor|constructor]. }
  cbn [concat] in E. rewrite app_nil_r in E. unfold content in *. rewrite <- E in *.
  unfold encode, EncodeInterfaces. by rewrite (encode_exact _ _ _ (enc_ifaces _ _ Ho) Hl).
Qed.

(** ** Decoding *)
Lemma extends_eol_as {A} e (m : M A) : extends m (eol_as e m).
Proof. intros s a s' E. unfold eol_as. by rewrite E. Qed.
Lemma accepts_eol_as {A} e (m : M A) R : e <> EOL -> accepts m R -> accepts (eol_as e m) R.
Proof. intros He Hm s V K. specialize (Hm s V K). unfold eol_as. destruct (m s) as [[[]|a] s1]; try done; simpl; congruence. Qed.
Lemma noeol_eol_as {A} e (m : M A) : e <> EOL -> noeol (eol_as e m).
Proof. intros He s s'. unfold eol_as. destruct (m s) as [[[]|a] s1]; congruence. Qed.

(** The keys of [ps] are sorted and follow [prev]. *)
Definition follow (prev : option (list Z)) (ps : list (list Z * list Z)) : Prop :=
  sorted ps /\ forall p, prev = Some p -> Forall (fun q => str_lt p q.1 = true) ps.
Lemma follow_cons prev k v ps :
  follow prev ((k, v) :: ps) <-> follow (Some k) ps /\ forall p, prev = Some p -> str_lt p k = true.
Proof.
  unfold follow, sorted. rewrite StronglySorted_cons. split.
  - intros [[H1 H2] H3]. split_and!; [done|by intros p [= <-]|]. intros p Hp. by apply H3, list.Forall_cons_1 in Hp as [? _].
  - intros [[H1 H2] H3]. split_and!; [by apply H2|done|]. intros p Hp. specialize (H3 p Hp). constructor; [done|].
    eapply Forall_impl; [by apply H2|]. intros q Hq. by eapply str_lt_trans.
Qed.
Definition check_prev {A} (prev : option (list Z)) (k : list Z) (m : M A) : M A :=
  match prev with
  | Some prevkey => if decide (k = prevkey) then fail errDuplicateKey else if str_lt k prevkey then fail errNotSorted else m
  | None => m
  end.
Lemma check_prev_pass {A} prev k (m : M A) : (forall p, prev = Some p -> str_lt p k = true) -> check_prev prev k m = m.
Proof.
  destruct prev as [p|]; [|done]. intros Hp. specialize (Hp p eq_refl). simpl.
  rewrite decide_False by (intros ->; by rewrite str_lt_irrefl in Hp). by rewrite (str_lt_asym _ _ Hp).
Qed.
Lemma check_prev_ok {A} prev k (m : M A) :
  (check_prev prev k m = m /\ (forall p, prev = Some p -> str_lt p k = true))
  \/ (exists e, e <> EOL /\ check_prev prev k m = fail e).
Proof.
  destruct prev as [p|]; [|by left]. simpl. case_decide; [right; by exists errDuplicateKey|].
  destruct (str_lt k p) eqn:E; [right; by exists errNotSorted|]. left. split; [done|]. intros ? [= <-].
  apply str_lt_total in E as [->|]; done.
Qed.
Lemma pairs_loop_S f prev :
  pairs_loop (S f) prev
  = (k ← try_ (wrap Bytes);
     match k with
     | inl EOL => mret []
     | inl e => fail e
     | inr k => v ← eol_as errIncompletePair Raw;
         check_prev prev k (ps ← pairs_loop f (Some k); mret ((k, v) :: ps))
     end).
Proof. by destruct prev. Qed.

Lemma pairs_loop_reads ps fuel prev :
  follow prev ps -> Forall pair_ok ps -> len (enc_pairs ps) < 2 ^ 64 -> (length ps < fuel)%nat ->
  reads_in (pairs_loop fuel prev) (enc_pairs ps) ps.
Proof.
  revert fuel prev. induction ps as [|[k v] ps IH]; intros [|fuel] prev Hf Hp Hl Hn; try (simpl in Hn; lia).
  - intros s rest Hk Hi Hr Hlim. exists s. unfold enc_pairs. simpl. rewrite len_nil, adv_0. split; [|done].
    unfold mbind, M_bind, try_. rewrite (eol_wrap Bytes); [done|apply eol_bind, eol_Kind|done|done].
  - apply list.Forall_cons_1 in Hp as [(Hk & Hv & kd & c & Hfr) Hp]. apply follow_cons in Hf as [Hf Hprev].
    unfold enc_pairs in *. cbn [map concat] in *. unfold enc_pair at 1 in Hl. unfold enc_pair at 1. simpl in Hl, Hk, Hv, Hfr.
    simpl fst. simpl snd. rewrite <- app_assoc in *. apply written_app_l in Hl as [Hl1 Hl]. apply written_app_l in Hl as [Hl2 Hl].
    rewrite pairs_loop_S. eapply reads_in_bind.
    { eapply reads_try, reads_extends; [apply extends_wrap|]. apply reads_Bytes; [done|]. pose proof (enc_string_len k). lia. }
    cbv iota. eapply reads_in_bind; [eapply reads_extends; [apply extends_eol_as|by eapply reads_Raw]|].
    rewrite check_prev_pass by done. apply (reads_in_map _ (cons (k, v))). apply IH; try done. simpl in Hn. lia.
Qed.
Lemma noeol_pairs f prev : noeol (pairs_loop f prev).
Proof.
  revert prev. induction f as [|f IH]; intros prev; [by apply noeol_fail|]. rewrite pairs_loop_S.
  apply noeol_bind; [auto with rlp_eol|]. intros [[]|k]; auto with rlp_eol.
  apply noeol_bind; [by apply noeol_eol_as|]. intros v.
  destruct (check_prev_ok prev k (ps ← pairs_loop f (Some k); mret ((k, v) :: ps))) as [[-> _]|(e & He & ->)].
  - apply noeol_bind; auto with rlp_eol.
  - by apply noeol_fail.
Qed.
Lemma pairs_loop_accepts f prev :
  accepts (pairs_loop f prev) (fun ps o => follow prev ps /\ Forall pair_ok ps /\ o = enc_pairs ps).
Proof.
  revert prev. induction f as [|f IH]; intros prev s V K; [done|]. rewrite pairs_loop_S.
  pose proof (accepts_wrap _ _ accepts_Bytes s V K) as Hb. unfold mbind at 1, M_bind at 1, try_.
  destruct (wrap Bytes s) as [[e|k] s1].
  { destruct e; try done. rewrite (Hb eq_refl). exists []. split_and!; [by apply consumed_refl|done| |constructor|done].
    split; [constructor|]. intros p _. constructor. }
  destruct Hb as (o & C & K1 & Hk & ->).
  pose proof (accepts_eol_as errIncompletePair Raw _ ltac:(done) accepts_Raw s1 (con_inv _ _ _ C) K1) as Hr.
  unfold mbind at 1, M_bind at 1. destruct (eol_as errIncompletePair Raw s1) as [[e|v] s2] eqn:E2.
  { intros ->. by apply (noeol_eol_as errIncompletePair Raw) in E2. }
  destruct Hr as (o2 & C2 & K2 & -> & kd & c & Hf). destruct (consumed_small _ _ _ (con_inv _ _ _ C) C2) as [_ Hv].
  destruct (check_prev_ok prev k (ps ← pairs_loop f (Some k); mret ((k, o2) :: ps))) as [[-> Hp]|(e & He & ->)]; [|by intros ->].
  specialize (IH (Some k) s2 (con_inv _ _ _ C2) K2). unfold mbind, M_bind.
  destruct (pairs_loop f (Some k) s2) as [[e|ps] s3] eqn:E3; [intros ->; by apply noeol_pairs in E3|].
  destruct IH as (o3 & C3 & K3 & Hfo & Hok & ->). exists (enc_string k ++ o2 ++ enc_pairs ps).
  split_and!; [by eapply consumed_trans, consumed_trans|done| | |].
  - by apply follow_cons.
  - constructor; [|done]. split_and!; [done..|by eexists _, _].
  - unfold enc_pairs. simpl. unfold enc_pair at 2. simpl. by rewrite <- app_assoc.
Qed.
Definition body (fuel : nat) : M (list Z * Z * list (list Z * list Z)) :=
  sig ← eol_as errIncompleteList (wrap Bytes);
  sq ← eol_as errIncompleteList (wrap (uint 64));
  ps ← pairs_loop fuel None;
  mret (sig, sq, ps).
Definition make (raw : list Z) (x : list Z * Z * list (list Z * list Z)) : Record_ := mk_Record x.1.2 (Some x.1.1) raw x.2.
Lemma container_body raw s :
  container raw s = (sz ← List; x ← body (S (length raw)); ListEnd ;; mret (make raw x)) s.
Proof.
  unfold container, body, mbind, M_bind. destruct (List s) as [[e|sz] s1]; [done|].
  destruct (eol_as errIncompleteList (wrap Bytes) s1) as [[e|sig] s2]; [done|].
  destruct (eol_as errIncompleteList (wrap (uint 64)) s2) as [[e|sq] s3]; [done|].
  by destruct (pairs_loop (S (length raw)) None s3) as [[e|ps] s4].
Qed.
Lemma enc_pairs_length ps : Forall pair_ok ps -> len (enc_pairs ps) < 2 ^ 64 -> (length ps <= length (enc_pairs ps))%nat.
Proof.
  unfold enc_pairs. induction 1 as [|[k v] ps (_ & _ & kd & c & Hf) _ IH]; [done|]. simpl. intros Hl.
  apply written_app_l in Hl as [Hl1 Hl]. specialize (IH Hl). rewrite length_app. unfold enc_pair in *. simpl in *.
  apply written_app_l in Hl1 as [_ Hl1]. pose proof (framed_len _ _ _ Hf Hl1). rewrite length_app. unfold len in *. lia.
Qed.
Lemma container_reads r sig :
  wf r -> signature r = Some sig -> (container (raw r) (NewStream (raw r) 0)).1 = inr r.
Proof.
  intros Hw Hsig. destruct (wf_signed _ Hw sig Hsig) as (Hb & Hraw & Hl). rewrite container_body.
  assert (H64 : len (enc_list (content sig r)) < 2 ^ 64) by (rewrite <- Hraw; unfold SizeLimit in Hl; lia).
  pose proof (enc_list_content _ H64) as Hc.
  assert (Hr : reads (sz ← List; x ← body (S (length (raw r))); ListEnd ;; mret (make (raw r) x)) (enc_list (content sig r))
    (make (raw r) (sig, seq r, pairs r))).
  { apply (reads_List List ListEnd (fun _ => body _) (make (raw r))); [by intros ?..|done|].
    pose proof Hc as Hc0. unfold content in *. apply written_app_l in Hc0 as [H1 H2]. apply written_app_l in H2 as [H2 H3].
    eapply reads_in_bind.
    { eapply reads_extends; [apply extends_eol_as|]. eapply reads_extends; [apply extends_wrap|].
      apply reads_Bytes; [done|]. pose proof (enc_string_len sig). lia. }
    eapply reads_in_bind.
    { eapply reads_extends; [apply extends_eol_as|]. eapply reads_extends; [apply extends_wrap|].
      apply (reads_uint 8); [lia|apply Hw]. }
    apply (reads_in_map _ (fun ps => (sig, seq r, ps))), pairs_loop_reads; [|apply Hw|done|].
    - split; [apply Hw|done].
    - pose proof (enc_pairs_length _ (wf_pairs _ Hw) H3). rewrite Hraw. unfold enc_list. rewrite !length_app. lia. }
  rewrite <- Hraw in Hr. destruct (Hr (NewStream (raw r) 0) []) as (s & -> & _); [done|by rewrite app_nil_r| |].
  - split; [done|]. intros _. simpl. lia.
  - simpl. unfold make. simpl. rewrite <- Hsig. by destruct r.
Qed.
Lemma noeol_body f : noeol (body f).
Proof.
  unfold body. apply noeol_bind; [by apply noeol_eol_as|]. intros sig. apply noeol_bind; [by apply noeol_eol_as|].
  intros sq. apply noeol_bind; [apply noeol_pairs|]. auto with rlp_eol.
Qed.
Lemma body_accepts f :
  accepts (body f) (fun x o => bytes x.1.1 /\ is_u64 x.1.2 /\ sorted x.2 /\ Forall pair_ok x.2
    /\ o = enc_string x.1.1 ++ enc_nat x.1.2 ++ enc_pairs x.2).
Proof.
  assert (H1 : accepts (eol_as errIncompleteList (wrap Bytes)) is_string) by (apply accepts_eol_as, accepts_wrap, accepts_Bytes; done).
  assert (H2 : accepts (eol_as errIncompleteList (wrap (uint 64))) (fun z o => is_u64 z /\ o = enc_nat z)).
  { apply accepts_eol_as, accepts_wrap, (accepts_uint 8); [done|lia]. }
  unfold body. eapply accepts_impl; [|eapply (accepts_bind _ _ _ (fun sig x o => is_u64 x.1.2 /\ x.1.1 = sig /\ sorted x.2
    /\ Forall pair_ok x.2 /\ o = enc_nat x.1.2 ++ enc_pairs x.2) H1)].
  { intros [[sig sq] ps] o _ (sig' & o1 & o2 & -> & [Hs ->] & Hq & <- & Ho & Hp & ->). done. }
  intros sig. split; [|apply noeol_bind; [by apply noeol_eol_as|]; intros sq; apply noeol_bind; [apply noeol_pairs|]; auto with rlp_eol].
  eapply accepts_impl; [|eapply (accepts_bind _ _ _ (fun sq x o => x.1 = (sig, sq) /\ sorted x.2 /\ Forall pair_ok x.2
    /\ o = enc_pairs x.2) H2)].
  { intros [x ps] o _ (sq & o1 & o2 & -> & [Hs ->] & -> & Ho & Hp & ->). done. }
  intros sq. split; [|apply noeol_bind; [apply noeol_pairs|]; auto with rlp_eol].
  eapply accepts_map; [apply pairs_loop_accepts|]. intros ps o _ ([Hs _] & Hp & ->). done.
Qed.
(** A value begins in one way only. *)
Lemma framed_prefix k c b k' c' o rest :
  framed k c b -> framed k' c' o -> len b < 2 ^ 63 -> b = o ++ rest -> b = o.
Proof.
  intros H1 H2 Hl Hb. pose proof (len_nonneg rest). pose proof (len_nonneg o).
  assert (Hlo : len o <= len b) by (rewrite Hb, len_app; lia).
  destruct (reads_Raw _ _ _ H1 ltac:(lia) (NewStream b 0) []) as (s1 & E1 & _); [done|by rewrite app_nil_r|split; [done|simpl; lia]|].
  destruct (reads_Raw _ _ _ H2 ltac:(lia) (NewStream b 0) rest) as (s2 & E2 & _); [done|done|split; [done|simpl; lia]|].
  congruence.
Qed.
Lemma container_accepts k c b r :
  bytes b -> framed k c b -> len b <= SizeLimit -> (container b (NewStream b 0)).1 = inr r ->
  wf r /\ is_Some (signature r) /\ raw r = b.
Proof.
  intros Hb Hf Hl E. rewrite container_body in E. unfold SizeLimit in Hl.
  assert (V : inv (NewStream b 0)) by (split; simpl; try done; lia).
  pose proof (accepts_List_body List ListEnd (fun _ => body (S (length b))) (make b) _
    ltac:(done) ltac:(intros s s' El K; by eapply List_eol) ltac:(done) noeol_ListEnd
    (fun sz => conj (body_accepts _) (noeol_body _)) _ V eq_refl) as Ha.
  destruct ((sz ← List; x ← body (S (length b)); ListEnd ;; mret (make b x)) (NewStream b 0)) as [[e|r'] s]; [done|].
  simpl in E. injection E as ->. destruct Ha as (o & C & K & [[sig sq] ps] & o' & -> & -> & Hsig & Hsq & Hs & Hp & Ho').
  simpl in *. pose proof (con_input _ _ _ C) as Hi. simpl in Hi.
  apply (framed_prefix k c b List_ o' (enc_list o')) in Hi as Hbo; [|done|done|lia].
  split_and!; [|by eexists|done]. split; simpl; [done..|]. intros ? [= <-]. split_and!; [done| |done].
  unfold content. simpl. by rewrite Hbo, Ho'.
Qed.
Lemma enc_list_framed c : framed List_ c (enc_list c).
Proof. done. Qed.
Lemma decodeRecord_reads r : wf r -> is_Some (signature r) -> reads decodeRecord (raw r) r.
Proof.
  intros Hw [sig Hsig]. destruct (wf_signed _ Hw sig Hsig) as (_ & Hraw & Hl). rewrite <- (app_nil_r (raw r)).
  unfold decodeRecord. eapply reads_bind.
  - rewrite Hraw. eapply reads_Raw; [apply enc_list_framed|]. rewrite <- Hraw. unfold SizeLimit in Hl. lia.
  - rewrite <- Hraw. destruct (Z.ltb_spec SizeLimit (len (raw r))); [lia|].
    rewrite (container_reads r sig) by done. apply reads_ret.
Qed.
Lemma List_top b s' : List (NewStream b 0) <> (inl EOL, s').
Proof.
  unfold List, mbind, M_bind. destruct (Kind_ (NewStream b 0)) as [[e|[k sz]] s1] eqn:Ek; [|by destruct k].
  intros [= -> _]. unfold Kind_ in Ek. cbn [kind NewStream] in Ek.
  destruct (readKind_s (NewStream b 0)) as [[[k sz] err] s2] eqn:Er. pose proof (readKind_s_eol k sz (NewStream b 0) s2).
  simpl in Ek. destruct err as [e|]; [injection Ek as -> _; done|]. by destruct (limited s2 && (remaining s2 <? sz))%bool.
Qed.
Lemma container_eol b s' : container b (NewStream b 0) <> (inl EOL, s').
Proof.
  rewrite container_body. unfold mbind at 1, M_bind at 1. destruct (List (NewStream b 0)) as [[e|sz] s1] eqn:E.
  - intros [= -> ->]. by apply List_top in E.
  - apply noeol_bind; [apply noeol_body|]. intros x. apply noeol_bind; auto with rlp_eol.
Qed.
Lemma decodeRecord_accepts : accepts decodeRecord (fun r o => wf r /\ is_Some (signature r) /\ raw r = o).
Proof.
  unfold decodeRecord. intros s V K. pose proof (accepts_Raw s V K) as Hr. unfold mbind, M_bind.
  destruct (Raw s) as [[e|b] s1]; [done|]. destruct Hr as (o & C & K1 & -> & k & c & Hf).
  destruct (consumed_small _ _ _ V C) as [_ Hb]. destruct (Z.ltb_spec SizeLimit (len o)) as [|Hl]; [done|].
  destruct (container o (NewStream o 0)) as [[e|r] s2] eqn:E; simpl.
  - intros ->. by apply container_eol in E.
  - destruct (container_accepts k c o r) as (Hw & Hs & Hr); [done..|by rewrite E|]. by exists o.
Qed.

(** ** Decoding a slice *)
Lemma DecodeBytesWith_reads {A} (m : M A) b a : reads m b a -> DecodeBytesWith m b = inr a.
Proof.
  intros Hm. unfold DecodeBytesWith. destruct (Hm (NewStream b (len b)) []) as (s & -> & _ & Hc);
    [done|by rewrite app_nil_r| |].
  - split; [done|]. intros _. simpl. destruct (Z.ltb_spec 0 (len b)); lia.
  - rewrite core_input, Hc. simpl. unfold len. by rewrite Nat2Z.id, drop_all.
Qed.
Lemma DecodeBytesWith_accepts {A} (m : M A) R b a :
  accepts m R -> bytes b -> len b < 2 ^ 63 -> DecodeBytesWith m b = inr a -> R a b.
Proof.
  intros Hm Hb Hl. unfold DecodeBytesWith. assert (V : inv (NewStream b (len b))).
  { split; try done. cbn [NewStream remaining input]. by destruct (Z.ltb_spec 0 (len b)). }
  specialize (Hm _ V eq_refl). destruct (m (NewStream b (len b))) as [[e|a'] s]; [done|].
  destruct Hm as (o & C & _ & HR). destruct (Z.ltb_spec 0 (len (input s))); [done|]. intros [= ->].
  pose proof (con_input _ _ _ C) as Hi. simpl in Hi. destruct (input s); [|rewrite len_cons in *; pose proof (len_nonneg l); lia].
  by rewrite Hi, app_nil_r.
Qed.

(** C31.  Decoding accepts exactly the raw form of the well-formed signed records. *)
Theorem record_exact b r :
  bytes b -> len b < 2 ^ 63 ->
  DecodeBytesWith decodeRecord b = inr r <-> wf r /\ is_Some (signature r) /\ raw r = b.
Proof.
  intros Hb Hl. split.
  - apply (DecodeBytesWith_accepts _ _ _ _ decodeRecord_accepts Hb Hl).
  - intros (Hw & Hs & <-). by apply DecodeBytesWith_reads, decodeRecord_reads.
Qed.

(** ** Entries *)
Lemma enc_string_bytes b : bytes b -> bytes (enc_string b).
Proof.
  intros Hb. unfold enc_string. destruct b as [|x [|y l]]; [| |apply Forall_app; split; [apply puthead_bytes|done]].
  - apply Forall_app; split; [apply puthead_bytes|done].
  - destruct (x <=? 127); [done|]. apply Forall_app; split; [apply puthead_bytes|done].
Qed.
Lemma enc_nat_bytes z : bytes (enc_nat z).
Proof. apply enc_string_bytes, be_bytes. Qed.
Lemma decode_string b : bytes b -> len b < 2 ^ 64 -> DecodeBytesWith (wrap Bytes) (enc_string b) = inr b.
Proof. intros Hb Hl. eapply DecodeBytesWith_reads, reads_extends; [apply extends_wrap|]. by apply reads_Bytes. Qed.
Lemma encode_string t b :
  t = TBytes \/ t = TString -> bytes b -> len b < 2 ^ 32 -> EncodeToBytes t (VBytes b) = inr (enc_string b).
Proof.
  intros Ht Hb Hl. apply encode_exact; [destruct Ht as [-> | ->]; by constructor|]. pose proof (len_nonneg b).
  pose proof (headsize_bounds (len b) ltac:(lia)). pose proof (headsize_bounds 1 ltac:(lia)).
  unfold enc_string. destruct b as [|x [|y l]]; [done| |rewrite len_app, puthead_len by lia; lia].
  destruct (x <=? 127); [done|]. rewrite len_app, puthead_len by lia. lia.
Qed.
Lemma To4_bytes ip ip4 : bytes ip -> To4 ip = Some ip4 -> bytes ip4 /\ length ip4 = 4%nat.
Proof.
  intros Hb. unfold To4. case_bool_decide as H4; [intros [= <-]; done|].
  destruct (_ && _)%bool eqn:E; [|done]. intros [= <-]. apply andb_true_iff in E as [[E _]%andb_true_iff _].
  apply bool_decide_eq_true in E. split; [by apply Forall_drop|]. rewrite length_drop. lia.
Qed.
Lemma To16_bytes ip ip6 : bytes ip -> To16 ip = Some ip6 -> bytes ip6 /\ length ip6 = 16%nat.
Proof.
  intros Hb. unfold To16. case_bool_decide as H4; [|case_bool_decide; [|done]; by intros [= <-]].
  intros [= <-]. split; [|simpl; lia]. repeat (constructor; [unfold is_byte; lia|]). done.
Qed.
Lemma str_of_bytes s : bytes (str_of s).
Proof.
  unfold str_of. apply Forall_map, Forall_true. intros c. unfold is_byte. pose proof (Ascii.N_ascii_bounded c). lia.
Qed.

(** [Set] and [Load] are insertion and lookup in the map of the pairs. *)
Theorem record_is_map r :
  sorted (pairs r) ->
  (forall A k (dec : list Z -> rlpErr + A), Load k dec r =
     match to_map (pairs r) !! k with
     | Some v => match dec v with inl e => inl (errEntry e) | inr a => inr a end
     | None => inl errNotFound
     end)
  /\ (forall k v, exists r', Set_ k (inr v) r = Done r' /\ sorted (pairs r')
        /\ to_map (pairs r') = <[k := v]> (to_map (pairs r))
        /\ signature r' = None /\ seq r' = match signature r with Some _ => u64 (seq r + 1) | None => seq r end).
Proof.
  intros Hs. split; [intros A k dec; by apply Load_map|]. intros k v. eexists. split; [done|]. simpl.
  destruct (set_pair_sorted k v (pairs r) Hs) as [H1 H2]. done.
Qed.

Lemma Set_wf k v r : wf r -> pair_ok (k, v) -> exists r', Set_ k (inr v) r = Done r' /\ wf r'.
Proof.
  intros Hw Hv. eexists. split; [done|]. split; simpl; [by apply set_pair_sorted, Hw| | |done].
  - destruct (set_pair_split k v _ (wf_sorted _ Hw)) as (a & b & -> & Hp & _ & _). pose proof (wf_pairs _ Hw) as Ho.
    destruct Hp as [Hp|[v' Hp]]; rewrite Hp in Ho; apply Forall_app in Ho as [Ha Hb]; apply Forall_app; split; try done.
    + by constructor.
    + apply list.Forall_cons_1 in Hb as [_ Hb]. by constructor.
  - pose proof (wf_seq _ Hw). destruct (signature r); [apply u64_range|done].
Qed.

Section laws.
Context `{C : Crypto} {Laws : CryptoLaws C}.

(** Entries whose value has the Go type and can be encoded. *)
Definition entry_ok (e : Entry) : Prop :=
  match e with
  | TCP p | TCP6 p | UDP p | UDP6 p => 0 <= p < 2 ^ 16
  | ID name => bytes name /\ len name < 2 ^ 32
  | IP_ ip => bytes ip /\ is_Some (To16 ip)
  | IPv4 ip => bytes ip /\ is_Some (To4 ip)
  | IPv6 ip => bytes ip /\ is_Some (To16 ip)
  | Secp256k1 k => IsOnCurve (key_X k) (key_Y k) = true
  | WithEntry k t v => bytes k /\ exists out, encodes t v out /\ bytes out /\ len out < 2 ^ 64
  end.
(** What is stored for it. *)
Definition entry_blob (e : Entry) (blob : list Z) : Prop :=
  match e with
  | TCP p | TCP6 p | UDP p | UDP6 p => blob = enc_nat p
  | ID name => blob = enc_string name
  | IP_ ip => blob = enc_string (match To4 ip with Some ip4 => ip4 | None => ip end)
  | IPv4 ip => exists ip4, To4 ip = Some ip4 /\ blob = enc_string ip4
  | IPv6 ip => exists ip6, To16 ip = Some ip6 /\ blob = enc_string ip6
  | Secp256k1 k => blob = enc_string (CompressPubkey k)
  | WithEntry _ t v => encodes t v blob
  end.
Lemma string_blob b : bytes b -> bytes (enc_string b) /\ exists k c, framed k c (enc_string b).
Proof.
  intros Hb. split; [by apply enc_string_bytes|]. destruct (string_value b Hb) as (k & c & _ & Hf). eauto.
Qed.
Lemma bytes_entry b :
  bytes b -> len b < 2 ^ 32 ->
  exists blob, EncodeToBytes TBytes (VBytes b) = inr blob /\ blob = enc_string b /\ bytes blob /\ exists k c, framed k c blob.
Proof.
  intros Hb Hl. exists (enc_string b). split_and!; [apply encode_string; auto|done|apply string_blob; done..].
Qed.
Lemma EncodeEntry_ok e :
  entry_ok e -> exists blob, EncodeEntry e = inr blob /\ entry_blob e blob
    /\ bytes (ENRKey e) /\ bytes blob /\ exists k c, framed k c blob.
Proof.
  assert (Hport : forall p, 0 <= p < 2 ^ 16 -> exists blob, EncodeToBytes (TUint 2) (VInt p) = inr blob /\ blob = enc_nat p
    /\ bytes blob /\ exists k c, framed k c blob).
  { intros p Hp. exists (enc_nat p). assert (He : encodes (TUint 2) (VInt p) (enc_nat p)) by (constructor; lia).
    split_and!; [|done|apply enc_nat_bytes|by eapply encodes_value]. apply encode_exact; [done|].
    pose proof (IntSize_enc p ltac:(lia)) as Hi. unfold IntSize in Hi. pose proof (headsize_bounds p ltac:(lia)) as Hh.
    unfold headsize in Hh. change 0x80 with 128 in Hi. destruct (Z.ltb_spec p 128), (Z.ltb_spec p 56); lia. }
  destruct e as [p|p|p|p|name|ip|ip|ip|k|k t v]; simpl; intros He.
  1-4: destruct (Hport p He) as (blob & E & -> & Hb & Hf); eexists; split_and!; [exact E|done|apply str_of_bytes|done..].
  - destruct He as [Hb Hl]. exists (enc_string name). split_and!; [apply encode_string; auto|done|apply str_of_bytes|by apply string_blob..].
  - destruct He as [Hb [ip6 E6]]. rewrite E6. destruct (To4 ip) as [ip4|] eqn:E4.
    + apply To4_bytes in E4 as [Hb4 Hl4]; [|done]. destruct (bytes_entry ip4 Hb4) as (blob & E & Hbl & Hr); [unfold len; lia|].
      exists blob. split_and!; [done|done|apply str_of_bytes|apply Hr..].
    + assert (ip6 = ip) as ->.
      { unfold To16, To4 in *. case_bool_decide; [done|]. case_bool_decide; [|done]. congruence. }
      apply To16_bytes in E6 as [Hb6 Hl6]; [|done]. destruct (bytes_entry ip Hb6) as (blob & E & Hbl & Hr); [unfold len; lia|].
      exists blob. split_and!; [done|done|apply str_of_bytes|apply Hr..].
  - destruct He as [Hb [ip4 E4]]. rewrite E4. pose proof E4 as Ht. apply To4_bytes in E4 as [Hb4 Hl4]; [|done].
    destruct (bytes_entry ip4 Hb4) as (blob & E & Hbl & Hr); [unfold len; lia|].
    exists blob. split_and!; [done|eauto|apply str_of_bytes|apply Hr..].
  - destruct He as [Hb [ip6 E6]]. rewrite E6. pose proof E6 as Ht. apply To16_bytes in E6 as [Hb6 Hl6]; [|done].
    destruct (bytes_entry ip6 Hb6) as (blob & E & Hbl & Hr); [unfold len; lia|].
    exists blob. split_and!; [done|eauto|apply str_of_bytes|apply Hr..].
  - destruct (Compress_len k He) as [Hl Hb]. destruct (bytes_entry (CompressPubkey k) Hb) as (blob & E & Hbl & Hr); [unfold len; lia|].
    exists blob. split_and!; [done|done|apply str_of_bytes|apply Hr..].
  - destruct He as (Hk & out & He & Hb & Hl). exists out. split_and!; [by apply encode_exact|done|done|done|by eapply encodes_value].
Qed.
Lemma SetEntry_wf e r : wf r -> entry_ok e ->
  exists blob r', EncodeEntry e = inr blob /\ entry_blob e blob /\ SetEntry e r = Done r' /\ wf r' /\ signature r' = None
    /\ pairs r' = set_pair (ENRKey e) blob (pairs r).
Proof.
  intros Hw He. destruct (EncodeEntry_ok e He) as (blob & E & Hbl & Hk).
  destruct (Set_wf (ENRKey e) blob r Hw Hk) as (r' & Er & Hw'). exists blob, r'. unfold SetEntry. rewrite E.
  split_and!; try done; simpl in Er; by injection Er as <-.
Qed.
Lemma SetSig_wf s sig r e r' :
  wf r -> bytes sig -> len (enc_list (content sig r)) < 2 ^ 64 ->
  SetSig (Some s) (Some sig) r = Done (e, r') -> wf r' /\ seq r' = seq r /\ pairs r' = pairs r.
Proof.
  intros Hw Hb Hl. unfold SetSig. destruct (Verify s r sig); [by intros [= <- <-]|].
  rewrite encode_spec by (done || apply Hw). destruct (Z.ltb_spec SizeLimit (len (enc_list (content sig r)))); [by intros [= <- <-]|].
  intros [= <- <-]. split; [|done]. destruct Hw as [H1 H2 H3 _]. split; simpl; [done..|]. intros ? [= <-]. done.
Qed.

Lemma wf_empty : wf empty_record.
Proof. split; [constructor|constructor|done|done]. Qed.

(** The records the package makes: from the empty record, by setting entries and
    the sequence number, signing (or removing the signature), and decoding. *)
Inductive made : Record_ -> Prop :=
  | made_empty : made empty_record
  | made_entry e r r' : made r -> entry_ok e -> SetEntry e r = Done r' -> made r'
  | made_seq s r : made r -> is_u64 s -> made (SetSeq s r)
  | made_sig s sig r e r' :
      made r -> bytes sig -> len (enc_list (content sig r)) < 2 ^ 64 -> SetSig (Some s) (Some sig) r = Done (e, r') -> made r'
  | made_unsigned r e r' : made r -> SetSig None None r = Done (e, r') -> made r'
  | made_decoded b r : bytes b -> len b < 2 ^ 63 -> DecodeBytesWith decodeRecord b = inr r -> made r.

(** C26.  The type invariant of records: sorted keys, values that are RLP values, a
    64-bit sequence number, and for a signed record a raw form that is its
    encoding and not too large. *)
Theorem record_type r : made r -> wf r.
Proof.
  induction 1 as [|e r r' _ Hw He Hs|s r _ Hw Hs|s sig r e r' _ Hw Hb Hl Hs|r e r' _ Hw Hs|b r Hb Hl Hd].
  - apply wf_empty.
  - destruct (SetEntry_wf e r Hw He) as (blob & r1 & _ & _ & E & Hw1 & _). congruence.
  - destruct Hw. by split.
  - by apply (SetSig_wf s sig r e r').
  - injection Hs as <- <-. destruct Hw. by split.
  - apply (DecodeBytesWith_accepts _ _ _ _ decodeRecord_accepts Hb Hl) in Hd as [Hw _]. done.
Qed.

(** ** Signing *)
Lemma enc_pairs_app a b : enc_pairs (a ++ b) = enc_pairs a ++ enc_pairs b.
Proof. unfold enc_pairs. by rewrite map_app, concat_app. Qed.
Lemma enc_pairs_cons p ps : enc_pairs (p :: ps) = enc_pair p ++ enc_pairs ps.
Proof. done. Qed.
Lemma enc_pairs_set k v ps : sorted ps -> len (enc_pairs (set_pair k v ps)) <= len (enc_pairs ps) + len (enc_pair (k, v)).
Proof.
  intros Hs. destruct (set_pair_split k v ps Hs) as (a & b & -> & Hp & _ & _).
  assert (len (enc_pairs a) + len (enc_pairs b) <= len (enc_pairs ps)).
  { destruct Hp as [->|[v' ->]]; rewrite enc_pairs_app, ?enc_pairs_cons, !len_app; pose proof (len_nonneg (enc_pair (k, []))); [lia|].
    pose proof (len_nonneg (enc_pair (k, v'))). lia. }
  rewrite enc_pairs_app, enc_pairs_cons, !len_app. lia.
Qed.
Lemma LoadWith_map {A} k (m : M A) r v a :
  sorted (pairs r) -> to_map (pairs r) !! str_of k = Some v -> DecodeBytesWith m v = inr a -> LoadWith k m r = inr a.
Proof. intros Hs Hv Hd. unfold LoadWith. by rewrite Load_map, Hv, Hd. Qed.
Lemma decode_key k :
  IsOnCurve (key_X k) (key_Y k) = true -> DecodeBytesWith dec_Secp256k1 (enc_string (CompressPubkey k)) = inr k.
Proof.
  intros Hk. destruct (Compress_len k Hk) as [Hl Hb]. apply DecodeBytesWith_reads. unfold dec_Secp256k1.
  rewrite <- (app_nil_r (enc_string _)). eapply reads_bind; [apply reads_Bytes; [done|unfold len; lia]|].
  rewrite Compress_decompress by done. apply reads_ret.
Qed.
Lemma enc_string_short b : len b < 2 ^ 32 -> len (enc_string b) <= 9 + len b.
Proof.
  intros Hl. pose proof (len_nonneg b). pose proof (headsize_bounds (len b) ltac:(lia)). pose proof (headsize_bounds 1 ltac:(lia)).
  unfold enc_string. destruct b as [|x [|y l]]; [done| |rewrite len_app, puthead_len by lia; lia].
  destruct (x <=? 127); [done|]. rewrite len_app, puthead_len by lia. lia.
Qed.
Definition key_id : list Z := str_of "id".
Definition key_secp : list Z := str_of "secp256k1".
Definition with_key (k : PublicKey) (m : gmap (list Z) (list Z)) : gmap (list Z) (list Z) :=
  <[key_secp := enc_string (CompressPubkey k)]> (<[key_id := enc_string (str_of "v4")]> m).

(** A record with the key of the signer verifies. *)
Lemma V4_valid r k m sig :
  sorted (pairs r) -> to_map (pairs r) = with_key (public k) m -> Sign (sig_hash r) k = Some sig ->
  V4_Verify r (take 64 sig) = None /\ V4_NodeAddr r = PubkeyToIDV4 (public k) /\ scheme_name r = str_of "v4".
Proof.
  intros Hs Hm Hsig. pose proof (public_on_curve k) as Hc. destruct (Compress_len _ Hc) as [Hl Hb].
  assert (Hkey : to_map (pairs r) !! str_of "secp256k1" = Some (enc_string (CompressPubkey (public k)))).
  { rewrite Hm. apply lookup_insert_eq. }
  assert (Hid : to_map (pairs r) !! str_of "id" = Some (enc_string (str_of "v4"))).
  { rewrite Hm. unfold with_key. rewrite lookup_insert_ne by done. apply lookup_insert_eq. }
  split_and!.
  - unfold V4_Verify. rewrite (LoadWith_map _ _ _ _ (CompressPubkey (public k)) Hs Hkey) by (apply decode_string; [done|unfold len; lia]).
    unfold len. rewrite Hl. simpl. by rewrite (Sign_verify _ _ _ Hsig).
  - unfold V4_NodeAddr. by rewrite (LoadWith_map _ _ _ _ (public k) Hs Hkey) by (by apply decode_key).
  - unfold scheme_name. rewrite (LoadWith_map _ dec_ID _ _ (str_of "v4") Hs Hid); [done|].
    apply decode_string; [apply str_of_bytes|done].
Qed.
Lemma New_valid r k m sig :
  sorted (pairs r) -> to_map (pairs r) = with_key (public k) m -> Sign (sig_hash r) k = Some sig ->
  signature r = Some (take 64 sig) -> New ValidSchemes r = inr (mk_Node r (PubkeyToIDV4 (public k))).
Proof.
  intros Hs Hm Hsig Hr. destruct (V4_valid r k m sig Hs Hm Hsig) as (Hv & Ha & Hn). unfold New. simpl. rewrite Hn, Hr.
  simpl. rewrite Hv, Ha. unfold PubkeyToIDV4. pose proof (Keccak256_len (pubkey_bytes (public k))) as Hk. unfold len. rewrite Hk.
  simpl. rewrite take_ge by lia. done.
Qed.
(** The record that is signed. *)
Lemma SignV4_copy r k :
  wf r -> exists cpy, wf cpy /\ signature cpy = None /\ to_map (pairs cpy) = with_key (public k) (to_map (pairs r))
    /\ len (enc_pairs (pairs cpy)) <= len (enc_pairs (pairs r)) + 200
    /\ SignV4 r k = match Sign (sig_hash cpy) k with
                    | None => Done (Some errSign, r)
                    | Some sig =>
                        res ← SetSig (Some V4ID) (Some (take (length sig - 1) sig)) cpy;
                        match res with
                        | (None, cpy) => Done (None, cpy)
                        | (Some e, _) => Done (Some e, r)
                        end
                    end.
Proof.
  intros Hw. destruct (SetEntry_wf (ID (str_of "v4")) r Hw) as (b1 & r1 & _ & Hb1 & E1 & Hw1 & _ & P1).
  { split; [apply str_of_bytes|done]. }
  pose proof (public_on_curve k) as Hc. destruct (Compress_len _ Hc) as [Hl Hb].
  destruct (SetEntry_wf (Secp256k1 (public k)) r1 Hw1 Hc) as (b2 & r2 & _ & Hb2 & E2 & Hw2 & Hn2 & P2).
  cbn [entry_blob] in Hb1, Hb2. subst b1 b2. exists r2. split; [done|]. split; [done|].
  pose proof (wf_sorted _ Hw) as S0. pose proof (wf_sorted _ Hw1) as S1. split; [|split].
  - rewrite P2. destruct (set_pair_sorted (ENRKey (Secp256k1 (public k))) (enc_string (CompressPubkey (public k))) _ S1) as [_ ->].
    rewrite P1. by destruct (set_pair_sorted (ENRKey (ID (str_of "v4"))) (enc_string (str_of "v4")) _ S0) as [_ ->].
  - rewrite P2. etrans; [by apply enc_pairs_set|]. rewrite P1.
    pose proof (enc_pairs_set (ENRKey (ID (str_of "v4"))) (enc_string (str_of "v4")) _ S0).
    assert (len (enc_pair (ENRKey (ID (str_of "v4")), enc_string (str_of "v4"))) <= 20) by (vm_compute; done).
    assert (len (enc_pair (ENRKey (Secp256k1 (public k)), enc_string (CompressPubkey (public k)))) <= 100).
    { assert (Hl' : len (CompressPubkey (public k)) = 33) by (unfold len; by rewrite Hl).
      pose proof (enc_string_short (CompressPubkey (public k)) ltac:(rewrite Hl'; done)) as Hs. rewrite Hl' in Hs.
      unfold enc_pair. rewrite len_app. cbn [fst snd]. change (len (enc_string (ENRKey (Secp256k1 (public k))))) with 10. lia. }
    lia.
  - unfold SignV4. rewrite E1. cbn [mbind outcome_bind]. rewrite E2. done.
Qed.

(** C27.  Signing a record: it either fails and leaves the record, because no
    signature was made or the record became too large, or gives a record with
    the entries of the old one and the key, which everybody who decodes its
    raw form takes for a valid record of the node with that key. *)
Theorem signed_record_accepted r k :
  wf r -> len (enc_pairs (pairs r)) < 2 ^ 62 ->
  exists e r', SignV4 r k = Done (e, r') /\
    match e with
    | None =>
        to_map (pairs r') = with_key (public k) (to_map (pairs r))
        /\ EncodeRLP r' = inr (raw r')
        /\ DecodeBytesWith decodeRecord (raw r') = inr r'
        /\ New ValidSchemes r' = inr (mk_Node r' (PubkeyToIDV4 (public k)))
    | Some e => r' = r /\ (e = errSign \/ e = errEntry errTooBig)
    end.
Proof.
  intros Hw Hl. destruct (SignV4_copy r k Hw) as (cpy & Hwc & Hn & Hm & Hlc & ->).
  destruct (Sign (sig_hash cpy) k) as [sig|] eqn:Es; [|exists (Some errSign), r; auto].
  destruct (Sign_len _ _ _ Es) as [Hsl Hsb]. rewrite Hsl. change (65 - 1)%nat with 64%nat.
  pose proof (wf_sorted _ Hwc) as Hs. destruct (V4_valid cpy k _ sig Hs Hm Es) as (Hv & _ & _).
  unfold SetSig. simpl Verify. rewrite Hv.
  assert (Hb : bytes (take 64 sig)) by by apply Forall_take.
  assert (Hsz : len (enc_list (content (take 64 sig) cpy)) < 2 ^ 64).
  { pose proof (enc_string_short (take 64 sig)) as H1. pose proof (wf_seq _ Hwc) as Hq.
    pose proof (enc_string_short (be (nbytes (seq cpy)) (seq cpy))) as H2. rewrite nbytes_len in H2.
    pose proof (nbytes_le (seq cpy) 8 ltac:(lia) Hq). change (enc_string _) with (enc_nat (seq cpy)) in H2.
    assert (len (take 64 sig) = 64) as H64 by (unfold len; rewrite length_take; lia). rewrite H64 in H1.
    unfold enc_list. assert (0 <= len (content (take 64 sig) cpy) < 2 ^ 63).
    { unfold content. rewrite !len_app. pose proof (len_nonneg (enc_pairs (pairs cpy))).
      pose proof (len_nonneg (enc_nat (seq cpy))). pose proof (len_nonneg (enc_string (take 64 sig))).
      specialize (H1 ltac:(done)). specialize (H2 ltac:(lia)). lia. }
    rewrite len_app, puthead_len by lia. pose proof (headsize_bounds (len (content (take 64 sig) cpy)) ltac:(lia)). lia. }
  rewrite encode_spec by (done || apply Hwc). destruct (Z.ltb_spec SizeLimit (len (enc_list (content (take 64 sig) cpy)))) as [|Hfit].
  - eexists (Some _), r. split; [done|]. auto.
  - set (r' := mk_Record (seq cpy) (Some (take 64 sig)) (enc_list (content (take 64 sig) cpy)) (pairs cpy)).
    assert (Hw' : wf r') by (destruct Hwc; split; [done..|]; by intros ? [= <-]).
    exists None, r'. split_and!; [done..| |].
    + apply DecodeBytesWith_reads, decodeRecord_reads; [done|by eexists].
    + by apply (New_valid r' k (to_map (pairs r)) sig).
Qed.
End laws.

(** ** Examples
    A stand-in for the cryptography with which examples can be evaluated: the
    curve is a line, the signature is the public key. *)
Definition sample_curve (x y : Z) : bool := ((0 <=? x) && (x <? 2 ^ 200) && (y =? x + 2))%bool.
#[export] Instance sample_crypto : Crypto := {
  PrivateKey := Z;
  public k := mk_PublicKey (k mod 2 ^ 200) (k mod 2 ^ 200 + 2);
  Keccak256 b := replicate 31 0 ++ [foldr Z.add 0 b mod 256];
  Sign h k := Some (pubkey_bytes (mk_PublicKey (k mod 2 ^ 200) (k mod 2 ^ 200 + 2)) ++ [0]);
  VerifySignature key h sig := bool_decide (key = 2 :: take 32 sig);
  Ecrecover h sig := Some (4 :: take 64 sig);
  IsOnCurve := sample_curve;
  CompressPubkey k := 2 :: be 32 (key_X k);
  DecompressPubkey b := match b with 2 :: x => Some (mk_PublicKey (unbe x) (unbe x + 2)) | _ => None end;
}.
Lemma pubkey_bytes_len k : length (pubkey_bytes k) = 64%nat.
Proof. unfold pubkey_bytes. by rewrite length_app, !be_length. Qed.
#[export] Instance sample_laws : CryptoLaws sample_crypto.
Proof.
  split; cbn [PrivateKey public Keccak256 Sign VerifySignature Ecrecover IsOnCurve CompressPubkey DecompressPubkey sample_crypto].
  - intros b. by rewrite length_app, length_replicate.
  - intros b. apply Forall_app. split; [apply Forall_replicate; unfold is_byte; lia|]. constructor; [|done].
    apply byte_range.
  - intros _ k s Hs. apply (inj Some) in Hs. subst s. split; [by rewrite length_app, pubkey_bytes_len|]. apply Forall_app. unfold pubkey_bytes.
    split; [apply Forall_app; split; apply be_bytes|]. constructor; [unfold is_byte; lia|done].
  - intros _ k s Hs. apply (inj Some) in Hs. subst s. rewrite take_app_length'; [done|by rewrite pubkey_bytes_len].
  - intros _ s p Hb Hp. apply (inj Some) in Hp. subst p. constructor; [unfold is_byte; lia|by apply Forall_take].
  - intros _ k s Hs. apply (inj Some) in Hs. subst s. by apply bool_decide_eq_true_2.
  - intros k. unfold sample_curve. cbn [key_X key_Y]. pose proof (Z.mod_pos_bound k (2 ^ 200) ltac:(lia)).
    rewrite !andb_true_iff, Z.leb_le, Z.ltb_lt, Z.eqb_eq. lia.
  - intros k _. split; [by cbn [length]; rewrite be_length|]. constructor; [unfold is_byte; lia|apply be_bytes].
  - intros [x y]. unfold sample_curve. cbn [key_X key_Y]. rewrite !andb_true_iff, Z.leb_le, Z.ltb_lt, Z.eqb_eq.
    intros [[H1 H2] ->]. rewrite unbe_be; [done|]. split; [done|]. eapply Z.lt_trans; [exact H2|]. done.
Qed.
Lemma record_exact_witness :
  exists r, DecodeBytesWith decodeRecord [0xC6; 0x80; 0x07; 0x61; 0x05; 0x62; 0x06] = inr r
    /\ wf r /\ pairs r = [([0x61], [0x05]); ([0x62], [0x06])].
Proof.
  eexists. split; [vm_compute; reflexivity|]. split; [|reflexivity].
  eapply (proj1 (record_exact [0xC6; 0x80; 0x07; 0x61; 0x05; 0x62; 0x06] _ ltac:(repeat constructor; unfold is_byte; lia) ltac:(done))).
  vm_compute. reflexivity.
Defined.
Lemma record_is_map_witness :
  exists r', Set_ (str_of "udp") (inr [5]) empty_record = Done r' /\ to_map (pairs r') !! str_of "udp" = Some [5].
Proof.
  destruct (record_is_map empty_record ltac:(constructor)) as [_ Hs]. destruct (Hs (str_of "udp") [5]) as (r' & E & _ & Hm & _).
  exists r'. split; [exact E|]. rewrite Hm. reflexivity.
Defined.
Definition sample_record : Record_ := mk_Record 9 None [] [(str_of "udp", [5])].
Lemma record_type_witness : wf sample_record.
Proof.
  apply record_type. eapply (made_entry (UDP 5) (SetSeq 9 empty_record)); [|simpl; lia|vm_compute; reflexivity].
  apply made_seq; [apply made_empty|done].
Defined.
Lemma signed_record_accepted_witness :
  exists e r', SignV4 (C:=sample_crypto) empty_record 77 = Done (e, r') /\ e = None.
Proof.
  destruct (signed_record_accepted (C:=sample_crypto) empty_record 77 wf_empty ltac:(done)) as (e & r' & E & _). exists e, r'.
  split; [exact E|]. vm_compute in E. congruence.
Defined.
End EnrProps.
