(* ===== verification/EnrNode.v ===== *)
(** * Nodes made from endpoints (src/p2p/enode/urlv4.go)

    [NewV4] builds a record from a public key and an endpoint.  It never
    panics on an address of four or sixteen bytes, and the node it gives has
    the identifier of the key and the endpoint it was made from. *)

From stdpp Require Import base gmap list numbers strings sorting.
From Stdlib Require Import ZArith Lia.
From S2P Require Import Prelude Bytes Rlp RlpProps RlpStream RlpTypes RlpRoundtrip RlpDecode RlpExact NetUtil Enr EnrProps.

Module EnrNode.
Import Rlp RlpProps RlpStream RlpTypes RlpRoundtrip RlpDecode RlpExact NetUtil Enr EnrProps.

Section node.
Context `{C : Crypto} {Laws : CryptoLaws C}.

(** The entries [NewV4] sets. *)
Definition small_entry (e : Entry) : Prop :=
  match e with TCP _ | UDP _ | IP_ _ | Secp256k1 _ => True | _ => False end.
Lemma small_entry_len e blob :
  small_entry e -> entry_ok e -> entry_blob e blob -> len (enc_pair (ENRKey e, blob)) <= 60.
Proof.
  assert (Hs : forall k (b : list Z), len (enc_string k) <= 10 -> len b <= 40 -> len (enc_pair (k, enc_string b)) <= 60).
  { intros k b Hk Hb. unfold enc_pair. cbn [fst snd]. rewrite len_app. pose proof (enc_string_short b ltac:(lia)). lia. }
  destruct e as [p| |p| | |ip| | |k|]; try done; cbn [entry_ok entry_blob ENRKey]; intros _ He Hb.
  - rewrite Hb. apply Hs; [by vm_compute|]. rewrite nbytes_len. pose proof (nbytes_le p 2 ltac:(lia) He). lia.
  - rewrite Hb. apply Hs; [by vm_compute|]. rewrite nbytes_len. pose proof (nbytes_le p 2 ltac:(lia) He). lia.
  - destruct He as [Hby [ip6 H6]]. rewrite Hb. destruct (To4 ip) as [ip4|] eqn:E4; apply Hs; try by vm_compute.
    + apply To4_bytes in E4 as [_ Hl]; [|done]. unfold len. lia.
    + assert (length ip <= 16)%nat; [|unfold len; lia].
      unfold To16 in H6. repeat case_bool_decide; try done; lia.
  - destruct (Compress_len k He) as [Hl _]. rewrite Hb. apply Hs; [by vm_compute|]. unfold len. rewrite Hl. lia.
Qed.
(** Setting one of them. *)
Lemma set_small e r n :
  small_entry e -> entry_ok e -> wf r -> signature r = None -> len (enc_pairs (pairs r)) <= n ->
  exists blob r', entry_blob e blob /\ SetEntry e r = Done r' /\ wf r' /\ signature r' = None /\ seq r' = seq r
    /\ len (enc_pairs (pairs r')) <= n + 60 /\ to_map (pairs r') = <[ENRKey e := blob]> (to_map (pairs r)).
Proof.
  intros Hsm He Hw Hn Hl. destruct (SetEntry_wf e r Hw He) as (blob & r' & Eb & Hb & Es & Hw' & Hs & Hp).
  exists blob, r'. split_and!; try done.
  - unfold SetEntry, Set_ in Es. rewrite Eb in Es. injection Es as <-. simpl. by rewrite Hn.
  - rewrite Hp. pose proof (enc_pairs_set (ENRKey e) blob _ (wf_sorted _ Hw)). pose proof (small_entry_len e blob Hsm He Hb). lia.
  - rewrite Hp. by destruct (set_pair_sorted (ENRKey e) blob _ (wf_sorted _ Hw)) as [_ ->].
Qed.
(** Setting it if a condition holds. *)
Definition opt_insert (b : bool) (e : Entry) (blob : list Z) (m : gmap (list Z) (list Z)) : gmap (list Z) (list Z) :=
  if b then <[ENRKey e := blob]> m else m.
Lemma set_if (b : bool) e r n :
  small_entry e -> (b = true -> entry_ok e) -> wf r -> signature r = None -> len (enc_pairs (pairs r)) <= n ->
  exists blob r', (b = true -> entry_blob e blob) /\ (if b then SetEntry e r else Done r) = Done r' /\ wf r' /\ signature r' = None /\ seq r' = seq r
    /\ len (enc_pairs (pairs r')) <= n + 60 /\ to_map (pairs r') = opt_insert b e blob (to_map (pairs r)).
Proof.
  intros Hsm He Hw Hn Hl. destruct b; [|exists [], r; split_and!; try done; lia].
  destruct (set_small e r n Hsm (He eq_refl) Hw Hn Hl) as (blob & r' & Hb & Hr). exists blob, r'. by split.
Qed.
Lemma decode_port p : 0 <= p < 2 ^ 16 -> DecodeBytesWith dec_port (enc_nat p) = inr p.
Proof.
  intros Hp. eapply DecodeBytesWith_reads, reads_extends; [apply extends_wrap|]. apply (reads_uint 2); [lia|done].
Qed.
Lemma decode_sized b n : bytes b -> len b = n -> n < 2 ^ 32 -> DecodeBytesWith (dec_sized n) (enc_string b) = inr b.
Proof.
  intros Hb Hl Hn. apply DecodeBytesWith_reads. unfold dec_sized. rewrite <- (app_nil_r (enc_string b)).
  eapply reads_bind; [eapply reads_extends; [apply extends_wrap|]; apply reads_Bytes; [done|lia]|].
  rewrite Hl, Z.eqb_refl. apply reads_ret.
Qed.
Lemma LoadWith_None {A} k (m : M A) r : sorted (pairs r) -> to_map (pairs r) !! str_of k = None -> LoadWith k m r = inl errNotFound.
Proof. intros Hs Hn. unfold LoadWith. by rewrite Load_map, Hn. Qed.

(** The map of the entries of the record. *)
Definition v4_map (k : PublicKey) (ip : IP) (tcp udp : Z) (b1 b2 b3 b4 : list Z) : gmap (list Z) (list Z) :=
  <[str_of "secp256k1" := b4]>
    (opt_insert (negb (tcp =? 0)) (TCP tcp) b3 (opt_insert (negb (udp =? 0)) (UDP udp) b2 (opt_insert (0 <? len ip) (IP_ ip) b1 ∅))).
Definition norm_IP (ip : IP) : IP := default ip (To4 ip).

(** What is stored under one of the keys. *)
Ltac v4_lookup Hm :=
  rewrite Hm; unfold v4_map, opt_insert; cbn [ENRKey];
  repeat match goal with |- context [negb ?b] => destruct (negb b) end;
  repeat match goal with |- context [?a <? ?b] => destruct (a <? b) end;
  repeat match goal with |- context [To4 ?a] => destruct (To4 a) end; by simplify_map_eq.

Lemma v4_fields r k ip tcp udp b1 b2 b3 id :
  sorted (pairs r) -> to_map (pairs r) = v4_map k ip tcp udp b1 b2 b3 (enc_string (CompressPubkey k)) ->
  IsOnCurve (key_X k) (key_Y k) = true -> bytes ip -> (ip = [] \/ is_Some (To16 ip)) ->
  (0 < len ip -> b1 = enc_string (norm_IP ip)) -> (udp <> 0 -> b2 = enc_nat (udp mod 2 ^ 16)) -> (tcp <> 0 -> b3 = enc_nat (tcp mod 2 ^ 16)) ->
  let n := mk_Node r id in
  Node_IP n = norm_IP ip /\ Node_UDP n = udp mod 2 ^ 16 /\ Node_TCP n = tcp mod 2 ^ 16 /\ Node_Pubkey n = Some k.
Proof.
  intros Hs Hm Hk Hb Hip H1 H2 H3 n. unfold Node_IP, Node_UDP, Node_TCP, Node_Pubkey, n. cbn [node_r].
  assert (Hkey : to_map (pairs r) !! str_of "secp256k1" = Some (enc_string (CompressPubkey k))).
  { rewrite Hm. apply lookup_insert_eq. }
  assert (Hudp : to_map (pairs r) !! str_of "udp" = if negb (udp =? 0) then Some b2 else None).
  { v4_lookup Hm. }
  assert (Htcp : to_map (pairs r) !! str_of "tcp" = if negb (tcp =? 0) then Some b3 else None).
  { v4_lookup Hm. }
  assert (H4 : to_map (pairs r) !! str_of "ip" = if 0 <? len ip then match To4 ip with Some _ => Some b1 | None => None end else None).
  { v4_lookup Hm. }
  assert (H6 : to_map (pairs r) !! str_of "ip6" = if 0 <? len ip then match To4 ip with Some _ => None | None => Some b1 end else None).
  { v4_lookup Hm. }
  split_and!.
  - destruct (Z.ltb_spec 0 (len ip)) as [Hl|Hl].
    + specialize (H1 Hl). unfold norm_IP in *. destruct Hip as [->|[ip6 H16]]; [done|]. destruct (To4 ip) as [ip4|] eqn:E4.
      * apply To4_bytes in E4 as [Hb4 Hl4]; [|done]. simpl in H1. subst b1.
        by rewrite (LoadWith_map _ _ _ _ ip4 Hs H4) by (apply decode_sized; [done|unfold len; lia|lia]).
      * simpl in H1. subst b1. rewrite (LoadWith_None _ _ _ Hs H4).
        assert (Hl6 : len ip = 16).
        { unfold To16, To4 in *. case_bool_decide; [done|]. case_bool_decide; [|done]. unfold len. lia. }
        by rewrite (LoadWith_map _ _ _ _ ip Hs H6) by (by apply decode_sized).
    + rewrite (LoadWith_None _ _ _ Hs H4), (LoadWith_None _ _ _ Hs H6). destruct ip; [done|]. rewrite len_cons in Hl. pose proof (len_nonneg ip). lia.
  - destruct (Z.eqb_spec udp 0) as [->|Hne]; cbn [negb] in Hudp.
    + by rewrite (LoadWith_None _ _ _ Hs Hudp).
    + rewrite H2 in Hudp by done. by rewrite (LoadWith_map _ _ _ _ (udp mod 2 ^ 16) Hs Hudp) by (by apply decode_port, Z.mod_pos_bound).
  - destruct (Z.eqb_spec tcp 0) as [->|Hne]; cbn [negb] in Htcp.
    + by rewrite (LoadWith_None _ _ _ Hs Htcp).
    + rewrite H3 in Htcp by done. by rewrite (LoadWith_map _ _ _ _ (tcp mod 2 ^ 16) Hs Htcp) by (by apply decode_port, Z.mod_pos_bound).
  - by rewrite (LoadWith_map _ _ _ _ k Hs Hkey) by (by apply decode_key).
Qed.

(** The node that is made. *)
Theorem NewV4_spec k ip tcp udp :
  IsOnCurve (key_X k) (key_Y k) = true -> bytes ip -> (ip = [] \/ is_Some (To16 ip)) ->
  exists n, NewV4 k ip tcp udp = Done n /\ node_id n = PubkeyToIDV4 k /\ seq (node_r n) = 0
    /\ Node_IP n = norm_IP ip /\ Node_UDP n = udp mod 2 ^ 16 /\ Node_TCP n = tcp mod 2 ^ 16 /\ Node_Pubkey n = Some k
    /\ wf (node_r n) /\ is_Some (signature (node_r n)).
Proof.
  intros Hk Hb Hip. unfold NewV4.
  destruct (set_if (0 <? len ip) (IP_ ip) empty_record 0) as (b1 & r1 & Hb1 & E1 & W1 & N1 & S1 & L1 & M1); try done.
  { intros Hl. destruct Hip as [->|Hip]; [done|]. by split. }
  { apply wf_empty. }
  destruct (set_if (negb (udp =? 0)) (UDP (udp mod 2 ^ 16)) r1 60) as (b2 & r2 & Hb2 & E2 & W2 & N2 & S2 & L2 & M2); try done.
  { intros _. by apply Z.mod_pos_bound. }
  destruct (set_if (negb (tcp =? 0)) (TCP (tcp mod 2 ^ 16)) r2 120) as (b3 & r3 & Hb3 & E3 & W3 & N3 & S3 & L3 & M3); try done.
  { intros _. by apply Z.mod_pos_bound. }
  rewrite E1. cbn [mbind outcome_bind]. rewrite E2. cbn [mbind outcome_bind]. rewrite E3. cbn [mbind outcome_bind].
  destruct (set_small (Secp256k1 k) r3 180) as (b4 & r4 & Hb4 & E4 & W4 & N4 & S4 & L4 & M4); try done.
  unfold signV4Compat. rewrite E4. cbn [mbind outcome_bind]. cbn [entry_blob] in Hb4. subst b4.
  assert (Hs4 : sorted (pairs r4)) by apply W4. assert (Hseq : seq r4 = 0) by (rewrite S4, S3, S2, S1; done).
  assert (Hkey : to_map (pairs r4) !! str_of "secp256k1" = Some (enc_string (CompressPubkey k))) by (rewrite M4; apply lookup_insert_eq).
  assert (Hload : LoadWith "secp256k1" dec_Secp256k1 r4 = inr k) by (apply (LoadWith_map _ _ _ _ _ Hs4 Hkey), decode_key; done).
  assert (Hc : len (content [] r4) <= 250).
  { unfold content. rewrite !len_app, Hseq. change (len (enc_string [])) with 1. change (len (enc_nat 0)) with 1. lia. }
  assert (Hsz : len (enc_list (content [] r4)) <= 259).
  { unfold enc_list. pose proof (len_nonneg (content [] r4)). rewrite len_app, puthead_len by lia.
    pose proof (headsize_bounds (len (content [] r4)) ltac:(lia)). lia. }
  unfold SetSig. cbn [Verify v4CompatID]. rewrite Hload, encode_spec by (first [exact (wf_seq _ W4)|apply (wf_pairs _ W4)|by constructor|lia]).
  destruct (Z.ltb_spec SizeLimit (len (enc_list (content [] r4)))) as [Hbig|Hfit]; [unfold SizeLimit in Hbig; lia|].
  cbn [mbind outcome_bind]. set (r5 := mk_Record (seq r4) (Some []) (enc_list (content [] r4)) (pairs r4)).
  assert (Hload5 : LoadWith "secp256k1" dec_Secp256k1 r5 = inr k) by (apply (LoadWith_map _ _ _ _ _ Hs4 Hkey), decode_key; done).
  unfold New. cbn [Verify NodeAddr v4CompatID]. unfold V4_NodeAddr. rewrite Hload5.
  pose proof (Keccak256_len (pubkey_bytes k)) as Hh. unfold len at 1. rewrite Hh. cbn [negb Z.min Z.compare Z.eqb]. simpl (negb _).
  rewrite take_ge by lia. eexists. split; [done|]. split; [done|]. split; [done|].
  assert (Hw5 : wf r5) by (destruct W4; split; [done..|]; intros ? [= <-]; split_and!; [done|done|unfold SizeLimit; simpl; lia]).
  destruct (v4_fields r5 k ip tcp udp b1 b2 b3 (Keccak256 (pubkey_bytes k)) Hs4) as (F1 & F2 & F3 & F4); try done.
  { cbn [pairs r5]. rewrite M4, M3, M2, M1. done. }
  { intros Hl%Z.ltb_lt. specialize (Hb1 Hl). cbn [entry_blob] in Hb1. rewrite Hb1. unfold norm_IP. by destruct (To4 ip). }
  { intros Hn. apply Hb2. by destruct (Z.eqb_spec udp 0). }
  { intros Hn. apply Hb3. by destruct (Z.eqb_spec tcp 0). }
Qed.
End node.

Lemma NewV4_spec_witness : exists n, NewV4 (C:=sample_crypto) (mk_PublicKey 5 7) [10; 0; 0; 1] 30303 30304 = Done n /\ Node_IP n = [10; 0; 0; 1].
Proof.
  destruct (NewV4_spec (C:=sample_crypto) (mk_PublicKey 5 7) [10; 0; 0; 1] 30303 30304 ltac:(by vm_compute)
    ltac:(repeat constructor; lia) ltac:(right; by eexists)) as (n & E & _ & _ & Hi & _).
  by exists n.
Defined.
End EnrNode.
