(* ===== verification/V4Wire.v ===== *)
(** * The discovery wire protocol (src/p2p/discover/v4wire/v4wire.go)

    The packets of discovery v4 and their framing: a hash, a signature, the
    packet type and the RLP encoding of the packet.  [Rest] holds the fields a
    packet has beyond those that are known; a nil slice is [None]. *)

From stdpp Require Import base list numbers strings.
From Stdlib Require Import ZArith Lia.
From S2P Require Import Prelude Bytes Rlp RlpProps RlpBuffer RlpStream RlpTypes RlpRoundtrip RlpDecode RlpExact NetUtil Enr EnrProps.

Module V4Wire.
Import Rlp RlpProps RlpBuffer RlpStream RlpTypes RlpRoundtrip RlpDecode RlpExact NetUtil Enr EnrProps.

Definition PingPacket : Z := 1.
Definition PongPacket : Z := 2.
Definition FindnodePacket : Z := 3.
Definition NeighborsPacket : Z := 4.
Definition ENRRequestPacket : Z := 5.
Definition ENRResponsePacket : Z := 6.
Definition MaxNeighbors : Z := 12.

Record Endpoint : Type := mk_Endpoint { ep_IP : IP; ep_UDP : Z; ep_TCP : Z }.
Record rpcNode : Type := mk_rpcNode { rn_IP : IP; rn_UDP : Z; rn_TCP : Z; rn_ID : list Z }.
Abbreviation Rest := (option (list (list Z))).
Inductive Packet : Type :=
  | Ping (Version : Z) (From To : Endpoint) (Expiration ENRSeq : Z) (rest : Rest)
  | Pong (To : Endpoint) (ReplyTok : list Z) (Expiration ENRSeq : Z) (rest : Rest)
  | Findnode (Target : list Z) (Expiration : Z) (rest : Rest)
  | Neighbors (Nodes : list rpcNode) (Expiration : Z) (rest : Rest)
  | ENRRequest (Expiration : Z) (rest : Rest)
  | ENRResponse (ReplyTok : list Z) (Record : Record_) (rest : Rest).
Definition Kind_of (p : Packet) : Z :=
  match p with
  | Ping _ _ _ _ _ _ => PingPacket
  | Pong _ _ _ _ _ => PongPacket
  | Findnode _ _ _ => FindnodePacket
  | Neighbors _ _ _ => NeighborsPacket
  | ENRRequest _ _ => ENRRequestPacket
  | ENRResponse _ _ _ => ENRResponsePacket
  end.

Record UDPAddr : Type := mk_UDPAddr { addr_IP : IP; addr_Port : Z }.
Definition NewEndpoint (addr : UDPAddr) (tcpPort : Z) : Endpoint :=
  mk_Endpoint
    match To4 (addr_IP addr), To16 (addr_IP addr) with
    | Some ip4, _ => ip4
    | None, Some ip6 => ip6
    | None, None => []
    end (addr_Port addr mod 2 ^ 16) tcpPort.

(** time.Unix(int64(ts), 0).Before(now): [now] is in nanoseconds since 1970.
    Seconds are kept since the year 1, in 64 bits. *)
Definition unixToInternal : Z := 62135596800.
Definition Expired (ts now : Z) : bool :=
  let sec := i64 (i64 ts + unixToInternal) in
  let nsec := i64 (now / 10 ^ 9 + unixToInternal) in
  ((sec <? nsec) || ((sec =? nsec) && (0 <? now mod 10 ^ 9)))%bool.

(** ** The packets as Go values *)
Definition T_endpoint : typ := TStruct [(TBytes, false); (TUint 2, false); (TUint 2, false)].
Definition T_node : typ := TStruct [(TBytes, false); (TUint 2, false); (TUint 2, false); (TByteArray 64, false)].
Definition F_rest : typ * bool := (TTail TRaw, false).
Definition F_ping : list (typ * bool) :=
  [(TUint 8, false); (T_endpoint, false); (T_endpoint, false); (TUint 8, false); (TUint 8, true); F_rest].
Definition F_pong : list (typ * bool) := [(T_endpoint, false); (TBytes, false); (TUint 8, false); (TUint 8, true); F_rest].
Definition F_findnode : list (typ * bool) := [(TByteArray 64, false); (TUint 8, false); F_rest].
Definition F_neighbors : list (typ * bool) := [(TSlice T_node, false); (TUint 8, false); F_rest].
Definition F_enrRequest : list (typ * bool) := [(TUint 8, false); F_rest].

Definition endpoint_val (e : Endpoint) : val := VStruct [VBytes (ep_IP e); VInt (ep_UDP e); VInt (ep_TCP e)].
Definition node_val (n : rpcNode) : val := VStruct [VBytes (rn_IP n); VInt (rn_UDP n); VInt (rn_TCP n); VBytes (rn_ID n)].
Definition rest_val (r : Rest) : val := match r with Some l => VList (VBytes <$> l) | None => VNil end.
(** An ENRResponse, whose record has its own codec, is not among them. *)
Definition packet_val (p : Packet) : list (typ * bool) * list val :=
  match p with
  | Ping v f t e s r => (F_ping, [VInt v; endpoint_val f; endpoint_val t; VInt e; VInt s; rest_val r])
  | Pong t tok e s r => (F_pong, [endpoint_val t; VBytes tok; VInt e; VInt s; rest_val r])
  | Findnode t e r => (F_findnode, [VBytes t; VInt e; rest_val r])
  | Neighbors ns e r => (F_neighbors, [VList (node_val <$> ns); VInt e; rest_val r])
  | ENRRequest e r => (F_enrRequest, [VInt e; rest_val r])
  | ENRResponse _ _ _ => ([], [])
  end.

Definition val_bytes (v : val) : list Z := match v with VBytes b => b | _ => [] end.
Definition val_int (v : val) : Z := match v with VInt z => z | _ => 0 end.
Definition val_rest (v : val) : Rest := match v with VList l => Some (val_bytes <$> l) | _ => None end.
Definition val_endpoint (v : val) : Endpoint :=
  match v with
  | VStruct [ip; udp; tcp] => mk_Endpoint (val_bytes ip) (val_int udp) (val_int tcp)
  | _ => mk_Endpoint [] 0 0
  end.
Definition val_node (v : val) : rpcNode :=
  match v with
  | VStruct [ip; udp; tcp; id] => mk_rpcNode (val_bytes ip) (val_int udp) (val_int tcp) (val_bytes id)
  | _ => mk_rpcNode [] 0 0 []
  end.
Definition val_nodes (v : val) : list rpcNode := match v with VList l => val_node <$> l | _ => [] end.
(** The packet with these fields. *)
Definition to_ping (vs : list val) : option Packet :=
  match vs with
  | [v; f; t; e; s; r] => Some (Ping (val_int v) (val_endpoint f) (val_endpoint t) (val_int e) (val_int s) (val_rest r))
  | _ => None
  end.
Definition to_pong (vs : list val) : option Packet :=
  match vs with
  | [t; tok; e; s; r] => Some (Pong (val_endpoint t) (val_bytes tok) (val_int e) (val_int s) (val_rest r))
  | _ => None
  end.
Definition to_findnode (vs : list val) : option Packet :=
  match vs with [t; e; r] => Some (Findnode (val_bytes t) (val_int e) (val_rest r)) | _ => None end.
Definition to_neighbors (vs : list val) : option Packet :=
  match vs with [ns; e; r] => Some (Neighbors (val_nodes ns) (val_int e) (val_rest r)) | _ => None end.
Definition to_enrRequest (vs : list val) : option Packet :=
  match vs with [e; r] => Some (ENRRequest (val_int e) (val_rest r)) | _ => None end.

(** ** Encoding and decoding of a packet *)
Definition write_rest (r : Rest) (w : encBuffer) : rlpErr + encBuffer := writer (rest_val r) (TTail TRaw) w.
(** The record writes its raw form into the buffer. *)
Definition encode_enrResponse (tok : list Z) (rec : Record_) (r : Rest) : rlpErr + list Z :=
  let '(off, w) := list_ empty_buffer in
  let w := writeBytes tok w in
  match EncodeRLP rec with
  | inl e => inl e
  | inr raw =>
      match write_rest r (Write raw w) with
      | inl e => inl e
      | inr w => inr (makeBytes (listEnd off w))
      end
  end.
Definition EncodePacket (p : Packet) : rlpErr + list Z :=
  match p with
  | ENRResponse tok rec r => encode_enrResponse tok rec r
  | _ => EncodeToBytes (TStruct (packet_val p).1) (VStruct (packet_val p).2)
  end.

Definition too_few : rlpErr := decodeError "too few elements".
Definition decode_enrResponse : M Packet :=
  wrap List ;;
  tok ← eol_as too_few (wrap Bytes);
  rec ← eol_as too_few decodeRecord;
  r ← decodeSliceElems (decode TRaw);
  wrap ListEnd ;;
  mret (ENRResponse tok rec (Some (val_bytes <$> r))).
Definition decode_as (fs : list (typ * bool)) (to : list val -> option Packet) : M Packet :=
  v ← decode (TStruct fs);
  match v with
  | VStruct vs => match to vs with Some p => mret p | None => fail errBadValue end
  | _ => fail errBadValue
  end.
Definition decode_packet (ptype : Z) : option (M Packet) :=
  if ptype =? PingPacket then Some (decode_as F_ping to_ping)
  else if ptype =? PongPacket then Some (decode_as F_pong to_pong)
  else if ptype =? FindnodePacket then Some (decode_as F_findnode to_findnode)
  else if ptype =? NeighborsPacket then Some (decode_as F_neighbors to_neighbors)
  else if ptype =? ENRRequestPacket then Some (decode_as F_enrRequest to_enrRequest)
  else if ptype =? ENRResponsePacket then Some decode_enrResponse
  else None.

Section wire.
Context `{C : Crypto}.

Definition macSize : nat := 32.
Definition sigSize : nat := 65.
Definition headSize : nat := macSize + sigSize.
Inductive wireErr : Type :=
  | ErrPacketTooSmall
  | ErrBadHash
  | errRecover
  | errUnknownType (t : Z)
  | errRLP (e : rlpErr)
  | errSigning.
(** Go's copy. *)
Definition copy (dst src : list Z) : list Z := take (length dst) src ++ drop (length src) dst.

Definition recoverNodeKey (hash sig : list Z) : option (list Z) :=
  pubkey ← Ecrecover hash sig; Some (copy (replicate 64 0) (drop 1 pubkey)).
Definition Decode (input : list Z) : wireErr + Packet * list Z * list Z :=
  if len input <? Z.of_nat headSize + 1 then inl ErrPacketTooSmall
  else
    let hash := take macSize input in
    let sig := take sigSize (drop macSize input) in
    let sigdata := drop headSize input in
    if negb (bool_decide (hash = Keccak256 (drop macSize input))) then inl ErrBadHash
    else
      match recoverNodeKey (Keccak256 sigdata) sig with
      | None => inl errRecover
      | Some fromKey =>
          match sigdata with
          | [] => inl ErrPacketTooSmall
          | ptype :: body =>
              match decode_packet ptype with
              | None => inl (errUnknownType ptype)
              | Some dec =>
                  match (dec (NewStream body 0)).1 with
                  | inl e => inl (errRLP e)
                  | inr req => inr (req, fromKey, hash)
                  end
              end
          end
      end.
(** The packet and its hash. *)
Definition Encode (priv : PrivateKey) (req : Packet) : wireErr + list Z * list Z :=
  match EncodePacket req with
  | inl e => inl (errRLP e)
  | inr body =>
      let packet := replicate headSize 0 ++ Kind_of req :: body in
      match Sign (Keccak256 (drop headSize packet)) priv with
      | None => inl errSigning
      | Some sig =>
          let packet := take macSize packet ++ copy (drop macSize packet) sig in
          let hash := Keccak256 (drop macSize packet) in
          inr (copy packet hash, hash)
      end
  end.

Definition EncodePubkey (k : PublicKey) : list Z := pubkey_bytes k.
Definition DecodePubkey (e : list Z) : option PublicKey :=
  let x := unbe (take 32 e) in
  let y := unbe (drop 32 e) in
  if IsOnCurve x y then Some (mk_PublicKey x y) else None.
End wire.
End V4Wire.
