(* ===== verification/V4WireProps.v ===== *)
(** * The discovery wire protocol: properties

    The form of every packet on the wire, that decoding an encoded packet gives
    it back with the key of its sender, and that packets fit. *)

From stdpp Require Import base list numbers strings.
From Stdlib Require Import ZArith Lia.
From S2P Require Import Prelude Bytes Rlp RlpProps RlpBuffer RlpStream RlpTypes RlpRoundtrip RlpDecode RlpExact NetUtil Enr EnrProps V4Wire.

Module V4WireProps.
Import Rlp RlpProps RlpBuffer RlpStream RlpTypes RlpRoundtrip RlpDecode RlpExact NetUtil Enr EnrProps V4Wire.

(** ** Packets whose fields have their Go types *)
Definition is_u16 (z : Z) : Prop := 0 <= z < 2 ^ 16.
Definition ep_ok (e : Endpoint) : Prop := bytes (ep_IP e) /\ is_u16 (ep_UDP e) /\ is_u16 (ep_TCP e).
Definition rn_ok (n : rpcNode) : Prop :=
  bytes (rn_IP n) /\ is_u16 (rn_UDP n) /\ is_u16 (rn_TCP n) /\ bytes (rn_ID n) /\ length (rn_ID n) = 64%nat.
Definition rest_ok (r : Rest) : Prop := Forall (fun b => bytes b /\ exists k c, framed k c b) (default [] r).
Definition packet_ok (p : Packet) : Prop :=
  match p with
  | Ping v f t e s r => is_u64 v /\ ep_ok f /\ ep_ok t /\ is_u64 e /\ is_u64 s /\ rest_ok r
  | Pong t tok e s r => ep_ok t /\ bytes tok /\ is_u64 e /\ is_u64 s /\ rest_ok r
  | Findnode t e r => bytes t /\ length t = 64%nat /\ is_u64 e /\ rest_ok r
  | Neighbors ns e r => Forall rn_ok ns /\ is_u64 e /\ rest_ok r
  | ENRRequest e r => is_u64 e /\ rest_ok r
  | ENRResponse tok rec r => bytes tok /\ wf rec /\ is_Some (signature rec) /\ rest_ok r
  end.

(** ** The form of the packets *)
Definition enc_endpoint (e : Endpoint) : list Z :=
  enc_list (enc_string (ep_IP e) ++ enc_nat (ep_UDP e) ++ enc_nat (ep_TCP e)).
Definition enc_node (n : rpcNode) : list Z :=
  enc_list (enc_string (rn_IP n) ++ enc_nat (rn_UDP n) ++ enc_nat (rn_TCP n) ++ enc_string (rn_ID n)).
Definition enc_rest (r : Rest) : list Z := concat (default [] r).
(** The sequence number is left out when it is zero and nothing follows. *)
Definition enc_seq (s : Z) (r : Rest) : list Z :=
  match r with
  | None => if s =? 0 then [] else enc_nat s
  | Some l => enc_nat s ++ concat l
  end.
Definition packet_content (p : Packet) : list Z :=
  match p with
  | Ping v f t e s r => enc_nat v ++ enc_endpoint f ++ enc_endpoint t ++ enc_nat e ++ enc_seq s r
  | Pong t tok e s r => enc_endpoint t ++ enc_string tok ++ enc_nat e ++ enc_seq s r
  | Findnode t e r => enc_string t ++ enc_nat e ++ enc_rest r
  | Neighbors ns e r => enc_list (concat (enc_node <$> ns)) ++ enc_nat e ++ enc_rest r
  | ENRRequest e r => enc_nat e ++ enc_rest r
  | ENRResponse tok rec r => enc_string tok ++ raw rec ++ enc_rest r
  end.
Definition packet_enc (p : Packet) : list Z := enc_list (packet_content p).

(** What is received for a packet: [Rest] is an empty slice, where it was nil,
    unless the sequence number was left out too. *)
Definition received (p : Packet) : Packet :=
  let some (r : Rest) := Some (default [] r) in
  let seq_rest (s : Z) (r : Rest) := if (s =? 0)%Z then r else some r in
  match p with
  | Ping v f t e s r => Ping v f t e s (seq_rest s r)
  | Pong t tok e s r => Pong t tok e s (seq_rest s r)
  | Findnode t e r => Findnode t e (some r)
  | Neighbors ns e r => Neighbors ns e (some r)
  | ENRRequest e r => ENRRequest e (some r)
  | ENRResponse tok rec r => ENRResponse tok rec (some r)
  end.

(** ** Encoding *)
Lemma enc_u16 z : is_u16 z -> encodes (TUint 2) (VInt z) (enc_nat z).
Proof. intros Hz. constructor; [lia|exact Hz]. Qed.
Lemma enc_u64 z : is_u64 z -> encodes (TUint 8) (VInt z) (enc_nat z).
Proof. intros Hz. constructor; [lia|exact Hz]. Qed.
Lemma endpoint_encodes e : ep_ok e -> encodes T_endpoint (endpoint_val e) (enc_endpoint e).
Proof.
  intros (Hi & Hu & Ht). constructor; [done|]. rewrite <- (app_nil_r (enc_nat (ep_TCP e))).
  repeat (apply ef_cons; [|..|done]); [by constructor|by apply enc_u16..|constructor].
Qed.
Lemma node_encodes n : rn_ok n -> encodes T_node (node_val n) (enc_node n).
Proof.
  intros (Hi & Hu & Ht & Hb & Hl). constructor; [done|]. rewrite <- (app_nil_r (enc_string (rn_ID n))).
  repeat (apply ef_cons; [|..|done]); [by constructor|by apply enc_u16..|by constructor|constructor].
Qed.
Lemma nodes_encode ns : Forall rn_ok ns -> enc_elems T_node (node_val <$> ns) (concat (enc_node <$> ns)).
Proof. induction 1; simpl; constructor; [by apply node_encodes|done]. Qed.
Lemma rest_elems l : rest_ok (Some l) -> enc_elems TRaw (VBytes <$> l) (concat l).
Proof.
  intros Hl. unfold rest_ok in Hl. simpl in Hl. induction Hl as [|b l (Hb & k & c & Hf) _ IH]; simpl; constructor.
  - by eapply e_raw.
  - done.
Qed.
Lemma rest_encodes l : rest_ok (Some l) -> enc_fields [F_rest] [rest_val (Some l)] (concat l).
Proof. intros Hl. apply ef_tail; [done|]. by apply rest_elems. Qed.
Lemma seq_encodes s r :
  is_u64 s -> rest_ok r ->
  enc_fields [(TUint 8, true); F_rest] [VInt s; rest_val (if s =? 0 then r else Some (default [] r))] (enc_seq s r).
Proof.
  intros Hs Hr. assert (Hc : forall l, rest_ok (Some l) ->
    enc_fields [(TUint 8, true); F_rest] [VInt s; rest_val (Some l)] (enc_nat s ++ concat l)).
  { intros l Hl. apply ef_cons; [by apply enc_u64|by apply rest_encodes|]. intros _. simpl. by rewrite andb_false_r. }
  unfold enc_seq. destruct r as [l|]; [destruct (s =? 0); by apply Hc|].
  destruct (Z.eqb_spec s 0) as [->|]; [by apply (ef_omit (TUint 8) [F_rest])|].
  rewrite <- (app_nil_r (enc_nat s)). by apply Hc.
Qed.
Definition enr_response (p : Packet) : bool := match p with ENRResponse _ _ _ => true | _ => false end.
Lemma packet_encodes p :
  packet_ok p -> enr_response p = false ->
  encodes (TStruct (packet_val p).1) (VStruct (packet_val (received p)).2) (packet_enc p).
Proof.
  destruct p as [v f t e s r|t tok e s r|t e r|ns e r|e r|]; intros Hok Hn; [..|done];
    cbn [packet_ok packet_val received fst snd] in *; (constructor; [done|]); cbn [packet_content]; unfold enc_rest.
  - destruct Hok as (Hv & Hf & Ht & He & Hs & Hr).
    repeat (apply ef_cons; [|..|done]); [by apply enc_u64|by apply endpoint_encodes..|by apply enc_u64|by apply seq_encodes].
  - destruct Hok as (Ht & Htok & He & Hs & Hr).
    apply ef_cons; [by apply endpoint_encodes| |done]. apply ef_cons; [by constructor| |done].
    apply ef_cons; [by apply enc_u64|by apply seq_encodes|done].
  - destruct Hok as (Ht & Hl & He & Hr). apply ef_cons; [by constructor| |done].
    apply ef_cons; [by apply enc_u64|by apply rest_encodes|done].
  - destruct Hok as (Hns & He & Hr). apply ef_cons; [|apply ef_cons; [by apply enc_u64|by apply rest_encodes|done]|done].
    constructor; [done|]. by apply nodes_encode.
  - destruct Hok as (He & Hr). apply ef_cons; [by apply enc_u64|by apply rest_encodes|done].
Qed.
Lemma EncodePacket_received p : EncodePacket (received p) = EncodePacket p.
Proof.
  destruct p as [v f t e s r|t tok e s r|t e r|ns e r|e r|tok rec r]; try (by destruct r).
  - destruct r as [l|]; simpl received; destruct (Z.eqb_spec s 0) as [|Hs]; try done.
    unfold EncodePacket, EncodeToBytes. rewrite !writer_struct. unfold packet_val, fst, snd.
    assert (W : forall x, written [VInt v; endpoint_val f; endpoint_val t; VInt e; VInt s; x] F_ping
      = if isZero x (TTail TRaw) then 5%nat else 6%nat).
    { intros x. unfold written, zeros. simpl. destruct (Z.eqb_spec s 0); [done|]. by destruct (isZero x (TTail TRaw)). }
    by rewrite !W.
  - destruct r as [l|]; simpl received; destruct (Z.eqb_spec s 0) as [|Hs]; try done.
    unfold EncodePacket, EncodeToBytes. rewrite !writer_struct. unfold packet_val, fst, snd.
    assert (W : forall x, written [endpoint_val t; VBytes tok; VInt e; VInt s; x] F_pong
      = if isZero x (TTail TRaw) then 4%nat else 5%nat).
    { intros x. unfold written, zeros. simpl. destruct (Z.eqb_spec s 0); [done|]. by destruct (isZero x (TTail TRaw)). }
    by rewrite !W.
Qed.
Lemma enrResponse_written tok rec r :
  is_Some (signature rec) -> rest_ok r ->
  written_as (in_list (fun w => match EncodeRLP rec with inl e => inl e | inr raw => write_rest r (Write raw (writeBytes tok w)) end))
    (packet_enc (ENRResponse tok rec r)).
Proof.
  intros [sig Hsig] Hr. apply written_in_list. intros Hl w. unfold EncodeRLP. rewrite Hsig, writeBytes_enc. unfold Write.
  cbn [packet_content] in *. apply written_app_l in Hl as [_ Hl]. apply written_app_l in Hl as [_ Hl].
  set (w1 := append (raw rec) (append (enc_string tok) w)).
  assert (W1 : writes w w1 (enc_string tok ++ raw rec)).
  { eapply writes_trans; apply writes_append. }
  assert (exists w', write_rest r w1 = inr w' /\ writes w1 w' (enc_rest r)) as (w' & E & W2).
  { unfold write_rest, enc_rest in *. destruct r as [l|]; [|exists w1; split; [done|apply writes_refl]].
    unfold rest_val. rewrite writer_tail. apply (proj1 (proj2 writer_refines) TRaw); [by apply rest_elems|done]. }
  exists w'. split; [done|]. rewrite app_assoc. by eapply writes_trans.
Qed.
(** Packets are encoded in the specified form. *)
Lemma EncodePacket_spec p : packet_ok p -> len (packet_enc p) < 2 ^ 64 -> EncodePacket p = inr (packet_enc p).
Proof.
  intros Hok Hl. destruct (enr_response p) eqn:E.
  - destruct p as [| | | | |tok rec r]; try done. destruct Hok as (Htok & Hw & Hs & Hr).
    destruct (enrResponse_written tok rec r Hs Hr Hl empty_buffer) as (w & Ew & Hwr).
    apply writes_makeBytes in Hwr as (Hm & _ & _). unfold EncodePacket, encode_enrResponse. unfold in_list in Ew.
    destruct (list_ empty_buffer) as [off w0]. cbn [fst snd] in Ew. destruct (EncodeRLP rec) as [e|raw]; [done|].
    destruct (write_rest r (Write raw (writeBytes tok w0))) as [e|w1]; [done|]. injection Ew as <-. by rewrite Hm.
  - rewrite <- EncodePacket_received. pose proof (packet_encodes p Hok E) as He.
    destruct p; try done; by apply encode_exact.
Qed.

(** ** Decoding *)
Lemma bytes_val (l : list (list Z)) : val_bytes <$> (VBytes <$> l) = l.
Proof. rewrite <- list_fmap_compose. apply list_fmap_id. Qed.
Lemma val_rest_val r : val_rest (rest_val r) = r.
Proof. destruct r as [l|]; [|done]. cbn [rest_val val_rest]. by rewrite bytes_val. Qed.
Lemma val_nodes_val ns : val_nodes (VList (node_val <$> ns)) = ns.
Proof.
  change (val_node <$> (node_val <$> ns) = ns). rewrite <- list_fmap_compose. rewrite <- (list_fmap_id ns) at 2.
  apply list_fmap_ext. by intros i [].
Qed.
Lemma val_endpoint_val e : val_endpoint (endpoint_val e) = e.
Proof. by destruct e. Qed.
Lemma decode_as_reads fs to vs o p :
  encodes (TStruct fs) (VStruct vs) o -> len o < 2 ^ 64 -> to vs = Some p -> reads (decode_as fs to) o p.
Proof.
  intros He Hl Hto. unfold decode_as. rewrite <- (app_nil_r o).
  eapply reads_bind; [by eapply reads_from_reads, (proj1 decoder_reads)|]. cbv iota. rewrite Hto. apply reads_ret.
Qed.
Lemma enrResponse_reads tok rec r :
  packet_ok (ENRResponse tok rec r) -> len (packet_enc (ENRResponse tok rec r)) < 2 ^ 64 ->
  reads decode_enrResponse (packet_enc (ENRResponse tok rec r)) (ENRResponse tok rec (Some (default [] r))).
Proof.
  intros (Htok & Hw & Hs & Hr) Hl. pose proof (enc_list_content _ Hl) as Hc. cbn [packet_content] in Hc.
  pose proof Hc as Hc0. apply written_app_l in Hc0 as [H1 H2]. apply written_app_l in H2 as [H2 H3].
  apply (reads_ext (sz ← wrap List;
    x ← (tok ← eol_as too_few (wrap Bytes); rec ← eol_as too_few decodeRecord; r ← decodeSliceElems (decode TRaw);
         mret (ENRResponse tok rec (Some (val_bytes <$> r))));
    wrap ListEnd ;; mret (id x))).
  { intros s. unfold decode_enrResponse, mbind, M_bind. destruct (wrap List s) as [[e|sz] s1]; [done|].
    destruct (eol_as too_few (wrap Bytes) s1) as [[e|tok'] s2]; [done|].
    destruct (eol_as too_few decodeRecord s2) as [[e|rec'] s3]; [done|].
    by destruct (decodeSliceElems (decode TRaw) s3) as [[e|r'] s4]. }
  apply (reads_List (wrap List) (wrap ListEnd) (fun _ => _) id); [apply extends_wrap..|done|]. cbn [packet_content].
  eapply reads_in_bind.
  { eapply reads_extends; [apply extends_eol_as|]. eapply reads_extends; [apply extends_wrap|].
    apply reads_Bytes; [done|]. pose proof (enc_string_len tok). lia. }
  eapply reads_in_bind; [eapply reads_extends; [apply extends_eol_as|]; by apply decodeRecord_reads|].
  assert (Hd : reads_in (decodeSliceElems (decode TRaw)) (enc_rest r) (VBytes <$> default [] r)).
  { unfold enc_rest in *. destruct (proj1 (proj2 decoder_reads) TRaw _ _ (rest_elems (default [] r) Hr) H3) as (os & -> & Hos).
    apply decodeSliceElems_reads; [by apply eol_decode|done]. }
  apply (reads_in_map _ (fun r => ENRResponse tok rec (Some (val_bytes <$> r)))) in Hd.
  by rewrite bytes_val in Hd.
Qed.
(** The decoder for the type of a packet reads its encoding. *)
Lemma packet_reads p :
  packet_ok p -> len (packet_enc p) < 2 ^ 64 ->
  exists dec, decode_packet (Kind_of p) = Some dec /\ reads dec (packet_enc p) (received p).
Proof.
  intros Hok Hl. destruct (enr_response p) eqn:E.
  { destruct p as [| | | | |tok rec r]; try done. eexists. split; [done|]. by apply enrResponse_reads. }
  pose proof (packet_encodes p Hok E) as He.
  destruct p as [v f t e s r|t tok e s r|t e r|ns e r|e r|]; [..|done]; (eexists; split; [done|]);
    (eapply decode_as_reads; [exact He|done|]); cbn [packet_val received fst snd];
    unfold to_ping, to_pong, to_findnode, to_neighbors, to_enrRequest;
    by rewrite ?val_rest_val, ?val_nodes_val, ?val_endpoint_val.
Qed.

(** ** Framing *)
Lemma copy_all dst src : (length dst <= length src)%nat -> copy dst src = take (length dst) src.
Proof. intros Hl. unfold copy. by rewrite (drop_ge dst), app_nil_r. Qed.
Lemma copy_app dst rest src : length src = length dst -> copy (dst ++ rest) src = src ++ rest.
Proof.
  intros Hl. unfold copy. rewrite length_app, take_ge by lia. f_equal. rewrite Hl. apply drop_app_length.
Qed.

Section framing.
Context `{C : Crypto} {Laws : CryptoLaws C}.

Definition signed_part (k : PrivateKey) (p : Packet) (sig : list Z) : list Z := sig ++ Kind_of p :: packet_enc p.
(** A packet is its hash, its signature, its type and its body. *)
Lemma Encode_layout k p :
  packet_ok p -> len (packet_enc p) < 2 ^ 64 ->
  Encode k p = match Sign (Keccak256 (Kind_of p :: packet_enc p)) k with
               | None => inl errSigning
               | Some sig => let hash := Keccak256 (signed_part k p sig) in inr (hash ++ signed_part k p sig, hash)
               end.
Proof.
  intros Hok Hl. unfold Encode. rewrite EncodePacket_spec by done.
  set (data := Kind_of p :: packet_enc p).
  assert (Hz : replicate headSize 0 = replicate macSize 0 ++ replicate sigSize 0) by done.
  rewrite (drop_app_length' (replicate headSize 0)) by done.
  destruct (Sign (Keccak256 data) k) as [sig|] eqn:Es; [|done]. destruct (Sign_len _ _ _ Es) as [Hsl _].
  rewrite Hz, <- !app_assoc. rewrite take_app_length' by done. rewrite drop_app_length' by done.
  rewrite (copy_app (replicate sigSize 0) data sig) by (by rewrite Hsl). rewrite drop_app_length' by done. cbv zeta. fold data (signed_part k p sig).
  by rewrite copy_app by (by rewrite Keccak256_len).
Qed.

(** C30.  Decoding what was encoded gives the packet, the key of its sender and its
    hash.  Encoding only fails when there is no signature. *)
Theorem wire_roundtrip k p :
  packet_ok p -> len (packet_enc p) < 2 ^ 63 ->
  match Encode k p with
  | inl e => e = errSigning
  | inr (packet, hash) =>
      len packet = Z.of_nat headSize + 1 + len (packet_enc p)
      /\ Decode packet = inr (received p, EncodePubkey (public k), hash)
  end.
Proof.
  intros Hok Hl. rewrite Encode_layout by (done || lia).
  set (data := Kind_of p :: packet_enc p). destruct (Sign (Keccak256 data) k) as [sig|] eqn:Es; [|done]. cbv zeta.
  set (sp := signed_part k p sig). destruct (Sign_len _ _ _ Es) as [Hsl _].
  pose proof (Keccak256_len sp) as Hh.
  assert (Hlen : len (Keccak256 sp ++ sp) = Z.of_nat headSize + 1 + len (packet_enc p)).
  { rewrite len_app. unfold sp, signed_part. rewrite len_app, len_cons. unfold len at 1 2. rewrite Hsl.
    fold (signed_part k p sig). rewrite Keccak256_len. unfold headSize, macSize, sigSize. lia. }
  split; [done|]. unfold Decode. rewrite Hlen. pose proof (len_nonneg (packet_enc p)).
  destruct (Z.ltb_spec (Z.of_nat headSize + 1 + len (packet_enc p)) (Z.of_nat headSize + 1)); [lia|].
  rewrite take_app_length' by done. rewrite (drop_app_length' (Keccak256 sp)) by done.
  rewrite bool_decide_eq_true_2 by done. cbn [negb].
  assert (E1 : take sigSize sp = sig) by (apply take_app_length'; by rewrite Hsl).
  assert (E2 : drop headSize (Keccak256 sp ++ sp) = data).
  { rewrite drop_app_ge by (rewrite Hh; unfold headSize, macSize, sigSize; lia). rewrite Hh. apply drop_app_length'. by rewrite Hsl. }
  rewrite E1, E2. unfold recoverNodeKey. rewrite (Sign_recover _ _ _ Es). cbn [mbind option_bind drop].
  rewrite drop_0, copy_all by (by rewrite length_replicate, pubkey_bytes_len).
  rewrite length_replicate, take_ge by (by rewrite pubkey_bytes_len). unfold data.
  destruct (packet_reads p Hok ltac:(lia)) as (dec & -> & Hr).
  destruct (Hr (NewStream (packet_enc p) 0) []) as (s & -> & _); [done|by rewrite app_nil_r| |done].
  split; [done|]. intros _. simpl. lia.
Qed.

(** ** Packet sizes *)
Definition maxPacketSize : Z := 1280.

Lemma headsize_le n m : 0 <= n < 2 ^ (8 * m) -> 0 <= m <= 8 -> headsize n <= 1 + m.
Proof.
  intros Hn Hm. unfold headsize. destruct (Z.ltb_spec n 56); [lia|]. rewrite intsize_nbytes.
  - pose proof (nbytes_le n m ltac:(lia) Hn). lia.
  - split; [lia|]. eapply Z.lt_le_trans; [apply Hn|]. apply Z.pow_le_mono_r; lia.
Qed.
Lemma enc_string_le b m : len b < 2 ^ (8 * m) -> 0 <= m <= 8 -> len (enc_string b) <= 1 + m + len b.
Proof.
  intros Hb Hm. pose proof (len_nonneg b). pose proof (headsize_le (len b) m ltac:(lia) Hm).
  assert (2 ^ (8 * m) <= 2 ^ 64) by (apply Z.pow_le_mono_r; lia).
  unfold enc_string. destruct b as [|x [|y l]]; [rewrite len_app, puthead_len; lia| |rewrite len_app, puthead_len; lia].
  destruct (x <=? 127); [lia|]. rewrite len_app, puthead_len by lia. change (headsize 1) with 1. lia.
Qed.
Lemma enc_list_le b n m : len b <= n -> n < 2 ^ (8 * m) -> 0 <= m <= 7 -> len (enc_list b) <= 1 + m + n.
Proof.
  intros Hb Hn Hm. pose proof (len_nonneg b). pose proof (headsize_le (len b) m ltac:(lia) ltac:(lia)).
  assert (2 ^ (8 * m) <= 2 ^ 64) by (apply Z.pow_le_mono_r; lia). unfold enc_list. rewrite len_app, puthead_len; lia.
Qed.
Lemma enc_nat_le z m : 0 <= z < 2 ^ (8 * m) -> 0 <= m <= 8 -> len (enc_nat z) <= 1 + m.
Proof.
  intros Hz Hm. unfold enc_nat. pose proof (nbytes_le z m ltac:(lia) Hz).
  pose proof (nbytes_len z) as Hn. unfold enc_string. destruct (be (nbytes z) z) as [|x [|y l]] eqn:Eb.
  - change (len _) with 1. lia.
  - destruct (x <=? 127); [rewrite len_cons, len_nil; lia|]. rewrite len_app, puthead_len by lia. change (headsize 1) with 1.
    rewrite len_cons, len_nil in *. lia.
  - rewrite len_app, Hn, puthead_len by lia. unfold headsize.
    destruct (Z.ltb_spec (Z.of_nat (nbytes z)) 56); lia.
Qed.
Lemma enc_node_le n : rn_ok n -> len (rn_IP n) <= 16 -> len (enc_node n) <= 92.
Proof.
  intros (Hi & Hu & Ht & Hb & Hl) Hip. pose proof (enc_string_le (rn_IP n) 1 ltac:(lia) ltac:(lia)).
  pose proof (enc_nat_le (rn_UDP n) 2 Hu ltac:(lia)). pose proof (enc_nat_le (rn_TCP n) 2 Ht ltac:(lia)).
  assert (H64 : len (rn_ID n) = 64) by (unfold len; lia).
  pose proof (enc_string_le (rn_ID n) 1 ltac:(lia) ltac:(lia)).
  etrans; [apply (enc_list_le _ 90 1); [rewrite !len_app; lia|lia..]|lia].
Qed.
Lemma enc_nodes_le ns :
  Forall (fun n => rn_ok n /\ len (rn_IP n) <= 16) ns -> len (concat (enc_node <$> ns)) <= 92 * len ns.
Proof.
  induction 1 as [|n ns [Hn Hip] _ IH]; [done|]. rewrite fmap_cons. cbn [concat]. rewrite len_app, len_cons.
  pose proof (enc_node_le n Hn Hip). lia.
Qed.
Lemma neighbors_size ns e :
  Forall (fun n => rn_ok n /\ len (rn_IP n) <= 16) ns -> is_u64 e -> len ns <= MaxNeighbors ->
  Z.of_nat headSize + 1 + len (packet_enc (Neighbors ns e None)) <= maxPacketSize.
Proof.
  intros Hns He Hl. pose proof (enc_nodes_le ns Hns). unfold MaxNeighbors in Hl.
  pose proof (enc_list_le _ 1104 2 ltac:(etrans; [exact H|lia]) ltac:(lia) ltac:(lia)) as H1.
  pose proof (enc_nat_le e 8 He ltac:(lia)) as H2.
  pose proof (enc_list_le (packet_content (Neighbors ns e None)) 1116 2) as H3. cbn [packet_content] in H3.
  unfold enc_rest in H3. cbn [default concat] in H3. rewrite app_nil_r, len_app in H3. specialize (H3 ltac:(lia) ltac:(lia) ltac:(lia)).
  unfold packet_enc. cbn [packet_content]. unfold enc_rest. cbn [default concat]. rewrite app_nil_r.
  unfold headSize, macSize, sigSize, maxPacketSize. lia.
Qed.
End framing.

Definition sample_ping : Packet :=
  Ping 4 (mk_Endpoint [10; 0; 0; 1] 30303 30303) (mk_Endpoint [10; 0; 0; 2] 30303 0) 1700000000 7 None.
Lemma sample_ping_ok : packet_ok sample_ping.
Proof. repeat split; try (simpl; lia); repeat constructor; unfold is_byte; lia. Qed.
Lemma wire_roundtrip_witness :
  exists packet hash, Encode (C:=sample_crypto) 5 sample_ping = inr (packet, hash)
    /\ Decode packet = inr (received sample_ping, EncodePubkey (public (Crypto:=sample_crypto) 5), hash).
Proof.
  pose proof (wire_roundtrip (C:=sample_crypto) 5 sample_ping sample_ping_ok ltac:(vm_compute; reflexivity)) as H.
  destruct (Encode (C:=sample_crypto) 5 sample_ping) as [e|[packet hash]] eqn:E; [vm_compute in E; discriminate E|].
  exists packet, hash. split; [reflexivity|]. exact (proj2 H).
Defined.
(** One node more would not fit. *)
Example max_neighbors_tight :
  let n := mk_rpcNode (replicate 16 255) 65535 65535 (replicate 64 255) in
  1280 < Z.of_nat headSize + 1 + len (packet_enc (Neighbors (replicate 13 n) (2 ^ 64 - 1) None)).
Proof. vm_compute. reflexivity. Qed.
End V4WireProps.
