(* ===== verification/NodeDB.v ===== *)
(** * The node database (src/p2p/enode/nodedb.go)

    What is known of other nodes, in a key-value store: their records, and per
    address the times of the last ping and pong and the number of failures.
    The store (LevelDB) is the interface [KVStore]; its I/O errors are left out.
    Times are nanoseconds since 1970. *)

From stdpp Require Import base gmap list numbers strings sorting.
From Stdlib Require Import ZArith Lia.
From S2P Require Import Prelude Bytes Rlp RlpStream RlpTypes NetUtil NodeID Enr.

Module NodeDB.
Import Rlp RlpStream RlpTypes NetUtil Enr NodeID.

(** ** The store *)
Class KVStore : Type := {
  store : Type;
  Get : store -> list Z -> option (list Z);
  Put : store -> list Z -> list Z -> store;
  Delete : store -> list Z -> store;
  Iterator : store -> list (list Z * list Z);
}.
Class KVLaws (S : KVStore) : Prop := {
  Get_Put db k v k' : Get (Put db k v) k' = if decide (k = k') then Some v else Get db k';
  Get_Delete db k k' : Get (Delete db k) k' = if decide (k = k') then None else Get db k';
  Iterator_sorted db : StronglySorted (fun p q => str_lt p.1 q.1 = true) (Iterator db);
  Iterator_Get db k v : (k, v) ∈ Iterator db <-> Get db k = Some v;
}.

(** ** Integers (encoding/binary) *)
Fixpoint put_uvarint (fuel : nat) (x : Z) : list Z :=
  match fuel with
  | O => []
  | S f => if 0x80 <=? x then Z.lor (byte x) 0x80 :: put_uvarint f (Z.shiftr x 7) else [byte x]
  end.
(** A uint64 has at most ten groups of seven bits. *)
Definition PutUvarint (x : Z) : list Z := put_uvarint 10 x.
(** The value, and the number of bytes read, or not positive. *)
Fixpoint uvarint (buf : list Z) (i x s : Z) : Z * Z :=
  match buf with
  | [] => (0, 0)
  | b :: buf =>
      if i =? 10 then (0, - (i + 1))
      else if b <? 0x80 then
        if ((i =? 9) && (1 <? b))%bool then (0, - (i + 1)) else (Z.lor x (u64 (Z.shiftl b s)), i + 1)
      else uvarint buf (i + 1) (Z.lor x (u64 (Z.shiftl (Z.land b 0x7f) s))) (s + 7)
  end.
Definition Uvarint (buf : list Z) : Z * Z := uvarint buf 0 0 0.
Definition PutVarint (x : Z) : list Z :=
  let ux := u64 (Z.shiftl (u64 x) 1) in
  PutUvarint (if x <? 0 then u64 (Z.lnot ux) else ux).
Definition Varint (buf : list Z) : Z * Z :=
  let '(ux, n) := Uvarint buf in
  let x := i64 (Z.shiftr ux 1) in
  (if negb (Z.land ux 1 =? 0) then Z.lnot x else x, n).

(** ** Keys *)
Definition dbNodePrefix : list Z := str_of "n:".
Definition dbLocalPrefix : list Z := str_of "local:".
Definition dbDiscoverRoot : list Z := str_of "v4".
Definition dbDiscv5Root : list Z := str_of "v5".
Definition dbNodeFindFails : list Z := str_of "findfail".
Definition dbNodePing : list Z := str_of "lastping".
Definition dbNodePong : list Z := str_of "lastpong".
Definition dbNodeSeq : list Z := str_of "seq".
Definition dbLocalSeq : list Z := str_of "seq".
Definition colon : Z := 58.
Definition zeroIP : IP := replicate 16 0.
Definition zeroID : ID := replicate 32 0.

(** bytes.Join with a colon. *)
Fixpoint Join (l : list (list Z)) : list Z :=
  match l with
  | [] => []
  | [x] => x
  | x :: l => x ++ colon :: Join l
  end.
Definition HasPrefix (s prefix : list Z) : bool := bool_decide (take (length prefix) s = prefix).

Definition nodeKey (id : ID) : list Z := dbNodePrefix ++ id ++ colon :: dbDiscoverRoot.
(** The key of an item has at least the length of a node key. *)
Definition splitNodeKey (key : list Z) : ID * list Z :=
  if negb (HasPrefix key dbNodePrefix) then (zeroID, [])
  else
    let item := drop (length dbNodePrefix) key in
    (take 32 item, drop 33 item).
Definition nodeItemKey (id : ID) (ip : IP) (field : list Z) : outcome (list Z) :=
  match To16 ip with
  | None => Panic "invalid IP"
  | Some ip16 => Done (Join [nodeKey id; ip16; field])
  end.
Definition splitNodeItemKey (key : list Z) : ID * IP * list Z :=
  let '(id, key) := splitNodeKey key in
  if decide (key = dbDiscoverRoot) then (id, [], [])
  else
    let key := drop (length dbDiscoverRoot + 1) key in
    let ip := take 16 key in
    (id, default ip (To4 ip), drop 17 key).
Definition v5Key (id : ID) (ip : IP) (field : list Z) : list Z :=
  Join [dbNodePrefix; id; dbDiscv5Root; default [] (To16 ip); field].
Definition localItemKey (id : ID) (field : list Z) : list Z := dbLocalPrefix ++ id ++ colon :: field.

Section db.
Context `{S : KVStore}.

Definition fetchInt64 (db : store) (key : list Z) : Z :=
  match Get db key with
  | None => 0
  | Some blob => let '(v, read) := Varint blob in if read <=? 0 then 0 else v
  end.
Definition storeInt64 (db : store) (key : list Z) (n : Z) : store := Put db key (PutVarint n).
Definition fetchUint64 (db : store) (key : list Z) : Z :=
  match Get db key with
  | None => 0
  | Some blob => (Uvarint blob).1
  end.
Definition storeUint64 (db : store) (key : list Z) (n : Z) : store := Put db key (PutUvarint n).

(** ** Per address *)
(** time.Unix(sec, 0), and time.Time{}. *)
Definition unixToInternal : Z := 62135596800.
Definition unix_time (sec : Z) : Z := (i64 (sec + unixToInternal) - unixToInternal) * 10 ^ 9.
Definition zero_time : Z := - unixToInternal * 10 ^ 9.
Definition Unix (t : Z) : Z := t / 10 ^ 9.
(** now.Sub(t): a Duration saturates. *)
Definition Sub (t u : Z) : Z := Z.max (- 2 ^ 63) (Z.min (2 ^ 63 - 1) (t - u)).

(** An item of a node; [To16] is applied by the callers, so the key exists. *)
Definition fetch_item (db : store) (id : ID) (ip16 : IP) (field : list Z) : Z :=
  match nodeItemKey id ip16 field with Done k => fetchInt64 db k | _ => 0 end.
Definition store_item (db : store) (id : ID) (ip16 : IP) (field : list Z) (n : Z) : store :=
  match nodeItemKey id ip16 field with Done k => storeInt64 db k n | _ => db end.
Definition fetch_time (field : list Z) (db : store) (id : ID) (ip : IP) : Z :=
  match To16 ip with
  | None => zero_time
  | Some ip => unix_time (fetch_item db id ip field)
  end.
Definition update_time (field : list Z) (db : store) (id : ID) (ip : IP) (instance_ : Z) : store :=
  match To16 ip with
  | None => db
  | Some ip => store_item db id ip field (Unix instance_)
  end.
Definition LastPingReceived := fetch_time dbNodePing.
Definition UpdateLastPingReceived := update_time dbNodePing.
Definition LastPongReceived := fetch_time dbNodePong.
Definition UpdateLastPongReceived := update_time dbNodePong.
Definition FindFails (db : store) (id : ID) (ip : IP) : Z :=
  match To16 ip with
  | None => 0
  | Some ip => fetch_item db id ip dbNodeFindFails
  end.
Definition UpdateFindFails (db : store) (id : ID) (ip : IP) (fails : Z) : store :=
  match To16 ip with
  | None => db
  | Some ip => store_item db id ip dbNodeFindFails fails
  end.
Definition FindFailsV5 (db : store) (id : ID) (ip : IP) : Z :=
  match To16 ip with
  | None => 0
  | Some ip => fetchInt64 db (v5Key id ip dbNodeFindFails)
  end.
Definition UpdateFindFailsV5 (db : store) (id : ID) (ip : IP) (fails : Z) : store :=
  match To16 ip with
  | None => db
  | Some ip => storeInt64 db (v5Key id ip dbNodeFindFails) fails
  end.

(** ** Records *)
Definition mustDecodeNode (id data : list Z) : outcome Node :=
  match DecodeBytesWith decodeRecord data with
  | inl _ => Panic "can't decode node in DB"
  | inr r => Done (mk_Node r id)
  end.
Definition Node_ (db : store) (id : ID) : outcome (option Node) :=
  match Get db (nodeKey id) with
  | None => Done None
  | Some blob => n ← mustDecodeNode id blob; Done (Some n)
  end.
Definition seq_key (id : ID) : list Z := Join [nodeKey id; zeroIP; dbNodeSeq].
Definition NodeSeq (db : store) (id : ID) : Z := fetchUint64 db (seq_key id).
Definition UpdateNode (db : store) (n : Node) : rlpErr + store :=
  if seq (node_r n) <? NodeSeq db (node_id n) then inr db
  else
    match EncodeRLP (node_r n) with
    | inl e => inl e
    | inr blob => inr (storeUint64 (Put db (nodeKey (node_id n)) blob) (seq_key (node_id n)) (seq (node_r n)))
    end.
Definition Resolve (db : store) (n : Node) : outcome (option Node) :=
  if NodeSeq db (node_id n) <? seq (node_r n) then Done (Some n) else Node_ db (node_id n).

Definition with_prefix (prefix : list Z) (l : list (list Z * list Z)) : list (list Z * list Z) :=
  List.filter (fun p => HasPrefix p.1 prefix) l.
Definition deleteRange (db : store) (prefix : list Z) : store :=
  foldl (fun db p => Delete db p.1) db (with_prefix prefix (Iterator db)).
Definition DeleteNode (db : store) (id : ID) : store := deleteRange db (nodeKey id).

(** ** Expiry *)
Definition dbNodeExpiration : Z := 24 * 3600 * 10 ^ 9.
(** The loop over the entries that were there when it began. *)
Fixpoint expire_loop (threshold : Z) (l : list (list Z * list Z)) (youngestPong : Z) (db : store) : store :=
  match l with
  | [] => db
  | (key, value) :: l =>
      let '(id, ip, field) := splitNodeItemKey key in
      let '(youngestPong, db) :=
        if decide (field = dbNodePong) then
          let time := (Varint value).1 in
          (if youngestPong <? time then time else youngestPong,
           if time <? threshold then
             match nodeItemKey id ip [] with Done k => deleteRange db k | _ => db end
           else db)
        else (youngestPong, db) in
      let nextID := match l with [] => zeroID | (k, _) :: _ => (splitNodeKey k).1 end in
      if (bool_decide (l = []) || bool_decide (nextID <> id))%bool then
        expire_loop threshold l 0
          (if ((0 <? youngestPong) && (youngestPong <? threshold))%bool then deleteRange db (nodeKey id) else db)
      else expire_loop threshold l youngestPong db
  end.
Definition expireNodes (db : store) (now : Z) : store :=
  expire_loop (Unix (now - dbNodeExpiration)) (with_prefix dbNodePrefix (Iterator db)) 0 db.

(** ** The sequence number of the local record *)
Definition nowMilliseconds (now : Z) : Z := if now <? 0 then 0 else now / 1000 / 1000.
Definition localSeq (db : store) (id : ID) (now : Z) : Z :=
  let seq := fetchUint64 db (localItemKey id dbLocalSeq) in
  if 0 <? seq then seq else nowMilliseconds now.
Definition storeLocalSeq (db : store) (id : ID) (n : Z) : store := storeUint64 db (localItemKey id dbLocalSeq) n.
End db.
End NodeDB.
