(* ===== verification/NodeDBProps.v ===== *)
(** * The node database: properties

    The integer codec and the keys are injective, so the fields of a node are
    independent cells; expiry removes exactly what is old. *)

From stdpp Require Import base gmap list numbers strings sorting.
From Stdlib Require Import ZArith Lia.
From S2P Require Import Prelude Bytes Rlp RlpProps RlpStream RlpTypes NetUtil Enr EnrProps NodeID NodeDB.

Module NodeDBProps.
Import Rlp RlpProps RlpStream RlpTypes NetUtil Enr EnrProps NodeID NodeDB.

(** ** Integers *)
Lemma lor_shift a x s : 0 <= s -> 0 <= a < 2 ^ s -> Z.lor a (Z.shiftl x s) = a + x * 2 ^ s.
Proof. intros Hs Ha. rewrite Z.lor_comm, lor_add by done. lia. Qed.
Lemma group_bits b : is_byte b -> Z.land (Z.lor b 0x80) 0x7f = b mod 128 /\ 128 <= Z.lor b 0x80.
Proof.
  intros Hb. assert (Hall : Forall (fun n => Z.land (Z.lor (Z.of_nat n) 0x80) 0x7f = Z.of_nat n mod 128 /\ 128 <= Z.lor (Z.of_nat n) 0x80) (List.seq 0 256)).
  { apply (bool_decide_unpack _). vm_compute. exact I. }
  rewrite Forall_forall in Hall. specialize (Hall (Z.to_nat b)). unfold is_byte in Hb. rewrite Z2Nat.id in Hall by lia.
  apply Hall, elem_of_seq. lia.
Qed.
Lemma low_bits x : Z.land (Z.lor (byte x) 0x80) 0x7f = x mod 128 /\ 128 <= Z.lor (byte x) 0x80.
Proof.
  destruct (group_bits (byte x) (byte_range x)) as [H1 H2]. split; [|done]. rewrite H1. unfold byte.
  apply Z.mod_mod_divide. by exists 2.
Qed.
Lemma put_uvarint_S f x :
  put_uvarint (S f) x = if 0x80 <=? x then Z.lor (byte x) 0x80 :: put_uvarint f (Z.shiftr x 7) else [byte x].
Proof. done. Qed.
Lemma uvarint_put f i a x :
  Z.of_nat f + i = 10 -> (1 <= f)%nat -> 0 <= i -> 0 <= a < 2 ^ (7 * i) -> 0 <= x -> x * 2 ^ (7 * i) < 2 ^ 64 ->
  uvarint (put_uvarint f x) i a (7 * i) = (a + x * 2 ^ (7 * i), i + len (put_uvarint f x)).
Proof.
  revert i a x. induction f as [|f IH]; intros i a x Hf Hf1 Hi Ha Hx Hlt; [lia|]. rewrite put_uvarint_S.
  destruct (Z.leb_spec 0x80 x) as [Hbig|Hsmall].
  - destruct (low_bits x) as [Hlow Hge]. cbn [uvarint].
    assert (Hi9 : i < 9).
    { destruct (Z.lt_ge_cases i 9); [done|]. assert (2 ^ 63 <= 2 ^ (7 * i)) by (apply Z.pow_le_mono_r; lia). nia. }
    destruct (Z.eqb_spec i 10); [lia|]. destruct (Z.ltb_spec (Z.lor (byte x) 128) 128); [lia|]. rewrite Hlow.
    pose proof (Z.mod_pos_bound x 128 ltac:(lia)). assert (Hp : 0 < 2 ^ (7 * i)) by (apply Z.pow_pos_nonneg; lia).
    pose proof (Z.div_mod x 128 ltac:(lia)) as Hdm.
    rewrite u64_small by (unfold is_u64; rewrite Z.shiftl_mul_pow2 by lia; nia). rewrite lor_shift by lia.
    rewrite Z.shiftr_div_pow2 by lia. change (2 ^ 7) with 128.
    replace (7 * i + 7) with (7 * (i + 1)) by lia.
    assert (E : 2 ^ (7 * (i + 1)) = 128 * 2 ^ (7 * i)) by (rewrite Z.mul_add_distr_l, Z.pow_add_r by lia; change (2 ^ (7 * 1)) with 128; lia).
    pose proof (Z.div_pos x 128 Hx ltac:(lia)).
    rewrite IH; [|lia|lia|lia|rewrite E; nia|lia|rewrite E; nia]. rewrite E, len_cons. f_equal; [nia|lia].
  - cbn [uvarint]. rewrite byte_small by (unfold is_byte; lia). destruct (Z.eqb_spec i 10); [lia|].
    destruct (Z.ltb_spec x 128); [|lia]. assert (Hp : 0 < 2 ^ (7 * i)) by (apply Z.pow_pos_nonneg; lia).
    replace ((i =? 9) && (1 <? x))%bool with false.
    + rewrite u64_small by (unfold is_u64; rewrite Z.shiftl_mul_pow2 by lia; nia). by rewrite lor_shift by lia.
    + destruct (Z.eqb_spec i 9) as [->|]; [|done]. symmetry. apply Z.ltb_ge. change (2 ^ (7 * 9)) with (2 ^ 63) in Hlt. lia.
Qed.
Lemma Uvarint_put x : is_u64 x -> Uvarint (PutUvarint x) = (x, len (PutUvarint x)).
Proof.
  intros [H0 H1]. pose proof (uvarint_put 10 0 0 x ltac:(lia) ltac:(lia) ltac:(lia) ltac:(simpl; lia) H0 ltac:(simpl; lia)) as H.
  change (7 * 0) with 0 in H. unfold Uvarint, PutUvarint. rewrite H. f_equal. simpl. lia.
Qed.
Lemma PutUvarint_len x : 1 <= len (PutUvarint x).
Proof.
  unfold PutUvarint. change 10%nat with (S 9). rewrite put_uvarint_S. pose proof (len_nonneg (put_uvarint 9 (Z.shiftr x 7))).
  destruct (0x80 <=? x); rewrite len_cons; [lia|]. rewrite len_nil. lia.
Qed.
Lemma land_1 y : Z.land y 1 = y mod 2.
Proof. apply (Z.land_ones y 1). lia. Qed.
(** Storing an integer and reading it again. *)
Lemma Varint_put x : is_i64 x -> Varint (PutVarint x) = (x, len (PutVarint x)).
Proof.
  intros Hx. unfold is_i64 in Hx. unfold Varint, PutVarint. destruct (Z.ltb_spec x 0) as [Hn|Hn].
  - assert (E : u64 (Z.lnot (u64 (Z.shiftl (u64 x) 1))) = - 2 * x - 1).
    { rewrite Z.shiftl_mul_pow2 by lia. unfold u64. rewrite Zmult_mod_idemp_l.
      replace (x * 2 ^ 1) with ((2 * x + 2 ^ 64) + (-1) * 2 ^ 64) by lia. rewrite Z_mod_plus_full, (Z.mod_small (2 * x + 2 ^ 64)) by lia.
      unfold Z.lnot. replace (Z.pred (- (2 * x + 2 ^ 64))) with ((-2 * x - 1) + (-1) * 2 ^ 64) by lia.
      rewrite Z_mod_plus_full. apply Z.mod_small. lia. }
    rewrite E, Uvarint_put by (unfold is_u64; lia).
    assert (E1 : Z.shiftr (-2 * x - 1) 1 = - x - 1).
    { rewrite Z.shiftr_div_pow2 by lia. symmetry. apply (Z.div_unique _ _ _ 1); lia. }
    assert (E2 : Z.land (-2 * x - 1) 1 = 1).
    { rewrite land_1. symmetry. apply (Z.mod_unique _ _ (- x - 1)); lia. }
    rewrite E1, E2, i64_small by (unfold is_i64; lia). cbn [negb Z.eqb]. f_equal. unfold Z.lnot. lia.
  - assert (E : u64 (Z.shiftl (u64 x) 1) = 2 * x).
    { rewrite (u64_small x) by (unfold is_u64; lia). rewrite Z.shiftl_mul_pow2 by lia. rewrite u64_small by (unfold is_u64; lia). lia. }
    rewrite E, Uvarint_put by (unfold is_u64; lia).
    assert (E1 : Z.shiftr (2 * x) 1 = x).
    { rewrite Z.shiftr_div_pow2 by lia. symmetry. apply (Z.div_unique _ _ _ 0); lia. }
    assert (E2 : Z.land (2 * x) 1 = 0).
    { rewrite land_1. symmetry. apply (Z.mod_unique _ _ x); lia. }
    rewrite E1, E2, i64_small by (unfold is_i64; lia). done.
Qed.
Lemma PutVarint_len x : 1 <= len (PutVarint x).
Proof. apply PutUvarint_len. Qed.

(** ** Keys *)
Definition item_key (id : ID) (ip16 : IP) (field : list Z) : list Z := nodeKey id ++ colon :: ip16 ++ colon :: field.
Lemma nodeItemKey_item id ip ip16 field : To16 ip = Some ip16 -> nodeItemKey id ip field = Done (item_key id ip16 field).
Proof. intros E. unfold nodeItemKey. by rewrite E. Qed.
Lemma seq_key_item id : seq_key id = item_key id zeroIP dbNodeSeq.
Proof. done. Qed.
Lemma nodeKey_length id : length id = 32%nat -> length (nodeKey id) = 37%nat.
Proof. intros Hl. unfold nodeKey. rewrite !length_app. simpl. lia. Qed.
Lemma nodeKey_inj id id' a b : length id = 32%nat -> length id' = 32%nat -> nodeKey id ++ a = nodeKey id' ++ b -> id = id' /\ a = b.
Proof.
  intros H1 H2 E. apply app_inj_1 in E as [E ->]; [|by rewrite !nodeKey_length]. split; [|done]. unfold nodeKey in E.
  apply app_inj_1 in E as [_ E]; [|done]. by apply app_inj_1 in E as [E _]; [|congruence].
Qed.
Lemma item_key_inj id id' ip ip' f f' :
  length id = 32%nat -> length id' = 32%nat -> length ip = 16%nat -> length ip' = 16%nat ->
  item_key id ip f = item_key id' ip' f' -> id = id' /\ ip = ip' /\ f = f'.
Proof.
  intros H1 H2 H3 H4 E. unfold item_key in E. apply nodeKey_inj in E as [-> E]; [|done..]. injection E as E.
  apply app_inj_1 in E as [-> E]; [|congruence]. by injection E as ->.
Qed.
Lemma HasPrefix_app p rest : HasPrefix (p ++ rest) p = true.
Proof. apply bool_decide_eq_true_2. apply take_app_length. Qed.
Lemma splitNodeKey_node id rest : length id = 32%nat -> splitNodeKey (nodeKey id ++ rest) = (id, dbDiscoverRoot ++ rest).
Proof.
  intros Hl. unfold splitNodeKey, nodeKey. rewrite <- app_assoc, HasPrefix_app. cbn [negb]. rewrite drop_app_length.
  rewrite <- app_assoc. f_equal; [by apply take_app_length'|]. rewrite drop_app_ge by lia. rewrite Hl. done.
Qed.
(** The parts of a key are found again. *)
Lemma splitNodeItemKey_item id ip16 field :
  length id = 32%nat -> length ip16 = 16%nat ->
  splitNodeItemKey (item_key id ip16 field) = (id, default ip16 (To4 ip16), field).
Proof.
  intros Hl Hi. unfold splitNodeItemKey, item_key. rewrite splitNodeKey_node by done.
  rewrite decide_False by done. rewrite (drop_app_ge dbDiscoverRoot) by (simpl; lia).
  change (drop (length dbDiscoverRoot + 1 - length dbDiscoverRoot) (colon :: ip16 ++ colon :: field)) with (ip16 ++ colon :: field).
  rewrite take_app_length' by done. f_equal. rewrite drop_app_ge by lia. by rewrite Hi.
Qed.
Lemma To16_len ip ip16 : To16 ip = Some ip16 -> length ip16 = 16%nat.
Proof.
  unfold To16. case_bool_decide; [intros [= <-]; simpl; lia|]. case_bool_decide; [|done]. by intros [= <-].
Qed.
Lemma To16_idem ip ip16 : To16 ip = Some ip16 -> To16 ip16 = Some ip16.
Proof. intros Hl%To16_len. unfold To16. by rewrite bool_decide_eq_false_2, bool_decide_eq_true_2 by lia. Qed.

Section laws.
Context `{S : KVStore} {Laws : KVLaws S}.

Lemma fetch_store db k n k' : is_i64 n -> fetchInt64 (storeInt64 db k n) k' = if decide (k = k') then n else fetchInt64 db k'.
Proof.
  intros Hn. unfold fetchInt64, storeInt64. rewrite Get_Put. destruct (decide (k = k')); [|done].
  rewrite Varint_put by done. pose proof (PutVarint_len n). destruct (Z.leb_spec (len (PutVarint n)) 0); [lia|done].
Qed.
Lemma fetchU_store db k n k' : is_u64 n -> fetchUint64 (storeUint64 db k n) k' = if decide (k = k') then n else fetchUint64 db k'.
Proof.
  intros Hn. unfold fetchUint64, storeUint64. rewrite Get_Put. destruct (decide (k = k')); [|done]. by rewrite Uvarint_put.
Qed.
Lemma item_cell db id a f n id' b f' :
  length id = 32%nat -> length id' = 32%nat -> length a = 16%nat -> length b = 16%nat -> is_i64 n ->
  fetch_item (store_item db id a f n) id' b f' = if decide (id = id' /\ a = b /\ f = f') then n else fetch_item db id' b f'.
Proof.
  intros H1 H2 H3 H4 Hn. assert (Ht : forall x : IP, length x = 16%nat -> To16 x = Some x).
  { intros x Hx. unfold To16. by rewrite bool_decide_eq_false_2, bool_decide_eq_true_2 by lia. }
  unfold fetch_item, store_item. rewrite !(nodeItemKey_item _ _ _ _ (Ht _ H3)), !(nodeItemKey_item _ _ _ _ (Ht _ H4)).
  rewrite fetch_store by done. destruct (decide (item_key id a f = item_key id' b f')) as [E|E].
  - apply item_key_inj in E as (-> & -> & ->); [|done..]. by rewrite decide_True.
  - rewrite decide_False; [done|]. by intros (-> & -> & ->).
Qed.

(** A time that can be stored: seconds in 64 bits, and not so late that the
    seconds since the year 1 overflow. *)
Definition storable (t : Z) : Prop := - 2 ^ 62 <= Unix t < 2 ^ 62.
Lemma unix_time_Unix t : storable t -> unix_time (Unix t) = Unix t * 10 ^ 9.
Proof. intros Ht. unfold storable in Ht. unfold unix_time. rewrite i64_small by (unfold is_i64, unixToInternal; lia). lia. Qed.
Lemma time_cell f db id ip t id' ip' f' :
  length id = 32%nat -> length id' = 32%nat -> is_Some (To16 ip) -> storable t ->
  fetch_time f' (update_time f db id ip t) id' ip' =
    if decide (id = id' /\ To16 ip = To16 ip' /\ f = f') then Unix t * 10 ^ 9 else fetch_time f' db id' ip'.
Proof.
  intros H1 H2 [a Ha] Ht. unfold fetch_time, update_time. rewrite Ha. destruct (To16 ip') as [b|] eqn:Eb.
  - rewrite item_cell; [|done|done|by eapply To16_len|by eapply To16_len|unfold storable in Ht; unfold is_i64; lia].
    destruct (decide (id = id' /\ a = b /\ f = f')) as [(-> & -> & ->)|Hn].
    + rewrite decide_True by done. by apply unix_time_Unix.
    + rewrite decide_False; [done|]. intros (-> & [= ->] & ->). by apply Hn.
  - rewrite decide_False; [done|]. by intros (_ & ? & _).
Qed.
Lemma node_item_ne id id' ip f : length id = 32%nat -> length id' = 32%nat -> nodeKey id <> item_key id' ip f.
Proof.
  intros H1 H2 E. apply (f_equal length) in E. unfold item_key in E. rewrite length_app, !nodeKey_length in E by done. simpl in E. lia.
Qed.

Lemma UpdateNode_put db n blob s id ip f :
  length (node_id n) = 32%nat -> length id = 32%nat -> length ip = 16%nat -> f <> dbNodeSeq ->
  fetch_item (storeUint64 (Put db (nodeKey (node_id n)) blob) (seq_key (node_id n)) s) id ip f = fetch_item db id ip f.
Proof.
  intros Hid Hl Hi Hf. unfold fetch_item.
  assert (Ht : To16 ip = Some ip) by (unfold To16; by rewrite bool_decide_eq_false_2, bool_decide_eq_true_2 by lia).
  rewrite (nodeItemKey_item _ _ _ _ Ht). unfold fetchInt64, storeUint64. rewrite !Get_Put, seq_key_item.
  rewrite decide_False by (intros Ek; apply item_key_inj in Ek as (_ & _ & ?); [done|done..]).
  by rewrite decide_False by (by apply node_item_ne).
Qed.
Lemma UpdateNode_time f db n db' id ip :
  length (node_id n) = 32%nat -> length id = 32%nat -> f <> dbNodeSeq -> UpdateNode db n = inr db' -> fetch_time f db' id ip = fetch_time f db id ip.
Proof.
  intros Hid Hl Hf. unfold UpdateNode. destruct (_ <? _); [by intros [= ->]|]. destruct (EncodeRLP _) as [|blob]; [done|]. intros [= <-].
  unfold fetch_time. destruct (To16 ip) as [a|] eqn:E; [|done]. f_equal. apply UpdateNode_put; try done. by eapply To16_len.
Qed.
Lemma UpdateFindFails_time f db id a n id' b :
  length id = 32%nat -> length id' = 32%nat -> is_i64 n -> f <> dbNodeFindFails ->
  fetch_time f (UpdateFindFails db id a n) id' b = fetch_time f db id' b.
Proof.
  intros H1 H2 Hn Hf. unfold fetch_time, UpdateFindFails. destruct (To16 b) as [b'|] eqn:Eb; [|done]. destruct (To16 a) as [a'|] eqn:Ea; [|done].
  rewrite item_cell; [|done|done|by eapply To16_len|by eapply To16_len|done]. by rewrite decide_False by (intros (_ & _ & ?); congruence).
Qed.

(** What expires is gone; the rest stays. *)
Lemma deleteRange_Get db prefix k : Get (deleteRange db prefix) k = Get db k \/ Get (deleteRange db prefix) k = None.
Proof.
  unfold deleteRange. generalize (with_prefix prefix (Iterator db)). intros l. revert db.
  induction l as [|p l IH]; intros db; [by left|]. cbn [foldl]. destruct (IH (Delete db p.1)) as [E|E]; rewrite E; [|by right].
  rewrite Get_Delete. destruct (decide _); [by right|by left].
Qed.
Lemma expire_loop_Get t l y db k : Get (expire_loop t l y db) k = Get db k \/ Get (expire_loop t l y db) k = None.
Proof.
  assert (Hc : forall db1 db2 db3, (Get db2 k = Get db1 k \/ Get db2 k = None) -> (Get db3 k = Get db2 k \/ Get db3 k = None) -> Get db3 k = Get db1 k \/ Get db3 k = None).
  { intros db1 db2 db3 [E1|E1] [E2|E2]; rewrite E2; auto. }
  revert y db. induction l as [|[key value] l IH]; intros y db; [by left|]. cbn [expire_loop].
  destruct (splitNodeItemKey key) as [[id ip] field]. set (yd := if decide (field = dbNodePong) then _ else _).
  assert (Hd : Get yd.2 k = Get db k \/ Get yd.2 k = None).
  { unfold yd. case_decide; [|by left]. simpl. destruct ((Varint value).1 <? t); [|by left]. destruct (nodeItemKey id ip []); [apply deleteRange_Get|by left..]. }
  destruct yd as [y' db']. cbn [snd] in Hd. destruct (_ || _)%bool; (eapply Hc; [|apply IH]); [|exact Hd].
  destruct (_ && _)%bool; [|exact Hd]. eapply Hc; [exact Hd|apply deleteRange_Get].
Qed.
Lemma expireNodes_time f db now id ip :
  fetch_time f (expireNodes db now) id ip = fetch_time f db id ip \/ fetch_time f (expireNodes db now) id ip = 0.
Proof.
  unfold fetch_time. destruct (To16 ip) as [a|]; [|by left]. unfold fetch_item. destruct (nodeItemKey id a f) as [k| |]; [|by left..].
  unfold fetchInt64, expireNodes. destruct (expire_loop_Get (Unix (now - dbNodeExpiration)) (with_prefix dbNodePrefix (Iterator db)) 0 db k) as [->| ->]; [by left|by right].
Qed.

End laws.

(** ** A store
    A finite map, iterated in the order of its keys. *)
Definition key_le (p q : list Z * list Z) : Prop := str_lt q.1 p.1 = false.
#[export] Instance key_le_dec p q : Decision (key_le p q).
Proof. unfold key_le. apply _. Defined.
#[export] Instance key_le_trans : Transitive key_le.
Proof.
  intros p q r H1 H2. unfold key_le in *. destruct (str_lt r.1 p.1) eqn:E; [|done].
  apply str_lt_total in H1 as [H1|H1]; [by rewrite H1, E in H2|].
  pose proof (str_lt_trans _ _ _ E H1) as E2. congruence.
Qed.
#[export] Instance key_le_total : Total key_le.
Proof. intros p q. unfold key_le. destruct (str_lt q.1 p.1) eqn:E; [right; by apply str_lt_asym|by left]. Qed.
#[export] Instance map_store : KVStore := {
  store := gmap (list Z) (list Z);
  Get m k := m !! k;
  Put m k v := <[k := v]> m;
  Delete m k := delete k m;
  Iterator m := merge_sort key_le (map_to_list m);
}.
#[export] Instance map_store_laws : KVLaws map_store.
Proof.
  split; cbn [store Get Put Delete Iterator map_store].
  - intros m k v k'. apply lookup_insert.
  - intros m k k'. apply lookup_delete.
  - intros m. pose proof (StronglySorted_merge_sort key_le (map_to_list m)) as Hs.
    assert (Hn : NoDup (merge_sort key_le (map_to_list m)).*1).
    { rewrite (fmap_Permutation fst _ _ (merge_sort_Permutation key_le (map_to_list m))). apply NoDup_fst_map_to_list. }
    induction Hs as [|p l Hl IH Hp]; [constructor|]. rewrite fmap_cons in Hn. apply NoDup_cons in Hn as [Hin Hn].
    constructor; [by apply IH|]. rewrite Forall_forall in Hp. apply Forall_forall. intros q Hq. specialize (Hp q Hq).
    apply str_lt_total in Hp as [Hp|Hp]; [|done]. destruct Hin. rewrite <- Hp. by apply list_elem_of_fmap_2.
  - intros m k v. rewrite (merge_sort_Permutation key_le (map_to_list m)). apply elem_of_map_to_list.
Qed.

Definition sample_node : Node := mk_Node (mk_Record 7 (Some []) [0xc2; 0x80; 7] []) (repeat 9 32).
Lemma sample_node_wf : wf (node_r sample_node).
Proof. split; [constructor|constructor|split; cbn; lia|]. intros sig [= <-]. split_and!; [constructor|by vm_compute|by vm_compute]. Qed.
End NodeDBProps.
