(* ===== verification/V4Udp.v ===== *)
(** * The discovery protocol (src/p2p/discover/v4_udp.go)

    The endpoint [UDPv4]: the queue of pending replies and its loop, the
    handlers of packets and the requests.  Handling a datagram, an iteration of
    the loop and the sending of a request are single steps; the steps of the
    goroutines come in any order.  A closure passed to [pending] is a value of
    [callback] with the variables it captures.  What is sent, and what
    LocalNode is told, is recorded in [out].

    Readings of the clock are in nanoseconds since 1970: the [i]-th reading of a
    step is [clock e i].  A select with two ready cases takes the one [sel e]
    says. *)

From stdpp Require Import base gmap list numbers strings.
From Stdlib Require Import ZArith Lia.
From S2P Require Import Prelude Bytes Rlp RlpStream NetUtil Enr V4Wire NodeID DiscTable NodeDB.

Module V4Udp.
Import Rlp NetUtil Enr V4Wire NodeID DiscTable NodeDB.

Definition respTimeout : Z := 500 * 10 ^ 6.
Definition expiration : Z := 20 * 10 ^ 9.
Definition bondExpiration : Z := 24 * 3600 * 10 ^ 9.
Definition maxFindnodeFailures : Z := 5.
Definition ntpFailureThreshold : Z := 32.
Definition ntpWarningCooldown : Z := 600 * 10 ^ 9.
Definition maxPacketSize : Z := 1280.

Inductive udpErr : Type :=
  | errExpired
  | errUnsolicitedReply
  | errUnknownNode
  | errTimeout
  | errClockWarp
  | errClosed
  | errLowPort
  | errWire (e : wireErr)
  | errRelay (e : relayErr)
  | errNetRestrict
  | errKey
  | errIncomplete
  | errRecord (e : loadErr)
  | errInvalidID.

(** ** State *)
(** The closures: of [sendPing], with the node to add once the pong is there;
    of [findnode], with the nodes received so far; of [RequestENR]. *)
Inductive callback : Type :=
  | onPong (hash : list Z) (add : option node)
  | onNeighbors (toaddr : UDPAddr) (nodes : list node) (nreceived : Z)
  | onENR (hash : list Z).
Record replyMatcher : Type := mk_matcher {
  m_id : nat;
  from : ID;
  ip : IP;
  ptype : Z;
  deadline : Z;
  m_callback : callback;
  reply : option Packet;
}.
(** The matcher, which its caller reads after [errc] has received a value. *)
Record result : Type := mk_result { rm : replyMatcher; err : option udpErr }.
Definition res_id (r : result) : nat := m_id (rm r).
Inductive output : Type :=
  | Sent (toaddr : UDPAddr) (toid : ID) (req : Packet) (packet : list Z)
  | UDPContact (toaddr : UDPAddr)
  | UDPEndpointStatement (fromaddr endpoint : UDPAddr)
  | Unhandled (fromaddr : UDPAddr) (buf : list Z)
  | checkClockDrift.

Record env : Type := mk_env { clock : nat -> Z; sel : bool }.

Section udp.
Context `{C : Crypto} `{S : KVStore}.
Variable priv : PrivateKey.
Variable netrestrict : option (list IPNet).

(** [closed] is closeCtx, [running] the loop.  The timer is armed for a time, and
    its channel holds a tick or nothing. *)
Record UDPv4 : Type := mk_UDPv4 {
  localNode : Enr.Node;
  db : store;
  tab : Table;
  plist : list replyMatcher;
  nextTimeout : option nat;
  timer : option Z;
  tick : option Z;
  contTimeouts : Z;
  ntpWarnTime : Z;
  closed : bool;
  running : bool;
  fresh : nat;
  results : list result;
  out : list output;
}.
Definition set_self (n : Enr.Node) (u : UDPv4) : UDPv4 :=
  mk_UDPv4 n (db u) (tab u) (plist u) (nextTimeout u) (timer u) (tick u) (contTimeouts u) (ntpWarnTime u) (closed u) (running u) (fresh u) (results u) (out u).
Definition set_db (d : store) (u : UDPv4) : UDPv4 :=
  mk_UDPv4 (localNode u) d (tab u) (plist u) (nextTimeout u) (timer u) (tick u) (contTimeouts u) (ntpWarnTime u) (closed u) (running u) (fresh u) (results u) (out u).
Definition set_tab (t : Table) (u : UDPv4) : UDPv4 :=
  mk_UDPv4 (localNode u) (db u) t (plist u) (nextTimeout u) (timer u) (tick u) (contTimeouts u) (ntpWarnTime u) (closed u) (running u) (fresh u) (results u) (out u).
Definition set_plist (l : list replyMatcher) (u : UDPv4) : UDPv4 :=
  mk_UDPv4 (localNode u) (db u) (tab u) l (nextTimeout u) (timer u) (tick u) (contTimeouts u) (ntpWarnTime u) (closed u) (running u) (fresh u) (results u) (out u).
Definition set_timer (next : option nat) (t tk : option Z) (u : UDPv4) : UDPv4 :=
  mk_UDPv4 (localNode u) (db u) (tab u) (plist u) next t tk (contTimeouts u) (ntpWarnTime u) (closed u) (running u) (fresh u) (results u) (out u).
Definition set_cont (c w : Z) (u : UDPv4) : UDPv4 :=
  mk_UDPv4 (localNode u) (db u) (tab u) (plist u) (nextTimeout u) (timer u) (tick u) c w (closed u) (running u) (fresh u) (results u) (out u).
Definition set_closed (c r : bool) (u : UDPv4) : UDPv4 :=
  mk_UDPv4 (localNode u) (db u) (tab u) (plist u) (nextTimeout u) (timer u) (tick u) (contTimeouts u) (ntpWarnTime u) c r (fresh u) (results u) (out u).
Definition set_results (f : nat) (r : list result) (u : UDPv4) : UDPv4 :=
  mk_UDPv4 (localNode u) (db u) (tab u) (plist u) (nextTimeout u) (timer u) (tick u) (contTimeouts u) (ntpWarnTime u) (closed u) (running u) f r (out u).
Definition set_out (o : list output) (u : UDPv4) : UDPv4 :=
  mk_UDPv4 (localNode u) (db u) (tab u) (plist u) (nextTimeout u) (timer u) (tick u) (contTimeouts u) (ntpWarnTime u) (closed u) (running u) (fresh u) (results u) o.

Definition emit (o : output) : GoM UDPv4 unit := gmodify (fun u => set_out (out u ++ [o]) u).
(** The code that makes a request has a channel of one place for its result. *)
Definition new_request : GoM UDPv4 nat :=
  u ← gget; gput (set_results (1 + fresh u)%nat (results u) u) ;; mret (fresh u).
Definition finish (p : replyMatcher) (e : option udpErr) : GoM UDPv4 unit := fun u =>
  if decide (m_id p ∈ res_id <$> results u) then Blocked "errc"
  else Done (tt, set_results (fresh u) (results u ++ [mk_result p e]) u).

(** ** Nodes *)
(** What the table keeps of a node; a node without a key has a zero key. *)
Definition to_enode (n : Enr.Node) : enode :=
  mk_enode (node_id n) (Node_IP n) (seq (node_r n)) (Node_UDP n) (Node_TCP n)
    match Node_Pubkey n with Some k => EncodePubkey k | None => replicate 64 0 end.
Definition nodeFromRPC (sender : UDPAddr) (rn : rpcNode) : outcome (udpErr + node) :=
  if rn_UDP rn <=? 1024 then Done (inl errLowPort)
  else
    match CheckRelayIP (addr_IP sender) (rn_IP rn) with
    | Some e => Done (inl (errRelay e))
    | None =>
        if (bool_decide (is_Some netrestrict) && negb (Netlist_Contains netrestrict (rn_IP rn)))%bool then Done (inl errNetRestrict)
        else
          match DecodePubkey (rn_ID rn) with
          | None => Done (inl errKey)
          | Some key =>
              n ← NewV4 key (rn_IP rn) (rn_TCP rn) (rn_UDP rn);
              Done (if ValidateComplete n then inr (wrapNode (to_enode n)) else inl errIncomplete)
          end
    end.
Definition nodeToRPC (n : node) : rpcNode :=
  mk_rpcNode (n_ip (Node n)) (n_udp (Node n) mod 2 ^ 16) (n_tcp (Node n) mod 2 ^ 16) (n_key (Node n)).

(** ** The loop *)
(** [dist < 2*respTimeout]: the timer is started.  Otherwise the front element
    is removed, after which it has no next one. *)
Definition resetTimeout (now : Z) : GoM UDPv4 unit :=
  u ← gget;
  match plist u with
  | [] => mret tt
  | p :: l =>
      if decide (nextTimeout u = Some (m_id p)) then mret tt
      else
        let dist := Sub (deadline p) now in
        if dist <? 2 * respTimeout then gput (set_timer (Some (m_id p)) (Some (now + dist)) (tick u) u)
        else
          finish p (Some errClockWarp) ;;
          gmodify (fun u => set_timer None None (tick u) (set_plist l u))
  end.

Fixpoint receive_nodes (toaddr : UDPAddr) (l : list rpcNode) (nodes : list node) (nreceived : Z) : outcome (list node * Z) :=
  match l with
  | [] => Done (nodes, nreceived)
  | rn :: l =>
      r ← nodeFromRPC toaddr rn;
      receive_nodes toaddr l (match r with inl _ => nodes | inr n => nodes ++ [n] end) (nreceived + 1)
  end.
(** The bodies of the closures: [matched], [requestDone] and the captured
    variables afterwards. *)
Definition pong_callback (hash : list Z) (add : option node) (tok : list Z) (now : Z) : GoM UDPv4 (bool * bool * callback) :=
  let matched := bool_decide (tok = hash) in
  match add with
  | Some n => gmodify (fun u => if matched then set_tab (addVerifiedNode (tab u) n now) u else u)
  | None => mret tt
  end ;;
  mret (matched, matched, onPong hash add).
Definition neighbors_callback (toaddr : UDPAddr) (nodes : list node) (nreceived : Z) (ns : list rpcNode) : GoM UDPv4 (bool * bool * callback) :=
  match receive_nodes toaddr ns nodes nreceived with
  | Done (nodes, nreceived) => mret (true, bucketSize <=? nreceived, onNeighbors toaddr nodes nreceived)
  | Panic m => gpanic m
  | Blocked w => fun _ => Blocked w
  end.
Definition enr_callback (hash tok : list Z) : GoM UDPv4 (bool * bool * callback) :=
  let matched := bool_decide (tok = hash) in mret (matched, matched, onENR hash).
(** The type assertions. *)
Definition run_callback (cb : callback) (p : Packet) (now : Z) : GoM UDPv4 (bool * bool * callback) :=
  match cb, p with
  | onPong hash add, Pong _ tok _ _ _ => pong_callback hash add tok now
  | onNeighbors toaddr nodes nreceived, Neighbors ns _ _ => neighbors_callback toaddr nodes nreceived ns
  | onENR hash, ENRResponse tok _ _ => enr_callback hash tok
  | _, _ => gpanic "interface conversion"
  end.
Definition matches (p : replyMatcher) (fromID : ID) (fromIP : IP) (data : Packet) : bool :=
  (bool_decide (from p = fromID) && (ptype p =? Kind_of data) && IP_Equal (ip p) fromIP)%bool.
(** The matchers after the pass.  A removed element has no next one: the pass
    ends with the first request that is done. *)
Fixpoint dispatch (fromID : ID) (fromIP : IP) (data : Packet) (now : Z) (matched : bool) (l : list replyMatcher)
    : GoM UDPv4 (bool * list replyMatcher) :=
  match l with
  | [] => mret (matched, [])
  | p :: l =>
      if matches p fromID fromIP data then
        r ← run_callback (m_callback p) data now;
        let '(ok, requestDone, cb) := (r : bool * bool * callback) in
        let p := mk_matcher (m_id p) (from p) (ip p) (ptype p) (deadline p) cb (Some data) in
        gmodify (fun u => set_cont 0 (ntpWarnTime u) u) ;;
        if requestDone then finish p None ;; mret ((matched || ok)%bool, l)
        else r ← dispatch fromID fromIP data now (matched || ok)%bool l; mret (r.1, p :: r.2)
      else r ← dispatch fromID fromIP data now matched l; mret (r.1, p :: r.2)
  end.
(** As above, the pass ends with the first request that has timed out. *)
Fixpoint expire (now : Z) (l : list replyMatcher) : GoM UDPv4 (list replyMatcher) :=
  match l with
  | [] => mret []
  | p :: l =>
      if deadline p <=? now then
        finish p (Some errTimeout) ;;
        gmodify (fun u => set_cont (contTimeouts u + 1) (ntpWarnTime u) u) ;;
        mret l
      else l ← expire now l; mret (p :: l)
  end.
Fixpoint finish_all (l : list replyMatcher) : GoM UDPv4 unit :=
  match l with
  | [] => mret tt
  | p :: l => finish p (Some errClosed) ;; finish_all l
  end.

(** The cases of the loop, each followed by the [resetTimeout] of the next
    iteration. *)
Definition loop_closed : GoM UDPv4 unit :=
  u ← gget;
  finish_all (plist u) ;;
  gmodify (fun u => set_timer (nextTimeout u) None (tick u) (set_closed (closed u) false (set_plist [] u))).
Definition loop_add (p : replyMatcher) (now now' : Z) : GoM UDPv4 unit :=
  gmodify (fun u => set_plist (plist u ++ [mk_matcher (m_id p) (from p) (ip p) (ptype p) (now + respTimeout) (m_callback p) (reply p)]) u) ;;
  resetTimeout now'.
Definition loop_reply (fromID : ID) (fromIP : IP) (data : Packet) (now now' : Z) : GoM UDPv4 bool :=
  u ← gget;
  r ← dispatch fromID fromIP data now false (plist u);
  gmodify (set_plist r.2) ;;
  resetTimeout now' ;;
  mret r.1.
Definition ntp_check (now : Z) : GoM UDPv4 unit :=
  u ← gget;
  if ntpFailureThreshold <? contTimeouts u then
    (if ntpWarningCooldown <=? Sub now (ntpWarnTime u) then
       gmodify (fun u => set_cont (contTimeouts u) now u) ;; emit checkClockDrift
     else mret tt) ;;
    gmodify (fun u => set_cont 0 (ntpWarnTime u) u)
  else mret tt.
(** [now] is the value of the tick. *)
Definition loop_tick (now now1 now2 : Z) : GoM UDPv4 unit :=
  gmodify (fun u => set_timer None (timer u) None u) ;;
  u ← gget;
  l ← expire now (plist u);
  gmodify (set_plist l) ;;
  ntp_check now1 ;;
  resetTimeout now2.

(** ** Channels to the loop *)
Definition pending (e : env) (i j : nat) (id : ID) (ip_ : IP) (ptype_ : Z) (cb : callback) : GoM UDPv4 nat :=
  k ← new_request;
  let p := mk_matcher k id ip_ ptype_ 0 cb None in
  u ← gget;
  (if (running u && negb (closed u && sel e))%bool then loop_add p (clock e i) (clock e j)
   else if closed u then finish p (Some errClosed)
   else fun _ => Blocked "addReplyMatcher") ;;
  mret k.
Definition handleReply (e : env) (i j : nat) (fromID : ID) (fromIP : IP) (req : Packet) : GoM UDPv4 bool :=
  u ← gget;
  if (running u && negb (closed u && sel e))%bool then loop_reply fromID fromIP req (clock e i) (clock e j)
  else if closed u then mret false
  else fun _ => Blocked "gotreply".

Definition send (toaddr : UDPAddr) (toid : ID) (req : Packet) : GoM UDPv4 unit :=
  match Encode priv req with
  | inl _ => mret tt
  | inr (packet, _) => emit (Sent toaddr toid req packet)
  end.

(** ** Pings *)
Definition ourEndpoint (self_ : Enr.Node) : Endpoint :=
  NewEndpoint (mk_UDPAddr (Node_IP self_) (Node_UDP self_)) (Node_TCP self_ mod 2 ^ 16).
(** uint64(time.Now().Add(expiration).Unix()) *)
Definition expiry (now : Z) : Z := u64 (Unix (now + expiration)).
Definition makePing (self_ : Enr.Node) (toaddr : UDPAddr) (now : Z) : Packet :=
  Ping 4 (ourEndpoint self_) (NewEndpoint toaddr 0) (expiry now) (seq (node_r self_)) None.
Definition sendPing (e : env) (i : nat) (toid : ID) (toaddr : UDPAddr) (add : option node) : GoM UDPv4 nat :=
  u ← gget;
  let req := makePing (localNode u) toaddr (clock e i) in
  match Encode priv req with
  | inl err =>
      k ← new_request;
      finish (mk_matcher k zeroID [] 0 0 (onPong [] None) None) (Some (errWire err)) ;;
      mret k
  | inr (packet, hash) =>
      k ← pending e (i + 1) (i + 2) toid (addr_IP toaddr) PongPacket (onPong hash add);
      emit (UDPContact toaddr) ;;
      emit (Sent toaddr toid req packet) ;;
      mret k
  end.

(** ** Handlers *)
(** checkBond *)
Definition checkBond (u : UDPv4) (now : Z) (id : ID) (ip_ : IP) : bool :=
  Sub now (LastPongReceived (db u) id ip_) <? bondExpiration.
Definition ip_statement (fromaddr : UDPAddr) (to : Endpoint) : output :=
  UDPEndpointStatement fromaddr (mk_UDPAddr (ep_IP to) (ep_UDP to)).

Definition handlePing (e : env) (senderKey : PublicKey) (fromaddr : UDPAddr) (fromID : ID) (mac : list Z) (From To : Endpoint)
    : GoM UDPv4 unit :=
  u ← gget;
  send fromaddr fromID (Pong (NewEndpoint fromaddr (ep_TCP From)) mac (expiry (clock e 1)) (seq (node_r (localNode u))) None) ;;
  match NewV4 senderKey (addr_IP fromaddr) (ep_TCP From) (addr_Port fromaddr) with
  | Panic m => gpanic m
  | Blocked w => fun _ => Blocked w
  | Done n =>
      let wn := wrapNode (to_enode n) in
      (if bondExpiration <? Sub (clock e 2) (LastPongReceived (db u) (node_id n) (addr_IP fromaddr)) then
         sendPing e 3 fromID fromaddr (Some wn) ;; mret tt
       else gmodify (fun u => set_tab (addVerifiedNode (tab u) wn (clock e 3)) u)) ;;
      gmodify (fun u => set_db (UpdateLastPingReceived (db u) (node_id n) (addr_IP fromaddr) (clock e 6)) u) ;;
      emit (ip_statement fromaddr To)
  end.
Definition verifyPong (e : env) (fromaddr : UDPAddr) (fromID : ID) (req : Packet) (To : Endpoint) (exp : Z) : GoM UDPv4 (option udpErr) :=
  if Expired exp (clock e 0) then mret (Some errExpired)
  else
    ok ← handleReply e 1 2 fromID (addr_IP fromaddr) req;
    if negb ok then mret (Some errUnsolicitedReply)
    else
      emit (ip_statement fromaddr To) ;;
      gmodify (fun u => set_db (UpdateLastPongReceived (db u) fromID (addr_IP fromaddr) (clock e 3)) u) ;;
      mret None.

(** The chunks of nodes that are sent; [acc] is [p.Nodes]. *)
Fixpoint neighbor_chunks (fromaddr : UDPAddr) (closest : list node) (acc : list rpcNode) (sent : bool) : list (list rpcNode) :=
  match closest with
  | [] => if ((0 <? len acc) || negb sent)%bool then [acc] else []
  | n :: closest =>
      let acc := match CheckRelayIP (addr_IP fromaddr) (nIP n) with None => acc ++ [nodeToRPC n] | Some _ => acc end in
      if len acc =? MaxNeighbors then acc :: neighbor_chunks fromaddr closest [] true
      else neighbor_chunks fromaddr closest acc sent
  end.
Fixpoint send_all (toaddr : UDPAddr) (toid : ID) (l : list Packet) : GoM UDPv4 unit :=
  match l with
  | [] => mret tt
  | p :: l => send toaddr toid p ;; send_all toaddr toid l
  end.
Definition handleFindnode (e : env) (fromaddr : UDPAddr) (fromID : ID) (Target : list Z) : GoM UDPv4 unit :=
  u ← gget;
  let closest := findnodeByID (tab u) (Keccak256 Target) bucketSize true in
  send_all fromaddr fromID
    (map (fun ns => Neighbors ns (expiry (clock e 2)) None) (neighbor_chunks fromaddr closest [] false)).
Definition verify_reply (e : env) (fromaddr : UDPAddr) (fromID : ID) (req : Packet) : GoM UDPv4 (option udpErr) :=
  ok ← handleReply e 1 2 fromID (addr_IP fromaddr) req;
  mret (if (ok : bool) then None else Some errUnsolicitedReply).
Definition bonded (e : env) (fromaddr : UDPAddr) (fromID : ID) (exp : Z) (handle : GoM UDPv4 unit) : GoM UDPv4 (option udpErr) :=
  if Expired exp (clock e 0) then mret (Some errExpired)
  else
    u ← gget;
    if negb (checkBond u (clock e 1) fromID (addr_IP fromaddr)) then mret (Some errUnknownNode)
    else handle ;; mret None.

(** preverify and handle, by the type of the packet. *)
Definition handle_req (e : env) (fromaddr : UDPAddr) (req : Packet) (fromKey hash : list Z) : GoM UDPv4 (option udpErr) :=
  let fromID := Keccak256 fromKey in
  match req with
  | Ping _ From To exp _ _ =>
      match DecodePubkey fromKey with
      | None => mret (Some errKey)
      | Some senderKey =>
          if Expired exp (clock e 0) then mret (Some errExpired)
          else handlePing e senderKey fromaddr fromID hash From To ;; mret None
      end
  | Pong To _ exp _ _ => verifyPong e fromaddr fromID req To exp
  | Findnode target exp _ => bonded e fromaddr fromID exp (handleFindnode e fromaddr fromID target)
  | Neighbors _ exp _ =>
      if Expired exp (clock e 0) then mret (Some errExpired) else verify_reply e fromaddr fromID req
  | ENRRequest exp _ =>
      bonded e fromaddr fromID exp
        (u ← gget; send fromaddr fromID (ENRResponse hash (node_r (localNode u)) None))
  | ENRResponse _ _ _ => verify_reply e fromaddr fromID req
  end.
Definition handlePacket (e : env) (fromaddr : UDPAddr) (buf : list Z) : GoM UDPv4 (option udpErr) :=
  match Decode buf with
  | inl err => mret (Some (errWire err))
  | inr (req, fromKey, hash) => handle_req e fromaddr req fromKey hash
  end.
(** One datagram; the rest of one that is too long is cut off. *)
Definition readLoop (e : env) (fromaddr : UDPAddr) (datagram : list Z) : GoM UDPv4 unit :=
  let buf := take (Z.to_nat maxPacketSize) datagram in
  r ← handlePacket e fromaddr buf;
  match r with
  | None => mret tt
  | Some _ => emit (Unhandled fromaddr buf)
  end.

(** ** Requests
    A request is sent by one step; what the caller makes of its result is a
    function of it. *)
Definition ping_query (e : env) (n : Enr.Node) : GoM UDPv4 nat :=
  sendPing e 0 (node_id n) (mk_UDPAddr (Node_IP n) (Node_UDP n)) None.
Definition ping_result (r : result) : outcome (Z * option udpErr) :=
  match err r with
  | Some e => Done (0, Some e)
  | None => match reply (rm r) with Some (Pong _ _ _ seq_ _) => Done (seq_, None) | _ => Panic "interface conversion" end
  end.
(** The ping to wait for, if one is needed. *)
Definition ensureBond (e : env) (toid : ID) (toaddr : UDPAddr) : GoM UDPv4 (option nat) :=
  u ← gget;
  let tooOld := bondExpiration <? Sub (clock e 0) (LastPingReceived (db u) toid (addr_IP toaddr)) in
  if (tooOld || (maxFindnodeFailures <? FindFails (db u) toid (addr_IP toaddr)))%bool
  then k ← sendPing e 1 toid toaddr None; mret (Some k)
  else mret None.
Definition findnode_query (e : env) (toid : ID) (toaddr : UDPAddr) (target : list Z) : GoM UDPv4 nat :=
  k ← pending e 0 1 toid (addr_IP toaddr) NeighborsPacket (onNeighbors toaddr [] 0);
  send toaddr toid (Findnode target (expiry (clock e 2)) None) ;;
  mret k.
Definition findnode_result (r : result) : list node * option udpErr :=
  (match m_callback (rm r) with onNeighbors _ nodes _ => nodes | _ => [] end,
   match err r, reply (rm r) with
   | Some errTimeout, Some _ => None
   | e, _ => e
   end).
Definition RequestENR_query (e : env) (n : Enr.Node) : GoM UDPv4 (wireErr + nat) :=
  let req := ENRRequest (expiry (clock e 0)) None in
  let addr := mk_UDPAddr (Node_IP n) (Node_UDP n) in
  match Encode priv req with
  | inl err => mret (inl err)
  | inr (packet, hash) =>
      k ← pending e 1 2 (node_id n) (addr_IP addr) ENRResponsePacket (onENR hash);
      emit (Sent addr (node_id n) req packet) ;;
      mret (inr k)
  end.
Definition RequestENR_result (n : Enr.Node) (r : result) : outcome (udpErr + Enr.Node) :=
  match err r with
  | Some e => Done (inl e)
  | None =>
      match reply (rm r) with
      | Some (ENRResponse _ rec _) =>
          Done match New ValidSchemes rec with
               | inl err => inl (errRecord err)
               | inr respN =>
                   if negb (bool_decide (node_id respN = node_id n)) then inl errInvalidID
                   else if seq (node_r respN) <? seq (node_r n) then inr n
                   else match CheckRelayIP (Node_IP n) (Node_IP respN) with
                        | Some err => inl (errRelay err)
                        | None => inr respN
                        end
               end
      | _ => Panic "interface conversion"
      end
  end.

(** ** Steps *)
Inductive event : Type :=
  | Datagram (fromaddr : UDPAddr) (data : list Z)
  | Fire
  | Tick
  | LoopExit
  | Close
  | AskPing (n : Enr.Node)
  | AskBond (toid : ID) (toaddr : UDPAddr)
  | AskNodes (toid : ID) (toaddr : UDPAddr) (target : list Z)
  | AskRecord (n : Enr.Node)
  | NewSelf (n : Enr.Node)
  | TableStep (t : Table)
  | FailsStep (id : ID) (ip_ : IP) (fails : Z)
  | NodeStep (n : Enr.Node)
  | ExpireStep (now : Z).
(** [Fire] is the timer, [Tick] the loop receiving its tick.  An event that
    cannot happen leaves the state as it is. *)
Definition exec (e : env) (ev : event) : GoM UDPv4 unit :=
  match ev with
  | Datagram fromaddr data => readLoop e fromaddr data
  | Fire =>
      gmodify (fun u =>
        match timer u with
        | Some d => if d <=? clock e 0 then set_timer (nextTimeout u) None (Some (default (clock e 0) (tick u))) u else u
        | None => u
        end)
  | Tick =>
      u ← gget;
      match running u, tick u with
      | true, Some now => loop_tick now (clock e 0) (clock e 1)
      | _, _ => mret tt
      end
  | LoopExit => u ← gget; if (running u && closed u)%bool then loop_closed else mret tt
  | Close => gmodify (fun u => set_closed true (running u) u)
  | AskPing n => ping_query e n ;; mret tt
  | AskBond toid toaddr => ensureBond e toid toaddr ;; mret tt
  | AskNodes toid toaddr target => findnode_query e toid toaddr target ;; mret tt
  | AskRecord n => RequestENR_query e n ;; mret tt
  | NewSelf n => gmodify (set_self n)
  | TableStep t => gmodify (set_tab t)
  | FailsStep id ip_ fails => gmodify (fun u => set_db (UpdateFindFails (db u) id ip_ fails) u)
  | NodeStep n => gmodify (fun u => match UpdateNode (db u) n with inr d => set_db d u | inl _ => u end)
  | ExpireStep now => gmodify (fun u => set_db (expireNodes (db u) now) u)
  end.
Fixpoint exec_all (l : list (env * event)) : GoM UDPv4 unit :=
  match l with
  | [] => mret tt
  | (e, ev) :: l => exec e ev ;; exec_all l
  end.
Definition ListenV4 (self_ : Enr.Node) (d : store) (t : Table) : UDPv4 :=
  mk_UDPv4 self_ d t [] None None None 0 0 false true 0 [] [].
End udp.
End V4Udp.
