(* ===== verification/V4UdpNodes.v ===== *)
(** * What discovery sends (src/p2p/discover/v4_udp.go)

    The nodes the table holds, the packets made from them, and their sizes:
    every packet that is sent fits the size limit of the protocol. *)

From stdpp Require Import base gmap list numbers strings.
From Stdlib Require Import ZArith Lia.
From S2P Require Import Prelude Bytes Rlp RlpProps RlpStream RlpTypes RlpRoundtrip RlpDecode RlpExact NetUtil Enr EnrProps EnrNode V4Wire V4WireProps NodeID DiscTable DiscTableProps NodeDB V4Udp.

Module V4UdpNodes.
Import Rlp RlpProps RlpStream RlpTypes RlpRoundtrip RlpDecode RlpExact NetUtil Enr EnrProps EnrNode V4Wire V4WireProps NodeID DiscTable DiscTableProps NodeDB V4Udp.

Section nodes.
Context `{C : Crypto} {Laws : CryptoLaws C}.

(** ** Addresses *)
Definition ip_ok (ip_ : IP) : Prop := bytes ip_ /\ len ip_ <= 16.
Lemma To4_ok ip_ ip4 : bytes ip_ -> To4 ip_ = Some ip4 -> ip_ok ip4.
Proof. intros Hb E. apply To4_bytes in E as [Hb' Hl]; [|done]. split; [done|]. unfold len. lia. Qed.
Lemma To16_ok ip_ ip6 : bytes ip_ -> To16 ip_ = Some ip6 -> ip_ok ip6.
Proof.
  intros Hb E. unfold To16 in E. case_bool_decide as H4; [|case_bool_decide as H16; [|done]]; apply (inj Some) in E; subst ip6.
  - split; [apply Forall_app; split; [repeat constructor; lia|done]|]. unfold len. rewrite length_app, H4. done.
  - split; [done|]. unfold len. lia.
Qed.
Lemma norm_IP_ok ip_ : ip_ok ip_ -> ip_ok (norm_IP ip_).
Proof. intros [Hb Hl]. unfold norm_IP. destruct (To4 ip_) eqn:E; [by eapply To4_ok|done]. Qed.
Lemma NewEndpoint_ok addr tcp : bytes (addr_IP addr) -> is_u16 tcp -> ep_ok (NewEndpoint addr tcp) /\ len (ep_IP (NewEndpoint addr tcp)) <= 16.
Proof.
  intros Hb Ht. assert (Hip : ip_ok (ep_IP (NewEndpoint addr tcp))).
  { unfold NewEndpoint. cbn [ep_IP]. destruct (To4 _) eqn:E4; [by eapply To4_ok|].
    destruct (To16 _) eqn:E6; [by eapply To16_ok|]. split; [constructor|done]. }
  destruct Hip as [Hi Hl]. split; [|done]. split; [done|]. split; [|done]. by apply Z.mod_pos_bound.
Qed.

(** ** Records *)
Lemma enc_pairs_in (p : list Z * list Z) ps : p ∈ ps -> len p.2 <= len (enc_pairs ps).
Proof.
  induction 1 as [p ps|p q ps _ IH]; unfold enc_pairs in *; cbn [map concat]; rewrite len_app; unfold enc_pair at 1.
  - rewrite len_app. pose proof (len_nonneg (enc_string p.1)). pose proof (len_nonneg (concat (map enc_pair ps))). lia.
  - rewrite len_app. pose proof (len_nonneg (enc_string q.1)). pose proof (len_nonneg q.2). lia.
Qed.
Lemma pair_small r p : wf r -> is_Some (signature r) -> p ∈ pairs r -> bytes p.2 /\ len p.2 <= SizeLimit.
Proof.
  intros Hw [sig Hs] Hp. split.
  { pose proof (wf_pairs _ Hw) as Hf. rewrite Forall_forall in Hf. by destruct (Hf p Hp) as (_ & Hb & _). }
  destruct (wf_signed _ Hw sig Hs) as (_ & Hr & Hl). pose proof (enc_pairs_in p _ Hp). rewrite Hr in Hl. unfold enc_list, content in Hl.
  rewrite !len_app in Hl. pose proof (len_nonneg (enc_string sig)). pose proof (len_nonneg (enc_nat (seq r))).
  match goal with Hl : len ?h + _ <= _ |- _ => pose proof (len_nonneg h) end. lia.
Qed.
Lemma LoadWith_accepts {A} k (m : M A) R r a :
  wf r -> is_Some (signature r) -> accepts m R -> LoadWith k m r = inr a -> exists o, R a o.
Proof.
  intros Hw Hs Hm. unfold LoadWith. rewrite Load_map by apply Hw. destruct (to_map (pairs r) !! str_of k) as [v|] eqn:E; [|done].
  apply elem_of_list_to_map_2 in E. destruct (pair_small r _ Hw Hs E) as [Hb Hl]. simpl in Hb, Hl.
  destruct (DecodeBytesWith m v) as [|a'] eqn:Ed; [done|]. intros [= ->]. exists v.
  eapply DecodeBytesWith_accepts; [exact Hm|done| |exact Ed]. unfold SizeLimit in Hl. lia.
Qed.
(** A record has an address of at most sixteen bytes. *)
Lemma accepts_sized n : accepts (dec_sized n) (fun b _ => bytes b /\ len b = n).
Proof.
  intros s V K. pose proof (accepts_wrap _ _ accepts_Bytes s V K) as Hb. unfold dec_sized, mbind, M_bind.
  destruct (wrap Bytes s) as [[e|b] s1]; [done|]. destruct Hb as (o & Co & K1 & Hb & _).
  destruct (Z.eqb_spec (len b) n); [|done]. by exists o.
Qed.
Lemma Node_IP_ok n : EnrProps.wf (node_r n) -> is_Some (signature (node_r n)) -> ip_ok (Node_IP n).
Proof.
  intros Hw Hs. unfold Node_IP, or_zero. destruct (LoadWith "ip" _ _) as [|ip4] eqn:E4.
  - destruct (LoadWith "ip6" _ _) as [|ip6] eqn:E6; [split; [constructor|done]|].
    destruct (LoadWith_accepts _ _ _ _ _ Hw Hs (accepts_sized 16) E6) as (o & Hb & Hl). split; [done|lia].
  - destruct (LoadWith_accepts _ _ _ _ _ Hw Hs (accepts_sized 4) E4) as (o & Hb & Hl). split; [done|lia].
Qed.

(** ** Packets that are sent *)
(** A packet that fits: the frame takes 98 bytes. *)
Definition fits (p : Packet) : Prop := packet_ok p /\ len (packet_enc p) <= 1182.
Lemma fits_Encode priv p packet hash : fits p -> Encode priv p = inr (packet, hash) -> len packet <= maxPacketSize.
Proof.
  intros [Hok Hl]. rewrite Encode_layout by (done || lia). destruct (Sign _ _) as [sig|] eqn:Es; [|done]. cbv zeta. intros [= <- _].
  destruct (Sign_len _ _ _ Es) as [Hsl _]. rewrite len_app. unfold signed_part at 2. rewrite len_app, len_cons.
  unfold len at 1 2. rewrite Keccak256_len, Hsl. unfold maxPacketSize. lia.
Qed.
Lemma rest_nil : rest_ok None.
Proof. constructor. Qed.
Lemma enc_endpoint_le e : ep_ok e -> len (ep_IP e) <= 16 -> len (enc_endpoint e) <= 26.
Proof.
  intros (Hb & Hu & Ht) Hl. pose proof (enc_string_le (ep_IP e) 1 ltac:(lia) ltac:(lia)).
  pose proof (enc_nat_le (ep_UDP e) 2 Hu ltac:(lia)). pose proof (enc_nat_le (ep_TCP e) 2 Ht ltac:(lia)).
  etrans; [apply (enc_list_le _ 24 1); [rewrite !len_app; lia|lia..]|lia].
Qed.
Lemma enc_seq_le s : is_u64 s -> len (enc_seq s None) <= 9.
Proof. intros Hs. unfold enc_seq. destruct (s =? 0); [done|]. apply (enc_nat_le s 8 Hs). lia. Qed.
Definition self_ok (n : Enr.Node) : Prop := EnrProps.wf (node_r n) /\ is_Some (signature (node_r n)).
Lemma makePing_fits self_ addr now : self_ok self_ -> bytes (addr_IP addr) -> fits (makePing self_ addr now).
Proof.
  intros [Hw Hs] Hb. destruct (Node_IP_ok self_ Hw Hs) as [Hbi Hli]. unfold makePing, ourEndpoint.
  destruct (NewEndpoint_ok (mk_UDPAddr (Node_IP self_) (Node_UDP self_)) (Node_TCP self_ mod 2 ^ 16) Hbi ltac:(by apply Z.mod_pos_bound)) as [H1 L1].
  destruct (NewEndpoint_ok addr 0 Hb ltac:(split; done)) as [H2 L2]. pose proof (u64_range (Unix (now + expiration))) as He.
  split; [repeat split; try done; try apply H1; try apply H2; try apply Hw; try apply He; apply rest_nil|].
  pose proof (enc_endpoint_le _ H1 L1). pose proof (enc_endpoint_le _ H2 L2). pose proof (enc_nat_le (expiry now) 8 He ltac:(lia)).
  pose proof (enc_seq_le (seq (node_r self_)) (wf_seq _ Hw)).
  etrans; [apply (enc_list_le _ 100 1); [|lia..]|lia]. cbn [packet_content]. rewrite !len_app. change (len (enc_nat 4)) with 1. lia.
Qed.
Lemma pong_fits addr tcp mac now s :
  bytes (addr_IP addr) -> is_u16 tcp -> bytes mac -> len mac <= 32 -> is_u64 s -> fits (Pong (NewEndpoint addr tcp) mac (expiry now) s None).
Proof.
  intros Hb Ht Hm Hl Hs. destruct (NewEndpoint_ok addr tcp Hb Ht) as [H1 L1]. pose proof (u64_range (Unix (now + expiration))) as He.
  split; [repeat split; try done; try apply H1; try apply He; try apply Hs; apply rest_nil|].
  pose proof (enc_endpoint_le _ H1 L1). pose proof (enc_nat_le (expiry now) 8 He ltac:(lia)). pose proof (enc_seq_le s Hs).
  pose proof (enc_string_le mac 1 ltac:(lia) ltac:(lia)).
  etrans; [apply (enc_list_le _ 100 1); [|lia..]|lia]. cbn [packet_content]. rewrite !len_app. lia.
Qed.
Lemma findnode_fits target now : bytes target -> length target = 64%nat -> fits (Findnode target (expiry now) None).
Proof.
  intros Hb Hl. pose proof (u64_range (Unix (now + expiration))) as He. split; [repeat split; try done; try apply He; apply rest_nil|].
  pose proof (enc_nat_le (expiry now) 8 He ltac:(lia)). assert (len target = 64) by (unfold len; lia).
  pose proof (enc_string_le target 1 ltac:(lia) ltac:(lia)).
  etrans; [apply (enc_list_le _ 100 1); [|lia..]|lia]. cbn [packet_content]. rewrite !len_app. unfold enc_rest. change (len (concat _)) with 0. lia.
Qed.
Lemma enrRequest_fits now : fits (ENRRequest (expiry now) None).
Proof.
  pose proof (u64_range (Unix (now + expiration))) as He. split; [repeat split; try apply He; apply rest_nil|].
  pose proof (enc_nat_le (expiry now) 8 He ltac:(lia)).
  etrans; [apply (enc_list_le _ 100 1); [|lia..]|lia]. cbn [packet_content]. rewrite !len_app. unfold enc_rest. change (len (concat _)) with 0. lia.
Qed.
Lemma enrResponse_fits mac n : bytes mac -> len mac <= 32 -> self_ok n -> fits (ENRResponse mac (node_r n) None).
Proof.
  intros Hb Hl [Hw [sig Hs]]. refine (conj (conj Hb (conj Hw (conj (ex_intro _ sig Hs) rest_nil))) _). destruct (wf_signed _ Hw sig Hs) as (_ & _ & Hr).
  pose proof (enc_string_le mac 1 ltac:(lia) ltac:(lia)). unfold SizeLimit in Hr.
  etrans; [apply (enc_list_le _ 400 2); [|lia..]|lia]. cbn [packet_content]. rewrite !len_app. unfold enc_rest. change (len (concat _)) with 0. lia.
Qed.

(** ** Packets that are received *)
Lemma accepts_fields_opt t fs R :
  accepts (decode t) (encodes t) -> accepts (dec_fields fs) R -> accepts (dec_fields ((t, true) :: fs)) (fun _ _ => True).
Proof.
  intros Ht Hfs s V K. cbn [dec_fields fst snd]. unfold mbind at 1, M_bind at 1, try_. specialize (Ht s V K).
  destruct (decode t s) as [[e|v] s1].
  - destruct e; try done. simpl in Ht. rewrite (Ht eq_refl). exists []. split_and!; [by apply consumed_refl|done..].
  - destruct Ht as (o & Co & K1 & Hv). eapply outcome_ok_cons; [done|by apply Hfs; [apply Co|]|apply noeol_fields|done].
Qed.
Lemma accepts_fields_head t fs (P : list val -> Prop) :
  plain t -> accepts (dec_fields fs) (fun vs _ => P vs) ->
  accepts (dec_fields ((t, false) :: fs)) (fun vs _ => exists v vs' o, vs = v :: vs' /\ encodes t v o /\ P vs').
Proof.
  intros Hp Hfs s V K. cbn [dec_fields fst snd]. unfold mbind at 1, M_bind at 1, try_.
  pose proof (proj1 decoder_accepts t Hp s s V K (or_introl eq_refl)) as Ht.
  destruct (decode t s) as [[e|v] s1]; [by destruct e|]. destruct Ht as (o & Co & K1 & Hv).
  eapply outcome_ok_cons; [done|by apply Hfs; [apply Co|]|apply noeol_fields|]. intros vs out Hvs. by exists v, vs, o.
Qed.
Lemma plain_endpoint : plain T_endpoint.
Proof. repeat constructor; lia. Qed.
Lemma plain_rpcNode : plain T_node.
Proof. repeat constructor; lia. Qed.
Ltac invert_encodes :=
  repeat match goal with
  | H : encodes (_ _) _ _ |- _ => inversion H; clear H; subst
  | H : encodes TBytes _ _ |- _ => inversion H; clear H; subst
  | H : enc_fields (_ :: _) _ _ |- _ => inversion H; clear H; subst
  | H : enc_fields [] _ _ |- _ => inversion H; clear H; subst
  end.
Lemma endpoint_decoded v o : encodes T_endpoint v o -> ep_ok (val_endpoint v).
Proof. intros He. unfold T_endpoint, T_node in He. invert_encodes. done. Qed.
Lemma node_decoded v o : encodes T_node v o -> rn_ok (val_node v).
Proof. intros He. unfold T_endpoint, T_node in He. invert_encodes. done. Qed.
Lemma nodes_decoded vs o : enc_elems T_node vs o -> Forall rn_ok (val_node <$> vs).
Proof.
  remember T_node as t eqn:Et. induction 1 as [|? v vs o out Hv _ IH]; subst; [constructor|].
  constructor; [by eapply node_decoded|by apply IH].
Qed.
(** What the handlers rely on. *)
Definition req_ok (req : Packet) : Prop :=
  match req with
  | Ping _ From _ _ _ _ => ep_ok From
  | Neighbors ns _ _ => Forall rn_ok ns
  | _ => True
  end.
Lemma decode_as_accepts fs to (R : list val -> Prop) :
  accepts (dec_fields fs) (fun vs _ => R vs) -> (forall vs p, R vs -> to vs = Some p -> req_ok p) ->
  accepts (decode_as fs to) (fun p _ => req_ok p).
Proof.
  intros Hf HR s V K. unfold decode_as. rewrite decode_struct.
  pose proof (accepts_list (wrap ListEnd) (fun _ => dec_fields fs) VStruct _ (or_intror eq_refl) (fun _ => conj Hf (noeol_fields _)) s V K) as Ha.
  set (m := (_ ← wrap List; _)) in Ha. change (outcome_ok (fun p _ => req_ok p) s ((m ≫= (fun v => match v with
    | VStruct vs => match to vs with Some p => mret p | None => fail errBadValue end | _ => fail errBadValue end)) s)).
  unfold mbind, M_bind. destruct (m s) as [[e|v] s1]; [done|].
  destruct Ha as (o & Co & K1 & vs & o' & -> & _ & Hvs). destruct (to vs) as [p|] eqn:Et; [|done].
  exists o. split_and!; [done..|]. by eapply HR.
Qed.
Lemma accepts_rest : accepts (dec_fields [F_rest]) (enc_fields [F_rest]).
Proof. apply accepts_fields_tail; [done|]. apply accepts_from_accepts, decoder_accepts. constructor. Qed.
Lemma ping_accepts : accepts (decode_as F_ping to_ping) (fun p _ => req_ok p).
Proof.
  eapply decode_as_accepts.
  - do 4 (apply accepts_fields_head; [repeat constructor; lia|]).
    apply (accepts_fields_opt _ _ (enc_fields [F_rest])); [|apply accepts_rest].
    apply accepts_from_accepts, decoder_accepts. repeat constructor; lia.
  - intros vs p (v1 & vs1 & o1 & -> & _ & v2 & vs2 & o2 & -> & He & _) Ht.
    destruct vs2 as [|? [|? [|? [|? [|? ?]]]]]; try done. injection Ht as <-. by eapply endpoint_decoded.
Qed.
Lemma neighbors_accepts : accepts (decode_as F_neighbors to_neighbors) (fun p _ => req_ok p).
Proof.
  eapply decode_as_accepts.
  - do 2 (apply accepts_fields_head; [repeat constructor; lia|]). by apply (accepts_impl _ (enc_fields [F_rest]) (fun _ _ => True)); [|apply accepts_rest].
  - intros vs p (v1 & vs1 & o1 & -> & He & _) Ht. destruct vs1 as [|? [|? [|? ?]]]; try done. injection Ht as <-.
    inversion He; subst. by eapply nodes_decoded.
Qed.
Lemma accepts_run {A} (m : M A) (P : A -> Prop) b a :
  accepts m (fun a _ => P a) -> bytes b -> len b < 2 ^ 63 -> (m (NewStream b 0)).1 = inr a -> P a.
Proof.
  intros Hm Hb Hl. assert (V : RlpExact.inv (NewStream b 0)) by done.
  specialize (Hm _ V eq_refl). destruct (m (NewStream b 0)) as [[e|a'] s]; [done|]. destruct Hm as (o & _ & _ & Hp). by intros [= <-].
Qed.
Lemma decode_as_inv fs to s p : (decode_as fs to s).1 = inr p -> exists vs, to vs = Some p.
Proof.
  unfold decode_as, mbind, M_bind. destruct (decode (TStruct fs) s) as [[e|[]] s1]; try done.
  destruct (to vs) as [q|] eqn:E; [|done]. intros [= <-]. by exists vs.
Qed.
Lemma decode_packet_ok ptype_ m b req :
  decode_packet ptype_ = Some m -> bytes b -> len b < 2 ^ 63 -> (m (NewStream b 0)).1 = inr req -> req_ok req.
Proof.
  intros Hd Hb Hl Hr. unfold decode_packet in Hd.
  repeat match goal with Hd : (if ?c then _ else _) = Some _ |- _ => destruct c end; try done; injection Hd as <-.
  1: by apply (accepts_run _ _ _ _ ping_accepts Hb Hl).
  3: by apply (accepts_run _ _ _ _ neighbors_accepts Hb Hl).
  4: { unfold decode_enrResponse, mbind, M_bind in Hr. repeat case_match; by simplify_eq/=. }
  all: apply decode_as_inv in Hr as [vs Hv]; unfold to_pong, to_findnode, to_enrRequest in Hv; repeat case_match; by simplify_eq.
Qed.
Lemma Decode_ok buf req key hash :
  bytes buf -> len buf < 2 ^ 63 -> Decode buf = inr (req, key, hash) ->
  bytes key /\ length key = 64%nat /\ bytes hash /\ length hash = 32%nat /\ req_ok req.
Proof.
  intros Hb Hl. unfold Decode. destruct (Z.ltb_spec (len buf) (Z.of_nat headSize + 1)) as [|Hlen]; [done|].
  destruct (bool_decide _) eqn:Eh; [cbn [negb]|done]. apply bool_decide_eq_true in Eh.
  destruct (recoverNodeKey _ _) as [k|] eqn:Ek; [|done]. destruct (drop headSize buf) as [|t body] eqn:Ed; [done|].
  destruct (decode_packet t) as [m|] eqn:Em; [|done]. destruct ((m (NewStream body 0)).1) as [|r] eqn:Er; [done|]. intros [= -> -> <-].
  assert (Hbody : bytes (t :: body)) by (rewrite <- Ed; by apply Forall_drop). apply Forall_cons in Hbody as [_ Hbody].
  assert (Hbl : len body < 2 ^ 63).
  { unfold len in *. pose proof (length_drop buf headSize) as Hd. rewrite Ed in Hd. cbn [length] in Hd. lia. }
  unfold recoverNodeKey in Ek. destruct (Ecrecover _ _) as [pk|] eqn:Ec; [|done]. cbn [mbind option_bind] in Ek.
  apply (inj Some) in Ek. apply Ecrecover_bytes in Ec; [|by apply Forall_take, Forall_drop]. subst key. split_and!.
  - unfold copy. apply Forall_app. split; [by apply Forall_take, Forall_drop|]. apply Forall_drop, Forall_replicate. unfold is_byte. lia.
  - unfold copy. rewrite length_app, length_take, !length_drop, !length_replicate. lia.
  - by apply Forall_take.
  - rewrite Eh. apply Keccak256_len.
  - by eapply decode_packet_ok.
Qed.

(** ** The table *)
Definition good_node (n : node) : Prop := ip_ok (nIP n) /\ bytes (n_key (Node n)) /\ length (n_key (Node n)) = 64%nat.
Definition good_bucket (b : bucket) : Prop := Forall good_node (entries b) /\ Forall good_node (replacements b).
Definition good_table (t : Table) : Prop := Forall good_bucket (buckets t).
Lemma addIP_lists s ip_ : lists (addIP s ip_).2 = lists s.
Proof.
  unfold addIP. destruct (decide _); [done|]. destruct (IsLAN ip_); [done|]. destruct (Add s.1 ip_) as [[] t]; [|done].
  cbn [negb]. destruct (Add (bips s.2) ip_) as [[] bi]; done.
Qed.
Lemma removeIP_lists s ip_ : lists (removeIP s ip_) = lists s.
Proof. unfold removeIP. by destruct (IsLAN ip_). Qed.
Lemma good_lists s s' : lists s = lists s' -> good_bucket s.2 -> good_bucket s'.2.
Proof. unfold lists, good_bucket. by intros [= -> ->]. Qed.
Lemma good_addIP s ip_ : good_bucket s.2 -> good_bucket (addIP s ip_).2.2.
Proof. apply good_lists. by rewrite addIP_lists. Qed.
Lemma good_removeIP s ip_ : good_bucket s.2 -> good_bucket (removeIP s ip_).2.
Proof. apply good_lists. by rewrite removeIP_lists. Qed.
Lemma deleteNode_good l n : Forall good_node l -> Forall good_node (deleteNode l n).
Proof. induction 1 as [|x l Hx Hl IH]; simpl; [constructor|]. case_decide; [done|by constructor]. Qed.
Lemma pushNode_good l n max : Forall good_node l -> good_node n -> Forall good_node (pushNode l n max).1.
Proof.
  intros Hl Hn. unfold pushNode. destruct (_ <? _); (constructor; [done|]); [done|].
  destruct l as [|x l] using rev_ind; [constructor|]. rewrite removelast_last. by apply Forall_app in Hl as [Hl _].
Qed.
Lemma addReplacement_good s n : good_bucket s.2 -> good_node n -> good_bucket (addReplacement s n).2.
Proof.
  intros Hs Hn. unfold addReplacement. destruct (contains _ _); [done|]. pose proof (good_addIP s (nIP n) Hs) as Ha.
  destruct (addIP s (nIP n)) as [[] s1]; [|done]. cbn [negb]. simpl in Ha. pose proof (pushNode_good (replacements s1.2) n maxReplacements (proj2 Ha) Hn) as Hp.
  destruct (pushNode _ _ _) as [l removed]. assert (Hg : good_bucket (set_replacements l s1).2) by (split; [apply Ha|exact Hp]).
  destruct removed; [by apply good_removeIP|done].
Qed.
Lemma bumpInBucket_good s n : good_bucket s.2 -> good_node n -> good_bucket (bumpInBucket s n).2.2.
Proof.
  intros Hs Hn. unfold bumpInBucket. destruct (index_of _ _) as [i|]; [|done]. destruct (entries s.2 !! i) as [e|]; [|done].
  assert (Hfront : forall s, good_bucket s.2 -> good_bucket (set_entries (n :: take i (entries s.2) ++ drop (S i) (entries s.2)) s).2).
  { intros s' [He Hr]. split; [|done]. constructor; [done|]. apply Forall_app. split; [by apply Forall_take|by apply Forall_drop]. }
  destruct (negb (IP_Equal _ _)); [|by apply Hfront]. pose proof (good_addIP _ (nIP n) (good_removeIP s (nIP e) Hs)) as Ha.
  destruct (addIP _ _) as [[] s1]; [by apply Hfront|by apply good_addIP].
Qed.
Lemma addVerified_good n now s : good_bucket s.2 -> good_node n -> good_bucket (addVerified n now s).2.
Proof.
  intros Hs Hn. unfold addVerified. pose proof (bumpInBucket_good s n Hs Hn) as Hb. destruct (bumpInBucket s n) as [[] s1]; [done|].
  simpl in Hb. destruct (_ <=? _); [by apply addReplacement_good|]. pose proof (good_addIP s1 (nIP n) Hb) as Ha.
  destruct (addIP s1 (nIP n)) as [[] s2]; [|done]. simpl in Ha. split; cbn.
  - apply pushNode_good; [apply Ha|exact Hn].
  - apply deleteNode_good, Ha.
Qed.
Lemma addVerifiedNode_good t n now : good_table t -> good_node n -> good_table (addVerifiedNode t n now).
Proof.
  intros Ht Hn. unfold addVerifiedNode. destruct (negb _); [done|]. destruct (decide _); [done|].
  apply Forall_insert; [done|]. apply addVerified_good; [|done]. unfold get_bucket. simpl.
  destruct (buckets t !! _) as [b|] eqn:E; [|split; constructor]. by apply (Forall_lookup_1 _ _ _ _ Ht E).
Qed.
Lemma push_good target l n k : Forall good_node l -> good_node n -> Forall good_node (push target l n k).
Proof.
  intros Hl Hn. unfold push. set (l' := if len l <? k then l ++ [n] else l).
  assert (Hl' : Forall good_node l') by (unfold l'; destruct (_ <? _); [apply Forall_app; split; [done|by apply Forall_singleton]|done]).
  destruct (_ =? _); [done|]. apply Forall_app. split; [by apply Forall_take|]. constructor; [done|].
  match goal with |- Forall _ (removelast (drop ?i _)) => apply (Forall_drop _ i) in Hl'; revert Hl'; generalize (drop i l') end.
  intros d Hd. destruct d as [|x d] using rev_ind; [constructor|]. rewrite removelast_last. by apply Forall_app in Hd as [Hd _].
Qed.
Lemma findnodeByID_good t target k b : good_table t -> Forall good_node (findnodeByID t target k b).
Proof.
  intros Ht. assert (Hall : Forall good_node (all_entries t)).
  { unfold all_entries. induction Ht as [|x l [Hx _] _ IH]; simpl; [constructor|]. apply Forall_app. by split. }
  assert (Hf : forall (c : node -> bool) l, Forall good_node l ->
    Forall good_node (foldl (fun l n => if c n then push target l n k else l) l (all_entries t))).
  { intros c. induction Hall as [|n l' Hn _ IH]; intros l Hl; [done|]. apply IH. destruct (c n); [by apply push_good|done]. }
  unfold findnodeByID. destruct (_ && _)%bool.
  - apply (Hf (fun n => (b && (0 <? livenessChecks n))%bool)). constructor.
  - apply (Hf (fun _ => true)). constructor.
Qed.

(** ** The neighbors that are sent *)
Definition allowed (fromaddr : UDPAddr) (n : node) : bool := bool_decide (CheckRelayIP (addr_IP fromaddr) (nIP n) = None).
Lemma nodeToRPC_ok n : good_node n -> rn_ok (nodeToRPC n) /\ len (rn_IP (nodeToRPC n)) <= 16.
Proof. intros ([Hb Hl] & Hk & Hkl). split; [|done]. split_and!; try done; by apply Z.mod_pos_bound. Qed.
Lemma chunks_size fromaddr l acc sent :
  Forall good_node l -> Forall (fun n => rn_ok n /\ len (rn_IP n) <= 16) acc -> len acc < MaxNeighbors ->
  Forall (fun c => Forall (fun n => rn_ok n /\ len (rn_IP n) <= 16) c /\ len c <= MaxNeighbors) (neighbor_chunks fromaddr l acc sent).
Proof.
  intros Hl. revert acc sent. induction Hl as [|n l Hn _ IH]; intros acc sent Ha Hlen; cbn [neighbor_chunks].
  { destruct (_ || _)%bool; [|constructor]. apply Forall_singleton. split; [done|lia]. }
  set (acc' := match CheckRelayIP _ _ with None => _ | Some _ => _ end).
  assert (Ha' : Forall (fun n => rn_ok n /\ len (rn_IP n) <= 16) acc' /\ len acc' <= MaxNeighbors).
  { unfold acc'. destruct (CheckRelayIP _ _); [split; [done|lia]|]. rewrite len_app. change (len [nodeToRPC n]) with 1. split; [|lia].
    apply Forall_app. split; [done|]. apply Forall_singleton. by apply nodeToRPC_ok. }
  destruct (Z.eqb_spec (len acc') MaxNeighbors); [constructor; [done|by apply IH]|]. apply IH; [apply Ha'|lia].
Qed.
Lemma chunks_concat fromaddr l acc sent :
  concat (neighbor_chunks fromaddr l acc sent) = acc ++ (nodeToRPC <$> filter (fun n => allowed fromaddr n = true) l).
Proof.
  revert acc sent. induction l as [|n l IH]; intros acc sent; cbn [neighbor_chunks].
  { destruct (Z.ltb_spec 0 (len acc)); simpl; [done|]. destruct acc; [by destruct sent|]. rewrite len_cons in *. pose proof (len_nonneg acc). lia. }
  rewrite filter_cons. destruct (CheckRelayIP (addr_IP fromaddr) (nIP n)) as [e|] eqn:Ec.
  - rewrite decide_False by (unfold allowed; by rewrite Ec). destruct (_ =? _); [cbn [concat]; by rewrite IH|by rewrite IH].
  - rewrite decide_True by (unfold allowed; by rewrite Ec). rewrite fmap_cons.
    destruct (_ =? _); [cbn [concat]; rewrite IH|rewrite IH]; by rewrite <- app_assoc.
Qed.
Lemma chunks_nonempty fromaddr l acc : neighbor_chunks fromaddr l acc false <> [].
Proof.
  revert acc. induction l as [|n l IH]; intros acc; cbn [neighbor_chunks]; [by rewrite orb_true_r|].
  destruct (_ =? _); [done|apply IH].
Qed.

(** ** The nodes that are made *)
Lemma NewV4_good k ip_ tcp udp :
  IsOnCurve (key_X k) (key_Y k) = true -> bytes ip_ -> (ip_ = [] \/ is_Some (To16 ip_)) ->
  exists n, NewV4 k ip_ tcp udp = Done n /\ node_id n = PubkeyToIDV4 k /\ good_node (wrapNode (to_enode n)) /\ Node_IP n = norm_IP ip_.
Proof.
  intros Hk Hb Hip. destruct (NewV4_spec k ip_ tcp udp Hk Hb Hip) as (n & E & Hid & _ & Hi & _ & _ & Hp & Hw & Hs).
  exists n. split_and!; try done. split; [apply (Node_IP_ok n Hw Hs)|]. cbn [wrapNode to_enode Node n_key]. rewrite Hp.
  split; [apply Forall_app; split; apply be_bytes|apply pubkey_bytes_len].
Qed.
Lemma nodeFromRPC_ok net sender rn :
  rn_ok rn -> exists r, nodeFromRPC net sender rn = Done r /\ match r with inr n => good_node n | inl _ => True end.
Proof.
  intros (Hb & _). unfold nodeFromRPC. destruct (_ <=? _); [by eexists|]. destruct (CheckRelayIP _ _) eqn:Ec; [by eexists|].
  destruct (_ && _)%bool; [by eexists|]. destruct (DecodePubkey (rn_ID rn)) as [k|] eqn:Ek; [|by eexists].
  assert (Hk : IsOnCurve (key_X k) (key_Y k) = true).
  { unfold DecodePubkey in Ek. destruct (IsOnCurve _ _) eqn:E; [|done]. by injection Ek as <-. }
  assert (Hip : is_Some (To16 (rn_IP rn))).
  { unfold CheckRelayIP in Ec. unfold To16. repeat case_bool_decide; try done; by eexists. }
  destruct (NewV4_good k (rn_IP rn) (rn_TCP rn) (rn_UDP rn) Hk Hb (or_intror Hip)) as (n & -> & _ & Hn & _).
  cbn [mbind outcome_bind]. destruct (ValidateComplete n); by eexists.
Qed.
Lemma receive_nodes_ok net toaddr l nodes nr :
  Forall rn_ok l -> Forall good_node nodes ->
  exists nodes', receive_nodes net toaddr l nodes nr = Done (nodes', nr + len l) /\ Forall good_node nodes'.
Proof.
  intros Hl. revert nodes nr. induction Hl as [|rn l Hrn _ IH]; intros nodes nr Hn; cbn [receive_nodes].
  { exists nodes. rewrite len_nil, Z.add_0_r. done. }
  destruct (nodeFromRPC_ok net toaddr rn Hrn) as (r & -> & Hr). cbn [mbind outcome_bind]. rewrite len_cons.
  replace (nr + (1 + len l)) with (nr + 1 + len l) by lia. apply IH.
  destruct r as [e|n]; [done|]. apply Forall_app. split; [done|by apply Forall_singleton].
Qed.
End nodes.
End V4UdpNodes.
