(* ===== verification/V4UdpProps.v ===== *)
(** * The discovery protocol: requests and endpoint proofs (src/p2p/discover/v4_udp.go)

    No sequence of datagrams, requests and timer events makes the endpoint panic
    or block; every request is pending or has exactly one result; and the
    replies that are larger than their requests only go to endpoints that have
    answered a ping in the last 24 hours. *)

From stdpp Require Import base gmap list numbers strings.
From Stdlib Require Import ZArith Lia.
From S2P Require Import Prelude Bytes NetUtil Enr EnrProps EnrNode V4Wire V4WireProps NodeID DiscTable NodeDB NodeDBProps V4Udp V4UdpNodes.

Module V4UdpProps.
Import Rlp NetUtil Enr EnrProps EnrNode V4Wire V4WireProps NodeID DiscTable NodeDB NodeDBProps V4Udp V4UdpNodes.

Section props.
Context `{C : Crypto} {CL : CryptoLaws C} `{K : KVStore} {KL : KVLaws K}.
Variable priv : PrivateKey.
Variable netrestrict : option (list IPNet).
Abbreviation UDPv4 := (@UDPv4 K).

(** ** The invariant *)
(** A ping with this hash has been sent to the node at this address. *)
Definition pinged (o : list output) (id : ID) (ip_ : IP) (hash : list Z) : Prop :=
  exists toaddr v f t e s packet, Sent toaddr id (Ping v f t e s None) packet ∈ o
    /\ Encode priv (Ping v f t e s None) = inr (packet, hash) /\ addr_IP toaddr = ip_.
Definition matcher_ok (o : list output) (p : replyMatcher) : Prop :=
  match m_callback p with
  | onPong hash add =>
      ptype p = PongPacket /\ pinged o (from p) (ip p) hash /\ match add with Some n => good_node n | None => True end
  | onNeighbors _ nodes _ => ptype p = NeighborsPacket /\ Forall good_node nodes
  | onENR _ => ptype p = ENRResponsePacket
  end.
(** A request that succeeds has a reply of its type. *)
Definition result_ok (r : result) : Prop :=
  err r = None -> exists p, reply (rm r) = Some p /\ Kind_of p = ptype (rm r).
Definition all_ids (u : UDPv4) : list nat := (m_id <$> plist u) ++ (res_id <$> results u).
Record inv (o : list output) (u : UDPv4) : Prop := {
  inv_ids : all_ids u ≡ₚ List.seq 0 (fresh u);
  inv_plist : Forall (matcher_ok o) (plist u);
  inv_results : Forall result_ok (results u);
  inv_run : running u = false -> closed u = true /\ plist u = [];
  inv_self : self_ok (localNode u);
  inv_tab : good_table (tab u);
}.
(** What the loop leaves alone. *)
Record frame (u u' : UDPv4) : Prop := {
  fr_db : db u' = db u;
  fr_self : localNode u' = localNode u;
  fr_out : out u' = out u;
}.
Lemma frame_refl u : frame u u.
Proof. done. Qed.
Lemma frame_trans u1 u2 u3 : frame u1 u2 -> frame u2 u3 -> frame u1 u3.
Proof. intros [] []. split; congruence. Qed.

Lemma matcher_ok_mono o o' p : matcher_ok o p -> matcher_ok (o ++ o') p.
Proof.
  unfold matcher_ok. destruct (m_callback p) as [hash add| |]; [|done..]. intros (Ht & (a & v & f & t & e & s & pk & Hi & He & Hip) & Ha).
  split_and!; try done. exists a, v, f, t, e, s, pk. split_and!; try done. apply elem_of_app. by left.
Qed.
Lemma inv_mono o o' u : inv o u -> inv (o ++ o') u.
Proof. intros [H1 H2 H3 H4 H5 H6]. split; try done. eapply Forall_impl; [exact H2|]. intros p. apply matcher_ok_mono. Qed.
Lemma ids_fresh u : all_ids u ≡ₚ List.seq 0 (fresh u) -> NoDup (all_ids u).
Proof. intros ->. apply NoDup_ListNoDup, seq_NoDup. Qed.

(** ** The loop *)
Lemma finish_run p e l (u : UDPv4) :
  NoDup ((m_id <$> p :: l) ++ (res_id <$> results u)) ->
  finish p e u = Done (tt, set_results (fresh u) (results u ++ [mk_result p e]) u).
Proof.
  intros Hn. unfold finish. rewrite decide_False; [done|]. intros Hi. rewrite fmap_cons in Hn. simpl in Hn. apply NoDup_cons in Hn as [Hn _].
  apply Hn, elem_of_app. by right.
Qed.
Lemma all_ids_move (l1 l2 : list replyMatcher) p e rs :
  (m_id <$> l1 ++ l2) ++ (res_id <$> rs ++ [mk_result p e]) ≡ₚ (m_id <$> l1 ++ p :: l2) ++ (res_id <$> rs).
Proof.
  rewrite !fmap_app, !fmap_cons. cbn [fmap list_fmap]. change (res_id (mk_result p e)) with (m_id p).
  rewrite <- !app_assoc. apply Permutation_app_head. rewrite (Permutation_app_comm (res_id <$> rs)), (Permutation_app_comm [m_id p]).
  rewrite app_assoc, (Permutation_app_comm _ [m_id p]). done.
Qed.
Lemma resetTimeout_inv now o u : hoare (fun s => s = u /\ inv o u) (resetTimeout now) (fun _ u' => inv o u' /\ frame u u').
Proof.
  intros s [-> Hi]. unfold resetTimeout. unfold mbind at 1, GoM_bind at 1, gget.
  destruct (plist u) as [|p l] eqn:Ep; [by exists tt, u|]. destruct (decide _); [by exists tt, u|].
  destruct (_ <? _); [exists tt; eexists; split; [done|]; split; [destruct Hi; split; done|done]|].
  pose proof (ids_fresh u (inv_ids _ _ Hi)) as Hn. unfold all_ids in Hn. rewrite Ep in Hn.
  unfold mbind, GoM_bind. rewrite (finish_run p _ l u Hn). exists tt. eexists. split; [done|]. split; [|done].
  pose proof (inv_plist _ _ Hi) as Hp. rewrite Ep in Hp. apply Forall_cons in Hp as [_ Hp]. destruct Hi as [H1 _ H3 H4 H5 H6]. split; try done.
  - unfold all_ids in *. cbn [plist results set_timer set_plist set_results fresh]. rewrite (all_ids_move [] l p), <- H1, Ep. done.
  - apply Forall_app. split; [done|]. by apply Forall_singleton.
  - cbn. intros Hr. destruct (H4 Hr) as [_ H]. by rewrite Ep in H.
Qed.
(** A pong that was accepted answers a ping. *)
Definition answers (o : list output) (id : ID) (ip_ : IP) (data : Packet) : Prop :=
  forall To tok e s r, data = Pong To tok e s r -> exists ip', IP_Equal ip' ip_ = true /\ pinged o id ip' tok.
Definition with_reply (p : replyMatcher) (cb : callback) (data : Packet) : replyMatcher :=
  mk_matcher (m_id p) (from p) (ip p) (ptype p) (deadline p) cb (Some data).
Lemma run_callback_spec o p id ip_ data now (u : UDPv4) :
  matcher_ok o p -> matches p id ip_ data = true -> req_ok data -> good_table (tab u) ->
  exists ok don cb t, run_callback netrestrict (m_callback p) data now u = Done ((ok, don, cb), set_tab t u)
    /\ good_table t /\ matcher_ok o (with_reply p cb data) /\ Kind_of data = ptype p /\ (ok = true -> answers o id ip_ data).
Proof.
  intros Hp Hm Hd Ht. unfold matches in Hm. rewrite !andb_true_iff, bool_decide_eq_true, Z.eqb_eq in Hm. destruct Hm as [[<- Hk] Hip].
  unfold matcher_ok in *. unfold run_callback, pong_callback, neighbors_callback, enr_callback. destruct (m_callback p) as [hash add|toaddr nodes nr|hash] eqn:Ec.
  - destruct Hp as (Hty & Hpi & Ha). destruct data; try (by rewrite Hty in Hk). 
    exists (bool_decide (ReplyTok = hash)), (bool_decide (ReplyTok = hash)), (onPong hash add).
    exists (match add with Some n => if bool_decide (ReplyTok = hash) then addVerifiedNode (tab u) n now else tab u | None => tab u end).
    split_and!; try done.
    + destruct add; [|by destruct u]. case_bool_decide; by destruct u.
    + destruct add as [n|]; [|done]. case_bool_decide; [by apply addVerifiedNode_good|done].
    + intros Hok%bool_decide_eq_true. intros ? ? ? ? ? [= <- <- <- <- <-]. subst. by exists (ip p).
  - destruct Hp as [Hty Hn]. destruct data; try (by rewrite Hty in Hk).
    destruct (receive_nodes_ok netrestrict toaddr Nodes nodes nr Hd Hn) as (nodes' & -> & Hn').
    exists true, (bucketSize <=? nr + len Nodes), (onNeighbors toaddr nodes' (nr + len Nodes)), (tab u).
    split_and!; try done. by destruct u.
  - destruct data; try (by rewrite Hp in Hk).
    exists (bool_decide (ReplyTok = hash)), (bool_decide (ReplyTok = hash)), (onENR hash), (tab u).
    split_and!; try done. by destruct u.
Qed.

Record dispatched (o : list output) (id : ID) (ip_ : IP) (data : Packet) (m m' : bool) (l l' : list replyMatcher) (u u' : UDPv4) : Prop := {
  d_plist : Forall (matcher_ok o) l';
  d_results : Forall result_ok (results u) -> Forall result_ok (results u');
  d_tab : good_table (tab u');
  d_ids : (m_id <$> l') ++ (res_id <$> results u') ≡ₚ (m_id <$> l) ++ (res_id <$> results u);
  d_answers : m' = true -> m = true \/ answers o id ip_ data;
  d_frame : frame u u';
  d_state : (plist u', closed u', running u', fresh u') = (plist u, closed u, running u, fresh u);
}.
Lemma dispatch_spec o id ip_ data now m l (u : UDPv4) :
  Forall (matcher_ok o) l -> req_ok data -> good_table (tab u) -> NoDup ((m_id <$> l) ++ (res_id <$> results u)) ->
  exists m' l' u', dispatch netrestrict id ip_ data now m l u = Done ((m', l'), u') /\ dispatched o id ip_ data m m' l l' u u'.
Proof.
  intros Hl Hd. revert m u. induction Hl as [|p l Hp Hl IH]; intros m u Ht Hn; cbn [dispatch].
  { exists m, [], u. split; [done|]. split; try done. intros ->. by left. }
  assert (Hnl : NoDup ((m_id <$> l) ++ (res_id <$> results u))) by (rewrite fmap_cons in Hn; by apply NoDup_cons in Hn as [_ Hn]).
  destruct (matches p id ip_ data) eqn:Em.
  - destruct (run_callback_spec o p id ip_ data now u Hp Em Hd Ht) as (ok & don & cb & t & E & Ht' & Hp' & Hk & Hok).
    unfold mbind at 1, GoM_bind at 1. rewrite E. unfold mbind at 1, GoM_bind at 1, gmodify. cbv zeta. destruct don.
    + unfold mbind, GoM_bind. rewrite (finish_run _ None l) by exact Hn. eexists _, _, _. split; [done|].
      split; try done; cbn.
      * intros Hr. apply Forall_app. split; [done|]. apply Forall_singleton. intros _. by exists data.
      * apply (all_ids_move [] l (with_reply p cb data) None (results u)).
      * intros Hm%orb_true_iff. destruct Hm as [?|?]; [by left|right; by apply Hok].
    + set (u1 := set_cont 0 _ _). destruct (IH (m || ok)%bool u1 Ht' Hnl) as (m' & l' & u' & E' & [D1 D2 D3 D4 D5 D6 D7]).
      unfold mbind, GoM_bind. rewrite E'. exists m', (with_reply p cb data :: l'), u'. split; [done|]. split; try done.
      * by constructor.
      * rewrite !fmap_cons. simpl. by rewrite D4.
      * intros Hm%D5. destruct Hm as [Hm|?]; [|by right]. apply orb_true_iff in Hm as [?|?]; [by left|right; by apply Hok].
      * destruct D6. by split.
  - destruct (IH m u Ht Hnl) as (m' & l' & u' & E' & [D1 D2 D3 D4 D5 D6 D7]).
    unfold mbind, GoM_bind. rewrite E'. exists m', (p :: l'), u'. split; [done|]. split; try done; [by constructor|].
    rewrite !fmap_cons. simpl. by rewrite D4.
Qed.
Lemma loop_reply_inv o id ip_ data now now' u :
  req_ok data ->
  hoare (fun s => s = u /\ inv o u) (loop_reply netrestrict id ip_ data now now')
    (fun m u' => inv o u' /\ frame u u' /\ (m = true -> answers o id ip_ data)).
Proof.
  intros Hd s [-> Hi]. unfold loop_reply. unfold mbind at 1, GoM_bind at 1, gget.
  destruct (dispatch_spec o id ip_ data now false (plist u) u (inv_plist _ _ Hi) Hd (inv_tab _ _ Hi) (ids_fresh u (inv_ids _ _ Hi)))
    as (m' & l' & u1 & E & [D1 D2 D3 D4 D5 D6 D7]).
  unfold mbind at 1, GoM_bind at 1. rewrite E. unfold mbind at 1, GoM_bind at 1, gmodify. cbn [fst snd].
  injection D7 as Dp Dc Dr Df. assert (Hi1 : inv o (set_plist l' u1)).
  { destruct Hi as [H1 _ H3 H4 H5 _]. split; cbn; try done.
    - unfold all_ids in *. cbn. by rewrite D4, H1, Df.
    - by apply D2.
    - rewrite Dc, Dr. intros Hr. destruct (H4 Hr) as [Hc Hpl]. split; [done|]. rewrite Hpl in D4.
      destruct l' as [|q l']; [done|]. exfalso. rewrite Hpl in E. cbn [dispatch] in E. by injection E.
    - by rewrite (fr_self _ _ D6). }
  destruct (resetTimeout_inv now' o (set_plist l' u1) _ (conj eq_refl Hi1)) as ([] & u2 & E2 & Hi2 & Hf2).
  unfold mbind, GoM_bind. rewrite E2. exists m', u2. split; [done|]. split_and!; [done| |].
  - eapply frame_trans; [|exact Hf2]. destruct D6. by split.
  - intros Hm. by destruct (D5 Hm).
Qed.
Lemma expire_matchers o now l (u : UDPv4) :
  Forall (matcher_ok o) l -> NoDup ((m_id <$> l) ++ (res_id <$> results u)) ->
  exists l' rs c, expire now l u = Done (l', set_cont c (ntpWarnTime u) (set_results (fresh u) (results u ++ rs) u))
    /\ Forall (matcher_ok o) l' /\ Forall result_ok rs
    /\ (m_id <$> l') ++ (res_id <$> results u ++ rs) ≡ₚ (m_id <$> l) ++ (res_id <$> results u).
Proof.
  intros Hl. induction Hl as [|p l Hp Hl IH]; intros Hn; cbn [expire].
  { exists [], [], (contTimeouts u). rewrite app_nil_r. split_and!; try done; by destruct u. }
  destruct (_ <=? _).
  - unfold mbind, GoM_bind. rewrite (finish_run p _ l u Hn). exists l, [mk_result p (Some errTimeout)], (contTimeouts u + 1).
    split_and!; try done; [by apply Forall_singleton|]. apply (all_ids_move [] l).
  - destruct IH as (l' & rs & c & E & H1 & H2 & H3); [rewrite fmap_cons in Hn; by apply NoDup_cons in Hn as [_ Hn]|].
    unfold mbind, GoM_bind. rewrite E. exists (p :: l'), rs, c. split_and!; try done; [by constructor|].
    rewrite !fmap_cons. simpl. by rewrite H3.
Qed.
Lemma ntp_check_inv o now u :
  inv o u -> exists u', ntp_check now u = Done (tt, u') /\ inv o u'
    /\ db u' = db u /\ localNode u' = localNode u /\ (out u' = out u \/ out u' = out u ++ [checkClockDrift]).
Proof.
  intros [I1 I2 I3 I4 I5 I6]. unfold ntp_check. unfold mbind at 1, GoM_bind at 1, gget.
  destruct (_ <? _); [|exists u; split_and!; try done; by left].
  destruct (_ <=? _); eexists; (split; [reflexivity|]); (split; [by split|]); split_and!; try done; [by right|by left].
Qed.
(** An iteration for the timer emits nothing but a check of the clock. *)
Lemma loop_tick_inv o now now1 now2 u :
  running u = true ->
  hoare (fun s => s = u /\ inv o u) (loop_tick now now1 now2)
    (fun _ u' => inv o u' /\ db u' = db u /\ localNode u' = localNode u /\ (out u' = out u \/ out u' = out u ++ [checkClockDrift])).
Proof.
  intros Hrun s [-> Hi]. unfold loop_tick. unfold mbind at 1, GoM_bind at 1, gmodify. unfold mbind at 1, GoM_bind at 1, gget.
  set (u0 := set_timer None (timer u) None u).
  destruct (expire_matchers o now (plist u) u0 (inv_plist _ _ Hi) (ids_fresh u (inv_ids _ _ Hi))) as (l' & rs & c & E & H1 & H2 & H3).
  unfold mbind at 1, GoM_bind at 1. change (plist u0) with (plist u). rewrite E. unfold mbind at 1, GoM_bind at 1.
  set (u1 := set_plist l' _).
  assert (Hi1 : inv o u1).
  { destruct Hi as [I1 I2 I3 I4 I5 I6]. split; cbn; try done.
    - etrans; [exact H3|exact I1].
    - apply Forall_app. by split.
    - by rewrite Hrun. }
  destruct (ntp_check_inv o now1 u1 Hi1) as (u2 & E2 & Hi2 & Hdb & Hse & Ho). unfold mbind at 1, GoM_bind at 1. rewrite E2.
  destruct (resetTimeout_inv now2 o u2 _ (conj eq_refl Hi2)) as ([] & u3 & E3 & Hi3 & [F1 F2 F3]).
  exists tt, u3. split; [exact E3|]. split_and!; [done|by rewrite F1, Hdb|by rewrite F2, Hse|rewrite F3; exact Ho].
Qed.
Lemma finish_all_spec l (u : UDPv4) :
  NoDup ((m_id <$> l) ++ (res_id <$> results u)) ->
  finish_all l u = Done (tt, set_results (fresh u) (results u ++ ((fun p => mk_result p (Some errClosed)) <$> l)) u).
Proof.
  revert u. induction l as [|p l IH]; intros u Hn; cbn [finish_all].
  { rewrite app_nil_r. by destruct u. }
  unfold mbind, GoM_bind. rewrite (finish_run p _ l u Hn), IH.
  - cbn. by rewrite <- app_assoc.
  - cbn. by rewrite (all_ids_move [] l p).
Qed.
Lemma loop_closed_inv o u :
  closed u = true -> hoare (fun s => s = u /\ inv o u) loop_closed (fun _ u' => inv o u' /\ frame u u').
Proof.
  intros Hc s [-> Hi]. unfold loop_closed. unfold mbind at 1, GoM_bind at 1, gget. unfold mbind, GoM_bind.
  rewrite (finish_all_spec _ _ (ids_fresh u (inv_ids _ _ Hi))). exists tt. eexists. split; [done|]. split; [|done].
  destruct Hi as [I1 I2 I3 I4 I5 I6]. split; cbn; try done.
  - unfold all_ids in *. cbn. rewrite <- I1, fmap_app, Permutation_app_comm, <- list_fmap_compose. done.
  - apply Forall_app. split; [done|]. apply Forall_fmap, Forall_true. by intros p.
Qed.
(** ** Requests *)
Lemma pending_inv o e i j id ip_ pt cb u :
  (forall k t, matcher_ok o (mk_matcher k id ip_ pt t cb None)) ->
  hoare (fun s => s = u /\ inv o u) (pending e i j id ip_ pt cb) (fun k u' => k = fresh u /\ inv o u' /\ frame u u').
Proof.
  intros Hm s [-> Hi]. unfold pending, new_request. unfold mbind at 1, GoM_bind at 1. unfold mbind at 1, GoM_bind at 1, gget.
  unfold mbind at 1, GoM_bind at 1, gput. unfold mret at 1, GoM_ret at 1. unfold mbind at 1, GoM_bind at 1.
  set (k := fresh u). set (u1 := set_results (1 + k) (results u) u). change (running u1) with (running u). change (closed u1) with (closed u).
  assert (Hseq : List.seq 0 (1 + k) ≡ₚ k :: all_ids u).
  { rewrite (inv_ids _ _ Hi). fold k. rewrite Nat.add_comm, seq_app. simpl. by rewrite <- Permutation_cons_append. }
  destruct (running u && _)%bool eqn:Er.
  - apply andb_true_iff in Er as [Hr _].
    assert (Hi1 : inv o (set_plist (plist u ++ [mk_matcher k id ip_ pt (clock e i + respTimeout) cb None]) u1)).
    { destruct Hi as [I1 I2 I3 I4 I5 I6]. split; cbn [plist results fresh running closed localNode tab set_plist u1 set_results]; try done.
      - rewrite Hseq. unfold all_ids. cbn. rewrite fmap_app, <- app_assoc. simpl. by rewrite <- Permutation_middle.
      - apply Forall_app. split; [done|]. by apply Forall_singleton.
      - by rewrite Hr. }
    unfold mbind at 1, GoM_bind at 1. unfold loop_add. unfold mbind at 1, GoM_bind at 1, gmodify.
    destruct (resetTimeout_inv (clock e j) o _ _ (conj eq_refl Hi1)) as ([] & u2 & E2 & Hi2 & Hf2). 
    cbn [m_id from ip ptype m_callback reply]. change (plist u1) with (plist u). rewrite E2. exists k, u2. split; [done|].
    split_and!; try done. eapply frame_trans; [|exact Hf2]. done.
  - assert (Hc : closed u = true).
    { destruct (running u) eqn:Hr; [by destruct (closed u)|]. by destruct (inv_run _ _ Hi Hr). }
    rewrite Hc. unfold mbind, GoM_bind. rewrite (finish_run _ _ (plist u)).
    + exists k. eexists. split; [done|]. split_and!; try done. destruct Hi as [I1 I2 I3 I4 I5 I6]. split; cbn; try done.
      * change (S k) with (1 + k)%nat. rewrite Hseq. unfold all_ids. cbn. apply (all_ids_move [] (plist u) (mk_matcher k id ip_ pt 0 cb None)).
      * apply Forall_app. split; [done|]. by apply Forall_singleton.
    + change (NoDup (k :: all_ids u)). rewrite <- Hseq. apply NoDup_ListNoDup, seq_NoDup.
Qed.
Lemma handleReply_inv o e i j id ip_ data u :
  req_ok data ->
  hoare (fun s => s = u /\ inv o u) (handleReply netrestrict e i j id ip_ data)
    (fun m u' => inv o u' /\ frame u u' /\ (m = true -> answers o id ip_ data)).
Proof.
  intros Hd s [-> Hi]. unfold handleReply. unfold mbind at 1, GoM_bind at 1, gget. destruct (running u && _)%bool eqn:Er.
  - by apply (loop_reply_inv o id ip_ data (clock e i) (clock e j) u Hd).
  - assert (Hc : closed u = true).
    { destruct (running u) eqn:Hr; [by destruct (closed u)|]. by destruct (inv_run _ _ Hi Hr). }
    rewrite Hc. exists false, u. done.
Qed.

(** ** What is sent *)
Definition big (p : Packet) : Prop := match p with Neighbors _ _ _ | ENRResponse _ _ _ => True | _ => False end.
Definition sent_fits (x : output) : Prop :=
  match x with Sent _ _ p packet => len packet <= maxPacketSize /\ exists hash, Encode priv p = inr (packet, hash) | _ => True end.
Definition sent_small (x : output) : Prop := match x with Sent _ _ p _ => ~ big p | _ => True end.
(** The state after code that emits [P] only. *)
Definition emits (P : output -> Prop) (u u' : UDPv4) : Prop :=
  inv (out u') u' /\ exists os, out u' = out u ++ os /\ Forall sent_fits os /\ Forall P os.
Lemma emits_refl P u : inv (out u) u -> emits P u u.
Proof. intros Hi. split; [done|]. exists []. by rewrite app_nil_r. Qed.
Lemma emits_trans P u1 u2 u3 : emits P u1 u2 -> emits P u2 u3 -> emits P u1 u3.
Proof.
  intros (_ & o1 & E1 & F1 & H1) (Hi & o2 & E2 & F2 & H2). split; [done|]. exists (o1 ++ o2). rewrite E2, E1, app_assoc.
  split_and!; try done; apply Forall_app; by split.
Qed.
Lemma emits_frame P u u' : inv (out u) u' -> frame u u' -> emits P u u'.
Proof. intros Hi [_ _ Ho]. split; [by rewrite Ho|]. exists []. by rewrite app_nil_r. Qed.
Lemma emit_emits (P : output -> Prop) x u : inv (out u) u -> sent_fits x -> P x -> emits P u (set_out (out u ++ [x]) u).
Proof.
  intros Hi Hx HP. split; [|exists [x]; split_and!; try done; by apply Forall_singleton].
  apply (inv_mono _ [x]) in Hi. destruct Hi. by split.
Qed.
Lemma send_emits (P : output -> Prop) toaddr toid req u :
  fits req -> (forall packet, P (Sent toaddr toid req packet)) ->
  hoare (fun s => s = u /\ inv (out u) u) (send priv toaddr toid req) (fun _ u' => emits P u u' /\ db u' = db u /\ localNode u' = localNode u /\ tab u' = tab u).
Proof.
  intros Hf HP s [-> Hi]. unfold send. destruct (Encode priv req) as [|[packet hash]] eqn:E; [by exists tt, u; split; [|split; [apply emits_refl|]]|].
  exists tt. eexists. split; [done|]. split; [|done]. apply emit_emits; [done| |done]. split; [by eapply fits_Encode|by exists hash].
Qed.
Lemma sendPing_emits e i toid toaddr add u :
  bytes (addr_IP toaddr) -> match add with Some n => good_node n | None => True end ->
  hoare (fun s => s = u /\ inv (out u) u) (sendPing priv e i toid toaddr add)
    (fun _ u' => emits sent_small u u' /\ db u' = db u /\ localNode u' = localNode u).
Proof.
  intros Hb Ha s [-> Hi]. unfold sendPing. unfold mbind at 1, GoM_bind at 1, gget.
  pose proof (makePing_fits (localNode u) toaddr (clock e i) (inv_self _ _ Hi) Hb) as Hf.
  set (req := makePing _ _ _) in *. destruct (Encode priv req) as [er|[packet hash]] eqn:E.
  - set (p := fun k => mk_matcher k zeroID [] 0 0 (onPong [] None) None).
    unfold new_request. unfold mbind, GoM_bind, gget, gput, mret, GoM_ret. set (u1 := set_results (1 + fresh u) (results u) u).
    assert (Hseq : List.seq 0 (1 + fresh u) ≡ₚ fresh u :: all_ids u).
    { rewrite (inv_ids _ _ Hi), Nat.add_comm, seq_app. simpl. by rewrite <- Permutation_cons_append. }
    rewrite (finish_run (p (fresh u)) _ (plist u) u1).
    + eexists _, _. split; [done|]. split; [|done]. split; [|exists []; by rewrite app_nil_r].
      destruct Hi as [I1 I2 I3 I4 I5 I6]. split; cbn [plist results fresh running closed localNode tab set_plist u1 set_results out]; try done.
      * rewrite Hseq. unfold all_ids. apply (all_ids_move [] (plist u) (p (fresh u))).
      * apply Forall_app. split; [done|]. by apply Forall_singleton.
    + change (NoDup (fresh u :: all_ids u)). rewrite <- Hseq. apply NoDup_ListNoDup, seq_NoDup.
  - set (os := [UDPContact toaddr; Sent toaddr toid req packet]).
    assert (Hm : forall k t, matcher_ok (out u ++ os) (mk_matcher k toid (addr_IP toaddr) PongPacket t (onPong hash add) None)).
    { intros k t. split; [done|]. split; [|done]. eexists toaddr, _, _, _, _, _, packet. split_and!; [|exact E|done].
      apply elem_of_app. right. apply list_elem_of_further, list_elem_of_here. }
    destruct (pending_inv (out u ++ os) e (i + 1) (i + 2) toid (addr_IP toaddr) PongPacket (onPong hash add) u Hm u (conj eq_refl (inv_mono _ _ _ Hi)))
      as (k & u1 & E1 & _ & Hi1 & [F1 F2 F3]).
    unfold mbind at 1, GoM_bind at 1. rewrite E1. exists k. eexists. split; [done|]. cbn [db localNode set_out]. split; [|done].
    assert (Ho : (out u1 ++ [UDPContact toaddr]) ++ [Sent toaddr toid req packet] = out u ++ os) by (by rewrite F3, <- app_assoc).
    split; cbn [out set_out]; rewrite Ho; [destruct Hi1; by split|].
    exists os. split_and!; [done| |]; unfold os; repeat (apply Forall_cons; split); try done; [|intros []].
    split; [by eapply fits_Encode|by exists hash].
Qed.

(** ** Handlers *)
Lemma LastPong_ping d id ip_ t id' ip' :
  length id = 32%nat -> length id' = 32%nat -> is_Some (To16 ip_) -> storable t ->
  LastPongReceived (UpdateLastPingReceived d id ip_ t) id' ip' = LastPongReceived d id' ip'.
Proof. intros. unfold LastPongReceived, UpdateLastPingReceived. rewrite time_cell by done. by rewrite decide_False by (by intros (_ & _ & ?)). Qed.
(** The pongs on file are the same. *)
Definition same_pongs (d d' : store) : Prop := forall id ip_, length id = 32%nat -> LastPongReceived d' id ip_ = LastPongReceived d id ip_.
Definition env_ok (e : env) : Prop := forall i, storable (clock e i).
Definition addr_ok (a : UDPAddr) : Prop := bytes (addr_IP a) /\ is_Some (To16 (addr_IP a)).
Lemma emits_with P u u' d t :
  emits P u u' -> good_table t -> emits P u (set_db d (set_tab t u')).
Proof. intros (Hi & os & Ho & H) Ht. split; [|by exists os]. destruct Hi. by split. Qed.

Lemma handlePing_emits e senderKey fromaddr fromID mac From To u :
  env_ok e -> addr_ok fromaddr -> IsOnCurve (key_X senderKey) (key_Y senderKey) = true -> bytes mac -> length mac = 32%nat -> ep_ok From ->
  hoare (fun s => s = u /\ inv (out u) u) (handlePing priv e senderKey fromaddr fromID mac From To)
    (fun _ u' => emits sent_small u u' /\ same_pongs (db u) (db u')).
Proof.
  intros He [Hb Hip] Hk Hm Hml (_ & _ & Ht) s [-> Hi]. unfold handlePing. unfold mbind at 1, GoM_bind at 1, gget.
  assert (Hf : fits (Pong (NewEndpoint fromaddr (ep_TCP From)) mac (expiry (clock e 1)) (seq (node_r (localNode u))) None)).
  { apply pong_fits; try done; [unfold len; lia|]. apply (wf_seq _ (proj1 (inv_self _ _ Hi))). }
  destruct (send_emits sent_small fromaddr fromID _ u Hf ltac:(by intros ? []) u (conj eq_refl Hi)) as ([] & u1 & E1 & X1 & D1 & S1 & T1).
  unfold mbind at 1, GoM_bind at 1. rewrite E1.
  destruct (NewV4_good senderKey (addr_IP fromaddr) (ep_TCP From) (addr_Port fromaddr) Hk Hb (or_intror Hip)) as (n & -> & Hid & Hn & _).
  assert (Hidl : length (node_id n) = 32%nat) by (rewrite Hid; apply Keccak256_len).
  assert (Hs : exists u2, (if bondExpiration <? Sub (clock e 2) (LastPongReceived (db u) (node_id n) (addr_IP fromaddr)) then
       sendPing priv e 3 fromID fromaddr (Some (wrapNode (to_enode n))) ;; mret tt
     else gmodify (fun u => set_tab (addVerifiedNode (tab u) (wrapNode (to_enode n)) (clock e 3)) u)) u1 = Done (tt, u2)
     /\ emits sent_small u1 u2 /\ db u2 = db u1).
  { destruct (_ <? _).
    - destruct (sendPing_emits e 3 fromID fromaddr (Some (wrapNode (to_enode n))) u1 Hb Hn u1 (conj eq_refl (proj1 X1))) as (k & u2 & E2 & X2 & D2 & _).
      unfold mbind, GoM_bind. rewrite E2. by exists u2.
    - eexists. split; [done|]. split; [|done]. pose proof (emits_refl sent_small u1 (proj1 X1)) as X. apply (emits_with _ _ _ (db u1) (addVerifiedNode (tab u1) (wrapNode (to_enode n)) (clock e 3))) in X.
      + by destruct u1.
      + apply addVerifiedNode_good; [|done]. apply (inv_tab _ _ (proj1 X1)). }
  destruct Hs as (u2 & E2 & X2 & D2). unfold mbind at 1, GoM_bind at 1. rewrite E2. exists tt. eexists. split; [done|].
  pose proof (emits_trans _ _ _ _ X1 X2) as X. apply (emits_with _ _ _ (UpdateLastPingReceived (db u2) (node_id n) (addr_IP fromaddr) (clock e 6)) (tab u2)) in X; [|apply (inv_tab _ _ (proj1 X2))].
  split.
  - eapply emits_trans; [exact X|]. replace (set_tab (tab u2) u2) with u2 by (by destruct u2). apply emit_emits; [|done..].
    replace (set_tab (tab u2) u2) with u2 in X by (by destruct u2). apply X.
  - intros id ip_ Hl. cbn [db set_out set_db]. rewrite LastPong_ping by done. by rewrite D2, D1.
Qed.
Definition proof_of (o : list output) (e : env) (fromaddr : UDPAddr) (id : ID) (req : Packet) (ip_ : IP) (t : Z) : Prop :=
  To16 (addr_IP fromaddr) = To16 ip_ /\ t = Unix (clock e 3) * 10 ^ 9
  /\ exists To tok ex s r ip', req = Pong To tok ex s r /\ IP_Equal ip' (addr_IP fromaddr) = true /\ pinged o id ip' tok.
Lemma verifyPong_emits e fromaddr fromID To tok ex sq r u :
  env_ok e -> addr_ok fromaddr -> length fromID = 32%nat ->
  let req := Pong To tok ex sq r in
  hoare (fun s => s = u /\ inv (out u) u) (verifyPong netrestrict e fromaddr fromID req To ex)
    (fun _ u' => emits sent_small u u' /\ forall id ip_, length id = 32%nat ->
       LastPongReceived (db u') id ip_ = LastPongReceived (db u) id ip_
       \/ id = fromID /\ proof_of (out u) e fromaddr id req ip_ (LastPongReceived (db u') id ip_)).
Proof.
  intros He [Hb Hip] Hid req s [-> Hi]. unfold verifyPong. destruct (Expired _ _).
  { exists (Some errExpired), u. split; [done|]. split; [by apply emits_refl|]. intros; by left. }
  destruct (handleReply_inv (out u) e 1 2 fromID (addr_IP fromaddr) req u I u (conj eq_refl Hi)) as (ok & u1 & E1 & Hi1 & Hf1 & Ha).
  unfold mbind at 1, GoM_bind at 1. rewrite E1. pose proof (emits_frame sent_small u u1 Hi1 Hf1) as X1. destruct Hf1 as [F1 F2 F3].
  destruct ok; cbn [negb].
  - specialize (Ha eq_refl). exists None. eexists. split; [done|]. split.
    + eapply emits_trans; [exact X1|].
      pose proof (emit_emits sent_small (ip_statement fromaddr To) u1 (proj1 X1) I I) as X2.
      eapply (emits_with _ _ _ (UpdateLastPongReceived (db u1) fromID (addr_IP fromaddr) (clock e 3)) (tab u1)) in X2; [|apply (inv_tab _ _ (proj1 X1))].
      by destruct u1.
    + intros id ip_ Hl. cbn [db set_db set_out]. unfold LastPongReceived, UpdateLastPongReceived. rewrite F1, time_cell by done.
      destruct (decide _) as [(<- & Hto & _)|]; [right|by left]. split; [done|]. split; [done|]. split; [done|].
      destruct (Ha _ _ _ _ _ eq_refl) as (ip' & H1 & H2). by exists To, tok, ex, sq, r, ip'.
  - exists (Some errUnsolicitedReply), u1. split; [done|]. split; [done|]. intros id ip_ _. left. by rewrite F1.
Qed.
(** Large packets go to the sender of the request, if it is bonded. *)
Definition bonded_out (e : env) (a : UDPAddr) (id : ID) (u : UDPv4) (x : output) : Prop :=
  match x with Sent a' i p _ => big p -> a' = a /\ i = id /\ checkBond u (clock e 1) id (addr_IP a) = true | _ => True end.
Lemma emits_impl (P Q : output -> Prop) u u' : (forall x, P x -> Q x) -> emits P u u' -> emits Q u u'.
Proof. intros HPQ (Hi & os & Ho & Hf & Hp). split; [done|]. exists os. split_and!; try done. by eapply Forall_impl. Qed.
Lemma small_bonded e a id u x : sent_small x -> bonded_out e a id u x.
Proof. by destruct x. Qed.
Lemma send_all_emits P toaddr toid l u :
  Forall (fun p => fits p /\ forall packet, P (Sent toaddr toid p packet)) l ->
  hoare (fun s => s = u /\ inv (out u) u) (send_all priv toaddr toid l) (fun _ u' => emits P u u' /\ db u' = db u).
Proof.
  intros Hl. revert u. induction Hl as [|p l [Hf HP] Hl IH]; intros u s [-> Hi]; cbn [send_all].
  { exists tt, u. split; [done|]. split; [by apply emits_refl|done]. }
  destruct (send_emits P toaddr toid p u Hf HP u (conj eq_refl Hi)) as ([] & u1 & E1 & X1 & D1 & _).
  unfold mbind, GoM_bind. rewrite E1. destruct (IH u1 u1 (conj eq_refl (proj1 X1))) as ([] & u2 & E2 & X2 & D2).
  exists tt, u2. split; [exact E2|]. split; [by eapply emits_trans|by rewrite D2].
Qed.
Lemma verify_reply_emits e fromaddr fromID req u :
  req_ok req ->
  hoare (fun s => s = u /\ inv (out u) u) (verify_reply netrestrict e fromaddr fromID req) (fun _ u' => emits sent_small u u' /\ db u' = db u).
Proof.
  intros Hr s [-> Hi]. unfold verify_reply.
  destruct (handleReply_inv (out u) e 1 2 fromID (addr_IP fromaddr) req u Hr u (conj eq_refl Hi)) as (ok & u1 & E1 & Hi1 & Hf1 & _).
  unfold mbind, GoM_bind. rewrite E1. eexists _, u1. split; [done|]. split; [by apply emits_frame|by destruct Hf1].
Qed.
Lemma bonded_emits e fromaddr fromID exp (handle : GoM UDPv4 unit) u :
  (checkBond u (clock e 1) fromID (addr_IP fromaddr) = true ->
     hoare (fun s => s = u /\ inv (out u) u) handle (fun _ u' => emits (bonded_out e fromaddr fromID u) u u' /\ db u' = db u)) ->
  hoare (fun s => s = u /\ inv (out u) u) (bonded e fromaddr fromID exp handle)
    (fun _ u' => emits (bonded_out e fromaddr fromID u) u u' /\ db u' = db u).
Proof.
  intros Hh s [-> Hi]. unfold bonded. destruct (Expired _ _); [eexists _, u; split; [done|]; split; [by apply emits_refl|done]|].
  unfold mbind at 1, GoM_bind at 1, gget. destruct (checkBond _ _ _ _); cbn [negb]; [|eexists _, u; split; [done|]; split; [by apply emits_refl|done]].
  destruct (Hh eq_refl u (conj eq_refl Hi)) as ([] & u1 & E1 & X1). unfold mbind, GoM_bind. rewrite E1. by eexists _, u1.
Qed.
Lemma handleFindnode_emits e fromaddr fromID target u :
  checkBond u (clock e 1) fromID (addr_IP fromaddr) = true ->
  hoare (fun s => s = u /\ inv (out u) u) (handleFindnode priv e fromaddr fromID target)
    (fun _ u' => emits (bonded_out e fromaddr fromID u) u u' /\ db u' = db u).
Proof.
  intros Hc s [-> Hi]. unfold handleFindnode. unfold mbind at 1, GoM_bind at 1, gget. apply send_all_emits; [|done].
  pose proof (findnodeByID_good (tab u) (Keccak256 target) bucketSize true (inv_tab _ _ Hi)) as Hg.
  pose proof (chunks_size fromaddr _ [] false Hg ltac:(constructor) ltac:(done)) as Hs.
  rewrite Forall_map. eapply Forall_impl; [exact Hs|]. intros ns [Hns Hl]. pose proof (u64_range (Unix (clock e 2 + expiration))) as He.
  split; [|done]. split.
  - split; [|split; [exact He|constructor]]. eapply Forall_impl; [exact Hns|]. by intros n [? _].
  - pose proof (neighbors_size ns (expiry (clock e 2)) Hns He Hl) as Hz. unfold headSize, macSize, sigSize, V4WireProps.maxPacketSize in Hz. lia.
Qed.
Lemma DecodePubkey_on_curve e k : DecodePubkey e = Some k -> IsOnCurve (key_X k) (key_Y k) = true.
Proof. unfold DecodePubkey. destruct (IsOnCurve _ _) eqn:E; [|done]. by intros [= <-]. Qed.
Lemma handle_req_spec e fromaddr req key hash u :
  env_ok e -> addr_ok fromaddr -> bytes hash -> length hash = 32%nat -> req_ok req ->
  hoare (fun s => s = u /\ inv (out u) u) (handle_req priv netrestrict e fromaddr req key hash)
    (fun _ u' => emits (bonded_out e fromaddr (Keccak256 key) u) u u' /\ forall id ip_, length id = 32%nat ->
       LastPongReceived (db u') id ip_ = LastPongReceived (db u) id ip_
       \/ id = Keccak256 key /\ proof_of (out u) e fromaddr id req ip_ (LastPongReceived (db u') id ip_)).
Proof.
  intros He Ha Hh Hhl Hr. set (B := bonded_out e fromaddr (Keccak256 key) u).
  assert (Hweak : forall (m : GoM UDPv4 (option udpErr)), hoare (fun s => s = u /\ inv (out u) u) m (fun _ u' => emits B u u' /\ db u' = db u) ->
    hoare (fun s => s = u /\ inv (out u) u) m (fun _ u' => emits B u u' /\ forall id ip_, length id = 32%nat ->
       LastPongReceived (db u') id ip_ = LastPongReceived (db u) id ip_
       \/ id = Keccak256 key /\ proof_of (out u) e fromaddr id req ip_ (LastPongReceived (db u') id ip_))).
  { intros m Hm. eapply hoare_post; [exact Hm|]. intros _ u' [X ->]. split; [done|]. intros; by left. }
  assert (Hret : forall x : option udpErr, hoare (fun s => s = u /\ inv (out u) u) (mret x) (fun _ u' => emits B u u' /\ db u' = db u)).
  { intros x. apply hoare_ret. intros s [-> Hi]. split; [by apply emits_refl|done]. }
  assert (Hsm : forall (m : GoM UDPv4 (option udpErr)), hoare (fun s => s = u /\ inv (out u) u) m (fun _ u' => emits sent_small u u' /\ db u' = db u) ->
    hoare (fun s => s = u /\ inv (out u) u) m (fun _ u' => emits B u u' /\ db u' = db u)).
  { intros m Hm. eapply hoare_post; [exact Hm|]. intros _ u' [X Hd]. split; [|done]. eapply emits_impl; [|exact X]. apply small_bonded. }
  destruct req as [v f t ex s r|t tok ex s r|tg ex r|ns ex r|ex r|tok rec r]; cbn [handle_req].
  - destruct (DecodePubkey key) as [k|] eqn:Ek; [|apply Hweak, Hret]. destruct (Expired _ _); [apply Hweak, Hret|].
    eapply hoare_bind; [by apply handlePing_emits; try done; eapply DecodePubkey_on_curve|]. intros []. apply hoare_ret.
    intros u' [X Hp]. split; [eapply emits_impl; [apply small_bonded|exact X]|]. intros id ip_ Hl. left. by apply Hp.
  - eapply hoare_post; [by apply verifyPong_emits; try done; apply Keccak256_len|]. intros _ u' [X Hp].
    split; [eapply emits_impl; [apply small_bonded|exact X]|done].
  - apply Hweak, bonded_emits. apply handleFindnode_emits.
  - destruct (Expired _ _); [apply Hweak, Hret|]. by apply Hweak, Hsm, verify_reply_emits.
  - apply Hweak, bonded_emits. intros Hc s [-> Hi]. unfold mbind, GoM_bind, gget.
    assert (Hf : fits (ENRResponse hash (node_r (localNode u)) None)) by (apply enrResponse_fits; [done|unfold len; lia|apply (inv_self _ _ Hi)]).
    destruct (send_emits B fromaddr (Keccak256 key) _ u Hf ltac:(done) u (conj eq_refl Hi)) as ([] & u1 & E1 & X1 & D1 & _). by exists tt, u1.
  - by apply Hweak, Hsm, verify_reply_emits.
Qed.

(** ** Steps *)
Definition event_ok (ev : event) : Prop :=
  match ev with
  | Datagram a data => addr_ok a /\ bytes data
  | AskPing n => self_ok n
  | AskBond _ a => bytes (addr_IP a)
  | AskNodes _ _ target => bytes target /\ length target = 64%nat
  | NewSelf n => self_ok n
  | TableStep t => good_table t
  | FailsStep id _ fails => length id = 32%nat /\ is_i64 fails
  | NodeStep n => length (node_id n) = 32%nat
  | _ => True
  end.
Definition cut (data : list Z) : list Z := take (Z.to_nat maxPacketSize) data.
(** The datagram is a packet of the node. *)
Definition packet_of (ev : event) (a : UDPAddr) (id : ID) (req : Packet) : Prop :=
  exists data key hash, ev = Datagram a data /\ Decode (cut data) = inr (req, key, hash) /\ id = Keccak256 key.
Definition step_out (e : env) (ev : event) (u : UDPv4) (x : output) : Prop :=
  match x with
  | Sent a id p _ => big p -> (exists req, packet_of ev a id req) /\ checkBond u (clock e 1) id (addr_IP a) = true
  | _ => True
  end.
Definition step_pongs (e : env) (ev : event) (u u' : UDPv4) : Prop :=
  forall id ip_, length id = 32%nat ->
    LastPongReceived (db u') id ip_ = LastPongReceived (db u) id ip_
    \/ LastPongReceived (db u') id ip_ = 0
    \/ exists a req, packet_of ev a id req /\ proof_of (out u) e a id req ip_ (LastPongReceived (db u') id ip_).
Definition step_post (e : env) (ev : event) (u u' : UDPv4) : Prop := emits (step_out e ev u) u u' /\ step_pongs e ev u u'.

Lemma step_quiet e ev u u' : emits sent_small u u' -> db u' = db u -> step_post e ev u u'.
Proof.
  intros X Hd. split; [|intros id ip_ _; left; by rewrite Hd]. eapply emits_impl; [|exact X]. by intros [].
Qed.
Lemma step_inv e ev u u' : inv (out u) u' -> frame u u' -> step_post e ev u u'.
Proof. intros Hi Hf. apply step_quiet; [by apply emits_frame|apply Hf]. Qed.
Lemma readLoop_post e a data u :
  env_ok e -> addr_ok a -> bytes data ->
  hoare (fun s => s = u /\ inv (out u) u) (readLoop priv netrestrict e a data) (fun _ u' => step_post e (Datagram a data) u u').
Proof.
  intros He Ha Hb. unfold readLoop. fold (cut data). assert (Hcl : (length (cut data) <= 1280)%nat) by (unfold cut; rewrite length_take; change (Z.to_nat maxPacketSize) with 1280%nat; lia).
  assert (Hcb : bytes (cut data)) by (by apply Forall_take).
  eapply (hoare_bind _ _ (fun _ u' => step_post e (Datagram a data) u u')).
  - unfold handlePacket. destruct (Decode (cut data)) as [er|[[req key] hash]] eqn:Ed.
    { apply hoare_ret. intros s [-> Hi]. by apply step_inv. }
    destruct (Decode_ok _ _ _ _ Hcb ltac:(unfold len; lia) Ed) as (_ & _ & Hh & Hhl & Hr).
    eapply hoare_post; [by apply handle_req_spec|]. intros _ u' [X Hp]. split.
    + eapply emits_impl; [|exact X]. intros []; try done. intros Hx Hbig. destruct (Hx Hbig) as (-> & -> & Hc). split; [|done].
      exists req. by exists data, key, hash.
    + intros id ip_ Hl. destruct (Hp id ip_ Hl) as [?|[-> ?]]; [by left|]. right. right. exists a, req. split; [|done]. by exists data, key, hash.
  - intros [er|]; [|by apply hoare_ret]. apply hoare_modify. intros s [X Hp]. split; [|exact Hp].
    eapply emits_trans; [exact X|]. apply emit_emits; [apply X|done|done].
Qed.
Lemma ask_post {A} e ev (m : GoM UDPv4 A) u :
  hoare (fun s => s = u /\ inv (out u) u) m (fun _ u' => emits sent_small u u' /\ db u' = db u) ->
  hoare (fun s => s = u /\ inv (out u) u) (m ;; mret tt) (fun _ u' => step_post e ev u u').
Proof.
  intros Hm. eapply hoare_bind; [exact Hm|]. intros a. apply hoare_ret. intros s [X Hd]. by apply step_quiet.
Qed.
Lemma pending_send e i j id a pt cb req u :
  (forall k t, matcher_ok (out u) (mk_matcher k id (addr_IP a) pt t cb None)) -> fits req -> ~ big req ->
  hoare (fun s => s = u /\ inv (out u) u) (k ← pending e i j id (addr_IP a) pt cb; send priv a id req ;; mret k)
    (fun _ u' => emits sent_small u u' /\ db u' = db u).
Proof.
  intros Hm Hf Hb s [-> Hi]. destruct (pending_inv (out u) e i j id (addr_IP a) pt cb u Hm u (conj eq_refl Hi)) as (k & u1 & E1 & _ & Hi1 & Hf1).
  pose proof (emits_frame sent_small u u1 Hi1 Hf1) as X1. destruct Hf1 as [F1 F2 F3]. unfold mbind at 1, GoM_bind at 1. rewrite E1.
  destruct (send_emits sent_small a id req u1 Hf ltac:(done) u1 (conj eq_refl (proj1 X1))) as ([] & u2 & E2 & X2 & D2 & _).
  unfold mbind, GoM_bind. rewrite E2. exists k, u2. split; [done|]. split; [by eapply emits_trans|by rewrite D2].
Qed.
Lemma set_db_post e ev d u :
  inv (out u) u -> (forall id ip_, length id = 32%nat -> LastPongReceived d id ip_ = LastPongReceived (db u) id ip_ \/ LastPongReceived d id ip_ = 0) ->
  step_post e ev u (set_db d u).
Proof.
  intros Hi Hd. split.
  - split; [destruct Hi; by split|]. exists []. by rewrite app_nil_r.
  - intros id ip_ Hl. destruct (Hd id ip_ Hl); auto.
Qed.
Lemma exec_post e ev u :
  env_ok e -> event_ok ev -> hoare (fun s => s = u /\ inv (out u) u) (exec priv netrestrict e ev) (fun _ u' => step_post e ev u u').
Proof.
  intros He Hv. destruct ev as [a data| | | | |n|id a|id a tg|n|n|tb|id ip_ fs|n|now]; cbn [exec].
  - destruct Hv. by apply readLoop_post.
  - apply hoare_modify. intros s [-> Hi]. destruct (timer u) as [dl|]; [|by apply step_inv]. destruct (_ <=? _); [|by apply step_inv].
    apply step_inv; [destruct Hi; by split|done].
  - intros s [-> Hi]. unfold mbind at 1, GoM_bind at 1, gget. destruct (running u) eqn:Er; [|exists tt, u; split; [done|by apply step_inv]].
    destruct (tick u) as [now|]; [|exists tt, u; split; [done|by apply step_inv]].
    destruct (loop_tick_inv (out u) now (clock e 0) (clock e 1) u Er u (conj eq_refl Hi)) as ([] & u1 & E1 & Hi1 & D1 & _ & Ho).
    exists tt, u1. split; [done|]. apply step_quiet; [|done]. destruct Ho as [Ho|Ho]; (split; [rewrite Ho|]).
    + done.
    + exists []. by rewrite app_nil_r.
    + by apply inv_mono.
    + eexists. split; [done|]. split; by apply Forall_singleton.
  - intros s [-> Hi]. unfold mbind at 1, GoM_bind at 1, gget. destruct (running u && closed u)%bool eqn:Er; [|exists tt, u; split; [done|by apply step_inv]].
    apply andb_true_iff in Er as [_ Hc]. destruct (loop_closed_inv (out u) u Hc u (conj eq_refl Hi)) as ([] & u1 & E1 & Hi1 & Hf).
    exists tt, u1. split; [done|by apply step_inv].
  - apply hoare_modify. intros s [-> Hi]. apply step_inv; [|done]. destruct Hi as [I1 I2 I3 I4 I5 I6]. split; try done. intros Hr. split; [done|]. by apply I4.
  - apply ask_post. eapply hoare_post; [apply sendPing_emits; [apply (Node_IP_ok n (proj1 Hv) (proj2 Hv))|done]|]. by intros k u' (X & D & _).
  - apply ask_post. unfold ensureBond. apply hoare_get. intros s0 [-> Hi]. destruct (_ || _)%bool.
    + eapply hoare_bind; [eapply hoare_pre; [|apply (sendPing_emits e 1 id a None u Hv I)]; by intros s ->|].
      intros k. apply hoare_ret. by intros s (X & D & _).
    + apply hoare_ret. intros s ->. split; [by apply emits_refl|done].
  - apply ask_post. unfold findnode_query. apply pending_send; [intros k t; split; [done|constructor]|destruct Hv; by apply findnode_fits|intros []].
  - apply ask_post. unfold RequestENR_query. destruct (Encode priv _) as [er|[packet hash]] eqn:E.
    { apply hoare_ret. intros s [-> Hi]. split; [by apply emits_refl|done]. }
    intros s [-> Hi]. destruct (pending_inv (out u) e 1 2 (node_id n) (Node_IP n) ENRResponsePacket (onENR hash) u ltac:(done) u (conj eq_refl Hi)) as (k & u1 & E1 & _ & Hi1 & Hf1).
    cbn [addr_IP]. unfold mbind at 1, GoM_bind at 1. rewrite E1. pose proof (emits_frame sent_small u u1 Hi1 Hf1) as X1. destruct Hf1 as [F1 F2 F3].
    exists (inr k). eexists. split; [done|]. split; [|exact F1]. eapply emits_trans; [exact X1|]. apply emit_emits; [apply X1| |intros []].
    split; [eapply fits_Encode; [|exact E]; apply enrRequest_fits|by exists hash].
  - apply hoare_modify. intros s [-> Hi]. apply step_quiet; [|done]. split; [destruct Hi; by split|]. exists []. by rewrite app_nil_r.
  - apply hoare_modify. intros s [-> Hi]. apply step_quiet; [|done]. split; [destruct Hi; by split|]. exists []. by rewrite app_nil_r.
  - apply hoare_modify. intros s [-> Hi]. apply set_db_post; [done|]. intros id' ip' Hl. left. destruct Hv. by apply UpdateFindFails_time.
  - apply hoare_modify. intros s [-> Hi]. destruct (UpdateNode (db u) n) as [er|d] eqn:E; [by apply step_inv|].
    apply set_db_post; [done|]. intros id' ip' Hl. left. by eapply UpdateNode_time.
  - apply hoare_modify. intros s [-> Hi]. apply set_db_post; [done|]. intros id' ip' Hl. apply expireNodes_time.
Qed.

(** ** Runs *)
Definition step_ok (x : env * event) : Prop := env_ok x.1 /\ bondExpiration <= clock x.1 1 /\ event_ok x.2.
Abbreviation steps := (exec_all priv netrestrict).
Lemma exec_all_app l1 l2 u : steps (l1 ++ l2) u = (steps l1 ;; steps l2) u.
Proof.
  revert u. induction l1 as [|[e ev] l1 IH]; intros u; [done|]. cbn [exec_all app]. unfold mbind, GoM_bind in *.
  destruct (exec priv netrestrict e ev u) as [[[] u1]| |]; [|done..]. apply IH.
Qed.
Lemma start_inv self_ d t : self_ok self_ -> good_table t -> inv [] (ListenV4 self_ d t).
Proof. intros Hs Ht. by split. Qed.
(** The pongs on file at the end of a run: a run before them sent the ping. *)
Definition proved_by (start : UDPv4) (l : list (env * event)) (id : ID) (ip_ : IP) (t : Z) : Prop :=
  exists l1 e ev l2 u1 a req, l = l1 ++ (e, ev) :: l2 /\ steps l1 start = Done (tt, u1)
    /\ packet_of ev a id req /\ proof_of (out u1) e a id req ip_ t.
Definition bonded_by (start : UDPv4) (l : list (env * event)) (id : ID) (a : UDPAddr) : Prop :=
  exists l1 e ev l2 u1 req, l = l1 ++ (e, ev) :: l2 /\ steps l1 start = Done (tt, u1)
    /\ packet_of ev a id req /\ checkBond u1 (clock e 1) id (addr_IP a) = true.
Lemma steps_inv start l :
  inv (out start) start -> out start = [] -> Forall step_ok l ->
  exists u, steps l start = Done (tt, u) /\ inv (out u) u
    /\ (forall id ip_, length id = 32%nat -> LastPongReceived (db u) id ip_ = LastPongReceived (db start) id ip_
          \/ LastPongReceived (db u) id ip_ = 0 \/ proved_by start l id ip_ (LastPongReceived (db u) id ip_))
    /\ Forall sent_fits (out u) /\ (forall a id p packet, Sent a id p packet ∈ out u -> big p -> bonded_by start l id a).
Proof.
  intros Hi Ho Hl. induction l as [|[e ev] l IH] using rev_ind.
  { exists start. split_and!; try done; [intros; by left|by rewrite Ho|]. intros a id p packet. rewrite Ho. by intros ?%elem_of_nil. }
  apply Forall_app in Hl as [Hl Hx]. apply Forall_singleton in Hx as (He & _ & Hv). destruct (IH Hl) as (u & E & Hi1 & Hp & Hf & Hs).
  destruct (exec_post e ev u He Hv u (conj eq_refl Hi1)) as ([] & u' & E' & ((Hi' & os & Ho' & Hf' & Hs') & Hp')).
  exists u'. split; [rewrite exec_all_app; unfold mbind, GoM_bind; rewrite E; cbn [exec_all]; unfold mbind, GoM_bind; by rewrite E'|].
  split; [done|]. split; [|split].
  - intros id ip_ Hid. destruct (Hp' id ip_ Hid) as [Eq|[Eq|(a & req & Hk & Hpr)]]; [|by right; left|].
    + rewrite Eq. destruct (Hp id ip_ Hid) as [?|[?|(l1 & e1 & ev1 & l2 & u1 & a & req & -> & H)]]; [by left|by right; left|].
      right. right. exists l1, e1, ev1, (l2 ++ [(e, ev)]), u1, a, req. split; [by rewrite <- app_assoc|done].
    + right. right. by exists l, e, ev, [], u, a, req.
  - rewrite Ho'. apply Forall_app. by split.
  - intros a id p packet. rewrite Ho', elem_of_app. intros [Hin|Hin] Hb.
    + destruct (Hs a id p packet Hin Hb) as (l1 & e1 & ev1 & l2 & u1 & req & -> & H).
      exists l1, e1, ev1, (l2 ++ [(e, ev)]), u1, req. split; [by rewrite <- app_assoc|done].
    + rewrite Forall_forall in Hs'. destruct (Hs' _ Hin Hb) as [[req Hk] Hc]. by exists l, e, ev, [], u, req.
Qed.

(** C7.  The endpoint neither panics nor blocks.  Every request that was made is
    pending or has exactly one result, none is pending after the loop has ended,
    and the replies of requests that succeeded have their type, so that the
    callers' conversions succeed. *)
Theorem udp_safe self_ d t l :
  self_ok self_ -> good_table t -> Forall step_ok l ->
  exists u, steps l (ListenV4 self_ d t) = Done (tt, u)
    /\ (m_id <$> plist u) ++ (res_id <$> results u) ≡ₚ List.seq 0 (fresh u)
    /\ (running u = false -> plist u = [])
    /\ (forall r, r ∈ results u -> ptype (rm r) = PongPacket -> exists x, ping_result r = Done x)
    /\ (forall r n, r ∈ results u -> ptype (rm r) = ENRResponsePacket -> exists x, RequestENR_result n r = Done x).
Proof.
  intros Hs Ht Hl. destruct (steps_inv (ListenV4 self_ d t) l (start_inv self_ d t Hs Ht) eq_refl Hl) as (u & E & Hi & _).
  exists u. split_and!; [done|apply (inv_ids _ _ Hi)| | |].
  - intros Hr. by destruct (inv_run _ _ Hi Hr).
  - intros r Hr Hty. pose proof (inv_results _ _ Hi) as Hrs. rewrite Forall_forall in Hrs. specialize (Hrs r Hr).
    unfold ping_result. destruct (err r) eqn:Ee; [by eexists|]. destruct (Hrs Ee) as (p & -> & Hk). destruct p; try (by rewrite Hty in Hk). by eexists.
  - intros r n Hr Hty. pose proof (inv_results _ _ Hi) as Hrs. rewrite Forall_forall in Hrs. specialize (Hrs r Hr).
    unfold RequestENR_result. destruct (err r) eqn:Ee; [by eexists|]. destruct (Hrs Ee) as (p & -> & Hk). destruct p; try (by rewrite Hty in Hk). by eexists.
Qed.

Lemma Sub_lt now t : Sub now t < bondExpiration -> now - t < bondExpiration.
Proof. unfold Sub, bondExpiration. lia. Qed.
Lemma send_all_run toaddr toid l (u : UDPv4) :
  send_all priv toaddr toid l u = Done (tt, set_out (out u ++ omap (fun p =>
    match Encode priv p with inr (b, _) => Some (Sent toaddr toid p b) | inl _ => None end) l) u).
Proof.
  revert u. induction l as [|p l IH]; intros u; cbn [send_all omap list_omap]; [rewrite app_nil_r; by destruct u|].
  unfold mbind, GoM_bind, send. destruct (Encode priv p) as [er|[b h]]; [apply IH|]. unfold emit, gmodify. rewrite IH. cbn [out set_out].
  by rewrite <- app_assoc.
Qed.
(** What a bonded node is told: the closest live nodes whose address may be
    relayed to it, in order, in at least one packet of at most twelve nodes. *)
Theorem findnode_answer e fromaddr fromID target u :
  good_table (tab u) ->
  exists chunks,
    concat chunks = nodeToRPC <$> filter (fun n => allowed fromaddr n = true) (findnodeByID (tab u) (Keccak256 target) bucketSize true)
    /\ chunks <> [] /\ Forall (fun c => len c <= MaxNeighbors) chunks
    /\ handleFindnode priv e fromaddr fromID target u
        = Done (tt, set_out (out u ++ omap (fun p => match Encode priv p with inr (b, _) => Some (Sent fromaddr fromID p b) | inl _ => None end)
                                        ((fun ns => Neighbors ns (expiry (clock e 2)) None) <$> chunks)) u).
Proof.
  intros Ht. exists (neighbor_chunks fromaddr (findnodeByID (tab u) (Keccak256 target) bucketSize true) [] false).
  pose proof (chunks_size fromaddr _ [] false (findnodeByID_good (tab u) (Keccak256 target) bucketSize true Ht) ltac:(constructor) ltac:(done)) as Hs.
  split_and!; [by rewrite chunks_concat|apply chunks_nonempty| |].
  - eapply Forall_impl; [exact Hs|]. by intros c [_ ?].
  - unfold handleFindnode, mbind, GoM_bind, gget. apply send_all_run.
Qed.
End props.

(** ** An example
    The node pings a peer, which answers and then asks for nodes. *)
Section example.
Existing Instance sample_crypto.
Existing Instance map_store.
Definition ex_key : @PrivateKey sample_crypto := 77.
Definition ex_priv : @PrivateKey sample_crypto := 5.
Definition ex_now : Z := 1700000000 * 10 ^ 9.
Definition ex_env : env := mk_env (fun _ => ex_now) false.
Definition ex_addr : UDPAddr := mk_UDPAddr [8; 8; 8; 8] 30303.
Definition ex_peer : Enr.Node := match NewV4 (public ex_key) [8; 8; 8; 8] 30303 30303 with Done n => n | _ => sample_node end.
Definition ex_packet (p : Packet) : list Z := match Encode ex_key p with inr (b, _) => b | inl _ => [] end.
Definition ex_ping : Packet := makePing sample_node ex_addr ex_now.
Definition ex_tok : list Z := match Encode ex_priv ex_ping with inr (_, h) => h | inl _ => [] end.
Definition ex_pong : Packet := Pong (mk_Endpoint [9; 9; 9; 9] 1 1) ex_tok (expiry ex_now) 1 None.
Definition ex_findnode : Packet := Findnode (replicate 64 1) (expiry ex_now) None.
Definition ex_steps : list (env * event) :=
  [(ex_env, AskPing ex_peer); (ex_env, Datagram ex_addr (ex_packet ex_pong)); (ex_env, Datagram ex_addr (ex_packet ex_findnode))].
Definition ex_store : @store map_store := (∅ : gmap (list Z) (list Z)).
Definition ex_table : Table := newTable (replicate 32 0) [] [] 0.
Definition ex_start : UDPv4 := ListenV4 sample_node ex_store ex_table.
Definition ex_end : UDPv4 := match exec_all ex_priv None ex_steps ex_start with Done (_, u) => u | _ => ex_start end.
Lemma ex_node_ok : self_ok sample_node.
Proof. split; [apply sample_node_wf|by eexists]. Qed.
Lemma ex_table_good : good_table ex_table.
Proof. unfold ex_table, good_table. apply Forall_replicate. by split. Qed.
Lemma ex_steps_ok : Forall step_ok ex_steps.
Proof.
  assert (He : env_ok ex_env) by (intros i; split; by vm_compute). assert (Ha : addr_ok ex_addr) by (split; [repeat constructor; lia|by eexists]).
  assert (Hb : forall p, bool_decide (bytes (ex_packet p)) = true -> bytes (ex_packet p)) by (intros p; apply bool_decide_eq_true).
  repeat (constructor; [split; [exact He|split; [by vm_compute|]]|]); [| | |constructor]; cbn [snd event_ok].
  - destruct (NewV4_spec (C:=sample_crypto) (public ex_key) [8; 8; 8; 8] 30303 30303 ltac:(by vm_compute) ltac:(repeat constructor; lia) ltac:(right; by eexists))
      as (n & E & _ & _ & _ & _ & _ & _ & Hw & Hs). unfold ex_peer. rewrite E. by split.
  - split; [done|]. apply Hb. by vm_compute.
  - split; [done|]. apply Hb. by vm_compute.
Qed.
Lemma ex_no_pongs (id : ID) (ip_ : IP) : length id = 32%nat -> LastPongReceived ex_store id ip_ <= 0.
Proof.
  intros _. unfold LastPongReceived, fetch_time. destruct (To16 ip_) as [ip6|]; [|done]. unfold fetch_item.
  assert (H0 : forall k, fetchInt64 ex_store k = 0) by (intros k; unfold fetchInt64, ex_store; cbn [Get map_store]; by rewrite lookup_empty).
  destruct (nodeItemKey _ _ _); rewrite ?H0; by vm_compute.
Qed.
Lemma udp_safe_witness : exists u, exec_all ex_priv None ex_steps ex_start = Done (tt, u) /\ fresh u = 1%nat.
Proof.
  destruct (udp_safe (C:=sample_crypto) (K:=map_store) ex_priv None sample_node ex_store ex_table ex_steps ex_node_ok ex_table_good ex_steps_ok) as (u & E & _).
  exists u. split; [exact E|]. assert (Hu : u = ex_end) by (unfold ex_end, ex_start; by rewrite E). rewrite Hu. by vm_compute.
Defined.
Lemma findnode_answer_witness :
  exists chunks : list (list rpcNode), chunks <> [] /\ Forall (fun c => len c <= MaxNeighbors) chunks.
Proof.
  destruct (findnode_answer (C:=sample_crypto) (K:=map_store) ex_priv ex_env ex_addr (node_id ex_peer) (replicate 64 1) ex_start ex_table_good) as (chunks & _ & Hne & Hl & _).
  by exists chunks.
Defined.
End example.
End V4UdpProps.

