(* ===== verification/V4UdpTime.v ===== *)
(** * The discovery protocol: timeouts (src/p2p/discover/v4_udp.go)

    As long as the clock does not go back, no request is taken for one with a
    wrong deadline, the timer is always set for the next deadline, and every
    request ends: once 500ms have passed, each tick of the timer ends one. *)

From stdpp Require Import base gmap list numbers strings sorting.
From Stdlib Require Import ZArith Lia.
From S2P Require Import Prelude Bytes NetUtil Enr EnrProps V4Wire V4WireProps NodeID DiscTable NodeDB NodeDBProps V4Udp V4UdpNodes V4UdpProps.

Module V4UdpTime.
Import NetUtil Enr EnrProps V4Wire V4WireProps NodeID DiscTable NodeDB NodeDBProps V4Udp V4UdpNodes V4UdpProps.

Section time.
Context `{C : Crypto} {CL : CryptoLaws C} `{K : KVStore} {KL : KVLaws K}.
Variable priv : PrivateKey.
Variable netrestrict : option (list IPNet).
Abbreviation UDPv4 := (@UDPv4 K).

(** ** The invariant
    [T] is a time no reading so far was after. *)
Definition armed (u : UDPv4) (p : replyMatcher) : Prop := is_Some (tick u) \/ timer u = Some (deadline p).
Record tpre (T : Z) (u : UDPv4) : Prop := {
  t_nodup : NoDup (all_ids u);
  t_fresh : forall k, k ∈ all_ids u -> (k < fresh u)%nat;
  t_next : forall k, nextTimeout u = Some k -> (k < fresh u)%nat;
  t_sorted : StronglySorted Z.le (deadline <$> plist u);
  t_dead : Forall (fun p => respTimeout <= deadline p <= T + respTimeout) (plist u);
  t_front : forall p l, plist u = p :: l -> nextTimeout u = Some (m_id p) -> armed u p;
  t_warp : Forall (fun r => err r <> Some errClockWarp) (results u);
  t_run : running u = false -> plist u = [];
}.
Record tinv (T : Z) (u : UDPv4) : Prop := {
  t_pre : tpre T u;
  t_set : forall p l, plist u = p :: l -> nextTimeout u = Some (m_id p);
}.
(** Partial correctness: that the code returns is shown elsewhere. *)
Definition keeps {A} (P Q : UDPv4 -> Prop) (m : GoM UDPv4 A) : Prop := forall u a u', P u -> m u = Done (a, u') -> Q u'.
Lemma time_ret {A} P (a : A) : keeps P P (mret a).
Proof. by intros u b u' Hp [= _ <-]. Qed.
Lemma time_bind {A B} P Q R (m : GoM UDPv4 A) (f : A -> GoM UDPv4 B) : keeps P Q m -> (forall a, keeps Q R (f a)) -> keeps P R (m ≫= f).
Proof. intros Hm Hf u b u' Hp (a & u1 & E1 & E2)%GoM_bind_Done. by eapply Hf; [eapply Hm|]. Qed.
Lemma time_get {A} P Q (f : UDPv4 -> GoM UDPv4 A) : (forall u, P u -> keeps (fun v => v = u) Q (f u)) -> keeps P Q (gget ≫= f).
Proof. intros Hf u b u' Hp E. by eapply (Hf u Hp); [|exact E]. Qed.
Lemma time_modify P Q (f : UDPv4 -> UDPv4) : (forall u, P u -> Q (f u)) -> keeps P Q (gmodify f).
Proof. intros Hf u [] u' Hp [= <-]. by apply Hf. Qed.
Lemma time_pre {A} P P' Q (m : GoM UDPv4 A) : (forall u, P u -> P' u) -> keeps P' Q m -> keeps P Q m.
Proof. intros H Hm u a u' Hp E. eapply Hm; [by apply H|done]. Qed.
Lemma time_post {A} P Q Q' (m : GoM UDPv4 A) : keeps P Q m -> (forall u, Q u -> Q' u) -> keeps P Q' m.
Proof. intros Hm H u a u' Hp E. by eapply H, Hm. Qed.
(** The state of the loop is the same. *)
Definition same_loop (u u' : UDPv4) : Prop :=
  (plist u', nextTimeout u', timer u', tick u', running u', fresh u', results u')
  = (plist u, nextTimeout u, timer u, tick u, running u, fresh u, results u).
Lemma same_tinv T u u' : same_loop u u' -> tinv T u -> tinv T u'.
Proof.
  intros [= E1 E2 E3 E4 E5 E6 E7] [[H1 H2 H3 H4 H5 H6 H7 H8] H9]. unfold all_ids, armed in *.
  split; [split|]; unfold all_ids, armed; rewrite ?E1, ?E2, ?E3, ?E4, ?E5, ?E6, ?E7; done.
Qed.
Lemma tinv_later T T' u : T <= T' -> tinv T u -> tinv T' u.
Proof.
  intros Hle [[H1 H2 H3 H4 H5 H6 H7 H8] H9]. split; [split|]; try done. eapply Forall_impl; [exact H5|]. simpl. lia.
Qed.

(** ** The loop *)
Lemma resetTimeout_keeps T now : 0 <= T <= now -> now < 2 ^ 62 -> keeps (tpre T) (tinv T) (resetTimeout now).
Proof.
  intros HT Hnow u [] u' Hp E. unfold resetTimeout in E. unfold mbind at 1, GoM_bind at 1, gget in E.
  destruct (plist u) as [|p l] eqn:Ep.
  { injection E as <-. split; [done|]. intros p l. by rewrite Ep. }
  destruct (decide _) as [Hn|Hn].
  { injection E as <-. split; [done|]. intros q l'. rewrite Ep. by intros [= <- <-]. }
  pose proof (t_dead _ _ Hp) as Hd. rewrite Ep in Hd. apply Forall_cons in Hd as [Hd _]. unfold respTimeout in Hd.
  assert (Hs : Sub (deadline p) now = deadline p - now) by (unfold Sub; lia). rewrite Hs in E.
  destruct (Z.ltb_spec (deadline p - now) (2 * respTimeout)) as [_|Hbad]; [|unfold respTimeout in Hbad; lia].
  injection E as <-. destruct Hp as [H1 H2 H3 H4 H5 H6 H7 H8].
  assert (Hk : (m_id p < fresh u)%nat) by (apply H2; unfold all_ids; rewrite Ep, fmap_cons; left).
  split; [split; try done|].
  - cbn. by intros k [= <-].
  - cbn. intros q l' Eq _. rewrite Ep in Eq. injection Eq as <- <-. right. cbn. f_equal. lia.
  - cbn. intros q l' Eq. rewrite Ep in Eq. by injection Eq as <- <-.
Qed.
(** Some requests have ended. *)
Definition tag (p : replyMatcher) : nat * Z := (m_id p, deadline p).
Record ended (u : UDPv4) (l' : list replyMatcher) (u' : UDPv4) : Prop := {
  en_tags : (tag <$> l') `sublist_of` (tag <$> plist u);
  en_ids : (m_id <$> l') ++ (res_id <$> results u') ≡ₚ all_ids u;
  en_results : Forall (fun r => err r <> Some errClockWarp) (results u) -> Forall (fun r => err r <> Some errClockWarp) (results u');
  en_timer : nextTimeout u' = None \/ (nextTimeout u', timer u', tick u') = (nextTimeout u, timer u, tick u);
  en_same : (running u', fresh u') = (running u, fresh u);
}.
Lemma sorted_sublist (l l' : list Z) : l' `sublist_of` l -> StronglySorted Z.le l -> StronglySorted Z.le l'.
Proof.
  induction 1 as [|x l1 l2 Hs IH|x l1 l2 Hs IH]; [done| |]; intros Hl; apply StronglySorted_inv in Hl as [Hl Hx].
  - constructor; [by apply IH|]. rewrite Forall_forall in *. intros y Hy. apply Hx. by eapply elem_of_sublist.
  - by apply IH.
Qed.
Lemma ended_tpre T u l' u' : tinv T u -> ended u l' u' -> tpre T (set_plist l' u').
Proof.
  intros [[H1 H2 H3 H4 H5 H6 H7 H8] H9] [E1 E2 E3 E4 E5]. injection E5 as Er Ef.
  assert (Hd : forall q, q ∈ l' -> exists p, p ∈ plist u /\ tag p = tag q).
  { intros q Hq. assert (Ht : tag q ∈ tag <$> plist u) by (eapply elem_of_sublist; [by apply list_elem_of_fmap_2|exact E1]).
    apply list_elem_of_fmap in Ht as (p & ? & ?). by exists p. }
  split; cbn [plist nextTimeout timer tick running fresh results set_plist].
  - unfold all_ids. cbn. by rewrite E2.
  - intros k. unfold all_ids. cbn. rewrite E2, Ef. apply H2.
  - intros k Hk. rewrite Ef. apply H3. destruct E4 as [E4|[= E4 _ _]]; congruence.
  - apply (fmap_sublist snd) in E1. rewrite <- !list_fmap_compose in E1. by eapply sorted_sublist.
  - rewrite Forall_forall in *. intros q Hq. destruct (Hd q Hq) as (p & Hp & [= _ <-]). by apply H5.
  - intros q l2 -> Hn. destruct E4 as [E4|[= E4 Et Ek]]; [congruence|].
    destruct (plist u) as [|p l0] eqn:Ep; [by apply sublist_nil_r in E1|].
    pose proof (H9 p l0 eq_refl) as Hp. destruct (H6 p l0 eq_refl Hp) as [Ha|Ha]; [left; cbn; by rewrite Ek|right; cbn].
    destruct (Hd q ltac:(left)) as (p' & Hp' & [= Eid Edl]). rewrite E4, Hp in Hn. injection Hn as Hn.
    unfold all_ids in H1. rewrite Ep, fmap_cons in H1. apply NoDup_app in H1 as [H1 _]. apply NoDup_cons in H1 as [Hni _].
    apply elem_of_cons in Hp' as [->|Hp']; [by rewrite Et, Ha, Edl|]. destruct Hni. rewrite Hn, <- Eid. by apply list_elem_of_fmap_2.
  - by apply E3.
  - rewrite Er. intros Hr. specialize (H8 Hr). rewrite H8 in E1. apply sublist_nil_r in E1. by destruct l'.
Qed.
Lemma finish_done p e (u : UDPv4) u' :
  finish p e u = Done (tt, u') -> u' = set_results (fresh u) (results u ++ [mk_result p e]) u.
Proof. unfold finish. destruct (decide _); [done|]. by intros [= <-]. Qed.
Lemma run_callback_tab cb data now (u : UDPv4) r u' : run_callback netrestrict cb data now u = Done (r, u') -> exists t, u' = set_tab t u.
Proof.
  assert (H0 : u = set_tab (tab u) u) by (by destruct u).
  destruct cb as [hash add|toaddr ns nr|hash], data; try done; unfold run_callback, pong_callback, neighbors_callback, enr_callback.
  - unfold mbind, GoM_bind. destruct add as [n|]; [|intros [= _ <-]; by eexists]. unfold gmodify. case_bool_decide; intros [= _ <-]; by eexists.
  - destruct (receive_nodes _ _ _ _ _) as [[]| |]; [|done..]. intros [= _ <-]. by eexists.
  - intros [= _ <-]. by eexists.
Qed.
Lemma dispatch_ended id ip_ data now m l (u : UDPv4) m' l' u' :
  dispatch netrestrict id ip_ data now m l u = Done ((m', l'), u') ->
  (tag <$> l') `sublist_of` (tag <$> l)
  /\ (m_id <$> l') ++ (res_id <$> results u') ≡ₚ (m_id <$> l) ++ (res_id <$> results u)
  /\ (exists rs, results u' = results u ++ rs /\ Forall (fun r => err r = None) rs)
  /\ (nextTimeout u', timer u', tick u', running u', fresh u') = (nextTimeout u, timer u, tick u, running u, fresh u).
Proof.
  revert m u m' l' u'. induction l as [|p l IH]; intros m u m' l' u'; cbn [dispatch].
  { intros [= <- <- <-]. split_and!; try done. exists []. by rewrite app_nil_r. }
  destruct (matches p id ip_ data).
  - intros ([[ok don] cb] & u1 & E1 & E)%GoM_bind_Done. destruct (run_callback_tab _ _ _ _ _ _ E1) as [t ->].
    apply GoM_bind_Done in E as ([] & u2 & [= <-] & E). destruct don.
    + apply GoM_bind_Done in E as ([] & u3 & E3 & [= <- <- <-]). apply finish_done in E3. subst u3. cbn.
      split_and!; [by apply sublist_cons|apply (all_ids_move [] l (with_reply p cb data))| |done]. eexists. split; [done|]. by apply Forall_singleton.
    + apply GoM_bind_Done in E as ([m1 l1] & u3 & E3 & [= <- <- <-]). destruct (IH _ _ _ _ _ E3) as (H1 & H2 & H3 & H4).
      split_and!; [by apply sublist_skip| |done|done]. cbn. by apply (Permutation_skip (m_id p)) in H2.
  - intros E. apply GoM_bind_Done in E as ([m1 l1] & u3 & E3 & [= <- <- <-]). destruct (IH _ _ _ _ _ E3) as (H1 & H2 & H3 & H4).
    split_and!; [by apply sublist_skip| |done|done]. cbn. by apply (Permutation_skip (m_id p)) in H2.
Qed.
Lemma loop_reply_keeps T now now' id ip_ data : 0 <= T <= now' -> now' < 2 ^ 62 -> keeps (tinv T) (tinv T) (loop_reply netrestrict id ip_ data now now').
Proof.
  intros HT Hn. unfold loop_reply. apply time_get. intros u Hi. intros v b u' -> E.
  apply GoM_bind_Done in E as ([m l'] & u1 & E1 & E). apply GoM_bind_Done in E as ([] & u2 & [= <-] & E).
  apply GoM_bind_Done in E as ([] & u3 & E3 & [= <- <-]). destruct (dispatch_ended _ _ _ _ _ _ _ _ _ _ E1) as (H1 & H2 & (rs & H3 & H4) & [= H5 H6 H7 H8 H9]).
  eapply resetTimeout_keeps; [done|done| |exact E3]. apply (ended_tpre T u); [done|]. split; try done.
  - intros Hw. rewrite H3. apply Forall_app. split; [done|]. eapply Forall_impl; [exact H4|]. by intros r ->.
  - right. congruence.
  - congruence.
Qed.
Lemma expire_ended now l (u : UDPv4) l' u' :
  expire now l u = Done (l', u') ->
  (tag <$> l') `sublist_of` (tag <$> l)
  /\ (m_id <$> l') ++ (res_id <$> results u') ≡ₚ (m_id <$> l) ++ (res_id <$> results u)
  /\ (exists rs, results u' = results u ++ rs /\ Forall (fun r => err r = Some errTimeout) rs)
  /\ (nextTimeout u', timer u', tick u', running u', fresh u') = (nextTimeout u, timer u, tick u, running u, fresh u).
Proof.
  revert l' u'. induction l as [|p l IH]; intros l' u'; cbn [expire].
  { intros [= <- <-]. split_and!; try done. exists []. by rewrite app_nil_r. }
  destruct (_ <=? _).
  - intros ([] & u1 & E1 & E)%GoM_bind_Done. apply finish_done in E1. subst u1. apply GoM_bind_Done in E as ([] & u2 & [= <-] & [= <- <-]). cbn.
    split_and!; [by apply sublist_cons|apply (all_ids_move [] l p)| |done]. eexists. split; [done|]. by apply Forall_singleton.
  - intros (l1 & u1 & E1 & [= <- <-])%GoM_bind_Done. destruct (IH _ _ E1) as (H1 & H2 & H3 & H4).
    split_and!; [by apply sublist_skip| |done|done]. cbn. by apply (Permutation_skip (m_id p)) in H2.
Qed.
Lemma ntp_check_same now (u u' : UDPv4) : ntp_check now u = Done (tt, u') -> same_loop u u'.
Proof.
  unfold ntp_check. unfold mbind at 1, GoM_bind at 1, gget. destruct (_ <? _); [|by intros [= <-]].
  destruct (_ <=? _); by intros [= <-].
Qed.
Lemma loop_tick_keeps T now now1 now2 : 0 <= T <= now2 -> now2 < 2 ^ 62 -> keeps (tinv T) (tinv T) (loop_tick now now1 now2).
Proof.
  intros HT Hn u [] u' Hi E. unfold loop_tick in E. apply GoM_bind_Done in E as ([] & u1 & [= <-] & E).
  unfold mbind at 1, GoM_bind at 1, gget in E. apply GoM_bind_Done in E as (l' & u2 & E2 & E). apply GoM_bind_Done in E as ([] & u3 & [= <-] & E).
  apply GoM_bind_Done in E as ([] & u4 & E4 & E). destruct (expire_ended _ _ _ _ _ E2) as (H1 & H2 & (rs & H3 & H4) & [= H5 H6 H7 H8 H9]).
  eapply resetTimeout_keeps; [done|done| |exact E]. apply ntp_check_same in E4. cbn in H5, H6, H7, H8, H9.
  assert (Hp : tpre T (set_plist l' u2)).
  { apply (ended_tpre T u); [done|]. split; try done; [|by left|congruence].
    intros Hw. rewrite H3. apply Forall_app. split; [done|]. eapply Forall_impl; [exact H4|]. by intros r ->. }
  destruct Hp as [P1 P2 P3 P4 P5 P6 P7 P8]. injection E4 as Q1 Q2 Q3 Q4 Q5 Q6 Q7.
  split; unfold all_ids, armed in *; cbn in *; rewrite ?Q1, ?Q2, ?Q3, ?Q4, ?Q5, ?Q6, ?Q7; done.
Qed.
Lemma loop_closed_keeps T : keeps (tinv T) (tinv T) loop_closed.
Proof.
  intros u [] u' Hi E. destruct Hi as [[H1 H2 H3 H4 H5 H6 H7 H8] H9]. unfold loop_closed in E. unfold mbind at 1, GoM_bind at 1, gget in E.
  unfold mbind, GoM_bind in E. rewrite finish_all_spec in E by done. injection E as <-.
  set (f := fun p => mk_result p (Some errClosed)).
  assert (Hids : res_id <$> results u ++ (f <$> plist u) ≡ₚ all_ids u).
  { unfold all_ids. rewrite fmap_app, <- list_fmap_compose, Permutation_app_comm. done. }
  split; [split|]; cbn; try done.
  - unfold all_ids. cbn. fold f. by rewrite Hids.
  - intros k. unfold all_ids. cbn. fold f. rewrite Hids. apply H2.
  - constructor.
  - apply Forall_app. split; [done|]. apply Forall_fmap, Forall_true. by intros p.
Qed.
(** ** Requests *)
Definition readings (T T1 : Z) (e : env) : Prop :=
  0 <= T /\ T1 < 2 ^ 62 /\ (forall i, T <= clock e i <= T1) /\ (forall i j, (i <= j)%nat -> clock e i <= clock e j).
Lemma request_fresh T u :
  tpre T u -> NoDup (fresh u :: all_ids u) /\ (forall k, k ∈ fresh u :: all_ids u -> (k < 1 + fresh u)%nat).
Proof.
  intros [H1 H2 H3 _ _ _ _ _]. split.
  - constructor; [|done]. intros Hi%H2. lia.
  - intros k [->|Hk%H2]%elem_of_cons; lia.
Qed.
Lemma pending_keeps T T1 e i j id ip_ pt cb : readings T T1 e -> (i <= j)%nat -> keeps (tinv T) (tinv T1) (pending e i j id ip_ pt cb).
Proof.
  intros (H0 & HT1 & Hr & Hm) Hij u k u' Hi E. unfold pending, new_request in E.
  unfold mbind at 1, GoM_bind at 1 in E. unfold mbind at 1, GoM_bind at 1, gget in E.
  unfold mbind at 1, GoM_bind at 1, gput in E. unfold mret at 1, GoM_ret at 1 in E. unfold mbind at 1, GoM_bind at 1 in E.
  destruct (request_fresh T u (t_pre _ _ Hi)) as [Hf1 Hf2]. cbn [running closed set_results] in E.
  pose proof (Hr i) as Hri. pose proof (Hr j) as Hrj. pose proof (Hm i j Hij) as Hrij.
  destruct (running u && _)%bool eqn:Er.
  - apply andb_true_iff in Er as [Hrun _]. apply GoM_bind_Done in E as ([] & u2 & E2 & [= <- <-]). unfold loop_add in E2.
    apply GoM_bind_Done in E2 as ([] & u3 & [= <-] & E2). cbn [plist set_results m_id from ip ptype m_callback reply] in E2.
    apply (tinv_later (clock e i)); [lia|]. eapply (resetTimeout_keeps (clock e i) (clock e j)); [lia|lia| |exact E2].
    destruct Hi as [[H1 H2 H3 H4 H5 H6 H7 H8] H9]. set (p := mk_matcher _ _ _ _ _ _ _). 
    assert (Hids : all_ids (set_plist (plist u ++ [p]) (set_results (1 + fresh u) (results u) u)) ≡ₚ fresh u :: all_ids u).
    { unfold all_ids. cbn. rewrite fmap_app, <- app_assoc. simpl. by rewrite <- Permutation_middle. }
    split; cbn [plist nextTimeout timer tick running fresh results set_plist set_results].
    + by rewrite Hids.
    + intros q. rewrite Hids. apply Hf2.
    + intros q Hq%H3. lia.
    + rewrite fmap_app. apply StronglySorted_app. split_and!; [|done|repeat constructor].
      intros x y Hx Hy. apply list_elem_of_singleton in Hy as ->. apply list_elem_of_fmap in Hx as (q & -> & Hq).
      rewrite Forall_forall in H5. specialize (H5 q Hq). cbn. lia.
    + apply Forall_app. split; [eapply Forall_impl; [exact H5|]; simpl; lia|]. apply Forall_singleton. cbn. lia.
    + intros q l Eq Hn. destruct (plist u) as [|x l0] eqn:Ep.
      * injection Eq as <- _. apply H3 in Hn. cbn in Hn. lia.
      * injection Eq as <- _. by apply (H6 x l0).
    + done.
    + by rewrite Hrun.
  - destruct (closed u); [|done]. apply GoM_bind_Done in E as ([] & u2 & E2 & [= <- <-]). apply finish_done in E2. subst u2.
    apply (tinv_later T); [lia|]. destruct Hi as [[H1 H2 H3 H4 H5 H6 H7 H8] H9]. set (p := mk_matcher _ _ _ _ _ _ _).
    assert (Hids : (m_id <$> plist u) ++ (res_id <$> results u ++ [mk_result p (Some errClosed)]) ≡ₚ fresh u :: all_ids u) by apply (all_ids_move [] (plist u) p).
    split; [split|]; cbn; try done.
    + unfold all_ids. cbn. by rewrite Hids.
    + intros q. unfold all_ids. cbn. rewrite Hids. apply Hf2.
    + intros q Hq%H3. lia.
    + apply Forall_app. split; [done|]. by apply Forall_singleton.
Qed.
Lemma handleReply_keeps T T1 e i j id ip_ data : readings T T1 e -> keeps (tinv T) (tinv T1) (handleReply netrestrict e i j id ip_ data).
Proof.
  intros (H0 & HT1 & Hr & Hm) u b u' Hi E. unfold handleReply in E. unfold mbind at 1, GoM_bind at 1, gget in E.
  pose proof (Hr j). apply (tinv_later T); [lia|]. destruct (running u && _)%bool.
  - eapply (loop_reply_keeps T (clock e i) (clock e j)); [lia|lia|exact Hi|exact E].
  - destruct (closed u); [|done]. by injection E as _ <-.
Qed.

(** ** Steps *)
Definition calm {A} (m : GoM UDPv4 A) : Prop := forall u a u', m u = Done (a, u') -> same_loop u u'.
Lemma calm_keeps {A} T (m : GoM UDPv4 A) : calm m -> keeps (tinv T) (tinv T) m.
Proof. intros Hm u a u' Hi E. eapply same_tinv; [by eapply Hm|done]. Qed.
Lemma calm_ret {A} (a : A) : calm (mret a).
Proof. by intros u b u' [= _ <-]. Qed.
Lemma calm_bind {A B} (m : GoM UDPv4 A) (f : A -> GoM UDPv4 B) : calm m -> (forall a, calm (f a)) -> calm (m ≫= f).
Proof.
  intros Hm Hf u b u' (a & u1 & E1 & E2)%GoM_bind_Done. specialize (Hm _ _ _ E1). specialize (Hf _ _ _ _ E2). unfold same_loop in *. congruence.
Qed.
Lemma calm_get {A} (f : UDPv4 -> GoM UDPv4 A) : (forall u, calm (f u)) -> calm (gget ≫= f).
Proof. intros Hf. apply calm_bind; [by intros u a u' [= _ <-]|done]. Qed.
Lemma calm_modify (f : UDPv4 -> UDPv4) : (forall u, same_loop u (f u)) -> calm (gmodify f).
Proof. intros Hf u [] u' [= <-]. apply Hf. Qed.
Lemma calm_emit x : calm (emit x).
Proof. by apply calm_modify. Qed.
Lemma calm_send a id req : calm (send priv a id req).
Proof. unfold send. destruct (Encode priv req) as [|[]]; [apply calm_ret|apply calm_emit]. Qed.
Lemma calm_send_all a id l : calm (send_all priv a id l).
Proof. induction l as [|p l IH]; cbn [send_all]; [apply calm_ret|]. apply calm_bind; [apply calm_send|done]. Qed.
Lemma time_later {A} T T1 e (m : GoM UDPv4 A) : readings T T1 e -> calm m -> keeps (tinv T) (tinv T1) m.
Proof.
  intros (_ & _ & Hr & _) Hm. eapply time_post; [by apply calm_keeps|]. intros u. apply tinv_later. pose proof (Hr O). lia.
Qed.
Lemma sendPing_keeps T T1 e i id a add : readings T T1 e -> keeps (tinv T) (tinv T1) (sendPing priv e i id a add).
Proof.
  intros Hr u k u' Hi E. unfold sendPing in E. unfold mbind at 1, GoM_bind at 1, gget in E. destruct (Encode priv _) as [er|[packet hash]].
  - destruct Hr as (_ & _ & Hr & _). pose proof (Hr O). apply (tinv_later T); [lia|].
    apply GoM_bind_Done in E as (k1 & u1 & E1 & E). unfold new_request in E1. apply GoM_bind_Done in E1 as (u2 & u3 & [= <- <-] & E1).
    apply GoM_bind_Done in E1 as ([] & u4 & [= <-] & [= <- <-]). apply GoM_bind_Done in E as ([] & u5 & E5 & [= <- <-]).
    apply finish_done in E5. subst u5. destruct (request_fresh T u (t_pre _ _ Hi)) as [Hf1 Hf2].
    destruct Hi as [[H1 H2 H3 H4 H5 H6 H7 H8] H9]. set (p := mk_matcher _ _ _ _ _ _ _).
    assert (Hids : (m_id <$> plist u) ++ (res_id <$> results u ++ [mk_result p (Some (errWire er))]) ≡ₚ fresh u :: all_ids u) by apply (all_ids_move [] (plist u) p).
    split; [split|]; cbn; try done.
    + unfold all_ids. cbn. by rewrite Hids.
    + intros q. unfold all_ids. cbn. rewrite Hids. apply Hf2.
    + intros q Hq%H3. lia.
    + apply Forall_app. split; [done|]. by apply Forall_singleton.
  - apply GoM_bind_Done in E as (k1 & u1 & E1 & E). eapply same_tinv; [|eapply (pending_keeps T T1 e (i + 1) (i + 2)); [done|lia|exact Hi|exact E1]].
    eapply (calm_bind (emit (UDPContact a)) (fun _ => emit _ ;; mret k1)); [apply calm_emit| |exact E]. intros _. apply calm_bind; [apply calm_emit|intros _; apply calm_ret].
Qed.
Lemma handle_req_keeps T T1 e a req key hash : readings T T1 e -> keeps (tinv T) (tinv T1) (handle_req priv netrestrict e a req key hash).
Proof.
  intros Hr. pose proof Hr as (_ & _ & Hr' & _). pose proof (Hr' O) as Hr0.
  assert (Hret : forall x : option udpErr, keeps (tinv T) (tinv T1) (mret x)) by (intros x; eapply time_later; [done|apply calm_ret]).
  assert (Hreply : keeps (tinv T) (tinv T1) (verify_reply netrestrict e a (Keccak256 key) req)).
  { eapply time_bind; [by apply handleReply_keeps|]. intros ok. apply time_ret. }
  assert (Hbond : forall exp h, calm h -> keeps (tinv T) (tinv T1) (bonded e a (Keccak256 key) exp h)).
  { intros exp h Hh. eapply time_later; [done|]. unfold bonded. destruct (Expired _ _); [apply calm_ret|]. apply calm_get. intros u.
    destruct (negb _); [apply calm_ret|]. apply calm_bind; [done|]. intros _. apply calm_ret. }
  destruct req as [v f t ex s r|t tok ex s r|tg ex r|ns ex r|ex r|tok rec r]; cbn [handle_req].
  - destruct (DecodePubkey key); [|apply Hret]. destruct (Expired _ _); [apply Hret|].
    eapply (time_bind _ (tinv T1)); [|intros []; apply time_ret]. unfold handlePing. intros u [] u' Hi E. unfold mbind at 1, GoM_bind at 1, gget in E.
    apply GoM_bind_Done in E as ([] & u1 & E1 & E). apply calm_send in E1. apply (same_tinv T) in E1; [|done].
    destruct (NewV4 _ _ _ _) as [n| |]; [|done..]. apply GoM_bind_Done in E as ([] & u2 & E2 & E).
    assert (H2 : tinv T1 u2).
    { destruct (_ <? _).
      - apply GoM_bind_Done in E2 as (k & u3 & E3 & [= <-]). by eapply sendPing_keeps.
      - apply (tinv_later T); [lia|]. eapply same_tinv; [|exact E1]. by injection E2 as <-. }
    eapply same_tinv; [|exact H2]. eapply (calm_bind (gmodify _) (fun _ => emit _)); [|intros _; apply calm_emit|exact E]. by apply calm_modify.
  - unfold verifyPong. destruct (Expired _ _); [apply Hret|]. eapply time_bind; [by apply handleReply_keeps|]. intros [|]; cbn [negb].
    + apply calm_keeps, calm_bind; [apply calm_emit|]. intros _. apply calm_bind; [by apply calm_modify|]. intros _. apply calm_ret.
    + apply time_ret.
  - apply Hbond. unfold handleFindnode. apply calm_get. intros u. apply calm_send_all.
  - destruct (Expired _ _); [apply Hret|done].
  - apply Hbond. apply calm_get. intros u. apply calm_send.
  - done.
Qed.
Lemma exec_keeps T T1 e ev : readings T T1 e -> keeps (tinv T) (tinv T1) (exec priv netrestrict e ev).
Proof.
  intros Hr. pose proof Hr as (H0 & HT & Hr' & _). pose proof (Hr' O) as Hr0. pose proof (Hr' 1%nat) as Hr1.
  assert (Hret : keeps (tinv T) (tinv T1) (mret tt)) by (eapply time_later; [done|apply calm_ret]).
  destruct ev as [a data| | | | |n|id a|id a tg|n|n|tb|id ip_ fs|n|now]; cbn [exec].
  - unfold readLoop. eapply (time_bind _ (tinv T1)).
    + unfold handlePacket. destruct (Decode _) as [er|[[req key] hash]]; [eapply time_later; [done|apply calm_ret]|by apply handle_req_keeps].
    + intros [er|]; [apply calm_keeps, calm_emit|apply time_ret].
  - apply time_modify. intros u Hi. apply (tinv_later T); [lia|]. destruct (timer u) as [dl|] eqn:Et; [|done]. destruct (_ <=? _); [|done].
    destruct Hi as [[H1 H2 H3 H4 H5 H6 H7 H8] H9]. split; [split|]; try done. intros p l _ _. left. by eexists.
  - intros u [] u' Hi E. unfold mbind at 1, GoM_bind at 1, gget in E. destruct (running u); [|by eapply Hret]. destruct (tick u) as [now|]; [|by eapply Hret].
    apply (tinv_later T); [lia|]. eapply (loop_tick_keeps T now (clock e 0) (clock e 1)); [lia|lia|exact Hi|exact E].
  - intros u [] u' Hi E. unfold mbind at 1, GoM_bind at 1, gget in E. destruct (_ && _)%bool; [|by eapply Hret].
    apply (tinv_later T); [lia|]. by eapply loop_closed_keeps.
  - eapply time_later; [done|]. by apply calm_modify.
  - eapply time_bind; [by apply sendPing_keeps|]. intros _. apply time_ret.
  - eapply (time_bind _ (tinv T1)); [|intros _; apply time_ret]. intros u x u' Hi E. unfold ensureBond in E. unfold mbind at 1, GoM_bind at 1, gget in E.
    destruct (_ || _)%bool; [|apply (tinv_later T); [lia|]; by injection E as _ <-]. apply GoM_bind_Done in E as (k & u1 & E1 & [= _ <-]). by eapply sendPing_keeps.
  - eapply (time_bind _ (tinv T1)); [|intros _; apply time_ret]. unfold findnode_query. eapply time_bind; [by apply pending_keeps; [done|lia]|].
    intros k. apply calm_keeps, calm_bind; [apply calm_send|intros _; apply calm_ret].
  - eapply (time_bind _ (tinv T1)); [|intros _; apply time_ret]. unfold RequestENR_query. destruct (Encode priv _) as [er|[packet hash]].
    + eapply time_later; [done|apply calm_ret].
    + eapply time_bind; [by apply pending_keeps; [done|lia]|]. intros k. apply calm_keeps, calm_bind; [apply calm_emit|intros _; apply calm_ret].
  - eapply time_later; [done|]. by apply calm_modify.
  - eapply time_later; [done|]. by apply calm_modify.
  - eapply time_later; [done|]. by apply calm_modify.
  - eapply time_later; [done|]. apply calm_modify. intros u. by destruct (UpdateNode _ _).
  - eapply time_later; [done|]. by apply calm_modify.
Qed.

(** ** Timeouts *)
(** The readings of a run are in order, from [T] to [T']. *)
Fixpoint timed (T : Z) (l : list (env * event)) (T' : Z) : Prop :=
  match l with
  | [] => 0 <= T <= T' /\ T' + respTimeout < 2 ^ 62
  | (e, _) :: l => exists T1, readings T T1 e /\ timed T1 l T'
  end.
Lemma timed_tinv T l T' u u' : timed T l T' -> tinv T u -> exec_all priv netrestrict l u = Done (tt, u') -> tinv T' u' /\ 0 <= T' /\ T' + respTimeout < 2 ^ 62.
Proof.
  revert T u. induction l as [|[e ev] l IH]; intros T u; cbn [timed exec_all].
  - intros [Hle HT] Hi [= <-]. split; [apply (tinv_later T); [lia|done]|lia].
  - intros (T1 & Hr & Ht) Hi ([] & u1 & E1 & E)%GoM_bind_Done. eapply IH; [exact Ht| |exact E]. by eapply exec_keeps.
Qed.
Lemma reset_run T now u :
  0 <= T <= now -> now < 2 ^ 62 -> tpre T u -> exists n tm, resetTimeout now u = Done (tt, set_timer n tm (tick u) u).
Proof.
  intros HT Hnow Hp. unfold resetTimeout. unfold mbind at 1, GoM_bind at 1, gget.
  assert (H0 : u = set_timer (nextTimeout u) (timer u) (tick u) u) by (by destruct u).
  destruct (plist u) as [|p l] eqn:Ep; [exists (nextTimeout u), (timer u); by rewrite <- H0|]. destruct (decide _); [exists (nextTimeout u), (timer u); by rewrite <- H0|].
  pose proof (t_dead _ _ Hp) as Hd. rewrite Ep in Hd. apply Forall_cons in Hd as [Hd _]. unfold respTimeout in Hd.
  assert (Hs : Sub (deadline p) now = deadline p - now) by (unfold Sub; lia). rewrite Hs.
  destruct (Z.ltb_spec (deadline p - now) (2 * respTimeout)) as [_|Hbad]; [|unfold respTimeout in Hbad; lia]. by eexists _, _.
Qed.
Definition timed_out (p : replyMatcher) : result := mk_result p (Some errTimeout).
Lemma expire_run now T (u : UDPv4) :
  tinv T u -> exists k c, (k <= 1)%nat /\ (forall p l, plist u = p :: l -> deadline p <= now -> k = 1%nat)
    /\ forall u0, results u0 = results u -> ntpWarnTime u0 = ntpWarnTime u -> fresh u0 = fresh u -> contTimeouts u0 = contTimeouts u ->
       expire now (plist u) u0 = Done (drop k (plist u), set_cont c (ntpWarnTime u) (set_results (fresh u) (results u ++ (timed_out <$> take k (plist u))) u0)).
Proof.
  intros Hi. pose proof (t_nodup _ _ (t_pre _ _ Hi)) as Hn. pose proof (t_sorted _ _ (t_pre _ _ Hi)) as Hs. unfold all_ids in Hn.
  destruct (plist u) as [|p l] eqn:Ep.
  { exists 0%nat, (contTimeouts u). split_and!; [lia|done|]. intros u0 E1 E2 E3 E4. cbn. rewrite app_nil_r, <- E1, <- E2, <- E3, <- E4. by destruct u0. }
  destruct (Z.leb_spec (deadline p) now) as [Hle|Hgt].
  - exists 1%nat, (contTimeouts u + 1). split_and!; [lia|done|]. intros u0 E1 E2 E3 E4. cbn [expire]. destruct (Z.leb_spec (deadline p) now); [|lia].
    unfold mbind, GoM_bind. rewrite (finish_run p _ l u0) by (by rewrite E1). cbn. by rewrite E1, E2, E3, E4, drop_0.
  - exists 0%nat, (contTimeouts u). split_and!; [lia| |].
    + intros p' l' [= <- <-] ?. lia.
    + intros u0 E1 E2 E3 E4. cbn [take fmap list_fmap]. rewrite app_nil_r, drop_0.
      assert (Hall : forall l' , Forall (fun q => now < deadline q) l' -> expire now l' u0 = Done (l', u0)).
      { intros l' Hl'. induction Hl' as [|q l' Hq _ IH]; cbn [expire]; [done|]. destruct (Z.leb_spec (deadline q) now); [lia|].
        unfold mbind, GoM_bind. by rewrite IH. }
      rewrite Hall; [rewrite <- E1, <- E2, <- E3, <- E4; by destruct u0|]. rewrite fmap_cons in Hs. apply StronglySorted_inv in Hs as [_ Hs].
      constructor; [done|]. apply Forall_forall. intros q Hq. rewrite Forall_forall in Hs. specialize (Hs (deadline q) (list_elem_of_fmap_2 _ _ _ Hq)). lia.
Qed.
Lemma ntp_check_run now (u : UDPv4) : exists u', ntp_check now u = Done (tt, u').
Proof. unfold ntp_check. unfold mbind at 1, GoM_bind at 1, gget. destruct (_ <? _); [|by eexists]. destruct (_ <=? _); by eexists. Qed.
Lemma loop_tick_run T now now1 now2 u :
  0 <= T <= now2 -> now2 < 2 ^ 62 -> tinv T u -> running u = true ->
  exists u' k, loop_tick now now1 now2 u = Done (tt, u') /\ running u' = true /\ tick u' = None /\ (k <= 1)%nat
    /\ (forall p l, plist u = p :: l -> deadline p <= now -> k = 1%nat)
    /\ plist u' = drop k (plist u) /\ results u' = results u ++ (timed_out <$> take k (plist u)).
Proof.
  intros HT Hn Hi Hr. destruct (expire_run now T u Hi) as (k & c & Hk & Hk1 & Hx).
  unfold loop_tick. unfold mbind at 1, GoM_bind at 1, gmodify at 1. unfold mbind at 1, GoM_bind at 1, gget at 1.
  set (u0 := set_timer None (timer u) None u). specialize (Hx u0 eq_refl eq_refl eq_refl eq_refl).
  unfold mbind at 1, GoM_bind at 1. change (plist u0) with (plist u). rewrite Hx. unfold mbind at 1, GoM_bind at 1, gmodify.
  match goal with |- context [set_plist (drop k (plist u)) ?x] => set (u1 := set_plist (drop k (plist u)) x) end.
  destruct (ntp_check_run now1 u1) as [u2 E2]. pose proof (ntp_check_same _ _ _ E2) as Hs. unfold mbind, GoM_bind. rewrite E2.
  assert (Hp1 : tpre T u1).
  { destruct (expire_ended _ _ _ _ _ Hx) as (H1 & H2 & _ & _). apply (ended_tpre T u); [done|].
    split; try done; [|by left]. intros Hw. cbn. apply Forall_app. split; [done|]. apply Forall_fmap, Forall_true. by intros p. }
  assert (Hp2 : tpre T u2).
  { destruct Hp1 as [P1 P2 P3 P4 P5 P6 P7 P8]. injection Hs as Q1 Q2 Q3 Q4 Q5 Q6 Q7.
    split; unfold all_ids, armed in *; cbn in *; rewrite ?Q1, ?Q2, ?Q3, ?Q4, ?Q5, ?Q6, ?Q7; done. }
  destruct (reset_run T now2 u2 HT Hn Hp2) as (n & tm & ->). injection Hs as Q1 Q2 Q3 Q4 Q5 Q6 Q7.
  eexists _, k. split; [done|]. cbn [running tick plist results set_timer]. rewrite Q1, Q4, Q5, Q7. split_and!; try done.
Qed.
(** The timer fires and the loop takes its tick, as often as there are readings. *)
Definition ticks (es : list (env * env)) : list (env * event) := concat (map (fun ee => [(ee.1, Fire); (ee.2, Tick)]) es).
Definition late (W : Z) (ee : env * env) : Prop := W <= clock ee.1 0 /\ W <= clock ee.2 1 < 2 ^ 62.
Lemma ticks_cons e1 e2 es : ticks ((e1, e2) :: es) = (e1, Fire) :: (e2, Tick) :: ticks es.
Proof. done. Qed.
Lemma fire_run T e u :
  tinv T u -> T + respTimeout <= clock e 0 ->
  exists u1, exec priv netrestrict e Fire u = Done (tt, u1) /\ tinv T u1 /\ running u1 = running u /\ plist u1 = plist u /\ results u1 = results u
    /\ (tick u = None -> forall p l, plist u = p :: l -> tick u1 = Some (clock e 0)).
Proof.
  intros Hi Hc. cbn [exec]. eexists. split; [done|]. pose proof Hi as [[H1 H2 H3 H4 H5 H6 H7 H8] H9].
  destruct (timer u) as [dl|] eqn:Et; [destruct (Z.leb_spec dl (clock e 0)) as [Hle|Hgt]|].
  - split_and!; try done; [split; [split|]; try done; intros p l _ _; left; by eexists|]. intros Htk p l _. cbn. by rewrite Htk.
  - split_and!; try done. intros Htk p l Ep. exfalso. destruct (H6 p l Ep (H9 p l Ep)) as [[x Hx]|Ha]; [congruence|]. rewrite Et in Ha. injection Ha as ->.
    rewrite Ep in H5. apply Forall_cons in H5 as [H5 _]. lia.
  - split_and!; try done. intros Htk p l Ep. exfalso. destruct (H6 p l Ep (H9 p l Ep)) as [[x Hx]|Ha]; congruence.
Qed.
Lemma tick_pair T e1 e2 es u :
  0 <= T -> late (T + respTimeout) (e1, e2) -> tinv T u -> running u = true ->
  exists u' k, exec_all priv netrestrict (ticks ((e1, e2) :: es)) u = exec_all priv netrestrict (ticks es) u'
    /\ tinv T u' /\ running u' = true /\ tick u' = None /\ (k <= 1)%nat /\ (tick u = None -> (0 < length (plist u))%nat -> k = 1%nat)
    /\ plist u' = drop k (plist u) /\ results u' = results u ++ (timed_out <$> take k (plist u)).
Proof.
  intros H0 [L1 L2] Hi Hr. cbn [fst snd] in *. destruct (fire_run T e1 u Hi L1) as (u1 & E1 & Hi1 & Hr1 & Hp1 & Hs1 & Ht1).
  rewrite ticks_cons. cbn [exec_all]. unfold mbind at 1, GoM_bind at 1. rewrite E1. unfold mbind at 1, GoM_bind at 1. cbn [exec].
  unfold mbind at 1, GoM_bind at 1, gget. rewrite Hr1, Hr. unfold respTimeout in *. destruct (tick u1) as [now|] eqn:Etk.
  - destruct (loop_tick_run T now (clock e2 0) (clock e2 1) u1) as (u' & k & E2 & Hr2 & Ht2 & Hk & Hk1 & Hp2 & Hs2); [lia|lia|done|congruence|].
    rewrite E2. exists u', k. split; [done|]. rewrite Hp1, Hs1 in *. split_and!; try done.
    + eapply (loop_tick_keeps T now (clock e2 0) (clock e2 1)); [lia|lia|exact Hi1|exact E2].
    + intros Htk Hl. destruct (plist u) as [|p l] eqn:Ep; [simpl in Hl; lia|]. specialize (Ht1 Htk p l eq_refl). apply (Hk1 p l eq_refl).
      injection Ht1 as ->. pose proof (t_dead _ _ (t_pre _ _ Hi)) as Hd. rewrite Ep in Hd. apply Forall_cons in Hd as [Hd _]. unfold respTimeout in Hd. lia.
  - exists u1, 0%nat. split; [done|]. rewrite Hp1, Hs1, Hr1, drop_0. cbn [take fmap list_fmap]. rewrite app_nil_r. split_and!; try done; [lia|].
    intros Htk Hl. destruct (plist u) as [|p l] eqn:Ep; [simpl in Hl; lia|]. specialize (Ht1 Htk p l eq_refl). congruence.
Qed.
Lemma ticks_drain T es u :
  0 <= T -> Forall (late (T + respTimeout)) es -> tinv T u -> running u = true ->
  (length (plist u) + match tick u with Some _ => 1 | None => 0 end <= length es)%nat ->
  exists u', exec_all priv netrestrict (ticks es) u = Done (tt, u') /\ plist u' = [] /\ results u' = results u ++ (timed_out <$> plist u) /\ tinv T u'.
Proof.
  intros H0 Hl. revert u. induction Hl as [|[e1 e2] es He Hl IH]; intros u Hi Hr Hlen.
  { exists u. destruct (plist u) as [|p l] eqn:Ep; [|simpl in Hlen; lia]. rewrite app_nil_r. by split_and!. }
  destruct (tick_pair T e1 e2 es u H0 He Hi Hr) as (u1 & k & -> & Hi1 & Hr1 & Ht1 & Hk & Hk1 & Hp1 & Hs1). cbn [length] in Hlen.
  destruct (IH u1 Hi1 Hr1) as (u' & E & Hp & Hs & Hi').
  - rewrite Ht1, Hp1, length_drop. destruct (tick u) as [x|]; [lia|]. destruct (decide (length (plist u) = 0)%nat); [lia|]. specialize (Hk1 eq_refl ltac:(lia)). lia.
  - exists u'. split_and!; try done. rewrite Hs, Hs1, Hp1, <- app_assoc, <- fmap_app, take_drop. done.
Qed.
(** A reply that completes a request is not shown to the matchers after it: a
    list element that was removed has no next one. *)
Theorem dispatch_stops id ip_ data now p l (u u1 u2 : UDPv4) ok cb :
  matches p id ip_ data = true ->
  run_callback netrestrict (m_callback p) data now u = Done ((ok, true, cb), u1) ->
  finish (with_reply p cb data) None (set_cont 0 (ntpWarnTime u1) u1) = Done (tt, u2) ->
  dispatch netrestrict id ip_ data now false (p :: l) u = Done ((ok, l), u2).
Proof.
  intros Hm Hc Hf. cbn [dispatch]. rewrite Hm. unfold mbind at 1, GoM_bind at 1. rewrite Hc. unfold mbind at 1, GoM_bind at 1, gmodify.
  unfold with_reply in Hf. unfold mbind, GoM_bind. by rewrite Hf.
Qed.
End time.

End V4UdpTime.
