(* ===== verification/TrieKeys.v ===== *)
(** * Keys of tries (src/trie/encoding.go)

    The three encodings of keys: bytes, nibbles with an optional terminator, and
    the compact form of nodes on disk.  Slices of bytes are lists of [Z]; the
    functions that fill a slice return what they have written. *)

From stdpp Require Import base list numbers strings.
From Stdlib Require Import ZArith Lia.
From S2P Require Import Prelude Bytes.

Module TrieKeys.

Definition hasTerm (s : list Z) : bool :=
  match last s with Some x => x =? 16 | None => false end.
(** One byte of two nibbles; [<<] is on bytes. *)
Definition joinNibbles (a b : Z) : Z := Z.lor (byte (Z.shiftl a 4)) b.
(** An odd number of nibbles is read beyond the slice. *)
Fixpoint decodeNibbles (nibbles : list Z) : outcome (list Z) :=
  match nibbles with
  | [] => Done []
  | [_] => Panic "index out of range"
  | a :: b :: nibbles => r ← decodeNibbles nibbles; Done (joinNibbles a b :: r)
  end.
Definition hexToCompact (hex : list Z) : outcome (list Z) :=
  let '(terminator, hex) := if hasTerm hex then (1, removelast hex) else (0, hex) in
  let first := Z.shiftl terminator 5 in
  if Z.land (len hex) 1 =? 1 then
    match hex with
    | h :: hex => r ← decodeNibbles hex; Done (Z.lor (Z.lor first (Z.shiftl 1 4)) h :: r)
    | [] => Panic "index out of range"
    end
  else r ← decodeNibbles hex; Done (first :: r).

(** The loop writes to the slice it reads from. *)
Fixpoint in_place_loop (fuel bi ni hexLen : nat) (hex : list Z) : outcome (list Z) :=
  match fuel with
  | O => Done hex
  | S f =>
      if (ni <? hexLen)%nat then
        match hex !! ni, hex !! (ni + 1)%nat with
        | Some a, Some b => in_place_loop f (bi + 1) (ni + 2) hexLen (<[bi := joinNibbles a b]> hex)
        | _, _ => Panic "index out of range"
        end
      else Done hex
  end.
(** The slice afterwards, and the length of the compact key in it. *)
Definition hexToCompactInPlace (hex : list Z) : outcome (list Z * nat) :=
  let '(firstByte, hexLen) := if hasTerm hex then (Z.shiftl 1 5, (length hex - 1)%nat) else (0, length hex) in
  let binLen := (hexLen / 2 + 1)%nat in
  match hex with
  | [] => Panic "index out of range"
  | h :: _ =>
      let '(firstByte, ni) :=
        if Z.land (Z.of_nat hexLen) 1 =? 1 then (Z.lor (Z.lor firstByte (Z.shiftl 1 4)) h, 1%nat) else (firstByte, 0%nat) in
      hex ← in_place_loop hexLen 1 ni hexLen hex;
      Done (<[0%nat := firstByte]> hex, binLen)
  end.

Fixpoint nibbles_of (str : list Z) : list Z :=
  match str with
  | [] => []
  | b :: str => b / 16 :: b mod 16 :: nibbles_of str
  end.
Definition keybytesToHex (str : list Z) : list Z := nibbles_of str ++ [16].
Definition compactToHex (compact : list Z) : list Z :=
  match compact with
  | [] => []
  | _ =>
      let base := keybytesToHex compact in
      let b0 := default 0 (head base) in
      let base := if b0 <? 2 then removelast base else base in
      drop (Z.to_nat (2 - Z.land b0 1)) base
  end.
Definition hexToKeybytes (hex : list Z) : outcome (list Z) :=
  let hex := if hasTerm hex then removelast hex else hex in
  if negb (Z.land (len hex) 1 =? 0) then Panic "can't convert hex key of odd length"
  else decodeNibbles hex.

Fixpoint prefixLen (a b : list Z) : nat :=
  match a, b with
  | x :: a, y :: b => if x =? y then S (prefixLen a b) else 0
  | _, _ => 0
  end.

(** ** Nibbles *)
Definition is_nibble (z : Z) : Prop := 0 <= z < 16.
Abbreviation nibbles := (Forall is_nibble).
#[export] Instance is_nibble_dec z : Decision (is_nibble z).
Proof. unfold is_nibble. apply _. Defined.
(** A key with a terminator, or none. *)
Definition hexKey (term : bool) (ns : list Z) : list Z := if term then ns ++ [16] else ns.

Lemma hasTerm_hexKey term ns : nibbles ns -> hasTerm (hexKey term ns) = term.
Proof.
  intros Hn. unfold hasTerm, hexKey. destruct term; [by rewrite last_snoc|].
  destruct (last ns) as [x|] eqn:E; [|done]. apply last_Some in E as [l ->].
  apply Forall_app in Hn as [_ Hx]. apply Forall_cons in Hx as [Hx _]. unfold is_nibble in Hx. apply Z.eqb_neq. lia.
Qed.
Lemma joinNibbles_spec a b : is_nibble a -> is_nibble b -> joinNibbles a b = a * 16 + b.
Proof.
  unfold is_nibble. intros Ha Hb.
  assert (Hall : forallb (fun a => forallb (fun b => joinNibbles a b =? a * 16 + b) (seqZ 0 16)) (seqZ 0 16) = true) by (by vm_compute).
  rewrite forallb_forall in Hall. specialize (Hall a). rewrite forallb_forall in Hall.
  apply Z.eqb_eq, Hall; apply list_elem_of_In, elem_of_seqZ; lia.
Qed.
Lemma nibbles_of_nibbles s : bytes s -> nibbles (nibbles_of s).
Proof.
  induction 1 as [|b s Hb _ IH]; simpl; [constructor|]. unfold is_byte in Hb.
  constructor; [split; [apply Z.div_pos; lia|apply Z.div_lt_upper_bound; lia]|]. constructor; [apply Z.mod_pos_bound; lia|done].
Qed.
Lemma decodeNibbles_of s : bytes s -> decodeNibbles (nibbles_of s) = Done s.
Proof.
  induction 1 as [|b s Hb Hs IH]; [done|]. cbn [nibbles_of decodeNibbles]. rewrite IH. cbn [mbind outcome_bind].
  pose proof (nibbles_of_nibbles [b] ltac:(by constructor)) as Hn. apply Forall_cons in Hn as [H1 Hn]. apply Forall_cons in Hn as [H2 _].
  rewrite joinNibbles_spec by done. do 2 f_equal. pose proof (Z.div_mod b 16). lia.
Qed.
Lemma nibbles_of_length s : length (nibbles_of s) = (2 * length s)%nat.
Proof. induction s as [|b s IH]; simpl; [done|]. rewrite IH. lia. Qed.
Lemma nibbles_of_app s s' : nibbles_of (s ++ s') = nibbles_of s ++ nibbles_of s'.
Proof. induction s as [|b s IH]; simpl; [done|]. by rewrite IH. Qed.
(** An even number of nibbles are those of some bytes. *)
Lemma nibbles_even ns : nibbles ns -> Nat.even (length ns) = true -> exists s, bytes s /\ ns = nibbles_of s.
Proof.
  remember (length ns) as n eqn:El. revert ns El. induction n as [n IH] using lt_wf_ind. intros ns -> Hn He.
  destruct ns as [|a [|b ns]]; [by exists []; split; [constructor|]|done|]. apply Forall_cons in Hn as [Ha Hn]. apply Forall_cons in Hn as [Hb Hn].
  destruct (IH (length ns) ltac:(simpl; lia) ns eq_refl Hn He) as (s & Hs & ->). unfold is_nibble in Ha, Hb.
  exists (a * 16 + b :: s). split; [constructor; [unfold is_byte; lia|done]|]. cbn [nibbles_of].
  rewrite Z.div_add_l, Z.div_small, Z.add_0_r by lia. by rewrite Z.add_comm, Z.mod_add, Z.mod_small by lia.
Qed.
Lemma nibbles_of_inj s s' : bytes s -> bytes s' -> nibbles_of s = nibbles_of s' -> s = s'.
Proof. intros Hs Hs' E. apply decodeNibbles_of in Hs, Hs'. rewrite E, Hs' in Hs. by injection Hs. Qed.
Lemma keybytesToHex_inj s s' : bytes s -> bytes s' -> keybytesToHex s = keybytesToHex s' -> s = s'.
Proof. unfold keybytesToHex. intros Hs Hs' E%app_inj_tail. destruct E as [E _]. by apply nibbles_of_inj. Qed.

(** ** Compact keys *)
Lemma land_1_odd n : (Z.land (Z.of_nat n) 1 =? 1) = Nat.odd n.
Proof.
  change 1 with (Z.ones 1). rewrite Z.land_ones by lia. change (2 ^ 1) with 2. change (Z.ones 1) with 1.
  rewrite <- Nat.negb_even, Zmod_even. destruct (Z.even (Z.of_nat n)) eqn:E.
  - assert (Nat.even n = true) as ->; [|done]. apply Z.even_spec in E as [m Hm]. apply Nat.even_spec. exists (Z.to_nat m). lia.
  - assert (Nat.even n = false) as ->; [|done]. destruct (Nat.even n) eqn:E'; [|done]. apply Nat.even_spec in E' as [m ->].
    assert (H : Z.even (Z.of_nat (2 * m)) = true) by (apply Z.even_spec; exists (Z.of_nat m); lia). congruence.
Qed.
Lemma first_byte (term : bool) (odd : option Z) :
  (forall h, odd = Some h -> is_nibble h) ->
  let first := Z.shiftl (if term then 1 else 0) 5 in
  let c := match odd with Some h => Z.lor (Z.lor first (Z.shiftl 1 4)) h | None => first end in
  is_byte c /\ c / 16 = (if term then 2 else 0) + (match odd with Some _ => 1 | None => 0 end) /\ c mod 16 = default 0 odd.
Proof.
  intros Ho. destruct odd as [h|]; [|by destruct term]. specialize (Ho h eq_refl). unfold is_nibble in Ho. cbn [default].
  assert (Hall : forallb (fun h => forallb (fun t : bool => let c := Z.lor (Z.lor (Z.shiftl (if t then 1 else 0) 5) (Z.shiftl 1 4)) h in
    ((0 <=? c) && (c <? 256) && (c / 16 =? (if t then 2 else 0) + 1) && (c mod 16 =? h))%bool) [true; false]) (seqZ 0 16) = true) by (by vm_compute).
  rewrite forallb_forall in Hall. specialize (Hall h ltac:(apply list_elem_of_In, elem_of_seqZ; lia)). rewrite forallb_forall in Hall.
  specialize (Hall term ltac:(destruct term; simpl; tauto)). rewrite !andb_true_iff, Z.leb_le, Z.ltb_lt, !Z.eqb_eq in Hall. unfold is_byte. simpl. lia.
Qed.
(** The compact form in terms of the bytes of the nibbles. *)
Lemma hexToCompact_spec term ns :
  nibbles ns -> exists odd s, (forall h, odd = Some h -> is_nibble h) /\ bytes s
    /\ ns = match odd with Some h => h :: nibbles_of s | None => nibbles_of s end
    /\ hexToCompact (hexKey term ns)
        = Done (let first := Z.shiftl (if term then 1 else 0) 5 in
                (match odd with Some h => Z.lor (Z.lor first (Z.shiftl 1 4)) h | None => first end) :: s).
Proof.
  intros Hn. unfold hexToCompact. rewrite hasTerm_hexKey by done.
  assert (Hh : (if term then (1, removelast (hexKey term ns)) else (0, hexKey term ns)) = (if term then 1 else 0, ns)).
  { destruct term; simpl; [by rewrite removelast_last|done]. }
  rewrite Hh. unfold len. rewrite land_1_odd. destruct (Nat.odd (length ns)) eqn:Eo.
  - destruct ns as [|h ns]; [done|]. apply Forall_cons in Hn as [Hh0 Hn].
    destruct (nibbles_even ns Hn) as (s & Hs & ->); [change (length (h :: ns)) with (S (length ns)) in Eo; by rewrite Nat.odd_succ in Eo|].
    exists (Some h), s. rewrite decodeNibbles_of by done. split_and!; try done. by intros ? [= <-].
  - destruct (nibbles_even ns Hn) as (s & Hs & ->); [by rewrite <- Nat.negb_odd, Eo|]. exists None, s. by rewrite decodeNibbles_of by done.
Qed.
Lemma compactToHex_cons c s (term : bool) (odd : option Z) :
  c / 16 = (if term then 2 else 0) + (match odd with Some _ => 1 | None => 0 end) -> c mod 16 = default 0 odd ->
  compactToHex (c :: s) = hexKey term (match odd with Some h => h :: nibbles_of s | None => nibbles_of s end).
Proof.
  intros Hq Hm. unfold compactToHex, keybytesToHex. cbn [nibbles_of app head]. rewrite Hq, Hm.
  assert (Hd : forall (x y : Z) l, removelast (x :: y :: l ++ [16]) = x :: y :: l).
  { intros x y l. by rewrite !app_comm_cons, removelast_last. }
  rewrite Hd. destruct term, odd as [h|]; cbn; by rewrite ?drop_0.
Qed.
(** Keys survive their compact form. *)
Lemma compact_roundtrip term ns :
  nibbles ns -> exists c, hexToCompact (hexKey term ns) = Done c /\ bytes c /\ c <> [] /\ compactToHex c = hexKey term ns.
Proof.
  intros Hn. destruct (hexToCompact_spec term ns Hn) as (odd & s & Ho & Hs & Hns & ->). cbv zeta.
  destruct (first_byte term odd Ho) as (Hc & Hq & Hm). eexists. split; [done|]. split; [by constructor|]. split; [done|].
  rewrite (compactToHex_cons _ _ term odd) by done. by rewrite Hns.
Qed.
Lemma keybytes_roundtrip s : bytes s -> hexToKeybytes (keybytesToHex s) = Done s.
Proof.
  intros Hs. unfold hexToKeybytes, keybytesToHex. pose proof (nibbles_of_nibbles s Hs) as Hn.
  assert (hasTerm (nibbles_of s ++ [16]) = true) as -> by apply (hasTerm_hexKey true _ Hn). rewrite removelast_last.
  assert (Z.land (len (nibbles_of s)) 1 = 0) as ->; [|by apply decodeNibbles_of].
  unfold len. rewrite nibbles_of_length, Nat2Z.inj_mul. change 1 with (Z.ones 1). rewrite Z.land_ones by lia. rewrite Z.mul_comm. by apply Z.mod_mul.
Qed.

(** ** Compact keys in place *)
(** The loop never overwrites a nibble that it still has to read. *)
Lemma in_place_loop_spec fuel : forall bi ni hexLen hex r,
  (bi <= ni + 1)%nat -> (bi + length r <= length hex)%nat -> (hexLen <= length hex)%nat -> (length r <= fuel)%nat ->
  decodeNibbles (drop ni (take hexLen hex)) = Done r ->
  exists hex', in_place_loop fuel bi ni hexLen hex = Done hex' /\ length hex' = length hex
    /\ take (bi + length r) hex' = take bi hex ++ r.
Proof.
  induction fuel as [|f IH]; intros bi ni hexLen hex r Hbi Hr Hl Hf Hd.
  - destruct r; [|simpl in Hf; lia]. exists hex. rewrite Nat.add_0_r, app_nil_r. done.
  - cbn [in_place_loop]. destruct (Nat.ltb_spec ni hexLen) as [Hn|Hn].
    2: { rewrite drop_ge in Hd by (rewrite length_take; lia). injection Hd as <-. exists hex. by rewrite Nat.add_0_r, app_nil_r. }
    destruct (lookup_lt_is_Some_2 hex ni ltac:(lia)) as [a Ea]. rewrite Ea.
    rewrite (drop_S _ a) in Hd by (by rewrite lookup_take_lt). 
    destruct (hex !! (ni + 1)%nat) as [b|] eqn:Eb.
    2: { rewrite drop_ge in Hd; [done|]. apply lookup_ge_None in Eb. rewrite length_take. lia. }
    destruct (decide (S ni < hexLen)%nat) as [Hn'|Hn'].
    2: { by rewrite drop_ge in Hd by (rewrite length_take; lia). }
    rewrite (drop_S _ b) in Hd by (rewrite lookup_take_lt by done; by rewrite <- Nat.add_1_r).
    cbn [decodeNibbles] in Hd. destruct (decodeNibbles (drop (S (S ni)) (take hexLen hex))) as [r'| |] eqn:Er; try done.
    injection Hd as <-. cbn [length] in *.
    destruct (IH (bi + 1)%nat (ni + 2)%nat hexLen (<[bi := joinNibbles a b]> hex) r') as (hex' & Hh & Hlen & Ht); rewrite ?length_insert; try lia.
    { rewrite <- Er. f_equal. replace (ni + 2)%nat with (S (S ni)) by lia. apply list_eq. intros i. rewrite !lookup_drop.
      destruct (decide (S (S ni) + i < hexLen)%nat); [|by rewrite !lookup_take_ge by lia].
      rewrite !lookup_take_lt by lia. rewrite list_lookup_insert_ne by lia. done. }
    exists hex'. split; [done|]. rewrite length_insert in Hlen. split; [done|].
    replace (bi + S (length r'))%nat with (bi + 1 + length r')%nat by lia. rewrite Ht.
    replace (bi + 1)%nat with (S bi) by lia. rewrite (take_S_r _ _ (joinNibbles a b)) by (apply list_lookup_insert_eq; lia).
    rewrite take_insert_ge by lia. by rewrite <- app_assoc.
Qed.
Lemma decodeNibbles_even ns : Nat.even (length ns) = true -> exists r, decodeNibbles ns = Done r /\ length ns = (2 * length r)%nat.
Proof.
  remember (length ns) as n eqn:El. revert ns El. induction n as [n IH] using lt_wf_ind. intros ns -> He.
  destruct ns as [|a [|b ns]]; [by exists []|done|]. destruct (IH (length ns) ltac:(simpl; lia) ns eq_refl He) as (r & Hr & Hl).
  cbn [decodeNibbles length]. rewrite Hr. eexists. split; [done|]. simpl. lia.
Qed.
(** The slice holds the compact key, which is the one of [hexToCompact]. *)
Lemma in_place_exact hex :
  hex <> [] -> exists c hex', hexToCompact hex = Done c /\ hexToCompactInPlace hex = Done (hex', length c) /\ take (length c) hex' = c
    /\ length hex' = length hex.
Proof.
  intros Hne. unfold hexToCompact, hexToCompactInPlace.
  set (n := if hasTerm hex then (length hex - 1)%nat else length hex).
  assert (Hn : (n <= length hex)%nat) by (unfold n; destruct (hasTerm hex); lia).
  assert (Hex : (if hasTerm hex then (1, removelast hex) else (0, hex)) = (if hasTerm hex then 1 else 0, take n hex)).
  { unfold n. destruct (hasTerm hex) eqn:E; [|by rewrite take_ge]. by rewrite removelast_firstn_len, Nat.sub_1_r. }
  assert (Hin : (if hasTerm hex then (Z.shiftl 1 5, (length hex - 1)%nat) else (0, length hex)) = (Z.shiftl (if hasTerm hex then 1 else 0) 5, n)).
  { unfold n. by destruct (hasTerm hex). }
  rewrite Hex, Hin. unfold len. rewrite length_take, Nat.min_l, land_1_odd by done.
  generalize (Z.shiftl (if hasTerm hex then 1 else 0) 5). clear Hex Hin. clearbody n. intros first.
  destruct hex as [|h hex]; [done|]. clear Hne.
  assert (Hfin : forall c r hex', length hex' = length (h :: hex) -> take (1 + length r) hex' = take 1 (h :: hex) ++ r ->
    take (length (c :: r)) (<[0%nat:=c]> hex') = c :: r).
  { intros c r [|h' hex'] Hl Ht; [done|]. simpl in *. by injection Ht as -> ->. }
  destruct (Nat.odd n) eqn:Eo.
  - destruct n as [|n]; [done|]. cbn [take]. rewrite Nat.odd_succ in Eo. simpl in Hn.
    destruct (decodeNibbles_even (take n hex)) as (r & Hr & Hl); [by rewrite length_take, Nat.min_l by lia|].
    rewrite length_take, Nat.min_l in Hl by lia. rewrite Hr. cbn [mbind outcome_bind].
    destruct (in_place_loop_spec (S n) 1 1 (S n) (h :: hex) r) as (hex' & Hh & Hlen & Ht); [lia|simpl; lia|simpl; lia|lia|done|].
    rewrite Hh. eexists _, _. split; [done|]. split_and!; [|by apply Hfin|by rewrite length_insert].
    cbn [mbind outcome_bind length]. do 2 f_equal. rewrite Hl. replace (S (2 * length r)) with (1 + length r * 2)%nat by lia. rewrite Nat.div_add by lia. simpl. lia.
  - destruct (decodeNibbles_even (take n (h :: hex))) as (r & Hr & Hl); [by rewrite length_take, Nat.min_l, <- Nat.negb_odd, Eo by lia|].
    rewrite length_take, Nat.min_l in Hl by lia. rewrite Hr. cbn [mbind outcome_bind]. simpl in Hn.
    destruct (decide (n = 0%nat)) as [->|Hn0].
    { destruct r; [|simpl in Hl; lia]. eexists _, _. split; [done|]. split_and!; [done| |]; done. }
    destruct (in_place_loop_spec n 1 0 n (h :: hex) r) as (hex' & Hh & Hlen & Ht); [lia|simpl; lia|simpl; lia|lia|done|].
    rewrite Hh. eexists _, _. split; [done|]. split_and!; [|by apply Hfin|by rewrite length_insert].
    cbn [mbind outcome_bind length]. do 2 f_equal. rewrite Hl. replace (2 * length r)%nat with (length r * 2)%nat by lia. rewrite Nat.div_mul by lia. lia.
Qed.

(** ** Common prefixes *)
Lemma prefixLen_spec a b :
  take (prefixLen a b) a = take (prefixLen a b) b /\ (prefixLen a b <= length a)%nat /\ (prefixLen a b <= length b)%nat
  /\ (forall x y, a !! prefixLen a b = Some x -> b !! prefixLen a b = Some y -> x <> y).
Proof.
  revert b. induction a as [|x a IH]; intros [|y b]; simpl; [split_and!; (done || lia)..|].
  destruct (Z.eqb_spec x y) as [->|Hxy]; [|by split_and!; (lia || (simpl; congruence))]. simpl.
  destruct (IH b) as (H1 & H2 & H3 & H4). rewrite H1. split_and!; (done || lia).
Qed.
End TrieKeys.
