(* ===== verification/Trie.v ===== *)
(** * Merkle Patricia tries (src/trie: trie.go, node.go, node_enc.go, hasher.go)

    A [node] is the Go interface of that name; [Nil] is the nil interface.  The
    trie's database is the parameter [dbnode], what Database.node returns for
    a hash.  Nodes are never changed in place: the code copies a node before it
    sets a field, so that values model them.  On an error the callers of the
    recursive operations use nothing but the error, so these return a sum. *)

From stdpp Require Import base list numbers strings.
From Stdlib Require Import ZArith Lia.
From S2P Require Import Prelude Bytes Rlp Enr TrieKeys.
Import Rlp Enr TrieKeys.

#[local] Set Warnings "-register-all".

Module Trie.

(** ** Nodes (node.go) *)
Record nodeFlag : Type := mk_nodeFlag {
  hash : option (list Z);      (* cached hash of the node (may be nil) *)
  dirty : bool;                (* whether the node has changes that must be written to the database *)
}.
Inductive node : Type :=
  | Nil
  | fullNode (Children : list node) (flags : nodeFlag)
  | shortNode (Key : list Z) (Val : node) (flags : nodeFlag)
  | hashNode (h : list Z)
  | valueNode (v : list Z).
Definition cache (n : node) : option (list Z) * bool :=
  match n with
  | fullNode _ flags | shortNode _ _ flags => (hash flags, dirty flags)
  | _ => (None, true)
  end.
Definition isNil (n : node) : bool := match n with Nil => true | _ => false end.
Definition nilValueNode : node := valueNode [].
Definition EmptyString : list Z := [0x80].

(** ** Encoding (node_enc.go) *)
Fixpoint encode (n : node) (w : encBuffer) : encBuffer :=
  match n with
  | Nil => Write EmptyString w
  | fullNode Children _ =>
      let '(offset, w) := list_ w in
      let w := foldl (fun w f => f w) w (map encode Children) in
      listEnd offset w
  | shortNode Key Val _ =>
      let '(offset, w) := list_ w in
      listEnd offset (encode Val (writeBytes Key w))
  | hashNode h => writeBytes h w
  | valueNode v => writeBytes v w
  end.
Definition nodeToBytes (n : node) : list Z := makeBytes (encode n empty_buffer).

(** ** Decoding (node.go) *)
Inductive nodeErr : Type :=
  | ErrUnexpectedEOF
  | decodeErr (e : rlpErr)                  (* "decode error: %v" *)
  | invalidCount (c : Z)                    (* "invalid number of list elements: %v" *)
  | invalidValue (e : rlpErr)               (* "invalid value node: %v" *)
  | rlpError (e : rlpErr)
  | oversized (size : Z)                    (* "oversized embedded node" *)
  | invalidSize (n : Z)                     (* "invalid RLP string size" *)
  | decodeError (what : nodeErr) (stack : list string).
Definition wrapError (err : nodeErr) (ctx : string) : nodeErr :=
  match err with
  | decodeError what stack => decodeError what (stack ++ [ctx])
  | _ => decodeError err [ctx]
  end.
Definition wrapped {A} (ctx : string) (r : outcome (nodeErr + A)) : outcome (nodeErr + A) :=
  match r with
  | Done (inl e) => Done (inl (wrapError e ctx))
  | _ => r
  end.
Definition hashLen : Z := 32.
Definition child_names : list string :=
  ["[0]"; "[1]"; "[2]"; "[3]"; "[4]"; "[5]"; "[6]"; "[7]"; "[8]"; "[9]"; "[10]"; "[11]"; "[12]"; "[13]"; "[14]"; "[15]"]%string.

(** The calls of [decodeNode] for embedded nodes go through [rec]. *)
Definition decodeRef (rec : option (list Z) -> list Z -> outcome (nodeErr + node)) (buf : list Z) : outcome (nodeErr + (node * list Z)) :=
  match Split buf with
  | inl e => Done (inl (rlpError e))
  | inr (kind, val, rest) =>
      match kind with
      | List_ =>
          if hashLen <? len buf - len rest then Done (inl (oversized (len buf - len rest)))
          else
            r ← rec None buf;
            match r with
            | inl e => Done (inl e)
            | inr n => Done (inr (n, rest))
            end
      | String_ =>
          if len val =? 0 then Done (inr (Nil, rest))
          else if len val =? 32 then Done (inr (hashNode val, rest))
          else Done (inl (invalidSize (len val)))
      | Byte => Done (inl (invalidSize (len val)))
      end
  end.
Definition decodeShort (rec : option (list Z) -> list Z -> outcome (nodeErr + node)) (hash : option (list Z)) (elems : list Z) : outcome (nodeErr + node) :=
  match SplitString elems with
  | inl e => Done (inl (rlpError e))
  | inr (kbuf, rest) =>
      let flag := mk_nodeFlag hash false in
      let key := compactToHex kbuf in
      if hasTerm key then
        match SplitString rest with
        | inl e => Done (inl (invalidValue e))
        | inr (val, _) => Done (inr (shortNode key (valueNode val) flag))
        end
      else
        r ← wrapped "val" (decodeRef rec rest);
        match r with
        | inl e => Done (inl e)
        | inr (r, _) => Done (inr (shortNode key r flag))
        end
  end.
Fixpoint decodeFull_loop (rec : option (list Z) -> list Z -> outcome (nodeErr + node)) (ixs : list string) (elems : list Z) : outcome (nodeErr + (list node * list Z)) :=
  match ixs with
  | [] => Done (inr ([], elems))
  | i :: ixs =>
      r ← wrapped i (decodeRef rec elems);
      match r with
      | inl e => Done (inl e)
      | inr (cld, rest) =>
          r ← decodeFull_loop rec ixs rest;
          match r with
          | inl e => Done (inl e)
          | inr (clds, rest) => Done (inr (cld :: clds, rest))
          end
      end
  end.
Definition decodeFull (rec : option (list Z) -> list Z -> outcome (nodeErr + node)) (hash : option (list Z)) (elems : list Z) : outcome (nodeErr + node) :=
  r ← decodeFull_loop rec child_names elems;
  match r with
  | inl e => Done (inl e)
  | inr (clds, rest) =>
      match SplitString rest with
      | inl e => Done (inl (rlpError e))
      | inr (val, _) =>
          let last := if 0 <? len val then valueNode val else Nil in
          Done (inr (fullNode (clds ++ [last]) (mk_nodeFlag hash false)))
      end
  end.
Fixpoint decode_node (fuel : nat) (hash : option (list Z)) (buf : list Z) : outcome (nodeErr + node) :=
  match fuel with
  | O => Blocked "decodeNode"
  | S f =>
      match buf with
      | [] => Done (inl ErrUnexpectedEOF)
      | _ =>
          match SplitList buf with
          | inl e => Done (inl (decodeErr e))
          | inr (elems, _) =>
              let c := match CountValues elems with inl _ => 0 | inr c => c end in
              if c =? 2 then wrapped "short" (decodeShort (decode_node f) hash elems)
              else if c =? 17 then wrapped "full" (decodeFull (decode_node f) hash elems)
              else Done (inl (invalidCount c))
          end
      end
  end.
(** An embedded node is shorter than the node that holds it. *)
Definition decodeNode (hash : option (list Z)) (buf : list Z) : outcome (nodeErr + node) :=
  decode_node (S (length buf)) hash buf.
Definition mustDecodeNode (hash : option (list Z)) (buf : list Z) : outcome node :=
  r ← decodeNode hash buf;
  match r with
  | inl _ => Panic "node: decode error"
  | inr n => Done n
  end.

(** ** Hashing (hasher.go)

    With [parallel] the sixteen children are hashed by goroutines of their own,
    each of which sets its own child; the result is the same. *)
Section hasher.
Context `{C : Crypto}.

Section children.
Variable rec : node -> bool -> outcome (node * node).

Definition hashShortNodeChildren (Key : list Z) (Val : node) (flags : nodeFlag) : outcome (node * node) :=
  k ← hexToCompact Key;
  match Val with
  | fullNode _ _ | shortNode _ _ _ =>
      r ← rec Val false;
      Done (shortNode k r.1 flags, shortNode Key r.2 flags)
  | _ => Done (shortNode k Val flags, shortNode Key Val flags)
  end.
(** The children, each with its own call of [hash_]. *)
Fixpoint hash_children (cs : list (node * (bool -> outcome (node * node)))) : outcome (list node * list node) :=
  match cs with
  | [] => Done ([], [])
  | (c, hash_c) :: cs =>
      r ← (if isNil c then Done (nilValueNode, Nil) else hash_c false);
      rs ← hash_children cs;
      Done (r.1 :: rs.1, r.2 :: rs.2)
  end.
Definition hashFullNodeChildren (Children : list node) (flags : nodeFlag) : outcome (node * node) :=
  rs ← hash_children (take 16 (map (fun c => (c, rec c)) Children));
  Done (fullNode (rs.1 ++ drop 16 Children) flags, fullNode (rs.2 ++ drop 16 Children) flags).
End children.

Definition hashData (data : list Z) : node := hashNode (Keccak256 data).
(** shortnodeToHash and fullnodeToHash. *)
Definition nodeToHash (n : node) (force : bool) : node :=
  let enc := nodeToBytes n in
  if ((len enc <? 32) && negb force)%bool then n else hashData enc.
Definition set_hash (cached hashed : node) : node :=
  let h := match hashed with hashNode h => Some h | _ => None end in
  match cached with
  | shortNode Key Val flags => shortNode Key Val (mk_nodeFlag h (dirty flags))
  | fullNode Children flags => fullNode Children (mk_nodeFlag h (dirty flags))
  | n => n
  end.
Fixpoint hash_ (n : node) (force : bool) : outcome (node * node) :=
  match (cache n).1 with
  | Some h => Done (hashNode h, n)
  | None =>
      match n with
      | shortNode Key Val flags =>
          r ← hashShortNodeChildren hash_ Key Val flags;
          let hashed := nodeToHash r.1 force in
          Done (hashed, set_hash r.2 hashed)
      | fullNode Children flags =>
          r ← hashFullNodeChildren hash_ Children flags;
          let hashed := nodeToHash r.1 force in
          Done (hashed, set_hash r.2 hashed)
      | n => Done (n, n)
      end
  end.
Definition proofHash (original : node) : outcome (node * node) :=
  match original with
  | shortNode Key Val flags =>
      r ← hashShortNodeChildren hash_ Key Val flags; Done (r.1, nodeToHash r.1 false)
  | fullNode Children flags =>
      r ← hashFullNodeChildren hash_ Children flags; Done (r.1, nodeToHash r.1 false)
  | n => Done (n, n)
  end.
End hasher.

(** ** The trie (trie.go) *)
Definition SetBytes (b : list Z) : list Z :=
  let b := drop (length b - 32) b in replicate (32 - length b) 0 ++ b.
Definition BytesToHash (b : list Z) : list Z := SetBytes b.
Definition emptyRoot : list Z := be 32 0x56e81f171bcc55a6ff8345e692c0f86e5b48e01b996cadc001622fb5e363b421.
Inductive trieErr : Type :=
  | MissingNodeError (NodeHash Path : list Z)
  | errNonConsensus
  | errNotFound.
Definition newFlag : nodeFlag := mk_nodeFlag None true.
(** [n.Children[i]], and the assignment to it. *)
Definition child (Children : list node) (i : Z) : outcome node :=
  match Children !! Z.to_nat i with Some c => Done c | None => Panic "index out of range" end.
Definition set_child (Children : list node) (i : Z) (n : node) : outcome (list node) :=
  match Children !! Z.to_nat i with Some _ => Done (<[Z.to_nat i := n]> Children) | None => Panic "index out of range" end.
Definition key_at (key : list Z) (i : nat) : outcome Z :=
  match key !! i with Some x => Done x | None => Panic "index out of range" end.
(** Go on unless there is an error. *)
Definition try {E A B} (r : outcome (E + A)) (k : A -> outcome (E + B)) : outcome (E + B) :=
  match r with
  | Done (inl e) => Done (inl e)
  | Done (inr a) => k a
  | Panic m => Panic m
  | Blocked w => Blocked w
  end.
Notation "'let?' x ':=' m 'in' k" := (try m (fun x => k)) (at level 10, x name, k at level 200).

Section ops.
Variable dbnode : list Z -> outcome (option node).

Definition resolveHash (n prefix : list Z) : outcome (trieErr + node) :=
  let hash := BytesToHash n in
  r ← dbnode hash;
  match r with
  | Some node => Done (inr node)
  | None => Done (inl (MissingNodeError hash prefix))
  end.
Definition resolve (n : node) (prefix : list Z) : outcome (trieErr + node) :=
  match n with
  | hashNode h => resolveHash h prefix
  | _ => Done (inr n)
  end.

Fixpoint tryGet (fuel : nat) (origNode : node) (key : list Z) (pos : nat) : outcome (trieErr + (option (list Z) * node * bool)) :=
  match fuel with
  | O => Blocked "tryGet"
  | S f =>
      match origNode with
      | Nil => Done (inr (None, Nil, false))
      | valueNode v => Done (inr (Some v, origNode, false))
      | shortNode Key Val flags =>
          if ((len key - Z.of_nat pos <? len Key) || negb (bool_decide (Key = take (length Key) (drop pos key))))%bool
          then Done (inr (None, origNode, false))
          else
            let? r := tryGet f Val key (pos + length Key) in
            let '(value, newnode, didResolve) := r in
            Done (inr (value, if didResolve : bool then shortNode Key newnode flags else origNode, didResolve))
      | fullNode Children flags =>
          x ← key_at key pos;
          c ← child Children x;
          let? r := tryGet f c key (pos + 1) in
          let '(value, newnode, didResolve) := r in
          if didResolve : bool then
            cs ← set_child Children x newnode;
            Done (inr (value, fullNode cs flags, true))
          else Done (inr (value, origNode, false))
      | hashNode h =>
          let? child := resolveHash h (take pos key) in
          let? r := tryGet f child key pos in
          Done (inr (r.1.1, r.1.2, true))
      end
  end.

Fixpoint insert (fuel : nat) (n : node) (prefix key : list Z) (value : node) : outcome (trieErr + (bool * node)) :=
  match fuel with
  | O => Blocked "insert"
  | S f =>
      match key with
      | [] =>
          match n with
          | valueNode v =>
              match value with
              | valueNode v' => Done (inr (negb (bool_decide (v = v')), value))
              | _ => Panic "interface conversion"
              end
          | _ => Done (inr (true, value))
          end
      | k0 :: ktl =>
          match n with
          | shortNode Key Val flags =>
              let matchlen := prefixLen key Key in
              if (matchlen =? length Key)%nat then
                let? r := insert f Val (prefix ++ take matchlen key) (drop matchlen key) value in
                if negb r.1 then Done (inr (false, n)) else Done (inr (true, shortNode Key r.2 newFlag))
              else
                let branch := replicate 17 Nil in
                i ← key_at Key matchlen;
                let? r := insert f Nil (prefix ++ take (matchlen + 1) Key) (drop (matchlen + 1) Key) Val in
                branch ← set_child branch i r.2;
                j ← key_at key matchlen;
                let? r := insert f Nil (prefix ++ take (matchlen + 1) key) (drop (matchlen + 1) key) value in
                branch ← set_child branch j r.2;
                if (matchlen =? 0)%nat then Done (inr (true, fullNode branch newFlag))
                else Done (inr (true, shortNode (take matchlen key) (fullNode branch newFlag) newFlag))
          | fullNode Children flags =>
              c ← child Children k0;
              let? r := insert f c (prefix ++ [k0]) ktl value in
              if negb r.1 then Done (inr (false, n))
              else
                cs ← set_child Children k0 r.2;
                Done (inr (true, fullNode cs newFlag))
          | Nil => Done (inr (true, shortNode key value newFlag))
          | hashNode h =>
              let? rn := resolveHash h prefix in
              let? r := insert f rn prefix key value in
              if negb r.1 then Done (inr (false, rn)) else Done (inr (true, r.2))
          | valueNode _ => Panic "invalid node"
          end
      end
  end.

(** The loop of [delete] over the children: the index of the only one, -1 for
    none, -2 for several. *)
Fixpoint single_loop (cs : list node) (i pos : Z) : Z :=
  match cs with
  | [] => pos
  | cld :: cs =>
      if negb (isNil cld) then if pos =? -1 then single_loop cs (i + 1) i else -2
      else single_loop cs (i + 1) pos
  end.
Definition concat (s1 s2 : list Z) : list Z := s1 ++ s2.

Fixpoint delete (fuel : nat) (n : node) (prefix key : list Z) : outcome (trieErr + (bool * node)) :=
  match fuel with
  | O => Blocked "delete"
  | S f =>
      match n with
      | shortNode Key Val flags =>
          let matchlen := prefixLen key Key in
          if (matchlen <? length Key)%nat then Done (inr (false, n))
          else if (matchlen =? length key)%nat then Done (inr (true, Nil))
          else
            let? r := delete f Val (prefix ++ take (length Key) key) (drop (length Key) key) in
            if negb r.1 then Done (inr (false, n))
            else
              match r.2 with
              | shortNode ckey cval _ => Done (inr (true, shortNode (concat Key ckey) cval newFlag))
              | child => Done (inr (true, shortNode Key child newFlag))
              end
      | fullNode Children flags =>
          k0 ← key_at key 0;
          c ← child Children k0;
          let? r := delete f c (prefix ++ [k0]) (drop 1 key) in
          if negb r.1 then Done (inr (false, n))
          else
            cs ← set_child Children k0 r.2;
            if negb (isNil r.2) then Done (inr (true, fullNode cs newFlag))
            else
              let pos := single_loop cs 0 (-1) in
              if 0 <=? pos then
                c ← child cs pos;
                if negb (pos =? 16) then
                  let? cnode := resolve c prefix in
                  match cnode with
                  | shortNode ckey cval _ => Done (inr (true, shortNode (pos :: ckey) cval newFlag))
                  | _ => Done (inr (true, shortNode [pos] c newFlag))
                  end
                else Done (inr (true, shortNode [pos] c newFlag))
              else Done (inr (true, fullNode cs newFlag))
      | valueNode _ => Done (inr (true, Nil))
      | Nil => Done (inr (false, Nil))
      | hashNode h =>
          let? rn := resolveHash h prefix in
          let? r := delete f rn prefix key in
          if negb r.1 then Done (inr (false, rn)) else Done (inr (true, r.2))
      end
  end.

(** Nodes by their path; [dbNode] is Database.Node. *)
Fixpoint tryGetNode (dbNode : list Z -> trieErr + list Z) (fuel : nat) (origNode : node) (path : list Z) (pos : nat) :
    outcome (trieErr + (option (list Z) * node * Z)) :=
  match fuel with
  | O => Blocked "tryGetNode"
  | S f =>
      match origNode with
      | Nil => Done (inr (None, Nil, 0))
      | _ =>
          if (length path <=? pos)%nat then
            let hash := match origNode with hashNode h => Some h | _ => (cache origNode).1 end in
            match hash with
            | None => Done (inl errNonConsensus)
            | Some hash =>
                match dbNode (BytesToHash hash) with
                | inl e => Done (inl e)
                | inr blob => Done (inr (Some blob, origNode, 1))
                end
            end
          else
            match origNode with
            | Nil | valueNode _ => Done (inr (None, Nil, 0))
            | shortNode Key Val flags =>
                if ((len path - Z.of_nat pos <? len Key) || negb (bool_decide (Key = take (length Key) (drop pos path))))%bool
                then Done (inr (None, origNode, 0))
                else
                  let? r := tryGetNode dbNode f Val path (pos + length Key) in
                  let '(item, newnode, resolved) := r in
                  Done (inr (item, if 0 <? resolved then shortNode Key newnode flags else origNode, resolved))
            | fullNode Children flags =>
                x ← key_at path pos;
                c ← child Children x;
                let? r := tryGetNode dbNode f c path (pos + 1) in
                let '(item, newnode, resolved) := r in
                if 0 <? resolved then
                  cs ← set_child Children x newnode;
                  Done (inr (item, fullNode cs flags, resolved))
                else Done (inr (item, origNode, resolved))
            | hashNode h =>
                let? child := resolveHash h (take pos path) in
                let? r := tryGetNode dbNode f child path pos in
                Done (inr (r.1.1, r.1.2, r.2 + 1))
            end
      end
  end.

(** ** Operations of a trie *)
Record Trie : Type := mk_Trie {
  root : node;
  unhashed : Z;                (* leafs inserted since the last hashing operation *)
}.
Definition empty_trie : Trie := mk_Trie Nil 0.
(** A step down the trie consumes part of the key or resolves a hash; what is
    resolved is not a hash itself. *)
Definition fuel_of (key : list Z) : nat := 2 * length key + 2.

(** common.Hash{} *)
Definition zeroHash : list Z := replicate 32 0.
Definition New (root : list Z) : outcome (trieErr + Trie) :=
  if (negb (bool_decide (root = zeroHash)) && negb (bool_decide (root = emptyRoot)))%bool then
    let? rootnode := resolveHash root [] in Done (inr (mk_Trie rootnode 0))
  else Done (inr empty_trie).
Definition TryGet (key : list Z) : GoM Trie (trieErr + option (list Z)) := fun t =>
  let k := keybytesToHex key in
  r ← tryGet (fuel_of k) (root t) k 0;
  match r with
  | inl e => Done (inl e, t)
  | inr (value, newroot, didResolve) =>
      Done (inr value, if didResolve : bool then mk_Trie newroot (unhashed t) else t)
  end.
Definition TryGetNode (dbNode : list Z -> trieErr + list Z) (path : list Z) : GoM Trie (trieErr + (option (list Z) * Z)) := fun t =>
  let p := compactToHex path in
  r ← tryGetNode dbNode (fuel_of p) (root t) p 0;
  match r with
  | inl e => Done (inl e, t)
  | inr (item, newroot, resolved) =>
      Done (inr (item, resolved), if 0 <? resolved then mk_Trie newroot (unhashed t) else t)
  end.
Definition TryUpdate (key value : list Z) : GoM Trie (option trieErr) := fun t =>
  let t := mk_Trie (root t) (unhashed t + 1) in
  let k := keybytesToHex key in
  r ← (if negb (len value =? 0) then insert (fuel_of k) (root t) [] k (valueNode value) else delete (fuel_of k) (root t) [] k);
  match r with
  | inl e => Done (Some e, t)
  | inr (_, n) => Done (None, mk_Trie n (unhashed t))
  end.
Definition TryDelete (key : list Z) : GoM Trie (option trieErr) := fun t =>
  let t := mk_Trie (root t) (unhashed t + 1) in
  let k := keybytesToHex key in
  r ← delete (fuel_of k) (root t) [] k;
  match r with
  | inl e => Done (Some e, t)
  | inr (_, n) => Done (None, mk_Trie n (unhashed t))
  end.
Definition Get (key : list Z) : GoM Trie (option (list Z)) :=
  r ← TryGet key;
  mret (match r with inl _ => None | inr value => value end).
Definition Update (key value : list Z) : GoM Trie unit := TryUpdate key value ≫= fun _ => mret tt.
Definition Delete (key : list Z) : GoM Trie unit := TryDelete key ≫= fun _ => mret tt.
Definition Reset : GoM Trie unit := fun _ => Done (tt, empty_trie).
End ops.

Section hashing.
Context `{C : Crypto}.
Definition hashRoot : GoM Trie (node * node) := fun t =>
  match root t with
  | Nil => Done ((hashNode emptyRoot, Nil), t)
  | n => r ← hash_ n true; Done (r, mk_Trie n 0)
  end.
Definition Hash : GoM Trie (list Z) :=
  r ← hashRoot;
  gmodify (fun t => mk_Trie r.2 (unhashed t)) ≫= fun _ =>
  match r.1 with
  | hashNode h => mret (BytesToHash h)
  | _ => gpanic "interface conversion"
  end.
End hashing.
End Trie.
