(* ===== verification/TriePure.v ===== *)
(** * The tree a trie stands for

    A [ptrie] is a trie with every node loaded and without caches.  [can] says
    that it has the form the operations keep: leaves end in the terminator, an
    extension leads to a branch, a branch has at least two children.  Such a
    tree is determined by its lookups ([can_unique]). *)

From stdpp Require Import base list numbers strings.
From Stdlib Require Import ZArith Lia.
From S2P Require Import Prelude Bytes TrieKeys.
Import TrieKeys.

#[local] Set Warnings "-register-all".

Module TriePure.

Inductive ptrie : Type :=
  | PNil
  | PVal (v : list Z)
  | PShort (k : list Z) (c : ptrie)
  | PFull (cs : list ptrie).

Section ptrie_ind.
Variable P : ptrie -> Prop.
Hypothesis HNil : P PNil.
Hypothesis HVal : forall v, P (PVal v).
Hypothesis HShort : forall k c, P c -> P (PShort k c).
Hypothesis HFull : forall cs, Forall P cs -> P (PFull cs).
Fixpoint ptrie_rect' (t : ptrie) : P t :=
  match t with
  | PNil => HNil
  | PVal v => HVal v
  | PShort k c => HShort k c (ptrie_rect' c)
  | PFull cs =>
      HFull cs ((fix go (cs : list ptrie) : Forall P cs :=
        match cs with
        | [] => Forall_nil_2 _
        | c :: cs => Forall_cons_2 _ _ _ (ptrie_rect' c) (go cs)
        end) cs)
  end.
End ptrie_ind.

#[export] Instance ptrie_nil_dec (t : ptrie) : Decision (t = PNil).
Proof. destruct t; first [by left|by right]. Defined.

(** ** Lookups *)
Definition at_ix {A} (l : list A) (x : Z) : option A := if 0 <=? x then l !! Z.to_nat x else None.
Fixpoint pget (t : ptrie) (key : list Z) : option (list Z) :=
  match t with
  | PNil => None
  | PVal v => match key with [] => Some v | _ => None end
  | PShort k c => if bool_decide (k = take (length k) key) then pget c (drop (length k) key) else None
  | PFull cs =>
      match key with
      | [] => None
      | x :: key => match at_ix (map pget cs) x with Some f => f key | None => None end
      end
  end.
Lemma pget_full cs x key :
  pget (PFull cs) (x :: key) = match at_ix cs x with Some c => pget c key | None => None end.
Proof. cbn [pget]. unfold at_ix. destruct (0 <=? x); [|done]. rewrite list_lookup_fmap. by destruct (cs !! Z.to_nat x). Qed.
Lemma at_ix_Some {A} (l : list A) x c : at_ix l x = Some c <-> 0 <= x /\ l !! Z.to_nat x = Some c.
Proof. unfold at_ix. destruct (Z.leb_spec 0 x); split; [auto|by intros []|done|lia]. Qed.
Lemma at_ix_nat {A} (l : list A) n : at_ix l (Z.of_nat n) = l !! n.
Proof. unfold at_ix. by rewrite (proj2 (Z.leb_le _ _)), Nat2Z.id by lia. Qed.
Lemma pget_short k c key : pget (PShort k c) (k ++ key) = pget c key.
Proof. cbn [pget]. rewrite take_app_length, drop_app_length. by rewrite bool_decide_eq_true_2. Qed.
Lemma pget_short_inv k c key v : pget (PShort k c) key = Some v -> exists key', key = k ++ key' /\ pget c key' = Some v.
Proof.
  cbn [pget]. case_bool_decide as E; [|done]. intros Hv. exists (drop (length k) key). split; [|done].
  by rewrite E, take_drop at 1.
Qed.

(** ** Keys: nibbles and the terminator *)
Definition is_key (k : list Z) : Prop := exists ns, nibbles ns /\ k = ns ++ [16].
Lemma is_key_cons x k : is_nibble x -> is_key (x :: k) <-> is_key k.
Proof.
  intros Hx. split.
  - intros (ns & Hn & E). destruct ns as [|y ns]; [injection E as -> _; unfold is_nibble in Hx; lia|].
    injection E as -> ->. apply Forall_cons in Hn as [_ Hn]. by exists ns.
  - intros (ns & Hn & ->). exists (x :: ns). split; [by constructor|done].
Qed.
Lemma is_key_app p k : nibbles p -> is_key (p ++ k) <-> is_key k.
Proof. induction 1 as [|x p Hx _ IH]; [done|]. simpl. by rewrite is_key_cons. Qed.
Lemma is_key_nil : ~ is_key [].
Proof. intros (ns & _ & E). by destruct ns. Qed.
Lemma is_key_term k : is_key (16 :: k) -> k = [].
Proof.
  intros (ns & Hn & E). destruct ns as [|y ns]; [by injection E|]. injection E as <- ->.
  apply Forall_cons in Hn as [Hy _]. unfold is_nibble in Hy. lia.
Qed.
Lemma is_key_head x k : is_key (x :: k) -> (is_nibble x /\ is_key k) \/ (x = 16 /\ k = []).
Proof.
  intros (ns & Hn & E). destruct ns as [|y ns]; [by injection E as -> ->; right|]. injection E as -> ->.
  apply Forall_cons in Hn as [Hy Hn]. left. split; [done|]. by exists ns.
Qed.
Lemma is_key_leaf ns : nibbles ns -> is_key (ns ++ [16]).
Proof. intros Hn. by exists ns. Qed.
Lemma is_key_hex s : bytes s -> is_key (keybytesToHex s).
Proof. intros Hs. exists (nibbles_of s). split; [by apply nibbles_of_nibbles|done]. Qed.
(** No key is a prefix of another. *)
Lemma is_key_prefix k k' r : is_key k -> is_key k' -> k' = k ++ r -> r = [].
Proof.
  intros (ns & Hn & ->) Hk' ->. rewrite <- app_assoc in Hk'. apply is_key_app in Hk'; [|done]. by apply is_key_term in Hk'.
Qed.

(** ** The form of tries *)
Inductive can : ptrie -> Prop :=
  | can_leaf ns v : nibbles ns -> v <> [] -> can (PShort (ns ++ [16]) (PVal v))
  | can_ext k cs : nibbles k -> k <> [] -> can (PFull cs) -> can (PShort k (PFull cs))
  | can_full cs i j ci cj :
      length cs = 17%nat ->
      (forall n c, cs !! n = Some c -> (n < 16)%nat -> c <> PNil -> can c) ->
      (forall c, cs !! 16%nat = Some c -> c <> PNil -> exists v, c = PVal v /\ v <> []) ->
      i <> j -> cs !! i = Some ci -> cs !! j = Some cj -> ci <> PNil -> cj <> PNil ->
      can (PFull cs).
(** What a branch may have at an index. *)
Definition can_child (n : nat) (c : ptrie) : Prop :=
  c <> PNil -> if (n <? 16)%nat then can c else exists v, c = PVal v /\ v <> [].
Lemma can_full_inv cs :
  can (PFull cs) <->
  length cs = 17%nat /\ (forall n c, cs !! n = Some c -> can_child n c)
  /\ exists i j ci cj, i <> j /\ cs !! i = Some ci /\ cs !! j = Some cj /\ ci <> PNil /\ cj <> PNil.
Proof.
  split.
  - intros H. inversion H as [| |? i j ci cj Hl Hc Hv Hij Hi Hj Hci Hcj]; subst. split; [done|]. split; [|by exists i, j, ci, cj].
    intros n c Hn Hne. destruct (Nat.ltb_spec n 16) as [Hlt|Hge]; [by apply (Hc n)|].
    assert (n = 16%nat) as -> by (apply lookup_lt_Some in Hn; lia). by apply Hv.
  - intros (Hl & Hc & i & j & ci & cj & Hij & Hi & Hj & Hci & Hcj). apply (can_full cs i j ci cj); try done.
    + intros n c Hn Hlt Hne. specialize (Hc n c Hn Hne). by destruct (Nat.ltb_spec n 16); [|lia].
    + intros c Hn Hne. by specialize (Hc _ c Hn Hne).
Qed.

(** The indexes of a branch, as they occur in keys. *)
Definition is_index (x : Z) : Prop := 0 <= x <= 16.
Lemma nibble_index x : is_nibble x -> is_index x.
Proof. unfold is_nibble, is_index. lia. Qed.

(** ** Keys of a trie *)
Definition wf (t : ptrie) : Prop := t = PNil \/ (exists v, t = PVal v /\ v <> []) \/ can t.
Lemma wf_child cs n c : can (PFull cs) -> cs !! n = Some c -> wf c.
Proof.
  intros (_ & Hc & _)%can_full_inv Hn. specialize (Hc n c Hn). unfold wf.
  destruct (decide (c = PNil)) as [->|Hne]; [by left|]. right.
  specialize (Hc Hne). destruct (n <? 16)%nat; [by right|by left].
Qed.
Lemma can_not_nil t : can t -> t <> PNil.
Proof. by inversion 1. Qed.
Lemma can_not_val t v : can t -> t <> PVal v.
Proof. by inversion 1. Qed.

(** Keys that are found have the form of keys, and values are not empty. *)
Lemma wf_dom t : wf t -> forall k v, pget t k = Some v -> v <> [] /\ ((exists v', t = PVal v' /\ k = []) \/ (can t /\ is_key k)).
Proof.
  induction t as [|v0|k0 c IH|cs IH] using ptrie_rect'; intros Hw k v Hg.
  - done.
  - destruct k; [|done]. injection Hg as ->. destruct Hw as [?|[(v' & [= ->] & Hv)|Hc]]; [done| |by inversion Hc]. eauto.
  - assert (Hc : can (PShort k0 c)) by (destruct Hw as [?|[(v' & ? & ?)|Hc]]; done).
    apply pget_short_inv in Hg as (k' & -> & Hg). inversion Hc as [ns v' Hn Hv|k1 cs Hk Hne Hf|]; subst.
    + destruct k'; [|done]. injection Hg as ->. split; [done|]. right. rewrite app_nil_r. split; [done|]. by apply is_key_leaf.
    + destruct (IH (or_intror (or_intror Hf)) _ _ Hg) as (Hv & [(? & ? & _)|[_ Hk']]); [done|]. split; [done|]. right. split; [done|]. by apply is_key_app.
  - assert (Hc : can (PFull cs)) by (destruct Hw as [?|[(v' & ? & ?)|Hc]]; done).
    destruct k as [|x k]; [done|]. rewrite pget_full in Hg. destruct (at_ix cs x) as [c|] eqn:Ex; [|done]. apply at_ix_Some in Ex as [Hx Ex].
    rewrite Forall_lookup in IH. destruct (IH _ _ Ex (wf_child _ _ _ Hc Ex) _ _ Hg) as (Hv & Hd). split; [done|]. right. split; [done|].
    destruct (decide (Z.to_nat x < 16)%nat) as [Hlt|Hge].
    + apply is_key_cons; [unfold is_nibble; lia|]. destruct Hd as [(v' & -> & ->)|[_ Hk]]; [|done].
      apply can_full_inv in Hc as (_ & Hc & _). specialize (Hc _ _ Ex ltac:(done)). rewrite (proj2 (Nat.ltb_lt _ _)) in Hc by done. by inversion Hc.
    + apply can_full_inv in Hc as (Hl & Hc & _). pose proof (lookup_lt_Some _ _ _ Ex). assert (x = 16) as -> by lia.
      assert (Hne : c <> PNil) by (intros ->; done). destruct (Hc _ _ Ex Hne) as (v' & -> & _). destruct k; [|done]. by exists [].
Qed.
Lemma can_dom t k v : can t -> pget t k = Some v -> is_key k /\ v <> [].
Proof.
  intros Hc Hg. destruct (wf_dom t (or_intror (or_intror Hc)) k v Hg) as (Hv & [(v' & -> & _)|[_ Hk]]); [by inversion Hc|done].
Qed.
Lemma full_index cs x k v : can (PFull cs) -> pget (PFull cs) (x :: k) = Some v -> is_index x.
Proof.
  intros Hc Hg. apply can_full_inv in Hc as (Hl & _). rewrite pget_full in Hg. destruct (at_ix cs x) eqn:E; [|done].
  apply at_ix_Some in E as [Hx E]. apply lookup_lt_Some in E. unfold is_index. lia.
Qed.

(** A trie that is not empty has a key. *)
Lemma wf_key t : wf t -> t <> PNil -> exists k v, pget t k = Some v.
Proof.
  induction t as [|v0|k0 c IH|cs IH] using ptrie_rect'; intros Hw Hne; [done|by exists [], v0| |].
  - assert (Hc : can (PShort k0 c)) by (destruct Hw as [?|[(v' & ? & ?)|Hc]]; done).
    destruct IH as (k & v & Hg); [|by inversion Hc|exists (k0 ++ k), v; by rewrite pget_short].
    inversion Hc; subst; [right; left; eauto|by right; right].
  - assert (Hc : can (PFull cs)) by (destruct Hw as [?|[(v' & ? & ?)|Hc]]; done).
    pose proof Hc as (_ & _ & i & j & ci & cj & _ & Hi & _ & Hci & _)%can_full_inv. rewrite Forall_lookup in IH.
    destruct (IH i ci Hi (wf_child _ _ _ Hc Hi) Hci) as (k & v & Hg). exists (Z.of_nat i :: k), v. by rewrite pget_full, at_ix_nat, Hi.
Qed.
Lemma full_two_keys cs :
  can (PFull cs) -> exists x y a b, x <> y /\ is_Some (pget (PFull cs) (x :: a)) /\ is_Some (pget (PFull cs) (y :: b)).
Proof.
  intros Hc. pose proof Hc as (_ & _ & i & j & ci & cj & Hij & Hi & Hj & Hci & Hcj)%can_full_inv.
  destruct (wf_key ci (wf_child _ _ _ Hc Hi) Hci) as (a & va & Ha). destruct (wf_key cj (wf_child _ _ _ Hc Hj) Hcj) as (b & vb & Hb).
  exists (Z.of_nat i), (Z.of_nat j), a, b. rewrite !pget_full, !at_ix_nat, Hi, Hj, Ha, Hb. split; [lia|]. eauto.
Qed.
Lemma ext_keys k c key v : pget (PShort k c) key = Some v -> k `prefix_of` key.
Proof. intros (k' & -> & _)%pget_short_inv. by exists k'. Qed.
Lemma prefix_two (p k a b : list Z) (x y : Z) : x <> y -> p `prefix_of` k ++ x :: a -> p `prefix_of` k ++ y :: b -> p `prefix_of` k.
Proof.
  intros Hxy. revert k. induction p as [|z p IH]; intros k H1 H2; [apply prefix_nil|].
  destruct k as [|w k]; simpl in *.
  - apply prefix_cons_inv_1 in H1, H2. congruence.
  - pose proof (prefix_cons_inv_1 _ _ _ _ H1) as ->. apply prefix_cons_inv_2 in H1, H2. apply prefix_cons, IH; done.
Qed.

(** ** Lookups determine the tree *)
Lemma pget_none t : wf t -> (forall k, pget t k = None) -> t = PNil.
Proof. intros Hw Hn. destruct (decide (t = PNil)) as [|Hne]; [done|]. destruct (wf_key t Hw Hne) as (k & v & Hg). by rewrite Hn in Hg. Qed.
(** A leaf has one key, an extension or a branch has two. *)
Lemma two_keys t : can t -> (exists k v, t = PShort k (PVal v)) \/ (exists k k', k <> k' /\ is_Some (pget t k) /\ is_Some (pget t k')).
Proof.
  intros Hc. inversion Hc as [ns v|k cs Hk Hne Hf|cs]; subst; [left; eauto|right..].
  - destruct (full_two_keys cs Hf) as (x & y & a & b & Hxy & Ha & Hb). exists (k ++ x :: a), (k ++ y :: b). rewrite !pget_short.
    split; [intros E%app_inv_head; congruence|done].
  - destruct (full_two_keys cs Hc) as (x & y & a & b & Hxy & Ha & Hb). exists (x :: a), (y :: b). split; [congruence|done].
Qed.
Lemma leaf_one k v key : is_Some (pget (PShort k (PVal v)) key) -> key = k.
Proof. intros [w (k' & -> & Hg)%pget_short_inv]. destruct k'; [by rewrite app_nil_r|done]. Qed.
Lemma leaf_unique k v t : can t -> (forall key, pget (PShort k (PVal v)) key = pget t key) -> t = PShort k (PVal v).
Proof.
  intros Hc E. destruct (two_keys t Hc) as [(k' & v' & ->)|(k1 & k2 & Hne & H1 & H2)].
  - specialize (E (k' ++ [])). rewrite (pget_short k') in E. pose proof (leaf_one _ _ _ (mk_is_Some _ _ E)) as Hk.
    pose proof (pget_short k (PVal v) []) as Hv. rewrite app_nil_r in Hk, Hv, E. subst k'. rewrite Hv in E. simpl in E. congruence.
  - rewrite <- E in H1, H2. apply leaf_one in H1, H2. congruence.
Qed.
Lemma ext_prefix k cs k' c : can (PFull cs) -> (forall key, pget (PShort k (PFull cs)) key = pget (PShort k' c) key) -> k' `prefix_of` k.
Proof.
  intros Hf E. destruct (full_two_keys cs Hf) as (x & y & a & b & Hxy & [va Ha] & [vb Hb]).
  apply (prefix_two _ _ a b x y Hxy); eapply ext_keys; rewrite <- E, pget_short; eauto.
Qed.
Lemma ext_not_full k cs cs' : k <> [] -> can (PFull cs') -> (forall key, pget (PShort k (PFull cs)) key = pget (PFull cs') key) -> False.
Proof.
  intros Hk Hf E. destruct (full_two_keys cs' Hf) as (x & y & a & b & Hxy & [va Ha] & [vb Hb]). rewrite <- E in Ha, Hb.
  apply ext_keys in Ha, Hb. destruct k as [|z k]; [done|]. apply prefix_cons_inv_1 in Ha, Hb. congruence.
Qed.
Lemma same_can t1 t2 : can t1 -> wf t2 -> (forall k, pget t1 k = pget t2 k) -> can t2.
Proof.
  intros Hc H2 E. destruct (wf_key t1 (or_intror (or_intror Hc)) (can_not_nil _ Hc)) as (k & v & Hg).
  pose proof (can_dom _ _ _ Hc Hg) as [Hk _]. rewrite E in Hg. destruct (wf_dom t2 H2 k v Hg) as (_ & [(v' & _ & ->)|[? _]]); [|done].
  by apply is_key_nil in Hk.
Qed.
Lemma wf_can t : wf t -> match t with PShort _ _ | PFull _ => can t | _ => True end.
Proof. intros [->|[(v & -> & _)|Hc]]; [done..|]. by destruct t. Qed.
Lemma can_unique t1 : forall t2, wf t1 -> wf t2 -> (forall k, pget t1 k = pget t2 k) -> t1 = t2.
Proof.
  induction t1 as [|v1|k1 c1 IH|cs1 IH] using ptrie_rect'; intros t2 H1 H2 E.
  - symmetry. apply pget_none; [done|]. intros k. by rewrite <- E.
  - specialize (E []) as E0. simpl in E0. destruct (wf_dom t2 H2 [] v1 (eq_sym E0)) as (_ & [(v' & -> & _)|[_ Hk]]); [simpl in E0; congruence|by apply is_key_nil in Hk].
  - apply wf_can in H1. pose proof (same_can _ _ H1 H2 E) as Hc2.
    inversion H1 as [ns v Hn Hv|k cs Hk Hne Hf|]; subst; [symmetry; by apply leaf_unique|].
    inversion Hc2 as [ns v Hn Hv|k cs' Hk' Hne' Hf'|cs']; subst.
    + apply leaf_unique; [done|]. by intros.
    + assert (k1 = k) as <- by (apply (anti_symm prefix); eapply ext_prefix; [exact Hf'|intros; by rewrite E|exact Hf|done]).
      f_equal. apply IH; [by right; right..|]. intros key. by rewrite <- (pget_short k1), E, pget_short.
    + by apply ext_not_full in E.
  - apply wf_can in H1. pose proof (same_can _ _ H1 H2 E) as Hc2.
    inversion Hc2 as [ns v Hn Hv|k cs' Hk' Hne' Hf'|cs']; subst.
    + apply leaf_unique; [done|]. by intros.
    + symmetry in E. by apply ext_not_full in E.
    + clear dependent i. f_equal. apply list_eq. intros i. rewrite Forall_lookup in IH. apply can_full_inv in H1 as H1'. apply can_full_inv in Hc2 as H2'.
      destruct H1' as (L1 & _), H2' as (L2 & _). destruct (decide (i < 17)%nat) as [Hi|Hi]; [|by rewrite !lookup_ge_None_2 by lia].
      destruct (lookup_lt_is_Some_2 cs1 i ltac:(lia)) as [c1 E1]. destruct (lookup_lt_is_Some_2 cs' i ltac:(lia)) as [c2 E2].
      rewrite E1, E2. f_equal. apply (IH _ _ E1); [exact (wf_child _ _ _ H1 E1)|exact (wf_child _ _ _ Hc2 E2)|].
      intros key. specialize (E (Z.of_nat i :: key)). by rewrite !pget_full, !at_ix_nat, E1, E2 in E.
Qed.
End TriePure.
