(* ===== verification/TrieUpd.v ===== *)
(** * Updates of trees

    [upd t key ov t'] says that [t'] has the lookups of [t] but for [key], which
    has [ov].  The lemmas give the trees that insert and delete build. *)

From stdpp Require Import base list numbers strings.
From Stdlib Require Import ZArith Lia.
From S2P Require Import Prelude Bytes TrieKeys TriePure.
Import TrieKeys TriePure.

Module TrieUpd.

Definition upd (t : ptrie) (key : list Z) (ov : option (list Z)) (t' : ptrie) : Prop :=
  forall k, pget t' k = if decide (k = key) then ov else pget t k.

Lemma pget_short_eq k c key : pget (PShort k c) key = if decide (k `prefix_of` key) then pget c (drop (length k) key) else None.
Proof.
  cbn [pget]. destruct (decide (k `prefix_of` key)) as [[r ->]|Hn].
  - by rewrite take_app_length, bool_decide_eq_true_2.
  - rewrite bool_decide_eq_false_2; [done|]. intros E. apply Hn. rewrite E. apply prefix_take.
Qed.
Lemma upd_none t key : pget t key = None -> upd t key None t.
Proof. intros Hn k. by destruct (decide (k = key)) as [->|]. Qed.
Lemma upd_same t key v : pget t key = Some v -> upd t key (Some v) t.
Proof. intros Hn k. by destruct (decide (k = key)) as [->|]. Qed.
Lemma upd_short k c key ov c' : upd c key ov c' -> upd (PShort k c) (k ++ key) ov (PShort k c').
Proof.
  intros Hu k'. rewrite !pget_short_eq. destruct (decide (k `prefix_of` k')) as [[r ->]|Hn].
  - rewrite drop_app_length, Hu. destruct (decide (r = key)) as [->|]; [by rewrite decide_True|]. rewrite decide_False; [done|]. by intros ?%app_inv_head.
  - rewrite decide_False; [done|]. intros ->. apply Hn. by exists key.
Qed.
Lemma upd_full cs x key c ov c' :
  0 <= x -> cs !! Z.to_nat x = Some c -> upd c key ov c' -> upd (PFull cs) (x :: key) ov (PFull (<[Z.to_nat x := c']> cs)).
Proof.
  intros Hx Hc Hu k'. destruct k' as [|y k']; [done|]. rewrite !pget_full. unfold at_ix. destruct (Z.leb_spec 0 y).
  - destruct (decide (x = y)) as [<-|Hne].
    + rewrite list_lookup_insert_eq by (by apply lookup_lt_Some in Hc). rewrite Hc, Hu.
      destruct (decide (k' = key)) as [->|]; [by rewrite decide_True|]. rewrite decide_False; [done|congruence].
    + rewrite list_lookup_insert_ne by lia. rewrite decide_False; [done|congruence].
  - rewrite decide_False; [done|]. intros [= -> _]. lia.
Qed.
Lemma upd_nil key v : upd PNil key (Some v) (PShort key (PVal v)).
Proof.
  intros k. rewrite pget_short_eq. destruct (decide (key `prefix_of` k)) as [[r ->]|Hn].
  - rewrite drop_app_length. destruct r as [|x r]; simpl; [by rewrite app_nil_r, decide_True|]. rewrite decide_False; [done|].
    intros E. apply (f_equal length) in E. rewrite length_app in E. simpl in E. lia.
  - rewrite decide_False; [done|]. intros ->. by apply Hn.
Qed.
Lemma upd_val v v' : upd (PVal v) [] (Some v') (PVal v').
Proof. by intros []. Qed.
Lemma upd_ext t1 t2 key ov t' : (forall k, pget t1 k = pget t2 k) -> upd t1 key ov t' -> upd t2 key ov t'.
Proof. intros E Hu k. by rewrite Hu, E. Qed.
Lemma upd_ext_r t key ov t1 t2 : (forall k, pget t1 k = pget t2 k) -> upd t key ov t1 -> upd t key ov t2.
Proof. intros E Hu k. by rewrite <- E, Hu. Qed.

(** ** Splitting a short node *)
(** A short node, or the node itself for an empty key. *)
Definition mkshort (k : list Z) (c : ptrie) : ptrie := match k with [] => c | _ => PShort k c end.
Lemma pget_mkshort k c key : pget (mkshort k c) key = pget (PShort k c) key.
Proof. destruct k; [|done]. cbn [mkshort]. by rewrite pget_short_eq, decide_True by apply prefix_nil. Qed.
Lemma pget_mkshort_app k c key : pget (mkshort k c) (k ++ key) = pget c key.
Proof. by rewrite pget_mkshort, pget_short. Qed.
Definition branch (x : Z) (c : ptrie) (y : Z) (d : ptrie) : list ptrie :=
  <[Z.to_nat y := d]> (<[Z.to_nat x := c]> (replicate 17 PNil)).
Lemma branch_lookup x c y d n :
  is_index x -> is_index y -> x <> y -> (n < 17)%nat ->
  branch x c y d !! n = Some (if decide (n = Z.to_nat y) then d else if decide (n = Z.to_nat x) then c else PNil).
Proof.
  unfold is_index, branch. intros Hx Hy Hxy Hn. destruct (decide (n = Z.to_nat y)) as [->|].
  - apply list_lookup_insert_eq. rewrite length_insert, length_replicate. lia.
  - rewrite list_lookup_insert_ne by done. destruct (decide (n = Z.to_nat x)) as [->|].
    + apply list_lookup_insert_eq. rewrite length_replicate. lia.
    + rewrite list_lookup_insert_ne by done. by apply lookup_replicate_2.
Qed.
Lemma branch_length x c y d : length (branch x c y d) = 17%nat.
Proof. unfold branch. by rewrite !length_insert, length_replicate. Qed.
Lemma pget_branch x c y d z k :
  is_index x -> is_index y -> x <> y ->
  pget (PFull (branch x c y d)) (z :: k) = if decide (z = y) then pget d k else if decide (z = x) then pget c k else None.
Proof.
  intros Hx Hy Hxy. rewrite pget_full. unfold at_ix. pose proof (Hx : 0 <= x <= 16). pose proof (Hy : 0 <= y <= 16).
  destruct (Z.leb_spec 0 z); [|by rewrite !decide_False by lia].
  destruct (decide (Z.to_nat z < 17)%nat).
  - rewrite branch_lookup by done. destruct (decide (z = y)) as [->|]; [by rewrite decide_True|]. rewrite decide_False by lia.
    destruct (decide (z = x)) as [->|]; [by rewrite decide_True|]. by rewrite decide_False by lia.
  - rewrite lookup_ge_None_2 by (rewrite branch_length; lia). by rewrite !decide_False by lia.
Qed.
Lemma upd_split p x k y key c v :
  is_index x -> is_index y -> x <> y ->
  upd (PShort (p ++ x :: k) c) (p ++ y :: key) (Some v) (mkshort p (PFull (branch x (mkshort k c) y (mkshort key (PVal v))))).
Proof.
  intros Hx Hy Hxy k'. rewrite pget_mkshort, (pget_short_eq p). destruct (decide (p `prefix_of` k')) as [[r ->]|Hn].
  2: { rewrite decide_False by (intros ->; apply Hn; by eexists). rewrite pget_short_eq, decide_False; [done|].
       intros [s ->]. apply Hn. rewrite <- app_assoc. by eexists. }
  rewrite drop_app_length. destruct r as [|z r].
  { rewrite decide_False by (intros E%app_inv_head; done). rewrite pget_short_eq, decide_False; [done|].
    intros [s E]. rewrite app_nil_r, <- app_assoc in E. apply (f_equal length) in E. rewrite length_app in E. simpl in E. lia. }
  rewrite pget_branch by done. rewrite (pget_short_eq (p ++ x :: k)).
  destruct (decide (z = y)) as [->|Hzy].
  - rewrite (decide_False (P := p ++ x :: k `prefix_of` p ++ y :: r)) by (intros [s E]; rewrite <- app_assoc in E; apply app_inv_head in E; simpl in E; congruence).
    rewrite pget_mkshort. rewrite (upd_nil key v r). simpl. destruct (decide (r = key)) as [->|]; [by rewrite decide_True|].
    rewrite decide_False; [done|]. intros E%app_inv_head. congruence.
  - rewrite (decide_False (P := p ++ z :: r = p ++ y :: key)) by (intros E%app_inv_head; congruence). destruct (decide (z = x)) as [->|Hzx].
    + rewrite pget_mkshort, pget_short_eq. destruct (decide (k `prefix_of` r)) as [[s ->]|Hn].
      * rewrite decide_True by (exists s; by rewrite <- app_assoc). rewrite drop_app_length. f_equal.
        change (x :: k ++ s) with ((x :: k) ++ s). by rewrite app_assoc, drop_app_length.
      * rewrite decide_False; [done|]. intros [s E]. rewrite <- app_assoc in E. apply app_inv_head in E. apply Hn. exists s. by injection E.
    + rewrite decide_False; [done|]. intros [s E]. rewrite <- app_assoc in E. apply app_inv_head in E. simpl in E. congruence.
Qed.

(** ** The trees that insert builds *)
Lemma key_split k x r : is_key (k ++ x :: r) -> nibbles k /\ is_index x /\ (if decide (x = 16) then r = [] else is_nibble x /\ is_key r).
Proof.
  induction k as [|y k IH]; simpl.
  - intros [[Hx Hk]|[-> ->]]%is_key_head; (split; [constructor|]).
    + split; [by apply nibble_index|]. rewrite decide_False; [done|]. intros ->. unfold is_nibble in Hx. lia.
    + done.
  - intros [[Hy Hk]|[-> E]]%is_key_head; [|by destruct k]. destruct (IH Hk) as (? & ? & ?). split; [by constructor|done].
Qed.
Lemma mkshort_leaf x r v : (if decide (x = 16) then r = [] else is_nibble x /\ is_key r) -> is_index x -> v <> [] -> can_child (Z.to_nat x) (mkshort r (PVal v)) /\ mkshort r (PVal v) <> PNil.
Proof.
  intros Hx Hi Hv. split; [|by destruct r]. intros _. destruct (decide (x = 16)) as [->|].
  - subst r. simpl. eauto.
  - destruct Hx as [Hx Hk]. unfold is_nibble in Hx. rewrite (proj2 (Nat.ltb_lt _ _)) by lia.
    destruct r as [|y r]; [by apply is_key_nil in Hk|]. destruct Hk as (ns & Hn & E). cbn [mkshort]. rewrite E. by constructor.
Qed.
(** The rest of a short node below a branch. *)
Lemma short_split k x r c :
  can (PShort (k ++ x :: r) c) -> nibbles k /\ is_index x /\ can_child (Z.to_nat x) (mkshort r c) /\ mkshort r c <> PNil.
Proof.
  intros Hc. inversion Hc as [ns v Hn Hv E|k' cs Hk Hne Hf|]; subst.
  - destruct (key_split k x r) as (Hk & Hx & Hr); [rewrite <- E; by apply is_key_leaf|]. split; [done|]. split; [done|]. by apply mkshort_leaf.
  - apply Forall_app in Hk as [Hk Hr]. apply Forall_cons in Hr as [Hx Hr]. split; [done|]. split; [by apply nibble_index|].
    split; [|by destruct r]. intros _. unfold is_nibble in Hx. rewrite (proj2 (Nat.ltb_lt _ _)) by lia.
    destruct r as [|y r]; [done|]. by constructor.
Qed.
Lemma can_branch x c y d :
  is_index x -> is_index y -> x <> y -> can_child (Z.to_nat x) c -> can_child (Z.to_nat y) d -> c <> PNil -> d <> PNil ->
  can (PFull (branch x c y d)).
Proof.
  intros Hx Hy Hxy Hc Hd Hcn Hdn. apply can_full_inv. rewrite branch_length. split; [done|].
  pose proof (Hx : 0 <= x <= 16). pose proof (Hy : 0 <= y <= 16). split.
  - intros n e Hn. pose proof (lookup_lt_Some _ _ _ Hn) as Hl. rewrite branch_length in Hl. rewrite branch_lookup in Hn by done. injection Hn as <-.
    destruct (decide (n = Z.to_nat y)) as [->|]; [done|]. destruct (decide (n = Z.to_nat x)) as [->|]; [done|]. by intros ?.
  - exists (Z.to_nat x), (Z.to_nat y), c, d. rewrite !branch_lookup by (done || lia).
    rewrite (decide_False (P := Z.to_nat x = Z.to_nat y)), !decide_True by lia. split_and!; (done || lia).
Qed.
Lemma can_split p x k y key c v :
  can (PShort (p ++ x :: k) c) -> is_key (p ++ y :: key) -> x <> y -> v <> [] ->
  can (mkshort p (PFull (branch x (mkshort k c) y (mkshort key (PVal v))))).
Proof.
  intros Hc Hk Hxy Hv. destruct (short_split _ _ _ _ Hc) as (Hp & Hx & Hcx & Hnx). destruct (key_split _ _ _ Hk) as (_ & Hy & Hky).
  destruct (mkshort_leaf _ _ v Hky Hy Hv) as [Hcy Hny]. pose proof (can_branch x _ y _ Hx Hy Hxy Hcx Hcy Hnx Hny).
  destruct p as [|z p]; [done|]. by constructor.
Qed.
Lemma diverge_full t x y a b : can t -> x <> y -> is_Some (pget t (x :: a)) -> is_Some (pget t (y :: b)) -> exists cs, t = PFull cs.
Proof.
  intros Hc Hxy [va Ha] [vb Hb]. destruct t as [| |k c|cs]; [by inversion Hc..| |eauto]. apply ext_keys in Ha, Hb.
  destruct k as [|z k]; [by inversion Hc as [ns ? ? ? E| |]; [destruct ns|]|]. apply prefix_cons_inv_1 in Ha, Hb. congruence.
Qed.
(** An update that keeps two diverging keys of a branch gives a branch. *)
Lemma upd_full_full cs key v t' : can (PFull cs) -> can t' -> upd (PFull cs) key (Some v) t' -> exists cs', t' = PFull cs'.
Proof.
  intros Hc Hc' Hu. destruct (full_two_keys cs Hc) as (x & y & a & b & Hxy & Ha & Hb).
  apply (diverge_full t' x y a b Hc' Hxy); rewrite Hu; by destruct (decide _).
Qed.
Lemma can_insert cs n c c' : can (PFull cs) -> cs !! n = Some c -> can_child n c' -> c' <> PNil -> can (PFull (<[n := c']> cs)).
Proof.
  intros (Hl & Hc & i & j & ci & cj & Hij & Hi & Hj & Hci & Hcj)%can_full_inv Hn Hcc Hne. apply can_full_inv.
  rewrite length_insert. split; [done|]. pose proof (lookup_lt_Some _ _ _ Hn) as Hlt. split.
  - intros m d Hm. destruct (decide (n = m)) as [->|]; [rewrite list_lookup_insert_eq in Hm by done; by injection Hm as <-|].
    rewrite list_lookup_insert_ne in Hm by done. eauto.
  - assert (Hk : forall m d, cs !! m = Some d -> d <> PNil -> exists d', <[n := c']> cs !! m = Some d' /\ d' <> PNil).
    { intros m d Hm Hd. destruct (decide (n = m)) as [->|]; [exists c'; by rewrite list_lookup_insert_eq|]. exists d. by rewrite list_lookup_insert_ne. }
    destruct (Hk i ci Hi Hci) as (di & ? & ?), (Hk j cj Hj Hcj) as (dj & ? & ?). by exists i, j, di, dj.
Qed.

(** ** The trees that delete builds *)
Lemma pget_merge k k' c key : pget (PShort k (PShort k' c)) key = pget (PShort (k ++ k') c) key.
Proof.
  rewrite (pget_short_eq k). destruct (decide (k `prefix_of` key)) as [[r ->]|Hn].
  - rewrite drop_app_length, !pget_short_eq. destruct (decide (k' `prefix_of` r)) as [[s ->]|Hn].
    + rewrite decide_True by (exists s; by rewrite app_assoc). f_equal. by rewrite (app_assoc k), !drop_app_length.
    + rewrite decide_False; [done|]. intros [s E]. rewrite <- app_assoc in E. apply app_inv_head in E. apply Hn. by exists s.
  - rewrite pget_short_eq, decide_False; [done|]. intros [s ->]. apply Hn. rewrite <- app_assoc. by eexists.
Qed.
Lemma can_merge k k' c : nibbles k -> can (PShort k' c) -> can (PShort (k ++ k') c).
Proof.
  intros Hk Hc. inversion Hc as [ns v Hn Hv E|k1 cs Hk' Hne Hf|]; subst.
  - rewrite app_assoc. constructor; [by apply Forall_app|done].
  - constructor; [by apply Forall_app| |done]. by destruct k, k'.
Qed.
(** A short node over what is left of its child. *)
Definition mkmerge (k : list Z) (c : ptrie) : ptrie := match c with PShort k' c' => PShort (k ++ k') c' | _ => PShort k c end.
Lemma pget_mkmerge k c key : pget (mkmerge k c) key = pget (PShort k c) key.
Proof. destruct c; try done. cbn [mkmerge]. by rewrite <- pget_merge. Qed.
Lemma can_mkmerge k c : nibbles k -> k <> [] -> can c -> can (mkmerge k c).
Proof. intros Hk Hne Hc. destruct c as [| |k' c|cs]; [by inversion Hc..|by apply can_merge|by constructor]. Qed.
Lemma upd_mkmerge k c key ov c' : upd c key ov c' -> upd (PShort k c) (k ++ key) ov (mkmerge k c').
Proof. intros Hu. eapply upd_ext_r; [intros; symmetry; apply pget_mkmerge|]. by apply upd_short. Qed.

(** The only child of a branch. *)
Definition only (cs : list ptrie) (i : nat) (c : ptrie) : Prop :=
  cs !! i = Some c /\ c <> PNil /\ forall n d, cs !! n = Some d -> n <> i -> d = PNil.
Definition two (cs : list ptrie) : Prop :=
  exists i j ci cj, i <> j /\ cs !! i = Some ci /\ cs !! j = Some cj /\ ci <> PNil /\ cj <> PNil.
Lemma only_or_two cs : (exists n c, cs !! n = Some c /\ c <> PNil) -> (exists i c, only cs i c) \/ two cs.
Proof.
  intros (n & c & Hn & Hc).
  destruct (decide (Exists (fun p : nat * ptrie => p.1 <> n /\ p.2 <> PNil) (zip (seq 0 (length cs)) cs))) as [He|He].
  - right. apply Exists_exists in He as ([m d] & Hm & Hmn & Hd). apply list_elem_of_lookup in Hm as [q Hq].
    apply lookup_zip_with_Some in Hq as (m' & d' & [= <- <-] & Hs & Hd'). apply lookup_seq in Hs as [-> _]. simpl in *.
    exists n, q, c, d. by split_and!.
  - left. exists n, c. split; [done|]. split; [done|]. intros m d Hm Hmn. destruct (decide (d = PNil)) as [|Hd]; [done|].
    destruct He. apply Exists_exists. exists (m, d). split; [|done]. apply list_elem_of_lookup. exists m. apply lookup_zip_with_Some.
    exists m, d. split; [done|]. split; [|done]. apply lookup_seq. apply lookup_lt_Some in Hm. done.
Qed.
Lemma remove_child cs n c :
  can (PFull cs) -> cs !! n = Some c ->
  let cs' := <[n := PNil]> cs in (exists i ci, only cs' i ci) \/ (two cs' /\ can (PFull cs')).
Proof.
  intros Hcan Hn cs'. pose proof Hcan as (Hl & Hc & i & j & ci & cj & Hij & Hi & Hj & Hci & Hcj)%can_full_inv.
  destruct (only_or_two cs') as [Ho|Ht]; [|by left|right].
  - destruct (decide (n = i)) as [->|].
    + exists j, cj. unfold cs'. by rewrite list_lookup_insert_ne.
    + exists i, ci. unfold cs'. by rewrite list_lookup_insert_ne.
  - split; [done|]. apply can_full_inv. unfold cs'. rewrite length_insert. split; [done|]. split; [|done].
    intros m d Hm. destruct (decide (n = m)) as [->|].
    + rewrite list_lookup_insert_eq in Hm by (by eapply lookup_lt_Some). injection Hm as <-. by intros ?.
    + rewrite list_lookup_insert_ne in Hm by done. eauto.
Qed.
Lemma pget_only cs i c key : only cs i c -> pget (PFull cs) key = pget (PShort [Z.of_nat i] c) key.
Proof.
  intros (Hi & _ & Ho). rewrite pget_short_eq. destruct key as [|x key]; [by rewrite decide_False by (intros [s E]; done)|].
  rewrite pget_full. destruct (decide (x = Z.of_nat i)) as [->|Hne].
  - rewrite at_ix_nat, Hi, decide_True by (by exists key). done.
  - rewrite decide_False by (intros [s [= -> _]]; done). destruct (at_ix cs x) as [d|] eqn:E; [|done]. apply at_ix_Some in E as [Hx E].
    by rewrite (Ho _ _ E) by lia.
Qed.
Lemma can_only cs i c :
  (forall n c, cs !! n = Some c -> can_child n c) -> length cs = 17%nat -> only cs i c -> can (mkmerge [Z.of_nat i] c).
Proof.
  intros Hc Hl (Hi & Hne & _). specialize (Hc _ _ Hi Hne). pose proof (lookup_lt_Some _ _ _ Hi).
  destruct (Nat.ltb_spec i 16).
  - apply can_mkmerge; [constructor; [unfold is_nibble; lia|constructor]|done|done].
  - destruct Hc as (v & -> & Hv). assert (i = 16%nat) as -> by lia. by apply (can_leaf []).
Qed.
End TrieUpd.
