(* ===== verification/TrieLoad.v ===== *)
(** * Tries refine trees

    [loads b n t]: the node [n], part of it perhaps on disk, stands for the tree
    [t]; [b] says that it is the root.  Cached hashes are those of the tree's
    encoding, and what is on disk is consistent with it.  With [miss] nodes may
    be missing on disk. *)

From stdpp Require Import base list numbers strings relations.
From Stdlib Require Import ZArith Lia.
From S2P Require Import Prelude Bytes Rlp Enr TrieKeys Trie TriePure TrieUpd.
Import Rlp Enr TrieKeys Trie TriePure TrieUpd.

#[local] Set Warnings "-register-all".

Module TrieLoad.

(** ** The encoding of trees *)
Section enc.
Context `{C : Crypto}.

Definition compact (k : list Z) : list Z := match hexToCompact k with Done c => c | _ => [] end.
(** What a parent has of a child with the encoding [e]. *)
Definition pref_of (e : list Z) (c : ptrie) : list Z :=
  match c with
  | PNil => EmptyString
  | PVal v => enc_string v
  | _ => if (length e <? 32)%nat then e else enc_string (Keccak256 e)
  end.
Fixpoint penc (t : ptrie) : list Z :=
  match t with
  | PShort k c => enc_list (enc_string (compact k) ++ pref_of (penc c) c)
  | PFull cs => enc_list (mjoin (map (fun c => pref_of (penc c) c) cs))
  | _ => []
  end.
Definition pref (c : ptrie) : list Z := pref_of (penc c) c.
Definition phash (t : ptrie) : list Z := Keccak256 (penc t).
Definition big (t : ptrie) : Prop := (32 <= length (penc t))%nat.
#[export] Instance big_dec t : Decision (big t).
Proof. unfold big. apply _. Defined.

(** The node that is read from disk for a tree: its children are hashes unless
    they are small. *)
Definition eref_of (n : node) (c : ptrie) : node :=
  match c with
  | PNil => Nil
  | PVal v => valueNode v
  | _ => if (length (penc c) <? 32)%nat then n else hashNode (phash c)
  end.
Fixpoint enode (h : option (list Z)) (t : ptrie) : node :=
  match t with
  | PNil => Nil
  | PVal v => valueNode v
  | PShort k c => shortNode k (eref_of (enode None c) c) (mk_nodeFlag h false)
  | PFull cs => fullNode (map (fun c => eref_of (enode None c) c) cs) (mk_nodeFlag h false)
  end.
Definition eref (c : ptrie) : node := eref_of (enode None c) c.
End enc.

Definition is_node (t : ptrie) : Prop := match t with PShort _ _ | PFull _ => True | _ => False end.
Inductive child_of : ptrie -> ptrie -> Prop :=
  | child_short k c : child_of c (PShort k c)
  | child_full n c cs : cs !! n = Some c -> child_of c (PFull cs).
Definition is_hash (n : node) : bool := match n with hashNode _ => true | _ => false end.

Section loads.
Context `{C : Crypto} {CL : CryptoLaws C}.
Variable dbnode : list Z -> outcome (option node).
Variable miss : bool.

(** Every loaded node has its hash cached, or is small. *)
Inductive hashed : node -> ptrie -> Prop :=
  | hashed_nil : hashed Nil PNil
  | hashed_val v : hashed (valueNode v) (PVal v)
  | hashed_short k n c fl : (hash fl = None -> ~ big (PShort k c)) -> hashed n c -> hashed (shortNode k n fl) (PShort k c)
  | hashed_full ns cs fl : (hash fl = None -> ~ big (PFull cs)) -> Forall2 hashed ns cs -> hashed (fullNode ns fl) (PFull cs)
  | hashed_hash h t : hashed (hashNode h) t.
Definition own (t : ptrie) : Prop :=
  dbnode (phash t) = Done (Some (enode (Some (phash t)) t)) \/ (miss = true /\ dbnode (phash t) = Done None).
Definition db_below (t : ptrie) : Prop := forall s, tc child_of s t -> is_node s -> big s -> own s.
Definition db_all (t : ptrie) : Prop := own t /\ db_below t.
(** A loaded node without a cached hash that is not dirty is embedded in its parent;
    below a node with a cached hash all nodes have one unless they are small ([hc]). *)
Definition flag_ok (b : bool) (t : ptrie) (hc : Prop) (fl : nodeFlag) : Prop :=
  match hash fl with
  | Some h => h = phash t /\ (b = false -> big t) /\ (dirty fl = false -> db_all t) /\ hc
  | None => dirty fl = false -> b = false /\ ~ big t
  end.
Inductive loads : bool -> node -> ptrie -> Prop :=
  | loads_nil b : loads b Nil PNil
  | loads_val b v : loads b (valueNode v) (PVal v)
  | loads_short b k n c fl : loads false n c -> flag_ok b (PShort k c) (hashed n c) fl -> loads b (shortNode k n fl) (PShort k c)
  | loads_full b ns cs fl : Forall2 (loads false) ns cs -> flag_ok b (PFull cs) (Forall2 hashed ns cs) fl -> loads b (fullNode ns fl) (PFull cs)
  | loads_hash b t : is_node t -> (b = false -> big t) -> db_all t -> loads b (hashNode (phash t)) t.
Definition miss_err (e : trieErr) : Prop := miss = true /\ exists h p, e = MissingNodeError h p /\ dbnode h = Done None.

Lemma db_below_child t c : db_below t -> child_of c t -> db_below c.
Proof. intros Hb Hc s Hs. apply Hb. eapply tc_r; [exact Hs|exact Hc]. Qed.
Lemma new_flag_ok b t hc : flag_ok b t hc newFlag.
Proof. done. Qed.
Lemma flag_ok_mono b t hc hc' fl : (hc -> hc') -> flag_ok b t hc fl -> flag_ok b t hc' fl.
Proof. unfold flag_ok. destruct (hash fl); [|done]. intros H (? & ? & ? & ?). auto. Qed.
Lemma loads_nil_inv b n t : loads b n t -> isNil n = true <-> t = PNil.
Proof. inversion 1; subst; try done. split; [done|]. by intros ->. Qed.
Definition enode_ok (b : bool) (h : option (list Z)) (t : ptrie) : Prop :=
  match h with
  | Some h => h = phash t /\ (b = false -> big t) /\ own t
  | None => b = false /\ ~ big t
  end.
Lemma enode_flag b h t (hc : Prop) : enode_ok b h t -> db_below t -> hc -> flag_ok b t hc (mk_nodeFlag h false).
Proof. unfold enode_ok, flag_ok. destruct h; simpl; [|done]. intros (? & ? & ?) ? ?. done. Qed.
Lemma hashed_enode t : forall h, (h = None -> ~ big t) -> hashed (enode h t) t.
Proof.
  assert (Href : forall c, (forall h, (h = None -> ~ big c) -> hashed (enode h c) c) -> hashed (eref c) c).
  { intros c IH. unfold eref, eref_of. destruct c; [constructor..| |]; (case_match eqn:E; [|constructor]); apply IH; intros _; apply Nat.ltb_lt in E; unfold big; lia. }
  induction t as [|v|k c IH|cs IH] using ptrie_rect'; intros h Hh; cbn [enode]; constructor; try done; [by apply Href|].
  apply Forall2_same_length_lookup. rewrite length_map. split; [done|]. intros i n c Hi Hc.
  rewrite list_lookup_fmap, Hc in Hi. injection Hi as <-. rewrite Forall_lookup in IH. apply Href. by eapply IH.
Qed.
Lemma hashed_eref c : hashed (eref c) c.
Proof. unfold eref, eref_of. destruct c; [constructor..| |]; (case_match eqn:E; [|constructor]); apply hashed_enode; intros _; apply Nat.ltb_lt in E; unfold big; lia. Qed.
Lemma hashed_erefs cs : Forall2 hashed (map eref cs) cs.
Proof. induction cs as [|c cs IH]; constructor; [apply hashed_eref|done]. Qed.
Lemma loads_enode t : forall b h, is_node t -> enode_ok b h t -> db_below t -> loads b (enode h t) t.
Proof.
  assert (Href : forall c, (forall b h, is_node c -> enode_ok b h c -> db_below c -> loads b (enode h c) c) ->
    db_below c -> (is_node c -> big c -> own c) -> loads false (eref c) c).
  { intros c IH Hb Ho. unfold eref, eref_of. destruct c as [|v|k c|cs]; [constructor..| |].
    all: case_match eqn:E; [apply Nat.ltb_lt in E; apply IH; [done|split; [done|unfold big; lia]|done]|apply Nat.ltb_ge in E]; apply loads_hash; [done|done|split; [by apply Ho|done]]. }
  induction t as [|v|k c IH|cs IH] using ptrie_rect'; intros b h Hn Hh Hb; try done; cbn [enode];
    (constructor; [|apply enode_flag; [done|done|apply hashed_eref || apply hashed_erefs]]).
  - apply Href; [done|eapply db_below_child; [done|constructor]|]. intros Hc Hbig. apply Hb; [|done..]. apply tc_once. constructor.
  - apply Forall2_same_length_lookup. rewrite length_map. split; [done|]. intros i n c Hi Hc.
    rewrite list_lookup_fmap, Hc in Hi. injection Hi as <-. rewrite Forall_lookup in IH.
    apply Href; [by eapply IH|eapply db_below_child; [done|by econstructor]|]. intros Hcn Hbig. apply Hb; [|done..]. apply tc_once. by econstructor.
Qed.
Lemma BytesToHash_hash t : BytesToHash (phash t) = phash t.
Proof. unfold BytesToHash, SetBytes, phash. rewrite Keccak256_len. simpl. rewrite drop_0, Keccak256_len. done. Qed.
(** Reading a hash gives the node, or it is missing. *)
Lemma resolve_spec b t prefix :
  loads b (hashNode (phash t)) t -> is_node t ->
  (exists n, resolveHash dbnode (phash t) prefix = Done (inr n) /\ loads b n t /\ is_hash n = false /\ hashed n t)
  \/ (exists e, resolveHash dbnode (phash t) prefix = Done (inl e) /\ miss_err e).
Proof.
  intros Hl Hn. inversion Hl as [| | | |? ? _ Hbig [Ho Hb]]; subst. unfold resolveHash. rewrite BytesToHash_hash.
  pose proof Ho as [E|[Hm E]]; rewrite E; cbn [mbind outcome_bind].
  - left. eexists. split; [done|]. split; [by apply loads_enode|]. split; [by destruct t|]. by apply hashed_enode.
  - right. eexists. split; [done|]. split; [done|]. eauto.
Qed.
End loads.
End TrieLoad.
