(* ===== verification/TrieOps.v ===== *)
(** * Reading and writing tries *)

From stdpp Require Import base list numbers strings.
From Stdlib Require Import ZArith Lia.
From S2P Require Import Prelude Bytes Rlp Enr TrieKeys Trie TriePure TrieUpd TrieLoad.
Import Rlp Enr TrieKeys Trie TriePure TrieUpd TrieLoad.

Module TrieOps.

(** The trees that can be below a path, with what is left of a key. *)
Definition slot (key : list Z) (t : ptrie) : Prop :=
  (is_key key /\ (t = PNil \/ can t)) \/ (key = [] /\ (t = PNil \/ exists v, t = PVal v /\ v <> [])).
Lemma slot_can key t : slot key t -> is_node t -> is_key key /\ can t.
Proof. intros [[Hk [->|Hc]]|[-> [->|(v & -> & _)]]] Hn; done. Qed.
Lemma slot_val key v : slot key (PVal v) -> key = [] /\ v <> [].
Proof. intros [[Hk [?|Hc]]|[-> [?|(v' & [= <-] & Hv)]]]; [done|by inversion Hc|done..]. Qed.
Lemma slot_child cs x key c : can (PFull cs) -> is_key (x :: key) -> cs !! Z.to_nat x = Some c -> slot key c.
Proof.
  intros (_ & Hc & _)%can_full_inv Hk Hx. specialize (Hc _ _ Hx). unfold slot, can_child in *.
  destruct (decide (c = PNil)) as [->|Hne]; [apply is_key_head in Hk as [[_ Hk]|[_ ->]]; auto|]. specialize (Hc Hne).
  apply is_key_head in Hk as [[Hn Hk]|[-> ->]].
  - unfold is_nibble in Hn. rewrite (proj2 (Nat.ltb_lt _ _)) in Hc by lia. auto.
  - right. auto.
Qed.
Lemma slot_can_child x key c : is_key (x :: key) -> slot key c -> can_child (Z.to_nat x) c.
Proof.
  intros Hk Hs Hne. apply is_key_head in Hk as [[Hn Hk]|[-> ->]].
  - unfold is_nibble in Hn. rewrite (proj2 (Nat.ltb_lt _ _)) by lia. destruct Hs as [[_ [?|?]]|[-> _]]; [done..|by apply is_key_nil in Hk].
  - destruct Hs as [[Hk _]|[_ [?|?]]]; [by apply is_key_nil in Hk|done..].
Qed.
Lemma key_index x key (cs : list ptrie) : is_key (x :: key) -> length cs = 17%nat -> 0 <= x /\ exists c, cs !! Z.to_nat x = Some c.
Proof.
  intros Hk Hl. apply is_key_head in Hk as Hx. unfold is_nibble in Hx. split; [lia|]. apply lookup_lt_is_Some. lia.
Qed.
Definition need (n : node) (key : list Z) : nat := 2 * length key + (if is_hash n then 2 else 1).

Lemma need_O n key : ~ (need n key <= 0)%nat.
Proof. unfold need. destruct (is_hash n); lia. Qed.
Lemma need_step n k key f : (0 < length k)%nat -> (2 * length (k ++ key) + 1 <= S f)%nat -> (need n key <= f)%nat.
Proof. unfold need. rewrite length_app. destruct (is_hash n); lia. Qed.
Lemma slot_short k c key : can (PShort k c) -> is_key (k ++ key) -> slot key c /\ (0 < length k)%nat.
Proof.
  intros Hc Hk. inversion Hc as [ns v Hn Hv|k1 cs Hk1 Hne Hf|]; subst.
  - split; [|rewrite length_app; simpl; lia]. right. rewrite <- app_assoc in Hk. apply is_key_app, is_key_term in Hk; [|done]. eauto.
  - split; [|destruct k; [done|simpl; lia]]. left. split; [by apply is_key_app in Hk|auto].
Qed.

(** A key that leaves a short node leaves it at a nibble of both. *)
Lemma leave_short k c key :
  can (PShort k c) -> is_key key -> ~ k `prefix_of` key -> exists p x k' y key', k = p ++ x :: k' /\ key = p ++ y :: key' /\ y <> x.
Proof.
  intros Hc Hk Hnp. destruct (prefixLen_spec key k) as (Ht & H1 & H2 & Hne). set (m := prefixLen key k) in *.
  destruct (decide (m = length k)) as [Em|]; [destruct Hnp; rewrite Em, (firstn_all k) in Ht; rewrite <- Ht; apply prefix_take|].
  destruct (decide (m = length key)) as [Em|].
  { exfalso. rewrite Em, firstn_all in Ht. pose proof (take_drop (length key) k) as E. rewrite <- Ht in E.
    inversion Hc as [ns v Hn Hv|k1 cs Hk1 _ Hf|]; subst k.
    - apply is_key_leaf in Hn. rewrite <- E in Hn at 1. pose proof (is_key_prefix _ _ _ Hk Hn eq_refl) as E0. rewrite E0, app_nil_r in E.
      apply Hnp. by rewrite <- E.
    - rewrite <- E in Hk1. apply Forall_app in Hk1 as [Hk1 _]. destruct Hk as (ns & _ & ->). apply Forall_app in Hk1 as [_ Hk1].
      apply Forall_cons in Hk1 as [Hk1 _]. unfold is_nibble in Hk1. lia. }
  destruct (lookup_lt_is_Some_2 k m ltac:(lia)) as [x Hx]. destruct (lookup_lt_is_Some_2 key m ltac:(lia)) as [y Hy].
  exists (take m k), x, (drop (S m) k), y, (drop (S m) key). split_and!; [by rewrite take_drop_middle|by rewrite <- Ht, take_drop_middle|by apply Hne].
Qed.
Lemma slot_short_upd k c r v c' :
  can (PShort k c) -> is_key (k ++ r) -> slot r c' -> c' <> PNil -> upd c r (Some v) c' -> slot (k ++ r) (PShort k c').
Proof.
  intros Hc Hk Hs Hne Hu. left. split; [done|]. right. inversion Hc as [ns v0 Hn Hv|k1 cs Hk1 Hne1 Hf|]; subst.
  - rewrite <- app_assoc in Hk. apply is_key_app, is_key_term in Hk as ->; [|done].
    destruct Hs as [[Hk _]|[_ [?|(v' & -> & Hv')]]]; [by apply is_key_nil in Hk|done|by constructor].
  - apply is_key_app in Hk; [|done]. assert (Hc' : can c') by (destruct Hs as [[_ [?|?]]|[-> _]]; [done..|by apply is_key_nil in Hk]).
    destruct (upd_full_full _ _ _ _ Hf Hc' Hu) as [cs' ->]. by constructor.
Qed.

Section ops.
Context `{C : Crypto} {CL : CryptoLaws C}.
Variable dbnode : list Z -> outcome (option node).
Variable miss : bool.
Abbreviation loads := (loads dbnode miss).
Abbreviation miss_err := (miss_err dbnode miss).

Lemma loads_child b ns fl cs x key :
  loads b (fullNode ns fl) (PFull cs) -> can (PFull cs) -> is_key (x :: key) ->
  exists n c, child ns x = Done n /\ cs !! Z.to_nat x = Some c /\ loads false n c /\ slot key c
    /\ (forall n', set_child ns x n' = Done (<[Z.to_nat x := n']> ns))
    /\ (forall n' c', loads false n' c' -> loads b (fullNode (<[Z.to_nat x := n']> ns) newFlag) (PFull (<[Z.to_nat x := c']> cs)))
    /\ (forall n', loads false n' c -> (hashed n c -> hashed n' c) ->
         loads b (fullNode (<[Z.to_nat x := n']> ns) fl) (PFull cs) /\ (hashed (fullNode ns fl) (PFull cs) -> hashed (fullNode (<[Z.to_nat x := n']> ns) fl) (PFull cs))).
Proof.
  intros Hl Hcan Hk. inversion Hl as [| | |? ? ? ? Hf Hfl|]; subst. pose proof Hcan as (Hlen & _)%can_full_inv.
  destruct (key_index x key cs Hk Hlen) as (Hx & c & Hc). pose proof (Forall2_lookup_r _ _ _ _ _ Hf Hc) as (n & Hn & Hnc).
  exists n, c. unfold child, set_child. rewrite Hn. split_and!; [done..|by eapply slot_child|done| |].
  - intros n' c' Hn'. constructor; [|apply new_flag_ok]. by apply Forall2_insert.
  - intros n' Hn' Hh. assert (Hhs : Forall2 hashed ns cs -> Forall2 hashed (<[Z.to_nat x := n']> ns) cs).
    { intros Hall. rewrite <- (list_insert_id cs (Z.to_nat x) c Hc). apply Forall2_insert; [done|]. apply Hh. by eapply Forall2_lookup_lr. }
    split.
    + constructor; [|by eapply flag_ok_mono]. rewrite <- (list_insert_id cs (Z.to_nat x) c Hc). by apply Forall2_insert.
    + intros H. inversion H; subst. constructor; [done|]. by apply Hhs.
Qed.

(** ** tryGet *)
Lemma tryGet_spec fuel : forall b n t key pos,
  loads b n t -> slot (drop pos key) t -> (pos <= length key)%nat -> (need n (drop pos key) <= fuel)%nat ->
  exists r, tryGet dbnode fuel n key pos = Done r
    /\ match r with
       | inl e => miss_err e
       | inr (v, n', d) => v = pget t (drop pos key) /\ loads b n' t /\ (hashed n t -> hashed n' t)
       end.
Proof.
  induction fuel as [|f IH]; intros b n t key pos Hl Hs Hp Hf; [by apply need_O in Hf|]. cbn [tryGet].
  inversion Hl as [|? v|? k n' c fl Hl' Hfl|? ns cs fl Hl' Hfl|? ? Hn Hbig Hdb]; subst.
  - eexists. split; [done|]. by split.
  - apply slot_val in Hs as [-> _]. eexists. split; [done|]. by split.
  - destruct (slot_can _ _ Hs I) as [Hk Hcan].
    destruct ((len key - Z.of_nat pos <? len k) || negb (bool_decide (k = take (length k) (drop pos key))))%bool eqn:Eb.
    { eexists. split; [done|]. split; [|done]. rewrite pget_short_eq, decide_False; [done|]. intros [r Er].
      apply orb_true_iff in Eb as [Eb|Eb].
      - apply Z.ltb_lt in Eb. apply (f_equal length) in Er. rewrite length_drop, length_app in Er. unfold len in Eb. lia.
      - apply negb_true_iff, bool_decide_eq_false in Eb. apply Eb. by rewrite Er, take_app_length. }
    apply orb_false_iff in Eb as [_ Eb]. apply negb_false_iff, bool_decide_eq_true in Eb.
    assert (Hd : drop pos key = k ++ drop (pos + length k) key) by (rewrite <- drop_drop; rewrite Eb at 1; by rewrite take_drop).
    rewrite Hd in Hk, Hf. destruct (slot_short _ _ _ Hcan Hk) as [Hs' Hk0].
    destruct (IH false n' c key (pos + length k)%nat Hl' Hs') as (r & Er & Hr); [|by eapply need_step|].
    { apply (f_equal length) in Hd. rewrite length_app, !length_drop in Hd. lia. }
    rewrite Er, Hd, pget_short. destruct r as [e|[[v n2] d]]; cbn [try]; eexists; (split; [done|]); [done|].
    destruct Hr as (-> & Hr & Hh). split; [done|]. destruct d; [|done].
    split; [constructor; [done|by eapply flag_ok_mono]|]. intros H. inversion H; subst. constructor; auto.
  - destruct (slot_can _ _ Hs I) as [Hk Hcan]. destruct (drop pos key) as [|x key'] eqn:Ed; [by apply is_key_nil in Hk|].
    assert (Hx : key !! pos = Some x) by (rewrite <- (Nat.add_0_r pos), <- lookup_drop, Ed; done).
    assert (Hd : drop (pos + 1) key = key') by (rewrite <- drop_drop, Ed; done).
    unfold key_at. rewrite Hx. cbn [mbind outcome_bind].
    destruct (loads_child _ _ _ _ _ _ Hl Hcan Hk) as (n1 & c & Hn1 & Hc & Hl1 & Hs1 & Hset & _ & Hload). rewrite Hn1. cbn [mbind outcome_bind].
    destruct (IH false n1 c key (pos + 1)%nat Hl1) as (r & Er & Hr); rewrite ?Hd; [done| |by apply (need_step n1 [x]); [simpl; lia|]|].
    { apply lookup_lt_Some in Hx. lia. }
    rewrite Er, pget_full. pose proof (key_index x key' cs Hk (proj1 (proj1 (can_full_inv cs) Hcan))) as [Hx0 _]. unfold at_ix. rewrite (proj2 (Z.leb_le _ _) Hx0), Hc, <- Hd.
    destruct r as [e|[[v n2] d]]; cbn [try]; [by eexists|]. destruct Hr as (-> & Hr & Hh). destruct d.
    + rewrite Hset. cbn [mbind outcome_bind]. eexists. split; [done|]. split; [done|]. by apply Hload.
    + eexists. split; [done|]. by split.
  - destruct (resolve_spec dbnode miss b t (take pos key) Hl Hn) as [(n1 & E1 & Hl1 & Hh & Hhd)|(e & E1 & He)]; rewrite E1; cbn [try].
    + destruct (IH b n1 t key pos Hl1 Hs Hp) as (r & Er & Hr); [unfold need in *; rewrite Hh; simpl in Hf; lia|]. rewrite Er.
      destruct r as [e|[[v n2] d]]; cbn [try]; [by eexists|].
      destruct Hr as (-> & Hr & Hhr). eexists. split; [done|]. split; [done|]. split; [done|]. auto.
    + by eexists.
Qed.

(** ** insert *)
Definition short_of (key : list Z) (n : node) : node := match key with [] => n | _ => shortNode key n newFlag end.
Lemma insert_Nil f prefix key value : insert dbnode (S f) Nil prefix key value = Done (inr (true, short_of key value)).
Proof. by destruct key. Qed.
Lemma loads_short_of k n c : loads false n c -> loads false (short_of k n) (mkshort k c).
Proof. intros Hl. destruct k; [done|]. constructor; [done|]. apply new_flag_ok. Qed.
Lemma loads_branch b x n c y n' d :
  is_index x -> is_index y -> loads false n c -> loads false n' d ->
  exists ns1, set_child (replicate 17 Nil) x n = Done ns1 /\ exists ns2, set_child ns1 y n' = Done ns2
    /\ loads b (fullNode ns2 newFlag) (PFull (branch x c y d)).
Proof.
  unfold is_index. intros Hx Hy Hn Hn'. unfold set_child.
  rewrite lookup_replicate_2 by lia. eexists. split; [done|].
  destruct (lookup_lt_is_Some_2 (<[Z.to_nat x := n]> (replicate 17 Nil)) (Z.to_nat y)) as [z ->]; [rewrite length_insert, length_replicate; lia|].
  eexists. split; [done|]. constructor; [|apply new_flag_ok]. unfold branch. apply Forall2_insert; [|done].
  apply Forall2_insert; [|done]. apply Forall2_replicate. constructor.
Qed.
Lemma prefixLen_diverge p x y a b : x <> y -> prefixLen (p ++ x :: a) (p ++ y :: b) = length p.
Proof.
  intros Hxy. induction p as [|z p IH]; simpl; [by rewrite (proj2 (Z.eqb_neq _ _) Hxy)|]. by rewrite Z.eqb_refl, IH.
Qed.
Lemma prefixLen_prefix p a : prefixLen (p ++ a) p = length p.
Proof. induction p as [|z p IH]; simpl; [by destruct a|]. by rewrite Z.eqb_refl, IH. Qed.
Lemma insert_split f b n c fl p x k y key prefix v :
  loads false n c -> can (PShort (p ++ x :: k) c) -> is_key (p ++ y :: key) -> y <> x ->
  exists n', insert dbnode (S (S f)) (shortNode (p ++ x :: k) n fl) prefix (p ++ y :: key) (valueNode v) = Done (inr (true, n'))
    /\ loads b n' (mkshort p (PFull (branch x (mkshort k c) y (mkshort key (PVal v))))).
Proof.
  intros Hl Hc Hk Hxy. destruct (short_split _ _ _ _ Hc) as (_ & Hx & _ & _). destruct (key_split _ _ _ Hk) as (_ & Hy & _).
  assert (Hne : exists z ktl, p ++ y :: key = z :: ktl) by (destruct p; simpl; eauto). destruct Hne as (z & ktl & Ez).
  remember (S f) as f' eqn:Ef. cbn [insert]. rewrite Ez, <- Ez. rewrite prefixLen_diverge by done.
  rewrite (proj2 (Nat.eqb_neq _ _)) by (rewrite length_app; simpl; lia).
  assert (Ha : forall (q : list Z) w, (p ++ w :: q) !! length p = Some w) by (intros; by rewrite list_lookup_middle).
  assert (Hd : forall (q : list Z) w, drop (length p + 1) (p ++ w :: q) = q) by (intros; by rewrite <- drop_drop, drop_app_length).
  unfold key_at. rewrite !Ha, !Hd, Ef, !insert_Nil. cbn [mbind outcome_bind try snd].
  destruct (loads_branch (match p with [] => b | _ => false end) x (short_of k n) (mkshort k c) y (short_of key (valueNode v)) (mkshort key (PVal v)) Hx Hy)
    as (ns1 & E1 & ns2 & E2 & Hf); [by apply loads_short_of|apply loads_short_of; constructor|].
  rewrite E1. cbn [mbind outcome_bind]. rewrite E2. cbn [mbind outcome_bind]. rewrite take_app_length.
  destruct p as [|w p]; cbn [length Nat.eqb mkshort]; eexists; (split; [done|]); [done|]. constructor; [done|]. apply new_flag_ok.
Qed.
Lemma insert_spec fuel : forall b n t key prefix v,
  loads b n t -> slot key t -> v <> [] -> (need n key <= fuel)%nat ->
  exists r, insert dbnode fuel n prefix key (valueNode v) = Done r
    /\ match r with
       | inl e => miss_err e
       | inr (d, n') => exists t', slot key t' /\ t' <> PNil /\ upd t key (Some v) t' /\ loads b n' t' /\ (d = false -> t' = t)
       end.
Proof.
  induction fuel as [|f IH]; intros b n t key prefix v Hl Hs Hv Hf; [by apply need_O in Hf|].
  inversion Hl as [|? v0|? k n1 c fl Hl1 Hfl|? ns cs fl Hl1 Hfl|? ? Hn Hbig Hdb]; subst.
  - rewrite insert_Nil. eexists. split; [done|]. exists (mkshort key (PVal v)). split_and!; try done.
    + destruct Hs as [[Hk _]|[-> _]]; [left|right; eauto]. split; [done|]. right. pose proof Hk as (ns & Hns & ->).
      destruct ns; by apply (can_leaf _ v).
    + by destruct key.
    + eapply upd_ext_r; [intros; symmetry; apply pget_mkshort|apply upd_nil].
    + destruct key; [constructor|]. constructor; [constructor|apply new_flag_ok].
  - apply slot_val in Hs as [-> Hv0]. cbn [insert]. eexists. split; [done|]. exists (PVal v). split_and!; try done.
    + right. eauto.
    + apply upd_val.
    + constructor.
    + intros E%negb_false_iff%bool_decide_eq_true. by subst.
  - destruct (slot_can _ _ Hs I) as [Hk Hcan].
    destruct (decide (k `prefix_of` key)) as [[r ->]|Hnp].
    + destruct (slot_short _ _ _ Hcan Hk) as [Hs1 Hk0].
      destruct (IH false n1 c r (prefix ++ k) v Hl1 Hs1 Hv) as (r' & Er & Hr); [by eapply need_step|].
      cbn [insert]. destruct k as [|k0 k]; [simpl in Hk0; lia|]. cbn [app]. change (k0 :: k ++ r) with ((k0 :: k) ++ r).
      rewrite prefixLen_prefix, Nat.eqb_refl, take_app_length, drop_app_length, Er.
      destruct r' as [e|[d n']]; cbn [try fst snd]; [by eexists|]. destruct Hr as (c' & Hs' & Hne & Hu & Hl' & Hd).
      exists (inr (d, if d then shortNode (k0 :: k) n' newFlag else shortNode (k0 :: k) n1 fl)). split; [by destruct d|].
      exists (PShort (k0 :: k) c'). split_and!; [by eapply slot_short_upd|done|by apply upd_short| |intros ->; by rewrite Hd].
      destruct d; [constructor; [done|apply new_flag_ok]|by rewrite Hd].
    + destruct (leave_short _ _ _ Hcan Hk Hnp) as (p & x & k' & y & key' & -> & -> & Hxy).
      assert (Hf2 : exists f', f = S f') by (unfold need in Hf; rewrite length_app in Hf; simpl in Hf; destruct f; [lia|eauto]). destruct Hf2 as [f' ->].
      destruct (insert_split f' b n1 c fl p x k' y key' prefix v Hl1 Hcan Hk Hxy) as (n' & En & Hn'). rewrite En.
      eexists. split; [done|]. eexists. pose proof (can_split p x k' y key' c v Hcan Hk ltac:(done) Hv) as Hc'.
      split_and!; [left; split; [done|right; exact Hc']|by apply can_not_nil| |done..].
      apply upd_split; [|by eapply key_split|done]. by eapply short_split.
  - destruct (slot_can _ _ Hs I) as [Hk Hcan]. destruct key as [|x key]; [by apply is_key_nil in Hk|]. cbn [insert].
    destruct (loads_child _ _ _ _ _ _ Hl Hcan Hk) as (n1 & c & Hn1 & Hc & Hlc & Hs1 & Hset & Hload & _). rewrite Hn1. cbn [mbind outcome_bind].
    destruct (IH false n1 c key (prefix ++ [x]) v Hlc Hs1 Hv) as (r & Er & Hr); [by apply (need_step n1 [x]); [simpl; lia|]|].
    rewrite Er. destruct r as [e|[d n']]; cbn [try fst snd]; [by eexists|]. destruct Hr as (c' & Hs' & Hne & Hu & Hl' & Hd).
    exists (inr (d, if d then fullNode (<[Z.to_nat x := n']> ns) newFlag else fullNode ns fl)).
    split; [destruct d; simpl; [by rewrite Hset|done]|]. exists (PFull (<[Z.to_nat x := c']> cs)).
    pose proof (key_index x key cs Hk (proj1 (proj1 (can_full_inv cs) Hcan))) as [Hx0 _].
    split_and!; [|done|by eapply upd_full| |].
    + left. split; [done|]. right. eapply can_insert; [done..|by eapply slot_can_child|done].
    + destruct d; [by apply Hload|]. rewrite Hd, list_insert_id by done. done.
    + intros ->. by rewrite Hd, list_insert_id.
  - destruct (slot_can _ _ Hs Hn) as [Hk Hcan]. destruct key as [|x key]; [by apply is_key_nil in Hk|]. cbn [insert].
    destruct (resolve_spec dbnode miss b t prefix Hl Hn) as [(n1 & E1 & Hl1 & Hh & _)|(e & E1 & He)]; rewrite E1; cbn [try]; [|by eexists].
    destruct (IH b n1 t (x :: key) prefix v Hl1 Hs Hv) as (r & Er & Hr); [unfold need in *; rewrite Hh; simpl in Hf |- *; lia|].
    rewrite Er. destruct r as [e|[d n']]; cbn [try fst snd]; [by eexists|]. destruct Hr as (t' & Hs' & Hne & Hu & Hl' & Hd).
    exists (inr (d, if d then n' else n1)). split; [by destruct d|]. exists t'. split_and!; try done. destruct d; [done|]. by rewrite Hd.
Qed.

(** ** delete *)
Lemma single_none ns i pos : Forall (fun n => isNil n = true) ns -> single_loop ns i pos = pos.
Proof. intros Hn. revert i. induction Hn as [|n ns Hn _ IH]; intros i; [done|]. cbn [single_loop]. rewrite Hn. apply IH. Qed.
Lemma single_many ns i pos : pos <> -1 -> Exists (fun n => isNil n = false) ns -> single_loop ns i pos = -2.
Proof.
  intros Hp He. revert i. induction ns as [|n ns IH]; intros i; [by apply Exists_nil in He|]. cbn [single_loop].
  destruct (isNil n) eqn:En; cbn [negb]; [|by rewrite (proj2 (Z.eqb_neq _ _) Hp)]. apply Exists_cons in He as [?|He]; [congruence|]. by apply IH.
Qed.
Lemma loads_nils ns cs : Forall2 (loads false) ns cs -> Forall (eq PNil) cs -> Forall (fun n => isNil n = true) ns.
Proof.
  induction 1 as [|n c ns cs Hl _ IH]; intros Hn; [constructor|]. apply Forall_cons in Hn as [<- Hn]. constructor; [by apply (loads_nil_inv _ _ _ _ _ Hl)|auto].
Qed.
Lemma single_only ns cs j c : Forall2 (loads false) ns cs -> only cs j c -> forall i, single_loop ns i (-1) = i + Z.of_nat j.
Proof.
  intros Hf. revert j. induction Hf as [|n d ns cs Hl Hf IH]; intros j (Hj & Hne & Ho) i; [done|]. cbn [single_loop].
  pose proof (loads_nil_inv _ _ _ _ _ Hl) as Hnil. destruct j as [|j].
  - injection Hj as ->. destruct (isNil n); [by rewrite (proj1 Hnil eq_refl) in Hne|]. simpl. rewrite single_none; [lia|].
    eapply loads_nils; [done|]. apply Forall_lookup. intros m e Hm. symmetry. by apply (Ho (S m)).
  - assert (isNil n = true) as -> by (apply Hnil, (Ho 0%nat); done). simpl. rewrite (IH j); [lia|].
    split; [done|]. split; [done|]. intros m e Hm Hmj. apply (Ho (S m)); [done|lia].
Qed.
Lemma loads_exists ns cs n c : Forall2 (loads false) ns cs -> cs !! n = Some c -> c <> PNil -> Exists (fun n => isNil n = false) ns.
Proof.
  intros Hf Hn Hne. pose proof (Forall2_lookup_r _ _ _ _ _ Hf Hn) as (m & Hm & Hl). apply Exists_exists. exists m.
  split; [by eapply list_elem_of_lookup_2|]. apply (loads_nil_inv _ _) in Hl. destruct (isNil m); [tauto|done].
Qed.
Lemma single_two ns cs : Forall2 (loads false) ns cs -> two cs -> forall i, 0 <= i -> single_loop ns i (-1) = -2.
Proof.
  induction 1 as [|n d ns cs Hl Hf IH]; intros (a & b & ca & cb & Hab & Ha & Hb & Hca & Hcb) i Hi; [done|]. cbn [single_loop].
  pose proof (loads_nil_inv _ _ _ _ _ Hl) as Hnil. destruct (isNil n) eqn:En; cbn [negb].
  - rewrite (proj1 Hnil eq_refl) in Ha, Hb. destruct a as [|a]; [simpl in Ha; congruence|]. destruct b as [|b]; [simpl in Hb; congruence|].
    apply IH; [|lia]. exists a, b, ca, cb. split_and!; try done. lia.
  - simpl. apply single_many; [lia|]. destruct a as [|a]; [destruct b as [|b]; [done|]; by eapply (loads_exists ns cs b)|by eapply (loads_exists ns cs a)].
Qed.
Definition del_ok (b : bool) (t : ptrie) (key : list Z) (r : trieErr + (bool * node)) : Prop :=
  match r with
  | inl e => miss_err e
  | inr (d, n') => exists t', slot key t' /\ upd t key None t' /\ loads b n' t' /\ (d = false -> t' = t) /\ (d = true -> is_hash n' = false)
  end.
(** A branch without one of its children. *)
Lemma delete_reduce b ns cs x prefix :
  let cs' := <[Z.to_nat x := PNil]> cs in
  can (PFull cs) -> is_index x -> Forall2 (loads false) ns cs' ->
  let pos := single_loop ns 0 (-1) in
  exists r,
    (if 0 <=? pos then
       c ← child ns pos;
       if negb (pos =? 16) then
         let? cnode := resolve dbnode c prefix in
         match cnode with
         | shortNode ckey cval _ => Done (inr (true, shortNode (pos :: ckey) cval newFlag))
         | _ => Done (inr (true, shortNode [pos] c newFlag))
         end
       else Done (inr (true, shortNode [pos] c newFlag))
     else Done (inr (true, fullNode ns newFlag))) = Done r
    /\ match r with
       | inl e => miss_err e
       | inr (d, n') => d = true /\ is_hash n' = false /\ exists t', can t' /\ (forall k, pget t' k = pget (PFull cs') k) /\ loads b n' t'
       end.
Proof.
  intros cs' Hcan Hx Hf pos. pose proof Hcan as (Hl & Hcc & _)%can_full_inv.
  assert (Hc' : forall n c, cs' !! n = Some c -> can_child n c).
  { intros n c Hn. unfold cs' in Hn. apply list_lookup_insert_Some in Hn as [(<- & <- & _)|[_ Hn]]; [by intros ?|eauto]. }
  assert (Hl' : length cs' = 17%nat) by (unfold cs'; by rewrite length_insert).
  destruct (lookup_lt_is_Some_2 cs (Z.to_nat x)) as [c Hc]; [unfold is_index in Hx; lia|].
  destruct (remove_child cs (Z.to_nat x) c Hcan Hc) as [(i & ci & Ho)|[Htwo Hcan']].
  2: { unfold pos. rewrite (single_two ns cs') by done. eexists. split; [done|]. split; [done|]. split; [done|]. exists (PFull cs').
       split; [done|]. split; [done|]. constructor; [done|apply new_flag_ok]. }
  unfold pos. rewrite (single_only ns cs' i ci) by done. rewrite Z.add_0_l, (proj2 (Z.leb_le _ _)) by lia.
  pose proof Ho as (Hi & Hne & _). pose proof (Forall2_lookup_r _ _ _ _ _ Hf Hi) as (n & Hn & Hln).
  unfold child. rewrite Nat2Z.id, Hn. cbn [mbind outcome_bind].
  assert (Hok : forall n', loads b n' (mkmerge [Z.of_nat i] ci) -> is_hash n' = false ->
    true = true /\ is_hash n' = false /\ exists t', can t' /\ (forall k, pget t' k = pget (PFull cs') k) /\ loads b n' t').
  { intros n' Hl1 Hh. split; [done|]. split; [done|]. exists (mkmerge [Z.of_nat i] ci). split; [by eapply can_only|]. split; [|done].
    intros k. by rewrite pget_mkmerge, <- (pget_only cs'). }
  assert (Hkeep : (forall k c0, ci <> PShort k c0) -> loads b (shortNode [Z.of_nat i] n newFlag) (mkmerge [Z.of_nat i] ci)).
  { intros Hns. destruct ci; try (constructor; [done|apply new_flag_ok]). by destruct (Hns k ci). }
  destruct (Z.eqb_spec (Z.of_nat i) 16) as [E16|E16]; cbn [negb].
  { eexists. split; [done|]. apply Hok; [|done]. apply Hkeep. intros k c0 ->. specialize (Hc' _ _ Hi Hne). rewrite (proj2 (Nat.ltb_ge _ _)) in Hc' by lia.
    by destruct Hc' as (v & ? & _). }
  specialize (Hc' _ _ Hi Hne). assert (Hi17 : (i < 17)%nat) by (rewrite <- Hl'; exact (lookup_lt_Some _ _ _ Hi)). rewrite (proj2 (Nat.ltb_lt _ _)) in Hc' by lia.
  assert (Hres : (exists n1, resolve dbnode n prefix = Done (inr n1) /\ loads false n1 ci /\ is_hash n1 = false)
    \/ (exists e, resolve dbnode n prefix = Done (inl e) /\ miss_err e)).
  { destruct n as [| | |h|]; try (left; eexists; split; [done|]; by split). inversion Hln; subst. destruct (resolve_spec dbnode miss false ci prefix Hln) as [(n1 & ? & ? & ? & _)|?]; [done|left; eauto|by right]. }
  destruct Hres as [(n1 & E1 & Hl1 & Hh)|(e & E1 & He)]; rewrite E1; cbn [try]; [|by eexists].
  inversion Hl1 as [|? v|? k n2 c2 fl Hl2 Hfl|? ns' cs2 fl Hl2 Hfl|]; subst; try done; (eexists; split; [done|]; apply Hok; [|done]).
  - by inversion Hc'.
  - constructor; [done|apply new_flag_ok].
  - by apply Hkeep.
Qed.
Lemma not_prefix_len k key : ~ k `prefix_of` key -> (prefixLen key k < length k)%nat.
Proof.
  intros Hnp. destruct (prefixLen_spec key k) as (Ht & _ & H2 & _). destruct (decide (prefixLen key k = length k)) as [E|]; [|lia].
  destruct Hnp. rewrite E, (firstn_all k) in Ht. rewrite <- Ht. apply prefix_take.
Qed.
(** Deleting below an extension leaves something there. *)
Lemma upd_full_left cs key t' : can (PFull cs) -> upd (PFull cs) key None t' -> t' <> PNil.
Proof.
  intros Hc Hu ->. destruct (full_two_keys cs Hc) as (x & y & a & b & Hxy & Ha & Hb).
  pose proof (Hu (x :: a)) as H1. pose proof (Hu (y :: b)) as H2.
  change (pget PNil (x :: a)) with (@None (list Z)) in H1. change (pget PNil (y :: b)) with (@None (list Z)) in H2.
  destruct (decide (x :: a = key)) as [<-|]; [|by rewrite <- H1 in Ha; destruct Ha].
  destruct (decide (y :: b = x :: a)) as [E|]; [congruence|]. rewrite <- H2 in Hb. by destruct Hb.
Qed.
Lemma delete_short f b k n c fl key prefix :
  (forall prefix' key', key = k ++ key' -> slot key' c -> exists r, delete dbnode f n prefix' key' = Done r /\ del_ok false c key' r) ->
  loads b (shortNode k n fl) (PShort k c) -> can (PShort k c) -> is_key key ->
  exists r, delete dbnode (S f) (shortNode k n fl) prefix key = Done r /\ del_ok b (PShort k c) key r.
Proof.
  intros IH Hl Hcan Hk. cbn [delete]. destruct (decide (k `prefix_of` key)) as [[r ->]|Hnp].
  2: { rewrite (proj2 (Nat.ltb_lt _ _)) by (by apply not_prefix_len). eexists. split; [done|]. exists (PShort k c).
       split; [left; auto|]. split; [|done]. apply upd_none. by rewrite pget_short_eq, decide_False. }
  rewrite prefixLen_prefix, Nat.ltb_irrefl. destruct (slot_short _ _ _ Hcan Hk) as [Hs Hk0].
  destruct (Nat.eqb_spec (length k) (length (k ++ r))) as [E|E].
  { assert (r = []) as -> by (rewrite length_app in E; destruct r; [done|simpl in E; lia]). rewrite app_nil_r in *.
    eexists. split; [done|]. exists PNil. split; [left; auto|]. split; [|split; [constructor|done]]. intros k'. destruct (decide (k' = k)) as [|Hne]; [done|].
    symmetry. inversion Hcan as [ns v|k1 cs Hk1|]; subst.
    - destruct (pget _ k') eqn:Eg; [|done]. destruct Hne. by eapply leaf_one.
    - destruct Hk as (ns & _ & ->). apply Forall_app in Hk1 as [_ Hk1]. apply Forall_cons in Hk1 as [Hk1 _]. unfold is_nibble in Hk1. lia. }
  assert (Hext : exists cs, c = PFull cs /\ nibbles k /\ can c).
  { inversion Hcan as [ns v Hn|k1 cs Hk1|]; subst; [|eauto]. rewrite <- app_assoc in Hk. apply is_key_app, is_key_term in Hk as ->; [|done].
    by rewrite app_nil_r in E. }
  destruct Hext as (cs & -> & Hkn & Hf). rewrite take_app_length, drop_app_length.
  destruct (IH (prefix ++ k) r eq_refl Hs) as (r' & Er & Hr). rewrite Er. destruct r' as [e|[d n']]; cbn [try fst snd]; [by eexists|].
  destruct Hr as (c' & Hs' & Hu & Hl' & Hd & Hh). destruct d; cbn [negb].
  2: { eexists. split; [done|]. rewrite Hd in Hu by done. exists (PShort k (PFull cs)). split; [left; auto|]. split; [|done]. by apply upd_short. }
  assert (Hc' : can c').
  { apply is_key_app in Hk; [|done]. destruct Hs' as [[_ [->|?]]|[-> _]]; [by destruct (upd_full_left _ _ _ Hf Hu)|done|by apply is_key_nil in Hk]. }
  exists (inr (true, match n' with shortNode ck cv _ => shortNode (k ++ ck) cv newFlag | _ => shortNode k n' newFlag end)).
  split; [by destruct n'|]. exists (mkmerge k c'). split; [left; split; [done|right; apply can_mkmerge; [done| |done]]; destruct k; [simpl in Hk0; lia|done]|].
  split; [by apply upd_mkmerge|]. split; [|split; [done|by destruct n']]. specialize (Hh eq_refl).
  inversion Hl' as [|? v|? k2 n2 c2 fl2 Hl2 Hfl2|? ns' cs2 fl2 Hl2 Hfl2|]; subst; try done; try (by inversion Hc'); (constructor; [done|apply new_flag_ok]).
Qed.
Lemma delete_full f b ns fl cs key prefix :
  (forall n c prefix' key', loads false n c -> slot key' c -> length key = S (length key') ->
    exists r, delete dbnode f n prefix' key' = Done r /\ del_ok false c key' r) ->
  loads b (fullNode ns fl) (PFull cs) -> can (PFull cs) -> is_key key ->
  exists r, delete dbnode (S f) (fullNode ns fl) prefix key = Done r /\ del_ok b (PFull cs) key r.
Proof.
  intros IH Hl Hcan Hk. destruct key as [|x key]; [by apply is_key_nil in Hk|]. cbn [delete key_at lookup list_lookup mbind outcome_bind].
  destruct (loads_child _ _ _ _ _ _ Hl Hcan Hk) as (n1 & c & Hn1 & Hc & Hlc & Hs1 & Hset & Hload & _). rewrite Hn1. cbn [mbind outcome_bind].
  change (drop 1 (x :: key)) with key. destruct (IH n1 c (prefix ++ [x]) key Hlc Hs1 eq_refl) as (r & Er & Hr). rewrite Er.
  destruct r as [e|[d n']]; cbn [try fst snd]; [by eexists|]. destruct Hr as (c' & Hs' & Hu & Hl' & Hd & Hh).
  pose proof (key_index x key cs Hk (proj1 (proj1 (can_full_inv cs) Hcan))) as [Hx0 _].
  assert (Hu' : upd (PFull cs) (x :: key) None (PFull (<[Z.to_nat x := c']> cs))) by (by eapply upd_full).
  destruct d; cbn [negb].
  2: { eexists. split; [done|]. rewrite Hd, list_insert_id in Hu' by done. exists (PFull cs). split; [left; auto|]. done. }
  rewrite Hset. cbn [mbind outcome_bind]. destruct (isNil n') eqn:En; cbn [negb].
  2: { eexists. split; [done|]. assert (Hne : c' <> PNil) by (intros E; apply (loads_nil_inv _ _ _ _ _ Hl') in E; congruence).
       exists (PFull (<[Z.to_nat x := c']> cs)). split; [left; split; [done|right; eapply can_insert; [done..|by eapply slot_can_child|done]]|].
       split; [done|]. split; [|done]. by apply Hload. }
  apply (loads_nil_inv _ _ _ _ _ Hl') in En as ->. specialize (Hload n' PNil Hl').
  inversion Hload as [| | |? ? ? ? Hf2|]; subst.
  destruct (delete_reduce b (<[Z.to_nat x:=n']> ns) cs x prefix Hcan) as (r & E2 & Hr); [|done|].
  { apply is_key_head in Hk. unfold is_nibble, is_index in *. lia. }
  cbv zeta. rewrite E2. exists r. split; [done|]. destruct r as [e|[d n2]]; [done|]. destruct Hr as (-> & Hh2 & t' & Ht' & Hg & Hl2).
  exists t'. split; [left; auto|]. split; [|done]. eapply upd_ext_r; [intros; symmetry; apply Hg|done].
Qed.
Lemma delete_spec fuel : forall b n t key prefix,
  loads b n t -> slot key t -> (need n key <= fuel)%nat ->
  exists r, delete dbnode fuel n prefix key = Done r /\ del_ok b t key r.
Proof.
  induction fuel as [|f IH]; intros b n t key prefix Hl Hs Hf; [by apply need_O in Hf|].
  inversion Hl as [|? v0|? k n1 c fl Hl1 Hfl|? ns cs fl Hl1 Hfl|? ? Hn Hbig Hdb]; subst.
  - eexists. split; [done|]. exists PNil. split; [done|]. split; [by apply upd_none|done].
  - apply slot_val in Hs as [-> Hv]. eexists. split; [done|]. exists PNil. split; [right; auto|]. split; [by intros []|]. split; [constructor|done].
  - destruct (slot_can _ _ Hs I) as [Hk Hcan]. apply delete_short; [|done..]. intros prefix' key' -> Hs'. apply IH; [done..|].
    eapply need_step; [|done]. by eapply slot_short.
  - destruct (slot_can _ _ Hs I) as [Hk Hcan]. apply delete_full; [|done..]. intros n c prefix' key' Hlc Hsc Hlen. apply IH; [done..|].
    unfold need in *. simpl in Hf. destruct (is_hash n); lia.
  - cbn [delete]. destruct (resolve_spec dbnode miss b t prefix Hl Hn) as [(n1 & E1 & Hl1 & Hh & _)|(e & E1 & He)]; rewrite E1; cbn [try]; [|by eexists].
    destruct (IH b n1 t key prefix Hl1 Hs) as (r & Er & Hr); [unfold need in *; rewrite Hh; simpl in Hf; lia|].
    rewrite Er. destruct r as [e|[d n']]; cbn [try fst snd]; [by eexists|]. destruct Hr as (t' & Hs' & Hu & Hl' & Hd & Hh').
    exists (inr (d, if d then n' else n1)). split; [by destruct d|]. exists t'. split; [done|]. split; [done|]. destruct d; [done|]. by rewrite Hd in *.
Qed.
End ops.
End TrieOps.
