(* ===== verification/TrieHash.v ===== *)
(** * Hashing tries *)

From stdpp Require Import base list numbers strings relations.
From Stdlib Require Import ZArith Lia.
From S2P Require Import Prelude Bytes Rlp RlpProps RlpBuffer Enr TrieKeys Trie TriePure TrieUpd TrieLoad TrieOps.
Import Rlp RlpProps RlpBuffer Enr TrieKeys Trie TriePure TrieUpd TrieLoad TrieOps.

Module TrieHash.

(** ** What encode writes *)
Fixpoint nenc (n : node) : list Z :=
  match n with
  | Nil => EmptyString
  | fullNode cs _ => enc_list (mjoin (map nenc cs))
  | shortNode k v _ => enc_list (enc_string k ++ nenc v)
  | hashNode b | valueNode b => enc_string b
  end.
Section node_ind.
Variable P : node -> Prop.
Hypothesis HNil : P Nil.
Hypothesis HFull : forall cs fl, Forall P cs -> P (fullNode cs fl).
Hypothesis HShort : forall k n fl, P n -> P (shortNode k n fl).
Hypothesis HHash : forall h, P (hashNode h).
Hypothesis HVal : forall v, P (valueNode v).
Fixpoint node_rect' (n : node) : P n :=
  match n with
  | Nil => HNil
  | fullNode cs fl =>
      HFull cs fl ((fix go (cs : list node) : Forall P cs :=
        match cs with
        | [] => Forall_nil_2 _
        | c :: cs => Forall_cons_2 _ _ _ (node_rect' c) (go cs)
        end) cs)
  | shortNode k n fl => HShort k n fl (node_rect' n)
  | hashNode h => HHash h
  | valueNode v => HVal v
  end.
End node_ind.
Lemma enc_list_holds c : len c <= len (enc_list c).
Proof. unfold enc_list. rewrite len_app. pose proof (len_nonneg (puthead 192 247 (len c))). lia. Qed.
Lemma encode_writes n : forall w, len (nenc n) < 2 ^ 64 -> writes w (encode n w) (nenc n).
Proof.
  induction n as [|cs fl IH|k n fl IH|h|v] using node_rect'; intros w Hl; cbn [encode nenc] in *.
  - apply writes_append.
  - pose proof (enc_list_holds (mjoin (map nenc cs))). apply writes_list; [lia|].
    assert (Hc : len (mjoin (map nenc cs)) < 2 ^ 64) by lia. clear Hl H. cbn [list_ snd]. generalize (mk_encBuffer (str w) (lheads w ++ [mk_listhead (len (str w)) (lhsize w)]) (lhsize w)). clear w.
    induction IH as [|c cs Hc1 _ IH]; intros w; [apply writes_refl|]. cbn [map foldl] in *. change (mjoin (nenc c :: map nenc cs)) with (nenc c ++ mjoin (map nenc cs)) in *.
    rewrite len_app in Hc. pose proof (len_nonneg (nenc c)). pose proof (len_nonneg (mjoin (map nenc cs))).
    eapply writes_trans; [apply Hc1; lia|apply IH; lia].
  - pose proof (enc_list_holds (enc_string k ++ nenc n)). apply writes_list; [lia|]. rewrite len_app in *. pose proof (len_nonneg (enc_string k)).
    eapply writes_trans; [|apply IH; lia]. rewrite writeBytes_enc. apply writes_append.
  - rewrite writeBytes_enc. apply writes_append.
  - rewrite writeBytes_enc. apply writes_append.
Qed.
Lemma nodeToBytes_spec n : len (nenc n) < 2 ^ 64 -> nodeToBytes n = nenc n.
Proof. intros Hl. unfold nodeToBytes. by apply writes_makeBytes, encode_writes. Qed.

(** ** Sizes *)
Definition maxSize : Z := 2 ^ 32.
(** The entries are byte strings of moderate length. *)
Definition sized (t : ptrie) : Prop := forall k v, pget t k = Some v -> len k <= maxSize /\ len v <= maxSize /\ bytes v.
Lemma sized_short k c : sized (PShort k c) -> sized c.
Proof.
  intros Hs k' v Hg. destruct (Hs (k ++ k') v) as (H1 & H2 & H3); [by rewrite pget_short|]. rewrite len_app in H1.
  pose proof (len_nonneg k). split; [lia|done].
Qed.
Lemma sized_full cs n c : sized (PFull cs) -> cs !! n = Some c -> sized c.
Proof.
  intros Hs Hn k' v Hg. destruct (Hs (Z.of_nat n :: k') v) as (H1 & H2 & H3); [by rewrite pget_full, at_ix_nat, Hn|].
  rewrite len_cons in H1. split; [lia|done].
Qed.
Lemma sized_val v : sized (PVal v) -> len v <= maxSize /\ bytes v.
Proof. intros Hs. destruct (Hs [] v eq_refl) as (_ & H). done. Qed.
Lemma sized_key k c : sized (PShort k c) -> can (PShort k c) -> len k <= maxSize.
Proof.
  intros Hs Hc. destruct (wf_key _ (or_intror (or_intror Hc)) ltac:(done)) as (key & v & Hg). pose proof Hg as (k' & -> & _)%pget_short_inv.
  destruct (Hs _ _ Hg) as (H & _). rewrite len_app in H. pose proof (len_nonneg k'). lia.
Qed.
Lemma enc_string_upper b : len b < 2 ^ 64 -> len (enc_string b) <= len b + 9.
Proof.
  intros Hb. pose proof (len_nonneg b). pose proof (headsize_bounds (len b) ltac:(lia)).
  assert (H1 : len (puthead 128 183 (len b) ++ b) <= len b + 9) by (rewrite len_app, puthead_len by lia; lia).
  unfold enc_string. destruct b as [|x [|y b]]; try done. destruct (x <=? 127); [rewrite len_cons, len_nil; lia|done].
Qed.
Lemma enc_list_upper c : len c < 2 ^ 64 -> len (enc_list c) <= len c + 9.
Proof.
  intros Hc. pose proof (len_nonneg c). pose proof (headsize_bounds (len c) ltac:(lia)). unfold enc_list. rewrite len_app, puthead_len by lia. lia.
Qed.

Section hashing.
Context `{C : Crypto} {CL : CryptoLaws C}.

(** The keys of short nodes. *)
Lemma short_key k c : can (PShort k c) -> exists term ns, k = hexKey term ns /\ nibbles ns /\ (term = true <-> exists v, c = PVal v).
Proof.
  intros Hc. inversion Hc as [ns v|k1 cs Hk|]; subst; [exists true, ns|exists false, k]; split; try done; (split; [done|]).
  - split; [eauto|done].
  - split; [done|]. by intros [v ?].
Qed.
Lemma compact_spec k c : can (PShort k c) -> hexToCompact k = Done (compact k) /\ bytes (compact k) /\ compactToHex (compact k) = k /\ len (compact k) <= len k + 1.
Proof.
  intros Hc. destruct (short_key k c Hc) as (term & ns & -> & Hn & _). destruct (compact_roundtrip term ns Hn) as (cc & E & Hb & _ & Hr).
  unfold compact. rewrite E. split; [done|]. split; [done|]. split; [done|].
  destruct (hexToCompact_spec term ns Hn) as (odd & s & _ & _ & Hns & E'). rewrite E in E'. injection E' as ->.
  unfold len. assert (length ns <= length (hexKey term ns))%nat by (unfold hexKey; destruct term; rewrite ?length_app; lia).
  rewrite Hns in *. destruct odd; simpl; simpl in *; rewrite nibbles_of_length in *; lia.
Qed.
Lemma pref_len c : wf c -> sized c -> len (pref c) <= maxSize + 42.
Proof.
  intros Hw Hs. unfold pref, pref_of, maxSize. destruct c as [|v|k c|cs]; [done| | |].
  - apply sized_val in Hs as [Hv _]. unfold maxSize in Hv. pose proof (enc_string_upper v ltac:(lia)). lia.
  - case_match eqn:E; [apply Nat.ltb_lt in E; unfold len; lia|]. pose proof (enc_string_upper (Keccak256 (penc (PShort k c)))) as H.
    unfold len in H at 1 3. rewrite Keccak256_len in H. lia.
  - case_match eqn:E; [apply Nat.ltb_lt in E; unfold len; lia|]. pose proof (enc_string_upper (Keccak256 (penc (PFull cs)))) as H.
    unfold len in H at 1 3. rewrite Keccak256_len in H. lia.
Qed.
Lemma penc_len t : can t -> sized t -> len (penc t) < 2 ^ 40.
Proof.
  intros Hc Hs. destruct t as [|v|k c|cs]; [done..| |]; cbn [penc]; fold penc.
  - pose proof (compact_spec k c Hc) as (_ & _ & _ & Hl). pose proof (sized_key k c Hs Hc) as Hk.
    assert (Hw : wf c) by (inversion Hc; subst; unfold wf; eauto).
    pose proof (pref_len c Hw (sized_short _ _ Hs)) as Hp. unfold maxSize in *. pose proof (enc_string_upper (compact k) ltac:(lia)).
    fold (pref c). pose proof (len_nonneg (pref c)).
    pose proof (enc_list_upper (enc_string (compact k) ++ pref c)) as H1. rewrite len_app in *. lia.
  - assert (Hj : forall l, (forall c, c ∈ l -> len (pref c) <= maxSize + 42) -> len (mjoin (map pref l)) <= len l * (maxSize + 42)).
    { induction l as [|c l IH]; intros Hl; [done|]. cbn [map]. change (mjoin (pref c :: map pref l)) with (pref c ++ mjoin (map pref l)).
      rewrite len_app, len_cons. pose proof (Hl c ltac:(left)). pose proof (IH ltac:(intros; apply Hl; by right)). lia. }
    specialize (Hj cs). pose proof Hc as (Hl & _)%can_full_inv. unfold len in Hj at 3. rewrite Hl in Hj. unfold maxSize in Hj.
    assert (H1 : len (mjoin (map pref cs)) <= 17 * (2 ^ 32 + 42)).
    { apply Hj. intros c [n Hn]%list_elem_of_lookup. apply pref_len; [by eapply wf_child|by eapply sized_full]. }
    change (map (fun c => pref_of (penc c) c) cs) with (map pref cs). pose proof (enc_list_upper (mjoin (map pref cs))). lia.
Qed.

(** ** hash *)
Variable dbnode : list Z -> outcome (option node).
Variable miss : bool.
Abbreviation loads := (loads dbnode miss).

Lemma pref_big t : is_node t -> big t -> pref t = enc_string (phash t).
Proof. unfold big, pref, pref_of. intros Hn Hb. destruct t; try done; by rewrite (proj2 (Nat.ltb_ge _ _)). Qed.
Lemma pref_small t : is_node t -> (length (penc t) < 32)%nat -> pref t = penc t.
Proof. unfold pref, pref_of. intros Hn Hb. destruct t; try done; by rewrite (proj2 (Nat.ltb_lt _ _)). Qed.
Lemma wf_short k c : can (PShort k c) -> wf c.
Proof. intros Hc. inversion Hc; subst; unfold wf; eauto. Qed.
(** The end of [hash_]: [n] is the node with its children hashed. *)
Lemma nodeToHash_spec b n t :
  can t -> sized t -> nenc n = penc t ->
  (nodeToHash n b = hashNode (phash t) /\ (b = false -> big t)) \/ (nodeToHash n b = n /\ b = false /\ ~ big t).
Proof.
  intros Hc Hs E. unfold nodeToHash. pose proof (penc_len t Hc Hs). rewrite nodeToBytes_spec by (rewrite E; lia). rewrite E.
  unfold big, len in *. destruct (Z.ltb_spec (Z.of_nat (length (penc t))) 32) as [Hl|Hl]; [destruct b|]; cbn [negb andb].
  - by left.
  - right. split_and!; [done|done|lia].
  - left. split; [done|lia].
Qed.
(** The cached hash goes into a node without one. *)
Definition new_flag (hashed : node) (fl : nodeFlag) : nodeFlag :=
  mk_nodeFlag (match hashed with hashNode h => Some h | _ => None end) (dirty fl).
Lemma hash_flag b n t fl (hc hc' : Prop) :
  is_hash n = false -> hash fl = None -> flag_ok dbnode miss b t hc fl -> can t -> sized t -> nenc n = penc t -> hc' ->
  flag_ok dbnode miss b t hc' (new_flag (nodeToHash n b) fl)
  /\ (if b then nodeToHash n b = hashNode (phash t) else nenc (nodeToHash n b) = pref t)
  /\ (hash (new_flag (nodeToHash n b) fl) = None -> ~ big t) /\ (b = true -> hash (new_flag (nodeToHash n b) fl) = Some (phash t)).
Proof.
  intros Hn Hfl Hok Hc Hs E Hhc. assert (Hnode : is_node t) by (by destruct Hc). unfold flag_ok in Hok. rewrite Hfl in Hok.
  destruct (nodeToHash_spec b n t Hc Hs E) as [[-> Hb]|(-> & -> & Hb)]; unfold new_flag, flag_ok; cbn [hash dirty].
  - split; [|split; [destruct b; [done|]; rewrite pref_big; auto|done]]. split; [done|]. split; [done|]. split; [|done]. intros Hd. destruct (Hok Hd) as [-> Hnb].
    by destruct Hnb; apply Hb.
  - split; [by destruct n|]. split; [rewrite pref_small; [done|done|]; unfold big in Hb; lia|done].
Qed.
Definition hash_ok (b : bool) (t : ptrie) (r : outcome (node * node)) : Prop :=
  exists hd cd, r = Done (hd, cd) /\ loads b cd t /\ (if b then is_node t -> hd = hashNode (phash t) else nenc hd = pref t)
    /\ hashed cd t /\ (b = true -> is_node t -> is_hash cd = false -> (cache cd).1 = Some (phash t)).
Lemma hash_children_spec ns cs :
  Forall2 (fun n c => (forall b, loads b n c -> wf c -> sized c -> hash_ok b c (hash_ n b)) /\ loads false n c /\ wf c /\ sized c) ns cs ->
  exists hds cds, hash_children (map (fun n => (n, hash_ n)) ns) = Done (hds, cds)
    /\ Forall2 (loads false) cds cs /\ mjoin (map nenc hds) = mjoin (map pref cs) /\ Forall2 hashed cds cs.
Proof.
  induction 1 as [|n c ns cs (IHn & Hl & Hw & Hs) _ IH]; [exists [], []; by split_and!; [done|constructor| |constructor]|].
  destruct IH as (hds & cds & E & Hf & Hj & Hh). cbn [map hash_children]. rewrite E.
  assert (Hn : exists hd cd, (if isNil n then Done (nilValueNode, Nil) else hash_ n false) = Done (hd, cd) /\ loads false cd c /\ nenc hd = pref c /\ hashed cd c).
  { destruct (isNil n) eqn:En; [|destruct (IHn false Hl Hw Hs) as (hd & cd & ? & ? & ? & ? & _); by exists hd, cd].
    apply (loads_nil_inv _ _ _ _ _ Hl) in En as ->. exists nilValueNode, Nil. split; [done|]. split; [constructor|]. split; [done|constructor]. }
  destruct Hn as (hd & cd & -> & Hcd & Hhd & Hh1). exists (hd :: hds), (cd :: cds). split; [done|]. split; [by constructor|]. split; [|by constructor].
  cbn [map]. change (nenc hd ++ mjoin (map nenc hds) = pref c ++ mjoin (map pref cs)). by rewrite Hhd, Hj.
Qed.
(** The value of a branch is not hashed. *)
Lemma nenc_value n c : loads false n c -> ~ is_node c -> nenc n = pref c.
Proof. intros Hl Hn. inversion Hl; subst; try done. Qed.
Lemma hashed_value n c : loads false n c -> ~ is_node c -> hashed n c.
Proof. intros Hl Hn. inversion Hl; subst; try done; constructor. Qed.
Lemma hash_cached b n t h : loads b n t -> wf t -> (cache n).1 = Some h -> hash_ok b t (Done (hashNode h, n)).
Proof.
  intros Hl Hw E. exists (hashNode h), n. split; [done|]. split; [done|].
  inversion Hl as [| |? k n' c fl _ Hfl|? ns cs fl _ Hfl|]; subst; try done; cbn [cache fst] in E; unfold flag_ok in Hfl; rewrite E in Hfl;
    destruct Hfl as (-> & Hb & _ & Hh); (split; [destruct b; [done|]; by rewrite pref_big; [..|apply Hb]|]); (split; [|done]); constructor; try done; by rewrite E.
Qed.
(** The children of a node, hashed: [collapsed] has its encoding. *)
Definition hashes (n : node) (b : bool) (t : ptrie) : Prop := loads b n t -> wf t -> sized t -> hash_ok b t (hash_ n b).
Lemma hashFull_spec b ns fl cs :
  Forall (fun n => forall b t, hashes n b t) ns ->
  loads b (fullNode ns fl) (PFull cs) -> can (PFull cs) -> sized (PFull cs) ->
  exists hds cds, hashFullNodeChildren hash_ ns fl = Done (fullNode hds fl, fullNode cds fl)
    /\ Forall2 (loads false) cds cs /\ nenc (fullNode hds fl) = penc (PFull cs) /\ Forall2 hashed cds cs.
Proof.
  intros IH Hl Hc Hs. inversion Hl as [| | |? ? ? ? Hf Hfl|]; subst. pose proof Hc as (Hlen & Hcc & _)%can_full_inv.
  destruct (hash_children_spec (take 16 ns) (take 16 cs)) as (hds & cds & E & Hcds & Hj & Hh).
  { apply Forall2_take. apply Forall2_same_length_lookup. pose proof (Forall2_length _ _ _ Hf). split; [done|]. intros i n c Hn Hi.
    rewrite Forall_lookup in IH. split; [intros b' H1 H2 H3; exact (IH i n Hn b' c H1 H2 H3)|]. split; [by eapply Forall2_lookup_lr|]. split; [by eapply wf_child|by eapply sized_full]. }
  exists (hds ++ drop 16 ns), (cds ++ drop 16 ns).
  unfold hashFullNodeChildren. rewrite <- fmap_take. change (fmap (M:=list) (fun c => (c, hash_ c)) (take 16 ns)) with (map (fun c => (c, hash_ c)) (take 16 ns)).
  rewrite E. split; [done|]. split; [rewrite <- (take_drop 16 cs); apply Forall2_app; [done|by apply Forall2_drop]|].
  assert (Hv : mjoin (map nenc (drop 16 ns)) = mjoin (map pref (drop 16 cs)) /\ Forall2 hashed (drop 16 ns) (drop 16 cs)).
  { pose proof (Forall2_drop _ _ _ 16%nat Hf) as Hd. assert (Hnn : Forall (fun c => ~ is_node c) (drop 16 cs)).
    { apply Forall_lookup. intros i c Hi. rewrite lookup_drop in Hi. destruct (decide (c = PNil)) as [->|Hne]; [by intros []|].
      specialize (Hcc _ _ Hi Hne). rewrite (proj2 (Nat.ltb_ge _ _)) in Hcc by lia. destruct Hcc as (v & -> & _). by intros []. }
    clear - Hd Hnn. induction Hd as [|n c ns' cs' Hl _ IH]; [by split; [|constructor]|]. apply Forall_cons in Hnn as [Hn Hnn]. destruct (IH Hnn) as [Hj Hh].
    split; [|constructor; [by apply hashed_value|done]]. cbn [map].
    change (nenc n ++ mjoin (map nenc ns') = pref c ++ mjoin (map pref cs')). by rewrite (nenc_value _ _ Hl Hn), Hj. }
  destruct Hv as [Hv Hhv]. split; [|rewrite <- (take_drop 16 cs); by apply Forall2_app].
  cbn [nenc penc]. change (map (fun c => pref_of (penc c) c) cs) with (map pref cs). f_equal.
  rewrite <- (take_drop 16 cs) at 1. rewrite !map_app, !join_app, Hj, Hv. done.
Qed.
Lemma hashShort_spec k n fl c :
  (forall b t, hashes n b t) -> loads false n c -> can (PShort k c) -> sized (PShort k c) ->
  exists hd cd, hashShortNodeChildren hash_ k n fl = Done (shortNode (compact k) hd fl, shortNode k cd fl)
    /\ loads false cd c /\ nenc (shortNode (compact k) hd fl) = penc (PShort k c) /\ hashed cd c.
Proof.
  intros IH Hc Hcan Hs. destruct (compact_spec k c Hcan) as (Ek & _). unfold hashShortNodeChildren. rewrite Ek. cbn [mbind outcome_bind].
  destruct (IH false c Hc (wf_short _ _ Hcan) (sized_short _ _ Hs)) as (hd & cd & E & Hcd & Hhd & Hhc & _). rewrite E.
  assert (En : nenc (shortNode (compact k) hd fl) = penc (PShort k c)) by (cbn [nenc penc]; by rewrite Hhd).
  destruct n as [| | | h|v]; try (by exists hd, cd); cbn [hash_ cache fst] in E; injection E as <- <-; eexists _, _; done.
Qed.
Lemma hash_spec n : forall b t, hashes n b t.
Proof.
  induction n as [|ns fl IH|k n fl IH|h|v] using node_rect'; intros b t Hl Hw Hs.
  - inversion Hl; subst. exists Nil, Nil. split; [done|]. split; [done|]. split; [by destruct b|]. split; [constructor|done].
  - inversion Hl as [| | |? ? cs ? Hf Hfl|]; subst. apply wf_can in Hw. cbn [hash_].
    destruct ((cache (fullNode ns fl)).1) as [h|] eqn:Eh; [apply hash_cached; [done|by right; right|done]|].
    destruct (hashFull_spec b ns fl cs IH Hl Hw Hs) as (hds & cds & -> & Hcds & En & Hh). cbn [mbind outcome_bind fst snd].
    destruct (hash_flag b (fullNode hds fl) (PFull cs) fl _ (Forall2 hashed cds cs) eq_refl Eh Hfl Hw Hs En Hh) as (Hfl' & Hres & Hnone & Hsome).
    eexists _, _. split; [done|]. split; [by constructor|]. split; [by destruct b|]. split; [by constructor|]. auto.
  - inversion Hl as [| |? ? ? c ? Hc Hfl| |]; subst. apply wf_can in Hw. cbn [hash_].
    destruct ((cache (shortNode k n fl)).1) as [h|] eqn:Eh; [apply hash_cached; [done|by right; right|done]|].
    destruct (hashShort_spec k n fl c IH Hc Hw Hs) as (hd & cd & -> & Hcd & En & Hh). cbn [mbind outcome_bind fst snd].
    destruct (hash_flag b (shortNode (compact k) hd fl) (PShort k c) fl _ (hashed cd c) eq_refl Eh Hfl Hw Hs En Hh) as (Hfl' & Hres & Hnone & Hsome).
    eexists _, _. split; [done|]. split; [by constructor|]. split; [by destruct b|]. split; [by constructor|]. auto.
  - exists (hashNode h), (hashNode h). split; [done|]. split; [done|]. inversion Hl; subst. split; [destruct b; [done|]; by rewrite pref_big; auto|]. split; [constructor|done].
  - exists (valueNode v), (valueNode v). split; [done|]. split; [done|]. inversion Hl; subst. split; [by destruct b|]. split; [constructor|done].
Qed.
(** The node of a proof, and its hash unless it is small. *)
Lemma proofHash_spec b n t :
  loads b n t -> is_hash n = false -> can t -> sized t ->
  exists cl hn, proofHash n = Done (cl, hn) /\ nodeToBytes cl = penc t /\ (big t -> hn = hashNode (phash t)) /\ (~ big t -> is_hash hn = false).
Proof.
  intros Hl Hh Hc Hs. pose proof (penc_len t Hc Hs) as Hlen.
  assert (Hfin : forall cl, is_hash cl = false -> nenc cl = penc t -> nodeToBytes cl = penc t
    /\ (big t -> nodeToHash cl false = hashNode (phash t)) /\ (~ big t -> is_hash (nodeToHash cl false) = false)).
  { intros cl Hcl En. split; [rewrite nodeToBytes_spec; [done|rewrite En; lia]|].
    destruct (nodeToHash_spec false cl t Hc Hs En) as [[-> Hb]|(-> & _ & Hb)]; split; try done. intros Hnb. by destruct (Hnb (Hb eq_refl)). }
  inversion Hl as [|? v|? k n' c fl Hl' Hfl|? ns cs fl Hl' Hfl|]; subst; try (by inversion Hc).
  - destruct (hashShort_spec k n' fl c (hash_spec n') Hl' Hc Hs) as (hd & cd & E & _ & En & _). cbn [proofHash]. rewrite E. cbn [mbind outcome_bind fst snd].
    eexists _, _. split; [done|]. by apply Hfin.
  - destruct (hashFull_spec b ns fl cs) as (hds & cds & E & _ & En & _); [by apply Forall_true; apply hash_spec|done..|].
    cbn [proofHash]. rewrite E. cbn [mbind outcome_bind fst snd]. eexists _, _. split; [done|]. by apply Hfin.
Qed.
End hashing.
End TrieHash.
