(* ===== verification/TrieMap.v ===== *)
(** * A trie is a finite map

    [represents tr m]: the trie holds the map [m] from byte strings to byte strings
    that are not empty.  The operations are those of the map, and the root hash
    is a function of the map, whatever the history of the trie. *)

From stdpp Require Import base list numbers strings gmap.
From Stdlib Require Import ZArith Lia.
From S2P Require Import Prelude Bytes Rlp Enr EnrProps TrieKeys Trie TriePure TrieUpd TrieLoad TrieOps TrieHash.
Import Rlp Enr TrieKeys Trie TriePure TrieUpd TrieLoad TrieOps TrieHash.

Module TrieMap.

Abbreviation kvmap := (gmap (list Z) (list Z)).

(** ** Trees and maps *)
Definition rep (t : ptrie) (m : kvmap) : Prop :=
  (t = PNil \/ can t)
  /\ (forall s, bytes s -> pget t (keybytesToHex s) = m !! s)
  /\ (forall k v, pget t k = Some v -> exists s, bytes s /\ k = keybytesToHex s)
  /\ (forall s v, m !! s = Some v -> bytes s).
Definition sized_map (m : kvmap) : Prop := map_Forall (fun s v => len s <= 2 ^ 30 /\ len v <= 2 ^ 32 /\ bytes v) m.

Lemma rep_wf t m : rep t m -> wf t.
Proof. intros ([->|Hc] & _); [by left|by right; right]. Qed.
Lemma rep_empty : rep PNil ∅.
Proof. split; [by left|]. split; [by intros; rewrite lookup_empty|]. split; [done|]. intros s v Hs. by rewrite lookup_empty in Hs. Qed.
Lemma rep_unique t t' m : rep t m -> rep t' m -> t = t'.
Proof.
  intros H H'. apply can_unique; [by eapply rep_wf..|]. intros k. destruct H as (_ & Hg & Hk & _), H' as (_ & Hg' & Hk' & _).
  destruct (pget t k) as [v|] eqn:E.
  - destruct (Hk _ _ E) as (s & Hs & ->). rewrite Hg' by done. by rewrite <- E, Hg.
  - destruct (pget t' k) as [v|] eqn:E'; [|done]. destruct (Hk' _ _ E') as (s & Hs & ->). rewrite Hg' in E' by done. by rewrite Hg, E' in E.
Qed.
(** Trees of the same tree hold the same map. *)
Lemma rep_functional t m m' : rep t m -> rep t m' -> m = m'.
Proof.
  intros (_ & Hg & _ & Hm) (_ & Hg' & _ & Hm'). apply map_eq. intros s. destruct (m !! s) as [v|] eqn:E.
  - rewrite <- E, <- Hg' by eauto. symmetry. by rewrite Hg by eauto.
  - destruct (m' !! s) as [v|] eqn:E'; [|done]. assert (Hs : bytes s) by eauto. rewrite <- E', <- Hg', Hg in * by done. congruence.
Qed.
Lemma rep_sized t m : rep t m -> sized_map m -> sized t.
Proof.
  intros (_ & Hg & Hk & _) Hs k v E. destruct (Hk _ _ E) as (s & Hb & ->). rewrite Hg in E by done. destruct (Hs _ _ E) as (H1 & H2 & H3).
  split; [|done]. unfold keybytesToHex, maxSize, len in *. rewrite length_app, nibbles_of_length. simpl. lia.
Qed.
Lemma rep_slot t m s : rep t m -> bytes s -> slot (keybytesToHex s) t.
Proof. intros (Hc & _) Hs. left. split; [by apply is_key_hex|done]. Qed.
Lemma rep_upd t m s ov t' :
  rep t m -> bytes s -> upd t (keybytesToHex s) ov t' -> slot (keybytesToHex s) t' -> rep t' (partial_alter (fun _ => ov) s m).
Proof.
  intros (_ & Hg & Hk & Hm) Hs Hu Hsl. split; [|split_and!].
  - destruct Hsl as [[_ ?]|[E _]]; [done|]. by apply app_eq_nil in E as [_ ?].
  - intros s' Hs'. rewrite Hu. destruct (decide (s' = s)) as [->|Hne]; [by rewrite decide_True, lookup_partial_alter_eq|].
    rewrite lookup_partial_alter_ne by done. rewrite decide_False; [by apply Hg|]. by intros ?%keybytesToHex_inj.
  - intros k v E. rewrite Hu in E. destruct (decide (k = keybytesToHex s)) as [->|]; eauto.
  - intros s' v E. destruct (decide (s' = s)) as [->|Hne]; [done|]. rewrite lookup_partial_alter_ne in E by done. eauto.
Qed.

Section ops.
Context `{C : Crypto} {CL : CryptoLaws C}.
(** The database, and whether nodes may be missing in it. *)
Variable dbnode : list Z -> outcome (option node).
Variable miss : bool.

Definition represents (tr : Trie) (m : kvmap) : Prop := exists t, loads dbnode miss true (root tr) t /\ rep t m.
(** The root hash of a map. *)
Definition root_hash (m : kvmap) (h : list Z) : Prop :=
  exists t, rep t m /\ h = match t with PNil => emptyRoot | _ => phash t end.
Lemma root_hash_unique m h h' : root_hash m h -> root_hash m h' -> h = h'.
Proof. intros (t & Ht & ->) (t' & Ht' & ->). by rewrite (rep_unique _ _ _ Ht Ht'). Qed.

Lemma represents_empty : represents empty_trie ∅.
Proof. exists PNil. split; [constructor|apply rep_empty]. Qed.
Lemma need_fuel n k : (need n k <= fuel_of k)%nat.
Proof. unfold need, fuel_of. destruct (is_hash n); lia. Qed.

Lemma TryGet_spec tr m key :
  represents tr m -> bytes key ->
  exists r tr', TryGet dbnode key tr = Done (r, tr') /\ represents tr' m /\ (r = inr (m !! key) \/ exists e, r = inl e /\ miss_err dbnode miss e).
Proof.
  intros (t & Hl & Hr) Hk. unfold TryGet.
  destruct (tryGet_spec dbnode miss (fuel_of (keybytesToHex key)) true (root tr) t (keybytesToHex key) 0 Hl) as (r & E & Hres);
    [by eapply rep_slot|lia|apply need_fuel|]. rewrite E. cbn [mbind outcome_bind].
  destruct r as [e|[[v n'] d]].
  - eexists _, _. split; [done|]. split; [by exists t|]. right. eauto.
  - destruct Hres as (-> & Hl' & _). eexists _, _. split; [done|]. split; [destruct d; by exists t|]. left. f_equal. by apply Hr.
Qed.
(** The map after an update: the empty value deletes. *)
Definition update_map (key value : list Z) (m : kvmap) : kvmap :=
  if decide (value = []) then base.delete key m else <[key := value]> m.
Definition write_ok (tr : Trie) (m m' : kvmap) (r : outcome (option trieErr * Trie)) : Prop :=
  exists e tr', r = Done (e, tr') /\ match e with None => represents tr' m' | Some e => miss_err dbnode miss e /\ root tr' = root tr /\ represents tr' m end.
Lemma TryDelete_spec tr m key : represents tr m -> bytes key -> write_ok tr m (base.delete key m) (TryDelete dbnode key tr).
Proof.
  intros (t & Hl & Hr) Hk. unfold TryDelete. cbn [root].
  destruct (delete_spec dbnode miss (fuel_of (keybytesToHex key)) true (root tr) t (keybytesToHex key) [] Hl) as (r & E & Hres);
    [by eapply rep_slot|apply need_fuel|]. rewrite E. cbn [mbind outcome_bind].
  destruct r as [e|[d n']]; eexists _, _; (split; [done|]).
  - split; [done|]. split; [done|]. by exists t.
  - destruct Hres as (t' & Hs' & Hu & Hl' & _). exists t'. split; [done|]. by eapply rep_upd.
Qed.
Lemma TryUpdate_spec tr m key value : represents tr m -> bytes key -> write_ok tr m (update_map key value m) (TryUpdate dbnode key value tr).
Proof.
  intros Hrep Hk. unfold update_map. destruct (decide (value = [])) as [->|Hv].
  - pose proof (TryDelete_spec tr m key Hrep Hk) as Hd. exact Hd.
  - destruct Hrep as (t & Hl & Hr). unfold TryUpdate. cbn [root].
    assert ((len value =? 0) = false) as -> by (apply Z.eqb_neq; unfold len; by destruct value). cbn [negb].
    destruct (insert_spec dbnode miss (fuel_of (keybytesToHex key)) true (root tr) t (keybytesToHex key) [] value Hl) as (r & E & Hres);
      [by eapply rep_slot|done|apply need_fuel|]. rewrite E. cbn [mbind outcome_bind].
    destruct r as [e|[d n']]; eexists _, _; (split; [done|]).
    + split; [done|]. split; [done|]. by exists t.
    + destruct Hres as (t' & Hs' & _ & Hu & Hl' & _). exists t'. split; [done|]. by eapply rep_upd.
Qed.
Lemma Hash_spec tr m : represents tr m -> sized_map m -> exists h tr', Hash tr = Done (h, tr') /\ root_hash m h /\ represents tr' m.
Proof.
  intros (t & Hl & Hr) Hs. pose proof (hash_spec dbnode miss (root tr) true t Hl (rep_wf _ _ Hr) (rep_sized _ _ Hr Hs)) as (hd & cd & E & Hcd & Hhd & _).
  unfold Hash, hashRoot. destruct (decide (t = PNil)) as [->|Hne].
  - assert (Er : root tr = Nil) by (inversion Hl as [| | | |? ? Hn]; [congruence|destruct Hn]). exists emptyRoot, (mk_Trie Nil (unhashed tr)).
    split; [unfold mbind, GoM_bind; by rewrite Er|]. split; [by exists PNil|]. exists PNil. split; [constructor|done].
  - assert (Hn : is_node t) by (destruct Hr as ([?|Hc] & _); [done|by destruct Hc]). rewrite Hhd in E by done.
    exists (phash t), (mk_Trie cd 0). split; [|split].
    + unfold mbind, GoM_bind. destruct (root tr); [inversion Hl; by subst|..]; rewrite E; cbn; by rewrite BytesToHash_hash.
    + exists t. split; [done|]. by destruct t.
    + by exists t.
Qed.
End ops.
End TrieMap.
