(* ===== verification/TrieDecode.v ===== *)
(** * Decoding nodes *)

From stdpp Require Import base list numbers strings relations.
From Stdlib Require Import ZArith Lia.
From S2P Require Import Prelude Bytes Rlp RlpProps Enr EnrProps TrieKeys Trie TriePure TrieUpd TrieLoad TrieOps TrieHash.
Import Rlp RlpProps Enr TrieKeys Trie TriePure TrieUpd TrieLoad TrieOps TrieHash.

Module TrieDecode.

Lemma enc_string_value b : bytes b -> exists k c, is_value k c (enc_string b).
Proof.
  intros Hb. destruct b as [|x [|y b]]; [by exists String_, []| |by exists String_, (x :: y :: b)].
  apply Forall_cons in Hb as [Hx _]. unfold is_byte in Hx. destruct (Z.leb_spec x 127) as [Hle|Hgt].
  - exists Byte, [x]. exists x. cbn [enc_string]. rewrite (proj2 (Z.leb_le _ _)) by done. split_and!; (done || lia).
  - exists String_, [x]. split; [|done]. intros z [= <-]. lia.
Qed.
Lemma mjoin_concat (l : list (list Z)) : mjoin l = List.concat l.
Proof. induction l as [|x l IH]; [done|]. change (x ++ mjoin l = x ++ List.concat l). by rewrite IH. Qed.
Lemma enc_list_bytes c : bytes c -> bytes (enc_list c).
Proof. intros Hc. apply Forall_app. split; [apply puthead_bytes|done]. Qed.
Lemma SplitList_enc c rest : bytes (c ++ rest) -> len (enc_list c ++ rest) < 2 ^ 64 -> SplitList (enc_list c ++ rest) = inr (c, rest).
Proof.
  intros [Hc Hr]%Forall_app Hl. unfold SplitList. assert (E : Split (enc_list c ++ rest) = inr (List_, c, rest)).
  { apply split_exact; [apply Forall_app; split; [by apply enc_list_bytes|done]|done|]. by exists (enc_list c). }
  by rewrite E.
Qed.

Section decode.
Context `{C : Crypto} {CL : CryptoLaws C}.

Lemma pref_value c : wf c -> bytes (penc c) -> (forall v, c = PVal v -> bytes v) -> bytes (pref c) /\ exists k ct, is_value k ct (pref c).
Proof.
  intros Hw Hb Hv. assert (Hs : forall b, bytes b -> bytes (enc_string b) /\ exists k ct, is_value k ct (enc_string b)).
  { intros b Hbb. split; [by apply EnrProps.enc_string_bytes|by apply enc_string_value]. }
  unfold pref, pref_of. destruct c as [|v|k c|cs].
  - apply (Hs []). constructor.
  - apply Hs. by apply Hv.
  - case_match; [|apply Hs, Keccak256_bytes]. split; [done|]. exists List_. by eexists.
  - case_match; [|apply Hs, Keccak256_bytes]. split; [done|]. exists List_. by eexists.
Qed.
Lemma penc_bytes t : wf t -> sized t -> bytes (penc t).
Proof.
  induction t as [|v|k c IH|cs IH] using ptrie_rect'; intros Hw Hs; [constructor..| |].
  - apply wf_can in Hw. cbn [penc]. apply enc_list_bytes, Forall_app. destruct (compact_spec k c Hw) as (_ & Hk & _).
    split; [by apply EnrProps.enc_string_bytes|]. apply pref_value; [by eapply wf_short|apply IH; [by eapply wf_short|by eapply sized_short]|].
    intros v ->. apply sized_short, sized_val in Hs. by destruct Hs.
  - apply wf_can in Hw. cbn [penc]. apply enc_list_bytes. change (map (fun c => pref_of (penc c) c) cs) with (map pref cs).
    assert (Hp : Forall (fun c => bytes (pref c)) cs).
    { apply Forall_lookup. intros i c Hi. rewrite Forall_lookup in IH.
      apply pref_value; [by eapply wf_child|apply (IH i c Hi); [by eapply wf_child|by eapply sized_full]|].
      intros v ->. by apply (sized_full _ _ _ Hs), sized_val in Hi as []. }
    clear - Hp. induction Hp as [|c cs Hc _ IH]; [constructor|]. apply Forall_app. by split.
Qed.
Lemma child_pref c : wf c -> sized c -> bytes (pref c) /\ exists k ct, is_value k ct (pref c).
Proof. intros Hw Hs. apply pref_value; [done|by apply penc_bytes|]. intros v ->. by apply sized_val in Hs as []. Qed.

(** ** References *)
Lemma decodeRef_pref rec c rest :
  (c = PNil \/ can c) -> sized c -> bytes rest -> len (pref c ++ rest) < 2 ^ 64 ->
  (is_node c -> (length (penc c) < 32)%nat -> rec None (penc c ++ rest) = Done (inr (enode None c))) ->
  decodeRef rec (pref c ++ rest) = Done (inr (eref c, rest)).
Proof.
  intros Hc Hs Hr Hl Hrec. unfold decodeRef. assert (Hw : wf c) by (destruct Hc; [by left|by right; right]).
  destruct (child_pref c Hw Hs) as [Hb _]. assert (Hbb : bytes (pref c ++ rest)) by (by apply Forall_app).
  destruct Hc as [->|Hc].
  - assert (E : Split (pref PNil ++ rest) = inr (String_, [], rest)) by (apply split_exact; [done..|]; by exists (pref PNil)). by rewrite E.
  - assert (Hn : is_node c) by (by destruct Hc). destruct (decide (length (penc c) < 32)%nat) as [Hlt|Hge].
    + rewrite pref_small in * by done.
      assert (E : exists ct, Split (penc c ++ rest) = inr (List_, ct, rest)).
      { destruct c as [| |k c|cs]; try done; eexists; (apply split_exact; [done..|]); eexists; (split; [|done]); done. }
      destruct E as [ct ->]. rewrite len_app. replace (len (penc c) + len rest - len rest) with (len (penc c)) by lia.
      rewrite (proj2 (Z.ltb_ge _ _)) by (unfold hashLen, len; lia). rewrite Hrec by done. cbn [mbind outcome_bind].
      unfold eref, eref_of. destruct c; try done; by rewrite (proj2 (Nat.ltb_lt _ _)).
    + assert (Hbig : big c) by (unfold big; lia). rewrite pref_big in * by done.
      assert (E : Split (enc_string (phash c) ++ rest) = inr (String_, phash c, rest)).
      { apply split_exact; [done..|]. exists (enc_string (phash c)). split; [|done]. split; [|done]. intros x E.
        apply (f_equal length) in E. unfold phash in E. by rewrite Keccak256_len in E. }
      rewrite E. assert (Hl32 : len (phash c) = 32) by (unfold len, phash; by rewrite Keccak256_len). rewrite Hl32. simpl.
      unfold eref, eref_of. destruct c; try done; by rewrite (proj2 (Nat.ltb_ge _ _)).
Qed.

(** ** Nodes *)
Lemma hexKey_term term ns : nibbles ns -> hasTerm (hexKey term ns) = term.
Proof. apply hasTerm_hexKey. Qed.
Lemma decodeShort_spec rec h k c :
  can (PShort k c) -> sized (PShort k c) ->
  (is_node c -> (length (penc c) < 32)%nat -> rec None (penc c) = Done (inr (enode None c))) ->
  decodeShort rec h (enc_string (compact k) ++ pref c) = Done (inr (enode h (PShort k c))).
Proof.
  intros Hc Hs Hrec. unfold decodeShort. destruct (compact_spec k c Hc) as (_ & Hkb & Hk & Hkl). pose proof (wf_short _ _ Hc) as Hw.
  destruct (child_pref c Hw (sized_short _ _ Hs)) as [Hpb _]. pose proof (penc_len _ Hc Hs) as Hl. cbn [penc] in Hl.
  pose proof (enc_list_holds (enc_string (compact k) ++ pref c)) as Hcl. fold (pref c) in Hl.
  assert (E : SplitString (enc_string (compact k) ++ pref c) = inr (compact k, pref c)).
  { apply SplitString_exact; [apply Forall_app; split; [by apply EnrProps.enc_string_bytes|done]|lia|done]. }
  rewrite E, Hk. destruct (short_key k c Hc) as (term & ns & -> & Hn & Hterm). rewrite hasTerm_hexKey by done.
  rewrite len_app in Hcl. pose proof (len_nonneg (enc_string (compact (hexKey term ns)))).
  destruct term.
  - destruct (proj1 Hterm eq_refl) as [v ->].
    assert (Ev : SplitString (pref (PVal v)) = inr (v, [])) by (apply SplitString_exact; [done|lia|by rewrite app_nil_r]). by rewrite Ev.
  - rewrite <- (app_nil_r (pref c)). rewrite (decodeRef_pref rec c []); [done| |by eapply sized_short|constructor|rewrite app_nil_r; lia|by rewrite app_nil_r].
    right. inversion Hc as [ns' v E1|k1 cs Hk1 Hne Hf E1|]; subst; [|done]. by assert (false = true) by (apply Hterm; eauto).
Qed.
Lemma decodeFull_loop_spec rec ixs cs rest :
  length ixs = length cs -> Forall (fun c => (c = PNil \/ can c) /\ sized c) cs -> bytes rest -> len (mjoin (map pref cs) ++ rest) < 2 ^ 64 ->
  (forall c r, c ∈ cs -> bytes r -> len (pref c ++ r) <= len (mjoin (map pref cs) ++ rest) -> is_node c -> (length (penc c) < 32)%nat ->
    rec None (penc c ++ r) = Done (inr (enode None c))) ->
  decodeFull_loop rec ixs (mjoin (map pref cs) ++ rest) = Done (inr (map eref cs, rest)).
Proof.
  intros Hlen Hcs Hr. revert ixs Hlen. induction Hcs as [|c cs [Hc Hs] Hcs IH]; intros [|i ixs] Hlen Hl Hrec; try done.
  cbn [decodeFull_loop map] in *. change (mjoin (pref c :: map pref cs)) with (pref c ++ mjoin (map pref cs)) in *. rewrite <- app_assoc in *.
  assert (Hbs : bytes (mjoin (map pref cs) ++ rest)).
  { apply Forall_app. split; [|done]. clear - Hcs CL. induction Hcs as [|c cs [Hc Hs] _ IH]; [constructor|]. apply Forall_app. split; [|done].
    apply child_pref; [|done]. destruct Hc; [by left|by right; right]. }
  rewrite len_app in Hl. pose proof (len_nonneg (pref c)).
  rewrite decodeRef_pref; [|done|done|done|rewrite len_app; lia|intros; apply Hrec; [left|done..]]. cbn [wrapped mbind outcome_bind].
  rewrite (IH ixs); [done|by injection Hlen|lia|]. intros c' r Hc' Hbr Hlr. apply Hrec; [by right|done|]. rewrite (len_app (pref c)). lia.
Qed.
Lemma decodeFull_spec rec h cs :
  can (PFull cs) -> sized (PFull cs) ->
  (forall c r, c ∈ cs -> bytes r -> len (pref c ++ r) <= len (mjoin (map pref cs)) -> is_node c -> (length (penc c) < 32)%nat ->
    rec None (penc c ++ r) = Done (inr (enode None c))) ->
  decodeFull rec h (mjoin (map pref cs)) = Done (inr (enode h (PFull cs))).
Proof.
  intros Hc Hs Hrec. pose proof Hc as (Hlen & Hcc & _)%can_full_inv.
  assert (Hcs : exists cs' d, cs = cs' ++ [d] /\ length cs' = 16%nat).
  { destruct (exists_last (l := cs)) as (cs' & d & ->); [by destruct cs|]. exists cs', d. rewrite length_app in Hlen. simpl in Hlen. split; [done|lia]. }
  destruct Hcs as (cs' & d & -> & Hlen'). unfold decodeFull. rewrite map_app, join_app in *.
  assert (Ej : mjoin (map pref [d]) = pref d) by (cbn; by rewrite app_nil_r). rewrite Ej in *.
  assert (Hd : (d = PNil \/ exists v, d = PVal v /\ v <> []) /\ sized d).
  { split; [|apply (sized_full _ 16 _ Hs); rewrite lookup_app_r, Hlen' by lia; done].
    destruct (decide (d = PNil)) as [->|Hne]; [by left|right]. apply (Hcc 16%nat d); [rewrite lookup_app_r, Hlen' by lia; done|done]. }
  assert (Hwd : wf d) by (destruct Hd as [[->|Hd] _]; [by left|by right; left]). destruct Hd as [Hd Hsd].
  destruct (child_pref d Hwd Hsd) as [Hpd _].
  pose proof (penc_len _ Hc Hs) as Hl. cbn [penc] in Hl. change (fun c => pref_of (penc c) c) with pref in Hl.
  rewrite map_app, join_app, Ej in Hl. pose proof (enc_list_holds (mjoin (map pref cs') ++ pref d)).
  rewrite decodeFull_loop_spec; [|by rewrite Hlen'| |done|lia|].
  - cbn [mbind outcome_bind]. assert (Ed : SplitString (pref d) = inr (match d with PVal v => v | _ => [] end, [])).
    { rewrite len_app in *. pose proof (len_nonneg (mjoin (map pref cs'))). apply SplitString_exact; [done|lia|].
      rewrite app_nil_r. destruct Hd as [->|(v & -> & _)]; done. }
    rewrite Ed. do 3 f_equal. cbn [enode]. change (fun c => eref_of (enode None c) c) with eref. rewrite map_app. f_equal. cbn [map]. f_equal.
    destruct Hd as [->|(v & -> & Hv)]; [done|]. by destruct v.
  - apply Forall_lookup. intros i c Hi. assert (Hi' : (cs' ++ [d]) !! i = Some c) by (by apply lookup_app_l_Some).
    split; [|by eapply sized_full]. destruct (decide (c = PNil)) as [->|Hne]; [by left|right]. specialize (Hcc _ _ Hi' Hne).
    apply lookup_lt_Some in Hi. by rewrite (proj2 (Nat.ltb_lt _ _)) in Hcc by lia.
  - intros c r Hin. apply Hrec. apply elem_of_app. by left.
Qed.
Lemma enc_list_lt c : len c < 2 ^ 64 -> len c < len (enc_list c).
Proof.
  intros Hc. pose proof (len_nonneg c). pose proof (headsize_bounds (len c) ltac:(lia)). unfold enc_list. rewrite len_app, puthead_len by lia. lia.
Qed.
Lemma decode_node_list f h content rest :
  bytes content -> bytes rest -> len (enc_list content) + len rest < 2 ^ 64 ->
  decode_node (S f) h (enc_list content ++ rest) =
    let c := match CountValues content with inl _ => 0 | inr c => c end in
    if c =? 2 then wrapped "short" (decodeShort (decode_node f) h content)
    else if c =? 17 then wrapped "full" (decodeFull (decode_node f) h content)
    else Done (inl (invalidCount c)).
Proof.
  intros Hc Hr Hl. cbn [decode_node]. destruct (enc_list content ++ rest) as [|x l] eqn:E.
  - apply app_eq_nil in E as [E _]. pose proof (enc_list_holds content) as H. pose proof (len_nonneg content). pose proof (len_nonneg rest).
    pose proof (enc_list_lt content ltac:(lia)). rewrite E, len_nil in *. lia.
  - rewrite <- E, SplitList_enc; [done|by apply Forall_app|by rewrite len_app].
Qed.
(** The encoding of a tree is decoded to its node, with references for what is
    not small. *)
Lemma decode_node_spec t : forall fuel h rest,
  can t -> sized t -> bytes rest -> len (penc t ++ rest) < 2 ^ 64 -> (length (penc t) < fuel)%nat ->
  decode_node fuel h (penc t ++ rest) = Done (inr (enode h t)).
Proof.
  induction t as [|v|k c IH|cs IH] using ptrie_rect'; intros [|f] h rest Hc Hs Hr Hl Hf; try lia; try (by inversion Hc).
  - pose proof (penc_bytes _ (or_intror (or_intror Hc)) Hs) as Hb. cbn [penc] in *. fold (pref c) in *.
    set (content := enc_string (compact k) ++ pref c) in *. pose proof (enc_list_holds content) as Hcl.
    apply Forall_app in Hb as [_ Hb]. rewrite len_app in Hl. pose proof (len_nonneg rest).
    destruct (child_pref c (wf_short _ _ Hc) (sized_short _ _ Hs)) as [_ Hv]. destruct (compact_spec k c Hc) as (_ & Hkb & _).
    assert (Hn : CountValues content = inr 2).
    { apply count_exact; [done|lia|]. exists [enc_string (compact k); pref c]. split; [|by cbn; rewrite app_nil_r].
      constructor; [by apply enc_string_value|]. by constructor. }
    rewrite decode_node_list by (done || lia). rewrite Hn. cbv zeta. cbn [Z.eqb Pos.eqb]. unfold content at 1. rewrite decodeShort_spec; [done|done|done|].
    intros Hcn Hlt. rewrite <- (app_nil_r (penc c)). apply IH; [by inversion Hc; subst|by eapply sized_short|constructor|rewrite app_nil_r; unfold len; lia|].
    pose proof (enc_list_lt content ltac:(lia)). unfold content, len in *. rewrite length_app in *. rewrite (pref_small c) in * by done. lia.
  - pose proof (penc_bytes _ (or_intror (or_intror Hc)) Hs) as Hb. cbn [penc] in *. change (fun c => pref_of (penc c) c) with pref in *.
    set (content := mjoin (map pref cs)) in *. pose proof (enc_list_holds content) as Hcl.
    apply Forall_app in Hb as [_ Hb]. rewrite len_app in Hl. pose proof (len_nonneg rest). pose proof Hc as (Hlen & _)%can_full_inv.
    assert (Hn : CountValues content = inr 17).
    { apply count_exact; [done|lia|]. exists (map pref cs). split; [|split; [apply mjoin_concat|unfold len; by rewrite length_map, Hlen]].
      apply Forall_fmap, Forall_lookup. intros i c Hi. apply child_pref; [by eapply wf_child|by eapply sized_full]. }
    rewrite decode_node_list by (done || lia). rewrite Hn. cbv zeta. cbn [Z.eqb Pos.eqb]. unfold content at 1. rewrite decodeFull_spec; [done|done|done|].
    intros c r [i Hi]%list_elem_of_lookup Hbr Hlr Hcn Hlt. rewrite Forall_lookup in IH. rewrite pref_small in Hlr by done.
    pose proof (enc_list_lt content ltac:(lia)). fold content in Hlr. rewrite len_app in Hlr. pose proof (len_nonneg r).
    apply (IH i c Hi); [|by eapply sized_full|done|rewrite len_app; lia|unfold len in *; lia].
    destruct (wf_child _ _ _ Hc Hi) as [->|[(v & -> & _)|?]]; [by destruct Hcn..|done].
Qed.
Lemma decodeNode_spec t h : can t -> sized t -> decodeNode h (penc t) = Done (inr (enode h t)).
Proof.
  intros Hc Hs. unfold decodeNode. rewrite <- (app_nil_r (penc t)) at 2. apply decode_node_spec; [done|done|constructor| |lia].
  rewrite app_nil_r. pose proof (penc_len t Hc Hs). lia.
Qed.
End decode.

(** ** Decoding ends on every input *)
Definition finishes {A} (r : outcome (nodeErr + A)) (P : A -> Prop) : Prop :=
  exists x, r = Done x /\ match x with inl _ => True | inr a => P a end.
Lemma finishes_wrapped {A} ctx (r : outcome (nodeErr + A)) P : finishes r P -> finishes (wrapped ctx r) P.
Proof. intros (x & -> & Hx). destruct x as [e|a]; [by exists (inl (wrapError e ctx))|by exists (inr a)]. Qed.
Definition shorter (a b : list Z) : Prop := bytes a /\ (length a <= length b)%nat.
Lemma Split_shorter b k c rest :
  bytes b -> len b < 2 ^ 64 -> Split b = inr (k, c, rest) -> shorter rest b /\ (k = List_ -> bytes c /\ (length c < length b)%nat).
Proof.
  intros Hb Hl E. apply split_exact in E as (enc & Hv & ->); [|done..]. apply Forall_app in Hb as [He Hr]. rewrite len_app in Hl.
  pose proof (len_nonneg rest). split; [split; [done|rewrite length_app; lia]|]. intros ->. simpl in Hv. subst enc. pose proof (enc_list_holds c).
  pose proof (enc_list_lt c ltac:(lia)) as Hlt. apply Forall_app in He as [_ Hc]. split; [done|]. rewrite length_app. unfold len in Hlt. lia.
Qed.
Lemma SplitString_shorter b c rest : bytes b -> len b < 2 ^ 64 -> SplitString b = inr (c, rest) -> shorter rest b.
Proof.
  intros Hb Hl E. unfold SplitString in E. destruct (Split b) as [e|[[k c'] r]] eqn:Es; [done|].
  apply Split_shorter in Es as [Hs _]; [|done..]. destruct k; try done; by injection E as _ <-.
Qed.
Lemma shorter_len a b : shorter a b -> len b < 2 ^ 64 -> len a < 2 ^ 64.
Proof. intros [_ H]. unfold len. lia. Qed.
Lemma shorter_trans a b c : shorter a b -> shorter b c -> shorter a c.
Proof. intros [H1 H2] [H3 H4]. split; [done|lia]. Qed.
Section total.
Variable rec : option (list Z) -> list Z -> outcome (nodeErr + node).
Variable top : list Z.
Hypothesis Htop : len top < 2 ^ 64.
Hypothesis Hrec : forall b, shorter b top -> finishes (rec None b) (fun _ => True).
Lemma decodeRef_total buf : shorter buf top -> finishes (decodeRef rec buf) (fun r => shorter r.2 top).
Proof.
  intros Hb. unfold decodeRef. destruct (Split buf) as [e|[[k c] rest]] eqn:E; [by eexists|].
  apply Split_shorter in E as [Hr _]; [|by destruct Hb|by eapply shorter_len]. pose proof (shorter_trans _ _ _ Hr Hb) as Hr'.
  destruct k; [by eexists| |].
  - destruct (len c =? 0); [by eexists|]. destruct (len c =? 32); by eexists.
  - destruct (hashLen <? len buf - len rest); [by eexists|]. destruct (Hrec buf Hb) as (x & -> & _). destruct x; by eexists.
Qed.
Lemma decodeFull_loop_total ixs : forall buf, shorter buf top -> finishes (decodeFull_loop rec ixs buf) (fun r => shorter r.2 top).
Proof.
  induction ixs as [|i ixs IH]; intros buf Hb; cbn [decodeFull_loop]; [by eexists|].
  destruct (finishes_wrapped i _ _ (decodeRef_total buf Hb)) as (x & -> & Hx). cbn [mbind outcome_bind]. destruct x as [e|[n rest]]; [by eexists|].
  destruct (IH rest Hx) as (y & -> & Hy). cbn [mbind outcome_bind]. destruct y as [e|[ns rest']]; by eexists.
Qed.
Lemma decodeFull_total h buf : shorter buf top -> finishes (decodeFull rec h buf) (fun _ => True).
Proof.
  intros Hb. unfold decodeFull. destruct (decodeFull_loop_total child_names buf Hb) as (x & -> & Hx). cbn [mbind outcome_bind].
  destruct x as [e|[ns rest]]; [by eexists|]. destruct (SplitString rest) as [e|[v r]]; by eexists.
Qed.
Lemma decodeShort_total h buf : shorter buf top -> finishes (decodeShort rec h buf) (fun _ => True).
Proof.
  intros Hb. unfold decodeShort. destruct (SplitString buf) as [e|[k rest]] eqn:E; [by eexists|].
  apply SplitString_shorter in E; [|by destruct Hb|by eapply shorter_len]. pose proof (shorter_trans _ _ _ E Hb) as Hr.
  destruct (hasTerm (compactToHex k)); [destruct (SplitString rest) as [e|[v r]]; by eexists|].
  destruct (finishes_wrapped "val" _ _ (decodeRef_total rest Hr)) as (x & -> & _). destruct x as [e|[n r]]; by eexists.
Qed.
End total.
Lemma decode_node_total fuel : forall h buf, bytes buf -> len buf < 2 ^ 64 -> (length buf < fuel)%nat -> finishes (decode_node fuel h buf) (fun _ => True).
Proof.
  induction fuel as [|f IH]; intros h buf Hb Hl Hf; [lia|]. cbn [decode_node]. destruct buf as [|x buf]; [by eexists|].
  unfold SplitList. destruct (Split (x :: buf)) as [e|[[k c] rest]] eqn:E; [by eexists|].
  apply Split_shorter in E as [_ Hc]; [|done..]. destruct k; [by eexists..|]. destruct (Hc eq_refl) as [Hcb Hcl].
  assert (Htop : len c < 2 ^ 64) by (unfold len in *; lia).
  assert (Hrec : forall b, shorter b c -> finishes (decode_node f None b) (fun _ => True)).
  { intros b [Hbb Hbl]. apply IH; [done|unfold len in *; lia|lia]. }
  assert (Hcc : shorter c c) by (by split). cbv zeta. generalize (match CountValues c with inl _ => 0 | inr n => n end). intros n.
  destruct (n =? 2); [apply finishes_wrapped, (decodeShort_total _ c); done|].
  destruct (n =? 17); [apply finishes_wrapped, (decodeFull_total _ c); done|]. by eexists.
Qed.
Lemma decodeNode_total h buf : bytes buf -> len buf < 2 ^ 64 -> exists r, decodeNode h buf = Done r.
Proof. intros Hb Hl. destruct (decode_node_total (S (length buf)) h buf Hb Hl) as (r & E & _); [lia|eauto]. Qed.
End TrieDecode.
