(* ===== verification/TrieBind.v ===== *)
(** * The root hash binds the contents

    Trees with the same hash are the same, unless the hash function has a
    collision among the encodings of their nodes. *)

From stdpp Require Import base list numbers strings relations gmap.
From Stdlib Require Import ZArith Lia.
From S2P Require Import Prelude Bytes Rlp Enr EnrProps TrieKeys Trie TriePure TrieUpd TrieLoad TrieOps TrieHash TrieDecode TrieMap.
Import Rlp Enr TrieKeys Trie TriePure TrieUpd TrieLoad TrieOps TrieHash TrieDecode TrieMap.

Module TrieBind.

Lemma list_eq_or {A} (P : Prop) (l l' : list A) :
  length l = length l' -> (forall i x y, l !! i = Some x -> l' !! i = Some y -> x = y \/ P) -> l = l' \/ P.
Proof.
  revert l'. induction l as [|x l IH]; intros [|y l'] Hlen Hl; try done; [by left|].
  destruct (Hl 0%nat x y) as [->|?]; [done..| |by right]. destruct (IH l') as [->|?]; [by injection Hlen| |by left|by right].
  intros i. apply (Hl (S i)).
Qed.

Section bind.
Context `{C : Crypto} {CL : CryptoLaws C}.

(** Nodes of the two trees with different encodings and the same hash. *)
Definition clash (t1 t2 : ptrie) : Prop :=
  exists s1 s2, rtc child_of s1 t1 /\ rtc child_of s2 t2 /\ penc s1 <> penc s2 /\ phash s1 = phash s2.
Lemma clash_child c1 c2 t1 t2 : child_of c1 t1 -> child_of c2 t2 -> clash c1 c2 -> clash t1 t2.
Proof.
  intros H1 H2 (s1 & s2 & Hs1 & Hs2 & Hn & Hh). exists s1, s2. split_and!; [by eapply rtc_r|by eapply rtc_r|done..].
Qed.
Definition same_or_clash (t1 t2 : ptrie) : Prop := t1 = t2 \/ clash t1 t2.
Definition enode_injective (t1 : ptrie) : Prop :=
  forall t2, wf t1 -> wf t2 -> sized t1 -> sized t2 -> enode None t1 = enode None t2 -> same_or_clash t1 t2.
Lemma phash_inj t1 t2 : enode_injective t1 -> can t1 -> can t2 -> sized t1 -> sized t2 -> phash t1 = phash t2 -> same_or_clash t1 t2.
Proof.
  intros IH H1 H2 S1 S2 E. destruct (decide (penc t1 = penc t2)) as [Ep|Hne].
  - apply IH; [by right; right..|done|done|]. pose proof (decodeNode_spec t1 None H1 S1) as D1. pose proof (decodeNode_spec t2 None H2 S2) as D2.
    rewrite Ep in D1. congruence.
  - right. exists t1, t2. done.
Qed.
Lemma eref_inj c1 c2 : enode_injective c1 -> wf c1 -> wf c2 -> sized c1 -> sized c2 -> eref c1 = eref c2 -> same_or_clash c1 c2.
Proof.
  intros IH H1 H2 S1 S2 E.
  assert (Hcases : forall c, wf c -> (eref c = enode None c /\ is_hash (enode None c) = false) \/ (eref c = hashNode (phash c) /\ can c)).
  { intros c Hw. unfold eref, eref_of. destruct c; [by left..| |]; (case_match; [by left|right]); by apply wf_can in Hw. }
  destruct (Hcases c1 H1) as [[E1 N1]|[E1 K1]], (Hcases c2 H2) as [[E2 N2]|[E2 K2]]; rewrite E1, E2 in E.
  - by apply IH.
  - by rewrite E in N1.
  - by rewrite <- E in N2.
  - injection E as E. by apply phash_inj.
Qed.
Lemma enode_inj t1 : enode_injective t1.
Proof.
  induction t1 as [|v|k c IH|cs IH] using ptrie_rect'; intros t2 H1 H2 S1 S2 E; destruct t2 as [|v2|k2 c2|cs2]; try done; cbn [enode] in E.
  - by left.
  - injection E as ->. by left.
  - injection E as -> E. apply wf_can in H1, H2.
    destruct (eref_inj c c2 IH (wf_short _ _ H1) (wf_short _ _ H2) (sized_short _ _ S1) (sized_short _ _ S2) E) as [->|Hc]; [by left|].
    right. eapply clash_child; [constructor..|done].
  - injection E as E. change (map eref cs = map eref cs2) in E. apply wf_can in H1, H2. rewrite Forall_lookup in IH.
    assert (Hlen : length cs = length cs2) by (apply (f_equal length) in E; by rewrite !length_map in E).
    destruct (list_eq_or (clash (PFull cs) (PFull cs2)) cs cs2 Hlen) as [->|Hc]; [|by left|by right].
    intros i c c2 Hi Hi2. destruct (eref_inj c c2 (IH i c Hi)) as [?|Hc]; [exact (wf_child _ _ _ H1 Hi)|exact (wf_child _ _ _ H2 Hi2)|exact (sized_full _ _ _ S1 Hi)|exact (sized_full _ _ _ S2 Hi2)| |by left|].
    + apply (f_equal (fun l => l !! i)) in E. rewrite !list_lookup_fmap, Hi, Hi2 in E. by injection E.
    + right. eapply clash_child; [by econstructor..|done].
Qed.

(** The maps behind a root hash. *)
Lemma root_binding_maps m1 m2 h :
  root_hash m1 h -> root_hash m2 h -> m1 <> ∅ -> m2 <> ∅ -> sized_map m1 -> sized_map m2 ->
  m1 = m2 \/ exists t1 t2, rep t1 m1 /\ rep t2 m2 /\ clash t1 t2.
Proof.
  intros (t1 & R1 & ->) (t2 & R2 & E) N1 N2 S1 S2.
  assert (Hcan : forall t m, rep t m -> m <> ∅ -> can t).
  { intros t m ([->|Hc] & Hg & _ & Hb) Hne; [|done]. destruct Hne. apply map_empty. intros s. destruct (m !! s) eqn:Es; [|done].
    specialize (Hg s (Hb _ _ Es)). by rewrite Es in Hg. }
  pose proof (Hcan _ _ R1 N1) as C1. pose proof (Hcan _ _ R2 N2) as C2.
  assert (Eh : phash t1 = phash t2) by (destruct C1, C2; done).
  destruct (phash_inj t1 t2 (enode_inj t1) C1 C2 (rep_sized _ _ R1 S1) (rep_sized _ _ R2 S2) Eh) as [->|Hc].
  - left. by eapply rep_functional.
  - right. by exists t1, t2.
Qed.
End bind.
End TrieBind.
