(* ===== verification/TrieProps.v ===== *)
(** * Properties of tries

    A trie is a map ([trie_refines_map]), its root hash is a function of the map
    ([root_history_independent]) and determines it ([root_binds_contents]). *)

From stdpp Require Import base list numbers strings gmap relations.
From Stdlib Require Import ZArith Lia.
From S2P Require Import Prelude Bytes Rlp Enr EnrProps TrieKeys Trie TriePure TrieUpd TrieLoad TrieOps TrieHash TrieDecode TrieMap TrieBind.
Import Rlp Enr EnrProps TrieKeys Trie TriePure TrieUpd TrieLoad TrieOps TrieHash TrieDecode TrieMap TrieBind.

Module TrieProps.

(** ** Sequences of operations *)
Inductive op : Type :=
  | OpGet (key : list Z)
  | OpUpdate (key value : list Z)
  | OpDelete (key : list Z)
  | OpHash.
Inductive result : Type :=
  | RValue (r : trieErr + option (list Z))
  | RErr (e : option trieErr)
  | RHash (h : list Z).
Definition op_ok (o : op) : Prop :=
  match o with
  | OpGet key | OpDelete key => bytes key
  | OpUpdate key value => bytes key /\ len key <= 2 ^ 30 /\ bytes value /\ len value <= 2 ^ 32
  | OpHash => True
  end.
Section props.
Context `{C : Crypto} {CL : CryptoLaws C}.

Definition exec (dbnode : list Z -> outcome (option node)) (o : op) : GoM Trie result :=
  match o with
  | OpGet key => r ← TryGet dbnode key; mret (RValue r)
  | OpUpdate key value => e ← TryUpdate dbnode key value; mret (RErr e)
  | OpDelete key => e ← TryDelete dbnode key; mret (RErr e)
  | OpHash => h ← Hash; mret (RHash h)
  end.
Fixpoint exec_all (dbnode : list Z -> outcome (option node)) (ops : list op) : GoM Trie (list result) :=
  match ops with
  | [] => mret []
  | o :: ops => r ← exec dbnode o; rs ← exec_all dbnode ops; mret (r :: rs)
  end.

(** What the operations do to a map; where nodes are [miss]ing they may fail and do
    nothing. *)
Inductive spec (dbnode : list Z -> outcome (option node)) (miss : bool) (m : kvmap) : op -> result -> kvmap -> Prop :=
  | spec_get key : spec dbnode miss m (OpGet key) (RValue (inr (m !! key))) m
  | spec_update key value : spec dbnode miss m (OpUpdate key value) (RErr None) (update_map key value m)
  | spec_delete key : spec dbnode miss m (OpDelete key) (RErr None) (base.delete key m)
  | spec_hash h : root_hash m h -> spec dbnode miss m OpHash (RHash h) m
  | spec_get_miss key e : miss_err dbnode miss e -> spec dbnode miss m (OpGet key) (RValue (inl e)) m
  | spec_update_miss key value e : miss_err dbnode miss e -> spec dbnode miss m (OpUpdate key value) (RErr (Some e)) m
  | spec_delete_miss key e : miss_err dbnode miss e -> spec dbnode miss m (OpDelete key) (RErr (Some e)) m.
Inductive spec_all (dbnode : list Z -> outcome (option node)) (miss : bool) : kvmap -> list op -> list result -> kvmap -> Prop :=
  | spec_nil m : spec_all dbnode miss m [] [] m
  | spec_cons m o r m1 ops rs m2 : spec dbnode miss m o r m1 -> spec_all dbnode miss m1 ops rs m2 -> spec_all dbnode miss m (o :: ops) (r :: rs) m2.

Lemma exec_spec dbnode miss o tr m :
  represents dbnode miss tr m -> sized_map m -> op_ok o ->
  exists r tr' m', exec dbnode o tr = Done (r, tr') /\ spec dbnode miss m o r m' /\ represents dbnode miss tr' m' /\ sized_map m'.
Proof.
  intros Hr Hs Ho. destruct o as [key|key value|key|]; unfold exec, mbind, GoM_bind.
  - destruct (TryGet_spec dbnode miss tr m key Hr Ho) as (r & tr' & -> & Hr' & [->|(e & -> & He)]);
      eexists _, _, _; (split; [done|]); (split; [by constructor|done]).
  - destruct Ho as (Hk & Hkl & Hv & Hvl). destruct (TryUpdate_spec dbnode miss tr m key value Hr Hk) as (e & tr' & -> & He).
    destruct e as [e|]; eexists _, _, _; (split; [done|]); [by split; [constructor; apply He|split; [apply He|done]]|].
    split; [constructor|]. split; [done|]. unfold update_map. destruct (decide (value = [])); [by apply map_Forall_delete|by apply map_Forall_insert_2].
  - destruct (TryDelete_spec dbnode miss tr m key Hr Ho) as (e & tr' & -> & He).
    destruct e as [e|]; eexists _, _, _; (split; [done|]); [by split; [constructor; apply He|split; [apply He|done]]|].
    split; [constructor|]. split; [done|]. by apply map_Forall_delete.
  - destruct (Hash_spec dbnode miss tr m Hr Hs) as (h & tr' & -> & Hh & Hr'). eexists _, _, _. split; [done|]. by split; [constructor|].
Qed.
(** C3.  A trie implements a finite map: from a trie that holds [m], every sequence of
    TryGet, TryUpdate, TryDelete and Hash runs to its end without a panic, with the
    results of the map operations, and leaves a trie that holds the resulting map;
    an update with an empty value deletes.  This holds whatever part of the trie is
    in memory and however it came about.  Where nodes are missing in the database
    an operation may return a MissingNodeError for a hash that is not there, and
    then changes nothing. *)
Theorem trie_refines_map dbnode miss ops : forall tr m,
  represents dbnode miss tr m -> sized_map m -> Forall op_ok ops ->
  exists rs tr' m', exec_all dbnode ops tr = Done (rs, tr') /\ spec_all dbnode miss m ops rs m' /\ represents dbnode miss tr' m' /\ sized_map m'.
Proof.
  induction ops as [|o ops IH]; intros tr m Hr Hs Ho.
  - exists [], tr, m. split; [done|]. split; [constructor|done].
  - apply Forall_cons in Ho as [Ho Hops]. destruct (exec_spec dbnode miss o tr m Hr Hs Ho) as (r & tr1 & m1 & E1 & Hsp & Hr1 & Hs1).
    destruct (IH tr1 m1 Hr1 Hs1 Hops) as (rs & tr2 & m2 & E2 & Hall & Hr2 & Hs2). exists (r :: rs), tr2, m2.
    split; [|split; [by econstructor|done]]. cbn [exec_all]. apply GoM_bind_Done. eexists _, _. split; [done|].
    apply GoM_bind_Done. by eexists _, _.
Qed.
(** C9.  The root hash is a function of the contents: two tries that hold the same map,
    over whatever databases and after whatever operations, have the same Hash. *)
Theorem root_history_independent dbnode1 miss1 tr1 dbnode2 miss2 tr2 m :
  represents dbnode1 miss1 tr1 m -> represents dbnode2 miss2 tr2 m -> sized_map m ->
  exists h tr1' tr2', Hash tr1 = Done (h, tr1') /\ Hash tr2 = Done (h, tr2')
    /\ represents dbnode1 miss1 tr1' m /\ represents dbnode2 miss2 tr2' m.
Proof.
  intros H1 H2 Hs. destruct (Hash_spec _ _ _ _ H1 Hs) as (h1 & tr1' & E1 & R1 & H1'). destruct (Hash_spec _ _ _ _ H2 Hs) as (h2 & tr2' & E2 & R2 & H2').
  pose proof (root_hash_unique _ _ _ R1 R2) as <-. by exists h1, tr1', tr2'.
Qed.
(** C29.  Nodes survive their encoding: the bytes that a node of a trie is stored or proved
    with are decoded to a node that stands for the same tree, with the given hash
    cached and the children that are not small replaced by their hashes; and
    decodeNode returns on every input. *)
Theorem node_codec dbnode miss b n t :
  loads dbnode miss b n t -> is_hash n = false -> can t -> sized t ->
  (exists cl hn, proofHash n = Done (cl, hn)
    /\ decodeNode (Some (Keccak256 (nodeToBytes cl))) (nodeToBytes cl) = Done (inr (enode (Some (phash t)) t))
    /\ (db_all dbnode miss t -> loads dbnode miss true (enode (Some (phash t)) t) t))
  /\ (forall h buf, bytes buf -> len buf < 2 ^ 64 -> exists r, decodeNode h buf = Done r).
Proof.
  intros Hl Hh Hc Hs. split; [|intros; by apply decodeNode_total].
  destruct (proofHash_spec dbnode miss b n t Hl Hh Hc Hs) as (cl & hn & E & Eb & _). exists cl, hn. split; [done|].
  rewrite Eb. split; [by apply decodeNode_spec|]. intros [Ho Hb]. apply loads_enode; [by destruct Hc| |done]. by split.
Qed.
End props.

(** The three encodings of keys: bytes survive the nibbles, nibbles with or without
    the terminator survive the compact form, and the compact form made in place, which
    overwrites the nibbles while it reads them, is that of hexToCompact. *)
Theorem key_encodings :
  (forall s, bytes s -> hexToKeybytes (keybytesToHex s) = Done s)
  /\ (forall term ns, nibbles ns -> exists c, hexToCompact (hexKey term ns) = Done c /\ bytes c /\ compactToHex c = hexKey term ns)
  /\ (forall hex, hex <> [] -> exists c hex', hexToCompact hex = Done c /\ hexToCompactInPlace hex = Done (hex', length c) /\ take (length c) hex' = c).
Proof.
  split_and!; [exact keybytes_roundtrip| |].
  - intros term ns Hn. destruct (compact_roundtrip term ns Hn) as (c & E & Hb & _ & Hr). eauto.
  - intros hex Hh. destruct (in_place_exact hex Hh) as (c & hex' & E & E' & Ht & _). eauto.
Qed.

(** ** Examples *)
Definition no_db : list Z -> outcome (option node) := fun _ => Done None.
Definition ex_ops : list op :=
  [OpUpdate [1; 2] [7]; OpUpdate [1; 3] [8; 9]; OpGet [1; 2]; OpHash; OpUpdate [1; 3] []; OpGet [1; 3]; OpDelete [1; 2]; OpHash].
#[export] Instance op_ok_dec o : Decision (op_ok o).
Proof. destruct o; unfold op_ok, is_byte; apply _. Defined.
Lemma ex_ops_ok : Forall op_ok ex_ops.
Proof. apply (bool_decide_unpack (Forall op_ok ex_ops)). by vm_compute. Qed.
Ltac solve_bytes := repeat (apply Forall_cons_2; [unfold is_byte; lia|]); apply Forall_nil_2.
Lemma sized_empty : sized_map ∅.
Proof. apply map_Forall_empty. Qed.
Lemma trie_refines_map_witness :
  exists rs tr' m', exec_all (C := sample_crypto) no_db ex_ops empty_trie = Done (rs, tr')
    /\ spec_all (C := sample_crypto) no_db false ∅ ex_ops rs m' /\ represents (C := sample_crypto) no_db false tr' m'.
Proof.
  destruct (trie_refines_map (C := sample_crypto) no_db false ex_ops empty_trie ∅ (represents_empty _ _) sized_empty ex_ops_ok) as (rs & tr' & m' & E & Hs & Hr & _).
  exists rs, tr', m'. split; [exact E|]. split; [exact Hs|exact Hr].
Defined.
(** A trie with one entry. *)
Definition ex_map : kvmap := {[ [1; 2] := [7] ]}.
Lemma ex_map_sized : sized_map ex_map.
Proof. apply map_Forall_singleton. split; [by vm_compute|]. split; [by vm_compute|]. solve_bytes. Qed.
Lemma ex_represents : exists tr, represents (C := sample_crypto) no_db false tr ex_map.
Proof.
  destruct (TryUpdate_spec (C := sample_crypto) no_db false empty_trie ∅ [1; 2] [7] (represents_empty _ _)) as (e & tr & _ & He); [solve_bytes|].
  destruct e as [e|]; [by destruct He as [[? _] _]|]. by exists tr.
Qed.
Lemma root_history_independent_witness :
  exists tr h tr', represents (C := sample_crypto) no_db false tr ex_map /\ Hash (C := sample_crypto) tr = Done (h, tr').
Proof.
  destruct ex_represents as [tr Hr]. destruct (root_history_independent (C := sample_crypto) no_db false tr no_db false tr ex_map Hr Hr ex_map_sized) as (h & tr1 & _ & E & _).
  exists tr, h, tr1. split; [exact Hr|exact E].
Defined.
Definition ex_leaf : ptrie := PShort [1; 16] (PVal [7]).
Lemma ex_leaf_can : can ex_leaf.
Proof. apply (can_leaf [1]); [|done]. constructor; [unfold is_nibble; lia|constructor]. Qed.
Lemma ex_leaf_sized : sized ex_leaf.
Proof.
  intros k v (k' & -> & Hg)%pget_short_inv. destruct k'; [|done]. injection Hg as <-. split; [by vm_compute|]. split; [by vm_compute|].
  solve_bytes.
Qed.
Lemma node_codec_witness :
  exists cl hn, proofHash (C := sample_crypto) (shortNode [1; 16] (valueNode [7]) newFlag) = Done (cl, hn)
    /\ decodeNode (Some (Keccak256 (nodeToBytes cl))) (nodeToBytes cl) = Done (inr (enode (Some (phash ex_leaf)) ex_leaf)).
Proof.
  assert (Hl : loads (C := sample_crypto) no_db false true (shortNode [1; 16] (valueNode [7]) newFlag) ex_leaf) by (constructor; [constructor|apply new_flag_ok]).
  destruct (node_codec (C := sample_crypto) no_db false true _ ex_leaf Hl eq_refl ex_leaf_can ex_leaf_sized) as [(cl & hn & E & Ed & _) _].
  exists cl, hn. split; [exact E|exact Ed].
Defined.
End TrieProps.
