(* ===== verification/TrieProof.v ===== *)
(** * Merkle proofs (src/trie/proof.go)

    [Prove] returns the calls of proofDb.Put it makes, [VerifyProof] reads from
    the parameter [Get_].  Range proofs are not modelled. *)

From stdpp Require Import base list numbers strings.
From Stdlib Require Import ZArith Lia.
From S2P Require Import Prelude Bytes Rlp Enr TrieKeys Trie.
Import Rlp Enr TrieKeys Trie.

Module TrieProof.

Section proof.
Context `{C : Crypto}.

Definition matches (Key key : list Z) : bool :=
  negb ((len key <? len Key) || negb (bool_decide (Key = take (length Key) key))).
(** The nodes on the path of a key. *)
Fixpoint prove_path (dbnode : list Z -> outcome (option node)) (fuel : nat) (tn : node) (key : list Z) : outcome (trieErr + list node) :=
  match fuel with
  | O => Blocked "Prove"
  | S f =>
      match key, tn with
      | [], _ | _, Nil => Done (inr [])
      | k0 :: ktl, shortNode Key Val flags =>
          let? rest := (if matches Key key then prove_path dbnode f Val (drop (length Key) key) else Done (inr [])) in
          Done (inr (tn :: rest))
      | k0 :: ktl, fullNode Children flags =>
          c ← child Children k0;
          let? rest := prove_path dbnode f c ktl in
          Done (inr (tn :: rest))
      | _, hashNode h =>
          let? tn := resolveHash dbnode h [] in
          prove_path dbnode f tn key
      | _, valueNode _ => Panic "invalid node"
      end
  end.
Fixpoint prove_loop (i fromLevel : nat) (nodes : list node) : outcome (list (list Z * list Z)) :=
  match nodes with
  | [] => Done []
  | n :: nodes =>
      match fromLevel with
      | S l => prove_loop (S i) l nodes
      | O =>
          r ← proofHash n;
          let '(n, hn) := (r : node * node) in
          rest ← prove_loop (S i) 0 nodes;
          match hn with
          | hashNode hash => Done ((hash, nodeToBytes n) :: rest)
          | _ => if (i =? 0)%nat then let enc := nodeToBytes n in Done ((Keccak256 enc, enc) :: rest) else Done rest
          end
      end
  end.
Definition Prove (dbnode : list Z -> outcome (option node)) (key : list Z) (fromLevel : nat) (t : Trie) : outcome (trieErr + list (list Z * list Z)) :=
  let key := keybytesToHex key in
  let? nodes := prove_path dbnode (fuel_of key) (root t) key in
  puts ← prove_loop 0 fromLevel nodes;
  Done (inr puts).

(** The child of a node at a key; with [skipResolved] the first that is not loaded. *)
Fixpoint get (tn : node) (key : list Z) (skipResolved : bool) : outcome (list Z * node) :=
  match tn with
  | shortNode Key Val _ =>
      if negb (matches Key key) then Done ([], Nil)
      else if negb skipResolved then Done (drop (length Key) key, Val)
      else get Val (drop (length Key) key) skipResolved
  | fullNode Children _ =>
      match key with
      | [] => Panic "index out of range"
      | k0 :: key =>
          match map (fun c => (c, get c)) Children !! Z.to_nat k0 with
          | None => Panic "index out of range"
          | Some (tn, get_tn) => if negb skipResolved then Done (key, tn) else get_tn key skipResolved
          end
      end
  | hashNode _ => Done (key, tn)
  | Nil => Done (key, Nil)
  | valueNode _ => Done ([], tn)
  end.

Inductive proofErr : Type :=
  | proofMissing (i : nat) (hash : list Z)
  | badProofNode (i : nat) (e : nodeErr).
(** A decoded node has no resolved child left for [get] to return. *)
Fixpoint verify_loop (Get_ : list Z -> option (list Z)) (fuel i : nat) (wantHash key : list Z) : outcome (proofErr + option (list Z)) :=
  match fuel with
  | O => Blocked "VerifyProof"
  | S f =>
      match Get_ wantHash with
      | None => Done (inl (proofMissing i wantHash))
      | Some buf =>
          r ← decodeNode (Some wantHash) buf;
          match r with
          | inl e => Done (inl (badProofNode i e))
          | inr n =>
              r ← get n key true;
              let '(keyrest, cld) := (r : list Z * node) in
              match cld with
              | Nil => Done (inr None)
              | hashNode h => verify_loop Get_ f (S i) (take 32 h ++ drop (length h) wantHash) keyrest
              | valueNode v => Done (inr (Some v))
              | _ => verify_loop Get_ f (S i) wantHash key
              end
          end
      end
  end.
Definition VerifyProof (Get_ : list Z -> option (list Z)) (rootHash key : list Z) : outcome (proofErr + option (list Z)) :=
  let key := keybytesToHex key in verify_loop Get_ (S (length key)) 0 rootHash key.
End proof.
End TrieProof.
