(* ===== verification/TrieProofProps.v ===== *)
(** * Proofs are complete and sound *)

From stdpp Require Import base list numbers strings relations gmap.
From Stdlib Require Import ZArith Lia.
From S2P Require Import Prelude Bytes Rlp Enr EnrProps TrieKeys Trie TriePure TrieUpd TrieLoad TrieOps TrieHash TrieDecode TrieMap TrieBind TrieProps TrieProof.
Import Rlp Enr EnrProps TrieKeys Trie TriePure TrieUpd TrieLoad TrieOps TrieHash TrieDecode TrieMap TrieBind TrieProps TrieProof.

Module TrieProofProps.

(** The nodes of a tree on the path of a key. *)
Fixpoint ppath (t : ptrie) (key : list Z) : list ptrie :=
  match t with
  | PShort k c => t :: (if decide (k `prefix_of` key) then ppath c (drop (length k) key) else [])
  | PFull cs =>
      t :: match key with
           | [] => []
           | x :: key => match at_ix (map ppath cs) x with Some f => f key | None => [] end
           end
  | _ => []
  end.
Lemma ppath_full cs x key : ppath (PFull cs) (x :: key) = PFull cs :: match at_ix cs x with Some c => ppath c key | None => [] end.
Proof. cbn [ppath]. unfold at_ix. destruct (0 <=? x); [|done]. rewrite list_lookup_fmap. by destruct (cs !! Z.to_nat x). Qed.
Lemma ppath_short k c key : ppath (PShort k c) (k ++ key) = PShort k c :: ppath c key.
Proof. cbn [ppath]. rewrite decide_True by (by eexists). by rewrite drop_app_length. Qed.
Lemma matches_spec Key key : matches Key key = bool_decide (Key `prefix_of` key).
Proof.
  unfold matches. destruct (decide (Key `prefix_of` key)) as [Hp|Hp].
  - rewrite (bool_decide_eq_true_2 (Key `prefix_of` key)) by done. destruct Hp as [r ->]. rewrite take_app_length, bool_decide_eq_true_2 by done.
    unfold len. rewrite length_app. by rewrite (proj2 (Z.ltb_ge _ _)) by lia.
  - rewrite (bool_decide_eq_false_2 (Key `prefix_of` key)) by done. rewrite bool_decide_eq_false_2; [by rewrite orb_true_r|]. intros E. apply Hp. rewrite E. apply prefix_take.
Qed.

Section props.
Context `{C : Crypto} {CL : CryptoLaws C}.

(** ** What get finds in a decoded node *)
Definition get_ok (t : ptrie) (key rest : list Z) (cld : node) : Prop :=
  (cld = Nil /\ pget t key = None)
  \/ (exists v, cld = valueNode v /\ pget t key = Some v)
  \/ (exists s, cld = hashNode (phash s) /\ can s /\ sized s /\ big s /\ is_key rest /\ (length rest < length key)%nat
        /\ pget t key = pget s rest /\ ppath s rest `suffix_of` ppath t key).
Lemma get_node t : forall h key, can t -> sized t -> is_key key -> exists rest cld, get (enode h t) key true = Done (rest, cld) /\ get_ok t key rest cld.
Proof.
  assert (Href : forall c key, wf c -> sized c -> slot key c ->
    (forall h key, can c -> sized c -> is_key key -> exists rest cld, get (enode h c) key true = Done (rest, cld) /\ get_ok c key rest cld) ->
    exists rest cld, get (eref c) key true = Done (rest, cld)
      /\ (get_ok c key rest cld \/ (cld = hashNode (phash c) /\ rest = key /\ can c /\ big c /\ is_key key))).
  { intros c key Hw Hs Hsl IH. unfold eref, eref_of. destruct c as [|v|k c|cs].
    - exists key, Nil. split; [done|]. left. by left.
    - apply slot_val in Hsl as [-> _]. exists [], (valueNode v). split; [done|]. left. right. left. by exists v.
    - destruct (slot_can _ _ Hsl I) as [Hk Hc]. case_match eqn:E.
      + destruct (IH None key Hc Hs Hk) as (rest & cld & Eg & Hg). exists rest, cld. auto.
      + apply Nat.ltb_ge in E. eexists _, _. split; [done|]. right. done.
    - destruct (slot_can _ _ Hsl I) as [Hk Hc]. case_match eqn:E.
      + destruct (IH None key Hc Hs Hk) as (rest & cld & Eg & Hg). exists rest, cld. auto.
      + apply Nat.ltb_ge in E. eexists _, _. split; [done|]. right. done. }
  induction t as [|v|k c IH|cs IH] using ptrie_rect'; intros h key Hc Hs Hk; try (by inversion Hc).
  - cbn [enode get]. rewrite matches_spec. case_bool_decide as Hp; cbn [negb].
    2: { exists [], Nil. split; [done|]. left. split; [done|]. by rewrite pget_short_eq, decide_False. }
    destruct Hp as [r ->]. rewrite drop_app_length. destruct (slot_short _ _ _ Hc Hk) as [Hsl Hk0].
    destruct (Href c r (wf_short _ _ Hc) (sized_short _ _ Hs) Hsl IH) as (rest & cld & Eg & Hg). exists rest, cld. split; [done|].
    unfold get_ok. rewrite pget_short, ppath_short. destruct Hg as [[Hg|[Hg|(s & -> & Hcs & Hss & Hbs & Hkr & Hlr & Hgs & Hps)]]|(-> & -> & Hcc & Hbc & Hkr)].
    + by left.
    + by right; left.
    + right. right. exists s. split_and!; try done; [rewrite length_app; lia|by apply suffix_cons_r].
    + right. right. exists c. split_and!; try done; [by eapply sized_short|rewrite length_app; lia|by apply suffix_cons_r].
  - destruct key as [|x key]; [by apply is_key_nil in Hk|]. pose proof Hc as (Hlen & _)%can_full_inv.
    destruct (key_index x key cs Hk Hlen) as (Hx & c & Hxc). cbn [enode get].
    rewrite !list_lookup_fmap, Hxc. cbn [fmap option_fmap option_map negb].
    pose proof (slot_child _ _ _ _ Hc Hk Hxc) as Hsl. rewrite Forall_lookup in IH.
    destruct (Href c key (wf_child _ _ _ Hc Hxc) (sized_full _ _ _ Hs Hxc) Hsl (IH _ _ Hxc)) as (rest & cld & Eg & Hg). exists rest, cld. split; [done|].
    unfold get_ok. rewrite pget_full, ppath_full. unfold at_ix. rewrite (proj2 (Z.leb_le _ _) Hx), Hxc.
    destruct Hg as [[Hg|[Hg|(s & -> & Hcs & Hss & Hbs & Hkr & Hlr & Hgs & Hps)]]|(-> & -> & Hcc & Hbc & Hkr)].
    + by left.
    + by right; left.
    + right. right. exists s. split_and!; try done; [simpl; lia|by apply suffix_cons_r].
    + right. right. exists c. split_and!; try done; [by eapply sized_full|simpl; lia|by apply suffix_cons_r].
Qed.

(** ** The loop of VerifyProof *)
Definition serves (Get_ : list Z -> option (list Z)) (lax : bool) (s : ptrie) : Prop :=
  Get_ (phash s) = Some (penc s) \/ (lax = true /\ Get_ (phash s) = None).
Lemma verify_spec Get_ lax fuel : forall i t key,
  can t -> sized t -> is_key key -> (length key < fuel)%nat ->
  serves Get_ lax t -> (forall s, s ∈ ppath t key -> big s -> serves Get_ lax s) ->
  exists r, verify_loop Get_ fuel i (phash t) key = Done r /\ (r = inr (pget t key) \/ (lax = true /\ exists e, r = inl e)).
Proof.
  induction fuel as [|f IH]; intros i t key Hc Hs Hk Hf Hown Hpath; [lia|]. cbn [verify_loop].
  pose proof Hown as [->|[Hlax ->]]; [|by eexists; split; [done|right; eauto]].
  rewrite decodeNode_spec by done. cbn [mbind outcome_bind].
  destruct (get_node t (Some (phash t)) key Hc Hs Hk) as (rest & cld & -> & Hg). cbn [mbind outcome_bind].
  destruct Hg as [[-> E]|[(v & -> & E)|(s & -> & Hcs & Hss & Hbs & Hkr & Hlr & E & Hp)]].
  - eexists. split; [done|]. left. by rewrite E.
  - eexists. split; [done|]. left. by rewrite E.
  - assert (Hlen : forall u, length (phash u) = 32%nat) by (intros; apply Keccak256_len).
    rewrite take_ge by (rewrite Hlen; lia). rewrite drop_ge, app_nil_r by (rewrite !Hlen; lia). rewrite E.
    apply IH; [done..|lia| |].
    + apply Hpath; [|done]. destruct Hp as [l ->]. apply elem_of_app. right. destruct Hcs; left.
    + intros u Hu. apply Hpath. destruct Hp as [l ->]. apply elem_of_app. by right.
Qed.

(** ** Prove *)
Variable dbnode : list Z -> outcome (option node).
Variable miss : bool.
Abbreviation loads := (loads dbnode miss).
Definition on_path (b : bool) (n : node) (s : ptrie) : Prop := loads b n s /\ is_hash n = false /\ can s /\ sized s.
Definition path_ok (b : bool) (nodes : list node) (ts : list ptrie) : Prop :=
  match nodes, ts with
  | [], [] => True
  | n :: nodes, s :: ts => on_path b n s /\ Forall2 (on_path false) nodes ts
  | _, _ => False
  end.
Lemma path_ok_false nodes ts : path_ok false nodes ts -> Forall2 (on_path false) nodes ts.
Proof. destruct nodes, ts; simpl; try done. intros [H1 H2]. by constructor. Qed.
Lemma prove_path_spec fuel : forall b n t key,
  loads b n t -> wf t -> sized t -> slot key t -> (need n key <= fuel)%nat ->
  exists r, prove_path dbnode fuel n key = Done r /\ match r with inl e => miss_err dbnode miss e | inr nodes => path_ok b nodes (ppath t key) end.
Proof.
  induction fuel as [|f IH]; intros b n t key Hl Hw Hs Hsl Hf; [by apply need_O in Hf|]. cbn [prove_path].
  inversion Hl as [|? v|? k n1 c fl Hl1 Hfl|? ns cs fl Hl1 Hfl|? ? Hn Hbig Hdb]; subst.
  - destruct key; by eexists.
  - apply slot_val in Hsl as [-> _]. by eexists.
  - destruct (slot_can _ _ Hsl I) as [Hk Hcan]. destruct key as [|x key]; [by apply is_key_nil in Hk|]. rewrite matches_spec. case_bool_decide as Hp.
    + destruct Hp as [r Er]. rewrite Er in *. destruct (slot_short _ _ _ Hcan Hk) as [Hs1 Hk0]. rewrite drop_app_length.
      destruct (IH false n1 c r Hl1 (wf_short _ _ Hcan) (sized_short _ _ Hs) Hs1) as (r' & -> & Hr); [by eapply need_step|].
      destruct r' as [e|nodes]; cbn [try]; eexists; (split; [done|]); [done|]. rewrite ppath_short. split; [done|]. by apply path_ok_false.
    + eexists. split; [done|]. cbn [ppath]. rewrite decide_False by done. split; [done|constructor].
  - destruct (slot_can _ _ Hsl I) as [Hk Hcan]. destruct key as [|x key]; [by apply is_key_nil in Hk|].
    destruct (loads_child _ _ _ _ _ _ _ _ Hl Hcan Hk) as (n1 & c & -> & Hc & Hlc & Hs1 & _). cbn [mbind outcome_bind].
    destruct (IH false n1 c key Hlc (wf_child _ _ _ Hcan Hc) (sized_full _ _ _ Hs Hc) Hs1) as (r & -> & Hr); [by apply (need_step n1 [x]); [simpl; lia|]|].
    pose proof (key_index x key cs Hk (proj1 (proj1 (can_full_inv cs) Hcan))) as [Hx0 _].
    destruct r as [e|nodes]; cbn [try]; eexists; (split; [done|]); [done|]. rewrite ppath_full. unfold at_ix. rewrite (proj2 (Z.leb_le _ _) Hx0), Hc.
    split; [done|]. by apply path_ok_false.
  - destruct (slot_can _ _ Hsl Hn) as [Hk Hcan]. destruct key as [|x key]; [by apply is_key_nil in Hk|].
    destruct (resolve_spec dbnode miss b t [] Hl Hn) as [(n1 & -> & Hl1 & Hh & _)|(e & -> & He)]; cbn [try]; [|by eexists].
    apply IH; [done..|]. unfold need in *. rewrite Hh. simpl in Hf |- *. lia.
Qed.
(** The elements of the proof are the nodes on the path that are not embedded, with
    the root. *)
Lemma prove_loop_spec nodes ts : forall i b,
  Forall2 (on_path false) nodes ts \/ path_ok b nodes ts ->
  exists puts, prove_loop i 0 nodes = Done puts
    /\ (forall h e, (h, e) ∈ puts -> exists s, s ∈ ts /\ h = phash s /\ e = penc s)
    /\ (forall n s, ts !! n = Some s -> big s \/ (i + n = 0)%nat -> (phash s, penc s) ∈ puts).
Proof.
  revert ts. induction nodes as [|n nodes IH]; intros ts i b Hok.
  - assert (ts = []) as -> by (destruct Hok as [Hf|Hp]; [by inversion Hf|by destruct ts]). exists []. split; [done|]. split; [|done]. by intros h e ?%not_elem_of_nil.
  - assert (Ht : exists s ts', ts = s :: ts' /\ (exists b', on_path b' n s) /\ Forall2 (on_path false) nodes ts').
    { destruct Hok as [Hf|Hp]; [inversion Hf; subst; eauto 6|]. destruct ts as [|s ts']; [done|]. destruct Hp. eauto 6. }
    destruct Ht as (s & ts' & -> & (b' & Hl & Hh & Hc & Hs) & Hrest). cbn [prove_loop].
    destruct (proofHash_spec dbnode miss b' n s Hl Hh Hc Hs) as (cl & hn & -> & Eb & Hbig & Hsmall). cbn [mbind outcome_bind].
    destruct (IH ts' (S i) false (or_introl Hrest)) as (puts & -> & Hin & Hall). cbn [mbind outcome_bind].
    assert (Hcons : exists puts', (match hn with
        | hashNode hash => Done ((hash, nodeToBytes cl) :: puts)
        | _ => if (i =? 0)%nat then Done ((Keccak256 (nodeToBytes cl), nodeToBytes cl) :: puts) else Done puts
        end) = Done puts' /\ ((puts' = (phash s, penc s) :: puts) \/ (puts' = puts /\ ~ big s /\ i <> 0%nat))).
    { rewrite Eb. destruct (decide (big s)) as [Hb|Hb]; [rewrite Hbig by done; by eexists; split; [|left]|].
      specialize (Hsmall Hb). destruct hn; try done; (destruct (Nat.eqb_spec i 0); [by eexists; split; [|left]|eexists; split; [done|by right]]). }
    destruct Hcons as (puts' & Ep & Hp). cbv zeta. rewrite Ep. exists puts'. split; [done|]. split.
    + intros h e He. destruct Hp as [->|(-> & _)].
      * apply elem_of_cons in He as [[= -> ->]|He]; [exists s; split; [left|done]|]. destruct (Hin _ _ He) as (s' & ? & ?). exists s'. split; [by right|done].
      * destruct (Hin _ _ He) as (s' & ? & ?). exists s'. split; [by right|done].
    + intros [|m] s' Hm Hb.
      * injection Hm as <-. destruct Hp as [->|(_ & Hnb & Hi)]; [left|]. destruct Hb as [?|?]; [done|lia].
      * assert (Hm' : (phash s', penc s') ∈ puts) by (apply (Hall m); [done|]; destruct Hb as [?|?]; [by left|lia]).
        destruct Hp as [->|(-> & _)]; [by right|done].
Qed.

Lemma rep_can t m : rep t m -> m <> ∅ -> can t.
Proof.
  intros ([->|Hc] & Hg & _ & Hb) Hne; [|done]. destruct Hne. apply map_empty. intros s. destruct (m !! s) eqn:Es; [|done].
  specialize (Hg s (Hb _ _ Es)). by rewrite Es in Hg.
Qed.
Lemma root_hash_can m h : root_hash m h -> m <> ∅ -> exists t, rep t m /\ can t /\ h = phash t.
Proof. intros (t & Hr & ->) Hne. exists t. pose proof (rep_can _ _ Hr Hne) as Hc. split; [done|]. split; [done|]. by destruct Hc. Qed.
Lemma ppath_below t : forall key s, s ∈ ppath t key -> rtc child_of s t.
Proof.
  induction t as [|v|k c IH|cs IH] using ptrie_rect'; intros key s Hs; [by apply not_elem_of_nil in Hs..| |].
  - cbn [ppath] in Hs. apply elem_of_cons in Hs as [->|Hs]; [done|]. destruct (decide _); [|by apply not_elem_of_nil in Hs].
    eapply rtc_r; [by eapply IH|constructor].
  - destruct key as [|x key]; [cbn [ppath] in Hs; apply elem_of_cons in Hs as [->|Hs]; [done|by apply not_elem_of_nil in Hs]|].
    rewrite ppath_full in Hs. apply elem_of_cons in Hs as [->|Hs]; [done|]. destruct (at_ix cs x) as [c|] eqn:Ex; [|by apply not_elem_of_nil in Hs].
    apply at_ix_Some in Ex as [_ Ex]. rewrite Forall_lookup in IH. eapply rtc_r; [by eapply (IH _ _ Ex)|by econstructor].
Qed.
End props.

(** The empty trie has no proofs: Prove puts nothing, and VerifyProof refuses
    its root hash for a missing node. *)
Lemma empty_trie_unproved `{C : Crypto} dbnode key :
  Prove dbnode key 0 empty_trie = Done (inr [])
  /\ VerifyProof (fun _ => None) emptyRoot key = Done (inl (proofMissing 0 emptyRoot)).
Proof. split; [|done]. unfold Prove. cbn [root empty_trie]. by destruct (keybytesToHex key). Qed.

(** ** Examples *)
Lemma ex_map_ne : ex_map <> ∅.
Proof. by vm_compute. Qed.
Lemma ex_key_bytes : bytes [1; 2].
Proof. solve_bytes. Qed.
End TrieProofProps.
