(* ===== verification/TrieDB.v ===== *)
(** * The trie database (src/trie: database.go, committer.go, Commit of trie.go)

    Committed nodes are kept in memory ([dirties]) until they are flushed to disk
    or dropped when nothing refers to them any more.  The disk is the interface
    [KVStore], the cache of clean nodes (fastcache, third party) the interface
    [Cache].  Statistics for the log are left out, locks as well: every operation
    here runs under them.  A write to disk that fails, fails as a whole
    ([write_fails]); the order of a range over a map is the parameter [range_]. *)

From stdpp Require Import base list numbers strings gmap.
From Stdlib Require Import ZArith Lia.
From S2P Require Import Prelude Bytes Rlp Enr NodeDB TrieKeys Trie.
Import Rlp Enr TrieKeys Trie.

#[local] Set Warnings "-register-all".

Module TrieDB.

(** A cache may forget, but does not invent. *)
Class Cache : Type := {
  cache_t : Type;
  CGet : cache_t -> list Z -> option (list Z);
  CSet : cache_t -> list Z -> list Z -> cache_t;
}.
Class CacheLaws (K : Cache) : Prop := {
  CGet_CSet c k v k' x : CGet (CSet c k v) k' = Some x -> (k' = k /\ x = v) \/ CGet c k' = Some x;
}.

(** ** Collapsed nodes *)
Inductive rnode : Type :=
  | RNil
  | rawNode (enc : list Z)
  | rawFullNode (Children : list rnode)
  | rawShortNode (Key : list Z) (Val : rnode)
  | rhash (h : list Z)
  | rvalue (v : list Z).
(** In order, up to the first panic. *)
Fixpoint sequence {A} (l : list (outcome A)) : outcome (list A) :=
  match l with
  | [] => Done []
  | x :: l => a ← x; r ← sequence l; Done (a :: r)
  end.
Fixpoint simplifyNode (n : node) : outcome rnode :=
  match n with
  | shortNode Key Val _ => v ← simplifyNode Val; Done (rawShortNode Key v)
  | fullNode Children _ =>
      cs ← sequence (map (fun c => match c with Nil => Done RNil | _ => simplifyNode c end) Children);
      Done (rawFullNode cs)
  | valueNode v => Done (rvalue v)
  | hashNode h => Done (rhash h)
  | Nil => Panic "unknown node type"
  end.
Fixpoint expandNode (hash : option (list Z)) (n : rnode) : outcome node :=
  match n with
  | rawShortNode Key Val => v ← expandNode None Val; Done (shortNode (compactToHex Key) v (mk_nodeFlag hash false))
  | rawFullNode Children =>
      cs ← sequence (map (fun c => match c with RNil => Done Nil | _ => expandNode None c end) Children);
      Done (fullNode cs (mk_nodeFlag hash false))
  | rvalue v => Done (valueNode v)
  | rhash h => Done (hashNode h)
  | RNil | rawNode _ => Panic "unknown node type"
  end.
Fixpoint rencode (n : rnode) (w : encBuffer) : encBuffer :=
  match n with
  | RNil => Write EmptyString w
  | rawNode enc => Write enc w
  | rawFullNode Children =>
      let '(offset, w) := list_ w in
      let w := foldl (fun w f => f w) w (map rencode Children) in
      listEnd offset w
  | rawShortNode Key Val =>
      let '(offset, w) := list_ w in
      listEnd offset (rencode Val (writeBytes Key w))
  | rhash h => writeBytes h w
  | rvalue v => writeBytes v w
  end.
(** The hashes of the children, in the order of the calls of the callback. *)
Fixpoint forGatherChildren (n : rnode) : list (list Z) :=
  match n with
  | rawShortNode _ Val => forGatherChildren Val
  | rawFullNode Children => mjoin (take 16 (map forGatherChildren Children))
  | rhash h => [BytesToHash h]
  | _ => []
  end.

Record cachedNode : Type := mk_cachedNode {
  cn_node : rnode;
  cn_size : Z;                       (* uint16 *)
  parents : Z;                       (* uint32 *)
  children : option (gmap (list Z) Z);   (* external children, counted with a uint16 *)
  flushPrev : list Z;
  flushNext : list Z;
}.
Definition rlp (n : cachedNode) : list Z :=
  match cn_node n with
  | rawNode enc => enc
  | r => makeBytes (rencode r empty_buffer)
  end.
Definition obj (n : cachedNode) (hash : list Z) : outcome node :=
  match cn_node n with
  | rawNode enc => mustDecodeNode (Some hash) enc
  | r => expandNode (Some hash) r
  end.
Definition set_parents (p : Z) (n : cachedNode) : cachedNode := mk_cachedNode (cn_node n) (cn_size n) p (children n) (flushPrev n) (flushNext n).
Definition set_children (c : option (gmap (list Z) Z)) (n : cachedNode) : cachedNode := mk_cachedNode (cn_node n) (cn_size n) (parents n) c (flushPrev n) (flushNext n).
Definition set_prev (h : list Z) (n : cachedNode) : cachedNode := mk_cachedNode (cn_node n) (cn_size n) (parents n) (children n) h (flushNext n).
Definition set_next (h : list Z) (n : cachedNode) : cachedNode := mk_cachedNode (cn_node n) (cn_size n) (parents n) (children n) (flushPrev n) h.

Definition u16 (z : Z) : Z := z mod 2 ^ 16.
Definition u32 (z : Z) : Z := z mod 2 ^ 32.

Section db.
Context `{C : Crypto} `{St : NodeDB.KVStore} `{K : Cache}.
Variable range_ : gmap (list Z) Z -> list (list Z).

Definition forChilds (n : cachedNode) : list (list Z) :=
  match children n with Some c => range_ c | None => [] end
  ++ match cn_node n with rawNode _ => [] | r => forGatherChildren r end.

Record Database : Type := mk_Database {
  diskdb : NodeDB.store;
  cleans : option cache_t;
  dirties : gmap (list Z) cachedNode;
  oldest : list Z;
  newest : list Z;
  preimages : option (gmap (list Z) (list Z));
  dirtiesSize : Z;
  childrenSize : Z;
  preimagesSize : Z;
}.
Definition set_dirties (d : gmap (list Z) cachedNode) (db : Database) : Database :=
  mk_Database (diskdb db) (cleans db) d (oldest db) (newest db) (preimages db) (dirtiesSize db) (childrenSize db) (preimagesSize db).
Definition set_ends (o n : list Z) (db : Database) : Database :=
  mk_Database (diskdb db) (cleans db) (dirties db) o n (preimages db) (dirtiesSize db) (childrenSize db) (preimagesSize db).
Definition set_sizes (d c : Z) (db : Database) : Database :=
  mk_Database (diskdb db) (cleans db) (dirties db) (oldest db) (newest db) (preimages db) d c (preimagesSize db).
Definition set_cleans (c : option cache_t) (db : Database) : Database :=
  mk_Database (diskdb db) c (dirties db) (oldest db) (newest db) (preimages db) (dirtiesSize db) (childrenSize db) (preimagesSize db).
Definition set_disk (s : NodeDB.store) (db : Database) : Database :=
  mk_Database s (cleans db) (dirties db) (oldest db) (newest db) (preimages db) (dirtiesSize db) (childrenSize db) (preimagesSize db).
Definition set_preimages (p : option (gmap (list Z) (list Z))) (n : Z) (db : Database) : Database :=
  mk_Database (diskdb db) (cleans db) (dirties db) (oldest db) (newest db) p (dirtiesSize db) (childrenSize db) n.

(** The database starts with the meta root, the parent of the roots. *)
Definition metaroot : cachedNode := mk_cachedNode RNil 0 0 (Some ∅) zeroHash zeroHash.
Definition NewDatabaseWithConfig (disk : NodeDB.store) (cl : option cache_t) (withPreimages : bool) : Database :=
  mk_Database disk cl {[ zeroHash := metaroot ]} zeroHash zeroHash (if withPreimages then Some ∅ else None) 0 0 0.

(** [db.dirties[h].f = x]: the entry must be there. *)
Definition upd_dirty (h : list Z) (f : cachedNode -> cachedNode) : GoM Database unit := fun db =>
  match dirties db !! h with
  | Some n => Done (tt, set_dirties (<[h := f n]> (dirties db)) db)
  | None => Panic "nil pointer dereference"
  end.
Definition insert (hash : list Z) (size : Z) (n : node) : GoM Database unit := fun db =>
  match dirties db !! hash with
  | Some _ => Done (tt, db)
  | None =>
      r ← simplifyNode n;
      let entry := mk_cachedNode r (u16 size) 0 None (newest db) zeroHash in
      let d := foldl (fun d child => match d !! child with Some c => <[child := set_parents (u32 (parents c + 1)) c]> d | None => d end)
                 (dirties db) (forChilds entry) in
      let db := set_dirties (<[hash := entry]> d) db in
      r ← (if bool_decide (oldest db = zeroHash) then Done (tt, set_ends hash hash db)
           else (upd_dirty (newest db) (set_next hash) ;; gmodify (fun db => set_ends (oldest db) hash db)) db);
      let db := r.2 in
      Done (tt, set_sizes (dirtiesSize db + (32 + u16 size)) (childrenSize db) db)
  end.
Definition insertPreimage (hash preimage : list Z) (db : Database) : Database :=
  match preimages db with
  | None => db
  | Some p =>
      match p !! hash with
      | Some _ => db
      | None => set_preimages (Some (<[hash := preimage]> p)) (preimagesSize db + (32 + len preimage)) db
      end
  end.
(** Database.node: what is read, and the clean cache afterwards. *)
Definition cleans_get (db : Database) (hash : list Z) : option (list Z) :=
  match cleans db with Some c => CGet c hash | None => None end.
Definition cleans_set (hash enc : list Z) (db : Database) : Database :=
  match cleans db with Some c => set_cleans (Some (CSet c hash enc)) db | None => db end.
Definition node_ (hash : list Z) : GoM Database (option node) := fun db =>
  match cleans_get db hash with
  | Some enc => n ← mustDecodeNode (Some hash) enc; Done (Some n, db)
  | None =>
      match dirties db !! hash with
      | Some dirty => n ← obj dirty hash; Done (Some n, db)
      | None =>
          match NodeDB.Get (diskdb db) hash with
          | None => Done (None, db)
          | Some enc => n ← mustDecodeNode (Some hash) enc; Done (Some n, cleans_set hash enc db)
          end
      end
  end.
Definition Node (hash : list Z) : GoM Database (option (list Z)) := fun db =>
  if bool_decide (hash = zeroHash) then Done (None, db)
  else
    match cleans_get db hash with
    | Some enc => Done (Some enc, db)
    | None =>
        match dirties db !! hash with
        | Some dirty => Done (Some (rlp dirty), db)
        | None =>
            match NodeDB.Get (diskdb db) hash with
            | None | Some [] => Done (None, db)
            | Some enc => Done (Some enc, cleans_set hash enc db)
            end
        end
    end.
(** What a trie over the database gets for a hash. *)
Definition dbnode (db : Database) (hash : list Z) : outcome (option node) := r ← node_ hash db; Done r.1.

(** ** References *)
Definition get_dirty (h : list Z) : GoM Database cachedNode := fun db =>
  match dirties db !! h with Some n => Done (n, db) | None => Panic "nil pointer dereference" end.
Definition add_childrenSize (z : Z) : GoM Database unit := gmodify (fun db => set_sizes (dirtiesSize db) (childrenSize db + z) db).
Definition reference (child parent : list Z) : GoM Database unit := fun db =>
  match dirties db !! child with
  | None => Done (tt, db)
  | Some _ =>
      (p ← get_dirty parent;
       let count := match children p with Some c => default 0 (c !! child) | None => 0 end in
       match children p with
       | Some c =>
           if (bool_decide (is_Some (c !! child)) && negb (bool_decide (parent = zeroHash)))%bool then mret tt
           else
             upd_dirty child (fun n => set_parents (u32 (parents n + 1)) n) ;;
             upd_dirty parent (set_children (Some (<[child := u16 (count + 1)]> c))) ;;
             (if u16 (count + 1) =? 1 then add_childrenSize (32 + 2) else mret tt)
       | None =>
           add_childrenSize 48 ;;
           upd_dirty child (fun n => set_parents (u32 (parents n + 1)) n) ;;
           upd_dirty parent (set_children (Some {[ child := u16 1 ]})) ;;
           add_childrenSize (32 + 2)
       end) db
  end.
Definition Reference (child parent : list Z) : GoM Database unit := reference child parent.
(** A node leaves the flush-list. *)
Definition unlink (hash : list Z) (n : cachedNode) : GoM Database unit :=
  db ← gget;
  if bool_decide (hash = oldest db) then
    gmodify (set_ends (flushNext n) (newest db)) ;; upd_dirty (flushNext n) (set_prev zeroHash)
  else if bool_decide (hash = newest db) then
    gmodify (set_ends (oldest db) (flushPrev n)) ;; upd_dirty (flushPrev n) (set_next zeroHash)
  else
    upd_dirty (flushPrev n) (set_next (flushNext n)) ;; upd_dirty (flushNext n) (set_prev (flushPrev n)).
Fixpoint for_each {A} (l : list A) (f : A -> GoM Database unit) : GoM Database unit :=
  match l with
  | [] => mret tt
  | x :: l => f x ;; for_each l f
  end.
Fixpoint dereference (fuel : nat) (child parent : list Z) : GoM Database unit :=
  match fuel with
  | O => fun _ => Blocked "dereference"
  | S f =>
      node ← get_dirty parent;
      (match children node with
       | Some c =>
           let count := default 0 (c !! child) in
           if 0 <? count then
             if count - 1 =? 0
             then upd_dirty parent (set_children (Some (base.delete child c))) ;; add_childrenSize (- (32 + 2))
             else upd_dirty parent (set_children (Some (<[child := count - 1]> c)))
           else mret tt
       | None => mret tt
       end) ;;
      db ← gget;
      match dirties db !! child with
      | None => mret tt
      | Some node =>
          let p := if 0 <? parents node then parents node - 1 else parents node in
          upd_dirty child (set_parents p) ;;
          if p =? 0 then
            unlink child node ;;
            node ← get_dirty child;
            for_each (forChilds node) (fun h => dereference f h child) ;;
            gmodify (fun db => set_dirties (base.delete child (dirties db)) db) ;;
            gmodify (fun db => set_sizes (dirtiesSize db - (32 + cn_size node))
              (childrenSize db - match children node with Some _ => 48 | None => 0 end) db)
          else mret tt
      end
  end.
(** The nodes in memory bound the depth of references. *)
Definition Dereference (root : list Z) : GoM Database unit := fun db =>
  if bool_decide (root = zeroHash) then Done (tt, db)
  else dereference (S (base.size (dirties db))) root zeroHash db.

(** ** Flushing to disk *)
Variable write_fails : NodeDB.store -> list (list Z * list Z) -> bool.

Definition IdealBatchSize : Z := 100 * 1024.
(** A batch is the list of its writes. *)
Definition ValueSize (batch : list (list Z * list Z)) : Z := foldr (fun kv n => len kv.1 + len kv.2 + n) 0 batch.
Definition batch_write (batch : list (list Z * list Z)) : GoM Database bool := fun db =>
  if write_fails (diskdb db) batch then Done (false, db)
  else Done (true, set_disk (foldl (fun s kv => NodeDB.Put s kv.1 kv.2) (diskdb db) batch) db).
Definition preimageKey (hash : list Z) : list Z := str_of "secure-key-" ++ hash.
Definition WritePreimages (p : gmap (list Z) (list Z)) : list (list Z * list Z) := (fun kv => (preimageKey kv.1, kv.2)) <$> map_to_list p.

(** cleaner.Put, for every write of a batch. *)
Definition cleaner_Put (key enc : list Z) : GoM Database unit :=
  let hash := BytesToHash key in
  db ← gget;
  match dirties db !! hash with
  | None => mret tt
  | Some node =>
      unlink hash node ;;
      gmodify (fun db => set_dirties (base.delete hash (dirties db)) db) ;;
      gmodify (fun db => set_sizes (dirtiesSize db - (32 + cn_size node))
        (childrenSize db - match children node with Some c => 48 + Z.of_nat (base.size c) * (32 + 2) | None => 0 end) db) ;;
      gmodify (cleans_set hash enc)
  end.
Definition Replay (batch : list (list Z * list Z)) : GoM Database unit := for_each batch (fun kv => cleaner_Put kv.1 kv.2).

(** The private commit: the batch, and whether an error occurred. *)
Fixpoint commit_children (rec : list Z -> list (list Z * list Z) -> GoM Database (bool * list (list Z * list Z))) (hs : list (list Z))
    (batch : list (list Z * list Z)) : GoM Database (bool * list (list Z * list Z)) :=
  match hs with
  | [] => mret (true, batch)
  | h :: hs =>
      r ← rec h batch;
      if (r : bool * list (list Z * list Z)).1 then commit_children rec hs r.2 else mret r
  end.
Fixpoint db_commit (fuel : nat) (hash : list Z) (batch : list (list Z * list Z)) : GoM Database (bool * list (list Z * list Z)) :=
  match fuel with
  | O => fun _ => Blocked "commit"
  | S f =>
      db ← gget;
      match dirties db !! hash with
      | None => mret (true, batch)
      | Some node =>
          r ← commit_children (db_commit f) (forChilds node) batch;
          if negb (r : bool * list (list Z * list Z)).1 then mret r
          else
            let batch := r.2 ++ [(hash, rlp node)] in
            if IdealBatchSize <=? ValueSize batch then
              ok ← batch_write batch;
              if negb (ok : bool) then mret (false, batch) else Replay batch ;; mret (true, [])
            else mret (true, batch)
      end
  end.
(** Commit; [true] for no error. *)
Definition Database_Commit (node : list Z) : GoM Database bool :=
  db ← gget;
  ok ← (match preimages db with Some p => batch_write (WritePreimages p) | None => mret true end);
  if negb (ok : bool) then mret false
  else
    db ← gget;
    r ← db_commit (S (base.size (dirties db))) node [];
    if negb (r : bool * list (list Z * list Z)).1 then mret false
    else
      ok ← batch_write r.2;
      if negb (ok : bool) then mret false
      else
        Replay r.2 ;;
        gmodify (fun db => match preimages db with Some _ => set_preimages (Some ∅) 0 db | None => db end) ;;
        mret true.

(** On a 64-bit machine. *)
Definition cachedNodeSize : Z := 96.
(** The loop of Cap that writes nodes, from the oldest on: the size, the next node and the batch at its end. *)
Fixpoint cap_loop (fuel : nat) (limit size : Z) (old : list Z) (batch : list (list Z * list Z)) : GoM Database (bool * list Z * list (list Z * list Z)) :=
  if negb ((limit <? size) && negb (bool_decide (old = zeroHash)))%bool then mret (true, old, batch)
  else
    match fuel with
    | O => fun _ => Blocked "Cap"
    | S f =>
        node ← get_dirty old;
        let batch := batch ++ [(old, rlp node)] in
        ok ← (if IdealBatchSize <=? ValueSize batch then batch_write batch else mret true);
        if negb (ok : bool) then mret (false, old, batch)
        else
          let batch := if IdealBatchSize <=? ValueSize batch then [] else batch in
          let size := size - (32 + cn_size node + cachedNodeSize)
            - match children node with Some c => 48 + Z.of_nat (base.size c) * (32 + 2) | None => 0 end in
          cap_loop f limit size (flushNext node) batch
    end.
Fixpoint uncache_loop (fuel : nat) (old : list Z) (db : Database) : outcome (unit * Database) :=
  if bool_decide (oldest db = old) then Done (tt, db)
  else
    match fuel with
    | O => Blocked "Cap"
    | S f =>
        match dirties db !! oldest db with
        | None => Panic "nil pointer dereference"
        | Some node =>
            let db := set_dirties (base.delete (oldest db) (dirties db)) db in
            let db := set_ends (flushNext node) (newest db) db in
            let db := set_sizes (dirtiesSize db - (32 + cn_size node))
              (childrenSize db - match children node with Some c => 48 + Z.of_nat (base.size c) * (32 + 2) | None => 0 end) db in
            uncache_loop f old db
        end
    end.
Definition Cap (limit : Z) : GoM Database bool :=
  db ← gget;
  meta ← get_dirty zeroHash;
  let size := dirtiesSize db + Z.of_nat (base.size (dirties db) - 1) * cachedNodeSize
    + (childrenSize db - match children meta with Some c => Z.of_nat (base.size c) * (32 + 2) | None => 0 end) in
  let flushPreimages := 4 * 1024 * 1024 <? preimagesSize db in
  let batch := match preimages db with Some p => if flushPreimages then WritePreimages p else [] | None => [] end in
  ok ← (if IdealBatchSize <? ValueSize batch then batch_write batch else mret true);
  if negb (ok : bool) then mret false
  else
    let batch := if IdealBatchSize <? ValueSize batch then [] else batch in
    r ← cap_loop (base.size (dirties db)) limit size (oldest db) batch;
    let '(ok, old, batch) := (r : bool * list Z * list (list Z * list Z)) in
    if negb ok then mret false
    else
      ok ← batch_write batch;
      if negb (ok : bool) then mret false
      else
        gmodify (fun db => match preimages db with Some _ => if flushPreimages then set_preimages (Some ∅) 0 db else db | None => db end) ;;
        uncache_loop (base.size (dirties db)) old ;;
        db ← gget;
        (if negb (bool_decide (oldest db = zeroHash)) then upd_dirty (oldest db) (set_prev zeroHash) else mret tt) ;;
        mret true.

(** ** Committing a trie (committer.go)

    With a leaf callback the nodes go through a channel to a goroutine that inserts
    them and calls it, in order; the committer does not read the database, so that
    the effects are those of inserting at once. *)
Variable onleaf : option (list Z -> list Z -> GoM Database unit).

Fixpoint estimateSize (n : node) : outcome Z :=
  match n with
  | shortNode Key Val _ => v ← estimateSize Val; Done (3 + len Key + v)
  | fullNode Children _ =>
      l ← sequence (take 16 (map (fun c => match c with Nil => Done 1 | _ => estimateSize c end) Children));
      Done (3 + foldr Z.add 0 l)
  | valueNode b | hashNode b => Done (1 + len b)
  | Nil => Panic "node type"
  end.
Definition lift {A} (o : outcome A) : GoM Database A := fun db => a ← o; Done (a, db).
Definition call_onleaf (n : node) (hash : list Z) : GoM Database unit :=
  match onleaf with
  | None => mret tt
  | Some f =>
      match n with
      | shortNode _ (valueNode v) _ => f v hash
      | fullNode Children _ =>
          match Children !! 16%nat with
          | Some (valueNode v) => f v hash
          | Some Nil => mret tt
          | _ => gpanic "interface conversion"
          end
      | _ => mret tt
      end
  end.
Definition store_ (n : node) : GoM Database node :=
  match (cache n).1 with
  | None => mret n
  | Some hash =>
      size ← lift (estimateSize n);
      insert (BytesToHash hash) size n ;;
      call_onleaf n (BytesToHash hash) ;;
      mret (hashNode hash)
  end.
(** The children, each with its own call of [commit]. *)
Fixpoint commitChildren (cs : list (node * GoM Database (node * Z))) : GoM Database (list node * Z) :=
  match cs with
  | [] => mret ([], 0)
  | (c, commit_c) :: cs =>
      r ← (match c with
           | Nil => mret (Nil, 0)
           | hashNode h => mret (c, 0)
           | _ => commit_c
           end);
      rs ← commitChildren cs;
      mret ((r : node * Z).1 :: (rs : list node * Z).1, r.2 + rs.2)
  end.
(** The collapsed node is stored; small nodes stay in their parent. *)
Definition commit_node (collapsed : node) (childCommitted : Z) : GoM Database (node * Z) :=
  hashed ← store_ collapsed;
  match hashed with
  | hashNode _ => mret (hashed, childCommitted + 1)
  | _ => mret (collapsed, childCommitted)
  end.
Fixpoint commit (n : node) : GoM Database (node * Z) :=
  match cache n with
  | (Some hash, false) => mret (hashNode hash, 0)
  | _ =>
      match n with
      | shortNode Key Val flags =>
          r ← (match Val with fullNode _ _ => commit Val | _ => mret (Val, 0) end);
          k ← lift (hexToCompact Key);
          commit_node (shortNode k (r : node * Z).1 flags) r.2
      | fullNode Children flags =>
          r ← commitChildren (take 16 (map (fun c => (c, commit c)) Children));
          commit_node (fullNode ((r : list node * Z).1 ++ drop 16 Children) flags) r.2
      | hashNode h => mret (n, 0)
      | Nil | valueNode _ => gpanic "invalid node"
      end
  end.
Definition Commit (t : Trie) : GoM Database (list Z * Z * Trie) :=
  match root t with
  | Nil => mret (emptyRoot, 0, t)
  | _ =>
      r ← lift (Hash t);
      let '(rootHash, t) := (r : list Z * Trie) in
      if negb (cache (root t)).2 then mret (rootHash, 0, t)
      else
        r ← commit (root t);
        match (r : node * Z).1 with
        | hashNode h => mret (rootHash, r.2, mk_Trie (hashNode h) (unhashed t))
        | _ => gpanic "interface conversion"
        end
  end.
End db.
End TrieDB.
