(* ===== verification/TrieDBInv.v ===== *)
(** * The flush-list of the trie database

    The nodes in memory are linked from the oldest to the newest one.  The invariant
    [linked] says that the links are those of a list, which the operations extend
    at its end ([insert]) or from which they take a node ([unlink]). *)

From stdpp Require Import base list numbers strings gmap.
From Stdlib Require Import ZArith Lia.
From S2P Require Import Prelude Bytes Rlp Enr NodeDB TrieKeys Trie TrieDB.
Import Rlp Enr TrieKeys Trie TrieDB.

Module TrieDBInv.

(** ** Chains of links *)
Definition after (p : option (list Z)) (L : list (list Z)) : option (list Z) := match last L with Some x => Some x | None => p end.
Fixpoint chain (V : gmap (list Z) (list Z * list Z)) (p : option (list Z)) (L : list (list Z)) (nx : list Z) : Prop :=
  match L with
  | [] => True
  | h :: L => exists q, V !! h = Some (q, default nx (head L)) /\ (forall p', p = Some p' -> q = p') /\ chain V (Some h) L nx
  end.
Lemma chain_app V p L1 L2 nx : chain V p (L1 ++ L2) nx <-> chain V p L1 (default nx (head L2)) /\ chain V (after p L1) L2 nx.
Proof.
  revert p. induction L1 as [|h L1 IH]; intros p; [by split; [|intros []]|]. cbn [chain app].
  assert (Ea : after p (h :: L1) = after (Some h) L1) by (unfold after; rewrite last_cons; by destruct (last L1)).
  assert (Eh : default nx (head (L1 ++ L2)) = default (default nx (head L2)) (head L1)) by (by destruct L1).
  rewrite Ea, Eh. setoid_rewrite IH. naive_solver.
Qed.
Lemma chain_ext V V' p L nx : (forall h, h ∈ L -> V' !! h = V !! h) -> chain V p L nx -> chain V' p L nx.
Proof.
  revert p. induction L as [|h L IH]; intros p Hx; [done|]. cbn [chain]. intros (q & E & Hq & Hc). exists q.
  rewrite Hx by left. split; [done|]. split; [done|]. apply IH; [|done]. intros k Hk. apply Hx. by right.
Qed.
Lemma chain_prev V p p' L nx : (forall x, p' = Some x -> p = Some x) -> chain V p L nx -> chain V p' L nx.
Proof. destruct L as [|h L]; [done|]. cbn [chain]. intros Hp (q & E & Hq & Hc). exists q. split; [done|]. split; [|done]. intros x Hx. by apply Hq, Hp. Qed.
Lemma chain_set_prev V p b L nx q n : b ∉ L -> V !! b = Some (q, n) -> chain V p (b :: L) nx ->
  forall p' a, (forall x, p' = Some x -> a = x) -> chain (<[b := (a, n)]> V) p' (b :: L) nx.
Proof.
  cbn [chain]. intros Hb E (q' & E' & _ & Hc) p' a Ha. rewrite E in E'. injection E' as <- ->. exists a.
  rewrite lookup_insert_eq. split; [done|]. split; [done|]. eapply chain_ext; [|exact Hc].
  intros k Hk. rewrite lookup_insert_ne; [done|]. by intros ->.
Qed.
Lemma chain_set_next V p L a nx q n : a ∉ L -> V !! a = Some (q, n) -> chain V p (L ++ [a]) nx ->
  forall nx', chain (<[a := (q, nx')]> V) p (L ++ [a]) nx'.
Proof.
  intros Ha E Hc nx'. rewrite chain_app in *. destruct Hc as (H1 & q' & E' & Hq & _). rewrite E in E'. injection E' as <- _. split.
  - eapply chain_ext; [|exact H1]. intros k Hk. rewrite lookup_insert_ne; [done|]. by intros ->.
  - exists q. rewrite lookup_insert_eq. done.
Qed.

Section db.
Context `{C : Crypto} `{St : NodeDB.KVStore} `{K : Cache}.
Variable range_ : gmap (list Z) Z -> list (list Z).

(** ** The invariant *)
Definition link (e : cachedNode) : list Z * list Z := (flushPrev e, flushNext e).
(** [P]: nodes in memory that have left the list. *)
Record linked (db : Database) (P L : list (list Z)) : Prop := {
  lk_nodup : NoDup (zeroHash :: P ++ L);
  lk_keys : forall h, is_Some (dirties db !! h) <-> h ∈ zeroHash :: P ++ L;
  lk_oldest : oldest db = default zeroHash (head L);
  lk_newest : forall h, last L = Some h -> newest db = h;
  lk_chain : chain (link <$> dirties db) None L zeroHash;
  lk_meta : forall e, dirties db !! zeroHash = Some e -> cn_node e = RNil;
}.
(** Only the links, the ends of the list and the sizes differ. *)
Definition content (e : cachedNode) : rnode * Z * Z * option (gmap (list Z) Z) := (cn_node e, cn_size e, parents e, children e).
Definition same_rest (db db' : Database) : Prop := diskdb db' = diskdb db /\ cleans db' = cleans db /\ preimages db' = preimages db.
Definition relinked (db db' : Database) : Prop := same_rest db db' /\ content <$> dirties db' = content <$> dirties db.

Lemma relinked_refl db : relinked db db.
Proof. done. Qed.
Lemma relinked_trans db1 db2 db3 : relinked db1 db2 -> relinked db2 db3 -> relinked db1 db3.
Proof. intros ((? & ? & ?) & ?) ((? & ? & ?) & ?). split; [split_and!|]; congruence. Qed.
Lemma relinked_lookup db db' h e : relinked db db' -> dirties db !! h = Some e -> exists e', dirties db' !! h = Some e' /\ content e' = content e.
Proof.
  intros [_ E] He. assert (El : (content <$> dirties db') !! h = Some (content e)) by (rewrite E, lookup_fmap, He; done).
  rewrite lookup_fmap in El. destruct (dirties db' !! h) as [e'|] eqn:E'; [|done]. apply (inj Some) in El. eauto.
Qed.
Lemma relinked_sym db db' : relinked db db' -> relinked db' db.
Proof. intros ((? & ? & ?) & ?). split; [split_and!|]; congruence. Qed.
Lemma upd_dirty_relinked h f db : is_Some (dirties db !! h) -> (forall e, content (f e) = content e) ->
  exists db', upd_dirty h f db = Done (tt, db') /\ relinked db db' /\ oldest db' = oldest db /\ newest db' = newest db
    /\ link <$> dirties db' = (match dirties db !! h with Some e => <[h := link (f e)]> | None => id end) (link <$> dirties db).
Proof.
  intros [e E] Hf. unfold upd_dirty. rewrite E. eexists. split; [done|]. split; [split; [done|]|split_and!; [done|done|]]; cbn [dirties set_dirties].
  - rewrite fmap_insert, Hf. apply insert_id. by rewrite lookup_fmap, E.
  - by rewrite fmap_insert.
Qed.
Lemma linked_relinked db db' P L : linked db P L -> relinked db db' -> link <$> dirties db' = link <$> dirties db ->
  oldest db' = oldest db -> newest db' = newest db -> linked db' P L.
Proof.
  intros [H1 H2 H3 H4 H5 H6] Hr El Eo En. split; [done| |congruence|by rewrite En|by rewrite El|].
  - intros h. rewrite <- H2. split; intros [e E]; [edestruct (relinked_lookup db' db) as (? & ? & ?)|edestruct (relinked_lookup db db') as (? & ? & ?)]; eauto using relinked_sym.
  - intros e E. edestruct (relinked_lookup db' db) as (e' & E' & Ec); [by apply relinked_sym|done|]. unfold content in Ec. specialize (H6 _ E'). congruence.
Qed.

Lemma linked_drop db db' P L1 h L2 : linked db P (L1 ++ h :: L2) -> relinked db db' -> chain (link <$> dirties db') None (L1 ++ L2) zeroHash ->
  oldest db' = default zeroHash (head (L1 ++ L2)) -> (forall k, last (L1 ++ L2) = Some k -> newest db' = k) -> linked db' (h :: P) (L1 ++ L2).
Proof.
  intros [H1 H2 H3 H4 H5 H6] Hr Hc Ho Hn. assert (Hp : P ++ L1 ++ h :: L2 ≡ₚ (h :: P) ++ L1 ++ L2) by solve_Permutation.
  split; [by rewrite <- Hp| |done|done|done|].
  - intros k. rewrite <- Hp, <- H2. split; intros [e E]; [edestruct (relinked_lookup db' db) as (? & ? & ?)|edestruct (relinked_lookup db db') as (? & ? & ?)]; eauto using relinked_sym.
  - intros e E. edestruct (relinked_lookup db' db) as (e' & E' & Ec); [by apply relinked_sym|done|]. unfold content in Ec. specialize (H6 _ E'). congruence.
Qed.
Lemma linked_delete db P L h : linked db (h :: P) L -> linked (set_dirties (base.delete h (dirties db)) db) P L.
Proof.
  intros [H1 H2 H3 H4 H5 H6]. assert (Hp : zeroHash :: (h :: P) ++ L ≡ₚ h :: zeroHash :: P ++ L) by solve_Permutation.
  rewrite Hp in H1. apply NoDup_cons in H1 as [Hh Hd]. split; [done| |done|done| |].
  - intros k. cbn [dirties set_dirties]. destruct (decide (k = h)) as [->|Hne].
    + rewrite lookup_delete_eq. split; [by intros []|done].
    + rewrite lookup_delete_ne, H2, Hp by done. rewrite elem_of_cons. naive_solver.
  - cbn [dirties set_dirties]. rewrite fmap_delete. eapply chain_ext; [|exact H5]. intros k Hk. apply lookup_delete_ne. set_solver.
  - intros e. cbn [dirties set_dirties]. intros [_ E]%lookup_delete_Some. by apply H6.
Qed.
(** The neighbours of a node in the list. *)
Lemma linked_at db P L1 h L2 e : linked db P (L1 ++ h :: L2) -> dirties db !! h = Some e ->
  flushNext e = default zeroHash (head L2) /\ (forall a, last L1 = Some a -> flushPrev e = a).
Proof.
  intros Hl E. pose proof (lk_chain _ _ _ Hl) as Hc. rewrite chain_app in Hc. destruct Hc as (_ & q & Eq & Hp & _).
  rewrite lookup_fmap, E in Eq. injection Eq as <- En. split; [done|]. intros a Ha. apply Hp. unfold after. by rewrite Ha.
Qed.
Lemma linked_in db P L h : linked db P L -> h ∈ zeroHash :: P ++ L -> is_Some (dirties db !! h).
Proof. intros Hl. by apply (lk_keys _ _ _ Hl). Qed.
Lemma unlink_oldest db P h L2 e : linked db P (h :: L2) -> dirties db !! h = Some e ->
  exists db', unlink h e db = Done (tt, db') /\ relinked db db' /\ linked db' (h :: P) L2.
Proof.
  intros Hl E. destruct (linked_at db P [] h L2 e Hl E) as [En _]. pose proof (lk_oldest _ _ _ Hl) as Eo. simpl in Eo.
  pose proof (lk_nodup _ _ _ Hl) as Hd.
  unfold unlink. unfold mbind, GoM_bind, gget, gmodify. rewrite Eo, bool_decide_eq_true_2 by done. rewrite En.
  set (db1 := set_ends _ _ db). destruct (upd_dirty_relinked (default zeroHash (head L2)) (set_prev zeroHash) db1) as (db' & Ed & Hr & Eo' & En' & Ek); [|done|].
  { apply (linked_in db P (h :: L2)); [done|]. destruct L2; simpl; set_solver. }
  exists db'. split; [exact Ed|]. assert (Hr' : relinked db db') by exact Hr. split; [done|].
  apply (linked_drop db db' P [] h L2); [done|done| |done|].
  - rewrite Ek. cbn [app]. pose proof (lk_chain _ _ _ Hl) as (q & _ & _ & Hc). cbn [db1 set_ends dirties]. destruct L2 as [|b L2]; [done|]. change (default zeroHash (head (b :: L2))) with b.
    destruct (dirties db !! b) as [eb|] eqn:Eb; [|by eapply chain_prev; [|exact Hc]].
    eapply chain_set_prev; [|by rewrite lookup_fmap, Eb|exact Hc|done]. simpl in Hd. rewrite !NoDup_cons, NoDup_app, !NoDup_cons in Hd. naive_solver.
  - intros k Hk. rewrite En'. apply (lk_newest _ _ _ Hl). cbn [app] in Hk. by rewrite last_cons, Hk.
Qed.
Lemma unlink_newest db P L1 a h e : linked db P ((L1 ++ [a]) ++ [h]) -> dirties db !! h = Some e ->
  exists db', unlink h e db = Done (tt, db') /\ relinked db db' /\ linked db' (h :: P) (L1 ++ [a]).
Proof.
  intros Hl E. destruct (linked_at db P (L1 ++ [a]) h [] e Hl E) as [_ Ep]. specialize (Ep a (last_snoc _ _)).
  pose proof (lk_oldest _ _ _ Hl) as Eo. pose proof (lk_newest _ _ _ Hl h (last_snoc _ _)) as Enw. pose proof (lk_nodup _ _ _ Hl) as Hd.
  assert (Hne : h <> oldest db).
  { rewrite Eo. rewrite NoDup_cons, NoDup_app, NoDup_app in Hd. destruct L1; cbn [app head default from_option] in *; set_solver. }
  unfold unlink. unfold mbind, GoM_bind, gget, gmodify. rewrite bool_decide_eq_false_2, bool_decide_eq_true_2, Ep by done.
  set (db1 := set_ends _ _ db). destruct (upd_dirty_relinked a (set_next zeroHash) db1) as (db' & Ed & Hr & Eo' & En' & Ek); [|done|].
  { apply (linked_in db P ((L1 ++ [a]) ++ [h])); [done|]. set_solver. }
  exists db'. split; [exact Ed|]. assert (Hr' : relinked db db') by exact Hr. split; [done|].
  rewrite <- (app_nil_r (L1 ++ [a])). apply (linked_drop db db' P (L1 ++ [a]) h []); [done|done| | |]; rewrite app_nil_r.
  - rewrite Ek. pose proof (lk_chain _ _ _ Hl) as Hc. rewrite chain_app in Hc. destruct Hc as [Hc _]. cbn [db1 set_ends dirties] in *.
    destruct (dirties db !! a) as [ea|] eqn:Ea; [|destruct (linked_in db P _ a Hl) as [? ?]; [set_solver|congruence]].
    eapply chain_set_next; [|by rewrite lookup_fmap, Ea|exact Hc]. rewrite NoDup_cons, NoDup_app, NoDup_app, NoDup_app in Hd. set_solver.
  - rewrite Eo'. cbn [db1 set_ends oldest]. rewrite Eo. by destruct L1.
  - intros k Hk. rewrite last_snoc in Hk. injection Hk as <-. by rewrite En'.
Qed.
Lemma unlink_middle db P L1 a h b L2 e : linked db P ((L1 ++ [a]) ++ h :: b :: L2) -> dirties db !! h = Some e ->
  exists db', unlink h e db = Done (tt, db') /\ relinked db db' /\ linked db' (h :: P) ((L1 ++ [a]) ++ b :: L2).
Proof.
  intros Hl E. destruct (linked_at db P (L1 ++ [a]) h (b :: L2) e Hl E) as [En Ep]. specialize (Ep a (last_snoc _ _)). change (flushNext e = b) in En.
  pose proof (lk_oldest _ _ _ Hl) as Eo. pose proof (lk_nodup _ _ _ Hl) as Hd. rewrite NoDup_cons, NoDup_app, NoDup_app, NoDup_app, !NoDup_cons in Hd.
  destruct Hd as (_ & _ & _ & (HL1 & HaL & _) & HL & Hh & Hb & _).
  assert (Hne : h <> oldest db) by (rewrite Eo; destruct L1; cbn [app head default from_option] in *; set_solver).
  assert (Hnw : h <> newest db).
  { destruct (last (b :: L2)) as [x|] eqn:El; [|by rewrite last_cons in El; destruct (last L2)].
    rewrite (lk_newest _ _ _ Hl x); [|by rewrite last_app, last_cons, El]. apply last_Some_elem_of in El. set_solver. }
  unfold unlink. unfold mbind, GoM_bind, gget, gmodify. rewrite !bool_decide_eq_false_2, Ep, En by done.
  destruct (upd_dirty_relinked a (set_next b) db) as (db1 & Ed1 & Hr1 & Eo1 & En1 & Ek1); [|done|].
  { apply (linked_in db P _ a Hl). set_solver. }
  rewrite Ed1. destruct (linked_in db P _ a Hl) as [ea Ea]; [set_solver|]. destruct (linked_in db P _ b Hl) as [eb Eb]; [set_solver|].
  destruct (relinked_lookup _ _ _ _ Hr1 Eb) as (eb1 & Eb1 & _).
  destruct (upd_dirty_relinked b (set_prev a) db1) as (db' & Ed & Hr & Eo' & En' & Ek); [done|done|].
  exists db'. split; [exact Ed|]. assert (Hr' : relinked db db') by (by eapply relinked_trans). split; [done|].
  apply (linked_drop db db' P (L1 ++ [a]) h (b :: L2)); [done|done| | |].
  - rewrite Ek, Eb1, Ek1, Ea. change (link (set_prev a eb1)) with (a, flushNext eb1). change (link (set_next b ea)) with (flushPrev ea, b). pose proof (lk_chain _ _ _ Hl) as Hc. rewrite chain_app in Hc. destruct Hc as [Hc1 Hc2].
    assert (Hab : a <> b) by set_solver. assert (Elb : flushNext eb1 = flushNext eb).
    { assert (El : (link <$> dirties db1) !! b = Some (link eb)) by (rewrite Ek1, Ea, lookup_insert_ne, lookup_fmap, Eb by done; done).
      rewrite lookup_fmap, Eb1 in El. by injection El. }
    destruct Hc2 as (q & _ & _ & Hc2). apply chain_app. split.
    + eapply chain_ext; [|eapply (chain_set_next (link <$> dirties db) None L1 a _ (flushPrev ea) (flushNext ea)); [set_solver|by rewrite lookup_fmap, Ea|exact Hc1]].
      intros k Hk. rewrite lookup_insert_ne; [done|]. set_solver.
    + unfold after. rewrite last_snoc, Elb. apply (chain_set_prev _ (Some h) b L2 zeroHash (flushPrev eb)); [done| |eapply chain_ext; [|exact Hc2]|].
      * rewrite lookup_insert_ne, lookup_fmap, Eb by done. done.
      * intros k Hk. rewrite lookup_insert_ne; [done|]. set_solver.
      * by intros x [= ->].
  - rewrite Eo', Eo1, Eo. by destruct L1.
  - intros k Hk. rewrite En', En1. apply (lk_newest _ _ _ Hl). rewrite last_app, last_cons in *. rewrite last_cons. by destruct (last L2).
Qed.
(** A node of the list is taken out. *)
Lemma unlink_spec db P L1 h L2 e : linked db P (L1 ++ h :: L2) -> dirties db !! h = Some e ->
  exists db', unlink h e db = Done (tt, db') /\ relinked db db' /\ linked db' (h :: P) (L1 ++ L2).
Proof.
  intros Hl E. destruct L1 as [|a L1 _] using rev_ind; [by apply unlink_oldest|].
  destruct L2 as [|b L2]; [rewrite app_nil_r; by apply unlink_newest|by apply unlink_middle].
Qed.

(** A new node at the end of the list. *)
Definition append_ends (h : list Z) (db : Database) : outcome (unit * Database) :=
  if bool_decide (oldest db = zeroHash) then Done (tt, set_ends h h db)
  else (upd_dirty (newest db) (set_next h) ;; gmodify (fun db => set_ends (oldest db) h db)) db.
Definition shape (e : cachedNode) : rnode * (list Z * list Z) := (cn_node e, link e).
Lemma shape_lookup (d D : gmap (list Z) cachedNode) k : shape <$> d = shape <$> D -> shape <$> d !! k = shape <$> D !! k.
Proof. intros E. by rewrite <- !lookup_fmap, E. Qed.
Lemma shape_links (d D : gmap (list Z) cachedNode) : shape <$> d = shape <$> D -> link <$> d = link <$> D.
Proof. intros E. assert (E' : snd <$> (shape <$> d) = snd <$> (shape <$> D)) by (by rewrite E). by rewrite <- !map_fmap_compose in E'. Qed.
Lemma append_ends_spec db P L h d e :
  linked db P L -> h ∉ zeroHash :: P ++ L -> shape <$> d = shape <$> dirties db -> flushPrev e = newest db -> flushNext e = zeroHash ->
  exists db', append_ends h (set_dirties (<[h := e]> d) db) = Done (tt, db') /\ linked db' P (L ++ [h]) /\ relinked (set_dirties (<[h := e]> d) db) db'.
Proof.
  intros Hl Hh Hd Ep En. pose proof Hl as [H1 H2 H3 H4 H5 H6]. set (db1 := set_dirties _ db).
  assert (Hnd : NoDup (zeroHash :: P ++ L ++ [h])).
  { rewrite app_assoc. change (NoDup ((zeroHash :: P ++ L) ++ [h])). apply NoDup_app. split; [done|]. split; [set_solver|apply NoDup_singleton]. }
  assert (Hk : forall k, is_Some (dirties db1 !! k) <-> k ∈ zeroHash :: P ++ L ++ [h]).
  { intros k. cbn [db1 set_dirties dirties]. rewrite app_assoc. change (zeroHash :: (P ++ L) ++ [h]) with ((zeroHash :: P ++ L) ++ [h]). rewrite elem_of_app, <- H2, list_elem_of_singleton.
    destruct (decide (k = h)) as [->|Hne]; [rewrite lookup_insert_eq; split; [by right|by intros _; eexists]|].
    rewrite lookup_insert_ne by done. pose proof (shape_lookup d _ k Hd) as Es. rewrite <- (fmap_is_Some shape (d !! k)), Es, fmap_is_Some. naive_solver. }
  assert (Hm : forall x, dirties db1 !! zeroHash = Some x -> cn_node x = RNil).
  { intros x. cbn [db1 set_dirties dirties]. rewrite lookup_insert_ne by set_solver. intros Ex. pose proof (shape_lookup d _ zeroHash Hd) as Es.
    rewrite Ex in Es. destruct (dirties db !! zeroHash) as [y|] eqn:Ey; [|done]. injection Es as Es _ _. rewrite Es. by apply H6. }
  assert (Hc : chain (link <$> dirties db1) None L zeroHash).
  { cbn [db1 set_dirties dirties]. rewrite fmap_insert, (shape_links d _ Hd). eapply chain_ext; [|exact H5]. intros k Hkl. rewrite lookup_insert_ne; [done|]. set_solver. }
  assert (He : (link <$> dirties db1) !! h = Some (newest db, zeroHash)) by (cbn [db1 set_dirties dirties]; by rewrite fmap_insert, lookup_insert_eq; unfold link; rewrite Ep, En).
  unfold append_ends. change (oldest db1) with (oldest db). change (newest db1) with (newest db).
  destruct L as [|a L _] using rev_ind.
  - rewrite bool_decide_eq_true_2 by done. eexists. split; [done|]. split; [|done]. split; [done|done|done| |by exists (newest db)|done].
    intros k Ek. cbn [app last] in Ek. injection Ek as <-. done.
  - assert (Hoz : oldest db <> zeroHash).
    { rewrite H3. apply NoDup_cons in H1 as [Hz _]. intros Ez. apply Hz, elem_of_app. right. rewrite <- Ez at 1. destruct L; left. }
    rewrite bool_decide_eq_false_2 by done. rewrite (H4 a) in * by apply last_snoc.
    destruct (upd_dirty_relinked a (set_next h) db1) as (db2 & Ed & Hr & Eo' & En' & Ek); [apply Hk; set_solver|done|].
    unfold mbind, GoM_bind, gmodify. rewrite Ed. eexists. split; [done|]. split; [|exact Hr].
    assert (Ha : is_Some (dirties db1 !! a)) by (apply Hk; set_solver). destruct Ha as [ea Ea].
    split; cbn [dirties oldest newest set_ends]; [done| | | | |].
    + intros k. rewrite <- Hk. split; intros [x Ex]; [edestruct (relinked_lookup db2 db1) as (? & ? & ?)|edestruct (relinked_lookup db1 db2) as (? & ? & ?)]; eauto using relinked_sym.
    + rewrite Eo'. cbn [db1 set_dirties oldest]. rewrite H3. by destruct L.
    + intros k. rewrite last_snoc. by intros [= ->].
    + rewrite Ek, Ea. change (link (set_next h ea)) with (flushPrev ea, h). assert (Hah : a <> h) by set_solver. apply chain_app. split.
      * rewrite NoDup_cons, NoDup_app, NoDup_app in H1.
        eapply (chain_set_next (link <$> dirties db1) None L a _ (flushPrev ea) (flushNext ea)); [set_solver|by rewrite lookup_fmap, Ea|exact Hc].
      * unfold after. rewrite last_snoc. exists a. rewrite lookup_insert_ne, He by done. split; [done|]. split; [by intros p [= ->]|done].
    + intros x Ex. edestruct (relinked_lookup db2 db1) as (y & Ey & Ec); [by apply relinked_sym|done|]. unfold content in Ec. specialize (Hm _ Ey). congruence.
Qed.
End db.
End TrieDBInv.
