(* ===== verification/TrieRaw.v ===== *)
(** * Collapsed nodes

    The form in which the database keeps the nodes of a tree: what they expand to,
    their encoding, and the hashes they refer to. *)

From stdpp Require Import base list numbers strings gmap relations.
From Stdlib Require Import ZArith Lia.
From S2P Require Import Prelude Bytes Rlp RlpProps RlpBuffer Enr EnrProps NodeDB TrieKeys Trie TriePure TrieUpd TrieLoad TrieOps TrieHash TrieDecode TrieMap TrieBind TrieDB.
Import Rlp RlpProps RlpBuffer Enr TrieKeys Trie TriePure TrieUpd TrieLoad TrieOps TrieHash TrieDecode TrieMap TrieBind TrieDB.

Module TrieRaw.

(** ** Trees below trees *)
Lemma child_ind (P : ptrie -> Prop) : (forall t, (forall c, child_of c t -> P c) -> P t) -> forall t, P t.
Proof.
  intros H t. induction t as [|v|k c IH|cs IH] using ptrie_rect'; apply H; intros d Hd; inversion Hd; subst; [done|].
  rewrite Forall_lookup in IH. by eapply IH.
Qed.
Lemma tc_last {A} (R : relation A) x y : tc R x y -> exists z, rtc R x z /\ R z y.
Proof. induction 1 as [x y Hxy|x y z Hxy _ (w & Hw & Hwz)]; [by exists x|]. exists w. split; [by eapply rtc_l|done]. Qed.
Lemma wf_child_of c t : can t -> child_of c t -> wf c.
Proof. intros Ht Hc. destruct Hc as [k c|i c cs Hi]; [by eapply wf_short|exact (wf_child _ _ _ Ht Hi)]. Qed.
Lemma wf_node t : wf t -> is_node t -> can t.
Proof. intros [->|[(v & -> & _)|Hc]]; done. Qed.
Lemma can_child_of c t : can t -> child_of c t -> is_node c -> can c.
Proof. intros Ht Hc. by apply wf_node, (wf_child_of c t). Qed.
Lemma sized_child c t : sized t -> child_of c t -> sized c.
Proof. intros Ht Hc. destruct Hc as [k c|i c cs Hi]; [by eapply sized_short|exact (sized_full _ _ _ Ht Hi)]. Qed.

Section nodes.
Context `{C : Crypto} {CL : CryptoLaws C}.

(** ** Collapsed nodes of trees *)
Definition rref_of (r : rnode) (c : ptrie) : rnode :=
  match c with
  | PNil => RNil
  | PVal v => rvalue v
  | _ => if (length (penc c) <? 32)%nat then r else rhash (phash c)
  end.
Fixpoint rnode_of (t : ptrie) : rnode :=
  match t with
  | PNil => RNil
  | PVal v => rvalue v
  | PShort k c => rawShortNode (compact k) (rref_of (rnode_of c) c)
  | PFull cs => rawFullNode (map (fun c => rref_of (rnode_of c) c) cs)
  end.
Definition rref (c : ptrie) : rnode := rref_of (rnode_of c) c.

Lemma sequence_map {A B} (f : A -> outcome B) (g : A -> B) l : (forall x, x ∈ l -> f x = Done (g x)) -> sequence (map f l) = Done (map g l).
Proof.
  induction l as [|x l IH]; intros Hl; [done|]. cbn [map sequence]. rewrite Hl by left. cbn [mbind outcome_bind].
  rewrite IH by (intros; apply Hl; by right). done.
Qed.
Lemma expand_ref c : (forall h, wf c -> is_node c -> expandNode h (rnode_of c) = Done (enode h c)) -> wf c -> c <> PNil -> expandNode None (rref c) = Done (eref c).
Proof.
  intros IH Hw Hne. unfold rref, rref_of, eref, eref_of. destruct c; [done|done| |]; (case_match; [by apply IH|done]).
Qed.
Lemma expand_rnode t : forall h, wf t -> is_node t -> expandNode h (rnode_of t) = Done (enode h t).
Proof.
  induction t as [|v|k c IH|cs IH] using ptrie_rect'; intros h Hw Hn; try done; apply wf_can in Hw; cbn [rnode_of expandNode].
  - fold (rref c). rewrite expand_ref; [|done|by eapply wf_short|by inversion Hw]. cbn [mbind outcome_bind]. destruct (compact_spec k c Hw) as (_ & _ & -> & _). done.
  - change (fun c => rref_of (rnode_of c) c) with rref. rewrite map_map. erewrite (sequence_map _ eref); [done|].
    intros c [i Hi]%list_elem_of_lookup. rewrite Forall_lookup in IH. destruct (decide (c = PNil)) as [->|Hne]; [done|].
    assert (Hx : expandNode None (rref c) = Done (eref c)).
    { apply expand_ref; [by eapply IH|exact (wf_child _ _ _ Hw Hi)|done]. }
    by destruct (rref c).
Qed.
(** What they are encoded to. *)
Fixpoint rnenc (r : rnode) : list Z :=
  match r with
  | RNil => EmptyString
  | rawNode enc => enc
  | rawFullNode cs => enc_list (mjoin (map rnenc cs))
  | rawShortNode k v => enc_list (enc_string k ++ rnenc v)
  | rhash b | rvalue b => enc_string b
  end.
Lemma rnenc_rnode t : is_node t -> rnenc (rnode_of t) = penc t.
Proof.
  assert (Href : forall c, (is_node c -> rnenc (rnode_of c) = penc c) -> rnenc (rref c) = pref c).
  { intros c IH. unfold rref, rref_of, pref, pref_of. destruct c; [done|done| |]; (case_match; [by apply IH|done]). }
  induction t as [|v|k c IH|cs IH] using ptrie_rect'; intros Hn; try done; cbn [rnode_of rnenc penc].
  - fold (rref c) (pref c). by rewrite Href.
  - change (fun c => rref_of (rnode_of c) c) with rref. change (fun c => pref_of (penc c) c) with pref. f_equal. f_equal. rewrite map_map.
    apply map_ext_in. intros c Hc. apply Href. rewrite Forall_forall in IH. apply IH. by apply list_elem_of_In.
Qed.
Section rnode_ind.
Variable P : rnode -> Prop.
Hypothesis HNil : P RNil.
Hypothesis HRaw : forall e, P (rawNode e).
Hypothesis HFull : forall cs, Forall P cs -> P (rawFullNode cs).
Hypothesis HShort : forall k n, P n -> P (rawShortNode k n).
Hypothesis HHash : forall h, P (rhash h).
Hypothesis HVal : forall v, P (rvalue v).
Fixpoint rnode_rect' (n : rnode) : P n :=
  match n with
  | RNil => HNil
  | rawNode e => HRaw e
  | rawFullNode cs =>
      HFull cs ((fix go (cs : list rnode) : Forall P cs :=
        match cs with
        | [] => Forall_nil_2 _
        | c :: cs => Forall_cons_2 _ _ _ (rnode_rect' c) (go cs)
        end) cs)
  | rawShortNode k n => HShort k n (rnode_rect' n)
  | rhash h => HHash h
  | rvalue v => HVal v
  end.
End rnode_ind.
Lemma rencode_writes n : forall w, len (rnenc n) < 2 ^ 64 -> writes w (rencode n w) (rnenc n).
Proof.
  induction n as [|e|cs IH|k n IH|h|v] using rnode_rect'; intros w Hl; cbn [rencode rnenc] in *.
  - apply writes_append.
  - apply writes_append.
  - pose proof (enc_list_holds (mjoin (map rnenc cs))). apply writes_list; [lia|].
    assert (Hc : len (mjoin (map rnenc cs)) < 2 ^ 64) by lia. clear Hl H. cbn [list_ snd].
    generalize (mk_encBuffer (str w) (lheads w ++ [mk_listhead (len (str w)) (lhsize w)]) (lhsize w)). clear w.
    induction IH as [|c cs Hc1 _ IH]; intros w; [apply writes_refl|]. cbn [map foldl] in *. change (mjoin (rnenc c :: map rnenc cs)) with (rnenc c ++ mjoin (map rnenc cs)) in *.
    rewrite len_app in Hc. pose proof (len_nonneg (rnenc c)). pose proof (len_nonneg (mjoin (map rnenc cs))).
    eapply writes_trans; [apply Hc1; lia|apply IH; lia].
  - pose proof (enc_list_holds (enc_string k ++ rnenc n)). apply writes_list; [lia|]. rewrite len_app in *. pose proof (len_nonneg (enc_string k)).
    eapply writes_trans; [|apply IH; lia]. rewrite writeBytes_enc. apply writes_append.
  - rewrite writeBytes_enc. apply writes_append.
  - rewrite writeBytes_enc. apply writes_append.
Qed.
Lemma rlp_rnode e t : cn_node e = rnode_of t -> can t -> sized t -> rlp e = penc t.
Proof.
  intros E Hc Hs. pose proof (penc_len t Hc Hs). assert (Hn : is_node t) by (by destruct Hc). pose proof (rnenc_rnode t Hn) as Er.
  assert (Hw : makeBytes (rencode (rnode_of t) empty_buffer) = penc t).
  { rewrite <- Er. apply writes_makeBytes, rencode_writes. rewrite Er. lia. }
  unfold rlp. rewrite E. destruct t; try done.
Qed.
Lemma obj_rnode e t h : cn_node e = rnode_of t -> can t -> obj e h = Done (enode (Some h) t).
Proof.
  intros E Hc. assert (Hn : is_node t) by (by destruct Hc). unfold obj. rewrite E.
  pose proof (expand_rnode t (Some h) (or_intror (or_intror Hc)) Hn) as Ex. destruct t; done.
Qed.

(** ** The hashes in a node *)
Definition gather (t : ptrie) : list (list Z) := forGatherChildren (rnode_of t).
Lemma gather_full cs h : h ∈ gather (PFull cs) -> exists c, c ∈ cs /\ h ∈ forGatherChildren (rref c).
Proof.
  unfold gather. cbn [rnode_of forGatherChildren]. change (fun c => rref_of (rnode_of c) c) with rref. rewrite map_map.
  intros (l & Hl & Hh)%list_elem_of_join. apply elem_of_take in Hh as (i & Hi & _). rewrite list_lookup_fmap in Hi.
  destruct (cs !! i) as [c|] eqn:Ec; [|done]. injection Hi as <-. exists c. split; [by eapply list_elem_of_lookup_2|done].
Qed.
(** They are those of the nodes below that are not embedded. *)
Lemma gather_sub t : forall h, h ∈ gather t -> exists c, tc child_of c t /\ is_node c /\ big c /\ h = phash c.
Proof.
  assert (Href : forall c h, (h ∈ gather c -> exists d, tc child_of d c /\ is_node d /\ big d /\ h = phash d) ->
    h ∈ forGatherChildren (rref c) -> exists d, rtc child_of d c /\ is_node d /\ big d /\ h = phash d).
  { intros c h IH. unfold rref, rref_of. destruct c as [|v|k c|cs]; [by intros []%not_elem_of_nil..| |];
      (case_match eqn:E; [intros (d & ? & ?)%IH; exists d; split; [by apply tc_rtc|done]|]);
      apply Nat.ltb_ge in E; cbn [forGatherChildren]; rewrite BytesToHash_hash; intros ->%list_elem_of_singleton; eexists; split_and!; done. }
  induction t as [|v|k c IH|cs IH] using ptrie_rect'; intros h Hh; [by apply not_elem_of_nil in Hh..| |].
  - destruct (Href c h (IH h) Hh) as (d & Hd & ?). exists d. split; [|done]. eapply tc_rtc_l; [exact Hd|]. apply tc_once. constructor.
  - apply gather_full in Hh as (c & [i Hi]%list_elem_of_lookup & Hh). rewrite Forall_lookup in IH.
    destruct (Href c h (IH i c Hi h) Hh) as (d & Hd & ?). exists d. split; [|done]. eapply tc_rtc_l; [exact Hd|]. apply tc_once. by econstructor.
Qed.
(** Every such node is one of them, or below one of them. *)
Definition covers (t c : ptrie) : Prop := exists d, phash d ∈ gather t /\ rtc child_of c d /\ is_node d /\ big d /\ tc child_of d t.
Lemma ref_covers t c : can t -> child_of c t -> forGatherChildren (rref c) ⊆ gather t.
Proof.
  intros Ht Hc h Hh. destruct Hc as [k c|i c cs Hi]; [done|]. unfold gather. cbn [rnode_of forGatherChildren].
  change (fun c => rref_of (rnode_of c) c) with rref. rewrite map_map. apply list_elem_of_join. exists (forGatherChildren (rref c)).
  split; [done|]. destruct (decide (i < 16)%nat) as [Hlt|Hge].
  - apply elem_of_take. exists i. by rewrite list_lookup_fmap, Hi.
  - exfalso. apply can_full_inv in Ht as (_ & Hl & _). specialize (Hl i c Hi). destruct (decide (c = PNil)) as [->|Hne]; [by apply not_elem_of_nil in Hh|].
    specialize (Hl Hne). rewrite (proj2 (Nat.ltb_ge _ _)) in Hl by lia. destruct Hl as (v & -> & _). by apply not_elem_of_nil in Hh.
Qed.
Lemma gather_covers t : forall c, can t -> tc child_of c t -> is_node c -> big c -> covers t c.
Proof.
  induction t as [t IH] using child_ind. intros c Ht Hc Hn Hb. apply tc_last in Hc as (d & Hcd & Hd).
  assert (Hdn : is_node d) by (apply rtc_tc in Hcd as [->|Hcd]; [done|apply tc_last in Hcd as (? & _ & Hx); by destruct Hx]).
  pose proof (ref_covers t d Ht Hd) as Hsub. destruct (decide (big d)) as [Hbd|Hsm].
  - exists d. split_and!; [|done..|by apply tc_once]. apply Hsub. unfold rref, rref_of, big in *. rewrite (proj2 (Nat.ltb_ge _ _)) by lia.
    destruct d; try done; cbn [forGatherChildren]; rewrite BytesToHash_hash; left.
  - assert (Hcd' : tc child_of c d) by (apply rtc_tc in Hcd as [->|Hcd]; done).
    destruct (IH d Hd c) as (x & Hx & Hcx & Hxn & Hxb & Hxd); [by eapply can_child_of|done..|]. exists x. split_and!; [|done..|by eapply tc_r].
    apply Hsub. unfold rref, rref_of, big in *. rewrite (proj2 (Nat.ltb_lt _ _)) by lia. by destruct d.
Qed.
End nodes.
End TrieRaw.
