(* ===== verification/TrieDBOk.v ===== *)
(** * The invariant of the trie database

    What is in memory and on disk are nodes of trees of a [Universe]: the nodes that
    occur in a run, among which the hash function has no collision.  A node needs
    the nodes whose hashes it has ([gather]) and the tries whose roots are in its
    value ([ext], for an account the storage trie).  The invariant [db_ok] says that
    what a stored node needs is stored: what is on disk needs only what is on disk,
    what is in memory needs only what is on disk or older in memory, and a node in
    memory that is not on disk counts the references to it. *)

From stdpp Require Import base list numbers strings gmap relations.
From Stdlib Require Import ZArith Lia.
From S2P Require Import Prelude Bytes Rlp Enr NodeDB TrieKeys Trie TriePure TrieLoad TrieHash TrieDecode TrieDB TrieDBInv TrieRaw.
Import Rlp Enr TrieKeys Trie TriePure TrieLoad TrieHash TrieDecode TrieDB TrieDBInv TrieRaw.

Module TrieDBOk.

(** ** Counting references *)
Definition count (c : list Z) (l : list (list Z)) : Z := Z.of_nat (length (filter (fun x => x = c) l)).
Lemma count_app c l1 l2 : count c (l1 ++ l2) = count c l1 + count c l2.
Proof. unfold count. rewrite filter_app, length_app. lia. Qed.
Lemma count_cons c x l : count c (x :: l) = (if decide (x = c) then 1 else 0) + count c l.
Proof. unfold count. rewrite filter_cons. destruct (decide (x = c)); simpl; lia. Qed.
Lemma count_nonneg c l : 0 <= count c l.
Proof. unfold count. lia. Qed.
Lemma count_elem c l : c ∈ l -> 1 <= count c l.
Proof.
  induction l as [|x l IH]; [by intros ?%not_elem_of_nil|]. rewrite count_cons. intros [->|Hc]%elem_of_cons.
  - rewrite decide_True by done. pose proof (count_nonneg x l). lia.
  - specialize (IH Hc). case_decide; lia.
Qed.
Lemma count_perm c l l' : l ≡ₚ l' -> count c l = count c l'.
Proof. intros H. unfold count. by rewrite H. Qed.
Lemma count_none c l : c ∉ l -> count c l = 0.
Proof. intros H. unfold count. induction l as [|x l IH]; [done|]. rewrite filter_cons, decide_False by set_solver. apply IH. set_solver. Qed.
Lemma count_nodup c l : NoDup l -> c ∈ l -> count c l = 1.
Proof.
  induction 1 as [|x l Hx _ IH]; [by intros ?%not_elem_of_nil|]. rewrite count_cons. intros [->|Hc]%elem_of_cons.
  - rewrite decide_True, count_none by done. done.
  - rewrite decide_False, IH by (done || by intros ->). done.
Qed.

Definition extern (e : cachedNode) : gmap (list Z) Z := default ∅ (children e).
Definition core (e : cachedNode) : rnode * gmap (list Z) Z := (cn_node e, extern e).
Definition occ (c : list Z) (e : rnode * gmap (list Z) Z) : Z := count c (forGatherChildren e.1) + default 0 (e.2 !! c).
(** The references to [c] from the nodes [D]. *)
Definition refs (D : gmap (list Z) cachedNode) (c : list Z) : Z := map_fold (fun _ e n => occ c e + n) 0 (core <$> D).
(** Without the nodes [P], whose references are being dropped. *)
Definition live (D : gmap (list Z) cachedNode) (P : list (list Z)) : gmap (list Z) cachedNode := foldr base.delete D P.

Lemma refs_delete D k e c : D !! k = Some e -> refs D c = occ c (core e) + refs (base.delete k D) c.
Proof.
  intros E. unfold refs. rewrite fmap_delete. apply (map_fold_delete_L (fun _ e n => occ c e + n)); [intros; lia|by rewrite lookup_fmap, E].
Qed.
Lemma refs_insert D k e c : D !! k = None -> refs (<[k := e]> D) c = occ c (core e) + refs D c.
Proof. intros E. rewrite (refs_delete _ k e), delete_insert_id by (done || by rewrite lookup_insert_eq). done. Qed.
Lemma refs_update D k e e' c : D !! k = Some e -> refs (<[k := e']> D) c = refs D c - occ c (core e) + occ c (core e').
Proof. intros E. rewrite (refs_delete D k e), (refs_delete _ k e') by (done || by rewrite lookup_insert_eq). rewrite delete_insert_eq. lia. Qed.
Lemma refs_ext D D' c : core <$> D' = core <$> D -> refs D' c = refs D c.
Proof. unfold refs. by intros ->. Qed.
Lemma live_lookup D P k : k ∉ P -> live D P !! k = D !! k.
Proof. induction P as [|p P IH]; intros Hk; [done|]. cbn [live foldr]. rewrite lookup_delete_ne by set_solver. apply IH. set_solver. Qed.
Lemma live_fmap {B} (f : cachedNode -> B) D P : f <$> live D P = foldr base.delete (f <$> D) P.
Proof. induction P as [|p P IH]; [done|]. cbn [live foldr]. rewrite fmap_delete. f_equal. apply IH. Qed.
Lemma live_delete D P k : live (base.delete k D) P = base.delete k (live D P).
Proof. induction P as [|p P IH]; [done|]. cbn [live foldr]. fold (live (base.delete k D) P) (live D P). rewrite IH. apply delete_delete. Qed.
Lemma live_insert_in D P k e : k ∈ P -> live (<[k := e]> D) P = live D P.
Proof.
  induction P as [|p P IH]; [by intros ?%not_elem_of_nil|]. intros Hk. cbn [live foldr]. fold (live (<[k := e]> D) P) (live D P).
  destruct (decide (k ∈ P)) as [Hin|Hnot]; [by rewrite IH|]. assert (k = p) as -> by set_solver.
  rewrite <- !live_delete. by rewrite delete_insert_eq.
Qed.
Lemma live_insert D P k e : k ∉ P -> live (<[k := e]> D) P = <[k := e]> (live D P).
Proof.
  induction P as [|p P IH]; intros Hk; [done|]. cbn [live foldr]. fold (live (<[k := e]> D) P) (live D P).
  rewrite IH by set_solver. apply delete_insert_ne. set_solver.
Qed.
Lemma live_in D P k : k ∈ P -> live D P !! k = None.
Proof. induction P as [|p P IH]; [by intros ?%not_elem_of_nil|]. cbn [live foldr]. intros Hk. apply lookup_delete_None. set_solver. Qed.
Lemma refs_nonneg D c : (forall k e, D !! k = Some e -> 0 <= occ c (core e)) -> 0 <= refs D c.
Proof.
  induction D as [|k e D Hk IH] using map_ind; intros H; [done|]. rewrite refs_insert by done.
  pose proof (H k e ltac:(by rewrite lookup_insert_eq)). assert (0 <= refs D c); [|lia]. apply IH. intros k' e' He'. apply (H k'). rewrite lookup_insert_ne; [done|congruence].
Qed.
Lemma refs_le D c k e : (forall k e, D !! k = Some e -> 0 <= occ c (core e)) -> D !! k = Some e -> occ c (core e) <= refs D c.
Proof.
  intros H He. rewrite (refs_delete D k e c He). assert (0 <= refs (base.delete k D) c); [|lia].
  apply refs_nonneg. intros k' e' [_ He']%lookup_delete_Some. by eapply H.
Qed.
Lemma refs_zero D c : (forall k e, D !! k = Some e -> occ c (core e) = 0) -> refs D c = 0.
Proof.
  induction D as [|k e D Hk IH] using map_ind; intros H; [done|]. rewrite refs_insert by done.
  rewrite (H k e), IH; [done| |by rewrite lookup_insert_eq]. intros k' e' He'. apply (H k'). rewrite lookup_insert_ne; [done|congruence].
Qed.

(** ** The nodes of a run *)
Class Universe `{C : Crypto} : Type := {
  U : ptrie -> Prop;
  ext : ptrie -> list (list Z);
  rank : list Z -> nat;
}.
Class UniverseLaws {C : Crypto} (X : Universe) : Prop := {
  U_child s c : U s -> child_of c s -> U c;
  U_wf s : U s -> wf s /\ sized s;
  U_inj s u : U s -> U u -> is_node s -> is_node u -> phash s = phash u -> s = u;
  U_zero s : U s -> is_node s -> phash s <> zeroHash;
  U_empty s : U s -> is_node s -> phash s <> emptyRoot;
  U_ext s h : U s -> h ∈ ext s -> exists u, U u /\ is_node u /\ h = phash u;
  rank_child s c : U s -> tc child_of c s -> is_node c -> (rank (phash c) < rank (phash s))%nat;
  rank_ext s h : U s -> h ∈ ext s -> (rank h < rank (phash s))%nat;
  ext_nodup s : NoDup (ext s);
}.

Section ok.
Context `{C : Crypto} {CL : CryptoLaws C} `{St : NodeDB.KVStore} {SL : NodeDB.KVLaws St} `{K : Cache} {KL : CacheLaws K} {X : Universe} {XL : UniverseLaws X}.

(** What a node needs. *)
Definition kids (s : ptrie) : list (list Z) := gather s ++ ext s.
Definition U_node (s : ptrie) : Prop := U s /\ is_node s.
Lemma U_below s c : U s -> tc child_of c s -> U c.
Proof. intros Hs Hc. induction Hc as [c s Hc|c d s Hc _ IH]; [by eapply U_child|]. eapply U_child; [by apply IH|done]. Qed.
Lemma U_can s : U_node s -> can s.
Proof. intros [Hs Hn]. apply wf_node; [by apply U_wf|done]. Qed.
Lemma kids_node s h : U_node s -> h ∈ kids s -> exists u, U_node u /\ h = phash u /\ (rank h < rank (phash s))%nat.
Proof.
  intros [Hs Hn] [Hh|Hh]%elem_of_app.
  - apply gather_sub in Hh as (c & Hc & Hcn & _ & ->). exists c. split; [split; [by eapply U_below|done]|]. split; [done|]. by apply rank_child.
  - destruct (U_ext s h Hs Hh) as (u & Hu & Hun & ->). exists u. split; [done|]. split; [done|]. by apply rank_ext.
Qed.

Definition ond (db : Database) (h : list Z) : Prop := is_Some (NodeDB.Get (diskdb db) h).
(** [P] have left the list and lost their references, except those of [E]. *)
Record db_ok (db : Database) (P E L : list (list Z)) : Prop := {
  ok_linked : linked db P L;
  ok_nodes : forall h e, dirties db !! h = Some e -> h <> zeroHash -> exists s, U_node s /\ h = phash s /\ cn_node e = rnode_of s;
  ok_disk : forall s enc, U_node s -> NodeDB.Get (diskdb db) (phash s) = Some enc -> enc = penc s;
  ok_cleans : forall s enc, U_node s -> cleans_get db (phash s) = Some enc -> enc = penc s /\ ond db (phash s);
  ok_closed : forall s h, U_node s -> ond db (phash s) -> h ∈ kids s -> ond db h;
  ok_order : forall i s h, U_node s -> L !! i = Some (phash s) -> h ∈ kids s -> ond db h \/ exists j, (j < i)%nat /\ L !! j = Some h;
  ok_meta : forall e h n, dirties db !! zeroHash = Some e -> extern e !! h = Some n -> 1 <= n < 2 ^ 16 /\ (ond db h \/ h ∈ L);
  ok_extern : forall s e h n, U_node s -> phash s ∈ L -> dirties db !! phash s = Some e -> extern e !! h = Some n -> n = 1 /\ h ∈ ext s;
  ok_count : forall c e, c ∈ L -> dirties db !! c = Some e -> ond db c \/ parents e = refs (live (dirties db) P) c + count c E;
  ok_preimages : forall m k, preimages db = Some m -> is_Some (m !! k) -> length k = 32%nat;
}.
(** The roots in the values of the nodes in memory are referenced; [N]: except for new nodes. *)
Definition ext_ok (db : Database) (N L : list (list Z)) : Prop :=
  forall s e h, U_node s -> phash s ∈ L -> phash s ∉ N -> dirties db !! phash s = Some e -> h ∈ ext s -> ond db h \/ is_Some (extern e !! h).
Definition stored (db : Database) (h : list Z) : Prop := is_Some (dirties db !! h) \/ ond db h.

Section facts.
Context (db : Database) (P E L : list (list Z)) (Hok : db_ok db P E L).

Lemma ok_in h : h ∈ L -> is_Some (dirties db !! h) /\ h <> zeroHash /\ h ∉ P.
Proof.
  intros Hh. pose proof (lk_nodup _ _ _ (ok_linked _ _ _ _ Hok)) as Hd. split; [apply (lk_keys _ _ _ (ok_linked _ _ _ _ Hok)); set_solver|].
  rewrite NoDup_cons, NoDup_app in Hd. split; [by intros ->; set_solver|]. intros HP. naive_solver.
Qed.
Lemma ok_keys h : is_Some (dirties db !! h) -> h = zeroHash \/ h ∈ P \/ h ∈ L.
Proof. rewrite (lk_keys _ _ _ (ok_linked _ _ _ _ Hok)). set_solver. Qed.
Lemma ok_entry s e : U_node s -> dirties db !! phash s = Some e -> cn_node e = rnode_of s.
Proof.
  intros [Hs Hn] He. destruct (ok_nodes _ _ _ _ Hok _ _ He) as (u & [Hu Hun] & Eh & Er); [by apply U_zero|].
  by rewrite (U_inj s u Hs Hu Hn Hun Eh).
Qed.
Lemma ok_node h : h ∈ L -> exists s e, U_node s /\ h = phash s /\ dirties db !! h = Some e /\ cn_node e = rnode_of s.
Proof. intros Hh. destruct (ok_in h Hh) as ([e He] & Hz & _). destruct (ok_nodes _ _ _ _ Hok _ _ He Hz) as (s & ? & ? & ?). by exists s, e. Qed.
(** A stored node is read. *)
Lemma ok_read s : U_node s -> stored db (phash s) -> dbnode db (phash s) = Done (Some (enode (Some (phash s)) s)).
Proof.
  intros Hs Hst. pose proof (U_can s Hs) as Hc. destruct (U_wf s (proj1 Hs)) as [_ Hz].
  assert (Hm : mustDecodeNode (Some (phash s)) (penc s) = Done (enode (Some (phash s)) s)).
  { unfold mustDecodeNode. by rewrite decodeNode_spec. }
  unfold dbnode, node_. destruct (cleans_get db (phash s)) as [enc|] eqn:Ec.
  - destruct (ok_cleans _ _ _ _ Hok s enc Hs Ec) as [-> _]. by rewrite Hm.
  - destruct (dirties db !! phash s) as [e|] eqn:Ed; [by rewrite (obj_rnode e s _ (ok_entry s e Hs Ed) Hc)|].
    destruct Hst as [[? ?]|[enc Eg]]; [congruence|]. rewrite Eg. rewrite (ok_disk _ _ _ _ Hok s enc Hs Eg), Hm. done.
Qed.
Lemma ok_stored s x : U_node s -> dbnode db (phash s) = Done (Some x) -> stored db (phash s).
Proof.
  intros Hs. unfold dbnode, node_, stored. destruct (cleans_get db (phash s)) as [enc|] eqn:Ec; [intros _; right; by eapply ok_cleans|].
  destruct (dirties db !! phash s) as [e|]; [intros _; left; by eexists|]. unfold ond. destruct (NodeDB.Get _ _); [intros _; right; by eexists|done].
Qed.
(** What it needs is stored. *)
Definition kept (h : list Z) : Prop := ond db h \/ h ∈ L.
Lemma kept_stored h : kept h -> stored db h.
Proof. intros [?|Hh]; [by right|]. left. by apply ok_in. Qed.
Lemma kept_kids s h : U_node s -> kept (phash s) -> h ∈ kids s -> kept h.
Proof.
  intros Hs [Hd|[i Hi]%list_elem_of_lookup] Hh; [left; by eapply ok_closed|].
  destruct (ok_order _ _ _ _ Hok i s h Hs Hi Hh) as [?|(j & _ & Hj)]; [by left|right; by eapply list_elem_of_lookup_2].
Qed.
Lemma kept_below : forall s c, U_node s -> kept (phash s) -> tc child_of c s -> is_node c -> big c -> kept (phash c).
Proof.
  assert (H : forall n s c, (rank (phash s) < n)%nat -> U_node s -> kept (phash s) -> tc child_of c s -> is_node c -> big c -> kept (phash c)).
  { induction n as [|n IH]; [lia|]. intros s c Hn Hs Hk Hc Hcn Hb.
    destruct (gather_covers s c (U_can s Hs) Hc Hcn Hb) as (d & Hd & Hcd & Hdn & _ & Hds).
    assert (Hkd : kept (phash d)) by (eapply kept_kids; [done|done|]; apply elem_of_app; by left).
    apply rtc_tc in Hcd as [->|Hcd]; [done|]. destruct Hs as [Hs Hsn]. pose proof (rank_child s d Hs Hds Hdn).
    apply (IH d); [lia|split; [by eapply U_below|done]|done..]. }
  intros s c. apply (H (S (rank (phash s)))). lia.
Qed.
Lemma kept_all s : U_node s -> kept (phash s) -> db_all (dbnode db) false s.
Proof.
  intros Hs Hk. split; [left; apply ok_read; [done|by apply kept_stored]|]. intros c Hc Hcn Hb. left.
  apply ok_read; [split; [eapply U_below; [apply Hs|done]|done]|]. by eapply kept_stored, kept_below.
Qed.
End facts.
Lemma occ_nonneg db P E L c k e : db_ok db P E L -> live (dirties db) P !! k = Some e -> 0 <= occ c (core e).
Proof.
  intros Hok He. unfold occ, core. cbn [fst snd]. pose proof (count_nonneg c (forGatherChildren (cn_node e))).
  destruct (extern e !! c) as [n|] eqn:En; cbn [default from_option]; unfold id; [|lia].
  destruct (decide (k ∈ P)) as [Hk|Hk]; [by rewrite live_in in He|]. rewrite live_lookup in He by done.
  destruct (ok_keys _ _ _ _ Hok k) as [->|[?|HL]]; [by eexists| |done|].
  - destruct (ok_meta _ _ _ _ Hok e c n He En). lia.
  - destruct (ok_node _ _ _ _ Hok k HL) as (s & e' & Hs & -> & He' & _). destruct (ok_extern _ _ _ _ Hok s e c n Hs HL He En). lia.
Qed.
Lemma ok_refs_le db P E L c k e : db_ok db P E L -> live (dirties db) P !! k = Some e -> occ c (core e) <= refs (live (dirties db) P) c.
Proof. intros Hok He. eapply refs_le; [|done]. intros k' e' He'. by eapply occ_nonneg. Qed.
Lemma ok_refs_nonneg db P E L c : db_ok db P E L -> 0 <= refs (live (dirties db) P) c.
Proof. intros Hok. apply refs_nonneg. intros k' e' He'. by eapply occ_nonneg. Qed.
(** Nothing refers to a node that is not there. *)
Lemma ok_refs_none db E L c : db_ok db [] E L -> ~ stored db c -> refs (dirties db) c = 0.
Proof.
  intros Hok Hc. apply refs_zero. intros k e He. unfold occ, core. cbn [fst snd].
  destruct (ok_keys _ _ _ _ Hok k) as [->|[?%not_elem_of_nil|HL]]; [by eexists| |done|].
  - rewrite (lk_meta _ _ _ (ok_linked _ _ _ _ Hok) e He). destruct (extern e !! c) as [n|] eqn:En; [|done].
    destruct (ok_meta _ _ _ _ Hok e c n He En) as [_ Hk]. destruct Hc. by eapply kept_stored.
  - destruct (ok_node _ _ _ _ Hok k HL) as (s & e' & Hs & -> & He' & Er). simplify_eq. rewrite Er. fold (gather s).
    assert (Hno : forall h, h ∈ kids s -> h <> c).
    { intros h Hh ->. apply Hc. eapply kept_stored; [done|]. eapply kept_kids; [done|done|by right|done]. }
    rewrite count_none by (intros Hh; by apply (Hno c); [apply elem_of_app; left|]).
    destruct (extern e !! c) as [n|] eqn:En; [|done]. destruct (ok_extern _ _ _ _ Hok s e c n Hs HL He En) as [_ Hx].
    exfalso. apply (Hno c); [|done]. apply elem_of_app. by right.
Qed.
Lemma stored_kept db E L h : db_ok db [] E L -> stored db h -> h <> zeroHash -> kept db L h.
Proof. intros Hok [Hd|Ho] Hz; [|by left]. destruct (ok_keys _ _ _ _ Hok h Hd) as [?|[?%not_elem_of_nil|?]]; [done..|by right]. Qed.
End ok.
End TrieDBOk.
