(* ===== verification/TrieDBGrow.v ===== *)
(** * Nodes and references come into the trie database

    [insert] and [reference] keep the invariant of the database, provided that the
    counters of references (uint32, uint16 for the roots) do not overflow. *)

From stdpp Require Import base list numbers strings gmap relations.
From Stdlib Require Import ZArith Lia.
From S2P Require Import Prelude Bytes Rlp Enr NodeDB TrieKeys Trie TriePure TrieLoad TrieHash TrieDecode TrieDB TrieDBInv TrieRaw TrieDBOk.
Import Rlp Enr TrieKeys Trie TriePure TrieLoad TrieHash TrieDecode TrieDB TrieDBInv TrieRaw TrieDBOk.

Module TrieDBGrow.

(** ** New references to nodes in memory *)
Definition bump (l : list (list Z)) (D : gmap (list Z) cachedNode) : gmap (list Z) cachedNode :=
  foldl (fun d child => match d !! child with Some c => <[child := set_parents (u32 (parents c + 1)) c]> d | None => d end) D l.
Lemma bump_None l D k : D !! k = None -> bump l D !! k = None.
Proof.
  revert D. induction l as [|x l IH]; intros D Hk; [done|]. apply IH. destruct (D !! x) as [c|] eqn:Ex; [|done].
  rewrite lookup_insert_ne; [done|]. congruence.
Qed.
Lemma bump_Some l D k e : D !! k = Some e ->
  exists p, bump l D !! k = Some (set_parents p e) /\ (0 <= parents e -> parents e + count k l < 2 ^ 32 -> p = parents e + count k l).
Proof.
  revert D e. induction l as [|x l IH]; intros D e He.
  - exists (parents e). split; [change (bump [] D) with D; rewrite He; by destruct e|]. change (count k []) with 0. lia.
  - rewrite count_cons. pose proof (count_nonneg k l) as Hn. change (bump (x :: l) D) with (bump l (match D !! x with Some c => <[x := set_parents (u32 (parents c + 1)) c]> D | None => D end)). destruct (decide (x = k)) as [->|Hne].
    + rewrite He. destruct (IH (<[k := set_parents (u32 (parents e + 1)) e]> D) (set_parents (u32 (parents e + 1)) e)) as (p & Ep & Hp); [by rewrite lookup_insert_eq|].
      exists p. split; [exact Ep|]. intros H0 Hb. cbn [set_parents parents] in Hp. unfold u32 in Hp. rewrite Z.mod_small in Hp by lia. lia.
    + destruct (IH (match D !! x with Some c => <[x := set_parents (u32 (parents c + 1)) c]> D | None => D end) e) as (p & Ep & Hp).
      { destruct (D !! x); [by rewrite lookup_insert_ne|done]. }
      exists p. split; [exact Ep|]. exact Hp.
Qed.
Lemma bump_fmap {B} (f : cachedNode -> B) l D : (forall p e, f (set_parents p e) = f e) -> f <$> bump l D = f <$> D.
Proof.
  intros Hf. apply map_eq. intros k. rewrite !lookup_fmap. destruct (D !! k) as [e|] eqn:E; [|by rewrite bump_None].
  destruct (bump_Some l D k e E) as (p & -> & _). simpl. by rewrite Hf.
Qed.

Section grow.
Context `{C : Crypto} {CL : CryptoLaws C} `{St : NodeDB.KVStore} {SL : NodeDB.KVLaws St} `{K : Cache} {KL : CacheLaws K} {X : Universe} {XL : UniverseLaws X}.
Variable range_ : gmap (list Z) Z -> list (list Z).

(** There is room for [n] more references to every node. *)
Definition fits (db : Database) (n : Z) : Prop := forall c, refs (dirties db) c + n < 2 ^ 32.
(** What was in memory still is, with the same references or more. *)
Definition grows (db db' : Database) : Prop :=
  diskdb db' = diskdb db /\ cleans db' = cleans db
  /\ forall h e, dirties db !! h = Some e -> exists e', dirties db' !! h = Some e' /\ cn_node e' = cn_node e /\ dom (extern e) ⊆ dom (extern e').
Lemma grows_refl db : grows db db.
Proof. split; [done|]. split; [done|]. intros h e He. exists e. done. Qed.
Lemma grows_trans db1 db2 db3 : grows db1 db2 -> grows db2 db3 -> grows db1 db3.
Proof.
  intros (D1 & C1 & H1) (D2 & C2 & H2). split; [congruence|]. split; [congruence|]. intros h e He.
  destruct (H1 h e He) as (e1 & He1 & En1 & Ex1). destruct (H2 h e1 He1) as (e2 & He2 & En2 & Ex2). exists e2. split; [done|]. split; [congruence|]. by etrans.
Qed.
Lemma grows_ond db db' h : grows db db' -> ond db' h <-> ond db h.
Proof. intros (E & _). unfold ond. by rewrite E. Qed.
Lemma grows_stored db db' h : grows db db' -> stored db h -> stored db' h.
Proof.
  intros Hg [[e He]|Ho]; [|right; by apply (grows_ond db)]. left. destruct Hg as (_ & _ & Hg). destruct (Hg h e He) as (e' & ? & _). by exists e'.
Qed.

(** ** Inserting a node *)
Lemma linked_app db P L h k : linked db P L -> is_Some (dirties db !! k) -> k ∈ zeroHash :: P ++ L ++ [h].
Proof. intros Hl. rewrite (lk_keys _ _ _ Hl). set_solver. Qed.
Lemma insert_shape db P L h size n r :
  linked db P L -> dirties db !! h = None -> simplifyNode n = Done r ->
  exists db' e, insert range_ h size n db = Done (tt, db') /\ linked db' P (L ++ [h]) /\ same_rest db db'
    /\ content e = (r, u16 size, 0, None) /\ content <$> dirties db' = content <$> <[h := e]> (bump (forGatherChildren r) (dirties db)).
Proof.
  intros Hl Hh Hr. unfold insert. rewrite Hh, Hr. unfold mbind at 1, outcome_bind.
  set (e := mk_cachedNode r (u16 size) 0 None (newest db) zeroHash).
  assert (Ef : forChilds range_ e = forGatherChildren r) by (unfold forChilds; cbn [e children cn_node app]; by destruct r). rewrite Ef.
  change (foldl _ (dirties db) (forGatherChildren r)) with (bump (forGatherChildren r) (dirties db)).
  set (d := bump _ _). assert (Hhl : h ∉ zeroHash :: P ++ L).
  { intros Hin. apply (lk_keys _ _ _ Hl) in Hin as [x Hx]. congruence. }
  destruct (append_ends_spec db P L h d e Hl Hhl) as (db1 & E1 & Hl1 & Hr1); [by apply bump_fmap|done|done|].
  unfold append_ends in E1. rewrite E1. eexists _, e. split; [done|]. split; [|split; [|split; [done|]]].
  - destruct Hl1 as [? ? ? ? ? ?]. by split.
  - by destruct Hr1 as [(? & ? & ?) _].
  - by destruct Hr1 as [_ ?].
Qed.
Lemma insert_lookup (D D' : gmap (list Z) cachedNode) h e r k e' :
  content <$> D' = content <$> <[h := e]> (bump (forGatherChildren r) D) -> D' !! k = Some e' ->
  (k = h /\ content e' = content e) \/ (k <> h /\ exists e0, D !! k = Some e0 /\ cn_node e' = cn_node e0 /\ children e' = children e0
    /\ (0 <= parents e0 -> parents e0 + count k (forGatherChildren r) < 2 ^ 32 -> parents e' = parents e0 + count k (forGatherChildren r))).
Proof.
  intros Ec He'. assert (El : content <$> D' !! k = content <$> <[h := e]> (bump (forGatherChildren r) D) !! k) by (by rewrite <- !lookup_fmap, Ec).
  rewrite He' in El. destruct (decide (k = h)) as [->|Hne]; [left; rewrite lookup_insert_eq in El; split; [done|by apply (inj Some) in El]|].
  right. split; [done|]. rewrite lookup_insert_ne in El by done. destruct (D !! k) as [e0|] eqn:E0; [|by rewrite bump_None in El].
  destruct (bump_Some (forGatherChildren r) D k e0 E0) as (p & Ep & Hp). rewrite Ep in El. injection El as E1 E2 E3 E4.
  exists e0. split; [done|]. split; [done|]. split; [done|]. intros H1 H2. rewrite E3. by apply Hp.
Qed.
Lemma content_core e e' : content e = content e' -> core e = core e'.
Proof. unfold content, core, extern. intros [= -> _ _ ->]. done. Qed.
Lemma content_cores (D D' : gmap (list Z) cachedNode) : content <$> D = content <$> D' -> core <$> D = core <$> D'.
Proof.
  intros E. apply map_eq. intros k. assert (El : content <$> D !! k = content <$> D' !! k) by (by rewrite <- !lookup_fmap, E).
  rewrite !lookup_fmap. destruct (D !! k) as [e|], (D' !! k) as [e'|]; try done. apply (inj Some) in El. cbn [fmap option_fmap option_map]. f_equal. by apply content_core.
Qed.
Lemma count_length c l : count c l <= Z.of_nat (length l).
Proof. unfold count. pose proof (length_filter (fun x => x = c) l). lia. Qed.
(** The state after the insertion of [s]. *)
Section inserted.
Context (db db' : Database) (L : list (list Z)) (s : ptrie) (e : cachedNode) (size : Z) (Hok : db_ok db [] [] L) (Hs : U_node s).
Hypothesis Hn : dirties db !! phash s = None.
Hypothesis Hd : diskdb db' = diskdb db.
Hypothesis He : content e = (rnode_of s, size, 0, None).
Hypothesis Hc : content <$> dirties db' = content <$> <[phash s := e]> (bump (gather s) (dirties db)).

Lemma inserted_refs c : refs (dirties db') c = count c (gather s) + refs (dirties db) c.
Proof.
  rewrite (refs_ext _ _ c (content_cores _ _ Hc)), refs_insert by (by apply bump_None).
  rewrite (refs_ext (dirties db) (bump (gather s) (dirties db)) c) by (by apply bump_fmap).
  unfold occ, core, extern. injection He as -> _ _ ->. cbn [fst snd default from_option]. rewrite lookup_empty. unfold gather. cbn [default from_option]. lia.
Qed.
Lemma inserted_old k x : k <> phash s -> dirties db' !! k = Some x -> exists y, dirties db !! k = Some y /\ cn_node x = cn_node y /\ extern x = extern y.
Proof.
  intros Hk Hx. destruct (insert_lookup _ _ _ _ _ _ _ Hc Hx) as [[? _]|(_ & y & Hy & En & Ex & _)]; [done|]. exists y. split; [done|]. split; [done|]. unfold extern. by rewrite Ex.
Qed.
Lemma inserted_new x : dirties db' !! phash s = Some x -> cn_node x = rnode_of s /\ extern x = ∅ /\ parents x = 0.
Proof.
  intros Hx. destruct (insert_lookup _ _ _ _ _ _ _ Hc Hx) as [[_ Ex]|[? _]]; [|done]. rewrite He in Ex. unfold extern. by injection Ex as -> _ -> ->.
Qed.
Lemma inserted_count m c x : fits db (Z.of_nat (length (gather s)) + m) -> 0 <= m -> c ∈ L ++ [phash s] -> dirties db' !! c = Some x ->
  ond db' c \/ parents x = refs (dirties db') c + count c [].
Proof.
  intros Hf Hm Hcl Hx. change (count c []) with 0. rewrite inserted_refs. unfold ond. rewrite Hd. destruct (insert_lookup _ _ _ _ _ _ _ Hc Hx) as [[-> Ex]|(Hne & y & Hy & _ & _ & Hp)].
  - destruct (NodeDB.Get (diskdb db) (phash s)) as [enc|] eqn:Eg; [left; by eexists|right].
    rewrite (ok_refs_none db [] L _ Hok); [|intros [[? ?]|[? ?]]; congruence]. rewrite count_none.
    + rewrite He in Ex. injection Ex as _ _ -> _. done.
    + intros (u & _ & _ & Hr)%(fun H => kids_node s _ Hs (proj2 (elem_of_app _ _ _) (or_introl H))). lia.
  - assert (HcL : c ∈ L) by set_solver. destruct (ok_count _ _ _ _ Hok c y HcL Hy) as [?|Ep]; [by left|right].
    change (count c []) with 0 in Ep. change (live (dirties db) []) with (dirties db) in Ep.
    pose proof (ok_refs_nonneg db [] [] L c Hok) as Hr. change (live (dirties db) []) with (dirties db) in Hr.
    pose proof (Hf c). pose proof (count_length c (gather s)). unfold gather in *. rewrite Hp by lia. lia.
Qed.
End inserted.
Lemma insert_ok db L s size n m :
  db_ok db [] [] L -> U_node s -> dirties db !! phash s = None -> simplifyNode n = Done (rnode_of s) -> (forall h, h ∈ kids s -> kept db L h) ->
  fits db (Z.of_nat (length (gather s)) + m) -> 0 <= m ->
  exists db' e, insert range_ (phash s) size n db = Done (tt, db') /\ db_ok db' [] [] (L ++ [phash s]) /\ fits db' m /\ grows db db'
    /\ dirties db' !! phash s = Some e /\ extern e = ∅ /\ (forall N, ext_ok db N L -> ext_ok db' (phash s :: N) (L ++ [phash s])).
Proof.
  intros Hok Hs Hn Hsim Hk Hf Hm.
  destruct (insert_shape db [] L (phash s) size n _ (ok_linked _ _ _ _ Hok) Hn Hsim) as (db' & e & E & Hl & (Ed & Ecl & Epi) & Ee & Ec). fold (gather s) in Ec.
  assert (Eo : forall h, ond db' h <-> ond db h) by (intros h; unfold ond; by rewrite Ed).
  pose proof (inserted_old db db' s e Ec) as Hold. pose proof (inserted_new db db' s e _ Ee Ec) as Hnew. pose proof (inserted_refs db db' s e _ Hn Ee Ec) as Hrefs.
  destruct (linked_in db' [] _ (phash s) Hl) as [x Hx]; [set_solver|]. exists db', x.
  assert (Hz : zeroHash <> phash s) by (symmetry; apply U_zero; apply Hs).
  split; [done|]. split; [split; [done| | | | | | | | |]|split_and!].
  - intros h y Hy Hhz. destruct (decide (h = phash s)) as [->|Hne]; [exists s; split; [done|]; split; [done|]; by apply Hnew|].
    destruct (Hold h y Hne Hy) as (y0 & Hy0 & -> & _). by eapply ok_nodes.
  - intros u enc Hu. rewrite Ed. by apply (ok_disk _ _ _ _ Hok).
  - intros u enc Hu. unfold cleans_get. rewrite Ecl, Eo. by apply (ok_cleans _ _ _ _ Hok).
  - intros u h Hu. rewrite !Eo. by apply (ok_closed _ _ _ _ Hok).
  - intros i u h Hu Hi Hh. rewrite Eo. apply lookup_app_Some in Hi as [Hi|[Hge Hi]].
    + destruct (ok_order _ _ _ _ Hok i u h Hu Hi Hh) as [?|(j & Hj & HL)]; [by left|right]. exists j. split; [done|]. by apply lookup_app_l_Some.
    + apply list_lookup_singleton_Some in Hi as [Hi0 Eu]. rewrite <- (U_inj s u (proj1 Hs) (proj1 Hu) (proj2 Hs) (proj2 Hu) Eu) in Hh.
      destruct (Hk h Hh) as [?|[j Hj]%list_elem_of_lookup]; [by left|right]. exists j. split; [apply lookup_lt_Some in Hj; lia|]. by apply lookup_app_l_Some.
  - intros y h n0 Hy Hh. rewrite Eo. destruct (Hold _ _ Hz Hy) as (y0 & Hy0 & _ & Ex). rewrite Ex in Hh. destruct (ok_meta _ _ _ _ Hok y0 h n0 Hy0 Hh) as [? [?|?]]; split; try done; [by left|right; set_solver].
  - intros u y h n0 Hu HuL Hy Hh. destruct (decide (phash u = phash s)) as [Eq|Hne].
    + rewrite Eq in Hy. destruct (Hnew y Hy) as (_ & Ex & _). by rewrite Ex, lookup_empty in Hh.
    + destruct (Hold _ _ Hne Hy) as (y0 & Hy0 & _ & Ex). rewrite Ex in Hh. apply (ok_extern _ _ _ _ Hok u y0 h n0 Hu); [set_solver|done|done].
  - intros c y Hc Hy. by apply (inserted_count db db' L s e _ Hok Hs Hn Ed Ee Ec m).
  - rewrite Epi. apply (ok_preimages _ _ _ _ Hok).
  - intros c. rewrite Hrefs. specialize (Hf c). pose proof (count_length c (gather s)). lia.
  - split; [done|]. split; [done|]. intros h y Hy. assert (Hne : h <> phash s) by congruence.
    destruct (linked_in db' [] _ h Hl) as [y' Hy']; [apply (linked_app _ _ _ _ _ (ok_linked _ _ _ _ Hok)); by eexists|].
    destruct (Hold _ _ Hne Hy') as (y0 & Hy0 & En & Ex). simplify_eq. exists y'. split; [done|]. split; [done|]. by rewrite Ex.
  - done.
  - by apply Hnew.
  - intros N Hext u y h Hu HuL HuN Hy Hh. rewrite Eo. assert (Hne : phash u <> phash s) by set_solver.
    destruct (Hold _ _ Hne Hy) as (y0 & Hy0 & _ & Ex). rewrite Ex. apply (Hext u y0 h); set_solver.
Qed.

(** ** A reference to a root *)
Lemma linked_shape db db' P L : linked db P L -> shape <$> dirties db' = shape <$> dirties db -> oldest db' = oldest db -> newest db' = newest db -> linked db' P L.
Proof.
  intros [H1 H2 H3 H4 H5 H6] Hs Eo En. split; [done| |congruence|by rewrite En|by rewrite (shape_links _ _ Hs)|].
  - intros h. pose proof (shape_lookup _ _ h Hs) as Es. by rewrite <- H2, <- (fmap_is_Some shape (dirties db' !! h)), Es, fmap_is_Some.
  - intros e He. pose proof (shape_lookup _ _ zeroHash Hs) as Es. rewrite He in Es. destruct (dirties db !! zeroHash) as [y|] eqn:Ey; [|done]. injection Es as -> _ _. by apply H6.
Qed.
Definition add_child (h : list Z) (e : cachedNode) : cachedNode := set_children (Some (<[h := u16 (default 0 (extern e !! h) + 1)]> (extern e))) e.
Definition add_parent (e : cachedNode) : cachedNode := set_parents (u32 (parents e + 1)) e.
Lemma reference_shape db child parent ec ep :
  dirties db !! child = Some ec -> dirties db !! parent = Some ep -> child <> parent -> (is_Some (extern ep !! child) -> parent = zeroHash) ->
  exists db', reference child parent db = Done (tt, db') /\ same_rest db db' /\ oldest db' = oldest db /\ newest db' = newest db
    /\ dirties db' = <[parent := add_child child ep]> (<[child := add_parent ec]> (dirties db)).
Proof.
  intros Hc Hp Hne Hin. unfold reference. rewrite Hc. unfold mbind, GoM_bind, get_dirty. rewrite Hp. unfold add_childrenSize, gmodify, mret, GoM_ret, upd_dirty.
  unfold extern, add_child in *. destruct (children ep) as [m|] eqn:Em; cbn [default from_option] in *.
  - assert (Eb : (bool_decide (is_Some (m !! child)) && negb (bool_decide (parent = zeroHash)))%bool = false).
    { destruct (bool_decide_reflect (is_Some (m !! child))) as [Hs|]; [|done]. by rewrite bool_decide_eq_true_2 by (by apply Hin). }
    rewrite Eb, Hc. cbn [dirties set_dirties]. rewrite lookup_insert_ne, Hp by done.
    destruct (_ =? 1); (eexists; split; [done|]); (split; [done|]); (split; [done|]); (split; [done|]); cbn [dirties set_dirties set_sizes]; unfold extern; by rewrite Em.
  - cbn [dirties set_dirties set_sizes]. rewrite Hc. cbn [dirties set_dirties set_sizes]. rewrite lookup_insert_ne, Hp by done.
    eexists. split; [done|]. split; [done|]. split; [done|]. split; [done|]. cbn [dirties set_dirties set_sizes]. unfold extern. by rewrite Em.
Qed.
Definition may_refer (db : Database) (L : list (list Z)) (child parent : list Z) (ep : cachedNode) : Prop :=
  (parent = zeroHash /\ default 0 (extern ep !! child) < 2 ^ 16 - 1)
  \/ (exists s, U_node s /\ parent = phash s /\ parent ∈ L /\ child ∈ ext s /\ extern ep !! child = None).
Section referred.
Context (db db' : Database) (L : list (list Z)) (child parent : list Z) (ec ep : cachedNode) (Hok : db_ok db [] [] L).
Hypothesis Hc : dirties db !! child = Some ec.
Hypothesis Hp : dirties db !! parent = Some ep.
Hypothesis Hne : child <> parent.
Hypothesis Hmay : may_refer db L child parent ep.
Hypothesis Hr : same_rest db db'.
Hypothesis HD : dirties db' = <[parent := add_child child ep]> (<[child := add_parent ec]> (dirties db)).

Lemma referred_count : 0 <= default 0 (extern ep !! child) < 2 ^ 16 - 1.
Proof.
  destruct Hmay as [[-> Hlt]|(s & _ & _ & _ & _ & ->)]; [|done]. split; [|done].
  destruct (extern ep !! child) as [n|] eqn:En; [|done]. destruct (ok_meta _ _ _ _ Hok ep child n Hp En). simpl in *. lia.
Qed.
Lemma referred_child : extern (add_child child ep) = <[child := default 0 (extern ep !! child) + 1]> (extern ep).
Proof. pose proof referred_count. unfold add_child, u16. rewrite Z.mod_small by lia. done. Qed.
Lemma referred_lookup k x : dirties db' !! k = Some x -> exists y, dirties db !! k = Some y /\ cn_node x = cn_node y
  /\ extern x = (if decide (k = parent) then <[child := default 0 (extern ep !! child) + 1]> (extern ep) else extern y)
  /\ parents x = (if decide (k = child) then u32 (parents y + 1) else parents y).
Proof.
  rewrite HD. destruct (decide (k = parent)) as [->|Hk].
  - rewrite lookup_insert_eq. intros [= <-]. exists ep. rewrite referred_child, decide_False by done. done.
  - rewrite lookup_insert_ne by done. destruct (decide (k = child)) as [->|Hkc]; [rewrite lookup_insert_eq|rewrite lookup_insert_ne by done].
    + intros [= <-]. by exists ec.
    + intros Hx. by exists x.
Qed.
Lemma referred_refs c : refs (dirties db') c = refs (dirties db) c + (if decide (c = child) then 1 else 0).
Proof.
  rewrite HD, (refs_update _ parent ep) by (by rewrite lookup_insert_ne). rewrite (refs_update _ child ec) by done.
  change (core (add_parent ec)) with (core ec). unfold occ, core. cbn [fst snd]. rewrite referred_child. cbn [cn_node add_child set_children].
  destruct (decide (c = child)) as [->|Hcc]; [rewrite lookup_insert_eq|rewrite lookup_insert_ne by done]; cbn [default from_option]; unfold id; lia.
Qed.
Lemma referred_ok m : child ∈ L -> oldest db' = oldest db -> newest db' = newest db -> fits db (1 + m) -> 0 <= m -> db_ok db' [] [] L /\ fits db' m /\ grows db db'.
Proof.
  intros HcL Eo En Hf Hm. destruct Hr as (Ed & Ecl & Epi). assert (Eon : forall h, ond db' h <-> ond db h) by (intros h; unfold ond; by rewrite Ed).
  pose proof referred_lookup as Hlk. pose proof referred_refs as Hrefs. pose proof referred_count as Hn0.
  split; [split|split].
  - eapply linked_shape; [apply (ok_linked _ _ _ _ Hok)| |done|done]. rewrite HD. rewrite !fmap_insert.
    change (shape (add_child child ep)) with (shape ep). change (shape (add_parent ec)) with (shape ec).
    rewrite !insert_id; rewrite ?lookup_insert_ne, ?lookup_fmap, ?Hp, ?Hc by done; done.
  - intros h e He Hz. destruct (Hlk h e He) as (y & Hy & -> & _). by eapply ok_nodes.
  - intros u enc Hu. rewrite Ed. by apply (ok_disk _ _ _ _ Hok).
  - intros u enc Hu. unfold cleans_get. rewrite Ecl, Eon. by apply (ok_cleans _ _ _ _ Hok).
  - intros u h Hu. rewrite !Eon. by apply (ok_closed _ _ _ _ Hok).
  - intros i u h Hu Hi Hh. rewrite Eon. by eapply ok_order.
  - intros e h n He Hh. rewrite Eon. destruct (Hlk _ e He) as (y & Hy & _ & Ex & _). rewrite Ex in Hh. case_decide as Ez; [|by eapply ok_meta]. subst parent.
    apply lookup_insert_Some in Hh as [[<- <-]|[_ Hh]]; [|rewrite Hy in Hp; injection Hp as ->; by eapply ok_meta]. split; [lia|by right].
  - intros u e h n Hu HuL He Hh. destruct (Hlk _ e He) as (y & Hy & _ & Ex & _). rewrite Ex in Hh. case_decide as Ez; [|by eapply ok_extern].
    assert (y = ep) as -> by congruence. apply lookup_insert_Some in Hh as [[<- <-]|[_ Hh]]; [|by eapply ok_extern].
    destruct Hmay as [[Ez' _]|(s & Hs & Eh & _ & Hx & ->)]; [by destruct (U_zero u (proj1 Hu) (proj2 Hu)); rewrite Ez, Ez'|].
    split; [done|]. by rewrite (U_inj u s (proj1 Hu) (proj1 Hs) (proj2 Hu) (proj2 Hs)) by congruence.
  - intros c e Hcl He. rewrite Eon. change (live (dirties db') []) with (dirties db'). rewrite Hrefs. change (count c []) with 0. destruct (Hlk _ e He) as (y & Hy & _ & _ & Ep).
    destruct (ok_count _ _ _ _ Hok c y Hcl Hy) as [?|Ey]; [by left|right]. change (live (dirties db) []) with (dirties db) in Ey. change (count c []) with 0 in Ey.
    pose proof (ok_refs_nonneg db [] [] L c Hok) as Hr0. change (live (dirties db) []) with (dirties db) in Hr0.
    specialize (Hf c). rewrite Ep. case_decide; [unfold u32; rewrite Z.mod_small|]; lia.
  - rewrite Epi. apply (ok_preimages _ _ _ _ Hok).
  - intros c. rewrite Hrefs. specialize (Hf c). case_decide; lia.
  - split; [done|]. split; [done|]. intros h e He. rewrite HD. destruct (decide (h = parent)) as [->|Hk].
    + rewrite lookup_insert_eq. simplify_eq. eexists. split; [done|]. split; [done|]. rewrite referred_child.
      rewrite dom_insert_L. set_solver.
    + rewrite lookup_insert_ne by done. destruct (decide (h = child)) as [->|Hkc]; [rewrite lookup_insert_eq|rewrite lookup_insert_ne by done].
      * assert (e = ec) as -> by congruence. by exists (add_parent ec).
      * by exists e.
Qed.
Lemma referred_ext N : ext_ok db N L -> ext_ok db' N L.
Proof.
  intros Hx u e h Hu HuL HuN He Hh. destruct (referred_lookup _ e He) as (y & Hy & _ & Ex & _). rewrite Ex. unfold ond. rewrite (proj1 Hr).
  destruct (Hx u y h Hu HuL HuN Hy Hh) as [?|Hs]; [by left|right]. case_decide as Ez; [|done].
  assert (y = ep) as -> by congruence. destruct (decide (h = child)) as [->|Hhc]; [by rewrite lookup_insert_eq|by rewrite lookup_insert_ne].
Qed.
End referred.
(** The outcome of a call of [reference]: the child is referenced, or on disk. *)
Definition reference_spec (db : Database) (N L : list (list Z)) (m : Z) (child parent : list Z) : Prop :=
  exists db', reference child parent db = Done (tt, db') /\ db_ok db' [] [] L /\ fits db' m /\ grows db db' /\ ext_ok db' N L
    /\ (stored db child -> ond db' child \/ exists e, dirties db' !! parent = Some e /\ is_Some (extern e !! child)).
Lemma reference_may db N L m child parent ep :
  db_ok db [] [] L -> ext_ok db N L -> child ∈ L -> child <> parent -> dirties db !! parent = Some ep -> may_refer db L child parent ep ->
  fits db (1 + m) -> 0 <= m -> reference_spec db N L m child parent.
Proof.
  intros Hok Hx HcL Hne Hp Hmay Hf Hm. destruct (ok_in _ _ _ _ Hok child HcL) as ([ec Hc] & _).
  destruct (reference_shape db child parent ec ep Hc Hp Hne) as (db' & E & Hr & Eo & En & HD).
  { intros [n Hn]. by destruct Hmay as [[? _]|(? & ? & ? & ? & ? & ?)]; [|simplify_eq]. }
  exists db'. split; [done|]. destruct (referred_ok db db' L child parent ec ep Hok Hc Hp Hne Hmay Hr HD m) as (H1 & H2 & H3); [done..|].
  split; [done|]. split; [done|]. split; [done|]. split; [exact (referred_ext db db' L child parent ec ep Hok Hc Hp Hne Hmay Hr HD N Hx)|]. intros _. right. rewrite HD, lookup_insert_eq. eexists. split; [done|].
  rewrite (referred_child db db' L child parent ec ep Hok Hp Hne Hmay HD), lookup_insert_eq. by eexists.
Qed.
Lemma fits_le db m n : fits db n -> m <= n -> fits db m.
Proof. intros Hf Hmn c. specialize (Hf c). lia. Qed.
Lemma reference_root db N L root m ep :
  db_ok db [] [] L -> ext_ok db N L -> root <> zeroHash -> dirties db !! zeroHash = Some ep -> default 0 (extern ep !! root) < 2 ^ 16 - 1 ->
  fits db (1 + m) -> 0 <= m -> reference_spec db N L m root zeroHash.
Proof.
  intros Hok Hx Hz Hep Hn Hf Hm. destruct (dirties db !! root) as [er|] eqn:Er.
  - destruct (ok_keys _ _ _ _ Hok root) as [?|[?%not_elem_of_nil|HL]]; [by eexists|done..|]. eapply reference_may; eauto. by left.
  - exists db. unfold reference. rewrite Er. split; [done|]. split; [done|]. split; [apply (fits_le db m (1 + m)); [done|lia]|]. split; [apply grows_refl|]. split; [done|].
    intros [[? ?]|?]; [congruence|by left].
Qed.
Lemma reference_ext db N L s child m :
  db_ok db [] [] L -> ext_ok db N L -> U_node s -> phash s ∈ L -> child ∈ ext s -> fits db (1 + m) -> 0 <= m -> reference_spec db N L m child (phash s).
Proof.
  intros Hok Hx Hs HsL Hch Hf Hm. destruct (ok_in _ _ _ _ Hok _ HsL) as ([ep Hp] & _).
  assert (Hsame : (stored db child -> ond db child \/ is_Some (extern ep !! child)) -> reference child (phash s) db = Done (tt, db) -> reference_spec db N L m child (phash s)).
  { intros Hst E. exists db. split; [done|]. split; [done|]. split; [apply (fits_le db m (1 + m)); [done|lia]|]. split; [apply grows_refl|]. split; [done|]. intros H. destruct (Hst H); [by left|right; by exists ep]. }
  destruct (U_ext s child (proj1 Hs) Hch) as (u & Hu & Hun & Eu). pose proof (rank_ext s child (proj1 Hs) Hch) as Hrk.
  destruct (dirties db !! child) as [ec|] eqn:Ec.
  - destruct (extern ep !! child) as [n|] eqn:En.
    + apply Hsame; [intros _; right; by eexists|]. unfold reference. rewrite Ec. unfold mbind, GoM_bind, get_dirty. rewrite Hp.
      unfold extern in En. destruct (children ep) as [mp|]; [|change (@empty (gmap (list Z) Z) _ !! child = Some n) in En; by rewrite lookup_empty in En]. cbn [default from_option] in En. unfold id in En.
      rewrite bool_decide_eq_true_2 by (by eexists). rewrite bool_decide_eq_false_2; [done|]. by apply U_zero; apply Hs.
    + destruct (ok_keys _ _ _ _ Hok child) as [Ez|[?%not_elem_of_nil|HL]]; [by eexists|by destruct (U_zero u Hu Hun); congruence|done|].
      eapply (reference_may db N L m child (phash s) ep); eauto; [intros ->; lia|]. right. by exists s.
  - apply Hsame; [intros [[? ?]|?]; [congruence|by left]|]. unfold reference. by rewrite Ec.
Qed.
End grow.
End TrieDBGrow.
