(* ===== verification/TrieCommit.v ===== *)
(** * Committing a trie to the database

    A commit inserts the nodes of the trie that are new, children first, and keeps
    the invariant of the database. *)

From stdpp Require Import base list numbers strings gmap relations.
From Stdlib Require Import ZArith Lia.
From S2P Require Import Prelude Bytes Rlp Enr NodeDB TrieKeys Trie TriePure TrieLoad TrieHash TrieDecode TrieMap TrieDB TrieDBInv TrieRaw TrieDBOk TrieDBGrow.
Import Rlp Enr TrieKeys Trie TriePure TrieLoad TrieHash TrieDecode TrieMap TrieDB TrieDBInv TrieRaw TrieDBOk TrieDBGrow.

Module TrieCommit.

(** The value at a node itself. *)
Definition leaf_of (s : ptrie) : option (list Z) :=
  match s with
  | PShort _ (PVal v) => Some v
  | PFull cs => match cs !! 16%nat with Some (PVal v) => Some v | _ => None end
  | _ => None
  end.

Section commit.
Context `{C : Crypto} {CL : CryptoLaws C} `{St : NodeDB.KVStore} {SL : NodeDB.KVLaws St} `{K : Cache} {KL : CacheLaws K} {X : Universe} {XL : UniverseLaws X}.
Variable range_ : gmap (list Z) Z -> list (list Z).
Variable onleaf : option (list Z -> list Z -> GoM Database unit).
Variable roots : list Z -> list (list Z).

(** The callback references the roots in a value. *)
Definition onleaf_refs : Prop :=
  match onleaf with
  | None => forall v, roots v = []
  | Some f => forall v h db, f v h db = for_each (roots v) (fun c => Reference c h) db
  end.
Definition leaf_roots (s : ptrie) : list (list Z) := match leaf_of s with Some v => roots v | None => [] end.
(** The references that a commit of [t] adds, at most. *)
Fixpoint weight (t : ptrie) : Z :=
  Z.of_nat (length (kids t)) + match t with PShort _ c => weight c | PFull cs => foldr Z.add 0 (map weight cs) | _ => 0 end.
(** The roots in the values of [t] are stored. *)
Definition ready (db : Database) (t : ptrie) : Prop :=
  forall s, rtc child_of s t -> is_node s -> ext s = leaf_roots s /\ forall h, h ∈ ext s -> stored db h.
Definition good (db : Database) (L : list (list Z)) : Prop := db_ok db [] [] L /\ ext_ok db [] L.

Hypothesis Honleaf : onleaf_refs.

Lemma for_each_references s N l : forall db L m,
  db_ok db [] [] L -> ext_ok db N L -> U_node s -> phash s ∈ L -> l ⊆ ext s -> (forall h, h ∈ l -> stored db h) -> fits db (Z.of_nat (length l) + m) -> 0 <= m ->
  exists db', for_each l (fun c => Reference c (phash s)) db = Done (tt, db') /\ db_ok db' [] [] L /\ ext_ok db' N L /\ fits db' m /\ grows db db'
    /\ forall h, h ∈ l -> ond db' h \/ exists e, dirties db' !! phash s = Some e /\ is_Some (extern e !! h).
Proof.
  induction l as [|c l IH]; intros db L m Hok Hx Hs HsL Hl Hst Hf Hm.
  - exists db. split; [done|]. split; [done|]. split; [done|]. split; [done|]. split; [apply grows_refl|]. by intros h ?%not_elem_of_nil.
  - destruct (reference_ext db N L s c (Z.of_nat (length l) + m)) as (db1 & E1 & Hok1 & Hf1 & Hg1 & Hx1 & Hc); [done..|set_solver|eapply fits_le; [done|cbn [length]; lia]|lia|].
    destruct (IH db1 L m Hok1 Hx1 Hs HsL) as (db2 & E2 & Hok2 & Hx2 & Hf2 & Hg2 & Hall); [set_solver| |done|done|].
    { intros h Hh. eapply grows_stored; [done|]. apply Hst. by right. }
    exists db2. cbn [for_each]. unfold mbind, GoM_bind. change (Reference c (phash s) db) with (reference c (phash s) db). rewrite E1.
    split; [done|]. split; [done|]. split; [done|]. split; [done|]. split; [by eapply grows_trans|].
    intros h [->|Hh]%elem_of_cons; [|by apply Hall]. destruct (Hc (Hst c ltac:(left))) as [?|(e & He & Hin)]; [left; by apply (grows_ond db1)|right].
    destruct Hg2 as (_ & _ & Hg2). destruct (Hg2 _ e He) as (e' & He' & _ & Hdom). exists e'. split; [done|]. apply elem_of_dom. apply Hdom. by apply elem_of_dom.
Qed.
Lemma for_each_nil (db : Database) (f : list Z -> GoM Database unit) : for_each [] f db = Done (tt, db).
Proof. done. Qed.
(** [n] is the collapsed node of [s]. *)
Record collapsed (n : node) (s : ptrie) : Prop := {
  col_node : is_node s /\ is_hash n = false;
  col_simplify : simplifyNode n = Done (rnode_of s);
  col_size : exists z, estimateSize n = Done z;
  col_leaf : forall h db, call_onleaf onleaf n h db = for_each (leaf_roots s) (fun c => Reference c h) db;
}.
Lemma ext_ok_weaken db N L h : ext_ok db N L -> ext_ok db (h :: N) L.
Proof. intros Hx s e h' Hs HL HN. apply Hx; [done|done|]. set_solver. Qed.
(** A node with a hash is inserted, if it is not there yet. *)
Lemma store_hash db L n s m :
  good db L -> U_node s -> collapsed n s -> (cache n).1 = Some (phash s) -> ext s = leaf_roots s -> (forall h, h ∈ kids s -> stored db h) ->
  fits db (Z.of_nat (length (kids s)) + m) -> 0 <= m ->
  exists db' L', store_ range_ onleaf n db = Done (hashNode (phash s), db') /\ good db' L' /\ fits db' m /\ grows db db' /\ stored db' (phash s).
Proof.
  intros [Hok Hx] Hs [_ Hsim [z Hz] Hleaf] Hc Hext Hk Hf Hm. unfold kids in Hf. rewrite length_app in Hf.
  assert (Hkept : forall h, h ∈ kids s -> kept db L h).
  { intros h Hh. destruct (kids_node s h Hs Hh) as (u & [Hu Hun] & -> & _). eapply stored_kept; [done|by apply Hk|by apply U_zero]. }
  assert (Hins : exists db1 L1, insert range_ (phash s) z n db = Done (tt, db1) /\ db_ok db1 [] [] L1 /\ ext_ok db1 [phash s] L1 /\ phash s ∈ L1
    /\ fits db1 (Z.of_nat (length (ext s)) + m) /\ grows db db1).
  { destruct (dirties db !! phash s) as [e|] eqn:Ee.
    - exists db, L. unfold insert. rewrite Ee. split; [done|]. split; [done|]. split; [by apply ext_ok_weaken|].
      destruct (ok_keys _ _ _ _ Hok (phash s)) as [Ez|[?%not_elem_of_nil|HL]]; [by eexists|by destruct (U_zero s (proj1 Hs) (proj2 Hs))|done|].
      split; [done|]. split; [eapply fits_le; [done|lia]|apply grows_refl].
    - destruct (insert_ok range_ db L s z n (Z.of_nat (length (ext s)) + m)) as (db1 & e & E & Hok1 & Hf1 & Hg1 & _ & _ & Hx1); [done..|eapply fits_le; [done|lia]|lia|].
      exists db1, (L ++ [phash s]). split; [done|]. split; [done|]. split; [by apply Hx1|]. split; [set_solver|done]. }
  destruct Hins as (db1 & L1 & E1 & Hok1 & Hx1 & HL1 & Hf1 & Hg1).
  destruct (for_each_references s [phash s] (ext s) db1 L1 m) as (db2 & E2 & Hok2 & Hx2 & Hf2 & Hg2 & Hall); [done..| |done|done|].
  { intros h Hh. eapply grows_stored; [done|]. apply Hk, elem_of_app. by right. }
  exists db2, L1. unfold store_. rewrite Hc. unfold mbind, GoM_bind, lift, mret, GoM_ret. rewrite Hz. unfold mbind at 1, outcome_bind. rewrite BytesToHash_hash, E1, Hleaf, <- Hext, E2.
  split; [done|]. split; [split; [done|]|split; [done|]; split; [by eapply grows_trans|]].
  - intros u e h Hu HuL _ He Hh. destruct (decide (phash u = phash s)) as [Eq|Hne]; [|apply (Hx2 u e h); set_solver].
    rewrite (U_inj u s (proj1 Hu) (proj1 Hs) (proj2 Hu) (proj2 Hs) Eq) in *. destruct (Hall h Hh) as [?|(e' & He' & ?)]; [by left|right; by simplify_eq].
  - left. by apply (ok_in _ _ _ _ Hok2).
Qed.

(** What [commit] leaves for the parent. *)
Definition simplify_child (c : node) : outcome rnode := match c with Nil => Done RNil | _ => simplifyNode c end.
Definition left_for (b : bool) (s : ptrie) (n : node) (db : Database) : Prop :=
  (exists z, estimateSize n = Done z) /\
  if b then n = hashNode (phash s) /\ stored db (phash s)
  else simplifyNode n = Done (rref s) /\ forall h, h ∈ forGatherChildren (rref s) -> stored db h.
Definition commit_ok (b : bool) (s : ptrie) (m : Z) (db : Database) (r : outcome (node * Z * Database)) : Prop :=
  exists n k db' L, r = Done (n, k, db') /\ good db' L /\ fits db' m /\ grows db db' /\ left_for b s n db'.
Lemma rref_big s : is_node s -> big s -> rref s = rhash (phash s).
Proof. intros Hn Hb. unfold rref, rref_of, big in *. rewrite (proj2 (Nat.ltb_ge _ _)) by lia. by destruct s. Qed.
Lemma rref_small s : is_node s -> ~ big s -> rref s = rnode_of s.
Proof. intros Hn Hb. unfold rref, rref_of, big in *. rewrite (proj2 (Nat.ltb_lt _ _)) by lia. by destruct s. Qed.
Lemma left_hash b s db : is_node s -> (b = false -> big s) -> stored db (phash s) -> left_for b s (hashNode (phash s)) db.
Proof.
  intros Hn Hb Hs. split; [by eexists|]. destruct b; [done|]. rewrite rref_big by auto. split; [done|].
  cbn [forGatherChildren]. rewrite BytesToHash_hash. by intros h ->%list_elem_of_singleton.
Qed.
Lemma commit_node_ok b db L n s k m :
  good db L -> U_node s -> collapsed n s ->
  match (cache n).1 with Some h => h = phash s /\ (b = false -> big s) | None => b = false /\ ~ big s end ->
  ext s = leaf_roots s -> (forall h, h ∈ kids s -> stored db h) -> fits db (Z.of_nat (length (kids s)) + m) -> 0 <= m ->
  commit_ok b s m db (commit_node range_ onleaf n k db).
Proof.
  intros Hg Hs Hc Hfl Hext Hk Hf Hm. unfold commit_node, mbind, GoM_bind, mret, GoM_ret. destruct (cache n).1 as [h|] eqn:Eh.
  - destruct Hfl as [-> Hb]. destruct (store_hash db L n s m) as (db' & L' & E & Hg' & Hf' & Hgr & Hst); [done..|]. rewrite E.
    exists (hashNode (phash s)), (k + 1), db', L'. split; [done|]. split; [done|]. split; [done|]. split; [done|]. apply left_hash; [apply Hs|done..].
  - destruct Hfl as [-> Hb]. unfold store_. rewrite Eh. unfold mret, GoM_ret. pose proof (col_node _ _ Hc) as [_ Hnh].
    exists n, k, db, L. split; [by destruct n|]. split; [done|]. split; [eapply fits_le; [done|lia]|]. split; [apply grows_refl|].
    split; [apply (col_size _ _ Hc)|]. rewrite rref_small by (apply Hs || done). split; [apply (col_simplify _ _ Hc)|]. intros h Hh. apply Hk, elem_of_app. by left.
Qed.

Lemma rref_not_value s v : is_node s -> rref s <> rvalue v /\ rref s <> RNil.
Proof. destruct s; try done; intros _; unfold rref, rref_of; by destruct (_ <? _)%nat. Qed.
Lemma collapsed_short k c v fl :
  can (PShort k c) -> simplifyNode v = Done (rref c) -> (exists z, estimateSize v = Done z) -> collapsed (shortNode (compact k) v fl) (PShort k c).
Proof.
  intros Hc Hv [z Hz]. split; [done|cbn [simplifyNode]; by rewrite Hv|exists (3 + len (compact k) + z); cbn [estimateSize]; by rewrite Hz|].
  intros h db. unfold call_onleaf, leaf_roots. unfold onleaf_refs in Honleaf. inversion Hc as [ns x|k' cs|]; subst; cbn [leaf_of].
  - destruct v; cbn [simplifyNode] in Hv; try done.
    + unfold mbind, outcome_bind in Hv. by case_match.
    + unfold mbind, outcome_bind in Hv. by case_match.
    + injection Hv as ->. destruct onleaf as [f|]; [done|]. by rewrite Honleaf.
  - destruct v; try (by destruct onleaf). injection Hv as Hv. by destruct (rref_not_value (PFull cs) v).
Qed.
Lemma sequence_total {A B} (f : A -> outcome B) l : Forall (fun x => exists y, f x = Done y) l -> exists ys, sequence (map f l) = Done ys.
Proof. induction 1 as [|x l (y & Hx) _ (ys & IH)]; [by exists []|]. exists (y :: ys). cbn [map sequence]. by rewrite Hx, IH. Qed.
Lemma sequence_Forall2 {A B D} (f : A -> outcome B) (P : A -> D -> Prop) (g : D -> B) l l' :
  (forall x y, P x y -> f x = Done (g y)) -> Forall2 P l l' -> sequence (map f l) = Done (map g l').
Proof. intros Hf. induction 1 as [|x y l l' Hxy _ IH]; [done|]. cbn [map sequence]. rewrite (Hf _ _ Hxy), IH. done. Qed.
Definition size_child (c : node) : outcome Z := match c with Nil => Done 1 | _ => estimateSize c end.
Definition child_left (n : node) (c : ptrie) : Prop := simplify_child n = Done (rref c) /\ exists z, size_child n = Done z.
Lemma collapsed_full cs ns fl :
  can (PFull cs) -> Forall2 child_left ns cs -> (forall x, ns !! 16%nat = Some x -> x = Nil \/ exists v, x = valueNode v) -> collapsed (fullNode ns fl) (PFull cs).
Proof.
  intros Hc HF H16. split; [done| | |].
  - cbn [simplifyNode]. change (fun c => match c with Nil => Done RNil | _ => simplifyNode c end) with simplify_child.
    rewrite (sequence_Forall2 simplify_child child_left rref ns cs); [done|by intros x y [? _]|done].
  - cbn [estimateSize]. change (fun c => match c with Nil => Done 1 | _ => estimateSize c end) with size_child. rewrite firstn_map.
    destruct (sequence_total size_child (take 16 ns)) as (zs & Hs); [|rewrite Hs; by eexists].
    apply Forall_take. clear -HF. induction HF as [|x c l l' [_ ?] _ IH]; by constructor.
  - intros h db. unfold call_onleaf, leaf_roots. cbn [leaf_of]. unfold onleaf_refs in Honleaf. pose proof (Forall2_length _ _ _ HF) as Hlen.
    apply can_full_inv in Hc as (Hl & _). destruct (lookup_lt_is_Some_2 ns 16) as [x Hx]; [lia|]. destruct (lookup_lt_is_Some_2 cs 16) as [c Hc]; [lia|].
    destruct (Forall2_lookup_lr _ _ _ _ _ _ HF Hx Hc) as [Hxc _]. rewrite Hx, Hc.
    destruct (H16 x Hx) as [->|[v ->]]; injection Hxc as Hxc.
    + destruct c as [|v|k c|cs']; [by destruct onleaf|done|by destruct (rref_not_value (PShort k c) [])|by destruct (rref_not_value (PFull cs') [])].
    + destruct c as [|v'|k c|cs']; [done| |by destruct (rref_not_value (PShort k c) v)|by destruct (rref_not_value (PFull cs') v)].
      injection Hxc as ->. destruct onleaf; [done|]. by rewrite Honleaf.
Qed.

Section loaded.
(** The database from which the nodes have been loaded. *)
Context (db0 : Database) (L0 : list (list Z)) (Hok0 : db_ok db0 [] [] L0).

Lemma all_stored db t : grows db0 db -> U_node t -> db_all (dbnode db0) false t -> stored db (phash t).
Proof. intros Hg Ht [[Ho|[? _]] _]; [|done]. eapply grows_stored; [done|]. by eapply ok_stored. Qed.
Lemma ready_child db t c : ready db t -> child_of c t -> ready db c.
Proof. intros Hr Hc s Hs. apply Hr. by eapply rtc_r. Qed.
Lemma ready_grows db db' t : ready db t -> grows db db' -> ready db' t.
Proof. intros Hr Hg s Hs Hn. destruct (Hr s Hs Hn) as [E Hst]. split; [done|]. intros h Hh. eapply grows_stored; [done|]. by apply Hst. Qed.
Lemma weight_nonneg t : 0 <= weight t.
Proof.
  induction t as [|v|k c IH|cs IH] using ptrie_rect'; cbn [weight]; try lia. assert (0 <= foldr Z.add 0 (map weight cs)); [|lia].
  induction IH; cbn [map foldr]; lia.
Qed.
Definition commits (n : node) : Prop := forall b t db L m,
  loads (dbnode db0) false b n t -> hashed n t -> (b = true -> is_hash n = false -> (cache n).1 = Some (phash t)) -> U_node t -> ready db t ->
  good db L -> grows db0 db -> fits db (weight t + m) -> 0 <= m -> commit_ok b t m db (commit range_ onleaf n db).
Definition child_commit (n : node) : GoM Database (node * Z) :=
  match n with Nil => mret (Nil, 0) | hashNode h => mret (n, 0) | _ => commit range_ onleaf n end.
(** A child, in a branch or an extension. *)
Lemma child_spec n c db L m :
  commits n -> loads (dbnode db0) false false n c -> hashed n c -> (forall v, c <> PVal v) -> U c -> ready db c -> good db L -> grows db0 db -> fits db (weight c + m) -> 0 <= m ->
  exists n' k db' L', child_commit n db = Done (n', k, db') /\ good db' L' /\ fits db' m /\ grows db db' /\ child_left n' c
    /\ (forall h, h ∈ forGatherChildren (rref c) -> stored db' h).
Proof.
  intros Hc Hl Hh Hv HU Hr Hg Hg0 Hf Hm. pose proof (weight_nonneg c).
  inversion Hl as [|?|? k n1 c1 fl|? ns cs fl|? t Hn Hb Ha]; subst.
  - exists Nil, 0, db, L. split; [done|]. split; [done|]. split; [eapply fits_le; [done|lia]|]. split; [apply grows_refl|]. split; [split; [done|by eexists]|]. by intros h ?%not_elem_of_nil.
  - by destruct (Hv v).
  - destruct (Hc false _ db L m Hl Hh ltac:(done) ltac:(done) Hr Hg Hg0 Hf Hm) as (n' & z & db' & L' & E & Hg' & Hf' & Hgr & Hs & Hsim & Hst).
    exists n', z, db', L'. split; [done|]. split; [done|]. split; [done|]. split; [done|]. split; [|done]. by destruct n'.
  - destruct (Hc false _ db L m Hl Hh ltac:(done) ltac:(done) Hr Hg Hg0 Hf Hm) as (n' & z & db' & L' & E & Hg' & Hf' & Hgr & Hs & Hsim & Hst).
    exists n', z, db', L'. split; [done|]. split; [done|]. split; [done|]. split; [done|]. split; [|done]. by destruct n'.
  - assert (Hst : stored db (phash c)) by (by apply all_stored). destruct (left_hash false c db Hn Hb Hst) as (Hz & Hsim & Hall).
    exists (hashNode (phash c)), 0, db, L. split; [done|]. split; [done|]. split; [eapply fits_le; [done|lia]|]. split; [apply grows_refl|]. split; [split; done|done].
Qed.
Definition child_ok (n : node) (c : ptrie) : Prop := commits n /\ loads (dbnode db0) false false n c /\ hashed n c /\ (forall v, c <> PVal v) /\ U c.
Lemma children_spec ns cs : Forall2 child_ok ns cs -> forall db L m,
  (forall c, c ∈ cs -> ready db c) -> good db L -> grows db0 db -> fits db (foldr Z.add 0 (map weight cs) + m) -> 0 <= m ->
  exists ns' k db' L', commitChildren (map (fun c => (c, commit range_ onleaf c)) ns) db = Done (ns', k, db') /\ good db' L' /\ fits db' m /\ grows db db'
    /\ Forall2 child_left ns' cs /\ forall c h, c ∈ cs -> h ∈ forGatherChildren (rref c) -> stored db' h.
Proof.
  induction 1 as [|n c ns cs (Hc & Hl & Hh & Hv & HU) _ IH]; intros db L m Hr Hg Hg0 Hf Hm.
  - exists [], 0, db, L. split; [done|]. split; [done|]. split; [done|]. split; [apply grows_refl|]. split; [done|]. by intros c h ?%not_elem_of_nil.
  - cbn [map foldr] in Hf. assert (Hw : 0 <= foldr Z.add 0 (map weight cs)) by (clear; induction cs as [|c cs IH]; cbn [map foldr]; [lia|pose proof (weight_nonneg c); lia]).
    destruct (child_spec n c db L (foldr Z.add 0 (map weight cs) + m) Hc Hl Hh Hv HU) as (n' & k & db1 & L1 & E1 & Hg1 & Hf1 & Hgr1 & Hlf & Hst); [apply Hr; left|done|done|eapply fits_le; [done|lia]|lia|].
    destruct (IH db1 L1 m) as (ns' & k' & db2 & L2 & E2 & Hg2 & Hf2 & Hgr2 & HF & Hall); [|done|by eapply grows_trans|done|done|].
    { intros c' Hc'. eapply ready_grows; [|done]. apply Hr. by right. }
    exists (n' :: ns'), (k + k'), db2, L2. cbn [map commitChildren].
    assert (Em : (match n with Nil => mret (Nil, 0) | hashNode h => mret (n, 0) | _ => commit range_ onleaf n end) db = Done (n', k, db1)) by exact E1.
    unfold mbind, GoM_bind. rewrite Em, E2. split; [done|]. split; [done|]. split; [done|]. split; [by eapply grows_trans|]. split; [by constructor|].
    intros c' h [->|Hc']%elem_of_cons Hh'; [|by eapply Hall]. eapply grows_stored; [done|]. by apply Hst.
Qed.
(** The cached hash of a node, when it is not used at once. *)
Lemma cache_flag b t hc fl : flag_ok (dbnode db0) false b t hc fl -> (hash fl = None -> ~ big t) -> (b = true -> hash fl = Some (phash t)) ->
  match hash fl with Some h => h = phash t /\ (b = false -> big t) | None => b = false /\ ~ big t end.
Proof. unfold flag_ok. destruct (hash fl) as [h|]; [by intros (-> & ? & _)|]. intros _ Hb Ht. split; [destruct b; [by specialize (Ht eq_refl)|done]|by apply Hb]. Qed.
Lemma clean_spec b t n db L m h : loads (dbnode db0) false b n t -> cache n = (Some h, false) -> U_node t -> good db L -> grows db0 db -> fits db m ->
  commit_ok b t m db (Done (hashNode h, 0, db)).
Proof.
  intros Hl Hc Ht Hg Hg0 Hf.
  assert (Hfl : h = phash t /\ (b = false -> big t) /\ db_all (dbnode db0) false t).
  { inversion Hl as [| |? k n1 c1 fl _ Hfl|? ns cs fl _ Hfl|]; subst; try done; cbn [cache] in Hc; injection Hc as Eh Ed; unfold flag_ok in Hfl; rewrite Eh in Hfl; destruct Hfl as (-> & ? & Ha & _); auto. }
  destruct Hfl as (-> & Hb & Ha). exists (hashNode (phash t)), 0, db, L. split; [done|]. split; [done|]. split; [done|]. split; [apply grows_refl|].
  apply left_hash; [apply Ht|done|by apply all_stored].
Qed.
Lemma kids_stored t db db' : ready db t -> is_node t -> grows db db' -> (forall h, h ∈ gather t -> stored db' h) -> ext t = leaf_roots t /\ forall h, h ∈ kids t -> stored db' h.
Proof.
  intros Hr Hn Hg Hga. destruct (ready_grows db db' t Hr Hg t (rtc_refl _ _) Hn) as [Ee Hst]. split; [done|]. intros h [?|?]%elem_of_app; auto.
Qed.
(** The child of a short node. *)
Lemma short_child n c db L m :
  commits n -> loads (dbnode db0) false false n c -> hashed n c -> (exists cs, c = PFull cs) \/ (exists v, c = PVal v) -> U c -> ready db c -> good db L -> grows db0 db ->
  fits db (weight c + m) -> 0 <= m ->
  exists v z db1 L1, (match n with fullNode _ _ => commit range_ onleaf n | _ => mret (n, 0) end) db = Done (v, z, db1) /\ good db1 L1 /\ fits db1 m /\ grows db db1
    /\ simplifyNode v = Done (rref c) /\ (exists z, estimateSize v = Done z) /\ (forall h, h ∈ forGatherChildren (rref c) -> stored db1 h).
Proof.
  intros IH Hl Hh [(cs & ->)|(v & ->)] HU Hr Hg Hg0 Hf Hm.
  - destruct (child_spec n (PFull cs) db L m) as (v & z & db1 & L1 & E & Hg1 & Hf1 & Hgr & (Hsim & Hsz) & Hst); [done..|].
    exists v, z, db1, L1. split; [by inversion Hl; subst|]. split; [done|]. split; [done|]. split; [done|].
    destruct v; [|done..]. exfalso. injection Hsim as Hsim. by destruct (rref_not_value (PFull cs) []).
  - inversion Hl; subst; [|done]. exists (valueNode v), 0, db, L. split; [done|]. split; [done|]. pose proof (weight_nonneg (PVal v)). split; [eapply fits_le; [done|lia]|]. split; [apply grows_refl|].
    split; [done|]. split; [by eexists|]. by intros h ?%not_elem_of_nil.
Qed.
Lemma commit_short k n fl : commits n -> commits (shortNode k n fl).
Proof.
  intros IH b t db L m Hl Hh Hb Ht Hr Hg Hg0 Hf Hm. pose proof (U_can t Ht) as Hcan.
  inversion Hl as [| |? ? ? c ? Hlc Hfl| |]; subst. inversion Hh as [| |? ? ? ? Hbig Hhc| |]; subst.
  cbn [weight] in Hf. pose proof (weight_nonneg c) as Hw. specialize (fun H => Hb H eq_refl). cbn [cache fst] in Hb.
  pose proof (cache_flag b _ _ fl Hfl Hbig Hb) as Hcf.
  destruct (short_child n c db L (Z.of_nat (length (kids (PShort k c))) + m)) as (v & z & db1 & L1 & E & Hg1 & Hf1 & Hgr & Hsim & Hsz & Hst);
    [done..| | | |done|done|eapply fits_le; [done|lia]|lia|].
  { inversion Hcan; subst; eauto. }
  { eapply U_child; [apply Ht|constructor]. }
  { eapply ready_child; [done|constructor]. }
  destruct (kids_stored _ db db1 Hr ltac:(done) Hgr Hst) as [Hext Hk].
  pose proof (commit_node_ok b db1 L1 (shortNode (compact k) v fl) (PShort k c) z m Hg1 Ht (collapsed_short k c v fl Hcan Hsim Hsz) Hcf Hext Hk Hf1 Hm) as (n' & z' & db2 & L2 & E2 & Hg2 & Hf2 & Hgr2 & Hlf).
  cbn [commit]. destruct (cache (shortNode k n fl)) as [[h|] []] eqn:Ec; cycle 1.
  { eapply clean_spec; [done|done|done|done|done|]. eapply fits_le; [done|lia]. }
  all: unfold mbind, GoM_bind, lift; rewrite E; destruct (compact_spec k c Hcan) as [-> _].
  all: exists n', z', db2, L2; split; [exact E2|]; split; [done|]; split; [done|]; split; [by eapply grows_trans|done].
Qed.
(** The branch after the commit of its children. *)
Lemma full_children ns cs db L m :
  Forall commits ns -> Forall2 (loads (dbnode db0) false false) ns cs -> Forall2 hashed ns cs -> can (PFull cs) -> U (PFull cs) -> ready db (PFull cs) -> good db L -> grows db0 db ->
  fits db (foldr Z.add 0 (map weight cs) + m) -> 0 <= m ->
  exists ns' k db' L', commitChildren (take 16 (map (fun c => (c, commit range_ onleaf c)) ns)) db = Done (ns', k, db') /\ good db' L' /\ fits db' m /\ grows db db'
    /\ Forall2 child_left (ns' ++ drop 16 ns) cs /\ (forall x, (ns' ++ drop 16 ns) !! 16%nat = Some x -> x = Nil \/ exists v, x = valueNode v)
    /\ (forall h, h ∈ gather (PFull cs) -> stored db' h).
Proof.
  intros IH Hl Hh Hcan HU Hr Hg Hg0 Hf Hm. pose proof Hcan as Hci. apply can_full_inv in Hci as (Hlen & Hch & _).
  pose proof (Forall2_length _ _ _ Hl) as Hnl. rewrite Hlen in Hnl.
  assert (HF : Forall2 child_ok (take 16 ns) (take 16 cs)).
  { apply Forall2_same_length_lookup. rewrite !length_take. split; [lia|]. intros i n c Hn Hc. apply lookup_take_Some in Hn as [Hn Hi]. apply lookup_take_Some in Hc as [Hc _].
    rewrite Forall_lookup in IH. split; [by eapply IH|]. split; [by eapply Forall2_lookup_lr|]. split; [by eapply Forall2_lookup_lr|].
    split; [|eapply U_child; [done|by econstructor]]. intros v ->. specialize (Hch i _ Hc ltac:(done)). rewrite (proj2 (Nat.ltb_lt _ _)) in Hch by lia. inversion Hch. }
  assert (Hws : foldr Z.add 0 (map weight (take 16 cs)) <= foldr Z.add 0 (map weight cs)).
  { rewrite <- (take_drop 16 cs) at 2. rewrite map_app, foldr_app. generalize (drop 16 cs). intros l. assert (0 <= foldr Z.add 0 (map weight l)) by (clear; induction l as [|c l IH]; cbn [map foldr]; [lia|pose proof (weight_nonneg c); lia]).
    generalize (take 16 cs). intros l'. induction l' as [|c l' IH']; cbn [map foldr]; lia. }
  destruct (children_spec _ _ HF db L m) as (ns' & k & db' & L' & E & Hg' & Hf' & Hgr & HF' & Hst); [|done|done|eapply fits_le; [done|lia]|done|].
  { intros c Hc. apply elem_of_take in Hc as (i & Hi & _). eapply ready_child; [done|by econstructor]. }
  exists ns', k, db', L'. split; [by rewrite firstn_map|]. split; [done|]. split; [done|]. split; [done|].
  pose proof (Forall2_length _ _ _ HF') as Hl'. rewrite length_take in Hl'. destruct (lookup_lt_is_Some_2 ns 16) as [x Hx]; [lia|]. destruct (lookup_lt_is_Some_2 cs 16) as [c Hc]; [lia|].
  assert (Edn : drop 16 ns = [x]) by (rewrite (drop_S ns x 16 Hx), drop_ge by lia; done). assert (Edc : drop 16 cs = [c]) by (rewrite (drop_S cs c 16 Hc), drop_ge by lia; done).
  pose proof (Forall2_lookup_lr _ _ _ _ _ _ Hl Hx Hc) as Hlx. specialize (Hch 16%nat c Hc).
  assert (Hxc : (x = Nil /\ c = PNil) \/ exists v, x = valueNode v /\ c = PVal v).
  { destruct (decide (c = PNil)) as [->|Hne]; [left; inversion Hlx; by subst|right]. destruct (Hch Hne) as (v & -> & _). inversion Hlx; subst; [by exists v|done]. }
  split; [|split].
  - rewrite Edn, <- (take_drop 16 cs), Edc. apply Forall2_app; [done|]. constructor; [|done]. destruct Hxc as [[-> ->]|(v & -> & ->)]; split; (done || by eexists).
  - intros y. rewrite lookup_app_r by lia. rewrite Edn. replace (16 - length ns')%nat with 0%nat by lia. intros [= <-]. naive_solver.
  - intros h (d & Hd & Hh')%gather_full. rewrite <- (take_drop 16 cs), Edc in Hd. apply elem_of_app in Hd as [Hd|Hd]; [by eapply Hst|].
    apply list_elem_of_singleton in Hd as ->. destruct Hxc as [[_ ->]|(v & _ & ->)]; by apply not_elem_of_nil in Hh'.
Qed.
Lemma commit_full ns fl : Forall commits ns -> commits (fullNode ns fl).
Proof.
  intros IH b t db L m Hl Hh Hb Ht Hr Hg Hg0 Hf Hm. pose proof (U_can t Ht) as Hcan.
  inversion Hl as [| | |? ? cs ? Hlc Hfl|]; subst. inversion Hh as [| | |? ? ? Hbig Hhc|]; subst.
  cbn [weight] in Hf. pose proof (weight_nonneg (PFull cs)) as Hw. cbn [weight] in Hw. specialize (fun H => Hb H eq_refl). cbn [cache fst] in Hb.
  pose proof (cache_flag b _ _ fl Hfl Hbig Hb) as Hcf.
  destruct (full_children ns cs db L (Z.of_nat (length (kids (PFull cs))) + m)) as (ns' & z & db1 & L1 & E & Hg1 & Hf1 & Hgr & HF & H16 & Hst);
    [done..|apply Ht|done|done|done|eapply fits_le; [done|lia]|lia|].
  destruct (kids_stored _ db db1 Hr ltac:(done) Hgr Hst) as [Hext Hk].
  pose proof (commit_node_ok b db1 L1 (fullNode (ns' ++ drop 16 ns) fl) (PFull cs) z m Hg1 Ht (collapsed_full cs _ fl Hcan HF H16) Hcf Hext Hk Hf1 Hm) as (n' & z' & db2 & L2 & E2 & Hg2 & Hf2 & Hgr2 & Hlf).
  cbn [commit]. destruct (cache (fullNode ns fl)) as [[h|] []] eqn:Ec; cycle 1.
  { eapply clean_spec; [done|done|done|done|done|]. eapply fits_le; [done|lia]. }
  all: unfold mbind, GoM_bind; rewrite E.
  all: exists n', z', db2, L2; split; [exact E2|]; split; [done|]; split; [done|]; split; [by eapply grows_trans|done].
Qed.
Lemma commit_spec n : commits n.
Proof.
  induction n as [|ns fl IH|k n fl IH|h|v] using node_rect'; [|by apply commit_full|by apply commit_short| |]; intros b t db L m Hl Hh Hb Ht Hr Hg Hg0 Hf Hm.
  - inversion Hl; subst. by destruct Ht.
  - pose proof (weight_nonneg t). inversion Hl as [| | | |? ? Hn Hbig Ha]; subst. exists (hashNode (phash t)), 0, db, L. split; [done|]. split; [done|]. split; [eapply fits_le; [done|lia]|].
    split; [apply grows_refl|]. apply left_hash; [done|done|by apply all_stored].
  - inversion Hl; subst. by destruct Ht.
Qed.
End loaded.

(** ** The trie as a whole *)
(** A trie with the root hash [h] can be opened and has the contents [m]. *)
Definition opens (db : Database) (h : list Z) (m : kvmap) : Prop :=
  exists tr, New (dbnode db) h = Done (inr tr) /\ represents (dbnode db) false tr m.
Lemma kept_loads db L b t : db_ok db [] [] L -> U_node t -> stored db (phash t) -> (b = false -> big t) -> loads (dbnode db) false b (hashNode (phash t)) t.
Proof.
  intros Hok Ht Hst Hb. constructor; [apply Ht|done|]. eapply kept_all; [done|done|]. eapply stored_kept; [done|done|]. by apply U_zero; apply Ht.
Qed.
Lemma stored_opens db L t m : db_ok db [] [] L -> U_node t -> rep t m -> stored db (phash t) -> opens db (phash t) m.
Proof.
  intros Hok Ht Hr Hst. destruct (resolve_spec (dbnode db) false true t [] (kept_loads db L true t Hok Ht Hst ltac:(done)) (proj2 Ht)) as [(n & E & Hl & _)|(e & _ & ? & _)]; [|done].
  exists (mk_Trie n 0). unfold New. destruct Ht as [HU Hn]. rewrite (bool_decide_eq_false_2 (phash t = zeroHash)), (bool_decide_eq_false_2 (phash t = emptyRoot)) by (by apply U_zero || by apply U_empty). simpl.
  unfold resolveHash in E |- *. unfold mbind, outcome_bind in *. destruct (dbnode db _) as [[x|]|?|?]; try done. simplify_eq. split; [done|]. by exists t.
Qed.
Lemma Commit_spec tr m t db L k :
  represents (dbnode db) false tr m -> sized_map m -> good db L -> rep t m -> (is_node t -> U t) -> ready db t -> fits db (weight t + k) -> 0 <= k ->
  exists h n tr' db' L', Commit range_ onleaf tr db = Done (h, n, tr', db') /\ root_hash m h /\ good db' L' /\ fits db' k /\ grows db db'
    /\ represents (dbnode db') false tr' m /\ opens db' h m /\ (is_node t -> h = phash t /\ stored db' h).
Proof.
  intros (t0 & Hl & Hr) Hs Hg Hrep HU Hrd Hf Hk. rewrite (rep_unique t0 t m Hr Hrep) in *. clear t0 Hr. pose proof (weight_nonneg t) as Hw. unfold Commit.
  destruct (decide (t = PNil)) as [->|Hne].
  - assert (Er : root tr = Nil) by (inversion Hl as [| | | |? ? Hn]; [congruence|destruct Hn]). rewrite Er. exists emptyRoot, 0, tr, db, L.
    split; [done|]. split; [by exists PNil|]. split; [done|]. split; [eapply fits_le; [done|lia]|]. split; [apply grows_refl|]. split; [by exists PNil|].
    split; [|done]. exists empty_trie. split; [done|]. exists PNil. split; [constructor|done].
  - assert (Hn : is_node t) by (destruct Hrep as ([?|Hc] & _); [done|by destruct Hc]). assert (Ht : U_node t) by (split; [by apply HU|done]).
    pose proof (hash_spec (dbnode db) false (root tr) true t Hl (rep_wf _ _ Hrep) (rep_sized _ _ Hrep Hs)) as (hd & cd & E & Hcd & Hhd & Hha & Hfl). rewrite Hhd in E by done.
    assert (EH : Hash tr = Done (phash t, mk_Trie cd 0)).
    { unfold Hash, hashRoot, mbind, GoM_bind. destruct (root tr); [inversion Hl; by subst|..]; rewrite E; cbn; by rewrite BytesToHash_hash. }
    assert (Hroot : root_hash m (phash t)) by (exists t; split; [done|by destruct t]).
    assert (Er : match root tr with Nil => true | _ => false end = false) by (destruct (root tr) eqn:Ex; [inversion Hl; by subst|done..]).
    destruct (cache cd) as [ch cdirty] eqn:Ec. destruct cdirty.
    + destruct (commit_spec db L (proj1 Hg) cd true t db L k Hcd Hha) as (n' & z & db' & L' & E' & Hg' & Hf' & Hgr & _ & -> & Hst); [intros _ Hx; rewrite Ec; by apply Hfl|done|done|done|apply grows_refl|done|done|].
      exists (phash t), z, (mk_Trie (hashNode (phash t)) 0), db', L'. split; [|split; [done|]; split; [done|]; split; [done|]; split; [done|]; split].
      * destruct (root tr); [done|..]; unfold mbind, GoM_bind, lift; rewrite EH; cbn [mbind outcome_bind root]; rewrite Ec; cbn [negb snd]; by rewrite E'.
      * exists t. split; [|done]. by eapply kept_loads; [apply Hg'|done|done|].
      * split; [by eapply stored_opens; [apply Hg'|done|done|]|done].
    + assert (Hch : ch = Some (phash t)).
      { apply (Hfl eq_refl Hn). destruct cd; [done..| |done]. inversion Ec. }
      subst ch. destruct (clean_spec db L (proj1 Hg) true t cd db L k (phash t) Hcd Ec Ht Hg (grows_refl _)) as (n' & z & db' & L' & E' & Hg' & _ & Hgr & _ & _ & Hst); [eapply fits_le; [done|lia]|]. simplify_eq.
      exists (phash t), 0, (mk_Trie cd 0), db', L. split; [|split; [done|]; split; [done|]; split; [eapply fits_le; [done|lia]|]; split; [done|]; split].
      * destruct (root tr); [done|..]; unfold mbind, GoM_bind, lift; rewrite EH; cbn [mbind outcome_bind root]; by rewrite Ec.
      * by exists t.
      * split; [by eapply stored_opens; [apply Hg|done|done|]|done].
Qed.
End commit.
End TrieCommit.
