(* ===== verification/TrieFlush.v ===== *)
(** * Nodes go from memory to disk

    [Database_Commit] and [Cap] write nodes in batches and remove from memory what
    has been written.  At every point, also after a write that failed, what was
    stored is stored, and what is on disk needs only what is on disk. *)

From stdpp Require Import base list numbers strings gmap relations.
From Stdlib Require Import ZArith Lia.
From S2P Require Import Prelude Bytes Rlp Enr NodeDB TrieKeys Trie TriePure TrieLoad TrieHash TrieDecode TrieMap TrieDB TrieDBInv TrieRaw TrieDBOk TrieDBGrow TrieCommit.
Import Rlp Enr TrieKeys Trie TriePure TrieLoad TrieHash TrieDecode TrieMap TrieDB TrieDBInv TrieRaw TrieDBOk TrieDBGrow TrieCommit.

Module TrieFlush.

(** Without an element of a list the others keep their order. *)
Lemma order_remove {A} (M1 M2 : list A) x i p : (M1 ++ M2) !! i = Some p ->
  exists i', (M1 ++ x :: M2) !! i' = Some p /\ forall j h, (j < i')%nat -> (M1 ++ x :: M2) !! j = Some h -> h <> x -> exists j', (j' < i)%nat /\ (M1 ++ M2) !! j' = Some h.
Proof.
  assert (Hlow : forall j, (j < length M1)%nat -> (M1 ++ x :: M2) !! j = (M1 ++ M2) !! j) by (intros j Hj; by rewrite !lookup_app_l).
  assert (Hhigh : forall j, (length M1 <= j)%nat -> (M1 ++ x :: M2) !! S j = (M1 ++ M2) !! j).
  { intros j Hj. rewrite !lookup_app_r by lia. by replace (S j - length M1)%nat with (S (j - length M1))%nat by lia. }
  intros Hp. destruct (decide (i < length M1)%nat) as [Hi|Hi]; [exists i; rewrite Hlow by done|exists (S i); rewrite Hhigh by lia]; (split; [done|]); intros j h Hj Hh Hne.
  - exists j. split; [done|]. rewrite <- Hlow by lia. done.
  - destruct (decide (j < length M1)%nat) as [Hjl|Hjl]; [exists j; split; [lia|by rewrite <- Hlow]|].
    destruct (decide (j = length M1)) as [->|Hjne]; [rewrite list_lookup_middle in Hh by done; congruence|]. destruct j as [|j]; [lia|].
    exists j. split; [lia|]. rewrite <- Hhigh by lia. done.
Qed.

Section flush.
Context `{C : Crypto} {CL : CryptoLaws C} `{St : NodeDB.KVStore} {SL : NodeDB.KVLaws St} `{K : Cache} {KL : CacheLaws K} {X : Universe} {XL : UniverseLaws X}.
Variable range_ : gmap (list Z) Z -> list (list Z).
Variable write_fails : NodeDB.store -> list (list Z * list Z) -> bool.

(** What is stored stays, nothing else comes into memory. *)
Definition flushed (db db' : Database) : Prop :=
  (forall k, ond db k -> ond db' k) /\ (forall k, is_Some (dirties db' !! k) -> is_Some (dirties db !! k)) /\ (forall k, is_Some (dirties db !! k) -> is_Some (dirties db' !! k) \/ ond db' k).
Lemma flushed_refl db : flushed db db.
Proof. split; [done|]. split; [done|]. by left. Qed.
Lemma flushed_trans db1 db2 db3 : flushed db1 db2 -> flushed db2 db3 -> flushed db1 db3.
Proof. intros (H1 & H2 & H3) (G1 & G2 & G3). split; [auto|]. split; [auto|]. intros k Hk. destruct (H3 k Hk) as [Hk'|Ho]; [by apply G3|right; auto]. Qed.
Lemma flushed_stored db db' h : flushed db db' -> stored db h -> stored db' h.
Proof. intros (H1 & H2 & H3) [Hd|Ho]; [destruct (H3 h Hd); [by left|by right]|right; auto]. Qed.

(** ** A node on disk leaves the memory *)
Section removed.
Context (db db' : Database) (L1 L2 : list (list Z)) (s : ptrie).
Hypothesis Hg : good db (L1 ++ phash s :: L2).
Hypothesis Hs : U_node s.
Hypothesis Hond : ond db (phash s).
Hypothesis Hl : linked db' [] (L1 ++ L2).
Hypothesis Hd : diskdb db' = diskdb db.
Hypothesis Hc : content <$> dirties db' = base.delete (phash s) (content <$> dirties db).
Hypothesis Hcl : forall u enc, U_node u -> cleans_get db' (phash u) = Some enc -> enc = penc u /\ ond db (phash u).
Hypothesis Hpre : forall m k, preimages db' = Some m -> is_Some (m !! k) -> length k = 32%nat.

Lemma removed_lookup k e' : dirties db' !! k = Some e' -> k <> phash s /\ exists e, dirties db !! k = Some e /\ content e' = content e.
Proof.
  intros He. assert (El : content <$> dirties db' !! k = base.delete (phash s) (content <$> dirties db) !! k) by (by rewrite <- lookup_fmap, Hc).
  rewrite He in El. symmetry in El. apply lookup_delete_Some in El as [Hne El]. split; [done|]. rewrite lookup_fmap in El. destruct (dirties db !! k) as [e|]; [|done].
  apply (inj Some) in El. by exists e.
Qed.
Lemma removed_ond h : ond db' h <-> ond db h.
Proof. unfold ond. by rewrite Hd. Qed.
Lemma removed_refs c : ~ ond db c -> refs (dirties db') c = refs (dirties db) c.
Proof.
  intros Hno. destruct Hg as [Hok _]. destruct (ok_node _ _ _ _ Hok (phash s)) as (u & e & Hu & Eu & He & Er); [set_solver|].
  rewrite <- (U_inj s u (proj1 Hs) (proj1 Hu) (proj2 Hs) (proj2 Hu) Eu) in Er. rewrite (refs_delete _ _ e c He).
  assert (Ec : core <$> dirties db' = core <$> base.delete (phash s) (dirties db)) by (apply content_cores; by rewrite Hc, fmap_delete).
  rewrite (refs_ext _ _ c Ec). assert (Hk : forall h, h ∈ kids s -> h <> c) by (intros h Hh ->; apply Hno; exact (ok_closed _ _ _ _ Hok s c Hs Hond Hh)).
  unfold occ, core. cbn [fst snd]. rewrite Er, count_none by (intros Hh; by apply (Hk c); [apply elem_of_app; left|]).
  destruct (extern e !! c) as [n|] eqn:En; [|done]. destruct (ok_extern _ _ _ _ Hok s e c n Hs ltac:(set_solver) He En) as [_ Hx].
  exfalso. apply (Hk c); [|done]. apply elem_of_app. by right.
Qed.
Lemma removed_good : good db' (L1 ++ L2).
Proof.
  pose proof removed_lookup as Hlk. pose proof removed_ond as Ho. destruct Hg as [Hok Hx].
  assert (Hin : forall h, h ∈ L1 ++ L2 -> h ∈ L1 ++ phash s :: L2) by set_solver.
  assert (Hmem : forall h, ond db h \/ h ∈ L1 ++ phash s :: L2 -> ond db h \/ h ∈ L1 ++ L2).
  { intros h [?|Hh]; [by left|]. destruct (decide (h = phash s)) as [->|Hne]; [by left|right; set_solver]. }
  split; [split; [done| | | | | | | | |done]|].
  - intros h e He Hz. destruct (Hlk h e He) as (_ & e0 & He0 & Ec). injection Ec as -> _ _ _. by eapply ok_nodes.
  - intros u enc Hu. rewrite Hd. by apply (ok_disk _ _ _ _ Hok).
  - intros u enc Hu Hu'. rewrite Ho. by apply Hcl.
  - intros u h Hu. rewrite !Ho. by apply (ok_closed _ _ _ _ Hok).
  - intros i u h Hu Hi Hh. rewrite Ho. destruct (order_remove L1 L2 (phash s) i _ Hi) as (i' & Hi' & Hj).
    destruct (ok_order _ _ _ _ Hok i' u h Hu Hi' Hh) as [?|(j & Hji & HL)]; [by left|]. destruct (decide (h = phash s)) as [->|Hne]; [by left|right]. by eapply Hj.
  - intros e h n He Hh. rewrite Ho. destruct (Hlk _ e He) as (_ & e0 & He0 & Ec). apply content_core in Ec. injection Ec as _ Ec. rewrite Ec in Hh.
    destruct (ok_meta _ _ _ _ Hok e0 h n He0 Hh) as [? Hk]. split; [done|by apply Hmem].
  - intros u e h n Hu HuL He Hh. destruct (Hlk _ e He) as (_ & e0 & He0 & Ec). apply content_core in Ec. injection Ec as _ Ec. rewrite Ec in Hh. eapply ok_extern; eauto.
  - intros c e HcL He. rewrite Ho. destruct (Hlk _ e He) as (_ & e0 & He0 & Ec). destruct (ok_count _ _ _ _ Hok c e0 (Hin _ HcL) He0) as [?|Ep]; [by left|].
    change (live (dirties db') []) with (dirties db'). change (live (dirties db) []) with (dirties db) in Ep. unfold ond. destruct (NodeDB.Get (diskdb db) c) eqn:Eg; [left; by eexists|right].
    rewrite removed_refs by (unfold ond; rewrite Eg; by intros []). injection Ec as _ _ -> _. done.
  - intros u e h Hu HuL HuN He Hh. rewrite Ho. destruct (Hlk _ e He) as (_ & e0 & He0 & Ec). apply content_core in Ec. injection Ec as _ Ec. rewrite Ec. eapply Hx; eauto.
Qed.
Lemma removed_flushed : flushed db db'.
Proof.
  split; [intros k; by rewrite removed_ond|]. split; [intros k [e He]; destruct (removed_lookup k e He) as (_ & e0 & ? & _); by exists e0|].
  intros k [e He]. rewrite removed_ond. destruct (decide (k = phash s)) as [->|Hne]; [by right|left].
  assert (El : content <$> dirties db' !! k = base.delete (phash s) (content <$> dirties db) !! k) by (by rewrite <- lookup_fmap, Hc).
  rewrite lookup_delete_ne, lookup_fmap, He in El by done. by destruct (dirties db' !! k).
Qed.
End removed.

Lemma cleans_set_get db k enc h v : cleans_get (cleans_set k enc db) h = Some v -> (h = k /\ v = enc) \/ cleans_get db h = Some v.
Proof. unfold cleans_get, cleans_set. destruct (cleans db) as [c|] eqn:E; [cbn [cleans set_cleans]; apply CGet_CSet|rewrite E; by right]. Qed.
Lemma cleaner_Put_ok db L s : good db L -> U_node s -> ond db (phash s) ->
  exists db' L', cleaner_Put (phash s) (penc s) db = Done (tt, db') /\ good db' L' /\ diskdb db' = diskdb db /\ flushed db db' /\ dirties db' !! phash s = None.
Proof.
  intros Hg Hs Ho. pose proof Hg as [Hok _]. unfold cleaner_Put, mbind, GoM_bind, gget. rewrite BytesToHash_hash.
  destruct (dirties db !! phash s) as [e|] eqn:Ee; [|exists db, L; split; [done|]; split; [done|]; split; [done|]; split; [apply flushed_refl|done]].
  destruct (ok_keys _ _ _ _ Hok (phash s)) as [Ez|[?%not_elem_of_nil|HL]]; [by eexists|by destruct (U_zero s (proj1 Hs) (proj2 Hs))|done|].
  apply list_elem_of_split in HL as (L1 & L2 & ->).
  destruct (unlink_spec db [] L1 (phash s) L2 e (ok_linked _ _ _ _ Hok) Ee) as (db1 & E1 & [(Ed & Ecl & Epi) Hc] & Hl1). rewrite E1. unfold gmodify.
  set (db2 := cleans_set _ _ _). assert (Hdd : dirties db2 = base.delete (phash s) (dirties db1)) by (unfold db2, cleans_set; by destruct (cleans _)).
  assert (Hl2 : linked db2 [] (L1 ++ L2)).
  { apply linked_delete in Hl1. unfold db2, cleans_set. cbn [cleans set_sizes set_dirties]. destruct (cleans db1); by destruct Hl1; split. }
  assert (Hd2 : diskdb db2 = diskdb db) by (unfold db2, cleans_set; by destruct (cleans _)).
  assert (Hc2 : content <$> dirties db2 = base.delete (phash s) (content <$> dirties db)) by (by rewrite Hdd, fmap_delete, Hc).
  exists db2, (L1 ++ L2). split; [done|]. split; [|split; [done|]; split; [by eapply removed_flushed|by rewrite Hdd, lookup_delete_eq]].
  eapply (removed_good db db2 L1 L2 s); [done..| |].
  - intros u enc Hu [[Eq ->]|Hget]%cleans_set_get.
    + by rewrite (U_inj u s (proj1 Hu) (proj1 Hs) (proj2 Hu) (proj2 Hs) Eq).
    + apply (ok_cleans _ _ _ _ Hok u enc Hu). unfold cleans_get in *. cbn [cleans set_sizes set_dirties] in Hget. by rewrite <- Ecl.
  - intros m k. assert (Ep : preimages db2 = preimages db) by (unfold db2, cleans_set; by destruct (cleans _)). rewrite Ep. apply (ok_preimages _ _ _ _ Hok).
Qed.

(** ** Batches *)
(** The writes of a batch are of preimages or of nodes, and a node comes after what it needs. *)
Definition batch_ok (db : Database) (batch : list (list Z * list Z)) : Prop :=
  forall i k enc, batch !! i = Some (k, enc) -> length k <> 32%nat \/ exists s, U_node s /\ k = phash s /\ enc = penc s
    /\ forall h, h ∈ kids s -> ond db h \/ exists j enc', (j < i)%nat /\ batch !! j = Some (h, enc').
Definition puts (d : NodeDB.store) (batch : list (list Z * list Z)) : NodeDB.store := foldl (fun s kv => NodeDB.Put s kv.1 kv.2) d batch.
Lemma puts_get batch k : forall d, (exists v, (k, v) ∈ batch /\ NodeDB.Get (puts d batch) k = Some v) \/ ((k ∉ batch.*1) /\ NodeDB.Get (puts d batch) k = NodeDB.Get d k).
Proof.
  induction batch as [|[k' v'] batch IH]; intros d; [right; split; [apply not_elem_of_nil|done]|]. cbn [puts foldl fst snd].
  destruct (IH (NodeDB.Put d k' v')) as [(v & Hin & E)|[Hno E]]; [left; exists v; split; [by right|done]|].
  rewrite NodeDB.Get_Put in E. destruct (decide (k' = k)) as [->|Hne]; [left; exists v'; split; [left|done]|right]. split; [|done]. cbn [fmap list_fmap fst]. set_solver.
Qed.
Lemma phash_length s : length (phash s) = 32%nat.
Proof. apply Keccak256_len. Qed.
Lemma batch_elem db batch s v : batch_ok db batch -> U_node s -> (phash s, v) ∈ batch ->
  v = penc s /\ forall h, h ∈ kids s -> ond db h \/ h ∈ batch.*1.
Proof.
  intros Hb Hs [i Hi]%list_elem_of_lookup. destruct (Hb i _ _ Hi) as [Hl|(u & Hu & Eu & -> & Hk)]; [by rewrite phash_length in Hl|].
  rewrite (U_inj s u (proj1 Hs) (proj1 Hu) (proj2 Hs) (proj2 Hu) Eu). split; [done|]. intros h Hh. destruct (Hk h Hh) as [?|(j & enc' & _ & Hj)]; [by left|right].
  apply list_elem_of_fmap. exists (h, enc'). split; [done|by eapply list_elem_of_lookup_2].
Qed.
Lemma write_good db L batch : good db L -> batch_ok db batch -> good (set_disk (puts (diskdb db) batch) db) L /\ flushed db (set_disk (puts (diskdb db) batch) db)
  /\ forall k, k ∈ batch.*1 -> ond (set_disk (puts (diskdb db) batch) db) k.
Proof.
  intros [Hok Hx] Hb. set (db' := set_disk _ db).
  assert (Hin : forall k, k ∈ batch.*1 -> ond db' k).
  { intros k Hk. unfold ond. cbn [db' diskdb set_disk]. destruct (puts_get batch k (diskdb db)) as [(v & _ & ->)|[? _]]; [by eexists|done]. }
  assert (Hmono : forall k, ond db k -> ond db' k).
  { intros k Hk. unfold ond. cbn [db' diskdb set_disk]. destruct (puts_get batch k (diskdb db)) as [(v & _ & ->)|[_ ->]]; [by eexists|done]. }
  assert (Hor : forall k (Q : Prop), ond db k \/ Q -> ond db' k \/ Q) by (intros k Q [?|?]; auto).
  split; [split; [split|]|split; [|done]].
  - destruct (ok_linked _ _ _ _ Hok) as [? ? ? ? ? ?]. by split.
  - apply (ok_nodes _ _ _ _ Hok).
  - intros s enc Hs. cbn [db' diskdb set_disk]. destruct (puts_get batch (phash s) (diskdb db)) as [(v & Hv & ->)|[_ ->]]; [|by apply (ok_disk _ _ _ _ Hok)].
    intros [= <-]. by apply (batch_elem db batch s v Hb Hs Hv).
  - intros s enc Hs Hc. destruct (ok_cleans _ _ _ _ Hok s enc Hs Hc). auto.
  - intros s h Hs [enc Henc] Hh. cbn [db' diskdb set_disk] in Henc. destruct (puts_get batch (phash s) (diskdb db)) as [(v & Hv & _)|[_ Eg]].
    + destruct (batch_elem db batch s v Hb Hs Hv) as [_ Hk]. destruct (Hk h Hh); auto.
    + apply Hmono, (ok_closed _ _ _ _ Hok s h Hs); [|done]. unfold ond. rewrite <- Eg. by eexists.
  - intros i s h Hs Hi Hh. apply Hor. by eapply ok_order.
  - intros e h n He Hh. destruct (ok_meta _ _ _ _ Hok e h n He Hh) as [? ?]. split; [done|by apply Hor].
  - apply (ok_extern _ _ _ _ Hok).
  - intros c e Hc He. apply Hor. by apply (ok_count _ _ _ _ Hok).
  - apply (ok_preimages _ _ _ _ Hok).
  - intros s e h Hs HL HN He Hh. apply Hor. by eapply Hx.
  - split; [done|]. split; [done|]. by left.
Qed.
Lemma batch_write_ok db L batch : good db L -> batch_ok db batch ->
  exists ok d, batch_write write_fails batch db = Done (ok, set_disk d db) /\ good (set_disk d db) L /\ flushed db (set_disk d db)
    /\ (ok = true -> forall k, k ∈ batch.*1 -> ond (set_disk d db) k).
Proof.
  intros Hg Hb. unfold batch_write. destruct (write_fails _ _).
  - exists false, (diskdb db). assert (E : set_disk (diskdb db) db = db) by (by destruct db). rewrite E. split; [done|]. split; [done|]. split; [apply flushed_refl|done].
  - destruct (write_good db L batch Hg Hb) as (H1 & H2 & H3). eexists true, _. split; [done|]. split; [done|]. split; [done|]. done.
Qed.
Lemma Replay_ok batch : forall db L, good db L -> (forall k enc, (k, enc) ∈ batch -> exists s, U_node s /\ k = phash s /\ enc = penc s /\ ond db k) ->
  exists db' L', Replay batch db = Done (tt, db') /\ good db' L' /\ flushed db db' /\ diskdb db' = diskdb db /\ forall k, k ∈ batch.*1 -> dirties db' !! k = None.
Proof.
  induction batch as [|[k enc] batch IH]; intros db L Hg Hb.
  - exists db, L. split; [done|]. split; [done|]. split; [apply flushed_refl|]. split; [done|]. by intros k ?%not_elem_of_nil.
  - destruct (Hb k enc) as (s & Hs & -> & -> & Ho); [left|]. destruct (cleaner_Put_ok db L s Hg Hs Ho) as (db1 & L1 & E1 & Hg1 & Ed1 & Hf1 & Hn1).
    destruct (IH db1 L1 Hg1) as (db2 & L2 & E2 & Hg2 & Hf2 & Ed2 & Hn2).
    { intros k enc Hk. destruct (Hb k enc) as (u & ? & ? & ? & ?); [by right|]. exists u. split_and!; [done..|]. unfold ond. by rewrite Ed1. }
    exists db2, L2. split; [unfold Replay in *; cbn [for_each fst snd]; unfold mbind, GoM_bind; by rewrite E1|]. split; [done|]. split; [by eapply flushed_trans|]. split; [congruence|].
    intros k [->|Hk]%elem_of_cons; [|by apply Hn2]. destruct (dirties db2 !! _) eqn:E; [|done]. destruct Hf2 as (_ & Hback & _).
    destruct (Hback (phash s)) as [? ?]; [by eexists|]. cbn [fst] in *. congruence.
Qed.

(** ** The depth of references *)
Definition lower (db : Database) (h : list Z) : nat := base.size (filter (fun k => (rank k < rank h)%nat /\ k <> zeroHash) (dom (dirties db))).
Lemma lower_child db h c : is_Some (dirties db !! c) -> c <> zeroHash -> (rank c < rank h)%nat -> (lower db c < lower db h)%nat.
Proof.
  intros Hc Hz Hr. unfold lower. apply subset_size. split; [intros k; rewrite !elem_of_filter; intros [[? ?] ?]; split; [split; [lia|done]|done]|].
  intros Hsub. specialize (Hsub c). rewrite !elem_of_filter, elem_of_dom in Hsub. destruct Hsub as [[? _] _]; [split; [split; [lia|done]|done]|]. lia.
Qed.
Lemma lower_flushed db db' h : flushed db db' -> (lower db' h <= lower db h)%nat.
Proof. intros (_ & Hd & _). unfold lower. apply subseteq_size. intros k. rewrite !elem_of_filter, !elem_of_dom. intros [? ?]. split; [done|auto]. Qed.
Lemma lower_size db P E L h : db_ok db P E L -> is_Some (dirties db !! h) -> h <> zeroHash -> (2 + lower db h <= base.size (dirties db))%nat.
Proof.
  intros Hok Hh Hz. rewrite <- size_dom. unfold lower. set (F := filter _ _). assert (Hzd : zeroHash ∈ dom (dirties db)) by (apply elem_of_dom, (linked_in _ _ _ _ (ok_linked _ _ _ _ Hok)); left).
  assert (Hsize : base.size ({[h; zeroHash]} ∪ F : gset (list Z)) = (2 + base.size F)%nat).
  { rewrite size_union, size_union, !size_singleton; [done|set_solver|]. unfold F. intros k. rewrite elem_of_union, !elem_of_singleton, elem_of_filter. intros [->| ->] [[? ?] ?]; [lia|done]. }
  rewrite <- Hsize. apply subseteq_size. intros k. rewrite elem_of_union, elem_of_union, !elem_of_singleton. intros [[->| ->]|Hk]; [by apply elem_of_dom|done|]. unfold F in Hk. by apply elem_of_filter in Hk as [_ ?].
Qed.
Definition enough (db : Database) (fuel : nat) (h : list Z) : Prop := (1 <= fuel)%nat /\ (is_Some (dirties db !! h) -> (2 + lower db h <= fuel)%nat).
Lemma enough_flushed db db' fuel h : flushed db db' -> enough db fuel h -> enough db' fuel h.
Proof. intros Hf [H1 H2]. split; [done|]. intros Hd. pose proof (lower_flushed db db' h Hf). destruct Hf as (_ & Hb & _). specialize (H2 (Hb h Hd)). lia. Qed.
Lemma enough_child db fuel h c : is_Some (dirties db !! h) -> c <> zeroHash -> (rank c < rank h)%nat -> enough db (S fuel) h -> enough db fuel c.
Proof. intros Hh Hz Hr [_ H2]. specialize (H2 Hh). split; [lia|]. intros Hc. pose proof (lower_child db h c Hc Hz Hr). lia. Qed.

(** The order of a range is any. *)
Hypothesis Hrange : forall m, range_ m ≡ₚ (map_to_list m).*1.
Lemma range_in m h : h ∈ range_ m <-> is_Some (m !! h).
Proof.
  rewrite Hrange, list_elem_of_fmap. split.
  - intros ([k v] & -> & Hin). apply elem_of_map_to_list in Hin. by eexists.
  - intros [v Hv]. exists (h, v). split; [done|]. by apply elem_of_map_to_list.
Qed.
Lemma forChilds_node e s : cn_node e = rnode_of s -> is_node s -> forChilds range_ e ≡ₚ (map_to_list (extern e)).*1 ++ gather s.
Proof.
  intros Er Hn. unfold forChilds, extern. rewrite Er. destruct (children e) as [m|]; cbn [default from_option]; unfold id; [rewrite Hrange|rewrite map_to_list_empty]; by destruct s.
Qed.
Lemma forChilds_in e s h : cn_node e = rnode_of s -> is_node s -> h ∈ forChilds range_ e <-> is_Some (extern e !! h) \/ h ∈ gather s.
Proof. intros Er Hn. rewrite (forChilds_node e s Er Hn), elem_of_app, <- (range_in (extern e) h), Hrange. done. Qed.
Lemma forChilds_kids db L e s h : db_ok db [] [] L -> U_node s -> dirties db !! phash s = Some e -> h ∈ forChilds range_ e -> h ∈ kids s.
Proof.
  intros Hok Hs He. rewrite (forChilds_in e s h (ok_entry _ _ _ _ Hok s e Hs He) (proj2 Hs)). intros [[n Hn]|?]; apply elem_of_app; [right|by left].
  destruct (ok_keys _ _ _ _ Hok (phash s)) as [Ez|[?%not_elem_of_nil|HL]]; [by eexists|by destruct (U_zero s (proj1 Hs) (proj2 Hs))|done|]. by eapply ok_extern.
Qed.

(** ** Committing a root *)
Definition node_batch (db : Database) (batch : list (list Z * list Z)) : Prop := batch_ok db batch /\ forall k enc, (k, enc) ∈ batch -> length k = 32%nat.
Lemma node_batch_flushed db db' batch : flushed db db' -> node_batch db batch -> node_batch db' batch.
Proof.
  intros (Hm & _) [Hb Hn]. split; [|done]. intros i k enc Hi. destruct (Hb i k enc Hi) as [?|(s & ? & ? & ? & Hk)]; [by left|right].
  exists s. split_and!; [done..|]. intros h Hh. destruct (Hk h Hh); auto.
Qed.
Lemma node_batch_elem db batch k enc : node_batch db batch -> (k, enc) ∈ batch -> exists s, U_node s /\ k = phash s /\ enc = penc s.
Proof. intros [Hb Hn] Hin. specialize (Hn k enc Hin). apply list_elem_of_lookup in Hin as [i Hi]. destruct (Hb i k enc Hi) as [?|(s & ? & ? & ? & _)]; [done|by exists s]. Qed.
Lemma node_batch_nil db : node_batch db [].
Proof. split; [intros i k enc; by rewrite lookup_nil|by intros k enc ?%not_elem_of_nil]. Qed.
Definition saved (db : Database) (batch : list (list Z * list Z)) (h : list Z) : Prop := ond db h \/ h ∈ batch.*1.
Lemma batch_ok_snoc db batch s : batch_ok db batch -> U_node s -> (forall h, h ∈ kids s -> saved db batch h) -> batch_ok db (batch ++ [(phash s, penc s)]).
Proof.
  intros Hb Hs Hk i k enc Hi. apply lookup_app_Some in Hi as [Hi|[Hge Hi]].
  - destruct (Hb i k enc Hi) as [?|(u & ? & ? & ? & Hku)]; [by left|right]. exists u. split_and!; [done..|]. intros h Hh. destruct (Hku h Hh) as [?|(j & e' & Hj & Hjb)]; [by left|right].
    exists j, e'. split; [done|]. by apply lookup_app_l_Some.
  - apply list_lookup_singleton_Some in Hi as [Hi0 [= <- <-]]. right. exists s. split_and!; [done..|]. intros h Hh. destruct (Hk h Hh) as [?|Hin]; [by left|right].
    apply list_elem_of_fmap in Hin as ([h' e'] & -> & [j Hj]%list_elem_of_lookup). exists j, e'. split; [apply lookup_lt_Some in Hj; lia|]. by apply lookup_app_l_Some.
Qed.
Lemma node_batch_snoc db batch s : node_batch db batch -> U_node s -> (forall h, h ∈ kids s -> saved db batch h) -> node_batch db (batch ++ [(phash s, penc s)]).
Proof.
  intros [Hb Hn] Hs Hk. split; [by apply batch_ok_snoc|].
  intros k enc [?|Hin]%elem_of_app; [by eapply Hn|]. apply list_elem_of_singleton in Hin as [= -> _]. apply phash_length.
Qed.
(** Writing a batch and removing its nodes from memory. *)
Lemma write_replay db L batch : good db L -> node_batch db batch ->
  exists ok db1, batch_write write_fails batch db = Done (ok, db1) /\ good db1 L /\ flushed db db1 /\ dirties db1 = dirties db /\
    (ok = true -> exists db2 L2, Replay batch db1 = Done (tt, db2) /\ good db2 L2 /\ flushed db db2 /\ (forall k, k ∈ batch.*1 -> ond db2 k /\ dirties db2 !! k = None)).
Proof.
  intros Hg Hb. destruct (batch_write_ok db L batch Hg (proj1 Hb)) as (ok & d & E & Hg1 & Hf1 & Hall). set (db1 := set_disk d db) in *. exists ok, db1. do 4 (split; [done|]).
  intros ->. specialize (Hall eq_refl). destruct (Replay_ok batch db1 L Hg1) as (db2 & L2 & E2 & Hg2 & Hf2 & Edd & Hn).
  { intros k enc Hk. destruct (node_batch_elem db batch k enc Hb Hk) as (s & ? & -> & ->). exists s. split_and!; [done..|]. apply Hall. apply list_elem_of_fmap. by exists (phash s, penc s). }
  exists db2, L2. split; [done|]. split; [done|]. split; [by eapply flushed_trans|]. intros k Hk. split; [|by apply Hn]. unfold ond. rewrite Edd. by apply Hall.
Qed.
Definition commit_result (db : Database) (batch : list (list Z * list Z)) (want : list (list Z)) (r : outcome (bool * list (list Z * list Z) * Database)) : Prop :=
  exists ok batch' db' L', r = Done (ok, batch', db') /\ good db' L' /\ flushed db db'
    /\ (ok = true -> node_batch db' batch' /\ (forall k, k ∈ batch.*1 -> saved db' batch' k) /\ forall k, k ∈ want -> saved db' batch' k).
Lemma commit_children_ok rec hs : forall db batch L,
  good db L -> node_batch db batch ->
  (forall h db' batch' L', h ∈ hs -> flushed db db' -> good db' L' -> node_batch db' batch' -> commit_result db' batch' [h] (rec h batch' db')) ->
  commit_result db batch hs (commit_children rec hs batch db).
Proof.
  induction hs as [|h hs IH]; intros db batch L Hg Hb Hrec.
  - exists true, batch, db, L. split; [done|]. split; [done|]. split; [apply flushed_refl|]. intros _. split; [done|]. split; [by right|by intros k ?%not_elem_of_nil].
  - cbn [commit_children]. unfold mbind, GoM_bind. destruct (Hrec h db batch L ltac:(left) (flushed_refl db) Hg Hb) as (ok & b1 & db1 & L1 & E1 & Hg1 & Hf1 & Hok1). rewrite E1. cbn [fst snd].
    destruct ok; [|exists false, b1, db1, L1; split; [done|]; split; [done|]; split; done]. destruct (Hok1 eq_refl) as (Hb1 & Hold & Hnew).
    destruct (IH db1 b1 L1 Hg1 Hb1) as (ok2 & b2 & db2 & L2 & E2 & Hg2 & Hf2 & Hok2).
    { intros h' db' b' L' Hh' Hf' Hg' Hb'. eapply Hrec; [by right|by eapply flushed_trans|done|done]. }
    exists ok2, b2, db2, L2. split; [done|]. split; [done|]. split; [by eapply flushed_trans|]. intros ->. destruct (Hok2 eq_refl) as (Hb2 & Hold2 & Hnew2). split; [done|].
    assert (Hs : forall k, saved db1 b1 k -> saved db2 b2 k) by (intros k [Ho|Hin]; [left; by apply Hf2|by apply Hold2]).
    split; [auto|]. intros k [->|Hk]%elem_of_cons; [apply Hs, Hnew; left|by apply Hnew2].
Qed.
Lemma db_commit_ok fuel : forall h batch db L, h <> zeroHash -> good db L -> node_batch db batch -> enough db fuel h -> stored db h ->
  commit_result db batch [h] (db_commit range_ write_fails fuel h batch db).
Proof.
  induction fuel as [|f IH]; intros h batch db L Hz Hg Hb Hen Hst; [destruct Hen; lia|]. cbn [db_commit]. unfold mbind, GoM_bind, gget. pose proof Hg as [Hok Hx].
  destruct (dirties db !! h) as [e|] eqn:Ee.
  - destruct (ok_nodes _ _ _ _ Hok h e Ee Hz) as (s & Hs & -> & Er). pose proof (U_can s Hs) as Hcan. destruct (U_wf s (proj1 Hs)) as [_ Hsz].
    destruct (ok_keys _ _ _ _ Hok (phash s)) as [?|[?%not_elem_of_nil|HL]]; [by eexists|done..|].
    destruct (commit_children_ok (db_commit range_ write_fails f) (forChilds range_ e) db batch L Hg Hb) as (ok1 & b1 & db1 & L1 & E1 & Hg1 & Hf1 & Hok1).
    { intros c db' b' L' Hc Hf' Hg' Hb'. pose proof (forChilds_kids db L e s c Hok Hs Ee Hc) as Hk. destruct (kids_node s c Hs Hk) as (u & Hu & -> & Hr).
      assert (Huz : phash u <> zeroHash) by (apply U_zero; apply Hu). eapply IH; [done|done|done| |].
      - eapply enough_flushed; [done|]. apply (enough_child db f (phash s) (phash u)); [by exists e|done..].
      - eapply flushed_stored; [done|]. eapply kept_stored; [exact Hok|]. exact (kept_kids _ _ _ _ Hok s _ Hs (or_intror HL) Hk). }
    rewrite E1. cbn [fst snd]. destruct ok1; cbn [negb]; [|exists false, b1, db1, L1; split; [done|]; split; [done|]; split; done].
    destruct (Hok1 eq_refl) as (Hb1 & Hold & Hnew). rewrite (rlp_rnode e s Er Hcan Hsz).
    assert (Hb2 : node_batch db1 (b1 ++ [(phash s, penc s)])).
    { apply node_batch_snoc; [done|done|]. intros k [Hk|Hk]%elem_of_app; [apply Hnew; rewrite (forChilds_in e s k Er (proj2 Hs)); by right|].
      destruct (Hx s e k Hs HL (not_elem_of_nil _) Ee Hk) as [Ho|Hin]; [left; by apply Hf1|apply Hnew; rewrite (forChilds_in e s k Er (proj2 Hs)); by left]. }
    assert (Hold2 : forall k, k ∈ batch.*1 -> saved db1 (b1 ++ [(phash s, penc s)]) k).
    { intros k Hk. destruct (Hold k Hk); [by left|right]. rewrite fmap_app. set_solver. }
    destruct (IdealBatchSize <=? ValueSize (b1 ++ [(phash s, penc s)])).
    + destruct (write_replay db1 L1 _ Hg1 Hb2) as (ok2 & db2 & E2 & Hg2 & Hf2 & _ & Hrep). rewrite E2. destruct ok2; cbn [negb].
      * destruct (Hrep eq_refl) as (db3 & L3 & E3 & Hg3 & Hf3 & Hall). rewrite E3. exists true, [], db3, L3. split; [done|]. split; [done|]. split; [by eapply flushed_trans|].
        intros _. split; [apply node_batch_nil|]. assert (Hin : forall k, saved db1 (b1 ++ [(phash s, penc s)]) k -> saved db3 [] k) by (intros k [Ho|Hk]; left; [by apply Hf3|by apply Hall]).
        split; [auto|]. intros k ->%list_elem_of_singleton. apply Hin. right. rewrite fmap_app. set_solver.
      * exists false, (b1 ++ [(phash s, penc s)]), db2, L1. split; [done|]. split; [done|]. split; [by eapply flushed_trans|done].
    + exists true, (b1 ++ [(phash s, penc s)]), db1, L1. split; [done|]. split; [done|]. split; [done|]. intros _. split; [done|]. split; [done|].
      intros k ->%list_elem_of_singleton. right. rewrite fmap_app. set_solver.
  - exists true, batch, db, L. split; [done|]. split; [done|]. split; [apply flushed_refl|]. intros _. split; [done|]. split; [by right|].
    intros k ->%list_elem_of_singleton. left. destruct Hst as [[? ?]|?]; [congruence|done].
Qed.

Lemma preimage_batch db L p : db_ok db [] [] L -> preimages db = Some p -> batch_ok db (WritePreimages p).
Proof.
  intros Hok Hp i k enc Hi. left. unfold WritePreimages in Hi. rewrite list_lookup_fmap in Hi. destruct (map_to_list p !! i) as [[h v]|] eqn:Em; [|done].
  injection Hi as <- _. apply list_elem_of_lookup_2, elem_of_map_to_list in Em. unfold preimageKey. rewrite length_app, (ok_preimages _ _ _ _ Hok p h Hp) by (by eexists). done.
Qed.
Lemma good_preimages db L p n : good db L -> (forall k, is_Some (p !! k) -> length k = 32%nat) -> good (set_preimages (Some p) n db) L.
Proof.
  intros [[H1 H2 H3 H4 H5 H6 H7 H8 H9 H10] Hx] Hp. split; [|exact Hx]. split; [by destruct H1; split|exact H2|exact H3|exact H4|exact H5|exact H6|exact H7|exact H8|exact H9|]. intros m k [= <-]. apply Hp.
Qed.
Lemma good_reset db L b : good db L -> let db' := match preimages db with Some _ => if b : bool then set_preimages (Some ∅) 0 db else db | None => db end in good db' L /\ flushed db db'.
Proof.
  intros Hg. destruct (preimages db); [|by split; [|apply flushed_refl]]. destruct b; [|by split; [|apply flushed_refl]].
  split; [|split; [done|]; split; [done|]; by left]. apply good_preimages; [done|]. intros k. rewrite lookup_empty. by intros [].
Qed.
Lemma Database_Commit_ok node db L : node <> zeroHash -> good db L -> stored db node ->
  exists ok db' L', Database_Commit range_ write_fails node db = Done (ok, db') /\ good db' L' /\ flushed db db' /\ (ok = true -> ond db' node).
Proof.
  intros Hz Hg Hst. unfold Database_Commit, mbind, GoM_bind, gget.
  assert (Hpre : exists ok db1, (match preimages db with Some p => batch_write write_fails (WritePreimages p) | None => mret true end) db = Done (ok, db1) /\ good db1 L /\ flushed db db1).
  { destruct (preimages db) as [p|] eqn:Ep; [|exists true, db; split; [done|]; split; [done|apply flushed_refl]].
    destruct (batch_write_ok db L (WritePreimages p) Hg) as (ok & d & E & Hg1 & Hf1 & _); [eapply preimage_batch; [apply Hg|done]|by exists ok, (set_disk d db)]. }
  destruct Hpre as (ok & db1 & E1 & Hg1 & Hf1). rewrite E1. destruct ok; cbn [negb]; [|exists false, db1, L; split; [done|]; split; [done|]; by split].
  assert (Hen : enough db1 (S (base.size (dirties db1))) node) by (split; [lia|intros Hd; pose proof (lower_size db1 _ _ _ node (proj1 Hg1) Hd Hz); lia]).
  destruct (db_commit_ok _ node [] db1 L Hz Hg1 (node_batch_nil _) Hen (flushed_stored _ _ _ Hf1 Hst)) as (ok & b & db2 & L2 & E2 & Hg2 & Hf2 & Hok2). rewrite E2. cbn [fst snd].
  destruct ok; cbn [negb]; [|exists false, db2, L2; split; [done|]; split; [done|]; split; [by eapply flushed_trans|done]]. destruct (Hok2 eq_refl) as (Hb & _ & Hn). specialize (Hn node ltac:(left)).
  destruct (write_replay db2 L2 b Hg2 Hb) as (ok & db3 & E3 & Hg3 & Hf3 & _ & Hrep). rewrite E3. destruct ok; cbn [negb]; [|exists false, db3, L2; split; [done|]; split; [done|]; split; [exact (flushed_trans _ _ _ Hf1 (flushed_trans _ _ _ Hf2 Hf3))|done]].
  destruct (Hrep eq_refl) as (db4 & L4 & E4 & Hg4 & Hf4 & Hall). rewrite E4. unfold gmodify, mret, GoM_ret. destruct (good_reset db4 L4 true Hg4) as [Hg5 Hf5]. eexists true, _, L4.
  split; [done|]. split; [done|]. split; [exact (flushed_trans _ _ _ Hf1 (flushed_trans _ _ _ Hf2 (flushed_trans _ _ _ Hf4 Hf5)))|]. intros _. apply Hf5. destruct Hn as [Ho|Hin]; [by apply Hf4|by apply Hall].
Qed.
End flush.
End TrieFlush.
