(* ===== verification/TrieCap.v ===== *)
(** * Bounding the memory of the trie database

    [Cap] writes the oldest nodes and removes them, until what is left fits the
    limit. *)

From stdpp Require Import base list numbers strings gmap relations.
From Stdlib Require Import ZArith Lia.
From S2P Require Import Prelude Bytes Rlp Enr NodeDB TrieKeys Trie TriePure TrieLoad TrieHash TrieDecode TrieMap TrieDB TrieDBInv TrieRaw TrieDBOk TrieDBGrow TrieCommit TrieFlush.
Import Rlp Enr TrieKeys Trie TriePure TrieLoad TrieHash TrieDecode TrieMap TrieDB TrieDBInv TrieRaw TrieDBOk TrieDBGrow TrieCommit TrieFlush.

Module TrieCap.

(** ** Sizes *)
Definition ext_size (e : cachedNode) : Z := match children e with Some c => 48 + Z.of_nat (base.size c) * (32 + 2) | None => 0 end.
Definition cost (e : cachedNode) : Z := 32 + cn_size e + cachedNodeSize + ext_size e.
Definition costs (D : gmap (list Z) cachedNode) (A : list (list Z)) : Z := foldr (fun h n => match D !! h with Some e => cost e | None => 0 end + n) 0 A.

Section cap.
Context `{C : Crypto} {CL : CryptoLaws C} `{St : NodeDB.KVStore} {SL : NodeDB.KVLaws St} `{K : Cache} {KL : CacheLaws K} {X : Universe} {XL : UniverseLaws X}.
Variable write_fails : NodeDB.store -> list (list Z * list Z) -> bool.

(** The size that [Cap] bounds. *)
Definition mem_size (db : Database) : Z :=
  dirtiesSize db + Z.of_nat (base.size (dirties db) - 1) * cachedNodeSize
  + (childrenSize db - match dirties db !! zeroHash ≫= children with Some c => Z.of_nat (base.size c) * (32 + 2) | None => 0 end).

Lemma good_relinked db db' L : good db L -> linked db' [] L -> relinked db db' -> good db' L /\ flushed db db'.
Proof.
  intros [Hok Hx] Hl Hr. pose proof Hr as [(Ed & Ecl & Epi) _]. assert (Ho : forall h, ond db' h <-> ond db h) by (intros h; unfold ond; by rewrite Ed).
  assert (Hlk : forall k e, dirties db' !! k = Some e -> exists e0, dirties db !! k = Some e0 /\ cn_node e = cn_node e0 /\ extern e = extern e0 /\ parents e = parents e0).
  { intros k e He. destruct (relinked_lookup db' db k e (relinked_sym _ _ Hr) He) as (e0 & He0 & Ec). exists e0. unfold extern. by injection Ec as -> _ -> ->. }
  split; [split; [split; [done| | | | | | | | |]|]|].
  - intros h e He Hz. destruct (Hlk h e He) as (e0 & He0 & -> & _). by eapply ok_nodes.
  - intros u enc Hu. rewrite Ed. by apply (ok_disk _ _ _ _ Hok).
  - intros u enc Hu. unfold cleans_get. rewrite Ecl, Ho. by apply (ok_cleans _ _ _ _ Hok).
  - intros u h Hu. rewrite !Ho. by apply (ok_closed _ _ _ _ Hok).
  - intros i u h Hu. rewrite Ho. by apply (ok_order _ _ _ _ Hok).
  - intros e h n He. rewrite Ho. destruct (Hlk _ e He) as (e0 & He0 & _ & -> & _). by apply (ok_meta _ _ _ _ Hok).
  - intros u e h n Hu HuL He. destruct (Hlk _ e He) as (e0 & He0 & _ & -> & _). by apply (ok_extern _ _ _ _ Hok u e0).
  - intros c e Hc He. rewrite Ho. destruct (Hlk _ e He) as (e0 & He0 & _ & _ & ->). change (live (dirties db') []) with (dirties db').
    rewrite (refs_ext (dirties db) (dirties db') c) by (apply content_cores; apply Hr). by apply (ok_count _ _ _ _ Hok c e0).
  - rewrite Epi. apply (ok_preimages _ _ _ _ Hok).
  - intros u e h Hu HuL HuN He. rewrite Ho. destruct (Hlk _ e He) as (e0 & He0 & _ & -> & _). by apply (Hx u e0 h).
  - split; [intros k; by rewrite Ho|]. split; [intros k [e He]; destruct (Hlk k e He) as (e0 & ? & _); by exists e0|].
    intros k [e He]. left. destruct (relinked_lookup db db' k e Hr He) as (e' & ? & _). by exists e'.
Qed.
(** The oldest node is taken out. *)
Definition pop (h : list Z) (e : cachedNode) (db : Database) : Database :=
  let db := set_dirties (base.delete h (dirties db)) db in
  let db := set_ends (flushNext e) (newest db) db in
  set_sizes (dirtiesSize db - (32 + cn_size e)) (childrenSize db - ext_size e) db.
Lemma pop_linked db h L e : linked db [] (h :: L) -> dirties db !! h = Some e -> linked (pop h e db) [] L.
Proof.
  intros Hl He. destruct (linked_at db [] [] h L e Hl He) as [En _]. pose proof Hl as [H1 H2 H3 H4 H5 H6]. cbn [app] in *.
  assert (Hd : h <> zeroHash /\ (h ∉ L) /\ NoDup (zeroHash :: L)) by (rewrite !NoDup_cons in *; set_solver). destruct Hd as (Hz & HhL & Hnd).
  split; [done| |done| | |]; cbn [pop set_sizes set_ends set_dirties dirties newest].
  - intros k. destruct (decide (k = h)) as [->|Hne]; [rewrite lookup_delete_eq; split; [by intros []|set_solver]|]. rewrite lookup_delete_ne, H2 by done. set_solver.
  - intros k Hk. apply H4. by rewrite last_cons, Hk.
  - destruct H5 as (q & _ & _ & Hc). rewrite fmap_delete. apply chain_prev with (p := Some h); [done|]. eapply chain_ext; [|exact Hc]. intros k Hk. apply lookup_delete_ne. by intros ->.
  - intros x. rewrite lookup_delete_ne by done. apply H6.
Qed.
Lemma pop_good db L s e : good db (phash s :: L) -> U_node s -> ond db (phash s) -> dirties db !! phash s = Some e ->
  good (pop (phash s) e db) L /\ flushed db (pop (phash s) e db) /\ mem_size (pop (phash s) e db) = mem_size db - cost e.
Proof.
  intros Hg Hs Ho He. pose proof Hg as [Hok _]. pose proof (pop_linked db (phash s) L e (ok_linked _ _ _ _ Hok) He) as Hl.
  assert (Hc : content <$> dirties (pop (phash s) e db) = base.delete (phash s) (content <$> dirties db)) by apply fmap_delete.
  split; [|split].
  - eapply (removed_good db (pop (phash s) e db) [] L s); try done; [apply (ok_cleans _ _ _ _ Hok)|apply (ok_preimages _ _ _ _ Hok)].
  - by apply (removed_flushed db (pop (phash s) e db) s).
  - unfold mem_size, cost. cbn [pop set_sizes set_ends set_dirties dirties dirtiesSize childrenSize]. assert (Hz : phash s <> zeroHash) by (apply U_zero; apply Hs).
    rewrite lookup_delete_ne by done. rewrite map_size_delete, He.
    destruct (linked_in _ _ _ zeroHash (ok_linked _ _ _ _ Hok)) as [em Hm]; [left|].
    assert (Hsz : (2 <= base.size (dirties db))%nat).
    { rewrite <- size_dom. etrans; [|apply (subseteq_size {[phash s; zeroHash]}); intros k; rewrite elem_of_union, !elem_of_singleton; intros [->| ->]; apply elem_of_dom; by eexists].
      rewrite size_union, !size_singleton; [done|set_solver]. }
    unfold cachedNodeSize. lia.
Qed.
Lemma uncache_ok A : forall fuel db B, good db (A ++ B) -> (forall h, h ∈ A -> ond db h) -> (length A <= fuel)%nat ->
  exists db', uncache_loop fuel (default zeroHash (head B)) db = Done (tt, db') /\ good db' B /\ flushed db db' /\ mem_size db' = mem_size db - costs (dirties db) A.
Proof.
  induction A as [|h A IH]; intros fuel db B Hg Ho Hf.
  - exists db. pose proof (lk_oldest _ _ _ (ok_linked _ _ _ _ (proj1 Hg))) as Eo. split; [destruct fuel; cbn [uncache_loop]; by rewrite bool_decide_eq_true_2|].
    split; [done|]. split; [apply flushed_refl|]. cbn [costs foldr]. lia.
  - destruct fuel as [|f]; [cbn [length] in Hf; lia|]. pose proof (proj1 Hg) as Hok. pose proof (lk_oldest _ _ _ (ok_linked _ _ _ _ Hok)) as Eo. change (oldest db = h) in Eo.
    destruct (ok_node _ _ _ _ Hok h) as (s & e & Hs & -> & He & _); [left|].
    destruct (pop_good db (A ++ B) s e Hg Hs (Ho _ ltac:(left)) He) as (Hg1 & Hf1 & Hm1).
    pose proof (lk_nodup _ _ _ (ok_linked _ _ _ _ Hok)) as Hnd. cbn [app] in Hnd. rewrite !NoDup_cons in Hnd. destruct Hnd as (Hz & Hh & _).
    destruct (IH f (pop (phash s) e db) B Hg1) as (db' & E & Hg' & Hf' & Hm'); [intros h Hh'; apply Hf1, Ho; by right|cbn [length] in Hf; lia|].
    exists db'. split; [|split; [done|]; split; [by eapply flushed_trans|]].
    + cbn [uncache_loop]. rewrite bool_decide_eq_false_2; [rewrite Eo, He; exact E|]. rewrite Eo. destruct B as [|b B]; cbn [head default from_option]; [set_solver|]. unfold id. set_solver.
    + rewrite Hm', Hm1. cbn [costs foldr]. rewrite He. fold (costs (dirties db) A). assert (Ec : costs (dirties (pop (phash s) e db)) A = costs (dirties db) A); [|lia].
      cbn [pop set_sizes set_ends set_dirties dirties]. assert (HA : phash s ∉ A) by set_solver. clear -HA. induction A as [|a A IH]; [done|]. cbn [costs foldr]. rewrite lookup_delete_ne by set_solver.
      f_equal. apply IH. set_solver.
Qed.
Lemma set_disk_twice d d' db : set_disk d' (set_disk d db) = set_disk d' db.
Proof. done. Qed.
Definition next_batch (batch : list (list Z * list Z)) : list (list Z * list Z) := if IdealBatchSize <=? ValueSize batch then [] else batch.
Lemma maybe_write db L batch (A : list (list Z)) : good db L -> batch_ok db batch -> (forall k, k ∈ A -> saved db batch k) ->
  exists ok d, (if IdealBatchSize <=? ValueSize batch then batch_write write_fails batch else mret true) db = Done (ok, set_disk d db) /\ good (set_disk d db) L /\ flushed db (set_disk d db)
    /\ (ok = true -> batch_ok (set_disk d db) (next_batch batch) /\ forall k, k ∈ A -> saved (set_disk d db) (next_batch batch) k).
Proof.
  intros Hg Hb Hs. unfold next_batch. destruct (_ <=? _).
  - destruct (batch_write_ok write_fails db _ batch Hg Hb) as (ok & d & E & Hg1 & Hf1 & Hall). exists ok, d. split; [done|]. split; [done|]. split; [done|]. intros ->. split; [apply node_batch_nil|].
    intros k Hk. left. destruct (Hs k Hk); [by apply Hf1|by apply Hall].
  - exists true, (diskdb db). assert (E : set_disk (diskdb db) db = db) by (by destruct db). rewrite E. split; [done|]. split; [done|]. split; [apply flushed_refl|done].
Qed.
Lemma cap_loop_ok limit : forall B A fuel db batch size,
  good db (A ++ B) -> batch_ok db batch -> (forall h, h ∈ A -> saved db batch h) -> (length B <= fuel)%nat ->
  exists ok old batch' d, cap_loop write_fails fuel limit size (default zeroHash (head B)) batch db = Done (ok, old, batch', set_disk d db) /\ good (set_disk d db) (A ++ B) /\ flushed db (set_disk d db)
    /\ (ok = true -> exists A2 B', B = A2 ++ B' /\ old = default zeroHash (head B') /\ batch_ok (set_disk d db) batch' /\ (forall h, h ∈ A ++ A2 -> saved (set_disk d db) batch' h)
        /\ (size - costs (dirties db) A2 <= limit \/ B' = [])).
Proof.
  induction B as [|h B IH]; intros A fuel db batch size Hg Hb Hs Hf.
  - exists true, zeroHash, batch, (diskdb db). assert (E : set_disk (diskdb db) db = db) by (by destruct db). rewrite E.
    split; [destruct fuel; cbn [cap_loop head default from_option]; by rewrite andb_false_r|]. split; [done|]. split; [apply flushed_refl|]. intros _. exists [], []. split; [done|]. split; [done|]. split; [done|].
    split; [by rewrite app_nil_r|by right].
  - destruct fuel as [|f]; [cbn [length] in Hf; lia|]. pose proof (proj1 Hg) as Hok. destruct (ok_node _ _ _ _ Hok h) as (s & e & Hu & -> & He & Er); [set_solver|].
    pose proof (ok_in _ _ _ _ Hok (phash s) ltac:(set_solver)) as (_ & Hz & _). cbn [cap_loop head default from_option]. unfold id. rewrite (bool_decide_eq_false_2 (phash s = zeroHash)) by done.
    cbn [negb]. rewrite andb_true_r. destruct (Z.ltb_spec limit size) as [Hlt|Hge]; cbn [negb].
    2: { exists true, (phash s), batch, (diskdb db). assert (E : set_disk (diskdb db) db = db) by (by destruct db). rewrite E. split; [done|]. split; [done|]. split; [apply flushed_refl|].
      intros _. exists [], (phash s :: B). split; [done|]. split; [done|]. split; [done|]. split; [by rewrite app_nil_r|]. left. cbn [costs foldr]. lia. }
    unfold mbind, GoM_bind, get_dirty. rewrite He. destruct (U_wf s (proj1 Hu)) as [_ Hsz]. rewrite (rlp_rnode e s Er (U_can s Hu) Hsz). set (batch1 := batch ++ [(phash s, penc s)]).
    assert (Hb1 : batch_ok db batch1).
    { apply batch_ok_snoc; [done|done|]. intros k Hk. destruct (ok_order _ _ _ _ Hok (length A) s k Hu ltac:(by apply list_lookup_middle) Hk) as [?|(j & Hj & HL)]; [by left|].
      apply Hs. rewrite lookup_app_l in HL by done. by eapply list_elem_of_lookup_2. }
    assert (Hs1 : forall k, k ∈ A ++ [phash s] -> saved db batch1 k).
    { unfold batch1, saved. intros k [Hk|Hk%list_elem_of_singleton]%elem_of_app; rewrite fmap_app; [destruct (Hs k Hk); [by left|]|]; right; set_solver. }
    destruct (maybe_write db _ batch1 (A ++ [phash s]) Hg Hb1 Hs1) as (ok & d & Ew & Hg1 & Hf1 & Hok1). rewrite Ew. destruct ok; cbn [negb]; [|by exists false, (phash s), batch1, d]. destruct (Hok1 eq_refl) as [Hb2 Hs2].
    destruct (linked_at db [] A (phash s) B e (ok_linked _ _ _ _ Hok) He) as [-> _]. rewrite (cons_middle (phash s) A B), app_assoc in Hg1.
    destruct (IH (A ++ [phash s]) f (set_disk d db) _ (size - (32 + cn_size e + cachedNodeSize) - ext_size e) Hg1 Hb2 Hs2) as (ok & old & b' & d' & E' & Hg' & Hf' & Hok'); [cbn [length] in Hf; lia|].
    exists ok, old, b', d'. rewrite set_disk_twice in *. split; [exact E'|]. split; [by rewrite <- app_assoc in Hg'|]. split; [by eapply flushed_trans|].
    intros ->. destruct (Hok' eq_refl) as (A2 & B' & -> & -> & Hb' & Hs' & Hsz'). exists (phash s :: A2), B'. split; [done|]. split; [done|]. split; [done|].
    split; [intros k Hk; apply Hs'; by rewrite <- app_assoc|]. destruct Hsz' as [Hle|?]; [left|by right]. cbn [costs foldr]. rewrite He. fold (costs (dirties db) A2). cbn [dirties set_disk] in Hle. unfold cost. lia.
Qed.
(** The last step: the oldest node that is left has no predecessor. *)
Lemma oldest_reset db L : good db L ->
  exists db', (if negb (bool_decide (oldest db = zeroHash)) then upd_dirty (oldest db) (set_prev zeroHash) else mret tt) db = Done (tt, db') /\ good db' L /\ flushed db db' /\ mem_size db' = mem_size db.
Proof.
  intros Hg. pose proof (ok_linked _ _ _ _ (proj1 Hg)) as Hl. pose proof (lk_oldest _ _ _ Hl) as Eo.
  destruct L as [|h L]; [change (oldest db = zeroHash) in Eo; rewrite bool_decide_eq_true_2 by done; exists db; split; [done|]; split; [done|]; split; [apply flushed_refl|done]|].
  change (oldest db = h) in Eo. rewrite Eo. destruct (ok_in _ _ _ _ (proj1 Hg) h) as ([e He] & Hz & _); [left|]. rewrite bool_decide_eq_false_2 by done. cbn [negb].
  destruct (upd_dirty_relinked h (set_prev zeroHash) db) as (db' & E & Hr & Eo' & En' & Ek); [by eexists|done|]. exists db'. split; [done|].
  assert (Hl' : linked db' [] (h :: L)).
  { destruct Hl as [H1 H2 H3 H4 H5 H6]. split; [done| |by rewrite Eo'|by rewrite En'| |].
    - intros k. rewrite <- H2. split; intros [x Hx]; [destruct (relinked_lookup _ _ _ _ (relinked_sym _ _ Hr) Hx) as (y & ? & _)|destruct (relinked_lookup _ _ _ _ Hr Hx) as (y & ? & _)]; by exists y.
    - rewrite Ek, He. change (link (set_prev zeroHash e)) with (zeroHash, flushNext e). apply (chain_set_prev _ None h L zeroHash (flushPrev e) (flushNext e)); [|by rewrite lookup_fmap, He|done|done].
      cbn [app] in H1. rewrite !NoDup_cons in H1. by destruct H1 as (_ & ? & _).
    - intros x Hx. destruct (relinked_lookup _ _ _ _ (relinked_sym _ _ Hr) Hx) as (y & Hy & Ec). injection Ec as Ec _ _ _. rewrite <- Ec. by apply H6. }
  destruct (good_relinked db db' _ Hg Hl' Hr) as [Hg' Hf']. split; [done|]. split; [done|].
  unfold upd_dirty in E. rewrite He in E. injection E as <-. unfold mem_size. cbn [set_dirties dirties dirtiesSize childrenSize]. rewrite lookup_insert_ne, map_size_insert, He by done. done.
Qed.
(** After the loop: the rest of the batch is written, the nodes [A] leave the memory. *)
Lemma cap_finish db A B batch fuel (flush : bool) :
  good db (A ++ B) -> batch_ok db batch -> (forall h, h ∈ A -> saved db batch h) -> (length A <= fuel)%nat ->
  exists ok db' L', (ok ← batch_write write_fails batch;
      if negb (ok : bool) then mret false
      else
        gmodify (fun db => match preimages db with Some _ => if flush then set_preimages (Some ∅) 0 db else db | None => db end) ;;
        uncache_loop fuel (default zeroHash (head B)) ;;
        db ← gget;
        (if negb (bool_decide (oldest db = zeroHash)) then upd_dirty (oldest db) (set_prev zeroHash) else mret tt) ;;
        mret true) db = Done (ok, db') /\ good db' L' /\ flushed db db' /\ (ok = true -> L' = B /\ mem_size db' = mem_size db - costs (dirties db) A).
Proof.
  intros Hg Hb Hs Hf. unfold mbind, GoM_bind, gmodify, gget. destruct (batch_write_ok write_fails db _ batch Hg Hb) as (ok & d & E1 & Hg1 & Hf1 & Hall). rewrite E1.
  destruct ok; cbn [negb]; [|exists false, (set_disk d db), (A ++ B); by split]. destruct (good_reset _ _ flush Hg1) as [Hg2 Hf2].
  set (db2 := match preimages (set_disk d db) with Some _ => _ | None => _ end) in *.
  assert (Ed : dirties db2 = dirties db /\ mem_size db2 = mem_size db) by (unfold db2; destruct (preimages _); [destruct flush|]; done).
  destruct (uncache_ok A fuel db2 B Hg2) as (db3 & E3 & Hg3 & Hf3 & Hm3); [|done|].
  { intros h Hh. apply Hf2. destruct (Hs h Hh) as [Ho|Hin]; [by apply Hf1|by apply Hall]. }
  rewrite E3. destruct (oldest_reset db3 B Hg3) as (db4 & E4 & Hg4 & Hf4 & Hm4). rewrite E4.
  exists true, db4, B. split; [done|]. split; [done|]. split; [exact (flushed_trans _ _ _ Hf1 (flushed_trans _ _ _ Hf2 (flushed_trans _ _ _ Hf3 Hf4)))|].
  intros _. split; [done|]. destruct Ed as [Ed Em]. rewrite Hm4, Hm3, Em, Ed. done.
Qed.
(** The preimages that are written first. *)
Lemma cap_preimages db L batch : good db L -> batch_ok db batch ->
  exists ok d, (if IdealBatchSize <? ValueSize batch then batch_write write_fails batch else mret true) db = Done (ok, set_disk d db) /\ good (set_disk d db) L /\ flushed db (set_disk d db)
    /\ batch_ok (set_disk d db) (if IdealBatchSize <? ValueSize batch then [] else batch).
Proof.
  intros Hg Hb. destruct (_ <? ValueSize batch).
  - destruct (batch_write_ok write_fails db L batch Hg Hb) as (ok & d & E & Hg1 & Hf1 & _). exists ok, d. split; [done|]. split; [done|]. split; [done|apply node_batch_nil].
  - exists true, (diskdb db). assert (E : set_disk (diskdb db) db = db) by (by destruct db). rewrite E. split; [done|]. split; [done|]. split; [apply flushed_refl|done].
Qed.
Lemma length_dirties db L : good db L -> (length L <= base.size (dirties db))%nat.
Proof.
  intros Hg. pose proof (ok_linked _ _ _ _ (proj1 Hg)) as Hl. rewrite <- size_dom, <- (size_list_to_set (C := gset (list Z)) L).
  - apply subseteq_size. intros k Hk%elem_of_list_to_set. apply elem_of_dom. eapply linked_in; [done|]. set_solver.
  - pose proof (lk_nodup _ _ _ Hl) as Hnd. cbn [app] in Hnd. by apply NoDup_cons in Hnd as [_ ?].
Qed.
Lemma Cap_ok limit db L : good db L ->
  exists ok db' L', Cap write_fails limit db = Done (ok, db') /\ good db' L' /\ flushed db db' /\ (ok = true -> mem_size db' <= limit \/ L' = []).
Proof.
  intros Hg. unfold Cap. destruct (linked_in _ _ _ zeroHash (ok_linked _ _ _ _ (proj1 Hg))) as [meta Hm]; [left|]. pose proof (length_dirties db L Hg) as Hlen.
  unfold mbind at 1, GoM_bind at 1, gget at 1. unfold mbind at 1, GoM_bind at 1, get_dirty at 1. rewrite Hm.
  set (size := dirtiesSize db + _ + _). assert (Esize : size = mem_size db) by (unfold size, mem_size; by rewrite Hm). clearbody size.
  set (flush := _ <? preimagesSize db). set (batch := match preimages db with Some p => _ | None => [] end).
  assert (Hb : batch_ok db batch).
  { unfold batch. destruct (preimages db) as [p|] eqn:Ep; [|apply node_batch_nil]. destruct flush; [eapply preimage_batch; [apply Hg|done]|apply node_batch_nil]. }
  destruct (cap_preimages db L batch Hg Hb) as (ok & d & E1 & Hg1 & Hf1 & Hb1). unfold mbind at 1, GoM_bind at 1. rewrite E1. destruct ok; cbn [negb]; [|by exists false, (set_disk d db), L].
  set (batch1 := if IdealBatchSize <? ValueSize batch then [] else batch) in *. clearbody batch1.
  destruct (cap_loop_ok limit L [] (base.size (dirties db)) (set_disk d db) batch1 size Hg1 Hb1) as (ok & old & batch2 & d2 & E2 & Hg2 & Hf2 & Hok2); [by intros h ?%not_elem_of_nil|done|].
  rewrite (lk_oldest _ _ _ (ok_linked _ _ _ _ (proj1 Hg))). unfold mbind at 1, GoM_bind at 1. rewrite E2. rewrite set_disk_twice in *.
  destruct ok; cbn [negb]; [|exists false, (set_disk d2 db), L; split; [done|]; split; [done|]; split; [by eapply flushed_trans|done]].
  destruct (Hok2 eq_refl) as (A & B & -> & -> & Hb2 & Hs2 & Hsz). cbn [app] in *.
  destruct (cap_finish (set_disk d2 db) A B batch2 (base.size (dirties db)) flush Hg2 Hb2 Hs2) as (ok & db' & L' & E3 & Hg3 & Hf3 & Hok3); [rewrite length_app in Hlen; lia|].
  exists ok, db', L'. split; [exact E3|]. split; [done|]. split; [exact (flushed_trans _ _ _ Hf1 (flushed_trans _ _ _ Hf2 Hf3))|].
  intros ->. destruct (Hok3 eq_refl) as [-> Hmem]. destruct Hsz as [Hle|?]; [left|by right]. rewrite Hmem. change (mem_size (set_disk d2 db)) with (mem_size db). change (dirties (set_disk d2 db)) with (dirties db). change (dirties (set_disk d db)) with (dirties db) in Hle. lia.
Qed.
End cap.
End TrieCap.
