(* ===== verification/TrieGC.v ===== *)
(** * Garbage collection in the trie database

    When a root is dereferenced, the nodes that nothing refers to any more leave the
    memory.  What other roots need stays. *)

From stdpp Require Import base list numbers strings gmap relations.
From Stdlib Require Import ZArith Lia.
From S2P Require Import Prelude Bytes Rlp Enr NodeDB TrieKeys Trie TriePure TrieLoad TrieHash TrieDecode TrieMap TrieDB TrieDBInv TrieRaw TrieDBOk TrieDBGrow TrieCommit TrieFlush.
Import Rlp Enr TrieKeys Trie TriePure TrieLoad TrieHash TrieDecode TrieMap TrieDB TrieDBInv TrieRaw TrieDBOk TrieDBGrow TrieCommit TrieFlush.

Module TrieGC.

Section gc.
Context `{C : Crypto} {CL : CryptoLaws C} `{St : NodeDB.KVStore} {SL : NodeDB.KVLaws St} `{K : Cache} {KL : CacheLaws K} {X : Universe} {XL : UniverseLaws X}.
Variable range_ : gmap (list Z) Z -> list (list Z).
Hypothesis Hrange : forall m, range_ m ≡ₚ (map_to_list m).*1.

(** ** The two halves of [dereference] *)
Definition unref (child parent : list Z) (node : cachedNode) : GoM Database unit :=
  match children node with
  | Some c =>
      let count := default 0 (c !! child) in
      if 0 <? count then
        if count - 1 =? 0
        then upd_dirty parent (set_children (Some (base.delete child c))) ;; add_childrenSize (- (32 + 2))
        else upd_dirty parent (set_children (Some (<[child := count - 1]> c)))
      else mret tt
  | None => mret tt
  end.
Definition release (f : nat) (child : list Z) : GoM Database unit :=
  db ← gget;
  match dirties db !! child with
  | None => mret tt
  | Some node =>
      let p := if 0 <? parents node then parents node - 1 else parents node in
      upd_dirty child (set_parents p) ;;
      if p =? 0 then
        unlink child node ;;
        node ← get_dirty child;
        for_each (forChilds range_ node) (fun h => dereference range_ f h child) ;;
        gmodify (fun db => set_dirties (base.delete child (dirties db)) db) ;;
        gmodify (fun db => set_sizes (dirtiesSize db - (32 + cn_size node))
          (childrenSize db - match children node with Some _ => 48 | None => 0 end) db)
      else mret tt
  end.
Lemma dereference_S f child parent : dereference range_ (S f) child parent = (node ← get_dirty parent; unref child parent node ;; release f child).
Proof. done. Qed.

(** Nodes in memory may only go, and keep their references. *)
Definition shrinks (P : list (list Z)) (db db' : Database) : Prop :=
  same_rest db db' /\ forall k e', dirties db' !! k = Some e' -> exists e, dirties db !! k = Some e /\ cn_node e' = cn_node e /\ (k ∉ P -> children e' = children e).
Lemma shrinks_refl P db : shrinks P db db.
Proof. split; [done|]. intros k e' He. by exists e'. Qed.
Lemma shrinks_trans P P' db1 db2 db3 : P ⊆ P' -> (forall k, k ∈ P' -> k ∉ P -> dirties db3 !! k = None) -> shrinks P' db1 db2 -> shrinks P' db2 db3 -> shrinks P db1 db3.
Proof.
  intros Hsub Hgone [(A1 & A2 & A3) H1] [(B1 & B2 & B3) H2]. split; [split_and!; congruence|]. intros k e3 He3. destruct (H2 k e3 He3) as (e2 & He2 & En2 & Ec2).
  destruct (H1 k e2 He2) as (e1 & He1 & En1 & Ec1). exists e1. split; [done|]. split; [congruence|]. intros Hk.
  destruct (decide (k ∈ P')) as [Hin|Hnot]; [specialize (Hgone k Hin Hk); congruence|]. rewrite Ec2, Ec1 by done. done.
Qed.
Lemma enough_sub db db' f h : (forall k, is_Some (dirties db' !! k) -> is_Some (dirties db !! k)) -> enough db f h -> enough db' f h.
Proof.
  intros Hs [H1 H2]. split; [done|]. intros Hd. specialize (H2 (Hs h Hd)).
  assert ((lower db' h <= lower db h)%nat); [|lia]. unfold lower. apply subseteq_size. intros k. rewrite !elem_of_filter, !elem_of_dom. intros [? ?]. split; [done|auto].
Qed.
Lemma shrinks_sub P db db' k : shrinks P db db' -> is_Some (dirties db' !! k) -> is_Some (dirties db !! k).
Proof. intros [_ H] [e He]. destruct (H k e He) as (e0 & ? & _). by exists e0. Qed.

(** ** Steps that keep the invariant *)
Lemma db_ok_upd db db' P E E' L :
  db_ok db P E L -> shrinks P db db' -> linked db' P L ->
  (forall c e, c ∈ L -> dirties db' !! c = Some e -> ond db c \/ parents e = refs (live (dirties db') P) c + count c E') -> db_ok db' P E' L.
Proof.
  intros Hok [(Ed & Ecl & Epi) Hlk] Hl Hcnt. assert (Ho : forall h, ond db' h <-> ond db h) by (intros h; unfold ond; by rewrite Ed).
  assert (Hnd := lk_nodup _ _ _ Hl). assert (HzP : zeroHash ∉ P) by (rewrite NoDup_cons in Hnd; set_solver).
  split; [done| | | | | | | | |].
  - intros h e He Hz. destruct (Hlk h e He) as (e0 & He0 & -> & _). by eapply ok_nodes.
  - intros u enc Hu. rewrite Ed. by apply (ok_disk _ _ _ _ Hok).
  - intros u enc Hu. unfold cleans_get. rewrite Ecl, Ho. by apply (ok_cleans _ _ _ _ Hok).
  - intros u h Hu. rewrite !Ho. by apply (ok_closed _ _ _ _ Hok).
  - intros i u h Hu. rewrite Ho. by apply (ok_order _ _ _ _ Hok).
  - intros e h n He. rewrite Ho. destruct (Hlk _ e He) as (e0 & He0 & _ & Ec). unfold extern. rewrite Ec by done. by apply (ok_meta _ _ _ _ Hok).
  - intros u e h n Hu HuL He. destruct (Hlk _ e He) as (e0 & He0 & _ & Ec). unfold extern. rewrite Ec by (by apply (ok_in _ _ _ _ Hok)). by apply (ok_extern _ _ _ _ Hok u e0).
  - intros c e HcL He. rewrite Ho. by apply Hcnt.
  - rewrite Epi. apply (ok_preimages _ _ _ _ Hok).
Qed.
Lemma ext_ok_upd db db' P E L : db_ok db P E L -> ext_ok db [] L -> shrinks P db db' -> ext_ok db' [] L.
Proof.
  intros Hok Hx [(Ed & _) Hlk] u e h Hu HuL HuN He Hh. destruct (Hlk _ e He) as (e0 & He0 & _ & Ec). unfold ond, extern. rewrite Ed, Ec by (by apply (ok_in _ _ _ _ Hok)). by apply (Hx u e0 h).
Qed.
(** Setting fields that are not links. *)
Lemma upd_shape h f db e : dirties db !! h = Some e -> shape (f e) = shape e ->
  exists db', upd_dirty h f db = Done (tt, db') /\ same_rest db db' /\ dirties db' = <[h := f e]> (dirties db) /\ forall P L, linked db P L -> linked db' P L.
Proof.
  intros He Hf. unfold upd_dirty. rewrite He. eexists. split; [done|]. split; [done|]. split; [done|]. intros P L Hl. eapply linked_shape; [done| |done|done].
  cbn [dirties set_dirties]. rewrite fmap_insert, Hf. apply insert_id. by rewrite lookup_fmap, He.
Qed.
(** A pending node drops a child from its map. *)
Lemma unref_pending db P E L child parent node : db_ok db P E L -> ext_ok db [] L -> parent ∈ P -> dirties db !! parent = Some node ->
  exists db', unref child parent node db = Done (tt, db') /\ db_ok db' P E L /\ ext_ok db' [] L /\ shrinks P db db'.
Proof.
  intros Hok Hx HP He. assert (Hset : forall m z, exists db', (upd_dirty parent (set_children m) ;; add_childrenSize z) db = Done (tt, db') /\ db_ok db' P E L /\ ext_ok db' [] L /\ shrinks P db db').
  { intros m z. destruct (upd_shape parent (set_children m) db node He eq_refl) as (db' & Eu & Hr & Ed & Hl). unfold mbind, GoM_bind. rewrite Eu. eexists. split; [done|].
    set (db2 := set_sizes _ _ db'). assert (Hsh : shrinks P db db2).
    { split; [done|]. cbn [db2 dirties set_sizes]. rewrite Ed. intros k e' Hk. apply lookup_insert_Some in Hk as [[<- <-]|[_ Hk]]; [by exists node|by exists e']. }
    split; [|split; [by eapply ext_ok_upd|done]]. eapply db_ok_upd; [done|done|destruct (Hl P L (ok_linked _ _ _ _ Hok)); by split|].
    intros c e HcL Hce. cbn [db2 dirties set_sizes] in *. rewrite Ed in *. rewrite live_insert_in by done. apply (ok_count _ _ _ _ Hok c e HcL).
    rewrite lookup_insert_ne in Hce; [done|]. intros ->. by apply (ok_in _ _ _ _ Hok) in HcL as (_ & _ & ?). }
  assert (Hadd : forall db1 : Database, add_childrenSize 0 db1 = Done (tt, db1)) by (intros []; unfold add_childrenSize, gmodify, set_sizes; cbn; by rewrite Z.add_0_r).
  unfold unref. destruct (children node) as [c|]; [|exists db; split; [done|]; split; [done|]; split; [done|apply shrinks_refl]].
  destruct (0 <? _); [|exists db; split; [done|]; split; [done|]; split; [done|apply shrinks_refl]]. destruct (_ =? 0); [apply Hset|].
  destruct (Hset (Some (<[child := default 0 (c !! child) - 1]> c)) 0) as (db' & E' & Hrest). exists db'. split; [|done].
  unfold mbind, GoM_bind in E'. destruct (upd_dirty _ _ db) as [[[] db1]|?|?]; try done. by rewrite Hadd in E'.
Qed.

(** ** A reference is dropped *)
Lemma ok_absent db P E L child : db_ok db P (child :: E) L -> dirties db !! child = None -> db_ok db P E L.
Proof.
  intros Hok Hn. eapply db_ok_upd; [done|apply shrinks_refl|apply (ok_linked _ _ _ _ Hok)|]. intros c e HcL He.
  destruct (ok_count _ _ _ _ Hok c e HcL He) as [?|Ec]; [by left|right]. rewrite count_cons, decide_False in Ec by congruence. lia.
Qed.
Definition dec (p : Z) : Z := if 0 <? p then p - 1 else p.
Lemma dec_parents db P E L child e : db_ok db P (child :: E) L -> ext_ok db [] L -> child ∈ L -> dirties db !! child = Some e ->
  exists db', upd_dirty child (set_parents (dec (parents e))) db = Done (tt, db') /\ db_ok db' P E L /\ ext_ok db' [] L /\ shrinks P db db'
    /\ dirties db' !! child = Some (set_parents (dec (parents e)) e) /\ (forall c, refs (live (dirties db') P) c = refs (live (dirties db) P) c).
Proof.
  intros Hok Hx HcL He. destruct (upd_shape child (set_parents (dec (parents e))) db e He eq_refl) as (db' & Eu & Hr & Ed & Hl). destruct (ok_in _ _ _ _ Hok child HcL) as (_ & _ & HcP).
  assert (Hsh : shrinks P db db').
  { split; [done|]. rewrite Ed. intros k e' Hk. apply lookup_insert_Some in Hk as [[<- <-]|[_ Hk]]; [by exists e|by exists e']. }
  assert (Hrefs : forall c, refs (live (dirties db') P) c = refs (live (dirties db) P) c).
  { intros c. apply refs_ext. rewrite Ed, live_insert, fmap_insert by done. apply insert_id. by rewrite lookup_fmap, live_lookup, He. }
  exists db'. split; [done|]. split; [|split; [by eapply ext_ok_upd|]; split; [done|]; split; [by rewrite Ed, lookup_insert_eq|done]].
  eapply db_ok_upd; [done|done|apply Hl, (ok_linked _ _ _ _ Hok)|]. intros c x HxL Hx'. rewrite Hrefs, Ed in *.
  apply lookup_insert_Some in Hx' as [[<- <-]|[Hne Hx']].
  - destruct (ok_count _ _ _ _ Hok child e HcL He) as [?|Ec]; [by left|right]. rewrite count_cons, decide_True in Ec by done.
    pose proof (ok_refs_nonneg db P _ L child Hok). pose proof (count_nonneg child E). cbn [set_parents parents]. unfold dec. rewrite (proj2 (Z.ltb_lt _ _)) by lia. lia.
  - destruct (ok_count _ _ _ _ Hok c x HxL Hx') as [?|Ec]; [by left|right]. rewrite count_cons, decide_False in Ec by done. lia.
Qed.
(** A node with no reference, which is not on disk, is needed by nothing. *)
Lemma unreferenced db P E L s e u h : db_ok db P E L -> ext_ok db [] L -> U_node s -> phash s ∈ L -> dirties db !! phash s = Some e -> parents e = 0 ->
  ~ ond db (phash s) -> (U_node u -> phash u ∈ L -> h ∈ kids u -> h <> phash s) /\ (forall m n, dirties db !! zeroHash = Some m -> extern m !! h = Some n -> h <> phash s).
Proof.
  intros Hok Hx Hs HsL He Hp Hno. destruct (ok_count _ _ _ _ Hok _ e HsL He) as [?|Ec]; [done|]. pose proof (count_nonneg (phash s) E).
  assert (Hocc : forall k x, k ∉ P -> dirties db !! k = Some x -> occ (phash s) (core x) <= 0).
  { intros k x HkP Hk. assert (Hk' : live (dirties db) P !! k = Some x) by (by rewrite live_lookup). pose proof (ok_refs_le db P E L (phash s) k x Hok Hk'). lia. }
  assert (Hex : forall k x n, k ∉ P -> dirties db !! k = Some x -> extern x !! phash s = Some n -> n <= 0).
  { intros k x n HkP Hk Hn. specialize (Hocc k x HkP Hk). unfold occ, core in Hocc. cbn [fst snd] in Hocc. rewrite Hn in Hocc. cbn [default from_option] in Hocc. unfold id in Hocc. pose proof (count_nonneg (phash s) (forGatherChildren (cn_node x))). lia. }
  split.
  - intros Hu HuL Hh ->. destruct (ok_in _ _ _ _ Hok _ HuL) as ([x Hux] & _ & HuP). apply elem_of_app in Hh as [Hg|Hg].
    + specialize (Hocc _ x HuP Hux). unfold occ, core in Hocc. cbn [fst snd] in Hocc. rewrite (ok_entry _ _ _ _ Hok u x Hu Hux) in Hocc. fold (gather u) in Hocc. pose proof (count_elem _ _ Hg).
      destruct (extern x !! phash s) as [n|] eqn:En; [destruct (ok_extern _ _ _ _ Hok u x _ n Hu HuL Hux En) as [-> _]; specialize (Hex _ x 1 HuP Hux En); lia|]. cbn [default from_option] in Hocc. lia.
    + destruct (Hx u x _ Hu HuL (not_elem_of_nil _) Hux Hg) as [?|[n Hn]]; [done|]. destruct (ok_extern _ _ _ _ Hok u x _ n Hu HuL Hux Hn) as [-> _]. specialize (Hex _ x 1 HuP Hux Hn). lia.
  - intros m n Hm Hn ->. assert (HzP : zeroHash ∉ P) by (pose proof (lk_nodup _ _ _ (ok_linked _ _ _ _ Hok)) as Hnd; rewrite NoDup_cons in Hnd; set_solver).
    specialize (Hex _ m n HzP Hm Hn). destruct (ok_meta _ _ _ _ Hok m _ n Hm Hn). lia.
Qed.
Lemma count_forChilds db P E L s e c : db_ok db P E L -> U_node s -> phash s ∈ L -> dirties db !! phash s = Some e -> count c (forChilds range_ e) = occ c (core e).
Proof.
  intros Hok Hs HsL He. pose proof (ok_entry _ _ _ _ Hok s e Hs He) as Er. rewrite (count_perm _ _ _ (forChilds_node range_ Hrange e s Er (proj2 Hs))), count_app.
  unfold occ, core. cbn [fst snd]. rewrite Er. fold (gather s). destruct (extern e !! c) as [n|] eqn:En; cbn [default from_option]; unfold id.
  - destruct (ok_extern _ _ _ _ Hok s e c n Hs HsL He En) as [-> _]. rewrite count_nodup; [lia|apply NoDup_fst_map_to_list|]. apply list_elem_of_fmap. exists (c, 1). split; [done|by apply elem_of_map_to_list].
  - rewrite count_none; [lia|]. intros ([k v] & -> & Hin)%list_elem_of_fmap. apply elem_of_map_to_list in Hin. cbn [fst] in En. congruence.
Qed.
Lemma live_relinked db db' P c : relinked db db' -> refs (live (dirties db') P) c = refs (live (dirties db) P) c.
Proof. intros [_ Hc]. apply refs_ext. rewrite !live_fmap. by rewrite (content_cores _ _ Hc). Qed.
(** A node without references leaves the list, its own references are to be dropped. *)
Lemma unlink_ok db P E L1 s L2 e :
  db_ok db P E (L1 ++ phash s :: L2) -> ext_ok db [] (L1 ++ phash s :: L2) -> U_node s -> dirties db !! phash s = Some e -> parents e = 0 ->
  exists db', unlink (phash s) e db = Done (tt, db') /\ db_ok db' (phash s :: P) (forChilds range_ e ++ E) (L1 ++ L2) /\ ext_ok db' [] (L1 ++ L2) /\ relinked db db'.
Proof.
  intros Hok Hx Hs He Hp. assert (HsL : phash s ∈ L1 ++ phash s :: L2) by set_solver.
  destruct (unlink_spec db P L1 (phash s) L2 e (ok_linked _ _ _ _ Hok) He) as (db' & Eu & Hr & Hl). exists db'. split; [done|].
  pose proof Hr as [(Ed & Ecl & Epi) _]. assert (Ho : forall h, ond db' h <-> ond db h) by (intros h; unfold ond; by rewrite Ed).
  assert (Hlk : forall k x, dirties db' !! k = Some x -> exists y, dirties db !! k = Some y /\ cn_node x = cn_node y /\ extern x = extern y /\ parents x = parents y).
  { intros k x Hk. destruct (relinked_lookup db' db k x (relinked_sym _ _ Hr) Hk) as (y & Hy & Ec). exists y. unfold extern. by injection Ec as -> _ -> ->. }
  assert (Hin : forall h, h ∈ L1 ++ L2 -> h ∈ L1 ++ phash s :: L2) by set_solver.
  assert (Hnone : forall h, (ond db h \/ h <> phash s) \/ (~ ond db (phash s) /\ h = phash s)).
  { intros h. destruct (decide (h = phash s)) as [->|?]; [|by left; right]. unfold ond. destruct (NodeDB.Get (diskdb db) (phash s)); [left; left; by eexists|right; split; [by intros []|done]]. }
  split; [split; [done| | | | | | | | |]|split; [|done]].
  - intros h x Hh Hz. destruct (Hlk h x Hh) as (y & Hy & -> & _). by eapply ok_nodes.
  - intros u enc Hu. rewrite Ed. by apply (ok_disk _ _ _ _ Hok).
  - intros u enc Hu. unfold cleans_get. rewrite Ecl, Ho. by apply (ok_cleans _ _ _ _ Hok).
  - intros u h Hu. rewrite !Ho. by apply (ok_closed _ _ _ _ Hok).
  - intros i u h Hu Hi Hh. rewrite Ho. destruct (order_remove L1 L2 (phash s) i _ Hi) as (i' & Hi' & Hj). assert (HuL : phash u ∈ L1 ++ phash s :: L2) by (by eapply list_elem_of_lookup_2).
    destruct (ok_order _ _ _ _ Hok i' u h Hu Hi' Hh) as [?|(j & Hji & HL)]; [by left|]. destruct (Hnone h) as [[?|Hne]|[Hno ->]]; [by left|right; by eapply Hj|].
    by destruct (unreferenced db P E _ s e u (phash s) Hok Hx Hs HsL He Hp Hno) as [Hf _]; destruct (Hf Hu HuL Hh).
  - intros x h n Hxz Hn. rewrite Ho. destruct (Hlk _ x Hxz) as (y & Hy & _ & Ey & _). rewrite Ey in Hn. destruct (ok_meta _ _ _ _ Hok y h n Hy Hn) as [Hb [?|HhL]]; split; try done; [by left|].
    destruct (Hnone h) as [[?|Hne]|[Hno ->]]; [by left|right; set_solver|]. by destruct (unreferenced db P E _ s e s (phash s) Hok Hx Hs HsL He Hp Hno) as [_ Hf]; destruct (Hf y n Hy Hn).
  - intros u x h n Hu HuL Hux Hn. destruct (Hlk _ x Hux) as (y & Hy & _ & Ey & _). rewrite Ey in Hn. eapply ok_extern; eauto.
  - intros c x HcL Hcx. rewrite Ho, (live_relinked db db' _ c Hr). destruct (Hlk _ x Hcx) as (y & Hy & _ & _ & ->).
    destruct (ok_count _ _ _ _ Hok c y (Hin _ HcL) Hy) as [?| ->]; [by left|right]. rewrite count_app, (count_forChilds db P E _ s e c Hok Hs HsL He).
    destruct (ok_in _ _ _ _ Hok _ HsL) as (_ & _ & HsP). rewrite (refs_delete (live (dirties db) P) (phash s) e c) by (by rewrite live_lookup). cbn [live foldr]. unfold live. lia.
  - rewrite Epi. apply (ok_preimages _ _ _ _ Hok).
  - intros u x h Hu HuL HuN Hux Hh. rewrite Ho. destruct (Hlk _ x Hux) as (y & Hy & _ & -> & _). eapply Hx; eauto.
Qed.
(** At last the node is deleted. *)
Lemma drop_node_ok db P E L h z1 z2 : db_ok db (h :: P) E L -> ext_ok db [] L -> let db' := set_sizes z1 z2 (set_dirties (base.delete h (dirties db)) db) in
  db_ok db' P E L /\ ext_ok db' [] L.
Proof.
  intros Hok Hx. pose proof (linked_delete db P L h (ok_linked _ _ _ _ Hok)) as Hl.
  assert (Hlk : forall k x, base.delete h (dirties db) !! k = Some x -> dirties db !! k = Some x) by (by intros k x [_ ?]%lookup_delete_Some).
  split; [|intros u x k Hu HuL HuN Hux; apply (Hx u x k); [done|done|done|by apply Hlk]].
  destruct Hok as [H1 H2 H3 H4 H5 H6 H7 H8 H9 H10]. split; [by destruct Hl; split| |exact H3|exact H4|exact H5|exact H6| | | |exact H10]; cbn [dirties set_sizes set_dirties].
  - intros k x Hk. apply H2. by apply Hlk.
  - intros x k n Hk. apply H7. by apply Hlk.
  - intros u x k n Hu HuL Hux. apply (H8 u x k n Hu HuL). by apply Hlk.
  - intros c x HcL Hcx. destruct (H9 c x HcL (Hlk _ _ Hcx)) as [?|Ec]; [by left|right]. rewrite live_delete. done.
Qed.

(** ** The recursion *)
Definition above (h : list Z) (P : list (list Z)) : Prop := (exists u, U_node u /\ h = phash u) /\ forall q, q ∈ P -> (rank h < rank q)%nat.
Definition drops (P E : list (list Z)) (db : Database) (r : outcome (unit * Database)) : Prop :=
  exists db' L, r = Done (tt, db') /\ db_ok db' P E L /\ ext_ok db' [] L /\ shrinks P db db'.
Definition deref_ok (f : nat) : Prop := forall child parent P E db L,
  parent ∈ P -> db_ok db P (child :: E) L -> ext_ok db [] L -> above child P -> enough db f child -> drops P E db (dereference range_ f child parent db).
Lemma drops_all f parent P : deref_ok f -> parent ∈ P -> forall hs E db L,
  db_ok db P (hs ++ E) L -> ext_ok db [] L -> (forall h, h ∈ hs -> above h P /\ enough db f h) -> drops P E db (for_each hs (fun h => dereference range_ f h parent) db).
Proof.
  intros IH HP. induction hs as [|h hs IHs]; intros E db L Hok Hx Hh; [exists db, L; split; [done|]; split; [done|]; split; [done|apply shrinks_refl]|].
  destruct (Hh h ltac:(left)) as [Hab Hen]. destruct (IH h parent P (hs ++ E) db L HP Hok Hx Hab Hen) as (db1 & L1 & E1 & Hok1 & Hx1 & Hs1).
  destruct (IHs E db1 L1 Hok1 Hx1) as (db2 & L2 & E2 & Hok2 & Hx2 & Hs2).
  { intros k Hk. destruct (Hh k ltac:(by right)) as [? ?]. split; [done|]. eapply enough_sub; [|done]. intros x. by apply (shrinks_sub P). }
  exists db2, L2. cbn [for_each]. unfold mbind, GoM_bind. rewrite E1. split; [done|]. split; [done|]. split; [done|]. eapply (shrinks_trans P P); [done|by intros k ? []|done|done].
Qed.
Lemma above_notin h P : above h P -> h ∉ P.
Proof. intros [_ H] Hin. specialize (H h Hin). lia. Qed.
Lemma release_ok f child P E db L :
  deref_ok f -> db_ok db P (child :: E) L -> ext_ok db [] L -> above child P -> enough db (S f) child ->
  exists db' L', release f child db = Done (tt, db') /\ db_ok db' P E L' /\ ext_ok db' [] L' /\ shrinks P db db'
    /\ (~ ond db child -> refs (live (dirties db) P) child + count child E = 0 -> dirties db' !! child = None).
Proof.
  intros IH Hok Hx Hab Hen. pose proof (above_notin child P Hab) as HcP. destruct Hab as [(s & Hs & ->) Hab]. unfold release, mbind, GoM_bind, gget.
  destruct (dirties db !! phash s) as [e|] eqn:He; [|exists db, L; split; [done|]; split; [by eapply ok_absent|]; split; [done|]; split; [apply shrinks_refl|done]].
  destruct (ok_keys _ _ _ _ Hok (phash s)) as [Ez|[?|HsL]]; [by eexists|by destruct (U_zero s (proj1 Hs) (proj2 Hs))|done|].
  destruct (dec_parents db P E L (phash s) e Hok Hx HsL He) as (db1 & E1 & Hok1 & Hx1 & Hs1 & He1 & Hr1). fold (dec (parents e)). rewrite E1.
  destruct (Z.eqb_spec (dec (parents e)) 0) as [Hp|Hp].
  - apply list_elem_of_split in HsL as (L1 & L2 & ->).
    destruct (unlink_ok db1 P E L1 s L2 _ Hok1 Hx1 Hs He1 Hp) as (db2 & E2 & Hok2 & Hx2 & Hr2). change (unlink (phash s) e db1) with (unlink (phash s) (set_parents (dec (parents e)) e) db1). rewrite E2.
    destruct (relinked_lookup _ _ _ _ Hr2 He1) as (e2 & He2 & Ec2). unfold get_dirty. rewrite He2.
    assert (Ef : forChilds range_ e2 = forChilds range_ (set_parents (dec (parents e)) e)) by (unfold forChilds; by injection Ec2 as -> _ _ ->). rewrite Ef.
    assert (Hs2 : shrinks (phash s :: P) db1 db2).
    { split; [apply Hr2|]. intros k x Hk. destruct (relinked_lookup _ _ _ _ (relinked_sym _ _ Hr2) Hk) as (y & Hy & Ec). exists y. by injection Ec as -> _ _ ->. }
    destruct (drops_all f (phash s) (phash s :: P) IH ltac:(left) _ E db2 _ Hok2 Hx2) as (db3 & L3 & E3 & Hok3 & Hx3 & Hs3).
    { intros h Hh. assert (Hk : h ∈ kids s).
      { rewrite (forChilds_in range_ Hrange _ s h (ok_entry _ _ _ _ Hok1 s _ Hs He1) (proj2 Hs)) in Hh. destruct Hh as [[n Hn]|?]; apply elem_of_app; [right|by left]. eapply (ok_extern _ _ _ _ Hok1); [done| |done|done]. set_solver. }
      destruct (kids_node s h Hs Hk) as (u & Hu & -> & Hrk). split; [split; [by exists u|]; intros q [->|Hq]%elem_of_cons; [done|]; specialize (Hab q Hq); lia|].
      apply (enough_sub db); [intros k Hk'; by apply (shrinks_sub P _ _ _ Hs1), (shrinks_sub _ _ _ _ Hs2)|]. apply (enough_child db f (phash s)); [by exists e|by apply U_zero; apply Hu|done|done]. }
    rewrite E3. unfold gmodify. destruct (drop_node_ok db3 P E L3 (phash s) (dirtiesSize db3 - (32 + cn_size e2)) (childrenSize db3 - match children e2 with Some _ => 48 | None => 0 end) Hok3 Hx3) as [Hok4 Hx4].
    eexists _, L3. split; [done|]. split; [done|]. split; [done|]. split; [|intros _ _; cbn [dirties set_sizes set_dirties]; apply lookup_delete_eq].
    split; [destruct Hs1 as [(? & ? & ?) _], Hs2 as [(? & ? & ?) _], Hs3 as [(? & ? & ?) _]; split_and!; cbn; congruence|]. cbn [dirties set_sizes set_dirties]. intros k x [Hne Hk]%lookup_delete_Some.
    destruct Hs3 as [_ Hs3]. destruct (Hs3 k x Hk) as (x2 & Hx2' & En2 & Ec2'). destruct Hs2 as [_ Hs2]. destruct (Hs2 k x2 Hx2') as (x1 & Hx1' & En1 & Ec1). destruct Hs1 as [_ Hs1]. destruct (Hs1 k x1 Hx1') as (x0 & Hx0 & En0 & Ec0).
    exists x0. split; [done|]. split; [congruence|]. intros HkP. rewrite Ec2', Ec1, Ec0; [done|done|set_solver..].
  - exists db1, L. split; [done|]. split; [done|]. split; [done|]. split; [done|]. intros Hno Hz. exfalso. apply Hp.
    destruct (ok_count _ _ _ _ Hok1 _ _ HsL He1) as [[x Hx']|Ep]; [destruct Hno; destruct Hs1 as [(Ed & _) _]; exists x; by rewrite <- Ed|]. rewrite Hr1 in Ep. cbn [parents set_parents] in Ep. lia.
Qed.
Lemma dereference_ok f : deref_ok f.
Proof.
  induction f as [|f IH]; intros child parent P E db L HP Hok Hx Hab Hen; [destruct Hen; lia|]. rewrite dereference_S. unfold mbind at 1, GoM_bind at 1, get_dirty.
  destruct (linked_in _ _ _ parent (ok_linked _ _ _ _ Hok)) as [node Hn]; [set_solver|]. rewrite Hn.
  destruct (unref_pending db P (child :: E) L child parent node Hok Hx HP Hn) as (db1 & E1 & Hok1 & Hx1 & Hs1). unfold mbind, GoM_bind. rewrite E1.
  destruct (release_ok f child P E db1 L IH Hok1 Hx1 Hab) as (db2 & L2 & E2 & Hok2 & Hx2 & Hs2 & _); [eapply enough_sub; [intros k; by apply (shrinks_sub P)|done]|].
  exists db2, L2. split; [done|]. split; [done|]. split; [done|]. eapply (shrinks_trans P P); [done|by intros k ? []|done|done].
Qed.

(** ** Dereferencing a root *)
Definition minus (c : gmap (list Z) Z) (root : list Z) (n : Z) : gmap (list Z) Z := if n - 1 =? 0 then base.delete root c else <[root := n - 1]> c.
Lemma unref_root db L root em c n : good db L -> root <> zeroHash -> dirties db !! zeroHash = Some em -> children em = Some c -> c !! root = Some n ->
  exists db', unref root zeroHash em db = Done (tt, db') /\ db_ok db' [] [root] L /\ ext_ok db' [] L /\ same_rest db db' /\ dirties db' = <[zeroHash := set_children (Some (minus c root n)) em]> (dirties db).
Proof.
  intros [Hok Hx] Hz Hm Hc Hn. assert (Eex : extern em = c) by (unfold extern; by rewrite Hc). assert (Hn' : extern em !! root = Some n) by (by rewrite Eex).
  destruct (ok_meta _ _ _ _ Hok em root n Hm Hn') as [Hb Hk].
  destruct (upd_shape zeroHash (set_children (Some (minus c root n))) db em Hm eq_refl) as (db1 & E1 & Hr & Ed & Hl). specialize (Hl _ _ (ok_linked _ _ _ _ Hok)).
  assert (Hu : exists z, unref root zeroHash em db = Done (tt, set_sizes (dirtiesSize db1) z db1)).
  { unfold unref. rewrite Hc, Hn. cbn [default from_option]. unfold id, minus in *. rewrite (proj2 (Z.ltb_lt _ _)) by lia. unfold mbind, GoM_bind, add_childrenSize, gmodify.
    destruct (n - 1 =? 0); rewrite E1; [by eexists|]. exists (childrenSize db1). by destruct db1. }
  destruct Hu as (z & Eu). eexists. split; [exact Eu|]. set (db2 := set_sizes _ z db1). change (dirties db2) with (dirties db1). rewrite Ed.
  destruct Hr as (Edi & Ecl & Epi). assert (Ho : forall h, ond db2 h <-> ond db h) by (intros h; unfold ond; cbn [db2 diskdb set_sizes]; by rewrite Edi).
  assert (Hlk : forall k x, k <> zeroHash -> dirties db2 !! k = Some x -> dirties db !! k = Some x).
  { intros k x Hk'. change (dirties db2) with (dirties db1). rewrite Ed, lookup_insert_ne by done. done. }
  assert (Hrefs : forall k, refs (dirties db2) k = refs (dirties db) k - (if decide (root = k) then 1 else 0)).
  { intros k. change (dirties db2) with (dirties db1). rewrite Ed, (refs_update _ _ em) by done. unfold occ, core. cbn [fst snd]. rewrite Eex. unfold extern. cbn [set_children children cn_node default from_option]. unfold id, minus.
    destruct (decide (root = k)) as [<-|Hne]; [rewrite Hn|]; destruct (Z.eqb_spec (n - 1) 0); rewrite ?lookup_delete_eq, ?lookup_insert_eq, ?lookup_delete_ne, ?lookup_insert_ne by done; cbn [default from_option]; unfold id; lia. }
  split; [|split; [|done]].
  - split; [by destruct Hl; split| | | | | | | | |].
    + intros h x Hh Hhz. eapply (ok_nodes _ _ _ _ Hok); [by apply Hlk|done].
    + intros u enc Hu. cbn [db2 diskdb set_sizes]. rewrite Edi. by apply (ok_disk _ _ _ _ Hok).
    + intros u enc Hu. rewrite Ho. unfold cleans_get. cbn [db2 cleans set_sizes]. rewrite Ecl. by apply (ok_cleans _ _ _ _ Hok).
    + intros u h Hu. rewrite !Ho. by apply (ok_closed _ _ _ _ Hok).
    + intros i u h Hu. rewrite Ho. by apply (ok_order _ _ _ _ Hok).
    + intros x h m Hxz Hh. rewrite Ho. change (dirties db2) with (dirties db1) in Hxz. rewrite Ed, lookup_insert_eq in Hxz. injection Hxz as <-. unfold extern in Hh. cbn [set_children children default from_option] in Hh. unfold id, minus in Hh.
      assert (Hold : (h = root /\ m = n - 1 /\ n - 1 <> 0) \/ c !! h = Some m).
      { destruct (Z.eqb_spec (n - 1) 0); [right; by apply lookup_delete_Some in Hh as [_ ?]|]. apply lookup_insert_Some in Hh as [[<- <-]|[_ ?]]; [by left|by right]. }
      destruct Hold as [(-> & -> & ?)|Hold]; [split; [lia|done]|]. rewrite <- Eex in Hold. by eapply ok_meta.
    + intros u x h m Hu HuL Hux. assert (Huz : phash u <> zeroHash) by (apply U_zero; apply Hu). by apply (ok_extern _ _ _ _ Hok u x h m Hu HuL (Hlk _ _ Huz Hux)).
    + intros k x HkL Hkx. destruct (ok_in _ _ _ _ Hok k HkL) as (_ & Hkz & _). rewrite Ho. change (live (dirties db2) []) with (dirties db2). rewrite Hrefs, count_cons.
      destruct (ok_count _ _ _ _ Hok k x HkL (Hlk _ _ Hkz Hkx)) as [?| ->]; [by left|right]. change (live (dirties db) []) with (dirties db). change (count k []) with 0. case_decide; lia.
    + cbn [db2 preimages set_sizes]. rewrite Epi. apply (ok_preimages _ _ _ _ Hok).
  - intros u x h Hu HuL HuN Hux Hh. rewrite Ho. assert (Huz : phash u <> zeroHash) by (apply U_zero; apply Hu). by apply (Hx u x h Hu HuL HuN (Hlk _ _ Huz Hux)).
Qed.
(** The references to roots. *)
Definition root_refs (db : Database) (h : list Z) : Z := match dirties db !! zeroHash with Some e => default 0 (extern e !! h) | None => 0 end.
Lemma Dereference_ok db L s : good db L -> U_node s -> 1 <= root_refs db (phash s) ->
  exists db' L', Dereference range_ (phash s) db = Done (tt, db') /\ good db' L' /\ diskdb db' = diskdb db /\ (forall k, is_Some (dirties db' !! k) -> is_Some (dirties db !! k))
    /\ (forall h, root_refs db' h = root_refs db h - (if decide (h = phash s) then 1 else 0))
    /\ (~ ond db (phash s) -> refs (dirties db) (phash s) = 1 -> dirties db' !! phash s = None).
Proof.
  intros Hg Hs Hn. assert (Hz : phash s <> zeroHash) by (apply U_zero; apply Hs). unfold root_refs in Hn. destruct (dirties db !! zeroHash) as [em|] eqn:Hm; [|lia].
  assert (Hc : exists c n, children em = Some c /\ c !! phash s = Some n).
  { unfold extern in Hn. destruct (children em) as [c|]; [|simpl in Hn; rewrite lookup_empty in Hn; simpl in Hn; lia]. cbn [default from_option] in Hn. unfold id in Hn.
    destruct (c !! phash s) as [n|] eqn:En; [by exists c, n|]. cbn [default from_option] in Hn. lia. }
  destruct Hc as (c & n & Hc & Hcn). destruct (unref_root db L (phash s) em c n Hg Hz Hm Hc Hcn) as (db1 & E1 & Hok1 & Hx1 & (Edi & _) & Ed).
  unfold Dereference. rewrite bool_decide_eq_false_2, dereference_S by done. unfold mbind, GoM_bind, get_dirty. rewrite Hm, E1.
  assert (Hsub : forall k, is_Some (dirties db1 !! k) -> is_Some (dirties db !! k)).
  { intros k. rewrite Ed. destruct (decide (k = zeroHash)) as [->|?]; [by rewrite Hm|by rewrite lookup_insert_ne]. }
  destruct (release_ok (base.size (dirties db)) (phash s) [] [] db1 L (dereference_ok _) Hok1 Hx1) as (db2 & L2 & E2 & Hok2 & Hx2 & Hs2 & Hgone).
  { split; [by exists s|by intros q ?%not_elem_of_nil]. }
  { apply (enough_sub db); [done|]. split; [lia|]. intros Hd. pose proof (lower_size db _ _ _ (phash s) (proj1 Hg) Hd Hz). lia. }
  exists db2, L2. split; [done|]. split; [done|]. pose proof Hs2 as [(Edi2 & _) Hlk]. split; [congruence|]. split; [intros k Hk; by apply Hsub, (shrinks_sub _ _ _ _ Hs2)|]. split.
  - intros h. unfold root_refs. rewrite Hm. destruct (linked_in _ _ _ zeroHash (ok_linked _ _ _ _ Hok2)) as [x Hx]; [left|]. rewrite Hx. destruct (Hlk _ x Hx) as (y & Hy & _ & Ec).
    rewrite Ed, lookup_insert_eq in Hy. injection Hy as <-. unfold extern. rewrite Ec, Hc by apply not_elem_of_nil. cbn [set_children children default from_option]. unfold id, minus.
    destruct (decide (h = phash s)) as [->|Hne]; [rewrite Hcn|]; destruct (Z.eqb_spec (n - 1) 0); rewrite ?lookup_delete_eq, ?lookup_insert_eq, ?lookup_delete_ne, ?lookup_insert_ne by done; cbn [default from_option]; unfold id; lia.
  - intros Hno Hone. apply Hgone; [intros [x Hx]; apply Hno; exists x; by rewrite <- Edi|]. change (count (phash s) []) with 0. change (live (dirties db1) []) with (dirties db1).
    rewrite Ed, (refs_update _ _ em) by done. unfold occ, core. cbn [fst snd]. unfold extern. rewrite Hc. cbn [set_children children cn_node default from_option]. unfold id, minus. rewrite Hcn.
    destruct (Z.eqb_spec (n - 1) 0); rewrite ?lookup_delete_eq, ?lookup_insert_eq; cbn [default from_option]; unfold id; lia.
Qed.
End gc.
End TrieGC.
