(* ===== verification/TrieDBEx.v ===== *)
(** * An example of a run of the trie database

    A storage trie with one entry and an account trie with two, one of which has
    the root of the storage trie: the nodes make a [Universe] that satisfies its laws. *)

From stdpp Require Import base list numbers strings gmap relations.
From Stdlib Require Import ZArith Lia.
From S2P Require Import Prelude Bytes Rlp Enr EnrProps NodeDB NodeDBProps TrieKeys Trie TriePure TrieUpd TrieLoad TrieHash TrieDecode TrieMap TrieProps TrieDB TrieDBInv TrieRaw TrieDBOk.
Import Rlp Enr EnrProps TrieKeys Trie TriePure TrieUpd TrieLoad TrieHash TrieDecode TrieMap TrieProps TrieDB TrieDBInv TrieRaw TrieDBOk.

Module TrieDBEx.

(** ** The tree of a node without hashes *)
Fixpoint tree_of (n : node) : ptrie :=
  match n with
  | shortNode k v _ => PShort k (tree_of v)
  | fullNode cs _ => PFull (map tree_of cs)
  | valueNode v => PVal v
  | _ => PNil
  end.
Fixpoint plain (n : node) : bool :=
  match n with
  | shortNode _ v _ => plain v
  | fullNode cs _ => forallb plain cs
  | hashNode _ => false
  | _ => true
  end.
Lemma loads_tree `{C : Crypto} dbn miss n : forall b t, loads dbn miss b n t -> plain n = true -> t = tree_of n.
Proof.
  induction n as [|ns fl IH|k n fl IH|h|v] using node_rect'; intros b t Hl Hp; inversion Hl as [| |? ? ? ? ? Hc|? ? cs ? Hc|]; subst; try done; cbn [tree_of plain] in *.
  - f_equal. clear -IH Hc Hp. revert cs Hc. induction IH as [|n ns Hn _ IHl]; intros cs Hc; inversion Hc; subst; [done|]. cbn [map]. apply andb_true_iff in Hp as [Hp1 Hp2].
    f_equal; [by eapply Hn|by apply IHl].
  - f_equal. by eapply IH.
Qed.

(** ** The tries *)
Definition run_update (k v : list Z) (tr : Trie) : Trie := match TryUpdate no_db k v tr with Done (_, tr') => tr' | _ => tr end.
Definition v1 : list Z := replicate 33 7.
Definition tr1 : Trie := Eval vm_compute in run_update [1] v1 empty_trie.
Definition T1 : ptrie := Eval vm_compute in tree_of (root tr1).
Definition h1 : list Z := Eval vm_compute in phash (C := sample_crypto) T1.
Definition va : list Z := h1 ++ [1].
Definition vb : list Z := replicate 34 9.
Definition tr2 : Trie := Eval vm_compute in run_update [0x20] vb (run_update [0x10] va empty_trie).
Definition T2 : ptrie := Eval vm_compute in tree_of (root tr2).
Definition TA : ptrie := PShort [0; 16] (PVal va).
Definition TB : ptrie := PShort [0; 16] (PVal vb).
Definition h2 : list Z := Eval vm_compute in phash (C := sample_crypto) T2.
Definition hA : list Z := Eval vm_compute in phash (C := sample_crypto) TA.
Definition hB : list Z := Eval vm_compute in phash (C := sample_crypto) TB.
Definition m1 : kvmap := <[ [1] := v1 ]> ∅.
Definition m2 : kvmap := <[ [0x20] := vb ]> (<[ [0x10] := va ]> ∅).
(** The root in a value. *)
Definition ex_roots (v : list Z) : list (list Z) := if decide (v = va) then [h1] else [].

#[export] Instance ex_universe : Universe (C := sample_crypto) := {
  U s := s ∈ [T1; T2; TA; TB; PVal v1; PVal va; PVal vb; PNil];
  ext s := match s with PShort _ (PVal v) => ex_roots v | _ => [] end;
  rank h := if decide (h = h1) then 1%nat else if decide (h = h2) then 3%nat else 2%nat;
}.
Lemma T2_children c : child_of c T2 -> c ∈ [TA; TB; PNil].
Proof.
  unfold T2. inversion 1 as [|n ? ? Hn]; subst. do 17 (destruct n as [|n]; [injection Hn as <-; set_solver|]). done.
Qed.
Lemma ex_nodes s : U (Universe := ex_universe) s -> is_node s -> s ∈ [T1; T2; TA; TB].
Proof. cbn [U ex_universe]. rewrite !elem_of_cons, elem_of_nil. intros [->|[->|[->|[->|[->|[->|[->|[->|[]]]]]]]]] Hn; try done; set_solver. Qed.
Lemma ex_hashes : phash (C := sample_crypto) T1 = h1 /\ phash (C := sample_crypto) T2 = h2 /\ phash (C := sample_crypto) TA = hA /\ phash (C := sample_crypto) TB = hB.
Proof. by vm_compute. Qed.

(** ** What they represent *)
Lemma ex_update dbn tr m k v tr' : represents (C := sample_crypto) dbn false tr m -> bytes k -> v <> [] -> TryUpdate dbn k v tr = Done (None, tr') -> represents (C := sample_crypto) dbn false tr' (<[k := v]> m).
Proof.
  intros Hr Hk Hv E. destruct (TryUpdate_spec (C := sample_crypto) dbn false tr m k v Hr Hk) as (e & tr1' & E1 & He). rewrite E in E1. injection E1 as <- <-.
  unfold update_map in He. by rewrite decide_False in He.
Qed.
Lemma ex_tr1 dbn : represents (C := sample_crypto) dbn false tr1 m1.
Proof. eapply ex_update; [apply represents_empty|solve_bytes|done|reflexivity]. Qed.
Lemma ex_tr2 dbn : represents (C := sample_crypto) dbn false tr2 m2.
Proof. eapply ex_update; [eapply ex_update; [apply represents_empty|solve_bytes|done|reflexivity]|solve_bytes|done|reflexivity]. Qed.
Lemma rep_T1 : rep T1 m1.
Proof. destruct (ex_tr1 no_db) as (t & Hl & Hr). by rewrite (loads_tree _ _ _ _ _ Hl eq_refl) in Hr. Qed.
Lemma rep_T2 : rep T2 m2.
Proof. destruct (ex_tr2 no_db) as (t & Hl & Hr). by rewrite (loads_tree _ _ _ _ _ Hl eq_refl) in Hr. Qed.
Lemma ex_sized1 : sized_map m1.
Proof. apply map_Forall_insert_2; [|apply map_Forall_empty]. split; [by vm_compute|]. split; [by vm_compute|]. solve_bytes. Qed.
Lemma ex_sized2 : sized_map m2.
Proof. repeat (apply map_Forall_insert_2; [split; [by vm_compute|]; split; [by vm_compute|]; solve_bytes|]). apply map_Forall_empty. Qed.
Lemma universe_wf s : U (Universe := ex_universe) s -> wf s /\ sized s.
Proof.
  pose proof (rep_sized _ _ rep_T1 ex_sized1) as S1. pose proof (rep_sized _ _ rep_T2 ex_sized2) as S2. pose proof (rep_wf _ _ rep_T1) as W1. pose proof (rep_wf _ _ rep_T2) as W2.
  assert (C1 : child_of (PVal v1) T1) by constructor. assert (CA : child_of TA T2) by (by apply (child_full 1)). assert (CB : child_of TB T2) by (by apply (child_full 2)).
  assert (CVa : child_of (PVal va) TA) by constructor. assert (CVb : child_of (PVal vb) TB) by constructor.
  pose proof (sized_child _ _ S2 CA) as SA. pose proof (sized_child _ _ S2 CB) as SB. pose proof (wf_node _ W2 I) as K2.
  pose proof (wf_child_of _ _ K2 CA) as WA. pose proof (wf_child_of _ _ K2 CB) as WB.
  cbn [U ex_universe]. rewrite !elem_of_cons, elem_of_nil. intros [->|[->|[->|[->|[->|[->|[->|[->|[]]]]]]]]]; (split; [try done|try done]).
  - right; left; by eexists.
  - exact (sized_child _ _ S1 C1).
  - right; left; by eexists.
  - exact (sized_child _ _ SA CVa).
  - right; left; by eexists.
  - exact (sized_child _ _ SB CVb).
  - by left.
Qed.
Lemma ex_child s c : U (Universe := ex_universe) s -> child_of c s -> U (Universe := ex_universe) c /\ (is_node c -> s = T2 /\ c ∈ [TA; TB]).
Proof.
  cbn [U ex_universe]. rewrite (elem_of_cons _ s), (elem_of_cons _ s). intros [->|[->|Hs]] Hc.
  - inversion Hc; subst. split; [set_solver|done].
  - apply T2_children in Hc. split; [set_solver|]. intros Hn. split; [done|]. rewrite !elem_of_cons, elem_of_nil in Hc. destruct Hc as [->|[->|[->|[]]]]; [set_solver..|done].
  - rewrite !elem_of_cons, elem_of_nil in Hs. destruct Hs as [->|[->|[->|[->|[->|[->|[]]]]]]]; inversion Hc; subst; (split; [set_solver|done]).
Qed.
#[export] Instance ex_laws : UniverseLaws ex_universe.
Proof.
  assert (Hh : forall s, U (Universe := ex_universe) s -> is_node s -> (s = T1 /\ phash s = h1) \/ (s = T2 /\ phash s = h2) \/ (s = TA /\ phash s = hA) \/ (s = TB /\ phash s = hB)).
  { intros s Hs Hn. pose proof (ex_nodes s Hs Hn) as Hin. rewrite !elem_of_cons, elem_of_nil in Hin. destruct ex_hashes as (E1 & E2 & EA & EB). destruct Hin as [->|[->|[->|[->|[]]]]]; tauto. }
  split.
  - intros s c Hs Hc. by apply (ex_child s c).
  - apply universe_wf.
  - intros s u Hs Hu Hsn Hun. destruct (Hh s Hs Hsn) as [[-> ->]|[[-> ->]|[[-> ->]|[-> ->]]]], (Hh u Hu Hun) as [[-> ->]|[[-> ->]|[[-> ->]|[-> ->]]]]; done.
  - intros s Hs Hn. destruct (Hh s Hs Hn) as [[-> ->]|[[-> ->]|[[-> ->]|[-> ->]]]]; done.
  - intros s Hs Hn. destruct (Hh s Hs Hn) as [[-> ->]|[[-> ->]|[[-> ->]|[-> ->]]]]; by vm_compute.
  - intros s h _ Hx. exists T1. split; [cbn; set_solver|]. split; [done|]. destruct ex_hashes as (-> & _). cbn [ext ex_universe] in Hx. unfold ex_roots in Hx.
    destruct s as [|?|? []|?]; try (by apply not_elem_of_nil in Hx). case_decide; [by apply list_elem_of_singleton in Hx|by apply not_elem_of_nil in Hx].
  - intros s c Hs Hc Hn. assert (Hx : s = T2 /\ c ∈ [TA; TB]).
    { apply tc_last in Hc as (d & Hcd & Hd). destruct (ex_child s d Hs Hd) as [HUd Hdn]. apply rtc_tc in Hcd as [->|Hcd]; [by apply Hdn|].
      assert (Hd' : is_node d) by (apply tc_last in Hcd as (? & _ & Hx); by destruct Hx). destruct (Hdn Hd') as [-> Hin].
      apply tc_last in Hcd as (x & Hcx & Hx). rewrite !elem_of_cons, elem_of_nil in Hin.
      destruct Hin as [->|[->|[]]]; inversion Hx; subst; (apply rtc_tc in Hcx as [->|Hcx]; [done|]; apply tc_last in Hcx as (? & _ & Hy); inversion Hy). }
    destruct Hx as [-> Hin], ex_hashes as (_ & -> & EA & EB). rewrite !elem_of_cons, elem_of_nil in Hin. destruct Hin as [->|[->|[]]]; [rewrite EA|rewrite EB]; vm_compute; lia.
  - intros s h Hs Hx. destruct ex_hashes as (_ & _ & EA & _). assert (Hsx : s = TA /\ h = h1).
    { cbn [ext ex_universe] in Hx. destruct s as [|?|k [|v| |]|?]; try (by apply not_elem_of_nil in Hx). unfold ex_roots in Hx. case_decide as Ev; [|by apply not_elem_of_nil in Hx]. apply list_elem_of_singleton in Hx as ->. split; [|done].
      cbn [U ex_universe] in Hs. rewrite !elem_of_cons, elem_of_nil in Hs. rewrite Ev in Hs. destruct Hs as [E|[E|[E|[E|[E|[E|[E|[E|[]]]]]]]]]; try discriminate E. by rewrite Ev. }
    destruct Hsx as [-> ->]. rewrite EA. vm_compute. lia.
  - intros s. cbn [ext ex_universe]. unfold ex_roots. destruct s as [|?|? []|?]; try apply NoDup_nil_2. case_decide; [apply NoDup_singleton|apply NoDup_nil_2].
Qed.
End TrieDBEx.
