(* ===== verification/TrieDBProps.v ===== *)
(** * Properties of the trie database

    Committing tries, flushing them, dropping roots: what was committed and is still
    referenced can be opened again, with the same contents. *)

From stdpp Require Import base list numbers strings gmap relations.
From Stdlib Require Import ZArith Lia.
From S2P Require Import Prelude Bytes Rlp Enr EnrProps NodeDB TrieKeys Trie TriePure TrieLoad TrieHash TrieDecode TrieMap TrieDB TrieDBInv TrieRaw TrieDBOk TrieDBGrow TrieCommit TrieFlush TrieCap TrieGC TrieProps NodeDBProps TrieDBEx.
Import Rlp Enr EnrProps NodeDBProps TrieKeys Trie TriePure TrieLoad TrieHash TrieDecode TrieMap TrieDB TrieDBInv TrieRaw TrieDBOk TrieDBGrow TrieCommit TrieFlush TrieCap TrieGC TrieDBEx.

Module TrieDBProps.

Section props.
Context `{C : Crypto} {CL : CryptoLaws C} `{St : NodeDB.KVStore} {SL : NodeDB.KVLaws St} `{K : Cache} {KL : CacheLaws K} {X : Universe} {XL : UniverseLaws X}.

(** The invariant of the database. *)
Definition db_inv (db : Database) : Prop := exists L, good db L.
(** A trie of the run with the contents [m] is stored under the hash [h]. *)
Definition holds (db : Database) (h : list Z) (m : kvmap) : Prop := exists t, U_node t /\ rep t m /\ h = phash t /\ stored db h.
Lemma holds_opens db h m : db_inv db -> holds db h m -> opens db h m.
Proof. intros (L & Hg) (t & Ht & Hr & -> & Hst). by eapply stored_opens; [apply Hg|..]. Qed.
Lemma holds_grows db db' h m : grows db db' -> holds db h m -> holds db' h m.
Proof. intros Hg (t & Ht & Hr & -> & Hst). exists t. split_and!; [apply Ht..|done|done|by eapply grows_stored]. Qed.
Lemma holds_flushed db db' h m : flushed db db' -> holds db h m -> holds db' h m.
Proof. intros Hg (t & Ht & Hr & -> & Hst). exists t. split_and!; [apply Ht..|done|done|by eapply flushed_stored]. Qed.
(** A database that starts over what is on disk, for instance after a crash. *)
Definition restart (db : Database) : Database := NewDatabaseWithConfig (diskdb db) None true.
Lemma new_linked d b : linked (NewDatabaseWithConfig d None b) [] [].
Proof.
  split; [apply NoDup_singleton| |done|done|done|].
  - intros h. cbn [NewDatabaseWithConfig dirties app]. rewrite list_elem_of_singleton. destruct (decide (h = zeroHash)) as [->|Hne]; [rewrite lookup_singleton_eq|rewrite lookup_singleton_ne by done]; split; done.
  - intros e. cbn [NewDatabaseWithConfig dirties]. rewrite lookup_singleton_eq. by intros [= <-].
Qed.
Lemma new_good d b :
  (forall s enc, U_node s -> NodeDB.Get d (phash s) = Some enc -> enc = penc s) ->
  (forall s h, U_node s -> is_Some (NodeDB.Get d (phash s)) -> h ∈ kids s -> is_Some (NodeDB.Get d h)) -> good (NewDatabaseWithConfig d None b) [].
Proof.
  intros Hd Hc. split; [split; [apply new_linked| |exact Hd|done|exact Hc| | | | |]|].
  - intros h e He Hz. cbn [NewDatabaseWithConfig dirties] in He. apply lookup_singleton_Some in He as [? _]. by destruct Hz.
  - intros i s h _ Hi. by rewrite lookup_nil in Hi.
  - intros e h n He Hh. cbn [NewDatabaseWithConfig dirties] in He. rewrite lookup_singleton_eq in He. injection He as <-. unfold extern in Hh. cbn in Hh. by rewrite lookup_empty in Hh.
  - by intros s e h n _ ?%not_elem_of_nil.
  - by intros c e ?%not_elem_of_nil.
  - intros m k Hm. destruct b; [|done]. injection Hm as <-. rewrite lookup_empty. by intros [].
  - by intros s e h _ ?%not_elem_of_nil.
Qed.
Lemma restart_inv db : db_inv db -> db_inv (restart db).
Proof. intros (L & Hok & _). exists []. apply new_good; [intros s enc; apply (ok_disk _ _ _ _ Hok)|intros s h; apply (ok_closed _ _ _ _ Hok)]. Qed.
Lemma restart_holds db t m : U_node t -> rep t m -> ond db (phash t) -> holds (restart db) (phash t) m.
Proof. intros Ht Hr Ho. exists t. split; [done|]. split; [done|]. split; [done|]. by right. Qed.

Section ops.
Variable range_ : gmap (list Z) Z -> list (list Z).
Hypothesis Hrange : forall m, range_ m ≡ₚ (map_to_list m).*1.
Variable write_fails : NodeDB.store -> list (list Z * list Z) -> bool.

(** C12.  A trie over the database is committed without an error: the root hash is that of
    its contents, the nodes that are new are stored, and the trie can be opened
    again under its root hash with the same contents.  The leaf callback references
    the tries whose roots are in the values.  All tries that were stored still are. *)
Theorem commit_reload onleaf roots tr m t db k :
  onleaf_refs onleaf roots -> db_inv db -> represents (dbnode db) false tr m -> sized_map m -> rep t m -> (is_node t -> U t) -> ready roots db t -> fits db (weight t + k) -> 0 <= k ->
  exists h n tr' db', Commit range_ onleaf tr db = Done (h, n, tr', db') /\ root_hash m h /\ db_inv db' /\ fits db' k
    /\ represents (dbnode db') false tr' m /\ opens db' h m /\ (m <> ∅ -> holds db' h m) /\ forall h' m', holds db h' m' -> holds db' h' m' /\ opens db' h' m'.
Proof.
  intros Hon (L & Hg) Hrep Hs Ht HU Hrd Hf Hk.
  destruct (Commit_spec range_ onleaf roots Hon tr m t db L k Hrep Hs Hg Ht HU Hrd Hf Hk) as (h & n & tr' & db' & L' & E & Hroot & Hg' & Hf' & Hgr & Hrep' & Hop & Hst).
  exists h, n, tr', db'. split; [done|]. split; [done|]. split; [by exists L'|]. split; [done|]. split; [done|]. split; [done|]. split.
  - intros Hne. assert (Hn : is_node t) by (destruct Ht as ([->|Hc] & Hget & _ & Hm); [|by destruct Hc]; destruct Hne; apply map_empty; intros x; destruct (m !! x) as [v|] eqn:Ev; [|done]; specialize (Hget x (Hm x v Ev)); by rewrite Ev in Hget).
    destruct (Hst Hn) as [-> ?]. exists t. split; [split; [by apply HU|done]|done].
  - intros h' m' Hh. assert (Hh' : holds db' h' m') by (by eapply holds_grows). split; [done|]. apply holds_opens; [by exists L'|done].
Qed.
(** C14.  A flush of a root always returns.  Whether writes fail or not, every trie that was
    stored can still be opened, and the disk is such that the database can be
    restarted from it; if there was no error, the trie is then there. *)
Theorem commit_durable db h m :
  db_inv db -> holds db h m ->
  exists ok db', Database_Commit range_ write_fails h db = Done (ok, db') /\ db_inv db' /\ db_inv (restart db')
    /\ (forall h' m', holds db h' m' -> opens db' h' m') /\ (ok = true -> opens (restart db') h m).
Proof.
  intros (L & Hg) (t & Ht & Hr & -> & Hst). assert (Hz : phash t <> zeroHash) by (apply U_zero; apply Ht).
  destruct (Database_Commit_ok range_ write_fails Hrange (phash t) db L Hz Hg Hst) as (ok & db' & L' & E & Hg' & Hf & Hok). assert (Hi : db_inv db') by (by exists L').
  exists ok, db'. split; [done|]. split; [done|]. split; [by apply restart_inv|]. split; [intros h' m' Hh; apply holds_opens; [done|by eapply holds_flushed]|].
  intros Hk. apply holds_opens; [by apply restart_inv|]. apply restart_holds; [done|done|by apply Hok].
Qed.

(** ** Runs of the database *)
Inductive step : Database -> Database -> Prop :=
  | step_commit onleaf roots tr m t k db h n tr' db' :
      onleaf_refs onleaf roots -> represents (dbnode db) false tr m -> sized_map m -> rep t m -> (is_node t -> U t) -> ready roots db t -> fits db (weight t + k) -> 0 <= k ->
      Commit range_ onleaf tr db = Done (h, n, tr', db') -> step db db'
  | step_reference root db db' :
      root <> zeroHash -> root_refs db root < 2 ^ 16 - 1 -> fits db 1 -> Reference root zeroHash db = Done (tt, db') -> step db db'
  | step_dereference t db db' : U_node t -> 1 <= root_refs db (phash t) -> Dereference range_ (phash t) db = Done (tt, db') -> step db db'
  | step_flush t ok db db' : U_node t -> stored db (phash t) -> Database_Commit range_ write_fails (phash t) db = Done (ok, db') -> step db db'
  | step_cap limit ok db db' : Cap write_fails limit db = Done (ok, db') -> step db db'
  | step_read h r db db' : node_ h db = Done (r, db') -> step db db'
  | step_read_blob h r db db' : Node h db = Done (r, db') -> step db db'
  | step_preimage h p db : length h = 32%nat -> step db (insertPreimage h p db)
  | step_restart db : step db (restart db).

Lemma cleans_set_good db L h enc : good db L -> NodeDB.Get (diskdb db) h = Some enc -> good (cleans_set h enc db) L.
Proof.
  intros [Hok Hx] Hd. pose proof (cleans_set_get db h enc) as Hget. unfold cleans_set in *. destruct (cleans db) as [c|] eqn:Ec; [|done]. set (db' := set_cleans _ db) in *.
  destruct Hok as [H1 H2 H3 H4 H5 H6 H7 H8 H9 H10]. split; [|exact Hx]. split; [by destruct H1; split|exact H2|exact H3| |exact H5|exact H6|exact H7|exact H8|exact H9|exact H10].
  intros s e Hs [[<- ->]|Hg]%Hget; [split; [by apply H3|by exists enc]|by apply H4].
Qed.
Lemma read_good db L h r db' : good db L -> node_ h db = Done (r, db') -> good db' L.
Proof.
  intros Hg. unfold node_, mbind, outcome_bind. destruct (cleans_get db h); [by destruct (mustDecodeNode _ _) as [?|?|?]; intros; simplify_eq|].
  destruct (dirties db !! h); [by destruct (obj _ _) as [?|?|?]; intros; simplify_eq|]. destruct (NodeDB.Get _ _) as [enc|] eqn:Ed; [|by intros; simplify_eq].
  destruct (mustDecodeNode _ _) as [?|?|?]; intros; simplify_eq. by apply cleans_set_good.
Qed.
Lemma read_blob_good db L h r db' : good db L -> Node h db = Done (r, db') -> good db' L.
Proof.
  intros Hg. unfold Node. case_bool_decide; [by intros; simplify_eq|]. destruct (cleans_get db h); [by intros; simplify_eq|]. destruct (dirties db !! h); [by intros; simplify_eq|].
  destruct (NodeDB.Get _ _) as [[|b enc]|] eqn:Ed; intros; simplify_eq; try done. by apply cleans_set_good.
Qed.
Lemma preimage_good db L h p : good db L -> length h = 32%nat -> good (insertPreimage h p db) L.
Proof.
  intros Hg Hl. unfold insertPreimage. destruct (preimages db) as [m|] eqn:Ep; [|done]. destruct (m !! h) eqn:Em; [done|]. apply good_preimages; [done|].
  intros k [v Hv]. apply lookup_insert_Some in Hv as [[<- _]|[_ Hv]]; [done|]. exact (ok_preimages _ _ _ _ (proj1 Hg) m k Ep (mk_is_Some _ _ Hv)).
Qed.
Lemma db_step_inv db db' : db_inv db -> step db db' -> db_inv db'.
Proof.
  intros Hi Hstep. pose proof Hi as (L & Hg). destruct Hstep as [onleaf roots tr m t k db h n tr' db' Hon Hrep Hs Ht HU Hrd Hf Hk E|root db db' Hz Hn Hf E|t db db' Ht Hn E|t ok db db' Ht Hst E|limit ok db db' E|h r db db' E|h r db db' E|h p db Hl|db].
  - destruct (Commit_spec range_ onleaf roots Hon tr m t db L k Hrep Hs Hg Ht HU Hrd Hf Hk) as (h1 & n1 & tr1 & db1 & L1 & E1 & _ & Hg1 & _). rewrite E1 in E. simplify_eq. by exists L1.
  - destruct Hg as [Hok Hx]. destruct (linked_in _ _ _ zeroHash (ok_linked _ _ _ _ Hok)) as [ep Hep]; [left|]. unfold root_refs in Hn. rewrite Hep in Hn.
    destruct (reference_root db [] L root 0 ep Hok Hx Hz Hep Hn Hf) as (db1 & E1 & Hok1 & _ & _ & Hx1 & _); [done|]. unfold Reference in E. rewrite E1 in E. simplify_eq. by exists L.
  - destruct (Dereference_ok range_ Hrange db L t Hg Ht Hn) as (db1 & L1 & E1 & Hg1 & _). rewrite E1 in E. simplify_eq. by exists L1.
  - destruct (Database_Commit_ok range_ write_fails Hrange (phash t) db L) as (ok1 & db1 & L1 & E1 & Hg1 & _); [apply U_zero; apply Ht|done|done|]. rewrite E1 in E. simplify_eq. by exists L1.
  - destruct (Cap_ok write_fails limit db L Hg) as (ok1 & db1 & L1 & E1 & Hg1 & _). rewrite E1 in E. simplify_eq. by exists L1.
  - exists L. by eapply read_good.
  - exists L. by eapply read_blob_good.
  - exists L. by apply preimage_good.
  - by apply restart_inv.
Qed.
(** C4.  From a consistent disk on, through any sequence of commits of tries, references,
    dereferences, flushes with or without failing writes, reads and restarts, the
    invariant of the database holds, and every trie of the run whose root is
    referenced or on disk opens with its contents. *)
Theorem database_safe d db t m :
  db_inv (NewDatabaseWithConfig d None true) -> rtc step (NewDatabaseWithConfig d None true) db ->
  db_inv db /\ (U_node t -> rep t m -> 1 <= root_refs db (phash t) \/ ond db (phash t) -> opens db (phash t) m).
Proof.
  intros Hi Hr. assert (Hdb : db_inv db) by (induction Hr as [|x y z Hxy _ IH]; [done|by apply IH, (db_step_inv x)]). split; [done|].
  intros Ht Hm Hk. apply holds_opens; [done|]. exists t. split; [done|]. split; [done|]. split; [done|]. destruct Hdb as (L & Hg). destruct Hk as [Hk|?]; [|by right].
  unfold root_refs in Hk. destruct (dirties db !! zeroHash) as [e|] eqn:He; [|lia]. destruct (extern e !! phash t) as [n|] eqn:En; [|cbn in Hk; lia].
  destruct (ok_meta _ _ _ _ (proj1 Hg) e (phash t) n He En) as [_ Hkept]. eapply kept_stored; [apply Hg|done].
Qed.
End ops.
End props.

(** ** The example *)
#[local] Existing Instance sample_crypto.
#[local] Existing Instance sample_laws.
#[local] Existing Instance map_store.
#[local] Existing Instance map_store_laws.
#[local] Existing Instance ex_universe.
#[local] Existing Instance ex_laws.
#[export] Instance map_cache : Cache := { cache_t := gmap (list Z) (list Z); CGet c k := c !! k; CSet c k v := <[k := v]> c }.
#[export] Instance map_cache_laws : CacheLaws map_cache.
Proof. split. intros c k v k' x. cbn [CGet CSet map_cache]. intros [[<- <-]|[_ ?]]%lookup_insert_Some; [by left|by right]. Qed.

Definition ex_range (m : gmap (list Z) Z) : list (list Z) := (map_to_list m).*1.
Lemma ex_range_ok m : ex_range m ≡ₚ (map_to_list m).*1.
Proof. done. Qed.
Definition ex_onleaf : option (list Z -> list Z -> GoM Database unit) := Some (fun v h => for_each (ex_roots v) (fun c => Reference c h)).
Definition no_fail (d : NodeDB.store) (batch : list (list Z * list Z)) : bool := false.
Definition ex_db : Database := NewDatabaseWithConfig (∅ : gmap (list Z) (list Z)) None true.
Lemma ex_db_good : good ex_db [].
Proof. apply new_good; [by intros s enc _ ?|intros s h _ [? ?]; done]. Qed.
Lemma ex_db_fits n : n < 2 ^ 32 -> fits ex_db n.
Proof. intros Hn c. assert (E : refs (dirties ex_db) c = 0); [|lia]. apply refs_zero. intros k e He. cbn [ex_db NewDatabaseWithConfig dirties] in He. apply lookup_singleton_Some in He as [<- <-]. unfold occ, core, extern. cbn. by rewrite lookup_empty. Qed.
Lemma ex_ready1 db : ready (fun _ => []) db T1.
Proof.
  intros s Hs Hn. assert (s = T1) as ->.
  { apply rtc_tc in Hs as [?|Hs]; [done|]. apply tc_last in Hs as (d & Hsd & Hd). inversion Hd; subst. apply rtc_tc in Hsd as [->|Hsd]; [done|]. apply tc_last in Hsd as (x & _ & Hx). inversion Hx. }
  split; [by vm_compute|]. by intros h ?%not_elem_of_nil.
Qed.
Lemma ex_ready2 db : stored db h1 -> ready ex_roots db T2.
Proof.
  intros Hst s Hs Hn. assert (Hin : s ∈ [T2; TA; TB]).
  { apply rtc_tc in Hs as [->|Hs]; [left|]. apply tc_last in Hs as (d & Hsd & Hd). apply T2_children in Hd. rewrite !elem_of_cons, elem_of_nil in Hd.
    destruct Hd as [->|[->|[->|[]]]]; (apply rtc_tc in Hsd as [->|Hsd]; [set_solver || done|]); apply tc_last in Hsd as (x & Hx' & Hx); inversion Hx; subst; (apply rtc_tc in Hx' as [->|Hx']; [done|]); apply tc_last in Hx' as (? & _ & Hy); inversion Hy. }
  rewrite !elem_of_cons, elem_of_nil in Hin. destruct Hin as [->|[->|[->|[]]]]; (split; [by vm_compute|]); intros h Hh; vm_compute in Hh; try by apply not_elem_of_nil in Hh.
  apply list_elem_of_singleton in Hh as ->. done.
Qed.
(** After the commit of both tries, with a reference to the root of the second one. *)
Lemma ex_U1 : is_node T1 -> U T1.
Proof. intros _. cbn. set_solver. Qed.
Lemma ex_U2 : is_node T2 -> U T2.
Proof. intros _. cbn. set_solver. Qed.
Lemma ex_none : onleaf_refs None (fun _ => []).
Proof. done. Qed.
Lemma ex_some : onleaf_refs ex_onleaf ex_roots.
Proof. done. Qed.
Definition spare : Z := weight T2 + 10.
Lemma ex_db_room : fits ex_db (weight T1 + spare).
Proof. apply ex_db_fits. by vm_compute. Qed.
Lemma ex_db1 : exists db, rtc (step ex_range no_fail) ex_db db /\ db_inv db /\ holds db h1 m1 /\ fits db spare /\ diskdb db = diskdb ex_db.
Proof.
  assert (Hsp : 0 <= spare) by (by vm_compute).
  destruct (Commit_spec ex_range None (fun _ => []) ex_none tr1 m1 T1 ex_db [] spare (ex_tr1 _) ex_sized1 ex_db_good rep_T1 ex_U1 (ex_ready1 _) ex_db_room Hsp) as (h & n & tr' & db & L & E & _ & Hg & Hf & (Ed & _) & _ & _ & Hst).
  destruct (Hst I) as [Eh Hst']. exists db. split; [apply rtc_once; exact (step_commit ex_range no_fail None (fun _ => []) tr1 m1 T1 spare ex_db h n tr' db ex_none (ex_tr1 _) ex_sized1 rep_T1 ex_U1 (ex_ready1 _) ex_db_room Hsp E)|].
  split; [by exists L|]. split; [|split; [done|exact Ed]]. exists T1. split; [split; [by apply ex_U1|done]|]. split; [apply rep_T1|]. destruct ex_hashes as (E1 & _). rewrite <- E1 in *. split; [done|]. by rewrite <- Eh.
Qed.
Lemma ex_db2 : exists db, rtc (step ex_range no_fail) ex_db db /\ db_inv db /\ holds db h1 m1 /\ holds db h2 m2 /\ fits db 10 /\ diskdb db = diskdb ex_db.
Proof.
  destruct ex_db1 as (db1 & Hr & (L1 & Hg1) & Hh & Hf & Ed1). assert (Hst : stored db1 h1) by (by destruct Hh as (? & _ & _ & _ & ?)).
  destruct (Commit_spec ex_range ex_onleaf ex_roots ex_some tr2 m2 T2 db1 L1 10 (ex_tr2 _) ex_sized2 Hg1 rep_T2 ex_U2 (ex_ready2 _ Hst) Hf ltac:(done)) as (h & n & tr' & db & L & E & _ & Hg & Hf' & Hgr & _ & _ & Hst').
  destruct (Hst' I) as [Eh Hs]. exists db. split; [eapply rtc_r; [exact Hr|]; exact (step_commit ex_range no_fail ex_onleaf ex_roots tr2 m2 T2 10 db1 h n tr' db ex_some (ex_tr2 _) ex_sized2 rep_T2 ex_U2 (ex_ready2 _ Hst) Hf ltac:(done) E)|].
  split; [by exists L|]. split; [by eapply holds_grows|]. split; [|split; [done|destruct Hgr as (-> & _); exact Ed1]]. exists T2. split; [split; [by apply ex_U2|done]|]. split; [apply rep_T2|]. destruct ex_hashes as (_ & E2 & _). rewrite <- E2. split; [done|]. by rewrite <- Eh.
Qed.
Lemma ex_db3 : exists db, rtc (step ex_range no_fail) ex_db db /\ db_inv db /\ holds db h1 m1 /\ holds db h2 m2 /\ 1 <= root_refs db h2.
Proof.
  destruct ex_db2 as (db & Hr & (L & Hg) & H1 & H2 & Hf & Ed). destruct (decide (1 <= root_refs db h2)) as [Hge|Hlt]; [exists db; split; [done|]; split; [by exists L|]; split; [done|]; split; done|].
  pose proof Hg as [Hok Hx]. destruct (linked_in _ _ _ zeroHash (ok_linked _ _ _ _ Hok)) as [ep Hep]; [left|]. assert (Hn : default 0 (extern ep !! h2) < 2 ^ 16 - 1) by (unfold root_refs in Hlt; rewrite Hep in Hlt; lia).
  assert (Hf1 : fits db (1 + 0)) by (eapply fits_le; [exact Hf|lia]).
  destruct (reference_root db [] L h2 0 ep Hok Hx ltac:(done) Hep Hn Hf1 ltac:(done)) as (db' & E & Hok' & _ & Hgr & Hx' & Hst). exists db'.
  assert (Hg' : good db' L) by done. split; [eapply rtc_r; [exact Hr|]; apply (step_reference ex_range no_fail h2 db db'); [done|unfold root_refs; by rewrite Hep|exact Hf1|exact E]|].
  split; [by exists L|]. split; [by eapply holds_grows|]. split; [by eapply holds_grows|]. destruct H2 as (t & _ & _ & _ & Hs). destruct (Hst Hs) as [[x Hx1]|(e & He & [n Hn1])].
  - destruct Hgr as (Ed' & _). rewrite Ed', Ed in Hx1. by vm_compute in Hx1.
  - unfold root_refs. rewrite He, Hn1. destruct (ok_meta _ _ _ _ Hok' e h2 n He Hn1). cbn. lia.
Qed.
Lemma commit_reload_witness :
  exists db1 h n tr' db', holds db1 h1 m1 /\ Commit ex_range ex_onleaf tr2 db1 = Done (h, n, tr', db') /\ opens db' h m2 /\ opens db' h1 m1.
Proof.
  destruct ex_db1 as (db1 & _ & Hi & Hh & Hf & _). assert (Hst : stored db1 h1) by (by destruct Hh as (? & _ & _ & _ & ?)).
  destruct (commit_reload ex_range ex_onleaf ex_roots tr2 m2 T2 db1 10 ex_some Hi (ex_tr2 _) ex_sized2 rep_T2 ex_U2 (ex_ready2 _ Hst) Hf ltac:(done)) as (h & n & tr' & db' & E & _ & _ & _ & _ & Ho & _ & Hall).
  exists db1, h, n, tr', db'. split; [exact Hh|]. split; [exact E|]. split; [exact Ho|]. exact (proj2 (Hall _ _ Hh)).
Defined.
Lemma commit_durable_witness :
  exists db ok db', holds db h2 m2 /\ Database_Commit ex_range no_fail h2 db = Done (ok, db') /\ (ok = true -> opens (restart db') h2 m2).
Proof.
  destruct ex_db3 as (db & _ & Hi & _ & Hh & _). destruct (commit_durable ex_range ex_range_ok no_fail db h2 m2 Hi Hh) as (ok & db' & E & _ & _ & _ & Hok).
  exists db, ok, db'. split; [exact Hh|]. split; [exact E|exact Hok].
Defined.
Lemma database_safe_witness : exists db, rtc (step ex_range no_fail) ex_db db /\ 1 <= root_refs db h2 /\ opens db h2 m2.
Proof.
  destruct ex_db3 as (db & Hr & _ & _ & _ & Hn). destruct (database_safe ex_range ex_range_ok no_fail ∅ db T2 m2 (ex_intro _ [] ex_db_good) Hr) as [_ Ho].
  exists db. split; [exact Hr|]. split; [exact Hn|]. destruct ex_hashes as (_ & E2 & _). rewrite <- E2. apply Ho; [split; [by apply ex_U2|done]|apply rep_T2|left; rewrite E2; exact Hn].
Defined.
End TrieDBProps.
