(* ===== verification/StackTrie.v ===== *)
(** * The stack trie (src/trie/stacktrie.go) and DeriveSha (src/core/types/hashing.go)

    A stack trie computes the root hash of a trie whose keys come in order, and
    hashes a subtree as soon as no more keys can go into it.  It checks the
    transactions of every block that is announced to the node.

    A node is owned by its parent alone, so that values model the pointers; what
    the pool of nodes hands out has been reset and is equal to a new node.  The
    database a node may have is one writer for the whole trie: [db] says whether
    there is one, and the state of the operations has what was put to it, in order.
    Put copies its arguments, and its errors are ignored, as in the code. *)

From stdpp Require Import base list numbers strings.
From Stdlib Require Import ZArith Lia.
From S2P Require Import Prelude Bytes Rlp Enr TrieKeys Trie TrieDB.
Import Rlp Enr TrieKeys.

#[local] Set Warnings "-register-all".

Module StackTrie.

Inductive nodeType_ : Type := emptyNode | branchNode | extNode | leafNode | hashedNode.
Inductive StackTrie : Type := mk_StackTrie {
  nodeType : nodeType_;
  val : list Z;
  key : list Z;
  children : list (option StackTrie);    (* 16 of them *)
  db : bool;
}.
(** What was put to the database. *)
Abbreviation puts := (list (list Z * list Z)).

Definition no_children : list (option StackTrie) := replicate 16 None.
Definition NewStackTrie (db : bool) : StackTrie := mk_StackTrie emptyNode [] [] no_children db.
Definition newLeaf (key val : list Z) (db : bool) : StackTrie := mk_StackTrie leafNode val key no_children db.
Definition newExt (key : list Z) (child : StackTrie) (db : bool) : StackTrie :=
  mk_StackTrie extNode [] key (<[0%nat := Some child]> no_children) db.
Definition newBranch (children : list (option StackTrie)) (db : bool) : StackTrie := mk_StackTrie branchNode [] [] children db.

Definition lift {S A} (o : outcome A) : GoM S A := fun s => a ← o; Done (a, s).
Definition set_child (cs : list (option StackTrie)) (i : Z) (c : StackTrie) : outcome (list (option StackTrie)) :=
  match cs !! Z.to_nat i with Some _ => Done (<[Z.to_nat i := Some c]> cs) | None => Panic "index out of range" end.
(** The index of the first nibble of [skey] that [key] does not have. *)
Fixpoint getDiffIndex (skey key : list Z) : outcome nat :=
  match skey, key with
  | [], _ => Done 0%nat
  | _ :: _, [] => Panic "index out of range"
  | x :: skey, y :: key => if x =? y then n ← getDiffIndex skey key; Done (S n) else Done 0%nat
  end.

Section ops.
Context `{C : Crypto}.

(** ** Hashing *)
(** The reference to a child that is hashed. *)
Definition childRef (val : list Z) : TrieDB.rnode := if len val <? 32 then TrieDB.rawNode val else TrieDB.rhash val.
Fixpoint hash_children (hs : list (option (GoM puts StackTrie))) : GoM puts (list TrieDB.rnode) :=
  match hs with
  | [] => mret []
  | None :: hs => rs ← hash_children hs; mret (TrieDB.rvalue [] :: rs)
  | Some h :: hs => child ← h; rs ← hash_children hs; mret (childRef (val child) :: rs)
  end.
(** The end of hashRec: the node is replaced by its encoding or its hash. *)
Definition set_hashed (cs : list (option StackTrie)) (db : bool) (n : TrieDB.rnode) : GoM puts StackTrie := fun w =>
  let encodedNode := makeBytes (TrieDB.rencode n empty_buffer) in
  if len encodedNode <? 32 then Done (mk_StackTrie hashedNode encodedNode [] cs db, w)
  else
    let val := Keccak256 encodedNode in
    Done (mk_StackTrie hashedNode val [] cs db, if db then w ++ [(val, encodedNode)] else w).
Definition compactKey (key : list Z) : outcome (list Z) :=
  r ← hexToCompactInPlace key; let '(hex, sz) := r in Done (take sz hex).
Fixpoint hashRec (st : StackTrie) : GoM puts StackTrie :=
  match st with
  | mk_StackTrie hashedNode _ _ _ _ => mret st
  | mk_StackTrie emptyNode _ _ cs db => mret (mk_StackTrie hashedNode Trie.emptyRoot [] cs db)
  | mk_StackTrie branchNode _ _ cs db =>
      nodes ← hash_children (map (option_map hashRec) cs);
      set_hashed (map (fun _ => None) cs) db (TrieDB.rawFullNode (nodes ++ [TrieDB.RNil]))
  | mk_StackTrie extNode _ key cs db =>
      match cs with
      | Some child :: cs =>
          child ← hashRec child;
          k ← lift (compactKey key);
          set_hashed (None :: cs) db (TrieDB.rawShortNode k (childRef (val child)))
      | _ => gpanic "nil pointer dereference"
      end
  | mk_StackTrie leafNode val key cs db =>
      k ← lift (compactKey (key ++ [16]));
      set_hashed cs db (TrieDB.rawShortNode k (TrieDB.rvalue val))
  end.

(** ** Insertion *)
(** The nearest elder sibling is hashed. *)
Fixpoint unresolve (idx : nat) (cs : list (option StackTrie)) : GoM puts (list (option StackTrie)) :=
  match idx with
  | O => mret cs
  | S i =>
      match cs !! i with
      | Some (Some c) =>
          match nodeType c with
          | hashedNode => mret cs
          | _ => c ← hashRec c; mret (<[i := Some c]> cs)
          end
      | _ => unresolve i cs
      end
  end.
(** The branch, at the place of the node or below its common prefix with the key. *)
Definition split_at (nval skey : list Z) (cs : list (option StackTrie)) (db : bool) (diffidx : nat) (origIdx newIdx : Z) (n o : StackTrie) : outcome StackTrie :=
  if (diffidx =? 0)%nat then
    p ← set_child (<[0%nat := None]> cs) origIdx n;
    p ← set_child p newIdx o;
    Done (mk_StackTrie branchNode nval [] p db)
  else
    p ← set_child no_children origIdx n;
    p ← set_child p newIdx o;
    Done (mk_StackTrie extNode nval (take diffidx skey) (<[0%nat := Some (newBranch p db)]> cs) db).
(** In a branch the sibling that is hashed is not the child that is inserted into. *)
Fixpoint insert (st : StackTrie) (key value : list Z) : GoM puts StackTrie :=
  match st with
  | mk_StackTrie branchNode nval skey cs db =>
      match key with
      | [] => gpanic "index out of range"
      | idx :: rest =>
          cs1 ← unresolve (Z.to_nat idx) cs;
          c ← match map (option_map insert) cs !! Z.to_nat idx with
              | None => gpanic "index out of range"
              | Some None => mret (newLeaf rest value db)
              | Some (Some insert_child) => insert_child rest value
              end;
          cs2 ← lift (set_child cs1 idx c);
          mret (mk_StackTrie branchNode nval skey cs2 db)
      end
  | mk_StackTrie extNode nval skey cs db =>
      diffidx ← lift (getDiffIndex skey key);
      match cs with
      | Some child :: cs' =>
          if (diffidx =? length skey)%nat then
            child ← insert child (drop diffidx key) value;
            mret (mk_StackTrie extNode nval skey (Some child :: cs') db)
          else
            let n := if (diffidx <? length skey - 1)%nat then newExt (drop (diffidx + 1) skey) child db else child in
            n ← hashRec n;
            origIdx ← lift (Trie.key_at skey diffidx);
            newIdx ← lift (Trie.key_at key diffidx);
            lift (split_at nval skey cs db diffidx origIdx newIdx n (newLeaf (drop (diffidx + 1) key) value db))
      | _ => gpanic "nil pointer dereference"
      end
  | mk_StackTrie leafNode nval skey cs db =>
      diffidx ← lift (getDiffIndex skey key);
      if (length skey <=? diffidx)%nat then gpanic "Trying to insert into existing key"
      else
        origIdx ← lift (Trie.key_at skey diffidx);
        n ← hashRec (newLeaf (drop (diffidx + 1) skey) nval db);
        newIdx ← lift (Trie.key_at key diffidx);
        lift (split_at [] skey cs db diffidx origIdx newIdx n (newLeaf (drop (diffidx + 1) key) value db))
  | mk_StackTrie emptyNode _ _ cs db => mret (mk_StackTrie leafNode value key cs db)
  | mk_StackTrie hashedNode _ _ _ _ => gpanic "trying to insert into hash"
  end.

(** ** The operations, on the root and what was put to the database *)
Definition Reset : GoM (StackTrie * puts) unit := gmodify (fun s => (mk_StackTrie emptyNode [] [] (map (fun _ => None) (children s.1)) false, s.2)).
Definition TryUpdate (key value : list Z) : GoM (StackTrie * puts) unit := fun s =>
  let k := keybytesToHex key in
  if len value =? 0 then Panic "deletion not supported"
  else r ← insert s.1 (take (length k - 1) k) value s.2; Done (tt, r).
Definition Update (key value : list Z) : GoM (StackTrie * puts) unit := TryUpdate key value.
Definition Hash : GoM (StackTrie * puts) (list Z) := fun s =>
  r ← hashRec s.1 s.2;
  Done (if len (val r.1) =? 32 then val r.1 else Keccak256 (val r.1), r).
Inductive commitErr : Type := ErrCommitDisabled.
Definition Commit : GoM (StackTrie * puts) (commitErr + list Z) := fun s =>
  if negb (db s.1) then Done (inl ErrCommitDisabled, s)
  else
    r ← hashRec s.1 s.2;
    if len (val r.1) =? 32 then Done (inr (val r.1), r)
    else
      let h := Keccak256 (val r.1) in
      Done (inr h, (r.1, r.2 ++ [(h, val r.1)])).
End ops.
End StackTrie.

(** ** DeriveSha *)
Module DeriveSha.
(** The interface of the tries it is computed with. *)
Class TrieHasher (S : Type) : Type := {
  Reset : GoM S unit;
  Update : list Z -> list Z -> GoM S unit;
  Hash : GoM S (list Z);
}.
#[export] Instance StackTrie_hasher `{C : Crypto} : TrieHasher (StackTrie.StackTrie * list (list Z * list Z)) :=
  { Reset := StackTrie.Reset; Update := StackTrie.Update; Hash := StackTrie.Hash }.
#[export] Instance Trie_hasher `{C : Crypto} (dbnode : list Z -> outcome (option Trie.node)) : TrieHasher Trie.Trie :=
  { Reset := Trie.Reset; Update := Trie.Update dbnode; Hash := Trie.Hash }.

Section derive.
Context {S : Type} {H : TrieHasher S}.
(** [n] rounds of a loop, from the index [i]; [items] has what EncodeIndex writes for
    the elements. *)
Fixpoint derive_loop (items : list (list Z)) (n : nat) (i : Z) : GoM S unit :=
  match n with
  | O => mret tt
  | Datatypes.S n =>
      match items !! Z.to_nat i with
      | Some value => Update (AppendUint64 [] i) value ≫= fun _ => derive_loop items n (i + 1)
      | None => gpanic "index out of range"
      end
  end.
Definition DeriveSha (items : list (list Z)) : GoM S (list Z) :=
  Reset ≫= fun _ =>
  derive_loop items (Z.to_nat (Z.min (len items) 0x80 - 1)) 1 ≫= fun _ =>
  derive_loop items (if 0 <? len items then 1%nat else 0%nat) 0 ≫= fun _ =>
  derive_loop items (Z.to_nat (len items - 0x80)) 0x80 ≫= fun _ =>
  Hash.
End derive.
End DeriveSha.
