(* ===== verification/StackTrieOk.v ===== *)
(** * The stack trie against trees

    [repr w st t]: the stack trie [st] stands for the tree [t], where [w] has been put to
    the database; [live] says in addition that the path to the last key is not
    hashed yet.  Hashing and insertion keep them. *)

From stdpp Require Import base list numbers strings relations.
From Stdlib Require Import ZArith Lia.
From S2P Require Import Prelude Bytes Rlp RlpProps RlpBuffer Enr TrieKeys Trie TriePure TrieUpd TrieLoad TrieOps TrieHash TrieDB TrieRaw StackTrie.
Import Rlp RlpProps RlpBuffer Enr TrieKeys TriePure TrieUpd TrieLoad TrieHash TrieDB TrieRaw StackTrie.

Module StackTrieOk.

(** ** The order of keys: they differ somewhere, and the first is smaller there *)
Definition before (k1 k2 : list Z) : Prop := exists p x y a b, k1 = p ++ x :: a /\ k2 = p ++ y :: b /\ x < y.
Lemma before_cons x k1 k2 : before k1 k2 -> before (x :: k1) (x :: k2).
Proof. intros (p & y & z & a & b & -> & -> & Hlt). by exists (x :: p), y, z, a, b. Qed.
Lemma before_cons_inv x y k1 k2 : before (x :: k1) (y :: k2) -> x < y \/ (x = y /\ before k1 k2).
Proof.
  intros (p & x' & y' & a & b & E1 & E2 & Hlt). destruct p as [|z p]; injection E1 as -> ->; injection E2 as -> ->; [by left|].
  right. split; [done|]. by exists p, x', y', a, b.
Qed.
Lemma before_nil_l k : ~ before [] k.
Proof. intros (p & x & y & a & b & E & _). by destruct p. Qed.
Lemma before_nil_r k : ~ before k [].
Proof. intros (p & x & y & a & b & _ & E & _). by destruct p. Qed.
(** Where the first key starts with [k], the second goes on below it or leaves it. *)
Lemma before_app k last key :
  before (k ++ last) key ->
  (exists key', key = k ++ key' /\ before last key')
  \/ (exists p x y a b, k = p ++ x :: a /\ key = p ++ y :: b /\ x < y).
Proof.
  revert key. induction k as [|z k IH]; intros key Hb; [left; by exists key|]. simpl in Hb.
  destruct key as [|y key]; [by apply before_nil_r in Hb|]. apply before_cons_inv in Hb as [Hlt|[-> Hb]].
  - right. by exists [], z, y, k, key.
  - destruct (IH _ Hb) as [(key' & -> & Hb')|(p & x & y' & a & b & -> & -> & Hlt)]; [left; by exists key'|right].
    by exists (y :: p), x, y', a, b.
Qed.
Lemma getDiffIndex_app k key : getDiffIndex k (k ++ key) = Done (length k).
Proof. induction k as [|x k IH]; [by destruct key|]. simpl. rewrite Z.eqb_refl, IH. done. Qed.
Lemma getDiffIndex_split p x y a b : x <> y -> getDiffIndex (p ++ x :: a) (p ++ y :: b) = Done (length p).
Proof.
  intros Hxy. induction p as [|z p IH]; simpl; [by rewrite (proj2 (Z.eqb_neq _ _))|]. by rewrite Z.eqb_refl, IH.
Qed.
Lemma key_at_app p x a : Trie.key_at (p ++ x :: a) (length p) = Done x.
Proof. unfold Trie.key_at. by rewrite list_lookup_middle. Qed.
Lemma drop_split {A} (p : list A) x a : drop (length p + 1) (p ++ x :: a) = a.
Proof. rewrite drop_app, drop_ge by lia. by replace (length p + 1 - length p)%nat with 1%nat by lia. Qed.

Section repr.
Context `{C : Crypto} {CL : CryptoLaws C}.
(** Whether there is a database. *)
Variable d : bool.

(** What the parent of a hashed node sees of it. *)
Definition hval (t : ptrie) : list Z := if len (penc t) <? 32 then penc t else phash t.
(** The nodes of the tree that are not embedded have been put. *)
Definition logged (w : puts) (t : ptrie) : Prop := forall s, rtc child_of s t -> is_node s -> big s -> (phash s, penc s) ∈ w.
Definition sealed (w : puts) (st : StackTrie) (t : ptrie) : Prop :=
  nodeType st = hashedNode /\ val st = hval t /\ db st = d /\ (d = true -> logged w t).

Inductive repr (w : puts) : StackTrie -> ptrie -> Prop :=
  | repr_hashed st t : can t -> sealed w st t -> repr w st t
  | repr_leaf ns v : nibbles ns -> v <> [] -> repr w (newLeaf ns v d) (PShort (ns ++ [16]) (PVal v))
  | repr_ext v k c cs : nibbles k -> k <> [] -> repr w c (PFull cs) ->
      repr w (mk_StackTrie extNode v k (Some c :: replicate 15 None) d) (PShort k (PFull cs))
  | repr_branch v k ch cs : length ch = 16%nat -> length cs = 16%nat -> can (PFull (cs ++ [PNil])) ->
      (forall i st c, ch !! i = Some (Some st) -> cs !! i = Some c -> repr w st c) ->
      (forall i c, ch !! i = Some None -> cs !! i = Some c -> c = PNil) ->
      repr w (mk_StackTrie branchNode v k ch d) (PFull (cs ++ [PNil])).
(** [last] is the last key. *)
Inductive live (w : puts) : StackTrie -> ptrie -> list Z -> Prop :=
  | live_leaf ns v : nibbles ns -> v <> [] -> live w (newLeaf ns v d) (PShort (ns ++ [16]) (PVal v)) ns
  | live_ext v k c cs last : nibbles k -> k <> [] -> live w c (PFull cs) last ->
      live w (mk_StackTrie extNode v k (Some c :: replicate 15 None) d) (PShort k (PFull cs)) (k ++ last)
  | live_branch v k ch cs n st c last : length ch = 16%nat -> length cs = 16%nat -> can (PFull (cs ++ [PNil])) ->
      (forall i st c, ch !! i = Some (Some st) -> cs !! i = Some c -> repr w st c) ->
      (forall i c, ch !! i = Some None -> cs !! i = Some c -> c = PNil) ->
      ch !! n = Some (Some st) -> cs !! n = Some c -> live w st c last ->
      (forall i, (n < i < 16)%nat -> ch !! i = Some None) ->
      live w (mk_StackTrie branchNode v k ch d) (PFull (cs ++ [PNil])) (Z.of_nat n :: last).

Lemma live_repr w st t last : live w st t last -> repr w st t.
Proof. induction 1; by econstructor. Qed.
Lemma repr_can w st t : repr w st t -> can t.
Proof. induction 1; [done|by constructor|by constructor|done]. Qed.
Lemma sealed_mono w w' st t : w ⊆ w' -> sealed w st t -> sealed w' st t.
Proof. intros Hw (? & ? & ? & Hl). split_and!; try done. intros Hd s ???. by apply Hw, Hl. Qed.
Lemma repr_mono w w' st t : w ⊆ w' -> repr w st t -> repr w' st t.
Proof. intros Hw. induction 1; [|by constructor..]. apply repr_hashed; [done|by eapply sealed_mono]. Qed.
Lemma live_mono w w' st t last : w ⊆ w' -> live w st t last -> live w' st t last.
Proof. intros Hw. induction 1; [by constructor..|]. econstructor; try done. intros. eapply repr_mono; eauto. Qed.
Lemma repr_db w st t : repr w st t -> db st = d.
Proof. by destruct 1 as [? ? ? (_ & _ & ? & _)| | |]. Qed.

(** ** Hashing *)
Lemma logged_mono w w' t : w ⊆ w' -> logged w t -> logged w' t.
Proof. intros Hw Hl s ???. by apply Hw, Hl. Qed.
Lemma logged_leaf w t : (forall c, ~ child_of c t) -> ~ is_node t -> logged w t.
Proof. intros Hc Hn s Hs Hsn _. apply rtc_tc in Hs as [->|(z & _ & Hz)%tc_last]; [done|]. by apply Hc in Hz. Qed.
Lemma logged_cons w t : (forall c, child_of c t -> logged w c) -> (big t -> (phash t, penc t) ∈ w) -> logged w t.
Proof. intros Hc Ht s Hs Hn Hb. apply rtc_tc in Hs as [->|(z & Hsz & Hz)%tc_last]; [by apply Ht|]. by apply (Hc z). Qed.
Lemma childRef_spec t : can t -> rnenc (childRef (hval t)) = pref t.
Proof.
  intros Hc. assert (Hn : is_node t) by (by destruct Hc). unfold hval, childRef. destruct (Z.ltb_spec (len (penc t)) 32) as [Hl|Hl].
  - rewrite (proj2 (Z.ltb_lt _ _)) by done. symmetry. apply pref_small; [done|unfold len in Hl; lia].
  - unfold phash, len. rewrite Keccak256_len. symmetry. apply pref_big; [done|unfold big, len in *; lia].
Qed.
Lemma set_hashed_spec w cs n t :
  can t -> sized t -> rnenc n = penc t -> (d = true -> forall c, child_of c t -> logged w c) ->
  exists st' w', set_hashed cs d n w = Done (st', w') /\ w ⊆ w' /\ sealed w' st' t.
Proof.
  intros Hc Hs En Hl. pose proof (penc_len t Hc Hs) as Hlen. unfold set_hashed.
  assert (makeBytes (rencode n empty_buffer) = penc t) as -> by (rewrite <- En; apply writes_makeBytes, rencode_writes; rewrite En; lia).
  unfold sealed, hval. destruct (Z.ltb_spec (len (penc t)) 32) as [Hsm|Hb]; eexists _, _; (split; [done|]); cbn [nodeType val db].
  - split; [done|]. split_and!; try done. intros Hd. apply logged_cons; [by apply Hl|]. unfold big, len in *. lia.
  - destruct d; [|by split_and!]. split; [set_solver|]. split_and!; try done. intros _.
    apply logged_cons; [intros c Hcc; eapply logged_mono; [|by apply Hl]; set_solver|]. intros _. set_solver.
Qed.
Lemma compactKey_spec k c : can (PShort k c) -> compactKey k = Done (compact k).
Proof.
  intros Hc. destruct (compact_spec k c Hc) as (Ek & _). unfold compactKey.
  destruct (in_place_exact k) as (c' & hex' & E & -> & Ht & _); [intros ->; inversion Hc as [[|? ?] ? ? ? E| |]; done|]. cbn. rewrite Ek in E. injection E as ->. by rewrite Ht.
Qed.
(** [hashRec] from any later state of the database. *)
Definition hashes (w0 : puts) (st : StackTrie) (t : ptrie) : Prop :=
  forall w, w0 ⊆ w -> exists st' w', hashRec st w = Done (st', w') /\ w ⊆ w' /\ sealed w' st' t.
Lemma hash_children_ok w0 ch cs :
  Forall2 (fun o c => match o with None => c = PNil | Some st => can c /\ hashes w0 st c end) ch cs ->
  forall w, w0 ⊆ w -> exists rs w', hash_children (map (option_map hashRec) ch) w = Done (rs, w') /\ w ⊆ w'
    /\ mjoin (map rnenc rs) = mjoin (map pref cs) /\ (d = true -> Forall (logged w') cs).
Proof.
  induction 1 as [|o c ch cs Ho _ IH]; intros w Hw; [exists [], w; by split_and!|]. destruct o as [st|]; cbn [map option_map hash_children].
  - destruct Ho as [Hc Hh]. destruct (Hh w Hw) as (st' & w1 & E1 & Hw1 & (_ & Ev & _ & Hl)).
    destruct (IH w1) as (rs & w2 & E2 & Hw2 & Hj & Hls); [by etrans|]. exists (childRef (val st') :: rs), w2.
    unfold mbind, GoM_bind in *. rewrite E1, E2. split; [done|]. split; [by etrans|]. split; [|intros Hd; constructor; [eapply logged_mono; eauto|by auto]].
    cbn [map]. change (rnenc (childRef (val st')) ++ mjoin (map rnenc rs) = pref c ++ mjoin (map pref cs)). by rewrite Ev, childRef_spec, Hj.
  - subst c. destruct (IH w Hw) as (rs & w2 & E2 & Hw2 & Hj & Hls). exists (rvalue [] :: rs), w2. unfold mbind, GoM_bind in *. rewrite E2.
    split; [done|]. split; [done|]. split; [|intros Hd; constructor; [|by auto]].
    + cbn [map]. change (rnenc (rvalue []) ++ mjoin (map rnenc rs) = pref PNil ++ mjoin (map pref cs)). by rewrite Hj.
    + apply logged_leaf; [by inversion 1|by intros []].
Qed.
Lemma hashRec_spec w0 st t : repr w0 st t -> sized t -> hashes w0 st t.
Proof.
  induction 1 as [st t Hc Hse|ns v Hn Hv|v k c cs Hk Hne Hr IH|v k ch cs Hl1 Hl2 Hc Hr IH Hnil]; intros Hs w Hw.
  - exists st, w. pose proof (sealed_mono _ _ _ _ Hw Hse). destruct Hse as (E & _). destruct st; cbn in E; subst. done.
  - pose proof (can_leaf ns v Hn Hv) as Hc. cbn [hashRec newLeaf]. unfold mbind, GoM_bind, lift. rewrite (compactKey_spec _ _ Hc). cbn [mbind outcome_bind].
    apply set_hashed_spec; [done..|]. intros _ c Hcc. inversion Hcc; subst. apply logged_leaf; [by inversion 1|by intros []].
  - pose proof (repr_can _ _ _ Hr) as Hf. pose proof (can_ext k cs Hk Hne Hf) as Hc. destruct (IH (sized_short _ _ Hs) w Hw) as (c' & w1 & E & Hw1 & (_ & Ev & _ & Hlog)).
    cbn [hashRec]. unfold mbind, GoM_bind, lift. rewrite E, (compactKey_spec _ _ Hc). cbn [mbind outcome_bind].
    destruct (set_hashed_spec w1 (None :: replicate 15 None) (rawShortNode (compact k) (childRef (val c'))) (PShort k (PFull cs)) Hc Hs) as (st' & w2 & E2 & Hw2 & Hse).
    + cbn [rnenc]. by rewrite Ev, childRef_spec.
    + intros Hd x Hx. inversion Hx; subst. by apply Hlog.
    + exists st', w2. split; [done|]. split; [by etrans|done].
  - assert (Hsc : forall i c, cs !! i = Some c -> sized c) by (intros i c Hi; eapply (sized_full _ i); [done|by apply lookup_app_l_Some]).
    destruct (hash_children_ok w0 ch cs) with (w := w) as (rs & w1 & E & Hw1 & Hj & Hlog); [|done|].
    { apply Forall2_same_length_lookup. split; [lia|]. intros i [st|] c Hi Hci; [|by eapply Hnil]. split; [by eapply repr_can, Hr|]. eapply IH; eauto. }
    cbn [hashRec]. unfold mbind, GoM_bind in *. rewrite E.
    destruct (set_hashed_spec w1 (map (fun _ => None) ch) (rawFullNode (rs ++ [RNil])) (PFull (cs ++ [PNil])) Hc Hs) as (st' & w2 & E2 & Hw2 & Hse).
    + cbn [rnenc penc]. change (map (fun c => pref_of (penc c) c) (cs ++ [PNil])) with (map pref (cs ++ [PNil])). by rewrite !map_app, !join_app, Hj.
    + intros Hd x Hx. inversion Hx as [|i ? ? Hi]; subst. specialize (Hlog Hd). rewrite Forall_lookup in Hlog.
      apply lookup_app_Some in Hi as [Hi|[_ Hi]]; [by eapply Hlog|]. apply list_lookup_singleton_Some in Hi as [_ <-]. apply logged_leaf; [by inversion 1|by intros []].
    + exists st', w2. split; [done|]. split; [by etrans|done].
Qed.

(** ** Insertion *)
Definition kids (w : puts) (ch : list (option StackTrie)) (cs : list ptrie) : Prop :=
  (forall i st c, ch !! i = Some (Some st) -> cs !! i = Some c -> repr w st c)
  /\ (forall i c, ch !! i = Some None -> cs !! i = Some c -> c = PNil).
Lemma kids_mono w w' ch cs : w ⊆ w' -> kids w ch cs -> kids w' ch cs.
Proof. intros Hw [Hr Hn]. split; [|done]. intros. eapply repr_mono; eauto. Qed.
Lemma kids_insert w ch cs i st c : kids w ch cs -> repr w st c -> kids w (<[i := Some st]> ch) (<[i := c]> cs).
Proof.
  intros [Hr Hn] Hs. split.
  - intros j st' c' Hj Hc. apply list_lookup_insert_Some in Hj as [(-> & [= <-] & _)|[Hne Hj]].
    + apply list_lookup_insert_Some in Hc as [(_ & <- & _)|[? _]]; done.
    + rewrite list_lookup_insert_ne in Hc by done. eauto.
  - intros j c' Hj Hc. apply list_lookup_insert_Some in Hj as [(_ & [=] & _)|[Hne Hj]]. rewrite list_lookup_insert_ne in Hc by done. eauto.
Qed.
(** The children from the [n]-th on and the empty ones stay as they are. *)
Definition unresolved (w : puts) (ch : list (option StackTrie)) (cs : list ptrie) (n : nat) (r : outcome (list (option StackTrie) * puts)) : Prop :=
  exists ch' w', r = Done (ch', w') /\ w ⊆ w' /\ kids w' ch' cs /\ length ch' = length ch
    /\ (forall i, (n <= i)%nat -> ch' !! i = ch !! i) /\ (forall i, ch !! i = Some None -> ch' !! i = Some None).
Lemma unresolve_spec w ch cs n :
  kids w ch cs -> (forall i c, cs !! i = Some c -> sized c) -> length ch = length cs -> unresolved w ch cs n (unresolve n ch w).
Proof.
  intros Hk Hs Hl. assert (Hid : forall n, unresolved w ch cs n (Done (ch, w))) by (intros; by exists ch, w).
  induction n as [|i IH]; cbn [unresolve]; [apply Hid|].
  assert (IH' : unresolved w ch cs (S i) (unresolve i ch w)).
  { destruct IH as (ch' & w' & ? & ? & ? & ? & Hj & ?). exists ch', w'. split_and!; try done. intros j Hlt. apply Hj. lia. }
  destruct (ch !! i) as [[st|]|] eqn:Ei; [|done..].
  destruct (lookup_lt_is_Some_2 cs i) as [c Hc]; [rewrite <- Hl; by eapply lookup_lt_Some|].
  pose proof (proj1 Hk _ _ _ Ei Hc) as Hr. destruct (hashRec_spec w st c Hr (Hs _ _ Hc) w ltac:(done)) as (st' & w' & E & Hw & Hse).
  assert (Hnew : unresolved w ch cs (S i) (Done (<[i := Some st']> ch, w'))).
  { exists (<[i := Some st']> ch), w'. split; [done|]. split; [done|].
    split; [rewrite <- (list_insert_id cs i c) by done; apply kids_insert; [by eapply kids_mono|by apply repr_hashed; [eapply repr_can|]]|].
    split; [by rewrite length_insert|]. split; intros j Hj; rewrite list_lookup_insert_ne; (done || lia || congruence). }
  unfold mbind, GoM_bind. destruct (nodeType st); rewrite ?E; done.
Qed.
(** The tree of a split. *)
Lemma branch_snoc x c y t : is_nibble x -> is_nibble y -> branch x c y t = <[Z.to_nat y := t]> (<[Z.to_nat x := c]> (replicate 16 PNil)) ++ [PNil].
Proof.
  unfold is_nibble. intros Hx Hy. unfold branch. change (replicate 17 PNil) with (replicate 16 PNil ++ [PNil]).
  rewrite insert_app_l by (rewrite length_replicate; lia). rewrite insert_app_l by (rewrite length_insert, length_replicate; lia). done.
Qed.
Lemma set_child_ok ch i st : is_nibble i -> length ch = 16%nat -> set_child ch i st = Done (<[Z.to_nat i := Some st]> ch).
Proof.
  unfold is_nibble. intros Hi Hl. unfold set_child. by destruct (lookup_lt_is_Some_2 ch (Z.to_nat i) ltac:(lia)) as [? ->].
Qed.
Lemma split_live w nval p x y a b h n tn v :
  nibbles p -> is_nibble x -> is_nibble y -> x < y -> nibbles b -> v <> [] -> repr w n tn ->
  let t := PFull (branch x tn y (PShort (b ++ [16]) (PVal v))) in can t ->
  exists st', split_at nval (p ++ x :: a) (h :: replicate 15 None) d (length p) x y n (newLeaf b v d) = Done st'
    /\ live w st' (mkshort p t) (p ++ y :: b).
Proof.
  intros Hp Hx Hy Hxy Hb Hv Hn t Hc. set (o := newLeaf b v d). set (ch := <[Z.to_nat y := Some o]> (<[Z.to_nat x := Some n]> no_children)).
  assert (Hlive : forall nv, live w (mk_StackTrie branchNode nv [] ch d) t (y :: b)).
  { intros nv. unfold t in *. rewrite branch_snoc in * by done. unfold is_nibble in Hx, Hy. replace (y :: b) with (Z.of_nat (Z.to_nat y) :: b) by (f_equal; lia).
    assert (Hk : kids w ch (<[Z.to_nat y := PShort (b ++ [16]) (PVal v)]> (<[Z.to_nat x := tn]> (replicate 16 PNil)))).
    { apply kids_insert; [apply kids_insert; [|done]|by constructor]. split; [by intros i st c [? _]%lookup_replicate|]. by intros i c _ [-> _]%lookup_replicate. }
    assert (length ch = 16%nat) by (unfold ch; by rewrite !length_insert). assert (length (<[Z.to_nat y := PShort (b ++ [16]) (PVal v)]> (<[Z.to_nat x := tn]> (replicate 16 PNil))) = 16%nat) by (by rewrite !length_insert).
    destruct Hk. eapply live_branch with (st := o); try done.
    - apply list_lookup_insert_eq. rewrite length_insert. simpl. lia.
    - apply list_lookup_insert_eq. rewrite length_insert, length_replicate. lia.
    - by constructor.
    - intros i Hi. unfold ch. rewrite !list_lookup_insert_ne by lia. apply lookup_replicate_2. lia. }
  unfold split_at. destruct p as [|z p]; cbn [length Nat.eqb].
  - change (<[0%nat := None]> (h :: replicate 15 None)) with no_children. rewrite set_child_ok by done. cbn [mbind outcome_bind]. rewrite set_child_ok by (done || by rewrite length_insert). eexists. split; [done|]. apply Hlive.
  - rewrite set_child_ok by done. cbn [mbind outcome_bind]. rewrite set_child_ok by (done || by rewrite length_insert). eexists. split; [done|]. cbn [mkshort].
    change (S (length p)) with (length (z :: p)). rewrite take_app_length. apply live_ext; [done|done|apply Hlive].
Qed.
(** A key that comes after the last one is inserted, and is the last one then. *)
Definition inserts (w : puts) (st : StackTrie) (t : ptrie) (key v : list Z) : Prop :=
  exists st' w' t', insert st key v w = Done (st', w') /\ w ⊆ w' /\ live w' st' t' key /\ upd t (key ++ [16]) (Some v) t'.
Lemma insert_leaf w ns v0 key v :
  nibbles ns -> v0 <> [] -> before ns key -> nibbles key -> v <> [] -> sized (PShort (ns ++ [16]) (PVal v0)) ->
  inserts w (newLeaf ns v0 d) (PShort (ns ++ [16]) (PVal v0)) key v.
Proof.
  intros Hn Hv0 (p & x & y & a & b & -> & -> & Hlt) Hk Hv Hs. unfold inserts. cbn [insert newLeaf]. unfold mbind, GoM_bind, lift.
  rewrite getDiffIndex_split by lia. cbn [mbind outcome_bind]. rewrite (proj2 (Nat.leb_gt _ _)) by (rewrite length_app; simpl; lia).
  rewrite !key_at_app. cbn [mbind outcome_bind]. rewrite !drop_split. rewrite <- app_assoc in *. cbn [app] in *.
  apply Forall_app in Hn as [Hp Hn]. apply Forall_cons in Hn as [Hx Ha]. apply Forall_app in Hk as [_ Hk]. apply Forall_cons in Hk as [Hy Hb].
  assert (Hc0 : can (PShort (p ++ x :: a ++ [16]) (PVal v0))) by (rewrite app_comm_cons, app_assoc; constructor; [by apply Forall_app; split; [|constructor]|done]).
  assert (Hl : repr w (newLeaf a v0 d) (PShort (a ++ [16]) (PVal v0))) by (by constructor).
  assert (Hsl : sized (PShort (a ++ [16]) (PVal v0))).
  { intros k' w' Hg. destruct (Hs (p ++ x :: k') w') as (? & ? & ?).
    - apply pget_short_inv in Hg as (r & -> & Hg). rewrite <- Hg, <- (pget_short (p ++ x :: a ++ [16]) (PVal v0)). f_equal. by rewrite <- !app_assoc; simpl; rewrite <- app_assoc.
    - split; [|done]. rewrite len_app, len_cons in *. pose proof (len_nonneg p). lia. }
  destruct (hashRec_spec w _ _ Hl Hsl w ltac:(done)) as (n & w' & E & Hw & Hse). cbn [newLeaf] in E. rewrite E.
  pose proof (repr_can _ _ _ Hl) as Hcn.
  pose proof (can_split p x (a ++ [16]) y (b ++ [16]) (PVal v0) v Hc0) as Hcan. 
  assert (Hm : forall l c, mkshort (l ++ [16]) c = PShort (l ++ [16]) c) by (intros [] ?; done). rewrite !Hm in Hcan.
  pose proof (upd_split p x (a ++ [16]) y (b ++ [16]) (PVal v0) v (nibble_index _ Hx) (nibble_index _ Hy) ltac:(lia)) as Hu. rewrite !Hm in Hu.
  destruct (split_live w' [] p x y a b None n (PShort (a ++ [16]) (PVal v0)) v) as (st' & Es & Hlive); try done; [by apply repr_hashed| |].
  - apply can_branch; try done; [by apply nibble_index..|lia| |]; intros _; unfold is_nibble in Hx, Hy; rewrite (proj2 (Nat.ltb_lt _ _)) by lia; by constructor.
  - cbn [replicate] in Es. unfold no_children. cbn [replicate]. rewrite Es. cbn [mbind outcome_bind].
    eexists _, w', _. split; [done|]. split; [done|]. split; [done|]. rewrite <- app_assoc. exact Hu.
Qed.
Lemma sized_sub p k c : sized (PShort (p ++ k) c) -> k <> [] -> sized (PShort k c).
Proof.
  intros Hs _ k' v Hg. apply pget_short_inv in Hg as (r & -> & Hg). destruct (Hs ((p ++ k) ++ r) v) as (? & ? & ?); [by rewrite pget_short|].
  split; [|done]. rewrite !len_app in *. pose proof (len_nonneg p). lia.
Qed.
(** The child of an extension that is split, or what is left of the extension. *)
Lemma ext_rest w p x a c cs :
  nibbles a -> repr w c (PFull cs) ->
  repr w (if (length p <? length (p ++ x :: a) - 1)%nat then newExt a c d else c) (mkshort a (PFull cs)).
Proof.
  intros Ha Hc. rewrite length_app. cbn [length]. destruct a as [|z a]; cbn [length mkshort].
  - by rewrite (proj2 (Nat.ltb_ge _ _)) by lia.
  - rewrite (proj2 (Nat.ltb_lt _ _)) by lia. by apply repr_ext.
Qed.
Lemma insert_ext_split w v0 c cs p x a y b v :
  nibbles (p ++ x :: a) -> repr w c (PFull cs) -> x < y -> nibbles (p ++ y :: b) -> v <> [] -> sized (PShort (p ++ x :: a) (PFull cs)) ->
  inserts w (mk_StackTrie extNode v0 (p ++ x :: a) (Some c :: replicate 15 None) d) (PShort (p ++ x :: a) (PFull cs)) (p ++ y :: b) v.
Proof.
  intros Hn Hc Hlt Hk Hv Hs. pose proof (can_ext (p ++ x :: a) cs Hn ltac:(by destruct p) (repr_can _ _ _ Hc)) as Hc0.
  unfold inserts. cbn [insert]. unfold mbind, GoM_bind, lift. rewrite getDiffIndex_split by lia. cbn [mbind outcome_bind].
  rewrite (proj2 (Nat.eqb_neq _ _)) by (rewrite length_app; simpl; lia). rewrite !drop_split.
  apply Forall_app in Hn as [Hp Hn]. apply Forall_cons in Hn as [Hx Ha]. apply Forall_app in Hk as [_ Hk]. apply Forall_cons in Hk as [Hy Hb].
  pose proof (ext_rest w p x a c cs Ha Hc) as Hr.
  assert (Hsr : sized (mkshort a (PFull cs))).
  { destruct a as [|z a]; [exact (sized_short _ _ Hs)|]. apply (sized_sub (p ++ [x])); [|done]. by rewrite <- app_assoc. }
  destruct (hashRec_spec w _ _ Hr Hsr w ltac:(done)) as (n & w' & E & Hw & Hse). rewrite E, !key_at_app. cbn [mbind outcome_bind].
  assert (Hm : forall l c, mkshort (l ++ [16]) c = PShort (l ++ [16]) c) by (intros [] ?; done).
  pose proof (upd_split p x a y (b ++ [16]) (PFull cs) v (nibble_index _ Hx) (nibble_index _ Hy) ltac:(lia)) as Hu. rewrite Hm in Hu.
  destruct (split_live w' v0 p x y a b (Some c) n (mkshort a (PFull cs)) v) as (st' & Es & Hlive); try done; [apply repr_hashed; [by eapply repr_can|done]| |].
  - destruct (short_split _ _ _ _ Hc0) as (_ & _ & Hcx & Hnx). apply can_branch; try done; [by apply nibble_index..|lia|].
    intros _. unfold is_nibble in Hy. rewrite (proj2 (Nat.ltb_lt _ _)) by lia. by constructor.
  - rewrite Es. cbn [mbind outcome_bind]. eexists _, w', _. split; [done|]. split; [done|]. split; [done|]. rewrite <- app_assoc. exact Hu.
Qed.
(** A branch whose child [n] becomes [st'], which is its last one then. *)
Lemma branch_live w v k ch cs n st' c c' last :
  length ch = 16%nat -> length cs = 16%nat -> can (PFull (cs ++ [PNil])) -> kids w ch cs ->
  cs !! n = Some c -> live w st' c' last -> (forall i, (n < i < 16)%nat -> ch !! i = Some None) ->
  live w (mk_StackTrie branchNode v k (<[n := Some st']> ch) d) (PFull (<[n := c']> cs ++ [PNil])) (Z.of_nat n :: last).
Proof.
  intros Hl1 Hl2 Hc Hk Hn Hlive Hafter. pose proof (lookup_lt_Some _ _ _ Hn) as Hlt. pose proof (live_repr _ _ _ _ Hlive) as Hr.
  destruct (kids_insert w ch cs n st' c' Hk Hr). econstructor; try done.
  - by rewrite length_insert.
  - by rewrite length_insert.
  - rewrite <- insert_app_l by done. pose proof (repr_can _ _ _ Hr). eapply can_insert; [done|by apply lookup_app_l_Some| |by apply can_not_nil].
    intros _. by rewrite (proj2 (Nat.ltb_lt _ _)) by lia.
  - apply list_lookup_insert_eq. lia.
  - by apply list_lookup_insert_eq.
  - intros i Hi. rewrite list_lookup_insert_ne by lia. by apply Hafter.
Qed.
Lemma stack_insert_spec w0 st t last : live w0 st t last ->
  forall w key v, w0 ⊆ w -> before last key -> nibbles key -> v <> [] -> sized t -> inserts w st t key v.
Proof.
  induction 1 as [ns v0 Hn Hv0|v0 k c cs last Hk Hne Hl IH|v0 k ch cs n st c last Hl1 Hl2 Hc Hr Hnil Hch Hcs Hl IH Hafter]; intros w key v Hw Hb Hkey Hv Hs.
  - by apply insert_leaf.
  - apply before_app in Hb as [(key' & -> & Hb)|(p & x & y & a & b & -> & -> & Hlt)].
    2: { apply insert_ext_split; try done. by eapply repr_mono, live_repr. }
    pose proof Hkey as [_ Hkey']%Forall_app. destruct (IH w key' v Hw Hb Hkey' Hv (sized_short _ _ Hs)) as (c' & w' & t' & E & Hw' & Hlive & Hu).
    unfold inserts. cbn [insert]. unfold mbind, GoM_bind, lift. rewrite getDiffIndex_app. cbn [mbind outcome_bind]. rewrite Nat.eqb_refl, drop_app_length, E.
    destruct (upd_full_full cs (key' ++ [16]) v t') as [cs' ->]; [by eapply repr_can, live_repr|by eapply repr_can, live_repr|done|].
    eexists _, w', _. split; [done|]. split; [done|]. split; [by apply live_ext|]. rewrite <- app_assoc. by apply upd_short.
  - destruct key as [|y rest]; [by apply before_nil_r in Hb|]. pose proof Hkey as [Hy Hrest]%Forall_cons. unfold is_nibble in Hy.
    assert (Hk0 : kids w ch cs) by (by eapply kids_mono; [|split]).
    destruct (unresolve_spec w ch cs (Z.to_nat y) Hk0) as (ch1 & w1 & E1 & Hw1 & Hk1 & Hlen1 & Hge & Hnone).
    { intros i ci Hi. eapply (sized_full _ i); [done|by apply lookup_app_l_Some]. }
    { lia. }
    destruct (lookup_lt_is_Some_2 cs (Z.to_nat y) ltac:(lia)) as [cy Hcy].
    assert (Hstep : exists st' w' c', match map (option_map insert) ch !! Z.to_nat y with
        | None => gpanic "index out of range" | Some None => mret (newLeaf rest v d) | Some (Some f) => f rest v end w1 = Done (st', w')
      /\ w1 ⊆ w' /\ live w' st' c' rest /\ upd cy (rest ++ [16]) (Some v) c' /\ (n <= Z.to_nat y)%nat).
    { rewrite list_lookup_fmap. apply before_cons_inv in Hb as [Hlt|[<- Hb]].
      - rewrite Hafter by lia. cbn. pose proof (Hnil _ _ (Hafter (Z.to_nat y) ltac:(lia)) Hcy) as ->.
        eexists _, w1, _. split; [done|]. split; [done|]. split; [by constructor|]. split; [apply upd_nil|lia].
      - rewrite Nat2Z.id in *. rewrite Hcs in Hcy. injection Hcy as <-. rewrite Hch. cbn.
        destruct (IH w1 rest v) as (st' & w' & c' & E & ? & ? & ?); [by etrans|done..| |].
        + eapply (sized_full _ n); [done|by apply lookup_app_l_Some].
        + exists st', w', c'. done. }
    destruct Hstep as (st' & w' & c' & E & Hw' & Hlive & Hu & Hny). unfold inserts. cbn [insert]. unfold mbind, GoM_bind, lift in *. rewrite E1.
    change (fmap (M := list) (option_map insert) ch) with (map (option_map insert) ch) in *. rewrite E, set_child_ok by (done || lia). cbn [mbind outcome_bind].
    eexists _, w', _. split; [done|]. split; [by etrans|]. split.
    + replace (y :: rest) with (Z.of_nat (Z.to_nat y) :: rest) by (f_equal; lia). eapply branch_live; [lia|done|done|by eapply kids_mono|done|done|].
      intros i Hi. rewrite Hge by lia. apply Hafter. lia.
    + rewrite <- insert_app_l by (by eapply lookup_lt_Some). cbn [app]. apply (upd_full _ y _ cy); [lia|by apply lookup_app_l_Some|done].
Qed.
End repr.
End StackTrieOk.
