(* ===== verification/StackTrieProps.v ===== *)
(** * The stack trie computes the root hash of the trie

    Keys in order give the root of the map they make ([stack_root]); with a database the
    trie is there after Commit ([stack_commit]).  DeriveSha gives the keys in
    order, and binds the list it is computed for ([derive_sha]). *)

From stdpp Require Import base list numbers strings gmap relations sorting.
From Stdlib Require Import ZArith Lia Sorting.Sorted.
From S2P Require Import Prelude Bytes Rlp RlpProps Enr EnrProps TrieKeys Trie TriePure TrieUpd TrieLoad TrieOps TrieHash TrieDecode TrieMap TrieBind TrieDB TrieRaw StackTrie StackTrieOk.
Import Rlp RlpProps Enr EnrProps TrieKeys TriePure TrieUpd TrieLoad TrieOps TrieHash TrieDecode TrieMap TrieBind TrieRaw StackTrie StackTrieOk.

Module StackTrieProps.
#[local] Existing Instance DeriveSha.StackTrie_hasher.

Lemma before_nibbles k1 k2 : bytes k1 -> bytes k2 -> before k1 k2 -> before (nibbles_of k1) (nibbles_of k2).
Proof.
  intros Hb1 Hb2 (p & x & y & a & b & -> & -> & Hlt). rewrite !nibbles_of_app. cbn [nibbles_of].
  destruct (decide (x / 16 < y / 16)) as [Hd|Hd]; [by eexists _, _, _, _, _|].
  assert (Hq : x / 16 = y / 16) by (pose proof (Z.div_le_mono x y 16); lia). rewrite Hq.
  exists (nibbles_of p ++ [y / 16]), (x mod 16), (y mod 16), (nibbles_of a), (nibbles_of b). rewrite <- !app_assoc. split; [done|]. split; [done|].
  rewrite (Z.div_mod x 16), (Z.div_mod y 16), Hq in Hlt by done. lia.
Qed.

Section stack.
Context `{C : Crypto} {CL : CryptoLaws C}.

(** ** The stack trie holds a map; [o] is its last key *)
Definition stack_rep (d : bool) (s : StackTrie * puts) (m : kvmap) (o : option (list Z)) : Prop :=
  match o with
  | None => (exists v k, s.1 = mk_StackTrie emptyNode v k no_children d) /\ m = ∅
  | Some last => bytes last /\ exists t, live d s.2 s.1 t (nibbles_of last) /\ rep t m
  end.
Definition next (o : option (list Z)) (key : list Z) : Prop := match o with Some last => before last key | None => True end.
Lemma key_cut key : take (length (keybytesToHex key) - 1) (keybytesToHex key) = nibbles_of key.
Proof. unfold keybytesToHex. rewrite length_app. simpl. rewrite Nat.add_sub. apply take_app_length. Qed.
Lemma Update_ok d s m o key value :
  stack_rep d s m o -> next o key -> bytes key -> value <> [] -> sized_map m ->
  exists s', Update key value s = Done (tt, s') /\ s.2 ⊆ s'.2 /\ stack_rep d s' (<[key := value]> m) (Some key).
Proof.
  intros Hs Hn Hk Hv Hm. pose proof (nibbles_of_nibbles _ Hk) as Hnk. unfold Update, TryUpdate. rewrite key_cut.
  assert ((len value =? 0) = false) as -> by (apply Z.eqb_neq; unfold len; by destruct value).
  assert (Hfin : forall t t' st' w', rep t m -> upd t (nibbles_of key ++ [16]) (Some value) t' -> live d w' st' t' (nibbles_of key) ->
    stack_rep d (st', w') (<[key := value]> m) (Some key)).
  { intros t t' st' w' Hr Hu Hl. split; [done|]. exists t'. split; [done|]. eapply (rep_upd t m key (Some value) t'); try done.
    left. split; [by apply is_key_hex|]. right. by eapply repr_can, live_repr. }
  destruct s as [st w]. destruct o as [last|]; cbn [stack_rep fst snd] in *.
  - destruct Hs as (Hlb & t & Hl & Hr).
    destruct (stack_insert_spec d w st t (nibbles_of last) Hl w (nibbles_of key) value) as (st' & w' & t' & E & Hw & Hl' & Hu); try done.
    { by apply before_nibbles. }
    { by eapply rep_sized. }
    rewrite E. exists (st', w'). split; [done|]. split; [done|]. by eapply Hfin.
  - destruct Hs as ((v & k & ->) & ->). eexists. split; [done|]. split; [done|]. eapply (Hfin PNil); [apply rep_empty|apply upd_nil|by constructor].
Qed.
Lemma hashRec_root d s m o :
  stack_rep d s m o -> sized_map m ->
  exists st' w' t, hashRec s.1 s.2 = Done (st', w') /\ rep t m
    /\ ((t = PNil /\ val st' = Trie.emptyRoot) \/ (is_node t /\ val st' = hval t /\ (d = true -> logged w' t))).
Proof.
  intros Hs Hm. destruct s as [st w]. destruct o as [last|]; cbn [stack_rep fst snd] in *.
  - destruct Hs as (_ & t & Hl & Hr). pose proof (live_repr _ _ _ _ _ Hl) as Hp.
    destruct (hashRec_spec d w st t Hp (rep_sized _ _ Hr Hm) w ltac:(done)) as (st' & w' & E & _ & (_ & Ev & _ & Hlog)).
    exists st', w', t. split; [done|]. split; [done|]. right. split; [by destruct (repr_can _ _ _ _ Hp)|done].
  - destruct Hs as ((v & k & ->) & ->). eexists _, w, PNil. split; [done|]. split; [apply rep_empty|]. by left.
Qed.
(** The value of a hashed root: its hash, or else its encoding. *)
Lemma hval_cases t : (big t /\ hval t = phash t /\ len (hval t) = 32) \/ (hval t = penc t /\ len (hval t) <> 32).
Proof.
  unfold hval, big. destruct (Z.ltb_spec (len (penc t)) 32); [right; split; [done|lia]|left].
  split; [unfold len in *; lia|]. split; [done|]. unfold phash, len. by rewrite Keccak256_len.
Qed.
Lemma node_root t m : rep t m -> is_node t -> root_hash m (phash t).
Proof. intros Hr Hn. exists t. split; [done|]. by destruct t. Qed.
Lemma Hash_ok d s m o : stack_rep d s m o -> sized_map m -> exists h s', Hash s = Done (h, s') /\ root_hash m h.
Proof.
  intros Hs Hm. destruct (hashRec_root d s m o Hs Hm) as (st' & w' & t & E & Hr & Hv). unfold Hash. rewrite E. cbn [mbind outcome_bind fst].
  eexists _, _. split; [done|]. destruct Hv as [[-> ->]|(Hn & -> & _)]; [by exists PNil|].
  destruct (hval_cases t) as [(_ & Ev & ->)|[Ev Hl]]; [rewrite Ev; by apply node_root|]. rewrite (proj2 (Z.eqb_neq _ _)) by done. rewrite Ev. by apply node_root.
Qed.

(** ** Sequences of updates, through the interface of DeriveSha *)
Fixpoint updates {S : Type} {H : DeriveSha.TrieHasher S} (kvs : list (list Z * list Z)) : GoM S unit :=
  match kvs with
  | [] => mret tt
  | (k, v) :: kvs => DeriveSha.Update k v ≫= fun _ => updates kvs
  end.
Definition entry_ok (kv : list Z * list Z) : Prop :=
  bytes kv.1 /\ len kv.1 <= 2 ^ 30 /\ kv.2 <> [] /\ bytes kv.2 /\ len kv.2 <= 2 ^ 32.
Definition build_map (m : kvmap) (kvs : list (list Z * list Z)) : kvmap := foldl (fun m kv => <[kv.1 := kv.2]> m) m kvs.
Fixpoint ordered (o : option (list Z)) (keys : list (list Z)) : Prop :=
  match keys with
  | [] => True
  | k :: keys => next o k /\ ordered (Some k) keys
  end.
Lemma Sorted_ordered keys : Sorted before keys -> ordered None keys.
Proof.
  destruct keys as [|k keys]; [done|]. intros Hs. split; [done|]. revert k Hs. induction keys as [|k' keys IH]; intros k Hs; [done|].
  apply Sorted_inv in Hs as [Hs Hd]. apply HdRel_inv in Hd. split; [done|]. by apply IH.
Qed.
Lemma sized_insert m k v : sized_map m -> entry_ok (k, v) -> sized_map (<[k := v]> m).
Proof. intros Hm (_ & ? & _ & ? & ?). by apply map_Forall_insert_2. Qed.
Lemma updates_stack d kvs : forall s m o,
  stack_rep d s m o -> sized_map m -> ordered o kvs.*1 -> Forall entry_ok kvs ->
  exists s' o', updates kvs s = Done (tt, s') /\ stack_rep d s' (build_map m kvs) o' /\ sized_map (build_map m kvs).
Proof.
  induction kvs as [|[k v] kvs IH]; intros s m o Hs Hm Ho He; [by exists s, o|].
  apply Forall_cons in He as [He1 He]. destruct Ho as [Hn Ho]. pose proof He1 as (Hk & _ & Hv & _).
  destruct (Update_ok d s m o k v Hs Hn Hk Hv Hm) as (s1 & E & _ & Hs1). cbn [updates]. unfold mbind, GoM_bind. cbn [DeriveSha.Update DeriveSha.StackTrie_hasher].
  rewrite E. by apply (IH s1 (<[k := v]> m) (Some k)); [|apply sized_insert|..].
Qed.
Lemma updates_trie dbnode kvs : forall tr m,
  represents dbnode false tr m -> Forall entry_ok kvs ->
  exists tr', updates (H := DeriveSha.Trie_hasher dbnode) kvs tr = Done (tt, tr') /\ represents dbnode false tr' (build_map m kvs).
Proof.
  induction kvs as [|[k v] kvs IH]; intros tr m Hr He; [by exists tr|]. apply Forall_cons in He as [(Hk & _ & Hv & _) He].
  destruct (TryUpdate_spec dbnode false tr m k v Hr Hk) as (e & tr1 & E & Hw). destruct e as [e|]; [by destruct Hw as [[? _] _]|].
  unfold update_map in Hw. rewrite decide_False in Hw by done. destruct (IH tr1 _ Hw He) as (tr' & E' & Hr').
  exists tr'. split; [|done]. cbn [updates]. unfold mbind, GoM_bind. cbn [DeriveSha.Update DeriveSha.Trie_hasher].
  unfold Trie.Update, mbind, GoM_bind. cbn [fst snd] in *. rewrite E. exact E'.
Qed.
Lemma new_rep d : stack_rep d (NewStackTrie d, []) ∅ None.
Proof. split; [|done]. by eexists _, _. Qed.

(** C15.  The stack trie is equivalent to the trie: keys in increasing order, none a prefix
    of the next, are inserted without a panic, and Hash is the root hash that the
    trie computes after the same updates, which is that of the map of the
    entries. *)
Theorem stack_root d dbnode kvs :
  Sorted before kvs.*1 -> Forall entry_ok kvs ->
  exists h s' tr', (updates kvs ≫= fun _ => Hash) (NewStackTrie d, []) = Done (h, s')
    /\ (updates (H := DeriveSha.Trie_hasher dbnode) kvs ≫= fun _ => Trie.Hash) Trie.empty_trie = Done (h, tr')
    /\ root_hash (build_map ∅ kvs) h.
Proof.
  intros Ho He. destruct (updates_stack d kvs _ ∅ None (new_rep d) (map_Forall_empty _) (Sorted_ordered _ Ho) He) as (s1 & o1 & E1 & Hs1 & Hm).
  destruct (Hash_ok d s1 _ o1 Hs1 Hm) as (h & s' & Eh & Hroot).
  destruct (updates_trie dbnode kvs Trie.empty_trie ∅ (represents_empty _ _) He) as (tr1 & E2 & Hr).
  destruct (Hash_spec dbnode false tr1 _ Hr Hm) as (h' & tr' & Eh' & Hroot' & _). pose proof (root_hash_unique _ _ _ Hroot Hroot') as <-.
  exists h, s', tr'. unfold mbind, GoM_bind. by rewrite E1, E2.
Qed.

(** ** Commit *)
(** The database has what was put. *)
Definition reads (dbnode : list Z -> outcome (option Trie.node)) (w : puts) : Prop :=
  forall h e, (h, e) ∈ w -> exists n, Trie.mustDecodeNode (Some h) e = Done n /\ dbnode h = Done (Some n).
Lemma below_ok t s : can t -> sized t -> rtc child_of s t -> is_node s -> can s /\ sized s.
Proof.
  intros Hc Hs Hst. induction Hst as [t|s c t Hsc Hct IH]; intros Hn; [done|].
  assert (Hcn : is_node c) by (by destruct Hsc). destruct (IH Hc Hs Hcn) as [Hcc Hcs]. split; [by eapply can_child_of|by eapply sized_child].
Qed.
Lemma logged_own dbnode w t s : reads dbnode w -> can t -> sized t -> rtc child_of s t -> is_node s -> (phash s, penc s) ∈ w -> own dbnode false s.
Proof.
  intros Hr Hc Hs Hst Hn Hin. left. destruct (below_ok t s Hc Hs Hst Hn) as [Hsc Hss]. destruct (Hr _ _ Hin) as (n & Em & ->).
  unfold Trie.mustDecodeNode in Em. rewrite (decodeNode_spec s (Some (phash s)) Hsc Hss) in Em. by injection Em as <-.
Qed.
(** A trie that is on the database opens. *)
Lemma logged_opens dbnode w t m :
  reads dbnode w -> rep t m -> sized_map m -> is_node t -> logged w t -> (phash t, penc t) ∈ w -> phash t <> Trie.zeroHash -> phash t <> Trie.emptyRoot ->
  exists tr, Trie.New dbnode (phash t) = Done (inr tr) /\ represents dbnode false tr m.
Proof.
  intros Hr Ht Hm Hn Hl Hin Hz He. assert (Hc : can t) by (destruct Ht as ([->|?] & _); done). pose proof (rep_sized _ _ Ht Hm) as Hs.
  assert (Hown : own dbnode false t) by (by apply (logged_own dbnode w t t)).
  assert (Hload : loads dbnode false true (Trie.hashNode (phash t)) t).
  { apply loads_hash; [done|done|]. split; [done|]. intros s Hst Hsn Hsb. apply (logged_own dbnode w t s); try done; [by apply tc_rtc|]. by apply Hl; [apply tc_rtc|..]. }
  unfold Trie.New. rewrite !bool_decide_eq_false_2 by done. cbn [negb andb].
  destruct (resolve_spec dbnode false true t [] Hload Hn) as [(n & -> & Hln & _)|(e & _ & [? _])]; [|done]. eexists. split; [done|]. by exists t.
Qed.
Lemma Commit_ok s m o :
  stack_rep true s m o -> sized_map m ->
  exists h s' t, Commit s = Done (inr h, s') /\ rep t m
    /\ ((t = PNil /\ h = Trie.emptyRoot) \/ (is_node t /\ h = phash t /\ logged s'.2 t /\ (phash t, penc t) ∈ s'.2)).
Proof.
  intros Hs Hm. destruct (hashRec_root true s m o Hs Hm) as (st' & w' & t & E & Hr & Hv). unfold Commit.
  assert (db s.1 = true) as ->.
  { destruct o as [last|]; [|by destruct Hs as ((? & ? & ->) & _)]. destruct Hs as (_ & t' & Hl & _). by eapply repr_db, live_repr. }
  cbn [negb]. rewrite E. cbn [mbind outcome_bind fst snd].
  destruct Hv as [[-> ->]|(Hn & -> & Hlog)]; [eexists _, _, PNil; split; [done|]; split; [done|by left]|]. specialize (Hlog eq_refl).
  destruct (hval_cases t) as [(Hb & Ev & ->)|[Ev Hl]].
  - eexists _, _, t. split; [done|]. split; [done|]. right. split_and!; try done. by apply Hlog.
  - rewrite (proj2 (Z.eqb_neq _ _)) by done. eexists _, _, t. split; [done|]. split; [done|]. right. rewrite Ev. cbn [snd].
    split_and!; try done; [|set_solver]. eapply logged_mono; [|done]. set_solver.
Qed.
(** C35.  Commit puts the whole trie to the database: it returns the root hash of the map of
    the entries, and a trie opened at it over any database that has what was put
    holds the entries (unless the hash is one of the two that stand for the
    empty trie). *)
Theorem stack_commit kvs :
  Sorted before kvs.*1 -> Forall entry_ok kvs ->
  exists h st w, (updates kvs ≫= fun _ => Commit) (NewStackTrie true, []) = Done (inr h, (st, w)) /\ root_hash (build_map ∅ kvs) h
    /\ forall dbnode, reads dbnode w -> (h = Trie.zeroHash \/ h = Trie.emptyRoot -> kvs = []) ->
        exists tr, Trie.New dbnode h = Done (inr tr) /\ represents dbnode false tr (build_map ∅ kvs).
Proof.
  intros Ho He. destruct (updates_stack true kvs _ ∅ None (new_rep true) (map_Forall_empty _) (Sorted_ordered _ Ho) He) as (s1 & o1 & E1 & Hs1 & Hm).
  destruct (Commit_ok s1 _ o1 Hs1 Hm) as (h & [st w] & t & Ec & Hr & Hv). exists h, st, w.
  split; [unfold mbind, GoM_bind; by rewrite E1|]. destruct Hv as [[-> ->]|(Hn & -> & Hlog & Hin)].
  - split; [by exists PNil|]. intros dbnode _ _. exists Trie.empty_trie. split; [done|]. exists PNil. split; [constructor|done].
  - split; [by apply node_root|]. intros dbnode Hrd Hz.
    assert (Hk : kvs <> []) by (intros ->; rewrite (rep_unique t PNil ∅ Hr rep_empty) in Hn; done).
    apply (logged_opens dbnode w); try done; intros E; apply Hk, Hz; auto.
Qed.
End stack.

(** ** The keys of DeriveSha *)
Lemma before_irrefl k : ~ before k k.
Proof. intros (p & x & y & a & b & -> & E & Hlt). apply app_inv_head in E. injection E as -> _. lia. Qed.
Lemma before_unbe l1 : forall l2, length l1 = length l2 -> bytes l1 -> bytes l2 -> unbe l1 < unbe l2 -> before l1 l2.
Proof.
  induction l1 as [|x l1 IH]; intros [|y l2] Hl H1 H2 Hlt; try done.
  injection Hl as Hl. apply Forall_cons in H1 as [Hx H1]. apply Forall_cons in H2 as [Hy H2]. rewrite !unbe_cons in Hlt.
  assert (El : len l1 = len l2) by (unfold len; lia). rewrite El in Hlt. pose proof (unbe_bound l1 H1) as B1. pose proof (unbe_bound l2 H2) as B2. rewrite El in B1.
  destruct (Z.lt_trichotomy x y) as [Hxy|[->|Hxy]]; [by exists [], x, y, l1, l2|apply before_cons, IH; (done || lia)|]. nia.
Qed.
Definition ikey (i : nat) : list Z := AppendUint64 [] (Z.of_nat i).
(** The rank of an index in the order of insertion. *)
Definition ord (i : nat) : Z := if (i =? 0)%nat then 255 else 2 * Z.of_nat i.
Lemma ikey_cases i : Z.of_nat i < 2 ^ 64 ->
  ikey i = if (i =? 0)%nat then [0x80] else if (i <? 128)%nat then [Z.of_nat i] else (0x80 + Z.of_nat (nbytes (Z.of_nat i))) :: be (nbytes (Z.of_nat i)) (Z.of_nat i).
Proof.
  intros Hi. unfold ikey. rewrite AppendUint64_enc by lia. cbn [app]. rewrite enc_nat_cases by lia.
  destruct (Nat.eqb_spec i 0) as [->|]; [done|]. rewrite (proj2 (Z.eqb_neq _ _)) by lia.
  destruct (Nat.ltb_spec i 128); [by rewrite (proj2 (Z.ltb_lt _ _)) by lia|by rewrite (proj2 (Z.ltb_ge _ _)) by lia].
Qed.
Lemma ikey_before i j : Z.of_nat i < 2 ^ 64 -> Z.of_nat j < 2 ^ 64 -> ord i < ord j -> before (ikey i) (ikey j).
Proof.
  intros Hi Hj Hlt. rewrite !ikey_cases by done. unfold ord in Hlt.
  assert (Hhead : forall x y a b, x < y -> before (x :: a) (y :: b)) by (intros x y a b Hxy; by exists [], x, y, a, b).
  assert (Hbig : forall n, (128 <= n)%nat -> 0x80 < 0x80 + Z.of_nat (nbytes (Z.of_nat n))) by (intros n Hn; destruct (nbytes_bounds (Z.of_nat n)); lia).
  destruct (Nat.eqb_spec i 0), (Nat.eqb_spec j 0); try lia.
  - rewrite (proj2 (Nat.ltb_ge j 128)) by lia. apply Hhead, Hbig. lia.
  - rewrite (proj2 (Nat.ltb_lt i 128)) by lia. apply Hhead. lia.
  - destruct (Nat.ltb_spec i 128) as [Hi'|Hi'], (Nat.ltb_spec j 128) as [Hj'|Hj']; try lia; [apply Hhead; lia|apply Hhead; specialize (Hbig j Hj'); lia|].
    destruct (nbytes_bounds (Z.of_nat i)) as [A1 B1]; [lia|]. destruct (nbytes_bounds (Z.of_nat j)) as [A2 B2]; [lia|].
    destruct (Nat.lt_trichotomy (nbytes (Z.of_nat i)) (nbytes (Z.of_nat j))) as [Hn|[Hn|Hn]]; [apply Hhead; lia| |].
    + rewrite Hn in *. apply before_cons, before_unbe; [by rewrite !be_length|apply be_bytes..|]. rewrite !unbe_be by lia. lia.
    + assert (256 ^ Z.of_nat (nbytes (Z.of_nat j)) <= 256 ^ (Z.of_nat (nbytes (Z.of_nat i)) - 1)) by (apply Z.pow_le_mono_r; lia). lia.
Qed.
Lemma ikey_inj i j : Z.of_nat i < 2 ^ 64 -> Z.of_nat j < 2 ^ 64 -> ikey i = ikey j -> i = j.
Proof.
  intros Hi Hj E. destruct (Z.lt_trichotomy (ord i) (ord j)) as [Hlt|[Heq|Hlt]].
  - apply ikey_before in Hlt; [|done..]. rewrite E in Hlt. by apply before_irrefl in Hlt.
  - unfold ord in Heq. destruct (Nat.eqb_spec i 0), (Nat.eqb_spec j 0); lia.
  - apply ikey_before in Hlt; [|done..]. rewrite E in Hlt. by apply before_irrefl in Hlt.
Qed.
Lemma ikey_bytes i : Z.of_nat i < 2 ^ 64 -> bytes (ikey i) /\ len (ikey i) <= 9.
Proof.
  intros Hi. rewrite ikey_cases by done. destruct (Nat.eqb_spec i 0); [by split; [apply (bool_decide_unpack (bytes [0x80])); vm_compute|vm_compute]|].
  destruct (Nat.ltb_spec i 128); [split; [constructor; [unfold is_byte; lia|constructor]|by vm_compute]|].
  pose proof (nbytes_u64 (Z.of_nat i) ltac:(lia)). split; [constructor; [unfold is_byte; lia|apply be_bytes]|]. rewrite len_cons. unfold len. rewrite be_length. lia.
Qed.

(** ** The order of insertion *)
Definition indexes (n : nat) : list nat := List.seq 1 (Nat.min n 128 - 1) ++ List.seq 0 (Nat.min n 1) ++ List.seq 128 (n - 128).
Lemma seq_sorted a n : (1 <= a)%nat -> StronglySorted (fun i j => ord i < ord j) (List.seq a n).
Proof.
  revert a. induction n as [|n IH]; intros a Ha; cbn [List.seq]; constructor; [apply IH; lia|]. apply Forall_forall. intros j [? _]%elem_of_seq.
  unfold ord. destruct (Nat.eqb_spec a 0), (Nat.eqb_spec j 0); lia.
Qed.
Lemma indexes_sorted n : StronglySorted (fun i j => ord i < ord j) (indexes n).
Proof.
  unfold indexes, ord. apply StronglySorted_app_2; [|apply seq_sorted; lia|apply StronglySorted_app_2; [| |apply seq_sorted; lia]].
  - intros i j Hi Hj. apply elem_of_seq in Hi. rewrite elem_of_app, !elem_of_seq in Hj. destruct (Nat.eqb_spec i 0), (Nat.eqb_spec j 0); lia.
  - intros i j Hi Hj. apply elem_of_seq in Hi, Hj. destruct (Nat.eqb_spec i 0), (Nat.eqb_spec j 0); lia.
  - destruct (Nat.min n 1) as [|[|k]] eqn:E; [constructor|constructor; constructor|lia].
Qed.
Lemma indexes_perm n : indexes n ≡ₚ List.seq 0 n.
Proof.
  unfold indexes. destruct n as [|n]; [done|]. rewrite app_assoc, (Permutation_app_comm (List.seq 1 _)), <- app_assoc.
  assert (Nat.min (S n) 1 = 1%nat) as -> by lia. cbn [List.seq app]. constructor. destruct (decide (n < 128)%nat).
  - replace (S n - 128)%nat with 0%nat by lia. cbn [List.seq]. rewrite app_nil_r. by replace (Nat.min (S n) 128 - 1)%nat with n by lia.
  - replace (Nat.min (S n) 128 - 1)%nat with 127%nat by lia. replace n with (127 + (S n - 128))%nat at 2 by lia. by rewrite seq_app.
Qed.

(** ** DeriveSha *)
Definition entry (items : list (list Z)) (i : nat) : list Z * list Z := (ikey i, default [] (items !! i)).
Definition item_ok (v : list Z) : Prop := v <> [] /\ bytes v /\ len v <= 2 ^ 32.
(** The map that a list is committed to. *)
Definition index_map (items : list (list Z)) : kvmap := list_to_map (entry items <$> List.seq 0 (length items)).
Lemma entries_ok items l :
  Forall item_ok items -> len items < 2 ^ 63 -> (forall i, i ∈ l -> (i < length items)%nat) -> Forall entry_ok (entry items <$> l).
Proof.
  intros Hi Hl Hb. apply Forall_fmap, Forall_forall. intros i Hil. specialize (Hb i Hil). destruct (lookup_lt_is_Some_2 items i Hb) as [v Hv].
  rewrite Forall_lookup in Hi. destruct (Hi _ _ Hv) as (? & ? & ?). unfold len in Hl. destruct (ikey_bytes i ltac:(lia)) as [? ?].
  unfold entry_ok, entry. cbn [compose fst snd]. rewrite Hv. simpl. split_and!; (done || lia).
Qed.
Lemma entries_sorted items l :
  (forall i, i ∈ l -> Z.of_nat i < 2 ^ 64) -> StronglySorted (fun i j => ord i < ord j) l -> Sorted before (entry items <$> l).*1.
Proof.
  intros Hb Hs. apply StronglySorted_Sorted. induction Hs as [|i l Hs IH Hf]; [constructor|]. cbn [fmap list_fmap]. constructor.
  - apply IH. intros j Hj. apply Hb. by right.
  - rewrite Forall_forall in Hf. apply Forall_forall. intros k ([? ?] & -> & (j & E & Hj)%list_elem_of_fmap)%list_elem_of_fmap. injection E as -> ->. cbn [fst entry].
    apply ikey_before; [apply Hb; left|apply Hb; by right|by apply Hf].
Qed.
Lemma entries_nodup items l : (forall i, i ∈ l -> Z.of_nat i < 2 ^ 64) -> NoDup l -> NoDup (entry items <$> l).*1.
Proof.
  intros Hb Hn. rewrite <- list_fmap_compose. apply NoDup_fmap_2_strong; [|done]. intros i j Hi Hj E. by apply ikey_inj in E; [|apply Hb..].
Qed.
Lemma build_map_list kvs : NoDup kvs.*1 -> build_map ∅ kvs = list_to_map kvs.
Proof.
  intros Hn. assert (E : forall l m, build_map m l = foldr (fun kv m => <[kv.1 := kv.2]> m) m (reverse l)).
  { induction l as [|kv l IH]; intros m; [done|]. rewrite reverse_cons, foldr_app. apply IH. }
  rewrite E. change (list_to_map (M := kvmap) (reverse kvs) = list_to_map kvs). symmetry. apply list_to_map_proper; [done|]. symmetry. apply reverse_Permutation.
Qed.
Lemma build_index items :
  len items < 2 ^ 63 -> build_map ∅ (entry items <$> indexes (length items)) = index_map items.
Proof.
  intros Hl. assert (Hb : forall i, i ∈ indexes (length items) -> Z.of_nat i < 2 ^ 64).
  { intros i Hi. rewrite indexes_perm in Hi. apply elem_of_seq in Hi. unfold len in Hl. lia. }
  assert (Hn : NoDup (entry items <$> indexes (length items)).*1) by (apply entries_nodup; [done|]; rewrite indexes_perm; apply NoDup_seq).
  rewrite build_map_list by done. apply list_to_map_proper; [done|]. by rewrite indexes_perm.
Qed.
Lemma index_map_lookup items i :
  len items < 2 ^ 63 -> Z.of_nat i < 2 ^ 64 -> index_map items !! ikey i = items !! i.
Proof.
  intros Hl Hi. assert (Hn : NoDup (entry items <$> List.seq 0 (length items)).*1).
  { apply entries_nodup; [|apply NoDup_seq]. intros j Hj%elem_of_seq. unfold len in Hl. lia. }
  destruct (items !! i) as [v|] eqn:E.
  - apply elem_of_list_to_map_1; [done|]. apply list_elem_of_fmap. exists i. split; [unfold entry; by rewrite E|]. apply elem_of_seq. apply lookup_lt_Some in E. lia.
  - apply not_elem_of_list_to_map_1. rewrite <- list_fmap_compose. intros (j & Ej & Hj%elem_of_seq)%list_elem_of_fmap. apply ikey_inj in Ej; [|done|unfold len in Hl; lia].
    subst j. apply lookup_ge_None in E. lia.
Qed.
Lemma index_map_inj l1 l2 : len l1 < 2 ^ 63 -> len l2 < 2 ^ 63 -> index_map l1 = index_map l2 -> l1 = l2.
Proof.
  intros H1 H2 E. apply list_eq. intros i. unfold len in *. destruct (decide (Z.of_nat i < 2 ^ 64)) as [Hi|Hi].
  - rewrite <- !index_map_lookup by done. by rewrite E.
  - rewrite !lookup_ge_None_2 by lia. done.
Qed.
Section hasher.
Context {S : Type} {H : DeriveSha.TrieHasher S}.
Lemma updates_app l1 l2 : forall s, updates (l1 ++ l2) s = (updates l1 ≫= fun _ => updates l2) s.
Proof.
  induction l1 as [|[k v] l1 IH]; intros s; [done|]. cbn [app updates]. unfold mbind, GoM_bind in *. destruct (DeriveSha.Update k v s) as [[[] s']| |]; [apply IH|done..].
Qed.
Lemma derive_loop_updates items n : forall i s, (i + n <= length items)%nat ->
  DeriveSha.derive_loop items n (Z.of_nat i) s = updates (entry items <$> List.seq i n) s.
Proof.
  induction n as [|n IH]; intros i s Hi; [done|]. cbn [DeriveSha.derive_loop List.seq fmap list_fmap updates entry]. rewrite Nat2Z.id.
  destruct (lookup_lt_is_Some_2 items i ltac:(lia)) as [v Hv]. rewrite Hv. cbn [default]. unfold mbind, GoM_bind, ikey.
  simpl. destruct (DeriveSha.Update _ v s) as [[? s']| |]; [|done..]. replace (Z.of_nat i + 1) with (Z.of_nat (Datatypes.S i)) by lia. apply IH. lia.
Qed.
Lemma DeriveSha_updates items s :
  DeriveSha.DeriveSha items s = (DeriveSha.Reset ≫= fun _ => updates (entry items <$> indexes (length items)) ≫= fun _ => DeriveSha.Hash) s.
Proof.
  unfold DeriveSha.DeriveSha, mbind, GoM_bind. destruct (DeriveSha.Reset s) as [[_ s1]| |]; [|done..]. unfold indexes. rewrite !fmap_app, !updates_app.
  assert (Z.to_nat (Z.min (len items) 128 - 1) = (Nat.min (length items) 128 - 1)%nat) as -> by (unfold len; lia).
  assert ((if 0 <? len items then 1%nat else 0%nat) = Nat.min (length items) 1) as -> by (unfold len; destruct (Z.ltb_spec 0 (Z.of_nat (length items))); lia).
  assert (Z.to_nat (len items - 128) = (length items - 128)%nat) as -> by (unfold len; lia).
  change 1 with (Z.of_nat 1). change 0 with (Z.of_nat 0). change 128 with (Z.of_nat 128). unfold mbind, GoM_bind.
  destruct (decide (length items = 0)%nat) as [E0|]; [by rewrite E0|]. rewrite derive_loop_updates by lia.
  destruct (updates _ s1) as [[_ s2]| |]; [|done..]. rewrite updates_app. unfold mbind, GoM_bind. rewrite derive_loop_updates by lia. destruct (updates _ s2) as [[_ s3]| |]; [|done..].
  destruct (decide (length items <= 128)%nat) as [Hl|Hl]; [by replace (length items - 128)%nat with 0%nat by lia|]. by rewrite derive_loop_updates by lia.
Qed.
End hasher.

Section derive.
Context `{C : Crypto} {CL : CryptoLaws C}.
Lemma derive_stack items s0 :
  length (children s0.1) = 16%nat -> Forall item_ok items -> len items < 2 ^ 63 ->
  exists h s', DeriveSha.DeriveSha items s0 = Done (h, s') /\ root_hash (index_map items) h /\ sized_map (index_map items).
Proof.
  intros Hs0 Hi Hl. rewrite DeriveSha_updates. rewrite <- build_index by done.
  assert (Hb : forall i, i ∈ indexes (length items) -> (i < length items)%nat) by (intros i Hx; rewrite indexes_perm in Hx; apply elem_of_seq in Hx; lia).
  set (s1 := (mk_StackTrie emptyNode [] [] (map (fun _ => None) (children s0.1)) false, s0.2)).
  assert (Hr : stack_rep false s1 ∅ None).
  { split; [|done]. eexists _, _. unfold s1. cbn [fst]. f_equal. apply list_eq. intros i. rewrite list_lookup_fmap. unfold no_children.
    destruct (decide (i < 16)%nat) as [Hlt|Hge].
    - destruct (lookup_lt_is_Some_2 (children s0.1) i ltac:(lia)) as [c ->]. symmetry. by apply lookup_replicate_2.
    - rewrite !lookup_ge_None_2; [done|by rewrite length_replicate; lia|lia]. }
  destruct (updates_stack false (entry items <$> indexes (length items)) s1 ∅ None Hr (map_Forall_empty _)) as (s2 & o & E & Hs2 & Hm).
  { apply Sorted_ordered, entries_sorted; [|apply indexes_sorted]. intros i Hx%Hb. unfold len in Hl. lia. }
  { by apply entries_ok. }
  destruct (Hash_ok false s2 _ o Hs2 Hm) as (h & s' & Eh & Hroot). exists h, s'. split; [|done].
  unfold mbind, GoM_bind. cbn [DeriveSha.Reset DeriveSha.Hash DeriveSha.StackTrie_hasher Reset gmodify]. unfold Reset, gmodify. fold s1. by rewrite E.
Qed.
Lemma derive_trie dbnode items tr0 :
  Forall item_ok items -> len items < 2 ^ 63 -> sized_map (index_map items) ->
  exists h tr', DeriveSha.DeriveSha (H := DeriveSha.Trie_hasher dbnode) items tr0 = Done (h, tr') /\ root_hash (index_map items) h.
Proof.
  intros Hi Hl Hm. rewrite DeriveSha_updates. rewrite <- build_index in * by done.
  destruct (updates_trie dbnode (entry items <$> indexes (length items)) Trie.empty_trie ∅ (represents_empty _ _)) as (tr1 & E & Hr).
  { apply entries_ok; [done..|]. intros i Hx. rewrite indexes_perm in Hx. apply elem_of_seq in Hx. lia. }
  destruct (Hash_spec dbnode false tr1 _ Hr Hm) as (h & tr' & Eh & Hroot & _). exists h, tr'. split; [|done].
  unfold mbind, GoM_bind. cbn [DeriveSha.Reset DeriveSha.Hash DeriveSha.Trie_hasher]. unfold Trie.Reset. rewrite E. exact Eh.
Qed.
Lemma index_map_nonempty items : items <> [] -> len items < 2 ^ 63 -> index_map items <> ∅.
Proof. intros Hne Hl E. pose proof (index_map_lookup items 0 Hl ltac:(lia)) as H0. rewrite E, lookup_empty in H0. by destruct items. Qed.

End derive.

(** ** Examples *)
Definition ex_kvs : list (list Z * list Z) := [([1; 2], replicate 20 7); ([1; 3], replicate 40 8); ([2; 0], [9])].
#[export] Instance entry_ok_dec kv : Decision (entry_ok kv).
Proof. unfold entry_ok, is_byte. apply _. Defined.
Lemma ex_kvs_ok : Forall entry_ok ex_kvs.
Proof. apply (bool_decide_unpack (Forall entry_ok ex_kvs)). by vm_compute. Qed.
Lemma ex_kvs_sorted : Sorted before ex_kvs.*1.
Proof.
  change (Sorted before [[1; 2]; [1; 3]; [2; 0]]). apply Sorted_cons; [apply Sorted_cons; [apply Sorted_cons; [apply Sorted_nil|apply HdRel_nil]|]|]; apply HdRel_cons.
  - by exists [], 1, 2, [3], [0].
  - by exists [1], 2, 3, [], [].
Qed.
(** A database that has what was put. *)
Definition put_db (w : puts) (h : list Z) : outcome (option Trie.node) :=
  match list_find (fun p => p.1 = h) w with
  | Some (_, (_, e)) => n ← Trie.mustDecodeNode (Some h) e; Done (Some n)
  | None => Done None
  end.
Definition ex_items : list (list Z) := [[1]; [2; 3]; replicate 40 5].
Lemma ex_items_ok : Forall item_ok ex_items.
Proof. repeat (constructor; [split; [done|]; split; [apply (bool_decide_unpack (bytes _)); by vm_compute|by vm_compute]|]). constructor. Qed.
Lemma stack_root_witness :
  exists h s', (updates ex_kvs ≫= fun _ => Hash (C := sample_crypto)) (NewStackTrie false, []) = Done (h, s')
    /\ root_hash (C := sample_crypto) (build_map ∅ ex_kvs) h.
Proof.
  destruct (stack_root (C := sample_crypto) false (put_db []) ex_kvs ex_kvs_sorted ex_kvs_ok) as (h & s' & tr' & E & _ & Hr).
  exists h, s'. split; [exact E|exact Hr].
Defined.
Lemma stack_commit_witness :
  exists h st w tr, (updates ex_kvs ≫= fun _ => Commit (C := sample_crypto)) (NewStackTrie true, []) = Done (inr h, (st, w))
    /\ Trie.New (put_db w) h = Done (inr tr) /\ represents (C := sample_crypto) (put_db w) false tr (build_map ∅ ex_kvs).
Proof.
  destruct (stack_commit (C := sample_crypto) ex_kvs ex_kvs_sorted ex_kvs_ok) as (h & st & w & E & _ & Hopen).
  assert (Hw : reads (put_db w) w /\ h <> Trie.zeroHash /\ h <> Trie.emptyRoot).
  { vm_compute in E. injection E as <- <- <-. split; [|by split].
    intros h e Hin. repeat (apply elem_of_cons in Hin as [[= -> ->]|Hin]; [eexists; split; vm_compute; reflexivity|]). by apply not_elem_of_nil in Hin. }
  destruct Hw as (Hw & Hz & He). destruct (Hopen (put_db w) Hw) as (tr & En & Hr); [intros [?|?]; [destruct (Hz ltac:(assumption))|destruct (He ltac:(assumption))]|].
  exists h, st, w, tr. split; [exact E|]. split; [exact En|exact Hr].
Defined.
End StackTrieProps.
